(* ===== verification/_CoqProject ===== *)
-Q . S2P
Prelude.v
Bytes.v
ConfigPath.v
Core.v
PlainText.v
Json.v
Managed.v
Auth.v
Encryption.v
AuditEvent.v
Rpc.v
Database.v
AuditTrail.v
ValuePaths.v
Store.v
Invariant.v
Values.v
ValuesPut.v
ValuesDelete.v
ValuesAlias.v
ValuesReplace.v
ValuesRead.v
ValuesList.v
System.v
Secrecy.v
Startup.v
Locks.v
ConnectionUrl.v
Identity.v
IdentityFake.v
Flow.v
ManagedStore.v
ManagedService.v
ManagedNames.v
ManagedMoves.v
ManagedRotate.v
ManagedRevoke.v
ManagedCreate.v
ManagedReads.v
ManagedSample.v
AuditQuery.v
AuditPages.v
ManagedRepair.v
AuditSample.v
BrokerLayers.v
BrokerSignature.v
BrokerSigned.v
LayerReader.v
Session.v
SigningKeys.v
Authenticate.v
Dispatch.v
Retirement.v
BrokerConfig.v
Broker.v
Oidc.v
PrivateFiles.v
Profiles.v
Provider.v
Client.v
Cli.v
CliProfile.v
JsonValue.v
Mcp.v
Authentik.v
ServerConfig.v
WebAssets.v
TelemetryConfig.v
Float64.v
WebTree.v
WebRoute.v
WebWire.v
WebSession.v
WebAudit.v
WebTrace.v
WebExport.v
