(* ===== verification/Prelude.v ===== *)
(** * Sovereign Config: a verification development

    Sovereign Config is a configuration service: a tree of values addressed by
    canonical paths, some plain and some secret, kept in PostgreSQL behind a
    gRPC server, with grants deciding who may do what where, an audit trail of
    every access, managed connections whose credentials an identity provider
    issues, clients that read the tree (a library, a command line, a provider
    for applications, a tool server and a web application), and a broker that
    serves its secrets to a continuous-integration server.  This development
    models the server, the core crate it shares with its clients, the clients
    and the broker, and proves what makes them correct.

    ** The parts and their files

    Shared by all:
    - [Prelude.v] (this file): byte strings, [result], traversals, stable
      sorting, list lemmas, tactics, the hint database [sovereign].
    - [Bytes.v]: the operations of Rust's [str] and [char] the crates call.
    - [Flow.v]: asynchronous programs as trees of atomic steps, run with
      interference before each step, with the weakest precondition [wpi] the
      concurrent proofs use.

    The core crate, [src/crates/sovereign-config-core/src]:
    - [ConfigPath.v] (module [Path]): [path.rs], parsing, folding, order and
      containment of paths.
    - [Core.v] (modules [Stamps], [Protocol], ...): [value.rs], [listing.rs],
      [error.rs] and [status.rs], the types of values and replies, timestamps
      and the choice of protocol version.
    - [PlainText.v], [Json.v]: [plain.rs] and [json.rs], the two renderings of
      a subtree and the parser of the second.  The JSON text codec itself is a
      parameter with its round trip as a law.
    - [Managed.v]: the vocabulary of [managed.rs].
    - [ConnectionUrl.v] (module [Connection]): [connection.rs], the connection
      URL, its parser and its builder.

    The server, [src/crates/sovereign-config-server/src]:
    - [SigningKeys.v] (module [Jwks]): [jwks.rs], the cache of issuers' keys as
      a state machine of concurrent lookups around one lock per issuer.
    - [Authenticate.v]: [auth.rs] from the bearer header to the principal: the
      token's parts, its signature, its window of validity in the arithmetic
      of [f64], its claims.
    - [Auth.v]: the grants of [auth.rs], from token claims to [allows].
    - [Dispatch.v]: [protocol.rs], [handshake.rs], [system.rs], the layers in
      front of the services and the counters that say when a version may be
      retired.
    - [Encryption.v] (module [Cipher]): [encryption.rs], over the class
      [Crypto] of what the cryptographic crates provide and [CryptoLaws] of
      what they document; a toy instance shows the laws can hold.
    - [AuditEvent.v]: the events of [audit/mod.rs] and their wording in
      [audit/narrative.rs].
    - [Rpc.v]: [rpc.rs], call contexts and statuses.
    - [Database.v]: the tables of the migrations as a record of finite maps,
      and the monad [M] of effectful code: a [World] holds the database, a
      schedule of statement outcomes (done, failed, or done with the reply
      lost), the randomness to come, the clock, the counters and the locks
      requested.  [in_transaction] rolls tables back and sequences not.
    - [AuditTrail.v] (module [Trail]): the recorder of [audit/mod.rs] over the
      statements of [audit/store.rs], with coalescing, counters and retention.
    - [AuditQuery.v]: [audit/service.rs] and the queries of [audit/store.rs].
    - [ValuePaths.v]: [values/authz.rs], [content.rs], [paths.rs] and
      [subtree.rs] (modules [Authz], [Paths], [Subtree], [Normalize]).
    - [Store.v]: every statement of [values/store.rs].
    - [Values.v]: the eight operations of [values/service.rs], composed as the
      source composes them, and a sample deployment the witnesses run.
    - [Startup.v]: the encryption pass of [values/startup.rs].
    - [ManagedStore.v], [ManagedService.v]: [managed/], the statements on the
      stored connections and the operations, provisioning and reconciliation
      over them, as flows.
    - [ManagedRepair.v]: the one-time repair of actor names, [managed/repair.rs].
    - [ServerConfig.v] (module [Deployment]): [config.rs], the settings, and the
      construction of the managed connections' dependencies in [main.rs].
    - [WebAssets.v] (module [Web]): [web.rs], the web application's files, page
      configuration and installers.
    - [TelemetryConfig.v] (module [Otel]), of
      [src/crates/sovereign-config-telemetry]: [config.rs], the [OTEL_*]
      variables as one set.

    The identity provider, [src/crates/sovereign-config-identity/src]:
    - [Identity.v]: the trait as a class of operations over a provider's state,
      its documented contract as the class [ProviderLaws].
    - [IdentityFake.v]: [fake.rs], an instance of both.
    - [Authentik.v], of [src/crates/sovereign-config-authentik]: the production
      provider over an identity server with the laws its API documents,
      another instance of both.

    The clients:
    - [Session.v]: [sovereign-config-client/src/lib.rs], the negotiated session
      and the call that survives a version's retirement, against the classes
      [VersionedService] and [ServiceLaws].
    - [Retirement.v]: the native transport over the server of [Dispatch.v],
      which discharges [ServiceLaws].
    - [Client.v]: the operations of that file over the transport traits.
    - [LayerReader.v]: [sovereign-config-layers/src/reader.rs] over a subtree
      transport and a token source.
    - [Oidc.v], [PrivateFiles.v], [Profiles.v]: [sovereign-config-native/src], the
      device flow of [oidc.rs], the files of [storage.rs], and the credentials
      and profiles kept in them.
    - [Provider.v]: [sovereign-config-provider/src], the configuration of an
      application as a tree.
    - [Cli.v], [CliProfile.v]: [sovereign-config-cli/src], connections, sessions,
      the commands on values, [render] and [exec], and the profile commands.
    - [JsonValue.v], [Mcp.v] (modules [Mcp], [Server]): [sovereign-config-mcp/src],
      the tools, and the loop that answers requests over them.

    The web application, [src/crates/sovereign-config-web/src]:
    - [Float64.v] (module [F64]): the browser's numbers.
    - [WebTree.v] (module [Tree]): [tree.rs], the navigation tree and its loads.
    - [WebRoute.v] (module [Nav]): [route.rs], addresses and unsaved edits.
    - [WebWire.v] (module [GrpcWeb]): the frames of [transport/mod.rs].
    - [WebSession.v] (module [Login]): [session.rs] and [browser.rs], login,
      refresh and the tokens of a call.
    - [WebAudit.v] (module [View]): [audit.rs], the filter form, the list that
      loads as it is scrolled and the page around them, with the messages of
      [transport/v5.rs] and the server's [audit/v5.rs] at the two ends.
    - [WebTrace.v] (module [Trace]), [WebExport.v] (module [Exporting]):
      [telemetry/], what an action says about its calls, made by [grpc_unary] of
      [transport/mod.rs], and its export.

    The broker, [src/crates/sovereign-config-woodpecker-broker/src]:
    - [BrokerLayers.v] (module [Templates]): [layers.rs], path templates.
    - [BrokerSignature.v], [BrokerSigned.v]: [signature.rs], the verification
      of a signed request, and the requests it accepts.
    - [BrokerConfig.v]: [config.rs], [pubkey.rs] and [connect.rs].
    - [Broker.v]: the model, errors, counters, reader queue and handler, over
      the files above.

    ** What is proved

    - The stored tree.  [Invariant.v] states [tree_wf] and [sealed];
      [ValuesPut.v], [ValuesDelete.v], [ValuesAlias.v] and [ValuesReplace.v]
      say exactly what a successful mutation changes and what any mutation
      keeps; [ValuesRead.v] and [ValuesList.v] what the reads answer.
      [System.v] makes the eight operations one state machine: every reachable
      deployment is well formed with its secrets sealed, and failed calls
      change nothing.  [Startup.v]: the encryption pass seals what is plain and
      commits nothing under a wrong key.
    - Secrecy.  [Secrecy.v] relates two runs of the whole service: no operation
      but [reveal_secret] lets stored secret text influence a reply or the
      trail.
    - Locks.  [Locks.v], over the hash that names the locks: exclusion of nested
      paths, freedom from deadlock of mutations of one path each unless the hash
      confuses a path with a shallower one, and the two cases without it.
    - Managed connections.  [ManagedMoves.v]: the lifecycle, under any
      interleaving, and the bound on a call's steps; [ManagedCreate.v],
      [ManagedRotate.v], [ManagedRevoke.v]: what each operation has done when
      it reports success, and that no fault or interruption leaves an account
      without a stored connection, for a creation whose row nobody else touches
      meanwhile, and for the accounts that are known when a revocation runs (a
      create still in flight may land another after it); [ManagedReads.v], [ManagedNames.v]: what is
      listed and how names are generated; [ManagedRepair.v]: a completed repair
      leaves no earlier name.  [ManagedSample.v] runs the witnesses.
    - The trail.  [AuditPages.v]: paging misses and repeats nothing, and an
      event is shown exactly to those the grant check admits;
      [AuditSample.v] runs the witnesses.
    - Who is served.  [SigningKeys.v], [Authenticate.v] and [Dispatch.v]: keys
      follow the issuer and fetches that unknown keys prompt are bounded, an
      authenticated caller holds a current token signed by an accepted issuer,
      services see no other, and the counters of versions are exact.
    - Versions.  [Session.v] and [Retirement.v]: a session speaks the version
      it reports, and survives the retirement of one while another is left.
    - The provider of identities.  [Authentik.v]: it keeps the contract the
      managed service is proved against, but for a create whose exchange broke,
      which it reports as undelivered though it may have been applied, and for
      grants kept under the attribute that records the connection.
    - Clients.  [Oidc.v]: a device login ends; [PrivateFiles.v]: in the place
      of a private file there is the old one or the new one, whole; [Profiles.v], [CliProfile.v]: a change of profiles is kept
      and ends no other profile's login; [Provider.v], [Cli.v]: what is loaded
      and printed is what is stored; [Mcp.v]: every request is answered once.
    - Deployment.  [ServerConfig.v], [WebAssets.v], [TelemetryConfig.v]: accepted
      settings agree with each other, only published files are served, and
      refusals repeat no value.
    - The web application.  [WebTree.v]: the sidebar shows the namespaces, and a
      late load changes nothing; [WebRoute.v]: unsaved edits are left by
      discarding or by the end of a login only; [WebWire.v]: what an answer is read
      as, whole and cut short anywhere; [WebSession.v]: a login ends
      where it began, a session lasts until it is refused; [WebAudit.v]: the
      list is one scroll of one query, and the form accepts what the service
      accepts; [WebTrace.v]: every trace is one tree, of words of the build,
      and tells no more of a call than its route, times, status and kind of
      error; [WebExport.v]: export keeps its bounds, sends under the session's
      token, and leaves an ingest alone that keeps failing.
    - Layers and the broker.  A later layer wins; a rendered path determines
      the metadata it came from; secrets are served to signed requests only,
      and a request signed as the profile says is accepted.

    ** How the model relates to the code

    A Rust [String] is its UTF-8 bytes; an [OffsetDateTime] is an instant in
    nanoseconds, rounded to microseconds where a column stores it; integers of
    a width keep their bounds ([i64] sequences, wrapping 64-bit counters,
    32-bit event counts, saturating [u64] clocks); an [f64] is Rocq's
    specification float of 53 bits of precision and exponents up to 1024.
    Fallible code returns [result]; [?] is the bind of [M] or [let?].  A
    statement that violates a constraint or misses a required row fails, and
    the service sees one bounded status, as in the source.

    Concurrency is modelled where it matters.  The value service runs each
    mutation in one transaction under advisory locks: its operations run in
    sequence, and the competition for locks is a step relation of its own.
    The managed service, sessions, the key cache and the broker's queue
    interleave: their programs are flows or step relations, with any other
    task free to act between two atomic steps.

    Code of other packages is an operation of a class, and what the code relies
    on is a class of laws ([Crypto]/[CryptoLaws], [UrlCrates]/[UrlLaws],
    [ProviderLaws], [QueryLaws], [OidcLaws], [TomlLaws], [LoadLaws],
    [ServerLaws], ...), each with an instance that shows the laws can hold.  The
    hash that names advisory locks and the browser's [fetch] are arbitrary
    functions.  A browser's events, the answers to its requests and its timers
    come in any order, as lists of events.

    ** Bounds and fuel

    Recursion is structural throughout except where the source loops on a
    shrinking datum: [has_stored_ancestor] takes the length of the path as
    fuel, and is proved to find exactly the accepted ancestors with it, since
    each round shortens the path; the scanners of templates and headers take
    the length of the text, which every round shortens.  The decimal printer
    takes twenty digits, which every 64-bit integer fits, and is proved
    injective on those.  A managed operation takes at most eighteen atomic
    steps, which is a theorem and not fuel.  The polls of a device login are
    bounded by its lifetime over its interval; the scanner of gRPC-Web frames
    takes the length of the answer and one, and every round takes at least the
    five bytes of a frame's head ([frames_fuel]).  Random bytes are a list drawn
    from front to back.  The generations of loads and lists wrap at 64 bits;
    the theorems about them bound the number of events by that.

    ** Not modelled

    The per-version shims and message conversions but those of the audit
    service's version 5, which copy fields between generated types; the text of
    the metrics pages; process start-up, listeners and the wiring of the
    telemetry SDK; argument parsing and the status report of the command line,
    and the production backend of the tool server, which calls the same
    operations; of the web application, the views of values, connections and
    downloads, the elements of the document and the dialers of its transport;
    writes of its session storage that take some keys and not others, and pages
    of rows the document takes in part.
    Spans and logs of the server have no effect the model observes.  The content
    locks that pruning takes after the path locks are recorded by
    [Store.lock_content] but are not part of the competition modelled in
    [Locks.v]. *)

From stdpp Require Export base tactics list option gmap sorting.
From stdpp Require Import strings.
From Stdlib Require Export Ascii ZArith Lia.

(** ** Byte strings

    A Rust [&str] or [String] is its UTF-8 byte sequence; a byte is an
    [ascii], Rocq's type of eight booleans.  String literals of the scope
    [bytes_scope] denote such sequences. *)

Abbreviation bytes := (list ascii).

Declare Scope bytes_scope.
Delimit Scope bytes_scope with bs.

Definition bytes_of_literal (l : list Byte.byte) : bytes := List.map ascii_of_byte l.
Definition literal_of_bytes (l : bytes) : list Byte.byte := List.map byte_of_ascii l.
String Notation bytes bytes_of_literal literal_of_bytes : bytes_scope.

(** ** Fallible results

    Rust's [Result], with the success type first as in the source. *)

Inductive result (A E : Type) : Type :=
| Ok (a : A)
| Err (e : E).
Arguments Ok {A E} a.
Arguments Err {A E} e.

#[global] Instance result_ret {E} : MRet (fun A => result A E) := fun _ a => Ok a.
#[global] Instance result_bind {E} : MBind (fun A => result A E) :=
  fun _ _ f m => match m with Ok a => f a | Err e => Err e end.
#[global] Instance result_eq_dec {A E} `{EqDecision A, EqDecision E} :
  EqDecision (result A E).
Proof. solve_decision. Defined.

(** [Option::ok_or] and [Result::map_err] of the source. *)
Definition ok_or {A E} (o : option A) (e : E) : result A E :=
  match o with Some a => Ok a | None => Err e end.

Definition map_err {A E F} (r : result A E) (f : E → F) : result A F :=
  match r with Ok a => Ok a | Err e => Err (f e) end.

Definition is_ok {A E} (r : result A E) : bool :=
  match r with Ok _ => true | Err _ => false end.

Definition ok {A E} (r : result A E) : option A :=
  match r with Ok a => Some a | Err _ => None end.

(** Early return on an error: Rust's [let x = m?;]. *)
Definition and_then {A B E} (m : result A E) (k : A → result B E) : result B E :=
  match m with Ok a => k a | Err e => Err e end.

Notation "'let?' x := m 'in' k" := (and_then m (λ x, k))
  (at level 200, x name, m at level 100, k at level 200, right associativity).

(** A left-to-right traversal that stops at the first error, the shape of
    every [for … { …? }] loop that only collects. *)
Fixpoint map_result {A B E} (f : A → result B E) (l : list A) : result (list B) E :=
  match l with
  | [] => Ok []
  | x :: l' =>
      match f x with
      | Err e => Err e
      | Ok y => match map_result f l' with
                | Err e => Err e
                | Ok ys => Ok (y :: ys)
                end
      end
  end.

(** A left-to-right fold that stops at the first error. *)
Fixpoint fold_result {A B E} (f : B → A → result B E) (acc : B) (l : list A) : result B E :=
  match l with
  | [] => Ok acc
  | x :: l' => match f acc x with
               | Err e => Err e
               | Ok acc' => fold_result f acc' l'
               end
  end.

(** ** Stable sorting

    [slice::sort_by] is stable; insertion sort from the right is the stable
    sort with the shortest correctness argument. *)

Section sort_by.
Context {A : Type} (leb : A → A → bool).

Fixpoint insert_by (x : A) (l : list A) : list A :=
  match l with
  | [] => [x]
  | y :: l' => if leb x y then x :: y :: l' else y :: insert_by x l'
  end.

Definition sort_by (l : list A) : list A := foldr insert_by [] l.

Lemma insert_by_perm x l : insert_by x l ≡ₚ x :: l.
Proof.
  induction l as [|y l IH]; simpl; [done|].
  destruct (leb x y); [done|]. by rewrite IH, Permutation_swap.
Qed.

Lemma sort_by_perm l : sort_by l ≡ₚ l.
Proof.
  induction l as [|x l IH]; [done|].
  unfold sort_by in *. simpl. by rewrite insert_by_perm, IH.
Qed.

Lemma elem_of_sort_by x l : x ∈ sort_by l ↔ x ∈ l.
Proof. by rewrite sort_by_perm. Qed.

Lemma length_sort_by l : length (sort_by l) = length l.
Proof. by rewrite sort_by_perm. Qed.

Context (leb_total : ∀ x y, leb x y = false → leb y x = true)
        (leb_trans : ∀ x y z, leb x y = true → leb y z = true → leb x z = true).

Lemma insert_by_sorted x l :
  StronglySorted (λ a b, leb a b = true) l →
  StronglySorted (λ a b, leb a b = true) (insert_by x l).
Proof.
  induction l as [|y l IH]; simpl; intros Hs.
  - repeat constructor.
  - apply StronglySorted_cons in Hs as [Hy Hs].
    destruct (leb x y) eqn:E.
    + constructor; [by constructor|]. constructor; [done|].
      eapply Forall_impl; [exact Hy|]. eauto.
    + constructor; [by apply IH|].
      rewrite insert_by_perm. constructor; auto.
Qed.

Lemma sort_by_sorted l : StronglySorted (λ a b, leb a b = true) (sort_by l).
Proof.
  induction l as [|x l IH]; [constructor|].
  unfold sort_by in *. simpl. by apply insert_by_sorted.
Qed.
End sort_by.

(** ** Tactics *)

(** Splits boolean conjunctions and turns boolean facts into propositions. *)
Ltac bool_prop :=
  repeat match goal with
  | H : (_ && _) = true |- _ => apply andb_true_iff in H as [? ?]
  | H : (_ || _) = false |- _ => apply orb_false_iff in H as [? ?]
  | H : negb _ = true |- _ => apply negb_true_iff in H
  | H : negb _ = false |- _ => apply negb_false_iff in H
  | H : bool_decide _ = true |- _ => apply bool_decide_eq_true_1 in H
  | H : bool_decide _ = false |- _ => apply bool_decide_eq_false_1 in H
  | H : Is_true _ |- _ => apply Is_true_eq_true in H
  end.

(** Case analysis on the scrutinee of a match or conditional in a hypothesis. *)
Ltac destruct_match_in H :=
  match type of H with
  | context [match ?x with _ => _ end] => destruct x eqn:?; simplify_eq/=
  end.

Create HintDb sovereign.

(** ** Generic lemmas *)

Lemma and_then_ok {A B E} (m : result A E) (k : A → result B E) b :
  and_then m k = Ok b ↔ ∃ a, m = Ok a ∧ k a = Ok b.
Proof. destruct m; naive_solver. Qed.

Lemma map_err_ok {A E F} (r : result A E) (f : E → F) a : map_err r f = Ok a ↔ r = Ok a.
Proof. destruct r; naive_solver. Qed.

Lemma ok_or_ok {A E} (o : option A) (e : E) a : ok_or o e = Ok a ↔ o = Some a.
Proof. destruct o; naive_solver. Qed.

Lemma map_result_ok {A B E} (f : A → result B E) l l' :
  map_result f l = Ok l' ↔ Forall2 (λ x y, f x = Ok y) l l'.
Proof.
  revert l'. induction l as [|x l IH]; intros l'; simpl.
  - split; [by intros [= <-]|by inversion 1].
  - split.
    + intros H. repeat destruct_match_in H. constructor; [done|]. by apply IH.
    + inversion 1 as [|? y ? ys Hy Hys]; simplify_eq. rewrite Hy.
      apply IH in Hys. by rewrite Hys.
Qed.

Lemma forallb_Forall {A} (f : A → bool) l :
  forallb f l = true ↔ Forall (λ x, f x = true) l.
Proof.
  induction l as [|x l IH]; simpl; [naive_solver|].
  rewrite andb_true_iff, Forall_cons. naive_solver.
Qed.

Lemma existsb_Exists {A} (f : A → bool) l :
  existsb f l = true ↔ Exists (λ x, f x = true) l.
Proof.
  induction l as [|x l IH]; simpl; [split; [done|inversion 1]|].
  rewrite orb_true_iff, Exists_cons. naive_solver.
Qed.

Lemma existsb_elem_of {A} (f : A → bool) l :
  existsb f l = true ↔ ∃ x, x ∈ l ∧ f x = true.
Proof. by rewrite existsb_Exists, Exists_exists. Qed.

Lemma existsb_false {A} (f : A → bool) l :
  existsb f l = false ↔ ∀ x, x ∈ l → f x = false.
Proof.
  rewrite <- not_true_iff_false, existsb_elem_of. split.
  - intros H x Hx. destruct (f x) eqn:E; [|done]. destruct H. eauto.
  - intros H (x & Hx & E). rewrite H in E; done.
Qed.

Lemma Sorted_nodup_unique {A} (R : relation A) l1 l2 :
  (∀ x y, x ∈ l1 → y ∈ l2 → R x y → R y x → x = y) →
  StronglySorted R l1 → StronglySorted R l2 → l1 ≡ₚ l2 → l1 = l2.
Proof. intros H. apply StronglySorted_unique_strong. naive_solver. Qed.

Lemma Forall_map_iff {A B} (f : A → B) (P : B → Prop) l :
  Forall P (List.map f l) ↔ Forall (λ x, P (f x)) l.
Proof. apply Forall_fmap. Qed.

Lemma removelast_cons {A} (x : A) l : l ≠ [] → removelast (x :: l) = x :: removelast l.
Proof. by destruct l. Qed.

Lemma perm_cons_not_nil {A} (x : A) l k : l ≡ₚ x :: k → l ≠ [].
Proof. intros H ->. by apply Permutation_nil_cons in H. Qed.

(** ** Pairwise relations on lists *)

Lemma FOP_cons_iff {A} (R : A → A → Prop) x l :
  ForallOrdPairs R (x :: l) ↔ Forall (R x) l ∧ ForallOrdPairs R l.
Proof. split; [by inversion 1|]. intros [? ?]. by constructor. Qed.

Lemma FOP_app {A} (R : A → A → Prop) l1 l2 :
  ForallOrdPairs R (l1 ++ l2) ↔
  ForallOrdPairs R l1 ∧ ForallOrdPairs R l2 ∧ ∀ x y, x ∈ l1 → y ∈ l2 → R x y.
Proof.
  induction l1 as [|x l1 IH]; simpl.
  - split; [intros; split_and!; [constructor|done|by intros ?? []%not_elem_of_nil]|naive_solver].
  - rewrite !FOP_cons_iff, Forall_app, IH, (Forall_forall _ l2). set_solver.
Qed.

Lemma FOP_perm {A} (R : A → A → Prop) `{!Symmetric R} l1 l2 :
  l1 ≡ₚ l2 → ForallOrdPairs R l1 → ForallOrdPairs R l2.
Proof.
  intros Hp. induction Hp as [|x l1 l2 Hp IH|x y l|l1 l2 l3 _ IH1 _ IH2]; [done|..].
  - rewrite !FOP_cons_iff. intros [Hx Hl]. split; [by rewrite <- Hp|auto].
  - rewrite !FOP_cons_iff, !Forall_cons. naive_solver.
  - auto.
Qed.

Lemma FOP_map {A B} (R : B → B → Prop) (f : A → B) l :
  ForallOrdPairs R (List.map f l) ↔ ForallOrdPairs (λ x y, R (f x) (f y)) l.
Proof.
  induction l as [|x l IH]; simpl; [split; constructor|].
  by rewrite !FOP_cons_iff, Forall_map_iff, IH.
Qed.

Lemma FOP_impl {A} (R S : A → A → Prop) l :
  (∀ x y, R x y → S x y) → ForallOrdPairs R l → ForallOrdPairs S l.
Proof. intros H. induction 1; constructor; [|done]. eapply Forall_impl; eauto. Qed.

(** ** Sublists, keys and traversals *)

Lemma filter_sublist {A} (f : A → bool) l : List.filter f l `sublist_of` l.
Proof. induction l as [|x l IH]; simpl; [constructor|]. destruct (f x); by constructor. Qed.

Lemma map_sublist {A B} (g : A → B) l l' : l `sublist_of` l' → List.map g l `sublist_of` List.map g l'.
Proof. induction 1; simpl; by constructor. Qed.

Lemma FOP_elem {A} (R : A → A → Prop) `{!Symmetric R} l x y :
  ForallOrdPairs R l → x ∈ l → y ∈ l → x = y ∨ R x y.
Proof.
  induction 1 as [|z l Hz _ IH]; [by intros []%not_elem_of_nil|].
  rewrite Forall_forall in Hz. intros [->|Hx]%elem_of_cons [->|Hy]%elem_of_cons; auto.
Qed.

Lemma FOP_sublist {A} (R : A → A → Prop) l l' :
  l `sublist_of` l' → ForallOrdPairs R l' → ForallOrdPairs R l.
Proof.
  induction 1 as [|x l l' Hs IH|x l l' Hs IH]; [done|..]; rewrite ?FOP_cons_iff.
  - intros [Hx Hl]. split; [|auto]. rewrite Forall_forall in *. intros y Hy.
    apply Hx. by eapply elem_of_sublist.
  - intros [_ Hl]. auto.
Qed.

Lemma nodup_fst_unique {A B} (l : list (A * B)) k v v' :
  NoDup (List.map fst l) → (k, v) ∈ l → (k, v') ∈ l → v = v'.
Proof.
  induction l as [|[k0 v0] l IH]; cbn [List.map fst]; [by intros _ []%not_elem_of_nil|].
  intros [Hn Hnd]%NoDup_cons.
  assert (∀ x, (k0, x) ∉ l) as Hno.
  { intros x Hx. apply Hn, list_elem_of_In, in_map_iff. exists (k0, x). split; [done|].
    by apply list_elem_of_In. }
  intros [?|?]%elem_of_cons [?|?]%elem_of_cons; simplify_eq; [done|by edestruct Hno..|by apply IH].
Qed.

Lemma map_result_total {A B E} (f : A → result B E) (g : A → B) l :
  (∀ x, x ∈ l → f x = Ok (g x)) → map_result f l = Ok (List.map g l).
Proof.
  induction l as [|x l IH]; intros H; [done|]. cbn [map_result List.map].
  rewrite H by (by left). rewrite IH; [done|]. intros y Hy. apply H. by right.
Qed.

Lemma map_result_omap {A B C E} (f : B → result C E) (g : A → option B) (h : A → option C) l :
  (∀ x, x ∈ l → match g x with Some y => ∃ z, f y = Ok z ∧ h x = Some z | None => h x = None end) →
  map_result f (omap g l) = Ok (omap h l).
Proof.
  induction l as [|x l IH]; intros Hl; [done|].
  assert (map_result f (omap g l) = Ok (omap h l)) as IH' by (apply IH; intros; apply Hl; by right).
  pose proof (Hl x (list_elem_of_here _ _)) as Hx.
  change (omap g (x :: l)) with (match g x with Some y => y :: omap g l | None => omap g l end).
  change (omap h (x :: l)) with (match h x with Some y => y :: omap h l | None => omap h l end).
  destruct (g x) as [y|]; [destruct Hx as (z & Hy & ->)|by rewrite Hx].
  cbn [map_result]. by rewrite Hy, IH'.
Qed.
