(* ===== verification/Bytes.v ===== *)
(** * Rust string and byte operations

    The parts of [core::str] and [core::ascii] the crates call, on the byte
    representation: ASCII classification and folding, [split], [rsplit_once],
    [strip_prefix], trimming, the lexicographic byte order (which is also
    PostgreSQL's [COLLATE "C"]), and the UTF-8 view [chars] of a string. *)

From S2P Require Import Prelude.

Local Open Scope bytes_scope.

(** ** ASCII classes, on the byte's code *)

Definition code (c : ascii) : Z := Z.of_N (N_of_ascii c).

Definition is_ascii_lowercase (c : ascii) : bool := (97 <=? code c)%Z && (code c <=? 122)%Z.
Definition is_ascii_uppercase (c : ascii) : bool := (65 <=? code c)%Z && (code c <=? 90)%Z.
Definition is_ascii_digit (c : ascii) : bool := (48 <=? code c)%Z && (code c <=? 57)%Z.
Definition is_ascii_alphabetic (c : ascii) : bool := is_ascii_lowercase c || is_ascii_uppercase c.
Definition is_ascii_alphanumeric (c : ascii) : bool := is_ascii_alphabetic c || is_ascii_digit c.
Definition is_ascii_control (c : ascii) : bool := (code c <? 32)%Z || (code c =? 127)%Z.
Definition is_ascii (c : ascii) : bool := (code c <? 128)%Z.

(** [u8::is_ascii_whitespace]: space, tab, line feed, form feed, carriage return. *)
Definition is_ascii_whitespace (c : ascii) : bool :=
  existsb (Z.eqb (code c)) [32; 9; 10; 12; 13]%Z.

(** [u8::to_ascii_lowercase]. *)
Definition lower_byte (c : ascii) : ascii :=
  if is_ascii_uppercase c then ascii_of_N (Z.to_N (code c + 32)) else c.

Definition to_ascii_lowercase (s : bytes) : bytes := List.map lower_byte s.

(** [eq_ignore_ascii_case]: same length, and bytes equal after folding. *)
Fixpoint eq_ignore_ascii_case (a b : bytes) : bool :=
  match a, b with
  | [], [] => true
  | x :: a', y :: b' =>
      bool_decide (lower_byte x = lower_byte y) && eq_ignore_ascii_case a' b'
  | _, _ => false
  end.

(** ** Order *)

(** [Ord for [u8]]: lexicographic on unsigned bytes. *)
Fixpoint cmp_bytes (a b : bytes) : comparison :=
  match a, b with
  | [], [] => Eq
  | [], _ :: _ => Lt
  | _ :: _, [] => Gt
  | x :: a', y :: b' =>
      match Z.compare (code x) (code y) with
      | Eq => cmp_bytes a' b'
      | c => c
      end
  end.

Definition bytes_leb (a b : bytes) : bool :=
  match cmp_bytes a b with Gt => false | _ => true end.

Definition bytes_ltb (a b : bytes) : bool :=
  match cmp_bytes a b with Lt => true | _ => false end.

(** ** Searching and splitting *)

Definition contains_byte (c : ascii) (s : bytes) : bool := bool_decide (c ∈ s).

Fixpoint strip_prefix (p s : bytes) : option bytes :=
  match p, s with
  | [], _ => Some s
  | x :: p', y :: s' => if bool_decide (x = y) then strip_prefix p' s' else None
  | _ :: _, [] => None
  end.

Definition starts_with (s p : bytes) : bool :=
  match strip_prefix p s with Some _ => true | None => false end.

Definition ends_with (s p : bytes) : bool := starts_with (rev s) (rev p).

(** [str::split(c)]: never empty, and keeps empty pieces. *)
Fixpoint split (c : ascii) (s : bytes) : list bytes :=
  match s with
  | [] => [[]]
  | x :: s' =>
      if bool_decide (x = c) then [] :: split c s'
      else match split c s' with
           | [] => [[x]]
           | piece :: rest => (x :: piece) :: rest
           end
  end.

(** [[T]::join] with a separator string. *)
Fixpoint join (sep : bytes) (l : list bytes) : bytes :=
  match l with
  | [] => []
  | [x] => x
  | x :: l' => x ++ sep ++ join sep l'
  end.

Fixpoint split_once (c : ascii) (s : bytes) : option (bytes * bytes) :=
  match s with
  | [] => None
  | x :: s' =>
      if bool_decide (x = c) then Some ([], s')
      else match split_once c s' with
           | Some (a, b) => Some (x :: a, b)
           | None => None
           end
  end.

(** [str::rsplit_once(c)]: around the last occurrence. *)
Fixpoint rsplit_once (c : ascii) (s : bytes) : option (bytes * bytes) :=
  match s with
  | [] => None
  | x :: s' =>
      match rsplit_once c s' with
      | Some (a, b) => Some (x :: a, b)
      | None => if bool_decide (x = c) then Some ([], s') else None
      end
  end.

Fixpoint trim_start_matches (c : ascii) (s : bytes) : bytes :=
  match s with
  | x :: s' => if bool_decide (x = c) then trim_start_matches c s' else s
  | [] => []
  end.

Definition trim_end_matches (c : ascii) (s : bytes) : bytes :=
  rev (trim_start_matches c (rev s)).

Fixpoint drop_while {A} (f : A → bool) (l : list A) : list A :=
  match l with
  | x :: l' => if f x then drop_while f l' else l
  | [] => []
  end.

(** [str::split_ascii_whitespace]: the non-empty pieces between whitespace. *)
Fixpoint split_ascii_whitespace_acc (acc : bytes) (s : bytes) : list bytes :=
  match s with
  | [] => match acc with [] => [] | _ => [rev acc] end
  | x :: s' =>
      if is_ascii_whitespace x
      then match acc with
           | [] => split_ascii_whitespace_acc [] s'
           | _ => rev acc :: split_ascii_whitespace_acc [] s'
           end
      else split_ascii_whitespace_acc (x :: acc) s'
  end.
Definition split_ascii_whitespace (s : bytes) : list bytes := split_ascii_whitespace_acc [] s.

(** ** Decimal rendering, as [format!("{n}")] prints integers *)

Definition digit_byte (d : Z) : ascii := ascii_of_N (Z.to_N (48 + d)).

Fixpoint decimal_digits (fuel : nat) (n : Z) (acc : bytes) : bytes :=
  match fuel with
  | O => acc
  | S fuel' =>
      let acc' := digit_byte (n mod 10) :: acc in
      if (n <? 10)%Z then acc' else decimal_digits fuel' (n / 10) acc'
  end.

(** Twenty digits cover every 64-bit integer. *)
Definition show_Z (n : Z) : bytes :=
  if (n <? 0)%Z then "-" ++ decimal_digits 20 (- n) [] else decimal_digits 20 n [].

Definition show_nat (n : nat) : bytes := show_Z (Z.of_nat n).

(** ** UTF-8: [char] values as code points *)

Definition continuation (c : ascii) : Z := Z.land (code c) 63.

(** [str::chars] on valid UTF-8; malformed input, which a [str] never holds,
    yields the replacement character. *)
Fixpoint chars (s : bytes) : list Z :=
  match s with
  | [] => []
  | b0 :: r0 =>
      if (code b0 <? 128)%Z then code b0 :: chars r0
      else if (code b0 <? 224)%Z then
        match r0 with
        | b1 :: r1 =>
            Z.lor (Z.shiftl (Z.land (code b0) 31) 6) (continuation b1) :: chars r1
        | [] => [65533%Z]
        end
      else if (code b0 <? 240)%Z then
        match r0 with
        | b1 :: b2 :: r2 =>
            Z.lor (Z.shiftl (Z.land (code b0) 15) 12)
              (Z.lor (Z.shiftl (continuation b1) 6) (continuation b2)) :: chars r2
        | _ => [65533%Z]
        end
      else
        match r0 with
        | b1 :: b2 :: b3 :: r3 =>
            Z.lor (Z.shiftl (Z.land (code b0) 7) 18)
              (Z.lor (Z.shiftl (continuation b1) 12)
                 (Z.lor (Z.shiftl (continuation b2) 6) (continuation b3))) :: chars r3
        | _ => [65533%Z]
        end
  end.

Definition byte (n : Z) : ascii := ascii_of_N (Z.to_N n).

(** [char::encode_utf8]. *)
Definition encode_char (c : Z) : bytes :=
  if (c <? 128)%Z then [byte c]
  else if (c <? 2048)%Z then
    [byte (Z.lor 192 (Z.shiftr c 6)); byte (Z.lor 128 (Z.land c 63))]
  else if (c <? 65536)%Z then
    [byte (Z.lor 224 (Z.shiftr c 12)); byte (Z.lor 128 (Z.land (Z.shiftr c 6) 63));
     byte (Z.lor 128 (Z.land c 63))]
  else
    [byte (Z.lor 240 (Z.shiftr c 18)); byte (Z.lor 128 (Z.land (Z.shiftr c 12) 63));
     byte (Z.lor 128 (Z.land (Z.shiftr c 6) 63)); byte (Z.lor 128 (Z.land c 63))].

(** [Iterator<Item = char>::collect::<String>]. *)
Definition collect (l : list Z) : bytes := flat_map encode_char l.

(** [char::is_control]: Unicode's [Cc]. *)
Definition char_is_control (c : Z) : bool :=
  ((c <? 32) || ((127 <=? c) && (c <=? 159)))%Z.

(** [char::is_whitespace]: Unicode's [White_Space]. *)
Definition char_is_whitespace (c : Z) : bool :=
  (((9 <=? c) && (c <=? 13)) || ((8192 <=? c) && (c <=? 8202)))%Z
  || existsb (Z.eqb c) [32; 133; 160; 5760; 8232; 8233; 8239; 8287; 12288]%Z.

Definition char_is_ascii_alphanumeric (c : Z) : bool :=
  (((97 <=? c) && (c <=? 122)) || ((65 <=? c) && (c <=? 90)) || ((48 <=? c) && (c <=? 57)))%Z.

(** [str::trim]. *)
Definition trim_chars (l : list Z) : list Z :=
  rev (drop_while char_is_whitespace (rev (drop_while char_is_whitespace l))).
Definition trim (s : bytes) : bytes := collect (trim_chars (chars s)).

(** ** Lemmas: folding *)

(** Closes a goal about one byte by running it on all 256. *)
Ltac all_bytes c := destruct c as [[] [] [] [] [] [] [] []]; vm_compute; try done.

Lemma lower_byte_idem c : lower_byte (lower_byte c) = lower_byte c.
Proof. all_bytes c. Qed.

Lemma lower_byte_slash c : lower_byte c = "/"%char ↔ c = "/"%char.
Proof. all_bytes c. Qed.

Lemma lower_byte_lowercase c : is_ascii_uppercase c = false → lower_byte c = c.
Proof. unfold lower_byte. by intros ->. Qed.

Lemma to_ascii_lowercase_idem s :
  to_ascii_lowercase (to_ascii_lowercase s) = to_ascii_lowercase s.
Proof.
  unfold to_ascii_lowercase. rewrite List.map_map.
  apply List.map_ext. intros. apply lower_byte_idem.
Qed.

Lemma to_ascii_lowercase_app a b :
  to_ascii_lowercase (a ++ b) = to_ascii_lowercase a ++ to_ascii_lowercase b.
Proof. apply List.map_app. Qed.

Lemma length_to_ascii_lowercase s : length (to_ascii_lowercase s) = length s.
Proof. apply List.length_map. Qed.

Lemma to_ascii_lowercase_take n s :
  to_ascii_lowercase (take n s) = take n (to_ascii_lowercase s).
Proof. unfold to_ascii_lowercase. revert n. induction s; intros [|n]; simpl; congruence. Qed.

Lemma to_ascii_lowercase_drop n s :
  to_ascii_lowercase (drop n s) = drop n (to_ascii_lowercase s).
Proof. unfold to_ascii_lowercase. revert n. induction s; intros [|n]; simpl; congruence. Qed.

Lemma eq_ignore_ascii_case_spec a b :
  eq_ignore_ascii_case a b = true ↔ to_ascii_lowercase a = to_ascii_lowercase b.
Proof.
  revert b. induction a as [|x a IH]; intros [|y b]; simpl; try done.
  rewrite andb_true_iff, bool_decide_eq_true, IH. unfold to_ascii_lowercase. simpl.
  split; [intros [? ?]; congruence|by intros [= ? ?]].
Qed.

(** ** Lemmas: the byte order *)

Lemma code_inj a b : code a = code b → a = b.
Proof.
  unfold code. intros H%N2Z.inj.
  rewrite <- (ascii_N_embedding a), <- (ascii_N_embedding b). congruence.
Qed.

Lemma cmp_bytes_eq a b : cmp_bytes a b = Eq ↔ a = b.
Proof.
  revert b. induction a as [|x a IH]; intros [|y b]; simpl; try done.
  destruct (Z.compare_spec (code x) (code y)) as [E|E|E].
  - rewrite IH. apply code_inj in E. naive_solver.
  - split; [done|]. intros [= -> ->]. lia.
  - split; [done|]. intros [= -> ->]. lia.
Qed.

Lemma cmp_bytes_antisym a b : cmp_bytes a b = CompOpp (cmp_bytes b a).
Proof.
  revert b. induction a as [|x a IH]; intros [|y b]; simpl; try done.
  rewrite (Z.compare_antisym (code y)).
  destruct (code y ?= code x)%Z; simpl; auto.
Qed.

Lemma bytes_leb_trans a b c :
  bytes_leb a b = true → bytes_leb b c = true → bytes_leb a c = true.
Proof.
  unfold bytes_leb. revert b c.
  induction a as [|x a IH]; intros [|y b] [|z c]; simpl; try done.
  destruct (Z.compare_spec (code x) (code y)), (Z.compare_spec (code y) (code z)),
    (Z.compare_spec (code x) (code z)); try done; try lia. apply IH.
Qed.

Lemma bytes_leb_total a b : bytes_leb a b = false → bytes_leb b a = true.
Proof.
  unfold bytes_leb. rewrite (cmp_bytes_antisym a b). by destruct (cmp_bytes b a).
Qed.

Lemma bytes_leb_antisym a b : bytes_leb a b = true → bytes_leb b a = true → a = b.
Proof.
  unfold bytes_leb. rewrite (cmp_bytes_antisym a b).
  destruct (cmp_bytes b a) eqn:E; simpl; intros; try done.
  by apply cmp_bytes_eq in E.
Qed.

Lemma bytes_leb_refl a : bytes_leb a a = true.
Proof. unfold bytes_leb. by replace (cmp_bytes a a) with Eq by (symmetry; by apply cmp_bytes_eq). Qed.

Lemma bytes_leb_prefix a b : bytes_leb a (a ++ b) = true.
Proof.
  unfold bytes_leb. induction a as [|x a IH]; simpl; [by destruct b|].
  by rewrite Z.compare_refl.
Qed.

(** ** Lemmas: prefixes *)

Lemma strip_prefix_spec p s r : strip_prefix p s = Some r ↔ s = p ++ r.
Proof.
  revert s. induction p as [|x p IH]; intros [|y s]; simpl; try naive_solver.
  case_bool_decide; [rewrite IH|]; naive_solver.
Qed.

Lemma starts_with_spec s p : starts_with s p = true ↔ ∃ r, s = p ++ r.
Proof.
  unfold starts_with. destruct (strip_prefix p s) eqn:E.
  - apply strip_prefix_spec in E. naive_solver.
  - split; [done|]. intros [r Hr%strip_prefix_spec]. congruence.
Qed.

Lemma starts_with_app p r : starts_with (p ++ r) p = true.
Proof. apply starts_with_spec. eauto. Qed.

(** ** Lemmas: splitting and joining *)

Lemma split_not_nil c s : split c s ≠ [].
Proof. destruct s as [|x s]; simpl; [done|]. case_bool_decide; [done|]. by destruct (split c s). Qed.

Lemma join_cons sep x y l : join sep (x :: y :: l) = x ++ sep ++ join sep (y :: l).
Proof. done. Qed.

Lemma join_snoc sep l x : l ≠ [] → join sep (l ++ [x]) = join sep l ++ sep ++ x.
Proof.
  intros Hl. induction l as [|y [|z l] IH]; [done|done|].
  change ((y :: z :: l) ++ [x]) with (y :: z :: (l ++ [x])).
  rewrite !join_cons. change (z :: (l ++ [x])) with ((z :: l) ++ [x]).
  rewrite IH by done. by rewrite <- !app_assoc.
Qed.

Lemma join_split c s : join [c] (split c s) = s.
Proof.
  induction s as [|x s IH]; simpl; [done|].
  case_bool_decide; subst.
  - destruct (split c s) eqn:E; [by destruct (split_not_nil c s)|]. by rewrite join_cons, IH.
  - destruct (split c s) as [|p [|q l]] eqn:E; [by destruct (split_not_nil c s)|..];
      simpl in *; congruence.
Qed.

Lemma split_elem_free c s p : p ∈ split c s → c ∉ p.
Proof.
  revert p. induction s as [|x s IH]; intros p; simpl.
  - intros ->%list_elem_of_singleton. apply not_elem_of_nil.
  - case_bool_decide as E.
    + intros [->|?]%elem_of_cons; [apply not_elem_of_nil|auto].
    + destruct (split c s) as [|q l] eqn:Es; [by destruct (split_not_nil c s)|].
      intros [->|Hp]%elem_of_cons.
      * rewrite not_elem_of_cons. split; [done|]. apply IH. by left.
      * apply IH. by right.
Qed.

Lemma split_free c s : c ∉ s → split c s = [s].
Proof.
  induction s as [|x s IH]; simpl; [done|].
  rewrite not_elem_of_cons. intros [Hx Hs].
  case_bool_decide; [congruence|]. by rewrite IH.
Qed.

Lemma split_app c a b : c ∉ a → split c (a ++ c :: b) = a :: split c b.
Proof.
  induction a as [|x a IH]; simpl.
  - intros _. by case_bool_decide.
  - rewrite not_elem_of_cons. intros [Hx Ha].
    case_bool_decide; [congruence|]. by rewrite IH.
Qed.

Lemma split_join c l : l ≠ [] → Forall (λ p, c ∉ p) l → split c (join [c] l) = l.
Proof.
  intros Hl. induction l as [|p [|q l] IH]; [done|..].
  - intros [Hp _]%Forall_cons. simpl. by apply split_free.
  - intros [Hp Hf]%Forall_cons. rewrite join_cons. simpl.
    rewrite split_app by done. f_equal. by apply IH.
Qed.

Lemma rsplit_once_some c a b : c ∉ b → rsplit_once c (a ++ c :: b) = Some (a, b).
Proof.
  intros Hb. induction a as [|x a IH]; simpl; [|by rewrite IH].
  assert (rsplit_once c b = None) as ->; [|by case_bool_decide].
  clear -Hb. induction b as [|y b IH]; simpl; [done|].
  apply not_elem_of_cons in Hb as [? ?]. rewrite IH by done. by case_bool_decide.
Qed.

Lemma rsplit_once_none c s : c ∉ s → rsplit_once c s = None.
Proof.
  induction s as [|y s IH]; simpl; [done|].
  intros [? ?]%not_elem_of_cons. rewrite IH by done. by case_bool_decide.
Qed.

Lemma rsplit_once_spec c s a b : rsplit_once c s = Some (a, b) ↔ s = a ++ c :: b ∧ c ∉ b.
Proof.
  split; [|intros [-> Hb]; by apply rsplit_once_some].
  intros H. destruct (decide (c ∈ s)) as [Hc|Hc].
  - apply list_elem_of_split_r in Hc as (a' & b' & -> & Hb').
    rewrite rsplit_once_some in H by done. by simplify_eq.
  - by rewrite rsplit_once_none in H.
Qed.

Lemma split_once_spec c s a b : split_once c s = Some (a, b) ↔ s = a ++ c :: b ∧ c ∉ a.
Proof.
  revert a b. induction s as [|x s IH]; intros a b; simpl.
  { split; [done|]. intros [H _]. by destruct a. }
  case_bool_decide as E; subst.
  - split; [intros [= <- <-]; split; [done|apply not_elem_of_nil]|].
    intros [H Hc]. destruct a as [|y a]; simplify_eq/=; [done|].
    apply not_elem_of_cons in Hc. naive_solver.
  - destruct (split_once c s) as [[a' b']|] eqn:Es; (split; [intros H|intros [H Hc]]); simplify_eq.
    + destruct (proj1 (IH a' b) eq_refl) as [-> ?]. split; [done|]. by apply not_elem_of_cons.
    + destruct a as [|y a]; simplify_eq/=. apply not_elem_of_cons in Hc as [? Hc].
      pose proof (proj2 (IH a b) (conj eq_refl Hc)). by simplify_eq.
    + destruct a as [|y a]; simplify_eq/=. apply not_elem_of_cons in Hc as [? Hc].
      by pose proof (proj2 (IH a b) (conj eq_refl Hc)).
Qed.
