(* ===== verification/ConfigPath.v ===== *)
(** * Configuration paths

    Models [crates/sovereign-config-core/src/path.rs]: the canonical absolute
    path grammar, its three parsers, the fold key every comparison uses, the
    containment test authorization and subtree selection are built on, and the
    case-insensitive equality and order.  A path is case-retentive: it keeps
    the spelling it was given, and everything below is stated on its fold. *)

From S2P Require Import Prelude Bytes.

Local Open Scope bytes_scope.

Inductive PathError := NonCanonical.

#[global] Instance PathError_eq_dec : EqDecision PathError.
Proof. solve_decision. Defined.

Record ConfigPath := mkPath { path : bytes }.

#[global] Instance ConfigPath_eq_dec : EqDecision ConfigPath.
Proof. solve_decision. Defined.

(** ** The grammar's byte classes *)

(** The segment bytes [ConfigPath::parse] accepts. *)
Definition fold_segment_byte (c : ascii) : bool :=
  is_ascii_lowercase c || is_ascii_digit c
  || bool_decide (c = "-"%char) || bool_decide (c = "_"%char).

(** The segment bytes [parse_operation] and [join_name] accept. *)
Definition segment_byte (c : ascii) : bool :=
  is_ascii_alphabetic c || is_ascii_digit c
  || bool_decide (c = "-"%char) || bool_decide (c = "_"%char).

Definition is_empty {A} (l : list A) : bool := match l with [] => true | _ => false end.

Module Path.

(** ** Construction *)

Definition root : ConfigPath := mkPath "/".

Definition parse (value : bytes) : result ConfigPath PathError :=
  if bool_decide (value = "/")
     || match strip_prefix "/" value with
        | Some relative =>
            negb (is_empty relative)
            && forallb (λ segment, negb (is_empty segment) && forallb fold_segment_byte segment)
                 (split "/"%char relative)
        | None => false
        end
  then Ok (mkPath value)
  else Err NonCanonical.

Definition parse_operation (value : bytes) : result ConfigPath PathError :=
  match strip_prefix "/" value with
  | None => Err NonCanonical
  | Some relative =>
      if is_empty relative
         || negb (forallb (λ segment, negb (is_empty segment) && forallb segment_byte segment)
                    (split "/"%char relative))
      then Err NonCanonical
      else Ok (mkPath value)
  end.

Definition parse_selection (value : bytes) : result ConfigPath PathError :=
  if bool_decide (value = "/") then Ok root else parse_operation value.

Definition join_name (self : ConfigPath) (name : bytes) : result ConfigPath PathError :=
  if is_empty name || negb (forallb segment_byte name) then Err NonCanonical
  else Ok (mkPath (if bool_decide (path self = "/") then "/" ++ name
                   else path self ++ "/" ++ name)).

(** ** Observation *)

Definition as_str (self : ConfigPath) : bytes := path self.

Definition fold (self : ConfigPath) : bytes := to_ascii_lowercase (path self).

Definition is_at_or_below (self root : ConfigPath) : bool :=
  if bool_decide (path root = "/") then true
  else
    let prefix_len := length (path root) in
    (prefix_len <=? length (path self))%nat
    && eq_ignore_ascii_case (take prefix_len (path self)) (path root)
    && ((length (path self) =? prefix_len)%nat
        || bool_decide (path self !! prefix_len = Some "/"%char)).

(** The final segment: [rsplit('/').next()], dropped when empty. *)
Definition name (self : ConfigPath) : option bytes :=
  match last (split "/"%char (path self)) with
  | Some n => if is_empty n then None else Some n
  | None => None
  end.

(** ** Comparison: on the fold *)

Definition eq (self other : ConfigPath) : bool :=
  eq_ignore_ascii_case (path self) (path other).

Definition cmp (self other : ConfigPath) : comparison :=
  cmp_bytes (List.map lower_byte (path self)) (List.map lower_byte (path other)).

Definition le (self other : ConfigPath) : bool :=
  match cmp self other with Gt => false | _ => true end.

(** ** Serde: [Serialize] writes the text, [Deserialize] takes any text *)

Definition serialize (self : ConfigPath) : bytes := path self.
Definition deserialize (text : bytes) : ConfigPath := mkPath text.

(** ** The grammar as a specification *)

(** A valid segment. *)
Definition Segment (s : bytes) : Prop := s ≠ [] ∧ Forall (λ c, segment_byte c = true) s.

(** The text [/s1/s2/…] of a segment list; [/] when it is empty. *)
Definition render (segs : list bytes) : bytes := "/" ++ join "/" segs.

(** The segments of a path; none for the tree root. *)
Definition segments (p : bytes) : list bytes :=
  if bool_decide (p = "/") then [] else split "/"%char (drop 1 p).

(** The paths the parsers produce. *)
Definition Canonical (p : bytes) : Prop := ∃ segs, Forall Segment segs ∧ p = render segs.

(** [f] names [r] itself or something below it, on fold keys; the condition
    the SQL of the server's store spells [$1 = '/' OR x = $1 OR
    starts_with(x, $1 || '/')]. *)
Definition AtOrBelow (f r : bytes) : Prop :=
  r = "/" ∨ f = r ∨ ∃ s, f = r ++ "/" ++ s.

(** ** Lemmas: segments and rendering *)

Lemma segment_byte_not_slash c : segment_byte c = true → c ≠ "/"%char.
Proof. all_bytes c. Qed.

Lemma Segment_no_slash s : Segment s → "/"%char ∉ s.
Proof.
  intros [_ Hs] Hin. rewrite Forall_forall in Hs.
  by apply (segment_byte_not_slash _ (Hs _ Hin)).
Qed.
#[global] Hint Resolve Segment_no_slash : sovereign.

Lemma Segments_no_slash segs : Forall Segment segs → Forall (λ s, "/"%char ∉ s) segs.
Proof. intros H. eapply Forall_impl; [exact H|]. auto with sovereign. Qed.
#[global] Hint Resolve Segments_no_slash : sovereign.

Lemma segment_check_spec s :
  negb (is_empty s) && forallb segment_byte s = true ↔ Segment s.
Proof.
  unfold Segment. rewrite andb_true_iff, forallb_Forall. by destruct s; naive_solver.
Qed.

Lemma segments_check_spec (f : bytes → bool) l (P : bytes → Prop) :
  (∀ s, f s = true ↔ P s) → forallb f l = true ↔ Forall P l.
Proof. intros H. rewrite forallb_Forall. apply Forall_iff, H. Qed.

Lemma render_nil : render [] = "/".
Proof. done. Qed.

Lemma render_not_root segs : segs ≠ [] → Forall Segment segs → render segs ≠ "/".
Proof.
  intros Hne Hs. destruct segs as [|s segs]; [done|].
  apply Forall_cons in Hs as [[Hs _] _]. destruct s as [|c s]; [done|].
  unfold render. destruct segs; simpl; congruence.
Qed.

Lemma segments_render segs : Forall Segment segs → segments (render segs) = segs.
Proof.
  intros Hs. unfold segments. case_bool_decide as E.
  - destruct segs; [done|]. by apply render_not_root in E.
  - destruct segs as [|s segs]; [done|]. apply (split_join "/"%char); auto with sovereign.
Qed.

Lemma render_inj s1 s2 :
  Forall Segment s1 → Forall Segment s2 → render s1 = render s2 → s1 = s2.
Proof. intros H1 H2 E. by rewrite <- (segments_render s1), <- (segments_render s2), E. Qed.

Lemma render_snoc segs s :
  render (segs ++ [s]) = (if bool_decide (segs = []) then "/" ++ s else render segs ++ "/" ++ s).
Proof.
  unfold render. case_bool_decide; subst; [done|]. by rewrite join_snoc.
Qed.

Lemma lower_segment_byte c : segment_byte c = true → fold_segment_byte (lower_byte c) = true.
Proof. all_bytes c. Qed.

Lemma fold_segment_byte_segment c : fold_segment_byte c = true → segment_byte c = true.
Proof. all_bytes c. Qed.

Lemma fold_segment_byte_lower c : fold_segment_byte c = true → lower_byte c = c.
Proof. all_bytes c. Qed.

Lemma Segment_lower s : Segment s → Segment (to_ascii_lowercase s).
Proof.
  intros [Hne Hs]. split; [by destruct s|]. unfold to_ascii_lowercase.
  apply Forall_fmap. eapply Forall_impl; [exact Hs|].
  intros c Hc. by apply fold_segment_byte_segment, lower_segment_byte.
Qed.

Lemma lower_join segs :
  to_ascii_lowercase (join "/" segs) = join "/" (List.map to_ascii_lowercase segs).
Proof.
  induction segs as [|x [|y segs] IH]; [done|done|].
  simpl List.map in *. rewrite !join_cons, !to_ascii_lowercase_app, IH. done.
Qed.

Lemma lower_render segs :
  to_ascii_lowercase (render segs) = render (List.map to_ascii_lowercase segs).
Proof. unfold render. rewrite to_ascii_lowercase_app, lower_join. done. Qed.

Lemma Segments_lower segs :
  Forall Segment segs → Forall Segment (List.map to_ascii_lowercase segs).
Proof. intros H. apply Forall_fmap. eapply Forall_impl; [exact H|]. apply Segment_lower. Qed.
#[global] Hint Resolve Segments_lower Segment_lower : sovereign.

Lemma render_canonical segs : Forall Segment segs → Canonical (render segs).
Proof. by exists segs. Qed.

Lemma Canonical_lower p : Canonical p → Canonical (to_ascii_lowercase p).
Proof.
  intros (segs & Hs & ->). exists (List.map to_ascii_lowercase segs).
  rewrite lower_render. auto with sovereign.
Qed.

#[global] Hint Resolve render_canonical Canonical_lower : sovereign.

Lemma segments_lower p :
  Canonical p → segments (to_ascii_lowercase p) = List.map to_ascii_lowercase (segments p).
Proof.
  intros (segs & Hs & ->). by rewrite lower_render, !segments_render by auto with sovereign.
Qed.

(** ** The parsers accept exactly the grammar *)

Lemma split_relative segs : segs ≠ [] → Forall Segment segs →
  split "/"%char (join "/" segs) = segs.
Proof. intros. apply (split_join "/"%char); auto with sovereign. Qed.

Lemma split_relative_inv relative :
  Forall Segment (split "/"%char relative) →
  ∃ segs, segs ≠ [] ∧ Forall Segment segs ∧ relative = join "/" segs.
Proof.
  intros H. exists (split "/"%char relative). split; [apply split_not_nil|].
  split; [done|]. symmetry. apply (join_split "/"%char).
Qed.

Lemma join_not_nil segs : segs ≠ [] → Forall Segment segs → join "/" segs ≠ [].
Proof.
  intros Hne Hs E. by apply (render_not_root segs Hne Hs); unfold render; rewrite E.
Qed.

Lemma parse_operation_spec s p :
  parse_operation s = Ok p ↔
  p = mkPath s ∧ ∃ segs, segs ≠ [] ∧ Forall Segment segs ∧ s = render segs.
Proof.
  unfold parse_operation. split.
  - destruct (strip_prefix "/" s) as [relative|] eqn:E; [|done].
    apply strip_prefix_spec in E as ->.
    destruct (is_empty relative || _) eqn:Hc; [done|]. intros [= <-]. bool_prop.
    match goal with H : forallb _ _ = true |- _ =>
      apply (segments_check_spec _ _ Segment segment_check_spec) in H;
      apply split_relative_inv in H as (segs & ? & ? & ->) end.
    eauto.
  - intros (-> & segs & Hne & Hs & ->). unfold render.
    replace (strip_prefix "/" ("/" ++ join "/" segs)) with (Some (join "/" segs))
      by (symmetry; by apply strip_prefix_spec).
    rewrite split_relative by done.
    rewrite (proj2 (segments_check_spec _ _ Segment segment_check_spec)) by done.
    pose proof (join_not_nil segs Hne Hs). by destruct (join "/" segs).
Qed.

Lemma parse_operation_canonical s p : parse_operation s = Ok p → path p = s ∧ Canonical s.
Proof. intros (-> & segs & _ & ? & ->)%parse_operation_spec. split; [done|by exists segs]. Qed.

Lemma parse_selection_spec s p : parse_selection s = Ok p ↔ p = mkPath s ∧ Canonical s.
Proof.
  unfold parse_selection, root. case_bool_decide as E; subst.
  - split; [intros [= <-]|by intros [-> _]]. split; [done|]. by exists [].
  - rewrite parse_operation_spec. unfold Canonical. split; [naive_solver|].
    intros (-> & segs & Hs & ->). split; [done|]. exists segs. split; [|done].
    by intros ->.
Qed.

(** Decides canonicity of a concrete path by running the parser. *)
Lemma canonical_check s : is_ok (parse_selection s) = true → Canonical s.
Proof. destruct (parse_selection s) eqn:E; [|done].
  by apply parse_selection_spec in E as [_ ?].
Qed.

Lemma fold_segment_check_spec s :
  negb (is_empty s) && forallb fold_segment_byte s = true
  ↔ Segment s ∧ to_ascii_lowercase s = s.
Proof.
  unfold Segment. rewrite andb_true_iff, forallb_Forall. split.
  - intros [Hne Hs]. split; [split; [by destruct s|]|].
    + eapply Forall_impl; [exact Hs|]. apply fold_segment_byte_segment.
    + unfold to_ascii_lowercase. clear Hne. induction Hs as [|c s Hc Hs IH]; [done|].
      simpl. rewrite IH. by rewrite fold_segment_byte_lower.
  - intros [[Hne Hs] Hl]. split; [by destruct s|]. rewrite <- Hl.
    apply Forall_fmap. eapply Forall_impl; [exact Hs|]. apply lower_segment_byte.
Qed.

Lemma render_lower_segments segs :
  Forall Segment segs →
  to_ascii_lowercase (render segs) = render segs
  ↔ Forall (λ s, to_ascii_lowercase s = s) segs.
Proof.
  intros Hs. rewrite lower_render. split.
  - intros E%render_inj; auto with sovereign.
    clear Hs. induction segs as [|s segs IH]; constructor; simplify_eq/=; try congruence.
    apply IH. congruence.
  - intros H. f_equal. induction H as [|s segs E _ IH]; [done|].
    apply Forall_cons in Hs as [_ Hs]. simpl. rewrite E. f_equal. auto.
Qed.

Lemma parse_spec s p :
  parse s = Ok p ↔ p = mkPath s ∧ Canonical s ∧ to_ascii_lowercase s = s.
Proof.
  unfold parse. split.
  - destruct (_ || _) eqn:Hc; [|done]. intros [= <-]. split; [done|].
    apply orb_true_iff in Hc as [Hc|Hc].
    + bool_prop. subst. split; [by exists []|done].
    + destruct (strip_prefix "/" s) as [relative|] eqn:E; [|done].
      apply strip_prefix_spec in E as ->. bool_prop.
      match goal with H : forallb _ _ = true |- _ =>
        apply (segments_check_spec _ _ _ fold_segment_check_spec) in H as Hf end.
      apply Forall_and in Hf as [Hs Hl].
      assert (relative = join "/" (split "/"%char relative)) as E
        by (symmetry; apply (join_split "/"%char)).
      rewrite E. split; [by eexists|]. by apply render_lower_segments.
  - intros (-> & (segs & Hs & ->) & Hl).
    destruct (decide (segs = [])) as [->|Hne]; [done|].
    apply render_lower_segments in Hl; [|done]. unfold render.
    replace (strip_prefix "/" ("/" ++ join "/" segs)) with (Some (join "/" segs))
      by (symmetry; by apply strip_prefix_spec).
    rewrite split_relative by done.
    rewrite (proj2 (segments_check_spec _ _ _ fold_segment_check_spec)) by (by apply Forall_and).
    pose proof (join_not_nil segs Hne Hs).
    by destruct (join "/" segs).
Qed.

(** The fold of a parsed path is accepted by the fold-only parser. *)
Lemma parse_fold s p : parse_selection s = Ok p → parse (fold p) = Ok (mkPath (fold p)).
Proof.
  intros [-> Hc]%parse_selection_spec. apply parse_spec. split; [done|].
  split; [by apply Canonical_lower|apply to_ascii_lowercase_idem].
Qed.

(** ** Containment *)

Lemma fold_root_iff p : fold p = "/" ↔ path p = "/".
Proof.
  unfold fold. split; [|by intros ->].
  destruct (path p) as [|c [|d l]]; try done. simpl. intros [= E].
  f_equal. by apply lower_byte_slash.
Qed.

Lemma is_at_or_below_spec self r :
  is_at_or_below self r = true ↔ AtOrBelow (fold self) (fold r).
Proof.
  unfold is_at_or_below, AtOrBelow. rewrite fold_root_iff.
  case_bool_decide as E; [naive_solver|].
  rewrite !andb_true_iff, orb_true_iff, Nat.leb_le, Nat.eqb_eq, bool_decide_eq_true,
    eq_ignore_ascii_case_spec, to_ascii_lowercase_take. unfold fold.
  set (P := path self) in *. set (R := path r) in *. split.
  - intros [[Hle Ht] H]. right.
    rewrite <- Ht. destruct H as [Hlen|Hslash].
    + left. rewrite firstn_all2; [done|]. rewrite length_to_ascii_lowercase. lia.
    + right. exists (drop (S (length R)) (to_ascii_lowercase P)).
      rewrite <- (take_drop (length R) (to_ascii_lowercase P)) at 1. f_equal.
      rewrite (drop_S _ "/"%char); [done|].
      unfold to_ascii_lowercase. change (List.map lower_byte P) with (lower_byte <$> P).
      rewrite list_lookup_fmap, Hslash. done.
  - intros [?|[Heq|(s & Heq)]]; [done|..].
    + assert (length P = length R) as Hlen
        by (rewrite <- (length_to_ascii_lowercase P), Heq; apply length_to_ascii_lowercase).
      rewrite firstn_all2 by (rewrite length_to_ascii_lowercase; lia).
      rewrite Hlen. auto.
    + assert (length P = length R + S (length s)) as Hlen
        by (rewrite <- (length_to_ascii_lowercase P), Heq, length_app,
              length_to_ascii_lowercase; simpl; lia).
      split; [split; [lia|]|right].
      * rewrite Heq, take_app_length'; [done|]. by rewrite length_to_ascii_lowercase.
      * assert (lower_byte <$> P !! length R = Some "/"%char) as HP.
        { rewrite <- list_lookup_fmap. change (lower_byte <$> P) with (to_ascii_lowercase P).
          rewrite Heq, lookup_app_r by (rewrite length_to_ascii_lowercase; lia).
          rewrite length_to_ascii_lowercase, Nat.sub_diag. done. }
        destruct (P !! length R) as [c|]; simplify_eq/=. f_equal. by apply lower_byte_slash.
Qed.

Lemma join_app a b : a ≠ [] → b ≠ [] → join "/" (a ++ b) = join "/" a ++ "/" ++ join "/" b.
Proof.
  intros Ha Hb. induction a as [|x [|y a] IH]; [done|..].
  - destruct b; done.
  - change ((x :: y :: a) ++ b) with (x :: (y :: a) ++ b).
    change ((y :: a) ++ b) with (y :: (a ++ b)) in *. rewrite !join_cons, IH by done.
    by rewrite <- !app_assoc.
Qed.

(** On canonical paths, containment is the prefix order on segment lists. *)
Lemma AtOrBelow_segments f r :
  Canonical f → Canonical r → AtOrBelow f r ↔ segments r `prefix_of` segments f.
Proof.
  intros (fs & Hf & ->) (rs & Hr & ->). unfold AtOrBelow. rewrite !segments_render by done.
  split.
  - intros [E|[E|(s & E)]].
    + destruct rs; [apply prefix_nil|]. by apply render_not_root in E.
    + by apply render_inj in E as ->.
    + destruct rs as [|x rs]; [apply prefix_nil|].
      destruct fs as [|y fs].
      { apply (f_equal length) in E. unfold render in E. rewrite !length_app in E. simpl in E. lia. }
      assert (join "/" (y :: fs) = join "/" (x :: rs) ++ "/" ++ s) as E'.
      { unfold render in E. rewrite <- app_assoc in E. by simplify_eq/=. }
      assert (split "/"%char (join "/" (y :: fs)) = (x :: rs) ++ split "/"%char s) as Hsplit.
      { rewrite E'. clear -Hr. revert x Hr. induction rs as [|z rs IH]; intros x Hr.
        - apply Forall_cons in Hr as [Hx _]. apply (split_app "/"%char). auto with sovereign.
        - apply Forall_cons in Hr as [Hx Hr]. rewrite join_cons. simpl app.
          rewrite <- app_assoc. simpl. rewrite split_app by auto with sovereign.
          f_equal. by apply IH. }
      rewrite split_relative in Hsplit by done. rewrite Hsplit. by eexists.
  - intros [ts ->]. destruct (decide (rs = [])) as [->|Hrs]; [by left|]. right.
    destruct (decide (ts = [])) as [->|Hts]; [left; by rewrite app_nil_r|right].
    exists (join "/" ts). unfold render. rewrite join_app by done. by rewrite <- !app_assoc.
Qed.

(** Containment is a partial order on fold keys. *)
Lemma AtOrBelow_refl f : AtOrBelow f f.
Proof. right; by left. Qed.

Lemma AtOrBelow_root f : AtOrBelow f "/".
Proof. by left. Qed.
#[global] Hint Resolve AtOrBelow_refl AtOrBelow_root : sovereign.

Lemma AtOrBelow_trans a b c :
  Canonical a → Canonical b → Canonical c → AtOrBelow a b → AtOrBelow b c → AtOrBelow a c.
Proof. intros ???. rewrite !AtOrBelow_segments by done. intros. by etrans. Qed.

Lemma AtOrBelow_antisym a b :
  Canonical a → Canonical b → AtOrBelow a b → AtOrBelow b a → a = b.
Proof.
  intros Ha Hb. rewrite !AtOrBelow_segments by done. intros H1 H2.
  destruct Ha as (sa & ? & ->), Hb as (sb & ? & ->).
  rewrite !segments_render in * by done. f_equal. by apply (anti_symm prefix).
Qed.

Lemma is_at_or_below_trans a b c :
  Canonical (path a) → Canonical (path b) → Canonical (path c) →
  is_at_or_below a b = true → is_at_or_below b c = true → is_at_or_below a c = true.
Proof.
  rewrite !is_at_or_below_spec. intros Ha Hb Hc.
  apply (AtOrBelow_trans _ (fold b)); by apply Canonical_lower.
Qed.

(** ** Fold equality is the equivalence of the type *)

#[global] Instance path_equiv : Equiv ConfigPath := λ p q, fold p = fold q.

#[global] Instance path_equivalence : Equivalence (≡@{ConfigPath}).
Proof. split; [done|by intros ???|intros ???; unfold equiv, path_equiv; congruence]. Qed.

#[global] Instance fold_proper : Proper ((≡) ==> (=)) fold.
Proof. by intros p q. Qed.

#[global] Instance is_at_or_below_proper : Proper ((≡) ==> (≡) ==> (=)) is_at_or_below.
Proof.
  intros p q Hpq r t Hrt. apply eq_true_iff_eq. rewrite !is_at_or_below_spec.
  by rewrite (Hpq : fold p = fold q), (Hrt : fold r = fold t).
Qed.

Lemma eq_spec p q : eq p q = true ↔ p ≡ q.
Proof. apply eq_ignore_ascii_case_spec. Qed.

#[global] Instance path_equiv_dec : RelDecision (≡@{ConfigPath}).
Proof. intros p q. unfold equiv, path_equiv. apply _. Defined.

#[global] Instance eq_proper : Proper ((≡) ==> (≡) ==> (=)) eq.
Proof. intros p q Hpq r t Hrt. apply eq_true_iff_eq. rewrite !eq_spec. by rewrite Hpq, Hrt. Qed.

(** ** Joining a name *)

Lemma join_name_render self n segs :
  path self = render segs → Forall Segment segs → Segment n →
  join_name self n = Ok (mkPath (render (segs ++ [n]))).
Proof.
  intros Hp Hs [Hne Hn]. unfold join_name.
  rewrite (proj2 (forallb_Forall _ _) Hn). destruct n as [|c n]; [done|]. simpl.
  rewrite render_snoc, Hp. do 2 f_equal.
  destruct (decide (segs = [])) as [->|Hsegs]; [done|].
  rewrite !bool_decide_eq_false_2; [done|done|]. by apply render_not_root.
Qed.

Lemma join_name_inv self n q : join_name self n = Ok q → Segment n.
Proof.
  unfold join_name. destruct (_ || _) eqn:E; [done|]. intros _. bool_prop.
  split; [by destruct n|]. by apply forallb_Forall.
Qed.

Lemma name_render segs : Forall Segment segs → name (mkPath (render segs)) = last segs.
Proof.
  intros Hs. unfold name. simpl path.
  destruct (decide (segs = [])) as [->|Hne]; [done|].
  change (render segs) with ([] ++ "/"%char :: join "/" segs).
  rewrite split_app by apply not_elem_of_nil. rewrite split_relative by done.
  destruct segs as [|s segs] using rev_ind; [done|]. clear IHsegs Hne.
  change ([] :: segs ++ [s]) with (([] :: segs) ++ [s]). rewrite !last_snoc.
  apply Forall_app in Hs as [_ [[? _] _]%Forall_cons]. by destruct s.
Qed.

(** ** Correctness of the path type *)

(** [parse_operation], [parse_selection] and [parse] accept exactly the
    documented grammar and keep the text they were given: a non-root list of
    valid segments, that or the root, and the lowercase paths among those. *)
Theorem path_parsers_accept_grammar (s : bytes) (p : ConfigPath) :
  (parse_operation s = Ok p ↔
     p = mkPath s ∧ ∃ segs, segs ≠ [] ∧ Forall Segment segs ∧ s = render segs)
  ∧ (parse_selection s = Ok p ↔ p = mkPath s ∧ Canonical s)
  ∧ (parse s = Ok p ↔ p = mkPath s ∧ Canonical s ∧ to_ascii_lowercase s = s).
Proof.
  split; [apply parse_operation_spec|]. split; [apply parse_selection_spec|apply parse_spec].
Qed.

(** For parsed paths the byte-level containment test is the prefix order
    on folded segment lists, so [/a/b-c] is never below [/a/b]. *)
Theorem containment_is_segment_prefix (s t : bytes) (p q : ConfigPath) :
  parse_selection s = Ok p → parse_selection t = Ok q →
  is_at_or_below p q = true ↔ segments (fold q) `prefix_of` segments (fold p).
Proof.
  intros [-> Hs]%parse_selection_spec [-> Ht]%parse_selection_spec.
  rewrite is_at_or_below_spec. apply AtOrBelow_segments; by apply Canonical_lower.
Qed.

Lemma containment_is_segment_prefix_witness :
  is_at_or_below (mkPath "/Apps/API/db_url") (mkPath "/apps/api") = true
  ↔ segments "/apps/api" `prefix_of` segments "/apps/api/db_url".
Proof.
  apply (containment_is_segment_prefix "/Apps/API/db_url" "/apps/api"
           (mkPath "/Apps/API/db_url") (mkPath "/apps/api")); reflexivity.
Defined.

(** The derived order is a total order on fold keys that agrees with the
    case-insensitive equality: reflexive, total, transitive, and two paths
    compare equal exactly when they name the same value. *)
Theorem path_order_total (p q r : ConfigPath) :
  (cmp p q = Eq ↔ eq p q = true)
  ∧ cmp p q = CompOpp (cmp q p)
  ∧ (le p q = true ∨ le q p = true)
  ∧ (le p q = true → le q r = true → le p r = true)
  ∧ (le p q = true → le q p = true → p ≡ q).
Proof.
  unfold le, cmp. rewrite eq_spec, cmp_bytes_eq.
  pose proof (bytes_leb_total (fold p) (fold q)). pose proof (bytes_leb_antisym (fold p) (fold q)).
  pose proof (bytes_leb_trans (fold p) (fold q) (fold r)).
  split; [done|]. split; [apply cmp_bytes_antisym|]. split; [|done].
  destruct (bytes_leb (fold p) (fold q)) eqn:E; [by left|right; by auto].
Qed.

(** Joining a valid segment to a canonical path gives a canonical path
    strictly below it whose final segment is that name, as written, and
    joining anything else is refused. *)
Theorem join_name_correct (self : ConfigPath) (n : bytes) :
  Canonical (path self) →
  match join_name self n with
  | Ok q => Segment n ∧ Canonical (path q) ∧ is_at_or_below q self = true
            ∧ is_at_or_below self q = false ∧ name q = Some n
            ∧ segments (path q) = segments (path self) ++ [n]
  | Err _ => ¬ Segment n
  end.
Proof.
  intros (segs & Hs & Hp). destruct (join_name self n) as [q|e] eqn:E.
  - pose proof (join_name_inv _ _ _ E) as Hn.
    rewrite (join_name_render self n segs) in E by done. simplify_eq. simpl path.
    assert (Forall Segment (segs ++ [n])) as Hs' by (apply Forall_app; auto).
    split; [done|]. split; [by exists (segs ++ [n])|].
    rewrite <- not_true_iff_false, !is_at_or_below_spec. unfold fold. simpl path. rewrite Hp.
    rewrite !AtOrBelow_segments by auto with sovereign.
    rewrite !segments_lower by auto with sovereign. rewrite !segments_render by done.
    rewrite List.map_app. split; [by eexists|]. split.
    + intros [k Hk]. apply (f_equal length) in Hk.
      rewrite !length_app in Hk. simpl in Hk. lia.
    + split; [|done]. by rewrite name_render, last_snoc.
  - intros Hn. by rewrite (join_name_render self n segs) in E.
Qed.

Lemma join_name_correct_witness :
  match join_name (mkPath "/apps") "Db_Url" with
  | Ok q => Segment "Db_Url" ∧ Canonical (path q) ∧ is_at_or_below q (mkPath "/apps") = true
            ∧ is_at_or_below (mkPath "/apps") q = false ∧ name q = Some "Db_Url"
            ∧ segments (path q) = segments (path (mkPath "/apps")) ++ ["Db_Url"]
  | Err _ => ¬ Segment "Db_Url"
  end.
Proof.
  apply (join_name_correct (mkPath "/apps") "Db_Url").
  apply canonical_check. reflexivity.
Defined.

End Path.
