(* ===== verification/Core.v ===== *)
(** * The core crate's shared types

    Models [crates/sovereign-config-core/src/{error,value,listing,status}.rs]:
    the bounded client error, the value and secret newtypes with their redacted
    formatting, timestamps at machine width, and protocol version selection. *)

From S2P Require Import Prelude Bytes ConfigPath.

Local Open Scope bytes_scope.

(** ** error.rs *)

Inductive ErrorKind :=
| Unauthenticated | PermissionDenied | IncompatibleProtocol | VersionNotServed
| InvalidRequest | NotFound | Conflict | Unavailable | Internal.

#[global] Instance ErrorKind_eq_dec : EqDecision ErrorKind.
Proof. solve_decision. Defined.

(** [Cow::Borrowed] and [Cow::Owned] carry the same text. *)
Record ClientError := mkClientError { kind : ErrorKind; message : bytes }.

#[global] Instance ClientError_eq_dec : EqDecision ClientError.
Proof. solve_decision. Defined.

(** ** value.rs *)

Definition MASKED_SECRET_TEXT : bytes := "********".

Record PlainValue := mkPlainValue { expose_plain : bytes }.
#[global] Instance PlainValue_eq_dec : EqDecision PlainValue.
Proof. solve_decision. Defined.

Inductive ValueClassification := ClassPlain | ClassSecret.
#[global] Instance ValueClassification_eq_dec : EqDecision ValueClassification.
Proof. solve_decision. Defined.

Inductive MaskedSecret := masked_secret.
#[global] Instance MaskedSecret_eq_dec : EqDecision MaskedSecret.
Proof. solve_decision. Defined.

Inductive ValueContent :=
| ContentPlain (v : PlainValue)
| ContentSecret (m : MaskedSecret).
#[global] Instance ValueContent_eq_dec : EqDecision ValueContent.
Proof. solve_decision. Defined.

Definition classification (c : ValueContent) : ValueClassification :=
  match c with ContentPlain _ => ClassPlain | ContentSecret _ => ClassSecret end.

Definition display_text (c : ValueContent) : bytes :=
  match c with ContentPlain v => expose_plain v | ContentSecret _ => MASKED_SECRET_TEXT end.

Definition plain (c : ValueContent) : option PlainValue :=
  match c with ContentPlain v => Some v | ContentSecret _ => None end.

(** The three credential-bearing newtypes. *)
Record SecretInput := mkSecretInput { expose_input : bytes }.
Record RevealedSecret := mkRevealedSecret { expose_revealed : bytes }.
Record Secret := mkSecret { expose_secret : bytes }.

#[global] Instance RevealedSecret_eq_dec : EqDecision RevealedSecret.
Proof. solve_decision. Defined.
#[global] Instance Secret_eq_dec : EqDecision Secret.
Proof. solve_decision. Defined.

(** Every [Debug] and [Display] implementation of the module. *)
Definition fmt_debug_plain (_ : PlainValue) : bytes := "PlainValue([REDACTED])".
Definition fmt_display_plain (_ : PlainValue) : bytes := "[REDACTED]".
Definition fmt_debug_input (_ : SecretInput) : bytes := "SecretInput([REDACTED])".
Definition fmt_display_input (_ : SecretInput) : bytes := "[REDACTED]".
Definition fmt_debug_revealed (_ : RevealedSecret) : bytes := "RevealedSecret([REDACTED])".
Definition fmt_display_revealed (_ : RevealedSecret) : bytes := "[REDACTED]".
Definition fmt_debug_secret (_ : Secret) : bytes := "Secret([REDACTED])".
Definition fmt_display_secret (_ : Secret) : bytes := "[REDACTED]".
Definition fmt_display_masked (_ : MaskedSecret) : bytes := MASKED_SECRET_TEXT.

(** ** listing.rs *)

Module Stamps.

Definition i64_max : Z := 9223372036854775807.
Definition i64_min : Z := -9223372036854775808.
Definition i32_max : Z := 2147483647.
Definition i32_min : Z := -2147483648.
Definition NANOS : Z := 1000000000.

Record Timestamp := mkTimestamp { seconds : Z; nanos : Z }.
#[global] Instance Timestamp_eq_dec : EqDecision Timestamp.
Proof. solve_decision. Defined.

(** The values an [i64] and [i32] field can hold. *)
Definition in_width (t : Timestamp) : Prop :=
  (i64_min ≤ seconds t ≤ i64_max ∧ i32_min ≤ nanos t ≤ i32_max)%Z.

Definition invalid_timestamp : ClientError :=
  mkClientError Internal "service returned an invalid timestamp".

(** [Timestamp::from_system_time]; a [SystemTime] is its offset from the Unix
    epoch in nanoseconds. *)
Definition from_system_time (value : Z) : result Timestamp ClientError :=
  if (value <? 0)%Z then Err invalid_timestamp
  else
    let as_secs := (value / NANOS)%Z in
    let subsec_nanos := (value mod NANOS)%Z in
    if (i64_max <? as_secs)%Z then Err invalid_timestamp
    else if (i32_max <? subsec_nanos)%Z then Err invalid_timestamp
    else Ok (mkTimestamp as_secs subsec_nanos).

(** [Timestamp::to_system_time]; [SystemTime] holds seconds as an [i64], which
    is what [checked_add] tests. *)
Definition to_system_time (t : Timestamp) : result Z ClientError :=
  if (seconds t <? 0)%Z then Err invalid_timestamp
  else if (nanos t <? 0)%Z then Err invalid_timestamp
  else if (NANOS <=? nanos t)%Z then Err invalid_timestamp
  else if (i64_max <? seconds t)%Z then Err invalid_timestamp
  else Ok (seconds t * NANOS + nanos t)%Z.

(** The two timestamp conversions are inverse wherever they succeed, and
    converting a timestamp succeeds exactly on non-negative seconds and
    nanoseconds below one second. *)
Theorem timestamp_round_trip (t : Timestamp) (v : Z) :
  in_width t →
  (to_system_time t = Ok v ↔ from_system_time v = Ok t)
  ∧ (is_ok (to_system_time t) = true ↔ (0 ≤ seconds t ∧ 0 ≤ nanos t < NANOS)%Z).
Proof.
  destruct t as [s n]. unfold in_width, to_system_time, from_system_time; simpl.
  intros [Hs Hn]. split; [split|].
  - repeat case_match; intros; simplify_eq; bool_prop; try (unfold NANOS in *; lia).
    + rewrite Z.div_add_l in * by done. rewrite (Z.div_small n) in * by lia. lia.
    + rewrite Z.add_comm, Z.mod_add in * by done. rewrite Z.mod_small in * by lia.
      unfold NANOS, i32_max in *. lia.
    + do 2 f_equal.
      * rewrite Z.div_add_l by done. rewrite (Z.div_small n) by lia. lia.
      * rewrite Z.add_comm, Z.mod_add by done. by rewrite Z.mod_small by lia.
  - pose proof (Z.mod_pos_bound v NANOS). pose proof (Z.div_mod v NANOS).
    pose proof (Z.div_pos v NANOS).
    repeat case_match; intros; simplify_eq; bool_prop; unfold NANOS in *; try lia.
    f_equal. lia.
  - repeat case_match; simpl; unfold NANOS in *; split; intros; try done; lia.
Qed.

Lemma timestamp_round_trip_witness :
  (to_system_time (mkTimestamp 7 5) = Ok 7000000005%Z
   ↔ from_system_time 7000000005 = Ok (mkTimestamp 7 5))
  ∧ (is_ok (to_system_time (mkTimestamp 7 5)) = true ↔ (0 ≤ 7 ∧ 0 ≤ 5 < NANOS)%Z).
Proof.
  apply (timestamp_round_trip (mkTimestamp 7 5) 7000000005).
  unfold in_width; simpl. vm_compute. repeat split; discriminate.
Defined.

End Stamps.
Export Stamps.

Record ListedValue := mkListedValue {
  lv_path : ConfigPath; lv_value : ValueContent;
  lv_created_at : Timestamp; lv_updated_at : Timestamp;
  lv_alias_paths : list ConfigPath }.
Record ValueListing := mkValueListing {
  vl_values : list ListedValue; vl_paths : list ConfigPath }.
Record SubTreeValue := mkSubTreeValue { stv_path : ConfigPath; stv_value : ValueContent }.
Inductive SubTreeMutationContent :=
| MutPlain (v : PlainValue)
| MutPreserveSecret.
Record SubTreeMutationValue := mkSubTreeMutationValue {
  stm_path : ConfigPath; stm_value : SubTreeMutationContent }.
Record ValueSubTree := mkValueSubTree { vst_values : list SubTreeValue }.
Record PutMetadata := mkPutMetadata { put_created_at : Timestamp; put_updated_at : Timestamp }.
Record DeleteMetadata := mkDeleteMetadata { deleted_at : Timestamp; deleted_count : Z }.
Record ReplaceMetadata := mkReplaceMetadata { replaced_at : Timestamp; value_count : Z }.
Record AddPathMetadata := mkAddPathMetadata { added_at : Timestamp }.
Record ValuePaths := mkValuePaths { vp_paths : list ConfigPath }.

#[global] Instance SubTreeValue_eq_dec : EqDecision SubTreeValue.
Proof. solve_decision. Defined.
#[global] Instance SubTreeMutationContent_eq_dec : EqDecision SubTreeMutationContent.
Proof. solve_decision. Defined.
#[global] Instance SubTreeMutationValue_eq_dec : EqDecision SubTreeMutationValue.
Proof. solve_decision. Defined.
#[global] Instance ListedValue_eq_dec : EqDecision ListedValue.
Proof. solve_decision. Defined.

(** ** status.rs *)

Module Protocol.

Inductive ProtocolVersion := V5 | V4 | V3.
#[global] Instance ProtocolVersion_eq_dec : EqDecision ProtocolVersion.
Proof. solve_decision. Defined.

Definition ALL : list ProtocolVersion := [V5; V4; V3].
Definition PREFERRED : ProtocolVersion := V5.
Definition LEGACY : ProtocolVersion := V3.

Definition as_str (v : ProtocolVersion) : bytes :=
  match v with V5 => "v5" | V4 => "v4" | V3 => "v3" end.

Definition parse (text : bytes) : option ProtocolVersion :=
  List.find (λ version, bool_decide (as_str version = text)) ALL.

Record ServedVersion := mkServedVersion {
  version : bytes; deprecation_date : option bytes }.

Definition NAMED_VERSION_LIMIT : nat := 8.
Definition NAMED_VERSION_LENGTH : nat := 16.
Definition DEPRECATION_DATE_LENGTH : nat := 40.

(** [matches!(character, '.' | '-' | '_')] *)
Definition version_char (c : Z) : bool :=
  char_is_ascii_alphanumeric c || existsb (Z.eqb c) [46; 45; 95]%Z.
(** [matches!(character, ':' | '+' | '-' | '.')] *)
Definition date_char (c : Z) : bool :=
  char_is_ascii_alphanumeric c || existsb (Z.eqb c) [58; 43; 45; 46]%Z.
(** ['?'] *)
Definition question : Z := 63.

Definition sanitise (version : bytes) : bytes :=
  collect (List.map (λ c, if version_char c then c else question)
             (take NAMED_VERSION_LENGTH (chars version))).

Definition sanitise_date (date : bytes) : bytes :=
  collect (List.map (λ c, if date_char c then c else question)
             (take DEPRECATION_DATE_LENGTH (chars date))).

Definition describe_served (served : list ServedVersion) : bytes :=
  match served with
  | [] => "none"
  | _ =>
      join ", " (List.map (λ entry, sanitise (version entry)) (take NAMED_VERSION_LIMIT served))
      ++ (if (NAMED_VERSION_LIMIT <? length served)%nat then ", …" else [])
  end.

Definition describe_spoken : bytes := join ", " (List.map as_str ALL).

Definition incompatible (served : list ServedVersion) : ClientError :=
  mkClientError IncompatibleProtocol
    ("service protocol is incompatible: this client speaks " ++ describe_spoken
     ++ ", the service serves " ++ describe_served served).

Record ServiceStatus := mkServiceStatus {
  protocol_version : ProtocolVersion; status_deprecation_date : option bytes }.

(** The loop of [ServiceStatus::select]: [deprecated] is the first deprecated
    candidate seen so far. *)
Fixpoint select_loop (deprecated : option ServedVersion) (l : list ServedVersion)
  : ServiceStatus + option ServedVersion :=
  match l with
  | [] => inr deprecated
  | entry :: l' =>
      match parse (version entry) with
      | None => select_loop deprecated l'
      | Some v =>
          match deprecation_date entry with
          | None => inl (mkServiceStatus v None)
          | Some _ =>
              select_loop (match deprecated with None => Some entry | some => some end) l'
          end
      end
  end.

Definition select (served : list ServedVersion) : result ServiceStatus ClientError :=
  match select_loop None served with
  | inl status => Ok status
  | inr deprecated =>
      match deprecated with
      | Some entry =>
          match parse (version entry) with
          | Some v => Ok (mkServiceStatus v (option_map sanitise_date (deprecation_date entry)))
          | None => Err (incompatible served)
          end
      | None => Err (incompatible served)
      end
  end.

(** *** Lemmas *)

Lemma parse_as_str v : parse (as_str v) = Some v.
Proof. by destruct v. Qed.

Lemma version_parse_spec text v : parse text = Some v ↔ as_str v = text.
Proof.
  split; [|intros <-; apply parse_as_str].
  unfold parse. intros H%List.find_some. destruct H as [_ H]. by bool_prop.
Qed.

(** A version both ends speak, and one that is not announced as retiring. *)
Definition spoken (e : ServedVersion) : bool :=
  match parse (version e) with Some _ => true | None => false end.
Definition undeprecated (e : ServedVersion) : bool :=
  spoken e && match deprecation_date e with None => true | Some _ => false end.

Lemma select_loop_spec d l :
  select_loop d l =
  match List.find undeprecated l with
  | Some e => match parse (version e) with
              | Some v => inl (mkServiceStatus v None)
              | None => inr None
              end
  | None => inr (match d with Some e => Some e | None => List.find spoken l end)
  end.
Proof.
  revert d. induction l as [|e l IH]; intros d; simpl; [by destruct d|].
  unfold undeprecated at 1, spoken at 1 2.
  destruct (parse (version e)) eqn:E; simpl.
  - destruct (deprecation_date e); simpl; [|by rewrite E]. rewrite IH.
    by destruct (List.find undeprecated l), d.
  - apply IH.
Qed.

Lemma char_byte_code c : (0 ≤ c < 128)%Z → encode_char c = [byte c] ∧ code (byte c) = c.
Proof.
  intros Hc. unfold encode_char. destruct (Z.ltb_spec c 128); [|lia]. split; [done|].
  unfold code, byte. rewrite N_ascii_embedding; lia.
Qed.

Lemma safe_char_range (f : Z → bool) c :
  f = version_char ∨ f = date_char → (0 ≤ (if f c then c else question) < 128)%Z
  ∧ (32 ≤ (if f c then c else question))%Z.
Proof.
  intros Hf. destruct (f c) eqn:E; [|unfold question; lia].
  destruct Hf as [-> | ->]; unfold version_char, date_char, char_is_ascii_alphanumeric in E;
    apply orb_true_iff in E as [E|E]; simpl in E; lia.
Qed.

(** What both sanitisers produce: one printable ASCII byte per kept character. *)
Lemma collect_safe (f : Z → bool) n l :
  f = version_char ∨ f = date_char →
  let s := collect (List.map (λ c, if f c then c else question) (take n l)) in
  length s ≤ n ∧ Forall (λ b, 32 ≤ code b < 128)%Z s.
Proof.
  intros Hf. simpl. revert n. induction l as [|c l IH]; intros [|n]; simpl; try (split; [lia|constructor]).
  destruct (safe_char_range f c Hf) as [Hr Hlo].
  destruct (char_byte_code _ Hr) as [-> Hcode].
  destruct (IH n) as [Hlen Hall]. simpl. split; [lia|]. constructor; [rewrite Hcode; lia|done].
Qed.

Lemma join_bounds (sep : bytes) k n l :
  length l ≤ k → Forall (λ s : bytes, length s ≤ n) l →
  length (join sep l) ≤ k * (n + length sep).
Proof.
  intros Hk Hl. assert (length (join sep l) ≤ length l * (n + length sep)) as H; [|nia].
  clear Hk. induction Hl as [|x l Hx Hl IH]; [done|]. destruct l as [|y l].
  - simpl. lia.
  - rewrite join_cons, !length_app. simpl length in *. lia.
Qed.

Lemma join_forall (P : ascii → Prop) sep l :
  Forall P sep → Forall (Forall P) l → Forall P (join sep l).
Proof.
  intros Hsep Hl. induction Hl as [|x l Hx Hl IH]; [constructor|].
  destruct l; [done|]. rewrite join_cons. by repeat (apply Forall_app; split).
Qed.

(** *** Correctness of version selection *)

(** [select] follows the service's preference order: it picks the first
    served version this build speaks that is not announced as retiring, else
    the first one it speaks with its sanitised retirement date, and fails with
    the incompatible-version error exactly when the two ends share none. *)
Theorem select_follows_service_order (served : list ServedVersion) :
  match select served with
  | Ok st =>
      (∃ e, List.find undeprecated served = Some e
            ∧ parse (version e) = Some (protocol_version st) ∧ status_deprecation_date st = None)
      ∨ (List.find undeprecated served = None
         ∧ ∃ e, List.find spoken served = Some e
            ∧ parse (version e) = Some (protocol_version st)
            ∧ status_deprecation_date st = option_map sanitise_date (deprecation_date e))
  | Err err =>
      err = incompatible served
      ∧ ∀ e v, e ∈ served → as_str v ≠ version e
  end.
Proof.
  unfold select. rewrite select_loop_spec.
  destruct (List.find undeprecated served) as [e|] eqn:E.
  - apply List.find_some in E as E'. destruct E' as [_ Hu].
    unfold undeprecated, spoken in Hu. bool_prop.
    destruct (parse (version e)) eqn:Ep; [|done]. left. eauto.
  - destruct (List.find spoken served) as [e|] eqn:E2.
    + apply List.find_some in E2 as E'. destruct E' as [_ Hu]. unfold spoken in Hu.
      destruct (parse (version e)) eqn:Ep; [|done]. right. eauto.
    + split; [done|]. intros e v He Hv%version_parse_spec.
      pose proof (List.find_none _ _ E2 e (proj1 (list_elem_of_In _ _) He)) as H.
      unfold spoken in H. by rewrite Hv in H.
Qed.

(** Whatever a service sends, the incompatible-version message an operator
    sees is bounded and carries no control character, and a surfaced
    retirement date is at most forty printable ASCII bytes. *)
Theorem surfaced_text_is_bounded (served : list ServedVersion) :
  length (message (incompatible served)) ≤ 256
  ∧ Forall (λ b, 32 ≤ code b)%Z (message (incompatible served))
  ∧ ∀ st date, select served = Ok st → status_deprecation_date st = Some date →
      length date ≤ 40 ∧ Forall (λ b, 32 ≤ code b < 128)%Z date.
Proof.
  assert (∀ e, length (sanitise e) ≤ 16 ∧ Forall (λ b, 32 ≤ code b < 128)%Z (sanitise e)) as Hsan
    by (intros e; apply (collect_safe version_char); by left).
  set (named := List.map (λ entry, sanitise (version entry)) (take NAMED_VERSION_LIMIT served)).
  assert (length named ≤ 8) as Hn.
  { unfold named. rewrite List.length_map, length_take. unfold NAMED_VERSION_LIMIT. lia. }
  assert (Forall (λ s : bytes, length s ≤ 16) named) as Hl
    by (unfold named; apply Forall_fmap, Forall_forall; intros x _; apply Hsan).
  assert (Forall (Forall (λ b, 32 ≤ code b)%Z) named) as Hc.
  { unfold named. apply Forall_fmap, Forall_forall. intros x _. simpl.
    eapply Forall_impl; [apply Hsan|]. simpl. lia. }
  pose proof (join_bounds ", " 8 16 named Hn Hl) as Hj. simpl length in Hj.
  assert (length (describe_served served) ≤ 149
          ∧ Forall (λ b, 32 ≤ code b)%Z (describe_served served)) as [Hd1 Hd2].
  { unfold describe_served. destruct served as [|e l].
    - split; [simpl; lia|]. repeat constructor; by vm_compute.
    - fold named. split.
      + clearbody named. rewrite length_app. destruct (_ <? _)%nat; simpl; lia.
      + apply Forall_app. split.
        * apply join_forall; [|done]. repeat constructor; by vm_compute.
        * destruct (_ <? _)%nat; repeat constructor; by vm_compute. }
  split; [|split].
  - unfold incompatible. cbn [message]. rewrite !length_app.
    change (length describe_spoken) with 10%nat. clearbody named. simpl. lia.
  - unfold incompatible. cbn [message]. rewrite !Forall_app. repeat split; try done;
      repeat constructor; by vm_compute.
  - intros st date Hsel Hdate. unfold select in Hsel.
    repeat destruct_match_in Hsel; simplify_eq/=.
    + rewrite select_loop_spec in *. repeat case_match; by simplify_eq.
    + destruct (deprecation_date s); simplify_eq/=.
      apply (collect_safe date_char). by right.
Qed.

Lemma surfaced_text_is_bounded_witness :
  length (message (incompatible [mkServedVersion "v99" None])) ≤ 256.
Proof. apply (surfaced_text_is_bounded [mkServedVersion "v99" None]). Defined.

End Protocol.

(** ** Redaction *)

(** Formatting a secret-bearing value never depends on the secret. *)
Lemma formatting_is_redacted (a b : bytes) :
  fmt_debug_plain (mkPlainValue a) = fmt_debug_plain (mkPlainValue b)
  ∧ fmt_display_plain (mkPlainValue a) = fmt_display_plain (mkPlainValue b)
  ∧ fmt_debug_input (mkSecretInput a) = fmt_debug_input (mkSecretInput b)
  ∧ fmt_display_input (mkSecretInput a) = fmt_display_input (mkSecretInput b)
  ∧ fmt_debug_revealed (mkRevealedSecret a) = fmt_debug_revealed (mkRevealedSecret b)
  ∧ fmt_display_revealed (mkRevealedSecret a) = fmt_display_revealed (mkRevealedSecret b)
  ∧ fmt_debug_secret (mkSecret a) = fmt_debug_secret (mkSecret b)
  ∧ fmt_display_secret (mkSecret a) = fmt_display_secret (mkSecret b).
Proof. done. Qed.
