(* ===== verification/PlainText.v ===== *)
(** * The plain subtree renderer

    Models [crates/sovereign-config-core/src/plain.rs]: one
    [ABSOLUTE_PATH=VALUE] line per value, ordered segment by segment on the
    fold, with the separators of the format escaped.  The file also gives the
    reader a line-oriented consumer would write and proves that it recovers
    exactly the rendered values. *)

From S2P Require Import Prelude Bytes ConfigPath Core.

Local Open Scope bytes_scope.

Definition newline : ascii := "010"%char.
Definition carriage_return : ascii := "013"%char.
Definition backslash : ascii := "\"%char.

(** [json::invalid_subtree], which the plain renderer shares. *)
Definition invalid_subtree : ClientError :=
  mkClientError InvalidRequest "configuration subtree cannot be represented as JSON".

Module Plain.

(** [fold_segments] *)
Definition fold_segments (p : ConfigPath) : list bytes :=
  split "/"%char (trim_start_matches "/"%char (Path.fold p)).

(** [escape_into], on bytes: the three escaped characters are ASCII, and UTF-8
    never encodes another character with an ASCII byte. *)
Definition escape_byte (c : ascii) : bytes :=
  if bool_decide (c = backslash) then [backslash; backslash]
  else if bool_decide (c = newline) then [backslash; "n"%char]
  else if bool_decide (c = carriage_return) then [backslash; "r"%char]
  else [c].
Definition escape_into (value : bytes) : bytes := flat_map escape_byte value.

(** [Ord for Vec<String>] *)
Fixpoint cmp_segments (a b : list bytes) : comparison :=
  match a, b with
  | [], [] => Eq
  | [], _ :: _ => Lt
  | _ :: _, [] => Gt
  | x :: a', y :: b' => match cmp_bytes x y with Eq => cmp_segments a' b' | c => c end
  end.
Definition segments_leb (a b : list bytes) : bool :=
  match cmp_segments a b with Gt => false | _ => true end.

(** One entry as the loop collects it. *)
Definition entry (root : ConfigPath) (value : SubTreeValue)
  : result (list bytes * SubTreeValue) ClientError :=
  if bool_decide (Path.as_str (stv_path value) = "/")
     || negb (Path.is_at_or_below (stv_path value) root)
  then Err invalid_subtree
  else Ok (fold_segments (stv_path value), value).

Definition line (value : SubTreeValue) : bytes :=
  Path.as_str (stv_path value) ++ "=" ++ escape_into (display_text (stv_value value)) ++ [newline].

Definition render_subtree_plain (root : ConfigPath) (values : list SubTreeValue)
  : result bytes ClientError :=
  match map_result (entry root) values with
  | Err e => Err e
  | Ok entries =>
      Ok (flat_map (λ e, line (snd e))
            (sort_by (λ a b, segments_leb (fst a) (fst b)) entries))
  end.

(** ** The reader of the format *)

Fixpoint unescape (s : bytes) : option bytes :=
  match s with
  | [] => Some []
  | c :: s' =>
      if bool_decide (c = backslash) then
        match s' with
        | d :: s'' =>
            let one := if bool_decide (d = backslash) then Some backslash
                       else if bool_decide (d = "n"%char) then Some newline
                       else if bool_decide (d = "r"%char) then Some carriage_return
                       else None in
            match one, unescape s'' with
            | Some o, Some r => Some (o :: r)
            | _, _ => None
            end
        | [] => None
        end
      else match unescape s' with Some r => Some (c :: r) | None => None end
  end.

Definition read_line (l : bytes) : option (bytes * bytes) :=
  match split_once "="%char l with
  | Some (p, v) => match unescape v with Some v' => Some (p, v') | None => None end
  | None => None
  end.

(** Every line but the empty remainder after the final line feed. *)
Definition read_plain (text : bytes) : list (option (bytes * bytes)) :=
  List.map read_line (removelast (split newline text)).

(** ** Lemmas *)

Lemma unescape_escape s : unescape (escape_into s) = Some s.
Proof.
  induction s as [|c s IH]; [done|]. unfold escape_into. simpl. fold (escape_into s).
  unfold escape_byte. repeat case_bool_decide; subst; simpl; rewrite ?IH; try done.
  by case_bool_decide.
Qed.

Lemma escape_one_line s : newline ∉ escape_into s ∧ carriage_return ∉ escape_into s.
Proof.
  induction s as [|c s [IH1 IH2]]; [by split; apply not_elem_of_nil|].
  unfold escape_into in *. simpl. rewrite !not_elem_of_app.
  split; (split; [|done]); unfold escape_byte; repeat case_bool_decide; set_solver.
Qed.

Lemma segment_byte_plain c : segment_byte c = true →
  c ≠ "="%char ∧ c ≠ newline ∧ c ≠ carriage_return ∧ c ≠ backslash.
Proof. all_bytes c. Qed.

Lemma canonical_free p c :
  Path.Canonical p → c ≠ "/"%char → segment_byte c = false → c ∉ p.
Proof.
  intros (segs & Hs & ->) Hslash Hc. unfold Path.render.
  rewrite not_elem_of_app. split; [set_solver|].
  induction Hs as [|s segs [_ Hs] Hsegs IH]; [apply not_elem_of_nil|].
  assert (c ∉ s) as Hin.
  { intros Hin. rewrite Forall_forall in Hs. by rewrite (Hs _ Hin) in Hc. }
  destruct segs; [done|]. rewrite join_cons, !not_elem_of_app. set_solver.
Qed.

Lemma line_split v rest :
  Path.Canonical (path (stv_path v)) →
  split newline (line v ++ rest) = removelast (line v) :: split newline rest.
Proof.
  intros Hp. unfold line, Path.as_str. rewrite !app_assoc.
  rewrite removelast_last, <- (app_assoc _ [newline]). apply split_app.
  rewrite !not_elem_of_app. split; [split|apply escape_one_line].
  - by apply canonical_free.
  - set_solver.
Qed.

Lemma read_line_line v :
  Path.Canonical (path (stv_path v)) →
  read_line (removelast (line v)) = Some (path (stv_path v), display_text (stv_value v)).
Proof.
  intros Hp. unfold line, read_line, Path.as_str. rewrite !app_assoc, removelast_last.
  rewrite <- app_assoc.
  rewrite (proj2 (split_once_spec "="%char _ (path (stv_path v)) (escape_into (display_text (stv_value v))))).
  - by rewrite unescape_escape.
  - split; [done|]. by apply canonical_free.
Qed.

Lemma entry_ok root v e :
  entry root v = Ok e →
  e = (fold_segments (stv_path v), v) ∧ Path.is_at_or_below (stv_path v) root = true
  ∧ path (stv_path v) ≠ "/".
Proof. unfold entry. destruct (_ || _) eqn:E; [done|]. intros [= <-]. by bool_prop. Qed.

Lemma entries_values root values entries :
  map_result (entry root) values = Ok entries → List.map snd entries = values.
Proof.
  intros H%map_result_ok. induction H as [|v e vs es He _ IH]; [done|].
  apply entry_ok in He as [-> _]. simpl. by rewrite IH.
Qed.

(** Rendering a subtree as plain text and reading the lines back recovers
    every path and displayed value exactly once, one line per value, whatever
    line breaks, backslashes or equals signs the values contain. *)
Theorem plain_text_round_trip (root : ConfigPath) (values : list SubTreeValue) (text : bytes) :
  Forall (λ v, Path.Canonical (path (stv_path v))) values →
  render_subtree_plain root values = Ok text →
  ∃ rows, read_plain text = List.map Some rows
          ∧ rows ≡ₚ List.map (λ v, (path (stv_path v), display_text (stv_value v))) values.
Proof.
  intros Hc. unfold render_subtree_plain.
  destruct (map_result (entry root) values) as [entries|] eqn:E; [|done]. intros [= <-].
  apply entries_values in E. set (sorted := sort_by _ entries).
  exists (List.map (λ e, (path (stv_path (snd e)), display_text (stv_value (snd e)))) sorted).
  assert (Forall (λ e, Path.Canonical (path (stv_path (snd e)))) sorted) as Hs.
  { unfold sorted. rewrite sort_by_perm. subst values. by rewrite Forall_map_iff in Hc. }
  split.
  - unfold read_plain. clear -Hs. induction Hs as [|e l He Hl IH]; [done|].
    simpl. rewrite line_split by done.
    rewrite removelast_cons by apply split_not_nil.
    cbn [List.map]. by rewrite read_line_line, IH by done.
  - unfold sorted. rewrite sort_by_perm. by rewrite <- E, List.map_map.
Qed.

Definition witness_values : list SubTreeValue :=
  [mkSubTreeValue (mkPath "/apps/b") (ContentPlain (mkPlainValue "x=\n"));
   mkSubTreeValue (mkPath "/apps/A") (ContentSecret masked_secret)].

Lemma plain_text_round_trip_witness :
  ∃ rows, read_plain (flat_map line (rev witness_values)) = List.map Some rows
          ∧ rows ≡ₚ List.map (λ v, (path (stv_path v), display_text (stv_value v))) witness_values.
Proof.
  apply (plain_text_round_trip (mkPath "/apps") witness_values).
  - repeat constructor; apply Path.canonical_check; reflexivity.
  - reflexivity.
Defined.

(** *** Order *)

Lemma cmp_segments_eq a b : cmp_segments a b = Eq ↔ a = b.
Proof.
  revert b. induction a as [|x a IH]; intros [|y b]; simpl; try done.
  destruct (cmp_bytes x y) eqn:E.
  - apply cmp_bytes_eq in E as ->. rewrite IH. naive_solver.
  - split; [done|]. intros [= -> ->]. by rewrite (proj2 (cmp_bytes_eq y y)) in E.
  - split; [done|]. intros [= -> ->]. by rewrite (proj2 (cmp_bytes_eq y y)) in E.
Qed.

Lemma cmp_segments_antisym a b : cmp_segments a b = CompOpp (cmp_segments b a).
Proof.
  revert b. induction a as [|x a IH]; intros [|y b]; simpl; try done.
  rewrite (cmp_bytes_antisym x y). destruct (cmp_bytes y x); simpl; auto.
Qed.

Lemma segments_leb_total a b : segments_leb a b = false → segments_leb b a = true.
Proof. unfold segments_leb. rewrite (cmp_segments_antisym a b). by destruct (cmp_segments b a). Qed.

Lemma segments_leb_trans a b c :
  segments_leb a b = true → segments_leb b c = true → segments_leb a c = true.
Proof.
  unfold segments_leb. revert b c.
  induction a as [|x a IH]; intros [|y b] [|z c]; simpl; try done.
  destruct (cmp_bytes x y) eqn:E1; [apply cmp_bytes_eq in E1 as ->|intros _|done].
  { destruct (cmp_bytes y z); [apply IH|done|done]. }
  destruct (cmp_bytes y z) eqn:E2; intros; [apply cmp_bytes_eq in E2 as <-; by rewrite E1| |done].
  pose proof (bytes_leb_trans x y z) as Ht. unfold bytes_leb in Ht. rewrite E1, E2 in Ht.
  destruct (cmp_bytes x z) eqn:E3; [|done|by specialize (Ht eq_refl eq_refl)].
  apply cmp_bytes_eq in E3 as ->. by rewrite cmp_bytes_antisym, E1 in E2.
Qed.

End Plain.
