(* ===== verification/Json.v ===== *)
(** * The JSON subtree codec

    Models [crates/sovereign-config-core/src/json.rs]: the nested JSON document
    a subtree is rendered as, and its parse back into mutations.  A
    [BTreeMap<JsonKey, _>] is an association list in fold order; [serde_json]'s
    reader and writer are parameters, and what the code relies on (reading
    back what was written) is a hypothesis of the round-trip theorem. *)

From S2P Require Import Prelude Bytes ConfigPath Core PlainText.

Local Open Scope bytes_scope.

Module Json.

Inductive JsonNode :=
| JString (s : bytes)
| JObject (o : list (bytes * JsonNode)).

Abbreviation JsonObject := (list (bytes * JsonNode)).

(** [Ord for JsonKey] *)
Definition key_cmp (a b : bytes) : comparison :=
  cmp_bytes (List.map lower_byte a) (List.map lower_byte b).

(** [BTreeMap::get] and [BTreeMap::insert]: an occupied key keeps its spelling
    and the previous value is returned. *)
Fixpoint bt_get (k : bytes) (o : JsonObject) : option JsonNode :=
  match o with
  | [] => None
  | (k', v') :: o' =>
      match key_cmp k k' with Lt => None | Eq => Some v' | Gt => bt_get k o' end
  end.

Fixpoint bt_insert (k : bytes) (v : JsonNode) (o : JsonObject) : option JsonNode * JsonObject :=
  match o with
  | [] => (None, [(k, v)])
  | (k', v') :: o' =>
      match key_cmp k k' with
      | Lt => (None, (k, v) :: o)
      | Eq => (Some v', (k', v) :: o')
      | Gt => let '(old, r) := bt_insert k v o' in (old, (k', v') :: r)
      end
  end.

(** ** Rendering *)

Definition json_segments (root p : ConfigPath) : result (list bytes) ClientError :=
  if bool_decide (Path.as_str root = "/")
  then Ok (split "/"%char (trim_start_matches "/"%char (Path.as_str p)))
  else
    let prefix_len := length (Path.as_str root) in
    let path_str := Path.as_str p in
    if (prefix_len <? length path_str)%nat
       && eq_ignore_ascii_case (take prefix_len path_str) (Path.as_str root)
       && bool_decide (path_str !! prefix_len = Some "/"%char)
    then Ok (split "/"%char (drop (prefix_len + 1) path_str))
    else Err invalid_subtree.

Fixpoint insert_json_value (object : JsonObject) (segments : list bytes) (value : bytes)
  : result JsonObject ClientError :=
  match segments with
  | [] => Err invalid_subtree
  | segment :: remaining =>
      match remaining with
      | [] =>
          match bt_insert segment (JString value) object with
          | (Some _, _) => Err invalid_subtree
          | (None, object') => Ok object'
          end
      | _ =>
          match (match bt_get segment object with Some n => n | None => JObject [] end) with
          | JString _ => Err invalid_subtree
          | JObject child =>
              match insert_json_value child remaining value with
              | Err e => Err e
              | Ok child' => Ok (snd (bt_insert segment (JObject child') object))
              end
          end
      end
  end.

(** One step of [render_subtree_json]'s loop over [object] and [exact]. *)
Definition render_step (root : ConfigPath) (state : JsonObject * option bytes)
  (value : SubTreeValue) : result (JsonObject * option bytes) ClientError :=
  let '(object, exact) := state in
  if bool_decide (Path.as_str (stv_path value) = "/")
     || negb (Path.is_at_or_below (stv_path value) root)
  then Err invalid_subtree
  else if Path.eq (stv_path value) root then
    match exact with
    | Some _ => Err invalid_subtree
    | None => Ok (object, Some (display_text (stv_value value)))
    end
  else
    match json_segments root (stv_path value) with
    | Err e => Err e
    | Ok segments =>
        match insert_json_value object segments (display_text (stv_value value)) with
        | Err e => Err e
        | Ok object' => Ok (object', exact)
        end
    end.

Definition render_node (root : ConfigPath) (values : list SubTreeValue)
  : result JsonNode ClientError :=
  match fold_result (render_step root) ([], None) values with
  | Err e => Err e
  | Ok (object, Some value) => if is_empty object then Ok (JString value) else Err invalid_subtree
  | Ok (object, None) => Ok (JObject object)
  end.

(** ** Parsing *)

(** What [serde_json] hands the visitor: a string, the entries of an object in
    document order, or something the visitor does not accept. *)
Inductive RawJson :=
| RString (s : bytes)
| RObject (entries : list (bytes * RawJson))
| ROther.

(** The visitor of [Deserialize for JsonNode]. *)
Fixpoint deserialize (raw : RawJson) : option JsonNode :=
  match raw with
  | RString s => Some (JString s)
  | ROther => None
  | RObject entries =>
      (fix visit_map (object : JsonObject) (entries : list (bytes * RawJson)) :=
         match entries with
         | [] => Some (JObject object)
         | (key, value) :: rest =>
             match deserialize value with
             | None => None
             | Some node =>
                 match bt_insert key node object with
                 | (Some _, _) => None
                 | (None, object') => visit_map object' rest
                 end
             end
         end) [] entries
  end.

Definition invalid_json : ClientError :=
  mkClientError InvalidRequest "configuration JSON is invalid".

Definition NUL : ascii := "000"%char.

Definition mutation_content (value : bytes) : SubTreeMutationContent :=
  if bool_decide (value = MASKED_SECRET_TEXT) then MutPreserveSecret
  else MutPlain (mkPlainValue value).

(** [flatten_json_node]; the vector it pushes to is its result. *)
Fixpoint flatten_json_node (p : ConfigPath) (node : JsonNode)
  : result (list SubTreeMutationValue) ClientError :=
  match node with
  | JString value =>
      if contains_byte NUL value then Err invalid_json
      else Ok [mkSubTreeMutationValue p (mutation_content value)]
  | JObject object =>
      (fix flatten (object : JsonObject) :=
         match object with
         | [] => Ok []
         | (key, child) :: rest =>
             match Path.join_name p key with
             | Err _ => Err invalid_json
             | Ok child_path =>
                 match flatten_json_node child_path child with
                 | Err e => Err e
                 | Ok here => match flatten rest with
                              | Err e => Err e
                              | Ok there => Ok (here ++ there)
                              end
                 end
             end
         end) object
  end.

Definition flatten_json_object (root : ConfigPath) (object : JsonObject)
  : result (list SubTreeMutationValue) ClientError :=
  flatten_json_node root (JObject object).

Section codec.
(** [serde_json::to_string_pretty], and [serde_json::Deserializer] followed
    by [end]. *)
Context (to_string_pretty : JsonNode → option bytes) (from_str : bytes → option RawJson).

Definition render_subtree_json (root : ConfigPath) (values : list SubTreeValue)
  : result bytes ClientError :=
  match render_node root values with
  | Err e => Err e
  | Ok node => match to_string_pretty node with
               | Some json => Ok (json ++ [newline])
               | None => Err invalid_subtree
               end
  end.

Definition parse_subtree_json (root : ConfigPath) (json : bytes)
  : result (list SubTreeMutationValue) ClientError :=
  match from_str json with
  | None => Err invalid_json
  | Some raw =>
      match deserialize raw with
      | None => Err invalid_json
      | Some node =>
          if bool_decide (Path.as_str root = "/") then
            match node with
            | JObject object => flatten_json_object root object
            | JString _ => Err invalid_json
            end
          else flatten_json_node root node
      end
  end.
End codec.

(** ** Induction over nested nodes *)

Lemma JsonNode_nested_ind (P : JsonNode → Prop) :
  (∀ s, P (JString s)) → (∀ o, Forall (λ kn, P (snd kn)) o → P (JObject o)) → ∀ n, P n.
Proof.
  intros Hs Ho. fix IH 1. intros [s|o]; [apply Hs|]. apply Ho.
  induction o as [|[k n] o IHo]; constructor; [apply IH|apply IHo].
Qed.

(** ** Specification: a document is its leaves

    The leaves of a node, each with the folded keys that lead to it. *)
Fixpoint leaves (n : JsonNode) : list (list bytes * bytes) :=
  match n with
  | JString s => [([], s)]
  | JObject o =>
      (fix go (o : JsonObject) :=
         match o with
         | [] => []
         | (k, c) :: o' =>
             List.map (λ l, (to_ascii_lowercase k :: fst l, snd l)) (leaves c) ++ go o'
         end) o
  end.

Definition entry_leaves (kn : bytes * JsonNode) : list (list bytes * bytes) :=
  List.map (λ l, (to_ascii_lowercase (fst kn) :: fst l, snd l)) (leaves (snd kn)).

Definition key_lt (a b : bytes * JsonNode) : Prop := key_cmp (fst a) (fst b) = Lt.

(** Keys are valid segments in strict fold order, and no object is empty below
    the top. *)
Inductive Wf : JsonNode → Prop :=
| Wf_string s : Wf (JString s)
| Wf_object o :
    StronglySorted key_lt o →
    Forall (λ kn, Path.Segment (fst kn)) o →
    Forall (λ kn, Wf (snd kn)) o →
    Forall (λ kn, leaves (snd kn) ≠ []) o →
    Wf (JObject o).

Lemma leaves_object o : leaves (JObject o) = flat_map entry_leaves o.
Proof. induction o as [|[k c] o IH]; [done|]. simpl in *. by rewrite IH. Qed.

(** Two leaves conflict when one lies at or above the other. *)
Definition conflict (a b : list bytes) : Prop := a `prefix_of` b ∨ b `prefix_of` a.

Lemma key_cmp_eq a b : key_cmp a b = Eq ↔ to_ascii_lowercase a = to_ascii_lowercase b.
Proof. apply cmp_bytes_eq. Qed.

Lemma cmp_lt_trans a b c : cmp_bytes a b = Lt → cmp_bytes b c = Lt → cmp_bytes a c = Lt.
Proof.
  revert b c. induction a as [|x a IH]; intros [|y b] [|z c]; simpl; try done.
  destruct (Z.compare_spec (code x) (code y)), (Z.compare_spec (code y) (code z)),
    (Z.compare_spec (code x) (code z)); try done; try lia. apply IH.
Qed.

Lemma bt_insert_shape k v o :
  (bt_get k o = None ∧ ∃ l r, o = l ++ r ∧ bt_insert k v o = (None, l ++ (k, v) :: r)
     ∧ Forall (λ e, key_cmp k (fst e) = Gt) l
     ∧ (r = [] ∨ ∃ e r', r = e :: r' ∧ key_cmp k (fst e) = Lt))
  ∨ (∃ k' old l r, to_ascii_lowercase k' = to_ascii_lowercase k ∧ bt_get k o = Some old
       ∧ o = l ++ (k', old) :: r ∧ bt_insert k v o = (Some old, l ++ (k', v) :: r)).
Proof.
  induction o as [|[k' v'] o IH]; simpl.
  { left. split; [done|]. exists [], []. auto. }
  destruct (key_cmp k k') eqn:E.
  - right. apply key_cmp_eq in E. exists k', v', [], o. auto.
  - left. split; [done|]. exists [], ((k', v') :: o). repeat split; auto. right. eauto.
  - destruct IH as [(Hg & l & r & -> & -> & Hl & Hr)|(k2 & old & l & r & Hk & Hg & -> & ->)].
    + left. split; [done|]. exists ((k', v') :: l), r. repeat split; auto.
    + right. exists k2, old, ((k', v') :: l), r. auto.
Qed.

Lemma bt_get_elem k o n : bt_get k o = Some n →
  ∃ k', (k', n) ∈ o ∧ to_ascii_lowercase k' = to_ascii_lowercase k.
Proof.
  intros H. destruct (bt_insert_shape k n o) as [[? _]|(k' & old & l & r & Hk & Hg & -> & _)];
    simplify_eq. exists k'. split; [set_solver|done].
Qed.

Lemma bt_get_none_fresh k o kn :
  StronglySorted key_lt o → bt_get k o = None → kn ∈ o →
  to_ascii_lowercase (fst kn) ≠ to_ascii_lowercase k.
Proof.
  intros Hs Hg Hin Heq. induction Hs as [|[k' v'] o Hs IH Hall]; [set_solver|].
  simpl in Hg. destruct (key_cmp k k') eqn:E; [done|..].
  - apply elem_of_cons in Hin as [->|Hin].
    + symmetry in Heq. apply key_cmp_eq in Heq. simpl in Heq. congruence.
    + rewrite Forall_forall in Hall. specialize (Hall _ Hin). unfold key_lt, key_cmp in *.
      simpl in *. pose proof (cmp_lt_trans _ _ _ E Hall) as Hlt.
      change (List.map lower_byte (fst kn)) with (to_ascii_lowercase (fst kn)) in Hlt.
      rewrite Heq in Hlt. by rewrite (proj2 (cmp_bytes_eq _ _) eq_refl) in Hlt.
  - apply elem_of_cons in Hin as [->|Hin]; [|auto].
    symmetry in Heq. apply key_cmp_eq in Heq. simpl in Heq. congruence.
Qed.

Lemma key_cmp_gt a b : key_cmp a b = Gt ↔ key_cmp b a = Lt.
Proof. unfold key_cmp. rewrite cmp_bytes_antisym. by destruct (cmp_bytes _ _). Qed.

Lemma key_lt_fold_ne a b : key_lt a b → to_ascii_lowercase (fst a) ≠ to_ascii_lowercase (fst b).
Proof. unfold key_lt. intros H E%key_cmp_eq. congruence. Qed.

(** Inserting at a free position keeps the fold order. *)
Lemma sorted_insert k v l r :
  StronglySorted key_lt (l ++ r) →
  Forall (λ e, key_cmp k (fst e) = Gt) l →
  (r = [] ∨ ∃ e r', r = e :: r' ∧ key_cmp k (fst e) = Lt) →
  StronglySorted key_lt (l ++ (k, v) :: r).
Proof.
  rewrite !StronglySorted_app, StronglySorted_cons. intros (Hlr & Hl & Hr) Hgt Hr'.
  assert (Forall (key_lt (k, v)) r) as Hkr.
  { destruct Hr' as [->|(e & r' & -> & He)]; [constructor|].
    apply StronglySorted_cons in Hr as [Hall _]. constructor; [done|].
    eapply Forall_impl; [exact Hall|]. intros x Hx. unfold key_lt, key_cmp in *.
    by eapply cmp_lt_trans. }
  rewrite Forall_forall in Hgt, Hkr. split; [|rewrite Forall_forall; auto].
  intros x1 x2 H1 [->|H2]%elem_of_cons; [|auto]. by apply key_cmp_gt, Hgt.
Qed.

(** Replacing a value in place keeps the fold order. *)
Lemma sorted_replace k v v' l r :
  StronglySorted key_lt (l ++ (k, v) :: r) → StronglySorted key_lt (l ++ (k, v') :: r).
Proof.
  rewrite !StronglySorted_app, !StronglySorted_cons. intros (Hlr & Hl & Hk & Hr).
  split; [|done]. intros x1 x2 H1 [->|H2]%elem_of_cons.
  - by apply (Hlr x1 (k, v) H1); left.
  - apply Hlr; [done|by right].
Qed.

Lemma sorted_middle_unique k v l r kn :
  StronglySorted key_lt (l ++ (k, v) :: r) → kn ∈ l ∨ kn ∈ r →
  to_ascii_lowercase (fst kn) ≠ to_ascii_lowercase k.
Proof.
  rewrite StronglySorted_app, StronglySorted_cons, Forall_forall.
  intros (Hlr & Hl & Hk & Hr) [Hin|Hin].
  - apply (key_lt_fold_ne kn (k, v)), Hlr; [done|by left].
  - intros E. by apply (key_lt_fold_ne (k, v) kn (Hk _ Hin)).
Qed.

Lemma wf_object_app l x r :
  Wf (JObject (l ++ x :: r)) ↔
  StronglySorted key_lt (l ++ x :: r)
  ∧ Forall (λ kn, Path.Segment (fst kn) ∧ Wf (snd kn) ∧ leaves (snd kn) ≠ []) (l ++ r)
  ∧ Path.Segment (fst x) ∧ Wf (snd x) ∧ leaves (snd x) ≠ [].
Proof.
  split.
  - inversion_clear 1 as [|? Hs Hk Hw Hl].
    rewrite !Forall_app, !Forall_cons in *. rewrite !Forall_and. naive_solver.
  - intros (Hs & Hall & ? & ? & ?). rewrite Forall_app, !Forall_and in Hall.
    constructor; [done|..]; rewrite Forall_app, Forall_cons; naive_solver.
Qed.

Lemma wf_object_elem o kn :
  Wf (JObject o) → kn ∈ o →
  Path.Segment (fst kn) ∧ Wf (snd kn) ∧ leaves (snd kn) ≠ [].
Proof.
  intros Hw Hin. apply list_elem_of_split in Hin as (l & r & ->).
  by apply wf_object_app in Hw as (_ & _ & ?).
Qed.

Lemma elem_of_leaves_object o l :
  l ∈ leaves (JObject o) ↔
  ∃ kn l', kn ∈ o ∧ l' ∈ leaves (snd kn) ∧ l = (to_ascii_lowercase (fst kn) :: fst l', snd l').
Proof.
  rewrite leaves_object, list_elem_of_In, in_flat_map. unfold entry_leaves. split.
  - intros (kn & Hkn & Hl). apply in_map_iff in Hl as (l' & <- & Hl').
    exists kn, l'. by rewrite !list_elem_of_In.
  - intros (kn & l' & Hkn & Hl' & ->). exists kn. rewrite list_elem_of_In in Hkn.
    split; [done|]. apply in_map_iff. exists l'. by rewrite <- list_elem_of_In.
Qed.

Lemma conflict_cons k a b : conflict (k :: a) (k :: b) ↔ conflict a b.
Proof.
  unfold conflict. split; (intros [H|H]; [left|right]).
  - by apply prefix_cons_inv_2 in H.
  - by apply prefix_cons_inv_2 in H.
  - by apply prefix_cons.
  - by apply prefix_cons.
Qed.

Lemma conflict_cons_ne k k' a b : k ≠ k' → ¬ conflict (k :: a) (k' :: b).
Proof. intros Hne [H%prefix_cons_inv_1|H%prefix_cons_inv_1]; congruence. Qed.

Lemma insert_here k n o l r :
  o = l ++ r → leaves (JObject (l ++ (k, n) :: r)) ≡ₚ entry_leaves (k, n) ++ leaves (JObject o).
Proof.
  intros ->. rewrite !leaves_object, !flat_map_app. simpl.
  apply Permutation_app_swap_app.
Qed.

Lemma entry_leaves_fold k k' n :
  to_ascii_lowercase k = to_ascii_lowercase k' → entry_leaves (k, n) = entry_leaves (k', n).
Proof. unfold entry_leaves. simpl. by intros ->. Qed.

(** Adding an entry under a key that is not there. *)
Lemma bt_insert_fresh k n o :
  Wf (JObject o) → Path.Segment k → Wf n → leaves n ≠ [] → bt_get k o = None →
  ∃ o', bt_insert k n o = (None, o') ∧ Wf (JObject o')
        ∧ leaves (JObject o') ≡ₚ entry_leaves (k, n) ++ leaves (JObject o).
Proof.
  intros Hw Hk Hn Hne Hg. assert (StronglySorted key_lt o) as Hs by (by inversion Hw).
  destruct (bt_insert_shape k n o) as [(_ & l & r & -> & -> & Hl & Hr)|(? & ? & ? & ? & _ & ? & _)];
    [|congruence].
  eexists. split; [done|]. split; [|by apply insert_here].
  apply wf_object_app. split; [by apply sorted_insert|]. split; [|done].
  apply Forall_forall. intros kn Hin. by apply (wf_object_elem (l ++ r)).
Qed.

(** Replacing the node under a key that is there, the other entries aside. *)
Lemma bt_insert_replace k n old o :
  Wf (JObject o) → bt_get k o = Some old → Wf n → leaves n ≠ [] →
  ∃ o' others, bt_insert k n o = (Some old, o') ∧ Wf (JObject o') ∧ Wf old ∧ leaves old ≠ []
        ∧ leaves (JObject o') ≡ₚ entry_leaves (k, n) ++ leaves (JObject others)
        ∧ leaves (JObject o) ≡ₚ entry_leaves (k, old) ++ leaves (JObject others)
        ∧ ∀ kn, kn ∈ others → to_ascii_lowercase (fst kn) ≠ to_ascii_lowercase k.
Proof.
  intros Hw Hg Hn Hne.
  destruct (bt_insert_shape k n o) as [(? & _)|(k' & old' & l & r & Hk & Hg' & -> & ->)];
    [congruence|]. rewrite Hg in Hg'. simplify_eq.
  apply wf_object_app in Hw as (Hs & Hothers & Hk' & Hold & Hnold).
  exists (l ++ (k', n) :: r), (l ++ r). split; [done|]. split.
  { apply wf_object_app. split; [by eapply sorted_replace|done]. }
  split; [done|]. split; [done|].
  rewrite <- !(entry_leaves_fold k' k) by done.
  split; [by apply insert_here|]. split; [by apply insert_here|].
  intros kn Hin%elem_of_app. rewrite <- Hk. by eapply sorted_middle_unique.
Qed.

(** The outcome of inserting [v] at the path [key]: the new leaf is added and
    nothing else changes, unless a leaf of the document conflicts with the
    path, which is exactly when the insertion is refused. *)
Definition inserted (o : JsonObject) (key : list bytes) (v : bytes)
  (res : result JsonObject ClientError) : Prop :=
  match res with
  | Ok o' => Wf (JObject o') ∧ leaves (JObject o') ≡ₚ (key, v) :: leaves (JObject o)
             ∧ ∀ l, l ∈ leaves (JObject o) → ¬ conflict (fst l) key
  | Err e => e = invalid_subtree ∧ ∃ l, l ∈ leaves (JObject o) ∧ conflict (fst l) key
  end.

Lemma others_no_conflict others k key l :
  (∀ kn, kn ∈ others → to_ascii_lowercase (fst kn) ≠ to_ascii_lowercase k) →
  l ∈ leaves (JObject others) → ¬ conflict (fst l) (to_ascii_lowercase k :: key).
Proof.
  intros Hne (kn & l' & Hkn & _ & ->)%elem_of_leaves_object. apply conflict_cons_ne. auto.
Qed.

Lemma elem_of_entry_leaves k n l :
  l ∈ entry_leaves (k, n) ↔ ∃ l', l' ∈ leaves n ∧ l = (to_ascii_lowercase k :: fst l', snd l').
Proof.
  unfold entry_leaves. rewrite list_elem_of_In, in_map_iff. simpl.
  split; [intros (l' & <- & Hl')|intros (l' & Hl' & ->)]; exists l'; by rewrite list_elem_of_In in *.
Qed.

Lemma insert_leaf_spec o seg v :
  Wf (JObject o) → Path.Segment seg →
  inserted o [to_ascii_lowercase seg] v (insert_json_value o [seg] v).
Proof.
  intros Hw Hseg. simpl. destruct (bt_get seg o) as [old|] eqn:Hg.
  - destruct (bt_insert_replace seg (JString v) old o) as
      (o' & others & -> & _ & _ & Hne & _ & Hperm & _); [done|done|constructor|done|].
    split; [done|]. destruct (leaves old) as [|l ls] eqn:E; [done|].
    exists (to_ascii_lowercase seg :: fst l, snd l). split.
    + rewrite Hperm. apply elem_of_app. left. apply elem_of_entry_leaves.
      exists l. split; [rewrite E; by left|done].
    + right. by exists (fst l).
  - destruct (bt_insert_fresh seg (JString v) o) as (o' & -> & Hw' & Hperm); try done; [constructor|].
    split; [done|]. split; [done|]. intros l Hl. eapply others_no_conflict; [|done].
    intros kn Hkn. eapply bt_get_none_fresh; [by inversion Hw|done|done].
Qed.

Lemma insert_json_value_cons o seg seg2 rest v :
  insert_json_value o (seg :: seg2 :: rest) v =
  match (match bt_get seg o with Some n => n | None => JObject [] end) with
  | JString _ => Err invalid_subtree
  | JObject child =>
      match insert_json_value child (seg2 :: rest) v with
      | Err e => Err e
      | Ok child' => Ok (snd (bt_insert seg (JObject child') o))
      end
  end.
Proof. done. Qed.

Lemma insert_json_value_spec segs :
  ∀ o v, Wf (JObject o) → segs ≠ [] → Forall Path.Segment segs →
  inserted o (List.map to_ascii_lowercase segs) v (insert_json_value o segs v).
Proof.
  induction segs as [|seg [|seg2 rest] IH]; [done|..]; intros o v Hw _ Hsegs;
    apply Forall_cons in Hsegs as [Hseg Hrest]; [by apply insert_leaf_spec|].
  rewrite insert_json_value_cons. set (key := List.map to_ascii_lowercase (seg2 :: rest)) in *.
  change (List.map to_ascii_lowercase (seg :: seg2 :: rest)) with (to_ascii_lowercase seg :: key).
  destruct (bt_get seg o) as [[t|child]|] eqn:Hg.
  - destruct (bt_insert_replace seg (JString t) (JString t) o) as
      (o' & others & _ & _ & _ & _ & _ & Hperm & _); [done|done|constructor|done|].
    split; [done|]. exists ([to_ascii_lowercase seg], t). split; [rewrite Hperm; by left|].
    apply conflict_cons. left. apply prefix_nil.
  - assert (Wf (JObject child)) as Hwc.
    { apply bt_get_elem in Hg as (k' & Hin & _). by apply wf_object_elem in Hin as (_ & ? & _). }
    specialize (IH child v Hwc ltac:(done) Hrest). fold key in IH.
    destruct (insert_json_value child (seg2 :: rest) v) as [child'|e].
    + destruct IH as (Hwc' & Hperm & Hnc).
      destruct (bt_insert_replace seg (JObject child') (JObject child) o) as
        (o' & others & -> & Hw' & _ & _ & Hp' & Hp & Hothers); [done|done|done|by eapply perm_cons_not_nil|].
      split; [done|]. split.
      * rewrite Hp', Hp. unfold entry_leaves. cbn [fst snd]. by rewrite Hperm.
      * intros l. rewrite Hp, elem_of_app, elem_of_entry_leaves. intros [(l' & Hl' & ->)|Hl].
        -- cbn [fst]. rewrite conflict_cons. by apply Hnc.
        -- by eapply others_no_conflict.
    + destruct IH as (-> & l & Hl & Hc). split; [done|].
      apply bt_get_elem in Hg as (k' & Hin & Hk').
      exists (to_ascii_lowercase k' :: fst l, snd l). split.
      * apply elem_of_leaves_object. by exists (k', JObject child), l.
      * cbn [fst]. by rewrite Hk', conflict_cons.
  - assert (Wf (JObject [])) as Hempty by (constructor; constructor).
    specialize (IH [] v Hempty ltac:(done) Hrest). fold key in IH.
    destruct (insert_json_value [] (seg2 :: rest) v) as [child'|e];
      [|destruct IH as (_ & l & []%not_elem_of_nil & _)].
    destruct IH as (Hwc' & Hperm & _).
    destruct (bt_insert_fresh seg (JObject child') o) as (o' & -> & Hw' & Hp); [done|done|done|by eapply perm_cons_not_nil|done|].
    split; [done|]. split; [rewrite Hp; unfold entry_leaves; cbn [fst snd]; by rewrite Hperm|].
    intros l Hl. eapply others_no_conflict; [|done].
    intros kn Hkn. eapply bt_get_none_fresh; [by inversion Hw|done|done].
Qed.

(** ** Splitting a path below the root *)

(** A value's key in the document: its folded segments. *)
Definition key (p : ConfigPath) : list bytes := Path.segments (Path.fold p).

Lemma trim_start_render segs :
  segs ≠ [] → Forall Path.Segment segs →
  trim_start_matches "/"%char (Path.render segs) = join "/" segs.
Proof.
  intros Hne Hs. unfold Path.render. simpl.
  destruct segs as [|s segs]; [done|]. apply Forall_cons in Hs as [Hs _].
  pose proof (Path.Segment_no_slash s Hs) as Hslash. destruct Hs as [Hs _].
  destruct s as [|c s]; [done|]. apply not_elem_of_cons in Hslash as [Hc _].
  destruct segs; simpl; by rewrite bool_decide_eq_false_2.
Qed.

Lemma length_render_lower a b :
  List.map to_ascii_lowercase a = List.map to_ascii_lowercase b →
  length (Path.render a) = length (Path.render b).
Proof.
  intros H. rewrite <- (length_to_ascii_lowercase (Path.render a)),
    <- (length_to_ascii_lowercase (Path.render b)), !Path.lower_render. by rewrite H.
Qed.

Lemma json_segments_spec root p :
  Path.Canonical (path root) → Path.Canonical (path p) →
  Path.is_at_or_below p root = true → Path.eq p root = false →
  ∃ segs, json_segments root p = Ok segs ∧ segs ≠ [] ∧ Forall Path.Segment segs
          ∧ key p = key root ++ List.map to_ascii_lowercase segs.
Proof.
  intros Hroot Hp Hbelow Hne. apply not_true_iff_false in Hne. rewrite Path.eq_spec in Hne.
  apply Path.is_at_or_below_spec in Hbelow.
  apply Path.AtOrBelow_segments in Hbelow; [|by apply Path.Canonical_lower..].
  unfold key, Path.fold in *. rewrite !Path.segments_lower in * by done.
  destruct Hroot as (rs & Hrs & Er), Hp as (ps & Hps & Ep).
  rewrite Er, Ep, !Path.segments_render in * by done. destruct Hbelow as [k Hk].
  (* the part of [p] spelling the root, and the rest *)
  assert (List.map to_ascii_lowercase (take (length rs) ps) = List.map to_ascii_lowercase rs) as H1.
  { rewrite <- firstn_map, Hk, take_app_length'; [done|]. by rewrite List.length_map. }
  assert (List.map to_ascii_lowercase (drop (length rs) ps) = k) as H2.
  { rewrite <- skipn_map, Hk, drop_app_length'; [done|]. by rewrite List.length_map. }
  set (ps1 := take (length rs) ps) in *. set (ps2 := drop (length rs) ps) in *.
  assert (ps = ps1 ++ ps2) as Hsplit by (symmetry; apply take_drop).
  assert (ps2 ≠ []) as Hps2.
  { intros E. apply Hne. unfold equiv, Path.path_equiv, Path.fold. rewrite Er, Ep, !Path.lower_render.
    rewrite Hsplit, E, app_nil_r. by rewrite H1. }
  assert (Forall Path.Segment ps1 ∧ Forall Path.Segment ps2) as [Hs1 Hs2]
    by (apply Forall_app; by rewrite <- Hsplit).
  exists ps2. split; [|rewrite H2; auto].
  unfold json_segments, Path.as_str. rewrite Er, Ep. case_bool_decide as Eroot.
  - assert (rs = []) as -> by (destruct rs; [done|by apply Path.render_not_root in Eroot]).
    rewrite trim_start_render; [|by rewrite Hsplit; destruct ps1, ps2|done].
    by rewrite Path.split_relative by (done || by rewrite Hsplit; destruct ps1, ps2).
  - assert (ps1 ≠ []) as Hps1 by (intros E; rewrite E in H1; by destruct rs).
    assert (Path.render ps = Path.render ps1 ++ "/" ++ join "/" ps2) as Hr.
    { rewrite Hsplit. unfold Path.render. rewrite Path.join_app by done. by rewrite <- !app_assoc. }
    rewrite <- (length_render_lower ps1 rs) by done. rewrite Hr.
    rewrite take_app_length, length_app, lookup_app_r, Nat.sub_diag by done.
    rewrite (proj2 (eq_ignore_ascii_case_spec _ _)) by (rewrite !Path.lower_render; by rewrite H1).
    rewrite <- drop_drop, drop_app_length.
    rewrite (proj2 (Nat.ltb_lt _ _)) by (simpl; lia).
    change (drop 1 ("/" ++ join "/" ps2)) with (join "/" ps2).
    by rewrite Path.split_relative by done.
Qed.

(** ** Rendering is exact *)

Definition no_conflict (a b : list bytes) : Prop := ¬ conflict a b.

#[global] Instance no_conflict_sym : Symmetric no_conflict.
Proof. unfold Symmetric, no_conflict, conflict. naive_solver. Qed.

Lemma wf_leaves_no_conflict n : Wf n → ForallOrdPairs no_conflict (List.map fst (leaves n)).
Proof.
  induction n as [s|o IH] using JsonNode_nested_ind; intros Hw.
  { simpl. rewrite FOP_cons_iff. split; constructor. }
  inversion_clear Hw as [|? Hs _ Hw' _]. rewrite leaves_object.
  induction Hs as [|[k n] o Hs IHo Hlt]; [constructor|].
  apply Forall_cons in IH as [IHn IH], Hw' as [Hwn Hw]. simpl flat_map.
  rewrite List.map_app, FOP_app. split; [|split; [by apply IHo|]].
  - unfold entry_leaves. rewrite List.map_map. simpl fst.
    rewrite FOP_map. specialize (IHn Hwn). rewrite FOP_map in IHn.
    eapply FOP_impl; [|exact IHn]. unfold no_conflict. intros x y. by rewrite conflict_cons.
  - intros x y Hx Hy. rewrite list_elem_of_In, in_map_iff in Hx, Hy.
    destruct Hx as (lx & <- & Hx), Hy as (ly & <- & Hy). rewrite <- list_elem_of_In in Hx, Hy.
    rewrite <- leaves_object in Hy.
    apply elem_of_entry_leaves in Hx as (lx' & _ & ->).
    apply elem_of_leaves_object in Hy as (kn & ly' & Hkn & _ & ->). simpl.
    rewrite Forall_forall in Hlt. apply conflict_cons_ne.
    apply (key_lt_fold_ne (k, n)), Hlt, Hkn.
Qed.

Definition item (v : SubTreeValue) : list bytes * bytes :=
  (key (stv_path v), display_text (stv_value v)).

Definition doc_items (root : ConfigPath) (n : JsonNode) : list (list bytes * bytes) :=
  List.map (λ l, (key root ++ fst l, snd l)) (leaves n).

Definition in_range (root : ConfigPath) (v : SubTreeValue) : Prop :=
  path (stv_path v) ≠ "/" ∧ Path.is_at_or_below (stv_path v) root = true.

(** What a JSON document can represent: values of the selection, none of which
    lies at or above another. *)
Definition Representable (root : ConfigPath) (values : list SubTreeValue) : Prop :=
  Forall (in_range root) values
  ∧ ForallOrdPairs no_conflict (List.map (λ v, key (stv_path v)) values).

Definition state_items (root : ConfigPath) (st : JsonObject * option bytes) :=
  match snd st with Some t => [(key root, t)] | None => [] end
  ++ doc_items root (JObject (fst st)).

(** The loop state after the values [seen]. *)
Definition Represents (root : ConfigPath) (st : JsonObject * option bytes)
  (seen : list SubTreeValue) : Prop :=
  Wf (JObject (fst st)) ∧ state_items root st ≡ₚ List.map item seen.

Lemma in_range_spec root v :
  (bool_decide (Path.as_str (stv_path v) = "/")
   || negb (Path.is_at_or_below (stv_path v) root)) = false ↔ in_range root v.
Proof.
  unfold in_range, Path.as_str. rewrite orb_false_iff, bool_decide_eq_false, negb_false_iff. done.
Qed.

Lemma render_step_spec root st v seen :
  Path.Canonical (path root) → Path.Canonical (path (stv_path v)) → Represents root st seen →
  match render_step root st v with
  | Ok st' => in_range root v ∧ Represents root st' (v :: seen)
  | Err e => e = invalid_subtree
             ∧ (¬ in_range root v ∨ ∃ u, u ∈ seen ∧ conflict (key (stv_path u)) (key (stv_path v)))
  end.
Proof.
  intros Hroot Hv [Hw Hperm]. destruct st as [o ex]. unfold render_step.
  assert (∀ k t, (k, t) ∈ state_items root (o, ex) → conflict k (key (stv_path v)) →
            ∃ u, u ∈ seen ∧ conflict (key (stv_path u)) (key (stv_path v))) as Hsee.
  { intros k t Hin Hc. rewrite Hperm, list_elem_of_In, in_map_iff in Hin.
    destruct Hin as (u & [= <- <-] & Hu). exists u. by rewrite list_elem_of_In. }
  destruct (_ || _) eqn:Hr.
  { split; [done|]. left. rewrite <- in_range_spec. congruence. }
  apply in_range_spec in Hr.
  destruct (Path.eq (stv_path v) root) eqn:Heq.
  - apply Path.eq_spec in Heq. assert (key (stv_path v) = key root) as Hkey
      by (unfold key; by rewrite Heq).
    destruct ex as [t|].
    + split; [done|]. right. apply (Hsee (key root) t); [by left|]. rewrite Hkey. by left.
    + split; [done|]. split; [done|]. unfold state_items, item in *. simpl in *.
      by rewrite Hkey, Hperm.
  - destruct (json_segments_spec root (stv_path v)) as (segs & -> & Hne & Hsegs & Hkey);
      [done|done|apply Hr|done|].
    pose proof (insert_json_value_spec segs o (display_text (stv_value v)) Hw Hne Hsegs) as Hins.
    destruct (insert_json_value o segs _) as [o'|e].
    + destruct Hins as (Hw' & Hp' & _). split; [done|]. split; [done|].
      unfold state_items, doc_items, item in *. simpl fst in *. simpl snd in *.
      rewrite Hp'. cbn [List.map fst snd]. rewrite <- Hkey.
      rewrite <- Permutation_middle. by rewrite Hperm.
    + destruct Hins as (-> & l & Hl & Hc). split; [done|]. right.
      apply (Hsee (key root ++ fst l) (snd l)).
      * unfold state_items, doc_items. simpl fst. apply elem_of_app. right.
        rewrite list_elem_of_In, in_map_iff. exists l. by rewrite <- list_elem_of_In.
      * rewrite Hkey. destruct Hc; [left|right]; by apply prefix_app.
Qed.

Lemma render_loop_spec root values : ∀ st seen,
  Path.Canonical (path root) →
  Forall (λ v, Path.Canonical (path (stv_path v))) values →
  Represents root st seen →
  match fold_result (render_step root) st values with
  | Ok st' => Forall (in_range root) values ∧ Represents root st' (rev values ++ seen)
  | Err e => e = invalid_subtree ∧
             ¬ (Forall (in_range root) values
                ∧ ForallOrdPairs no_conflict
                    (List.map (λ v, key (stv_path v)) (rev values ++ seen)))
  end.
Proof.
  induction values as [|v values IH]; intros st seen Hroot Hc Hrep; [done|].
  apply Forall_cons in Hc as [Hv Hc]. simpl.
  pose proof (render_step_spec root st v seen Hroot Hv Hrep) as Hstep.
  destruct (render_step root st v) as [st'|e].
  - destruct Hstep as [Hr Hrep']. specialize (IH st' (v :: seen) Hroot Hc Hrep').
    rewrite <- app_assoc. simpl.
    destruct (fold_result _ st' values) as [st''|e].
    + destruct IH as [IH1 IH2]. split; [by constructor|done].
    + destruct IH as [-> IH]. split; [done|]. intros [[_ ?]%Forall_cons ?]. by apply IH.
  - destruct Hstep as [-> H]. split; [done|]. intros [[Hr _]%Forall_cons Hfop].
    destruct H as [H|(u & Hu & Hcf)]; [done|].
    rewrite <- app_assoc, List.map_app, FOP_app in Hfop. destruct Hfop as (_ & Hfop & _).
    simpl in Hfop. apply FOP_cons_iff in Hfop as [Hfop _].
    rewrite Forall_map_iff, Forall_forall in Hfop. apply (Hfop _ Hu). symmetry. exact Hcf.
Qed.

Lemma wf_object_leaves_nil o : Wf (JObject o) → leaves (JObject o) = [] → o = [].
Proof.
  intros Hw Hl. destruct o as [|kn o]; [done|].
  destruct (wf_object_elem _ kn Hw) as (_ & _ & Hne); [by left|].
  rewrite leaves_object in Hl. simpl in Hl. apply app_eq_nil in Hl as [Hl _].
  unfold entry_leaves in Hl. by apply map_eq_nil in Hl.
Qed.

Lemma no_conflict_prefix root l :
  ForallOrdPairs no_conflict (List.map fst (List.map (λ l, (key root ++ fst l, snd l)) l))
  ↔ ForallOrdPairs no_conflict (List.map (@fst _ bytes) l).
Proof.
  rewrite List.map_map, !FOP_map. simpl.
  split; apply FOP_impl; unfold no_conflict, conflict; intros x y H [Hc|Hc]; apply H.
  - left. by apply prefix_app.
  - right. by apply prefix_app.
  - left. by apply prefix_app_inv in Hc.
  - right. by apply prefix_app_inv in Hc.
Qed.

(** Rendering succeeds exactly on the representable selections, with the
    documented error otherwise, and the document it builds holds exactly the
    selected values: every displayed value at its folded path, once, with keys
    in fold order. *)
Theorem render_is_exact (root : ConfigPath) (values : list SubTreeValue) :
  Path.Canonical (path root) →
  Forall (λ v, Path.Canonical (path (stv_path v))) values →
  match render_node root values with
  | Ok node => Representable root values ∧ Wf node
               ∧ doc_items root node ≡ₚ List.map item values
               ∧ (path root = "/" → ∃ o, node = JObject o)
  | Err e => e = invalid_subtree ∧ ¬ Representable root values
  end.
Proof.
  intros Hroot Hc. unfold render_node.
  assert (Represents root ([], None) []) as Hrep by (split; [constructor; constructor|done]).
  pose proof (render_loop_spec root values ([], None) [] Hroot Hc Hrep) as Hloop.
  rewrite app_nil_r in Hloop.
  assert (List.map (λ v, key (stv_path v)) (rev values) ≡ₚ List.map (λ v, key (stv_path v)) values)
    as Hrev by (by rewrite <- Permutation_rev).
  destruct (fold_result _ _ values) as [[o ex]|e].
  2: { destruct Hloop as [-> H]. split; [done|]. intros [H1 H2]. apply H. split; [done|].
       by apply (FOP_perm _ _ _ (symmetry Hrev)). }
  destruct Hloop as (Hin & Hw & Hperm). simpl in Hw.
  rewrite <- Permutation_rev in Hperm.
  assert (∀ n, doc_items root n ≡ₚ List.map item values →
            Wf n → ForallOrdPairs no_conflict (List.map (λ v, key (stv_path v)) values)) as Hfop.
  { intros n Hp Hn. apply (FOP_perm _ (List.map fst (doc_items root n))).
    - rewrite Hp, List.map_map. done.
    - apply no_conflict_prefix, wf_leaves_no_conflict, Hn. }
  destruct ex as [t|].
  - destruct (is_empty o) eqn:Eo.
    + assert (o = []) as -> by (by destruct o).
      assert (doc_items root (JString t) ≡ₚ List.map item values) as Hp
        by (unfold doc_items; simpl; by rewrite app_nil_r).
      split; [split; [done|by eapply Hfop; [exact Hp|constructor]]|].
      split; [constructor|]. split; [done|]. intros Eroot.
      (* the root value would have had the path [/], which is out of range *)
      assert (([], t) ∈ List.map item values) as Hel.
      { rewrite <- Hp. unfold doc_items, key, Path.fold. rewrite Eroot. by left. }
      rewrite list_elem_of_In, in_map_iff in Hel. destruct Hel as (v & [= Hk _] & Hv).
      rewrite <- list_elem_of_In in Hv. rewrite Forall_forall in Hin, Hc.
      destruct (Hin _ Hv) as [Hne _]. destruct (Hc _ Hv) as (segs & Hs & Ep).
      exfalso. apply Hne. rewrite Ep. unfold key, Path.fold in Hk.
      rewrite Path.segments_lower, Ep, Path.segments_render in Hk by (by exists segs || done).
      by apply map_eq_nil in Hk as ->.
    + split; [done|]. intros [_ H].
      destruct (leaves (JObject o)) as [|l ls] eqn:El.
      { apply wf_object_leaves_nil in El as ->; done. }
      apply (FOP_perm _ _ (List.map fst (state_items root (o, Some t)))) in H;
        [|by rewrite Hperm, List.map_map].
      unfold state_items, doc_items in H. simpl fst in H. rewrite El in H. simpl in H.
      apply FOP_cons_iff in H as [[H _]%Forall_cons _]. apply H. left. by eexists.
  - split; [split; [done|by apply (Hfop (JObject o))]|]. split; [done|]. split; [done|eauto].
Qed.

(** ** The round trip *)

Fixpoint raw_of (n : JsonNode) : RawJson :=
  match n with
  | JString s => RString s
  | JObject o =>
      RObject ((fix go (o : JsonObject) :=
                  match o with [] => [] | (k, c) :: o' => (k, raw_of c) :: go o' end) o)
  end.

Definition visit_map := fix visit_map (object : JsonObject) (entries : list (bytes * RawJson)) :=
  match entries with
  | [] => Some (JObject object)
  | (key, value) :: rest =>
      match deserialize value with
      | None => None
      | Some node =>
          match bt_insert key node object with
          | (Some _, _) => None
          | (None, object') => visit_map object' rest
          end
      end
  end.

Lemma bt_insert_last k n o :
  Forall (λ e, key_lt e (k, n)) o → bt_insert k n o = (None, o ++ [(k, n)]).
Proof.
  induction 1 as [|[k' n'] o Hlt _ IH]; [done|]. simpl.
  unfold key_lt in Hlt. apply key_cmp_gt in Hlt. simpl in Hlt. by rewrite Hlt, IH.
Qed.

(** The visitor rebuilds a written document. *)
Lemma deserialize_raw n : Wf n → deserialize (raw_of n) = Some n.
Proof.
  induction n as [s|o IH] using JsonNode_nested_ind; intros Hw; [done|].
  inversion_clear Hw as [|? Hs _ Hw' _].
  assert (∀ done, StronglySorted key_lt (done ++ o) →
            visit_map done (match raw_of (JObject o) with RObject es => es | _ => [] end)
            = Some (JObject (done ++ o))) as Hgo; [|by apply (Hgo [])].
  clear Hs. induction o as [|[k c] o IHo]; intros done Hs; [by rewrite app_nil_r|].
  apply Forall_cons in IH as [IHc IH], Hw' as [Hc Hw]. simpl in *.
  rewrite IHc by done. rewrite bt_insert_last.
  - rewrite (IHo IH Hw (done ++ [(k, c)])); by rewrite <- app_assoc.
  - apply StronglySorted_app in Hs as (Hall & _ & _). apply Forall_forall. intros e He.
    apply Hall; [done|by left].
Qed.

Lemma flatten_spec n : ∀ p,
  Wf n → Path.Canonical (path p) → Forall (λ l, NUL ∉ snd l) (leaves n) →
  ∃ muts, flatten_json_node p n = Ok muts
          ∧ List.map (λ m, (key (stm_path m), stm_value m)) muts
            = List.map (λ l, (key p ++ fst l, mutation_content (snd l))) (leaves n).
Proof.
  induction n as [s|o IH] using JsonNode_nested_ind; intros p Hw Hp Hnul.
  - simpl in *. apply Forall_cons in Hnul as [Hnul _]. simpl in Hnul.
    unfold contains_byte. rewrite bool_decide_eq_false_2 by done.
    eexists. split; [done|]. simpl. by rewrite app_nil_r.
  - inversion_clear Hw as [|? _ Hk Hw' _]. rewrite leaves_object in *.
    induction o as [|[k c] o IHo]; [by exists []|].
    apply Forall_cons in IH as [IHc IH], Hk as [Hk Hks], Hw' as [Hc Hw]. cbn [fst snd] in *.
    cbn [flat_map] in *. apply Forall_app in Hnul as [Hn1 Hn2].
    destruct (IHo IH Hn2 Hks Hw) as (there & Hthere & Hmap).
    destruct Hp as (segs & Hsegs & Ep). simpl flatten_json_node.
    rewrite (Path.join_name_render p k segs) by done.
    set (q := mkPath (Path.render (segs ++ [k]))).
    assert (Forall Path.Segment (segs ++ [k])) as Hsegs' by (apply Forall_app; auto).
    assert (key q = key p ++ [to_ascii_lowercase k]) as Hkey.
    { unfold key, Path.fold. rewrite Ep. simpl path.
      rewrite !Path.segments_lower by auto with sovereign. rewrite !Path.segments_render by done. by rewrite List.map_app. }
    destruct (IHc q Hc) as (here & -> & Hhere); [by exists (segs ++ [k])| |].
    { unfold entry_leaves in Hn1. rewrite Forall_map_iff in Hn1. done. }
    simpl in Hthere. rewrite Hthere. eexists. split; [done|].
    rewrite !List.map_app, Hmap, Hhere, Hkey. f_equal. unfold entry_leaves. rewrite List.map_map.
    apply List.map_ext. intros l. simpl. by rewrite <- app_assoc.
Qed.

Section round_trip.
Context (to_string_pretty : JsonNode → option bytes) (from_str : bytes → option RawJson).

(** Parsing a rendered subtree gives back one mutation per value, at the
    same path up to letter case and with the same text, a masked secret
    becoming the marker that preserves it; provided [serde_json] reads back
    what it wrote and no displayed value holds a NUL. *)
Theorem json_round_trip (root : ConfigPath) (values : list SubTreeValue) (text : bytes) :
  (∀ n json, to_string_pretty n = Some json → from_str (json ++ [newline]) = Some (raw_of n)) →
  Path.Canonical (path root) →
  Forall (λ v, Path.Canonical (path (stv_path v)) ∧ NUL ∉ display_text (stv_value v)) values →
  render_subtree_json to_string_pretty root values = Ok text →
  ∃ muts, parse_subtree_json from_str root text = Ok muts
    ∧ List.map (λ m, (key (stm_path m), stm_value m)) muts
      ≡ₚ List.map (λ v, (key (stv_path v), mutation_content (display_text (stv_value v)))) values.
Proof.
  intros Hserde Hroot Hvals. apply Forall_and in Hvals as [Hc Hnul].
  unfold render_subtree_json. pose proof (render_is_exact root values Hroot Hc) as Hrender.
  destruct (render_node root values) as [node|e]; [|done].
  destruct (to_string_pretty node) as [json|] eqn:Ejson; [|done]. intros [= <-].
  destruct Hrender as (_ & Hw & Hperm & Hobj).
  unfold parse_subtree_json. rewrite (Hserde _ _ Ejson), deserialize_raw by done.
  assert (Forall (λ l, NUL ∉ snd l) (leaves node)) as Hn.
  { assert (Forall (λ l, NUL ∉ snd l) (doc_items root node)) as H.
    - rewrite Hperm, Forall_map_iff. done.
    - unfold doc_items in H. by rewrite Forall_map_iff in H. }
  destruct (flatten_spec node root Hw Hroot Hn) as (muts & Hflat & Hmap).
  exists muts. split.
  - case_bool_decide as E; [|done]. destruct (Hobj E) as [o ->]. done.
  - rewrite Hmap. unfold doc_items in Hperm.
    apply (Permutation_map (λ l, (fst l, mutation_content (snd l)))) in Hperm.
    rewrite !List.map_map in Hperm. exact Hperm.
Qed.
End round_trip.

(** A writer of one-entry documents without line feeds, for the witness. *)
Definition toy_to_string (n : JsonNode) : option bytes :=
  match n with
  | JObject [(k, JString s)] =>
      if contains_byte newline k || contains_byte newline s then None
      else Some (k ++ newline :: s)
  | _ => None
  end.
Definition toy_from_str (text : bytes) : option RawJson :=
  match split newline text with
  | [k; s; _] => Some (RObject [(k, RString s)])
  | _ => None
  end.

Lemma toy_reads_back n json :
  toy_to_string n = Some json → toy_from_str (json ++ [newline]) = Some (raw_of n).
Proof.
  unfold toy_to_string. intros H. repeat destruct_match_in H.
  unfold contains_byte in *. bool_prop. unfold toy_from_str.
  rewrite <- app_assoc. simpl app. rewrite split_app by done.
  change (newline :: s ++ [newline]) with (newline :: (s ++ [newline])).
  rewrite (split_app newline s []) by done. done.
Qed.

Lemma json_round_trip_witness :
  ∃ muts, parse_subtree_json toy_from_str (mkPath "/apps") ("Db" ++ newline :: "x" ++ [newline]) = Ok muts
    ∧ List.map (λ m, (key (stm_path m), stm_value m)) muts
      ≡ₚ [(["apps"; "db"], MutPlain (mkPlainValue "x"))].
Proof.
  apply (json_round_trip toy_to_string toy_from_str (mkPath "/apps")
           [mkSubTreeValue (mkPath "/Apps/Db") (ContentPlain (mkPlainValue "x"))]).
  - apply toy_reads_back.
  - apply Path.canonical_check. reflexivity.
  - repeat constructor; [apply Path.canonical_check; reflexivity|].
    apply (bool_decide_unpack _). vm_compute. exact I.
  - reflexivity.
Defined.

Lemma render_is_exact_witness :
  match render_node (mkPath "/apps") Plain.witness_values with
  | Ok node => Representable (mkPath "/apps") Plain.witness_values ∧ Wf node
               ∧ doc_items (mkPath "/apps") node ≡ₚ List.map item Plain.witness_values
               ∧ (path (mkPath "/apps") = "/" → ∃ o, node = JObject o)
  | Err e => e = invalid_subtree ∧ ¬ Representable (mkPath "/apps") Plain.witness_values
  end.
Proof.
  apply (render_is_exact (mkPath "/apps") Plain.witness_values).
  - apply Path.canonical_check. reflexivity.
  - repeat constructor; apply Path.canonical_check; reflexivity.
Defined.

End Json.
