(* ===== verification/Managed.v ===== *)
(** * Managed connection vocabulary

    Models [crates/sovereign-config-core/src/managed.rs]: the bounded
    identifiers, the lifecycle states and the permission sets of a managed
    connection, with the storage and wire forms the server and its database
    constraints agree on. *)

From S2P Require Import Prelude Bytes ConfigPath Core.

Local Open Scope bytes_scope.

Module Managed.

Definition MAX_CONNECTION_ID_CHARS : nat := 64.
Definition MIN_CONNECTION_ID_CHARS : nat := 16.
Definition MAX_DISPLAY_NAME_CHARS : nat := 100.

Definition invalid_connection : ClientError :=
  mkClientError InvalidRequest "managed connection is invalid".
Definition invalid_permissions : ClientError :=
  mkClientError InvalidRequest "managed connection permissions are invalid".

(** ** Identifiers *)

Record ConnectionId := mkConnectionId { id_str : bytes }.

Definition connection_id_parse (value : bytes) : result ConnectionId ClientError :=
  if (MIN_CONNECTION_ID_CHARS <=? length value)%nat && (length value <=? MAX_CONNECTION_ID_CHARS)%nat
     && forallb (λ c, is_ascii_lowercase c || is_ascii_digit c) value
  then Ok (mkConnectionId value)
  else Err invalid_connection.

Record DisplayName := mkDisplayName { name_str : bytes }.

Definition display_name_parse (value : bytes) : result DisplayName ClientError :=
  if negb (is_empty value) && bool_decide (trim value = value)
     && (length (chars value) <=? MAX_DISPLAY_NAME_CHARS)%nat
     && negb (existsb char_is_control (chars value))
  then Ok (mkDisplayName value)
  else Err invalid_connection.

(** ** Lifecycle states *)

Inductive ManagedConnectionState :=
| Provisioning | Active | RotationUnknown | Revoking | CleanupRequired.
#[global] Instance ManagedConnectionState_eq_dec : EqDecision ManagedConnectionState.
Proof. solve_decision. Defined.

Definition state_as_str (s : ManagedConnectionState) : bytes :=
  match s with
  | Provisioning => "provisioning"
  | Active => "active"
  | RotationUnknown => "rotation_unknown"
  | Revoking => "revoking"
  | CleanupRequired => "cleanup_required"
  end.

Definition state_parse (value : bytes) : result ManagedConnectionState ClientError :=
  if bool_decide (value = "provisioning") then Ok Provisioning
  else if bool_decide (value = "active") then Ok Active
  else if bool_decide (value = "rotation_unknown") then Ok RotationUnknown
  else if bool_decide (value = "revoking") then Ok Revoking
  else if bool_decide (value = "cleanup_required") then Ok CleanupRequired
  else Err invalid_connection.

(** ** Permissions *)

Inductive ManagedPermission := Read | Write | Manage.
#[global] Instance ManagedPermission_eq_dec : EqDecision ManagedPermission.
Proof. solve_decision. Defined.
#[global] Instance ManagedPermission_countable : Countable ManagedPermission.
Proof.
  refine {| encode p := match p with Read => 1 | Write => 2 | Manage => 3 end%positive;
            decode n := match n with 1 => Some Read | 2 => Some Write | 3 => Some Manage
                        | _ => None end%positive |}; by intros [].
Defined.

Definition as_grant_token (p : ManagedPermission) : bytes :=
  match p with Read => "read" | Write => "write" | Manage => "manage" end.

Definition as_proto (p : ManagedPermission) : Z :=
  match p with Read => 1 | Write => 2 | Manage => 3 end.

Definition permission_from_proto (value : Z) : result ManagedPermission ClientError :=
  if (value =? 1)%Z then Ok Read
  else if (value =? 2)%Z then Ok Write
  else if (value =? 3)%Z then Ok Manage
  else Err invalid_permissions.

Definition permission_parse (value : bytes) : result ManagedPermission ClientError :=
  if bool_decide (value = "read") then Ok Read
  else if bool_decide (value = "write") then Ok Write
  else if bool_decide (value = "manage") then Ok Manage
  else Err invalid_permissions.

(** A [BTreeSet<ManagedPermission>]; iteration follows the declared order. *)
Record ManagedPermissions := mkManagedPermissions { permission_set : gset ManagedPermission }.

Definition declared_order : list ManagedPermission := [Read; Write; Manage].

Definition iter (s : ManagedPermissions) : list ManagedPermission :=
  List.filter (λ p, bool_decide (p ∈ permission_set s)) declared_order.

Definition new (permissions : list ManagedPermission) : result ManagedPermissions ClientError :=
  let set : gset ManagedPermission := list_to_set permissions in
  if bool_decide (set = ∅) then Err invalid_permissions else Ok (mkManagedPermissions set).

(** The loops of [from_proto] and [parse] collect a set, then build it. *)
Definition from_proto (values : list Z) : result ManagedPermissions ClientError :=
  match map_result permission_from_proto values with
  | Err e => Err e
  | Ok set => new set
  end.

Definition parse (value : bytes) : result ManagedPermissions ClientError :=
  match map_result permission_parse (split ","%char value) with
  | Err e => Err e
  | Ok set => new set
  end.

Definition to_proto (s : ManagedPermissions) : list Z := List.map as_proto (iter s).
Definition grant_tokens (s : ManagedPermissions) : list bytes := List.map as_grant_token (iter s).
Definition as_storage (s : ManagedPermissions) : bytes := join "," (grant_tokens s).
Definition contains (s : ManagedPermissions) (p : ManagedPermission) : bool :=
  bool_decide (p ∈ permission_set s).

(** The values the [managed_connections.permissions] constraint of migration
    0006 admits. *)
Definition storage_check : list bytes :=
  ["read"; "write"; "manage"; "read,write"; "read,manage"; "write,manage"; "read,write,manage"].

(** ** Lemmas *)

Lemma elem_of_iter s p : p ∈ iter s ↔ p ∈ permission_set s.
Proof.
  unfold iter. rewrite list_elem_of_In, List.filter_In, <- list_elem_of_In, bool_decide_eq_true.
  split; [naive_solver|]. intros. split; [destruct p; set_solver|done].
Qed.

Lemma new_iter s : permission_set s ≠ ∅ → new (iter s) = Ok s.
Proof.
  intros Hne. unfold new.
  assert ((list_to_set (iter s) : gset ManagedPermission) = permission_set s) as ->.
  { apply set_eq. intros p. by rewrite elem_of_list_to_set, elem_of_iter. }
  rewrite bool_decide_eq_false_2 by done. by destruct s.
Qed.

Lemma map_result_map {A B E} (f : A → B) (g : B → result A E) l :
  (∀ x, g (f x) = Ok x) → map_result g (List.map f l) = Ok l.
Proof. intros H. induction l as [|x l IH]; simpl; [done|]. by rewrite H, IH. Qed.

Lemma permission_token_round_trip p : permission_parse (as_grant_token p) = Ok p.
Proof. by destruct p. Qed.
Lemma permission_proto_round_trip p : permission_from_proto (as_proto p) = Ok p.
Proof. by destruct p. Qed.

Lemma grant_token_comma_free p : ","%char ∉ as_grant_token p.
Proof. destruct p; apply (bool_decide_unpack _); vm_compute; exact I. Qed.

Lemma iter_ne s : permission_set s ≠ ∅ → iter s ≠ [].
Proof.
  intros Hne Hi. apply Hne, set_eq. intros p. rewrite <- elem_of_iter, Hi. set_solver.
Qed.

(** A set is determined by which of the three permissions it holds. *)
Lemma iter_cases s : permission_set s ≠ ∅ →
  iter s ∈ [[Read]; [Write]; [Manage]; [Read; Write]; [Read; Manage]; [Write; Manage];
            [Read; Write; Manage]].
Proof.
  intros Hne%iter_ne. unfold iter in *. simpl in *.
  repeat case_bool_decide; simpl in *; try done; set_solver.
Qed.

(** A permission set survives both of its external forms: the canonical
    storage text and the protocol tags both parse back to the same set, and
    the storage text is always one the database constraint admits. *)
Theorem permission_forms_round_trip (s : ManagedPermissions) :
  permission_set s ≠ ∅ →
  parse (as_storage s) = Ok s
  ∧ from_proto (to_proto s) = Ok s
  ∧ as_storage s ∈ storage_check.
Proof.
  intros Hne. split; [|split].
  - unfold parse, as_storage, grant_tokens.
    rewrite (split_join ","%char).
    + rewrite map_result_map by apply permission_token_round_trip. by apply new_iter.
    + intros E%map_eq_nil. by apply iter_ne in E.
    + apply Forall_map_iff, Forall_forall. intros p _. apply grant_token_comma_free.
  - unfold from_proto, to_proto. rewrite map_result_map by apply permission_proto_round_trip.
    by apply new_iter.
  - pose proof (iter_cases s Hne) as Hc. unfold as_storage, grant_tokens, storage_check.
    repeat (apply elem_of_cons in Hc as [->|Hc]; [set_solver|]). by apply not_elem_of_nil in Hc.
Qed.

Definition read_manage : ManagedPermissions := mkManagedPermissions {[Read; Manage]}.

Lemma permission_forms_round_trip_witness :
  parse (as_storage read_manage) = Ok read_manage
  ∧ from_proto (to_proto read_manage) = Ok read_manage
  ∧ as_storage read_manage ∈ storage_check.
Proof. apply (permission_forms_round_trip read_manage). done. Defined.

(** Parsing accepts any order and repetition of the three tokens, never an
    empty set. *)
Lemma new_contains l s p : new l = Ok s → (contains s p = true ↔ p ∈ l).
Proof.
  unfold new, contains. intros H. repeat destruct_match_in H. simpl.
  by rewrite bool_decide_eq_true, elem_of_list_to_set.
Qed.

(** Lifecycle states and connection identifiers have exact textual forms:
    every state parses from its own label and nothing else does, and an
    identifier is accepted exactly when it is 16 to 64 lowercase letters or
    digits. *)
Theorem state_and_identifier_forms (st : ManagedConnectionState) (value : bytes) :
  (state_parse value = Ok st ↔ value = state_as_str st)
  ∧ (is_ok (connection_id_parse value) = true ↔
     16 ≤ length value ≤ 64
     ∧ Forall (λ c, is_ascii_lowercase c = true ∨ is_ascii_digit c = true) value).
Proof.
  split.
  - split; [|intros ->; by destruct st].
    unfold state_parse. intros H. repeat destruct_match_in H; bool_prop; by subst.
  - unfold connection_id_parse, MIN_CONNECTION_ID_CHARS, MAX_CONNECTION_ID_CHARS.
    assert (Forall (λ c, is_ascii_lowercase c = true ∨ is_ascii_digit c = true) value
            ↔ forallb (λ c, is_ascii_lowercase c || is_ascii_digit c) value = true) as ->.
    { rewrite forallb_Forall. apply Forall_iff. intros c. by rewrite orb_true_iff. }
    destruct (_ && _) eqn:E; simpl; [bool_prop|].
    + split; [intros _|done]. split; [|done].
      split; apply Nat.leb_le; done.
    + split; [done|]. intros [[H1 H2] H3]. apply Nat.leb_le in H1, H2.
      by rewrite H1, H2, H3 in E.
Qed.

End Managed.
