(* ===== verification/Auth.v ===== *)
(** * Principals and grants

    Models the authorization half of
    [crates/sovereign-config-server/src/auth.rs]: the principal a verified
    token yields, the grants it carries, and the check every operation makes.
    The token's claims are [serde_json] values; deserializing the grants claim
    into typed grants is [serde]'s derived code and a parameter. *)

From Stdlib Require Import SpecFloat.
From S2P Require Import Prelude Bytes ConfigPath.

Local Open Scope bytes_scope.

Inductive Permission := Read | Write | Manage.
#[global] Instance Permission_eq_dec : EqDecision Permission.
Proof. solve_decision. Defined.
#[global] Instance Permission_countable : Countable Permission.
Proof.
  refine {| encode p := match p with Read => 1 | Write => 2 | Manage => 3 end%positive;
            decode n := match n with 1 => Some Read | 2 => Some Write | 3 => Some Manage
                        | _ => None end%positive |}; by intros [].
Defined.

Record Grant := mkGrant { prefix : bytes; permissions : gset Permission }.

Record AuthenticatedPrincipal := mkPrincipal {
  subject : bytes; principal_name : option bytes; grants : list Grant }.

Module Auth.

(** [AuthenticatedPrincipal::allows] *)
Definition grant_covers (g : Grant) (fold : bytes) (permission : Permission) : bool :=
  bool_decide (permission ∈ permissions g)
  && (bool_decide (prefix g = "/") || bool_decide (fold = prefix g)
      || match strip_prefix (prefix g) fold with
         | Some suffix => starts_with suffix "/"
         | None => false
         end).

Definition allows (self : AuthenticatedPrincipal) (p : ConfigPath) (permission : Permission) : bool :=
  existsb (λ grant, grant_covers grant (Path.fold p) permission) (grants self).

(** ** Building grants from claims *)

Inductive AuthenticationResult :=
| AuthSuccess | MissingBearer | MalformedBearer | WrongAlgorithm | AuthBadSignature | Inactive
| InvalidClaims | AuthUnavailable.
#[global] Instance AuthenticationResult_eq_dec : EqDecision AuthenticationResult.
Proof. solve_decision. Defined.

Record RawGrant := mkRawGrant { raw_prefix : bytes; raw_permissions : list Permission }.

Definition canonical_prefix (prefix : bytes) : option bytes :=
  match Path.parse_selection prefix with Ok p => Some (Path.fold p) | Err _ => None end.

(** [BTreeMap::entry(prefix).or_default().extend(permissions)], in key order. *)
Fixpoint extend_entry (prefix : bytes) (perms : list Permission)
  (m : list (bytes * gset Permission)) : list (bytes * gset Permission) :=
  match m with
  | [] => [(prefix, list_to_set perms)]
  | (k, s) :: m' =>
      match cmp_bytes prefix k with
      | Lt => (prefix, list_to_set perms) :: m
      | Eq => (k, s ∪ list_to_set perms) :: m'
      | Gt => (k, s) :: extend_entry prefix perms m'
      end
  end.

Definition grant_step (m : list (bytes * gset Permission)) (raw : RawGrant)
  : result (list (bytes * gset Permission)) AuthenticationResult :=
  match canonical_prefix (raw_prefix raw) with
  | None => Err InvalidClaims
  | Some prefix =>
      if is_empty (raw_permissions raw) then Err InvalidClaims
      else Ok (extend_entry prefix (raw_permissions raw) m)
  end.

Definition validate_grants (raw_grants : list RawGrant) : result (list Grant) AuthenticationResult :=
  match fold_result grant_step [] raw_grants with
  | Err e => Err e
  | Ok m => Ok (List.map (λ e, mkGrant (fst e) (snd e)) m)
  end.

(** ** Claims *)

(** [serde_json::Value], as far as the claim rules look at it. *)
Inductive Value :=
| VString (s : bytes)
| VArray (l : list Value)
| VNumber (x : spec_float)
| VOther.

Definition as_str (v : Value) : option bytes := match v with VString s => Some s | _ => None end.
Definition is_string (v : Value) : bool := match v with VString _ => true | _ => false end.
Definition as_array (v : Value) : option (list Value) :=
  match v with VArray l => Some l | _ => None end.
(** A JSON number as the nearest [f64]. *)
Definition as_f64 (v : Value) : option spec_float :=
  match v with VNumber x => Some x | _ => None end.

Record TokenClaims := mkClaims {
  iss : option Value; aud : option Value; sub : option Value; scope : option Value;
  exp : option Value; nbf : option Value; iat : option Value;
  sovereign_config_grants : option Value;
  preferred_username : option Value; username : option Value }.

Record AcceptedIdentity := mkIdentity { issuer : bytes; audience : bytes }.

Definition REQUIRED_SCOPE : bytes := "sovereign-config".
Definition MAX_DISPLAY_NAME_CHARACTERS : nat := 128.

Definition audience_contains (v : Value) (expected : bytes) : bool :=
  bool_decide (as_str v = Some expected)
  || match as_array v with
     | Some audiences =>
         forallb is_string audiences
         && existsb (λ a, bool_decide (as_str a = Some expected)) audiences
     | None => false
     end.

Definition clean_name (claim : bytes) : bytes :=
  trim (collect (take MAX_DISPLAY_NAME_CHARACTERS
                   (List.filter (λ c, negb (char_is_control c)) (chars claim)))).

Definition display_name (preferred_username username : option Value) : option bytes :=
  let claims := match preferred_username with Some v => [v] | None => [] end
                ++ match username with Some v => [v] | None => [] end in
  let strings := flat_map (λ v, match as_str v with Some s => [s] | None => [] end) claims in
  List.find (λ name, negb (is_empty name)) (List.map clean_name strings).

Section claims.
(** [serde_json::from_value::<Vec<RawGrant>>] *)
Context (grants_from_value : Value → option (list RawGrant)).

Definition validate_claims (claims : TokenClaims) (accepted_identities : list AcceptedIdentity)
  : result AuthenticatedPrincipal AuthenticationResult :=
  let claim_str (c : option Value) := match c with Some v => as_str v | None => None end in
  let valid_identity :=
    existsb (λ identity,
      bool_decide (claim_str (iss claims) = Some (issuer identity))
      && match aud claims with
         | Some v => audience_contains v (audience identity)
         | None => false
         end) accepted_identities in
  let valid_scope :=
    match claim_str (scope claims) with
    | Some scopes => existsb (λ s, bool_decide (s = REQUIRED_SCOPE)) (split_ascii_whitespace scopes)
    | None => false
    end in
  match claim_str (sub claims) with
  | Some subject =>
      if valid_identity && valid_scope && negb (is_empty subject) then
        match sovereign_config_grants claims with
        | None => Err InvalidClaims
        | Some v =>
            match grants_from_value v with
            | None => Err InvalidClaims
            | Some raw_grants =>
                match validate_grants raw_grants with
                | Err e => Err e
                | Ok grants =>
                    Ok (mkPrincipal subject
                          (display_name (preferred_username claims) (username claims)) grants)
                end
            end
        end
      else Err InvalidClaims
  | None => Err InvalidClaims
  end.
End claims.

(** [bearer_token], on the values of the [authorization] headers.
    [HeaderValue::to_str] admits visible ASCII and tab only. *)
Definition header_to_str (value : bytes) : option bytes :=
  if forallb (λ c, ((32 <=? code c) && (code c <? 127))%Z || bool_decide (code c = 9%Z)) value
  then Some value else None.

Definition bearer_token (headers : list bytes) : result bytes AuthenticationResult :=
  match headers with
  | [] => Err MissingBearer
  | [value] =>
      match header_to_str value with
      | None => Err MalformedBearer
      | Some value =>
          match split_once " "%char value with
          | None => Err MalformedBearer
          | Some (scheme, token) =>
              if negb (eq_ignore_ascii_case scheme "bearer") || is_empty token
                 || existsb is_ascii_whitespace token
              then Err MalformedBearer
              else Ok token
          end
      end
  | _ => Err MalformedBearer
  end.

(** ** Lemmas *)

Lemma grant_covers_spec g fold permission :
  grant_covers g fold permission = true ↔
  permission ∈ permissions g ∧ Path.AtOrBelow fold (prefix g).
Proof.
  unfold grant_covers, Path.AtOrBelow.
  rewrite andb_true_iff, !orb_true_iff, !bool_decide_eq_true.
  assert (match strip_prefix (prefix g) fold with
          | Some suffix => starts_with suffix "/" | None => false end = true
          ↔ ∃ s, fold = prefix g ++ "/" ++ s) as ->; [|tauto].
  destruct (strip_prefix (prefix g) fold) as [r|] eqn:E.
  - apply strip_prefix_spec in E as ->. rewrite starts_with_spec. split.
    + intros [s ->]. eauto.
    + intros [s Hs%app_inv_head]. eauto.
  - split; [done|]. intros [s Hs%strip_prefix_spec]. congruence.
Qed.

Lemma allows_spec self p permission :
  allows self p permission = true ↔
  ∃ g, g ∈ grants self ∧ permission ∈ permissions g ∧ Path.AtOrBelow (Path.fold p) (prefix g).
Proof.
  unfold allows. rewrite existsb_elem_of. by setoid_rewrite grant_covers_spec.
Qed.

(** Authorization depends on the fold only. *)
#[global] Instance allows_proper self : Proper ((≡) ==> (=) ==> (=)) (allows self).
Proof. intros p q Hpq ?? ->. unfold allows. by rewrite (Hpq : Path.fold p = Path.fold q). Qed.

(** Grants of a principal name canonical fold keys. *)
Definition well_formed (self : AuthenticatedPrincipal) : Prop :=
  Forall (λ g, Path.Canonical (prefix g)) (grants self).

Lemma allows_below self p q permission :
  well_formed self → Path.Canonical (path p) → Path.Canonical (path q) →
  Path.is_at_or_below q p = true → allows self p permission = true →
  allows self q permission = true.
Proof.
  intros Hw Hp Hq Hb. rewrite Path.is_at_or_below_spec in Hb. rewrite !allows_spec.
  intros (g & Hg & Hperm & Hcov). exists g. split; [done|]. split; [done|].
  unfold well_formed in Hw. rewrite Forall_forall in Hw.
  apply (Path.AtOrBelow_trans _ (Path.fold p)); auto with sovereign;
    by apply Path.Canonical_lower.
Qed.

(** Which permissions a prefix map grants at a fold. *)
Definition map_grants (m : list (bytes * gset Permission)) (fold : bytes) (p : Permission) : Prop :=
  Exists (λ e, p ∈ snd e ∧ Path.AtOrBelow fold (fst e)) m.

Lemma extend_entry_grants k perms m fold p :
  map_grants (extend_entry k perms m) fold p ↔
  (p ∈ perms ∧ Path.AtOrBelow fold k) ∨ map_grants m fold p.
Proof.
  unfold map_grants. induction m as [|[k' s] m IH]; simpl.
  - rewrite Exists_cons, Exists_nil. simpl. rewrite elem_of_list_to_set. tauto.
  - destruct (cmp_bytes k k') eqn:E; rewrite !Exists_cons; simpl.
    + apply cmp_bytes_eq in E as ->. rewrite elem_of_union, elem_of_list_to_set. tauto.
    + rewrite elem_of_list_to_set. tauto.
    + rewrite IH. tauto.
Qed.

Lemma fold_grants raws : ∀ m m' fold p,
  fold_result grant_step m raws = Ok m' →
  map_grants m' fold p ↔
  Exists (λ raw, ∃ q, Path.parse_selection (raw_prefix raw) = Ok q
            ∧ p ∈ raw_permissions raw ∧ Path.AtOrBelow fold (Path.fold q)) raws
  ∨ map_grants m fold p.
Proof.
  induction raws as [|raw raws IH]; intros m m' fold p; simpl.
  { intros [= ->]. rewrite Exists_nil. tauto. }
  destruct (grant_step m raw) as [m1|] eqn:E; [|done]. intros Hf.
  rewrite (IH _ _ _ _ Hf), Exists_cons. unfold grant_step, canonical_prefix in E.
  destruct (Path.parse_selection (raw_prefix raw)) as [q|] eqn:Eq; [|done].
  destruct (is_empty _); simplify_eq. rewrite extend_entry_grants. naive_solver.
Qed.

Lemma validate_grants_spec raws gs name subject p permission :
  validate_grants raws = Ok gs →
  allows (mkPrincipal subject name gs) p permission = true ↔
  ∃ raw q, raw ∈ raws ∧ Path.parse_selection (raw_prefix raw) = Ok q
           ∧ permission ∈ raw_permissions raw ∧ Path.is_at_or_below p q = true.
Proof.
  unfold validate_grants. destruct (fold_result grant_step [] raws) as [m|] eqn:E; [|done].
  intros [= <-]. setoid_rewrite Path.is_at_or_below_spec.
  pose proof (fold_grants raws [] m (Path.fold p) permission E) as Hf.
  unfold map_grants in Hf. rewrite Exists_nil, Exists_exists, Exists_exists in Hf.
  rewrite allows_spec. simpl. setoid_rewrite list_elem_of_In at 1. setoid_rewrite in_map_iff.
  setoid_rewrite <- list_elem_of_In. split.
  - intros (g & (e & <- & He) & Hp). simpl in Hp.
    destruct (proj1 Hf) as [(raw & Hraw & q & Hq)|[]]; [by exists e|]. by exists raw, q.
  - intros (raw & q & Hraw & Hq). destruct (proj2 Hf) as (e & He & Hp); [left; eauto|].
    exists (mkGrant (fst e) (snd e)). eauto.
Qed.

Lemma validate_grants_nonempty raws gs :
  validate_grants raws = Ok gs →
  Forall (λ raw, is_ok (Path.parse_selection (raw_prefix raw)) = true
                 ∧ raw_permissions raw ≠ []) raws.
Proof.
  unfold validate_grants. generalize (@nil (bytes * gset Permission)).
  induction raws as [|raw raws IH]; intros m0 E; [constructor|]. simpl in E.
  destruct (grant_step m0 raw) as [m1|] eqn:Es; [|done].
  constructor; [|by eapply IH]. unfold grant_step, canonical_prefix in Es.
  destruct (Path.parse_selection _); [|done]. split; [done|].
  by destruct (raw_permissions raw).
Qed.

(** A principal built from a token's grants claim may do at a path exactly
    what some grant of the claim permits at or above that path, ignoring
    letter case; an empty or malformed grant refuses the whole claim. *)
Theorem validated_grants_mean_the_claim (raws : list RawGrant) (gs : list Grant)
    (name : option bytes) (subject : bytes) (p : ConfigPath) (permission : Permission) :
  validate_grants raws = Ok gs →
  (allows (mkPrincipal subject name gs) p permission = true ↔
     ∃ raw q, raw ∈ raws ∧ Path.parse_selection (raw_prefix raw) = Ok q
              ∧ permission ∈ raw_permissions raw ∧ Path.is_at_or_below p q = true)
  ∧ Forall (λ raw, is_ok (Path.parse_selection (raw_prefix raw)) = true
                   ∧ raw_permissions raw ≠ []) raws.
Proof.
  intros H. split; [by apply validate_grants_spec|by eapply validate_grants_nonempty].
Qed.

Lemma validated_grants_mean_the_claim_witness :
  ∃ gs, validate_grants [mkRawGrant "/Apps" [Read; Write]; mkRawGrant "/apps" [Manage]] = Ok gs
  ∧ (allows (mkPrincipal "u" None gs) (mkPath "/APPS/x") Manage = true ↔
       ∃ raw q, raw ∈ [mkRawGrant "/Apps" [Read; Write]; mkRawGrant "/apps" [Manage]]
                ∧ Path.parse_selection (raw_prefix raw) = Ok q
                ∧ Manage ∈ raw_permissions raw ∧ Path.is_at_or_below (mkPath "/APPS/x") q = true).
Proof.
  eexists. split; [reflexivity|].
  refine (proj1 (validated_grants_mean_the_claim
    [mkRawGrant "/Apps" [Read; Write]; mkRawGrant "/apps" [Manage]] _ None "u"
    (mkPath "/APPS/x") Manage _)). reflexivity.
Defined.

(** Authorization is monotone down the tree: a principal whose token was
    validated and who may do something at a path may do it at every path at or
    below it, however that path is spelled. *)
Theorem authorization_covers_subtrees (raws : list RawGrant) (gs : list Grant)
    (self : AuthenticatedPrincipal) (s t : bytes) (p q : ConfigPath) (permission : Permission) :
  validate_grants raws = Ok gs → grants self = gs →
  Path.parse_selection s = Ok p → Path.parse_selection t = Ok q →
  Path.is_at_or_below q p = true → allows self p permission = true →
  allows self q permission = true.
Proof.
  intros Hv Hgs [-> Hp]%Path.parse_selection_spec [-> Hq]%Path.parse_selection_spec Hb Ha.
  destruct self as [sub nm g]. simpl in Hgs. subst g.
  apply (validate_grants_spec raws) in Ha as (raw & r & Hr & Hparse & Hperm & Hbelow); [|done].
  apply (validate_grants_spec raws); [done|].
  exists raw, r. split; [done|]. split; [done|]. split; [done|].
  apply Path.parse_selection_spec in Hparse as [-> Hc].
  by apply (Path.is_at_or_below_trans _ (mkPath s)).
Qed.

Lemma authorization_covers_subtrees_witness :
  allows (mkPrincipal "u" None [mkGrant "/apps" {[Read]}]) (mkPath "/Apps/Api/Url") Read = true.
Proof.
  apply (authorization_covers_subtrees [mkRawGrant "/Apps" [Read]] [mkGrant "/apps" (list_to_set [Read])]
           _ "/apps/API" "/Apps/Api/Url" (mkPath "/apps/API") (mkPath "/Apps/Api/Url") Read);
    vm_compute; reflexivity.
Defined.

End Auth.
