(* ===== verification/Encryption.v ===== *)
(** * Sealing secret values

    Models [crates/sovereign-config-server/src/encryption.rs].  The AEAD
    (XChaCha20-Poly1305 under the server's key) and the base64 engine are
    third-party code: operations of the class [Crypto], whose documented
    behaviour is the class [CryptoLaws].  The envelope format, the associated
    data that binds an envelope to its row, and every failure of opening one
    are the server's and are written out. *)

From S2P Require Import Prelude Bytes ConfigPath.

Local Open Scope bytes_scope.

(** ** Third-party operations *)

Class Crypto := {
  (** [XChaCha20Poly1305::encrypt] and [decrypt] under the server's key:
      nonce, message or ciphertext, associated data. *)
  aead_encrypt : bytes → bytes → bytes → option bytes;
  aead_decrypt : bytes → bytes → bytes → option bytes;
  (** [base64]'s [STANDARD] engine. *)
  b64_encode : bytes → bytes;
  b64_decode : bytes → option bytes;
  (** [Sha256::digest], 32 bytes. *)
  sha256 : bytes → bytes
}.

(** The standard base64 alphabet with padding. *)
Definition b64_char (c : ascii) : bool :=
  is_ascii_alphanumeric c || bool_decide (c = "+"%char) || bool_decide (c = "/"%char)
  || bool_decide (c = "="%char).

(** What the documentation of those crates promises. *)
Class CryptoLaws `{Crypto} := {
  b64_round_trip b : b64_decode (b64_encode b) = Some b;
  b64_alphabet b : Forall (λ c, b64_char c = true) (b64_encode b);
  aead_round_trip nonce msg aad ct :
    aead_encrypt nonce msg aad = Some ct → aead_decrypt nonce ct aad = Some msg;
  (** A ciphertext authenticates under no other associated data (the AEAD's
      guarantee, with its negligible forging probability taken as none). *)
  aead_binds_aad nonce msg aad aad' ct :
    aead_encrypt nonce msg aad = Some ct → aad' ≠ aad → aead_decrypt nonce ct aad' = None;
  (** A ciphertext carries at least its 16-byte tag. *)
  aead_expands nonce msg aad ct :
    aead_encrypt nonce msg aad = Some ct → 16 ≤ length ct;
  sha256_length b : length (sha256 b) = 32
}.

(** ** UTF-8 validity, as [String::from_utf8] tests it *)

Definition between (lo hi : Z) (c : ascii) : bool := (lo <=? code c)%Z && (code c <=? hi)%Z.
Definition cont (c : ascii) : bool := between 128 191 c.

Fixpoint from_utf8_ok (s : bytes) : bool :=
  match s with
  | [] => true
  | b0 :: r0 =>
      if between 0 127 b0 then from_utf8_ok r0
      else if between 194 223 b0 then
        match r0 with b1 :: r1 => cont b1 && from_utf8_ok r1 | _ => false end
      else if between 224 239 b0 then
        match r0 with
        | b1 :: b2 :: r2 =>
            (if (code b0 =? 224)%Z then between 160 191 b1
             else if (code b0 =? 237)%Z then between 128 159 b1 else cont b1)
            && cont b2 && from_utf8_ok r2
        | _ => false
        end
      else if between 240 244 b0 then
        match r0 with
        | b1 :: b2 :: b3 :: r3 =>
            (if (code b0 =? 240)%Z then between 144 191 b1
             else if (code b0 =? 244)%Z then between 128 143 b1 else cont b1)
            && cont b2 && cont b3 && from_utf8_ok r3
        | _ => false
        end
      else false
  end.

Module Cipher.

Definition ENVELOPE_PREFIX : bytes := "enc:v1:".
Definition KEY_LEN : nat := 32.
Definition NONCE_LEN : nat := 24.

Inductive DecryptError := NotEncrypted | Malformed | Unauthenticated | NotUtf8.
Inductive EncryptError := encrypt_error.
Inductive KeyError := NotBase64 | WrongLength (actual : nat).

#[global] Instance DecryptError_eq_dec : EqDecision DecryptError.
Proof. solve_decision. Defined.
#[global] Instance KeyError_eq_dec : EqDecision KeyError.
Proof. solve_decision. Defined.

Definition associated_data (content_id : Z) (classification : bytes) : bytes :=
  "sovereign-config:value:v1:" ++ show_Z content_id ++ ":" ++ classification.

Definition is_envelope (stored : bytes) : bool := starts_with stored ENVELOPE_PREFIX.

Section cipher.
Context `{Crypto}.

(** [ValueCipher::encrypt]; [nonce] is what [getrandom::fill] produced, or
    [None] when it failed. *)
Definition encrypt (nonce : option bytes) (content_id : Z) (classification plaintext : bytes)
  : result bytes EncryptError :=
  match nonce with
  | None => Err encrypt_error
  | Some nonce_bytes =>
      match aead_encrypt nonce_bytes plaintext (associated_data content_id classification) with
      | None => Err encrypt_error
      | Some ciphertext => Ok (ENVELOPE_PREFIX ++ b64_encode (nonce_bytes ++ ciphertext))
      end
  end.

(** [ValueCipher::decrypt] *)
Definition decrypt (content_id : Z) (classification stored : bytes) : result bytes DecryptError :=
  match strip_prefix ENVELOPE_PREFIX stored with
  | None => Err NotEncrypted
  | Some encoded =>
      match b64_decode encoded with
      | None => Err Malformed
      | Some envelope =>
          if (length envelope <=? NONCE_LEN)%nat then Err Malformed
          else
            match aead_decrypt (take NONCE_LEN envelope) (drop NONCE_LEN envelope)
                    (associated_data content_id classification) with
            | None => Err Unauthenticated
            | Some plaintext =>
                if from_utf8_ok plaintext then Ok plaintext else Err NotUtf8
            end
      end
  end.

(** [decode_key] *)
Definition decode_key (encoded : bytes) : result bytes KeyError :=
  match b64_decode (trim encoded) with
  | None => Err NotBase64
  | Some decoded =>
      if (length decoded =? KEY_LEN)%nat then Ok decoded else Err (WrongLength (length decoded))
  end.
End cipher.

(** ** Lemmas *)

Lemma encrypt_is_envelope `{Crypto} nonce id cls pt sealed :
  encrypt nonce id cls pt = Ok sealed → is_envelope sealed = true.
Proof.
  unfold encrypt, is_envelope. intros E.
  destruct nonce as [n|]; [|done]. destruct (aead_encrypt n pt _) as [ct|]; [|done].
  assert (sealed = ENVELOPE_PREFIX ++ b64_encode (n ++ ct)) as -> by congruence.
  apply starts_with_app.
Qed.

Section laws.
Context `{CryptoLaws}.

Lemma decrypt_encrypt nonce id cls pt sealed :
  length nonce = NONCE_LEN → from_utf8_ok pt = true →
  encrypt (Some nonce) id cls pt = Ok sealed → decrypt id cls sealed = Ok pt.
Proof.
  intros Hn Hu. unfold encrypt, decrypt.
  destruct (aead_encrypt nonce pt _) as [ct|] eqn:E; [|done]. intros Hs.
  assert (sealed = ENVELOPE_PREFIX ++ b64_encode (nonce ++ ct)) as -> by congruence.
  rewrite (proj2 (strip_prefix_spec ENVELOPE_PREFIX _ _) eq_refl), b64_round_trip.
  pose proof (aead_expands _ _ _ _ E).
  rewrite length_app, Hn, (proj2 (Nat.leb_gt _ _)) by lia.
  rewrite take_app_length', drop_app_length' by done.
  by rewrite (aead_round_trip _ _ _ _ E), Hu.
Qed.

Lemma decrypt_elsewhere nonce id cls id' cls' pt sealed :
  length nonce = NONCE_LEN →
  associated_data id' cls' ≠ associated_data id cls →
  encrypt (Some nonce) id cls pt = Ok sealed → decrypt id' cls' sealed = Err Unauthenticated.
Proof.
  intros Hn Hne. unfold encrypt, decrypt.
  destruct (aead_encrypt nonce pt _) as [ct|] eqn:E; [|done]. intros Hs.
  assert (sealed = ENVELOPE_PREFIX ++ b64_encode (nonce ++ ct)) as -> by congruence.
  rewrite (proj2 (strip_prefix_spec ENVELOPE_PREFIX _ _) eq_refl), b64_round_trip.
  pose proof (aead_expands _ _ _ _ E).
  rewrite length_app, Hn, (proj2 (Nat.leb_gt _ _)) by lia.
  rewrite take_app_length', drop_app_length' by done.
  by rewrite (aead_binds_aad _ _ _ _ _ E).
Qed.
End laws.

(** *** Associated data names one row *)

Lemma digit_byte_inj d e :
  (0 ≤ d < 10)%Z → (0 ≤ e < 10)%Z → digit_byte d = digit_byte e → d = e.
Proof.
  unfold digit_byte. intros Hd He E.
  apply (f_equal N_of_ascii) in E. rewrite !N_ascii_embedding in E by lia. lia.
Qed.

Lemma digit_byte_is_digit d : (0 ≤ d < 10)%Z → is_ascii_digit (digit_byte d) = true.
Proof.
  intros Hd. unfold is_ascii_digit, code, digit_byte. rewrite N_ascii_embedding by lia.
  apply andb_true_iff; split; apply Z.leb_le; lia.
Qed.

Lemma decimal_digits_app fuel : ∀ n acc,
  decimal_digits fuel n acc = decimal_digits fuel n [] ++ acc.
Proof.
  induction fuel as [|fuel IH]; intros n acc; [done|]. simpl.
  destruct (n <? 10)%Z; [done|]. rewrite IH, (IH _ [_]), <- app_assoc. done.
Qed.

Lemma decimal_digits_digits fuel : ∀ n acc,
  (0 ≤ n)%Z → Forall (λ c, is_ascii_digit c = true) acc →
  Forall (λ c, is_ascii_digit c = true) (decimal_digits fuel n acc).
Proof.
  induction fuel as [|fuel IH]; intros n acc Hn Hacc; [done|]. simpl.
  pose proof (Z.mod_pos_bound n 10).
  assert (Forall (λ c, is_ascii_digit c = true) (digit_byte (n mod 10) :: acc))
    by (constructor; [apply digit_byte_is_digit; lia|done]).
  destruct (n <? 10)%Z; [done|]. apply IH; [|done]. apply Z.div_pos; lia.
Qed.

Lemma decimal_digits_inj fuel : ∀ n m,
  (0 ≤ n < 10 ^ Z.of_nat fuel)%Z → (0 ≤ m < 10 ^ Z.of_nat fuel)%Z →
  decimal_digits fuel n [] = decimal_digits fuel m [] → n = m.
Proof.
  induction fuel as [|fuel IH]; intros n m Hn Hm; [simpl in *; lia|].
  rewrite Nat2Z.inj_succ, Z.pow_succ_r in Hn, Hm by lia. simpl.
  pose proof (Z.mod_pos_bound n 10). pose proof (Z.mod_pos_bound m 10).
  assert (∀ k, (0 ≤ k)%Z → decimal_digits fuel k [] ≠ [] ∨ fuel = 0%nat) as Hlen.
  { intros k _. destruct fuel; [by right|left]. simpl. destruct (k <? 10)%Z; [done|].
    rewrite decimal_digits_app. by destruct (decimal_digits _ _ _). }
  destruct (Z.ltb_spec n 10), (Z.ltb_spec m 10); rewrite ?(decimal_digits_app _ _ [_]).
  - intros [= E]. apply digit_byte_inj in E; [|lia..]. rewrite !Z.mod_small in E; lia.
  - intros E. apply (f_equal length) in E. rewrite length_app in E. simpl in E.
    destruct (Hlen (m / 10)%Z) as [Hl| ->]; [apply Z.div_pos; lia| |simpl in *; lia].
    destruct (decimal_digits fuel (m / 10) []); simpl in *; [done|lia].
  - intros E. apply (f_equal length) in E. rewrite length_app in E. simpl in E.
    destruct (Hlen (n / 10)%Z) as [Hl| ->]; [apply Z.div_pos; lia| |simpl in *; lia].
    destruct (decimal_digits fuel (n / 10) []); simpl in *; [done|lia].
  - intros E. apply app_inj_2 in E as [E1 [= E2]]; [|done].
    apply digit_byte_inj in E2; [|lia..].
    apply IH in E1; [|split; [apply Z.div_pos; lia|apply Z.div_lt_upper_bound; lia]..].
    rewrite (Z.div_mod n 10), (Z.div_mod m 10) by lia. lia.
Qed.

(** Content identities are [BIGINT] values of a sequence: positive 64-bit. *)
Definition valid_id (n : Z) : Prop := (0 < n ≤ 9223372036854775807)%Z.

Lemma show_Z_colon_free n : (0 ≤ n)%Z → ":"%char ∉ show_Z n.
Proof.
  intros Hn Hin. unfold show_Z in Hin. destruct (n <? 0)%Z eqn:E; [lia|].
  pose proof (decimal_digits_digits 20 n [] Hn (Forall_nil_2 _)) as H.
  rewrite Forall_forall in H. by specialize (H _ Hin).
Qed.

Lemma associated_data_inj id cls id' cls' :
  valid_id id → valid_id id' →
  associated_data id cls = associated_data id' cls' → id = id' ∧ cls = cls'.
Proof.
  unfold valid_id, associated_data. intros Hid Hid' E%app_inv_head.
  assert (split_once ":"%char (show_Z id ++ ":" ++ cls) = Some (show_Z id, cls)) as H1
    by (apply split_once_spec; split; [done|apply show_Z_colon_free; lia]).
  assert (split_once ":"%char (show_Z id' ++ ":" ++ cls') = Some (show_Z id', cls')) as H2
    by (apply split_once_spec; split; [done|apply show_Z_colon_free; lia]).
  rewrite E, H2 in H1. injection H1 as Hs ->. split; [|done]. symmetry.
  unfold show_Z in Hs. destruct (Z.ltb_spec id 0), (Z.ltb_spec id' 0); try lia.
  apply (decimal_digits_inj 20) in Hs; [done|simpl; lia..].
Qed.

(** C22: a sealed value opens to exactly the plaintext that was sealed, on the
    content row and classification it was sealed for, and on no other: an
    envelope moved to another row or read under another classification fails
    authentication instead of revealing anything. *)
Theorem envelope_binds_its_row `{CryptoLaws} (nonce : bytes) (id id' : Z) (cls cls' pt sealed : bytes) :
  length nonce = NONCE_LEN → from_utf8_ok pt = true → valid_id id → valid_id id' →
  encrypt (Some nonce) id cls pt = Ok sealed →
  is_envelope sealed = true
  ∧ decrypt id' cls' sealed =
    if bool_decide (id' = id ∧ cls' = cls) then Ok pt else Err Unauthenticated.
Proof.
  intros Hn Hu Hid Hid' E. split; [by eapply encrypt_is_envelope|].
  case_bool_decide as Hsame.
  - destruct Hsame as [-> ->]. by eapply decrypt_encrypt.
  - eapply decrypt_elsewhere; [done| |done]. intros Ha%associated_data_inj; [|done..]. tauto.
Qed.

(** ** A concrete instance

    An AEAD that satisfies the laws by writing the associated data in front of
    the message: the header is 16 tag bytes, the length of the associated data
    in unary, and the data itself.  The text encoding writes two letters per
    byte. *)

Definition toy_header (aad : bytes) : bytes :=
  replicate 16 "000"%char ++ replicate (length aad) "x"%char ++ "y" ++ aad.

Definition toy_letters (c : ascii) : bytes :=
  [byte (97 + code c / 16); byte (97 + code c mod 16)].

Fixpoint toy_decode (s : bytes) : option bytes :=
  match s with
  | [] => Some []
  | a :: b :: r => (λ t, byte ((code a - 97) * 16 + (code b - 97)) :: t) <$> toy_decode r
  | _ => None
  end.

#[global] Instance toy_crypto : Crypto | 100 := {
  aead_encrypt _ msg aad := Some (toy_header aad ++ msg);
  aead_decrypt _ ct aad := strip_prefix (toy_header aad) ct;
  b64_encode b := flat_map toy_letters b;
  b64_decode := toy_decode;
  sha256 b := take 32 (b ++ replicate 32 "000"%char)
}.

Lemma unary_inj (n m : nat) (s t : bytes) :
  replicate n "x"%char ++ "y" ++ s = replicate m "x"%char ++ "y" ++ t → n = m ∧ s = t.
Proof.
  revert m. induction n as [|n IH]; intros [|m] E; simplify_eq/=; [done..|].
  by apply IH in E as [-> ->].
Qed.

Lemma toy_decode_letters b : toy_decode (flat_map toy_letters b) = Some b.
Proof.
  induction b as [|c b IH]; [done|]. simpl. rewrite IH. simpl. do 2 f_equal.
  clear. all_bytes c.
Qed.

Lemma toy_letters_alphabet c : Forall (λ c, b64_char c = true) (toy_letters c).
Proof. apply forallb_Forall. all_bytes c. Qed.

#[global] Instance toy_laws : @CryptoLaws toy_crypto | 100.
Proof.
  split.
  - apply toy_decode_letters.
  - intros b. simpl. induction b as [|c b IH]; [constructor|].
    apply (Forall_app_2 _ (toy_letters c)); [apply toy_letters_alphabet|done].
  - intros nonce msg aad ct [= <-]. by apply (strip_prefix_spec (toy_header aad)).
  - intros nonce msg aad aad' ct [= <-] Hne.
    destruct (aead_decrypt nonce (toy_header aad ++ msg) aad') as [rest|] eqn:E; [|done]. exfalso.
    apply (strip_prefix_spec (toy_header aad')) in E. unfold toy_header in E.
    rewrite <- !app_assoc in E. apply app_inv_head, unary_inj in E as [Hl E].
    apply app_inj_1 in E as [E _]; [by subst|done].
  - intros nonce msg aad ct [= <-]. simpl. lia.
  - intros b. change (length (take 32 (b ++ replicate 32 "000"%char)) = 32).
    rewrite length_take, length_app, length_replicate. lia.
Qed.

Definition toy_nonce : bytes := replicate NONCE_LEN "n"%char.

Lemma envelope_binds_its_row_witness :
  ∃ sealed,
    encrypt (Some toy_nonce) 7 "secret" "hunter2" = Ok sealed
    ∧ is_envelope sealed = true
    ∧ decrypt 7 "secret" sealed = Ok "hunter2"
    ∧ decrypt 8 "secret" sealed = Err Unauthenticated.
Proof.
  eexists. split; [reflexivity|].
  split; [|split].
  - refine (proj1 (envelope_binds_its_row toy_nonce 7 7 "secret" "secret" "hunter2" _ _ _ _ _ _));
      [reflexivity|reflexivity|done|done|reflexivity].
  - refine (eq_trans (proj2 (envelope_binds_its_row toy_nonce 7 7 "secret" "secret" "hunter2" _ _ _ _ _ _)) _);
      [reflexivity|reflexivity|done|done|reflexivity|reflexivity].
  - refine (eq_trans (proj2 (envelope_binds_its_row toy_nonce 7 8 "secret" "secret" "hunter2" _ _ _ _ _ _)) _);
      [reflexivity|reflexivity|done|done|reflexivity|reflexivity].
Defined.

End Cipher.
