(* ===== verification/AuditEvent.v ===== *)
(** * Audit events

    Models the pure half of the audit trail: the event kinds, the values an
    event may carry and the event constructors of
    [crates/sovereign-config-server/src/audit/mod.rs], and the sentences of
    [audit/narrative.rs].  A value reaches an event only as a [Recorded], whose
    constructor keeps plain values and drops everything else. *)

From S2P Require Import Prelude Bytes ConfigPath.

Local Open Scope bytes_scope.

(** [values::PLAIN] and [values::SECRET]. *)
Definition PLAIN : bytes := "plain".
Definition SECRET : bytes := "secret".

Inductive EventKind :=
| ValueCreated | ValueUpdated | ValueDeleted | ValuePathAdded | SubtreeReplaced
| SubtreeDeleted | SecretRevealed | SubtreeRead | ValuesListed
| ConnectionCreated | ConnectionRotated | ConnectionRevoked.
#[global] Instance EventKind_eq_dec : EqDecision EventKind.
Proof. solve_decision. Defined.

Module Kind.

Definition ALL : list EventKind :=
  [ValueCreated; ValueUpdated; ValueDeleted; ValuePathAdded; SubtreeReplaced; SubtreeDeleted;
   SecretRevealed; SubtreeRead; ValuesListed; ConnectionCreated; ConnectionRotated;
   ConnectionRevoked].

Definition index (k : EventKind) : nat :=
  match k with
  | ValueCreated => 0 | ValueUpdated => 1 | ValueDeleted => 2 | ValuePathAdded => 3
  | SubtreeReplaced => 4 | SubtreeDeleted => 5 | SecretRevealed => 6 | SubtreeRead => 7
  | ValuesListed => 8 | ConnectionCreated => 9 | ConnectionRotated => 10
  | ConnectionRevoked => 11
  end.

Definition as_str (k : EventKind) : bytes :=
  match k with
  | ValueCreated => "value.created"
  | ValueUpdated => "value.updated"
  | ValueDeleted => "value.deleted"
  | ValuePathAdded => "value.path_added"
  | SubtreeReplaced => "subtree.replaced"
  | SubtreeDeleted => "subtree.deleted"
  | SecretRevealed => "secret.revealed"
  | SubtreeRead => "subtree.read"
  | ValuesListed => "values.listed"
  | ConnectionCreated => "connection.created"
  | ConnectionRotated => "connection.rotated"
  | ConnectionRevoked => "connection.revoked"
  end.

(** Whether repeats inside one window collapse into a single row. *)
Definition coalesces (k : EventKind) : bool :=
  match k with SecretRevealed | SubtreeRead | ValuesListed => true | _ => false end.

Lemma as_str_inj k k' : as_str k = as_str k' → k = k'.
Proof. by destruct k, k'. Qed.

Lemma as_str_bar_free k : "|"%char ∉ as_str k.
Proof. apply (bool_decide_unpack _). by destruct k. Qed.

Lemma ALL_index k : ALL !! index k = Some k.
Proof. by destruct k. Qed.

End Kind.

(** ** Recorded values *)

Inductive Recorded := RPlain (value : bytes) | RSecret.
#[global] Instance Recorded_eq_dec : EqDecision Recorded.
Proof. solve_decision. Defined.

Definition recorded_of (classification value : bytes) : Recorded :=
  if bool_decide (classification = PLAIN) then RPlain value else RSecret.

Definition recorded_plain (r : Recorded) : option bytes :=
  match r with RPlain v => Some v | RSecret => None end.

(** ** Actors *)

Record Actor := mkActor {
  actor_subject : bytes; actor_name : option bytes; actor_protocol : bytes }.

Definition shown (a : Actor) : bytes := default (actor_subject a) (actor_name a).

(** ** narrative.rs *)

Module Narrative.

Definition QUOTED_VALUE_CHARACTERS : nat := 80.

Definition ELLIPSIS : Z := 8230.
Definition SPACE : Z := 32.
Definition quote : bytes := ["034"%char].

Definition quoted (value : bytes) : bytes :=
  let shown := List.map (λ c, if char_is_control c then SPACE else c)
                 (take QUOTED_VALUE_CHARACTERS (chars value)) in
  let shown := if (QUOTED_VALUE_CHARACTERS <? length (chars value))%nat
               then shown ++ [ELLIPSIS] else shown in
  quote ++ collect shown ++ quote.

Definition counted (count : nat) (singular plural : bytes) : bytes :=
  if (count =? 1)%nat then "1 " ++ singular else show_nat count ++ " " ++ plural.

Definition value_created (actor path : bytes) (new : Recorded) : bytes :=
  match new with
  | RPlain value => actor ++ " created " ++ path ++ " as " ++ quoted value
  | RSecret => actor ++ " created secret " ++ path
  end.

Definition value_updated (actor path : bytes) (old new : Recorded) : bytes :=
  match old, new with
  | RPlain old, RPlain new =>
      actor ++ " changed " ++ path ++ " from " ++ quoted old ++ " to " ++ quoted new
  | RSecret, RSecret => actor ++ " replaced secret " ++ path
  | RPlain old, RSecret =>
      actor ++ " replaced " ++ path ++ ", previously " ++ quoted old ++ ", with a secret"
  | RSecret, RPlain new =>
      actor ++ " replaced secret " ++ path ++ " with plain value " ++ quoted new
  end.

Definition value_deleted (actor path : bytes) (old : Recorded) : bytes :=
  match old with
  | RPlain value => actor ++ " deleted " ++ path ++ ", previously " ++ quoted value
  | RSecret => actor ++ " deleted secret " ++ path
  end.

Definition path_added (actor new_path source : bytes) : bytes :=
  actor ++ " added " ++ new_path ++ " as a path to the value at " ++ source.

Definition path_exposed (actor source new_path : bytes) : bytes :=
  actor ++ " exposed the value at " ++ source ++ " at " ++ new_path.

Definition subtree_replaced (actor root : bytes) (created updated deleted unrecorded : nat) : bytes :=
  actor ++ " replaced subtree " ++ root ++ ": " ++ show_nat created ++ " created, "
  ++ show_nat updated ++ " changed, " ++ show_nat deleted ++ " deleted"
  ++ (if (0 <? unrecorded)%nat
      then "; " ++ counted unrecorded "change" "changes" ++ " not recorded individually"
      else []).

Definition subtree_deleted (actor root : bytes) (deleted unrecorded : nat) : bytes :=
  actor ++ " deleted " ++ counted deleted "value" "values" ++ " at or below " ++ root
  ++ (if (0 <? unrecorded)%nat
      then "; " ++ counted unrecorded "deletion" "deletions" ++ " not recorded individually"
      else []).

Definition secret_revealed (actor path : bytes) : bytes := actor ++ " revealed secret " ++ path.

Definition subtree_read (actor root : bytes) (value_count : nat) : bytes :=
  actor ++ " read subtree " ++ root ++ " (" ++ counted value_count "value" "values" ++ ")".

Definition values_listed (actor namespace : bytes) (value_count : nat) : bytes :=
  actor ++ " listed " ++ namespace ++ " (" ++ counted value_count "value" "values" ++ ")".

Definition connection_created (actor root display_name connection_id permissions : bytes) : bytes :=
  actor ++ " created managed connection " ++ quoted display_name ++ " (" ++ connection_id
  ++ ") on " ++ root ++ " with " ++ permissions.

Definition connection_rotated (actor root display_name connection_id : bytes) : bytes :=
  actor ++ " rotated managed connection " ++ quoted display_name ++ " (" ++ connection_id
  ++ ") on " ++ root.

Definition connection_revoked (actor root display_name connection_id : bytes) : bytes :=
  actor ++ " revoked managed connection " ++ quoted display_name ++ " (" ++ connection_id
  ++ ") on " ++ root.

End Narrative.

(** ** Events *)

Record AuditEvent := mkEvent {
  ev_kind : EventKind; ev_path : bytes; ev_counterpart : option bytes;
  ev_old : option bytes; ev_new : option bytes; ev_narrative : bytes }.

Record ConnectionSubject := mkConnectionSubject {
  cs_root : bytes; cs_display_name : bytes; cs_connection_id : bytes }.

Module Event.

Definition bare (kind : EventKind) (path narrative : bytes) : AuditEvent :=
  mkEvent kind path None None None narrative.

Definition value_created (actor : Actor) (path : bytes) (new : Recorded) : AuditEvent :=
  mkEvent ValueCreated path None None (recorded_plain new)
    (Narrative.value_created (shown actor) path new).

Definition value_updated (actor : Actor) (path : bytes) (old new : Recorded) : AuditEvent :=
  mkEvent ValueUpdated path None (recorded_plain old) (recorded_plain new)
    (Narrative.value_updated (shown actor) path old new).

Definition value_deleted (actor : Actor) (path : bytes) (old : Recorded) : AuditEvent :=
  mkEvent ValueDeleted path None (recorded_plain old) None
    (Narrative.value_deleted (shown actor) path old).

Definition with_counterpart (c : bytes) (e : AuditEvent) : AuditEvent :=
  mkEvent (ev_kind e) (ev_path e) (Some c) (ev_old e) (ev_new e) (ev_narrative e).

Definition path_added (actor : Actor) (source new_path : ConfigPath) : list AuditEvent :=
  [ with_counterpart (Path.as_str source)
      (bare ValuePathAdded (Path.as_str new_path)
        (Narrative.path_added (shown actor) (Path.as_str new_path) (Path.as_str source)));
    with_counterpart (Path.as_str new_path)
      (bare ValuePathAdded (Path.as_str source)
        (Narrative.path_exposed (shown actor) (Path.as_str source) (Path.as_str new_path))) ].

Definition subtree_replaced (actor : Actor) (root : bytes)
    (created updated deleted unrecorded : nat) : AuditEvent :=
  bare SubtreeReplaced root
    (Narrative.subtree_replaced (shown actor) root created updated deleted unrecorded).

Definition subtree_deleted (actor : Actor) (root : bytes) (deleted unrecorded : nat) : AuditEvent :=
  bare SubtreeDeleted root (Narrative.subtree_deleted (shown actor) root deleted unrecorded).

Definition secret_revealed (actor : Actor) (path : bytes) : AuditEvent :=
  bare SecretRevealed path (Narrative.secret_revealed (shown actor) path).

Definition subtree_read (actor : Actor) (root : bytes) (value_count : nat) : AuditEvent :=
  bare SubtreeRead root (Narrative.subtree_read (shown actor) root value_count).

Definition values_listed (actor : Actor) (namespace : bytes) (value_count : nat) : AuditEvent :=
  bare ValuesListed namespace (Narrative.values_listed (shown actor) namespace value_count).

Definition connection_created (actor : Actor) (c : ConnectionSubject) (permissions : bytes)
  : AuditEvent :=
  bare ConnectionCreated (cs_root c)
    (Narrative.connection_created (shown actor) (cs_root c) (cs_display_name c)
       (cs_connection_id c) permissions).

Definition connection_rotated (actor : Actor) (c : ConnectionSubject) : AuditEvent :=
  bare ConnectionRotated (cs_root c)
    (Narrative.connection_rotated (shown actor) (cs_root c) (cs_display_name c)
       (cs_connection_id c)).

Definition connection_revoked (actor : Actor) (c : ConnectionSubject) : AuditEvent :=
  bare ConnectionRevoked (cs_root c)
    (Narrative.connection_revoked (shown actor) (cs_root c) (cs_display_name c)
       (cs_connection_id c)).

End Event.

Example quoted_example : Narrative.counted 2 "value" "values" = "2 values".
Proof. reflexivity. Qed.
