(* ===== verification/Rpc.v ===== *)
(** * Calls and statuses

    Models [crates/sovereign-config-server/src/rpc.rs]: the gRPC status an
    operation fails with, the call context a shared service implementation
    sees, and the timestamp every response reports. *)

From S2P Require Import Prelude Bytes ConfigPath Core Auth AuditEvent.

Local Open Scope bytes_scope.

(** The [tonic] codes the server answers with. *)
Inductive Code :=
| InvalidArgument | PermissionDenied | Unauthenticated | NotFound | AlreadyExists
| Unavailable | Aborted | Internal | FailedPrecondition | Unimplemented.
#[global] Instance Code_eq_dec : EqDecision Code.
Proof. solve_decision. Defined.

Record Status := mkStatus { status_code : Code; status_message : bytes }.
#[global] Instance Status_eq_dec : EqDecision Status.
Proof. solve_decision. Defined.

Module Rpc.

Definition invalid_argument : bytes → Status := mkStatus InvalidArgument.
Definition permission_denied : bytes → Status := mkStatus PermissionDenied.
Definition unauthenticated : bytes → Status := mkStatus Unauthenticated.
Definition not_found : bytes → Status := mkStatus NotFound.
Definition already_exists : bytes → Status := mkStatus AlreadyExists.
Definition unavailable : bytes → Status := mkStatus Unavailable.
Definition aborted : bytes → Status := mkStatus Aborted.
Definition internal : bytes → Status := mkStatus Internal.
Definition failed_precondition : bytes → Status := mkStatus FailedPrecondition.

Definition UNATTRIBUTED_PROTOCOL_LABEL : bytes := "unattributed".

Record CallContext := mkContext {
  cc_principal : option AuthenticatedPrincipal; cc_protocol_version : option bytes }.

Definition principal (c : CallContext) : result AuthenticatedPrincipal Status :=
  ok_or (cc_principal c) (unauthenticated "authentication required").

Definition actor (c : CallContext) : result Actor Status :=
  match principal c with
  | Err e => Err e
  | Ok p => Ok (mkActor (subject p) (principal_name p)
                  (default UNATTRIBUTED_PROTOCOL_LABEL (cc_protocol_version c)))
  end.

(** An [OffsetDateTime] is its instant, in nanoseconds of the Unix epoch:
    [unix_timestamp] rounds down and [nanosecond] is the rest, below 10^9, so
    it always fits an [i32]. *)
Definition unix_timestamp (t : Z) : Z := (t / Stamps.NANOS)%Z.

Definition to_timestamp (t : Z) : result Stamps.Timestamp Status :=
  let nanos := (t mod Stamps.NANOS)%Z in
  if (Stamps.i32_max <? nanos)%Z then Err (internal "configuration timestamp is invalid")
  else Ok (Stamps.mkTimestamp (unix_timestamp t) nanos).

Definition STORAGE_UNAVAILABLE_MESSAGE : bytes := "configuration storage is unavailable".
Definition storage_unavailable : Status := unavailable STORAGE_UNAVAILABLE_MESSAGE.

(** The timestamp an instant is reported as. *)
Definition timestamp (t : Z) : Stamps.Timestamp :=
  Stamps.mkTimestamp (unix_timestamp t) (t mod Stamps.NANOS).

Lemma to_timestamp_ok t : to_timestamp t = Ok (timestamp t).
Proof.
  unfold to_timestamp, timestamp, unix_timestamp, Stamps.i32_max.
  pose proof (Z.mod_pos_bound t Stamps.NANOS ltac:(unfold Stamps.NANOS; lia)).
  unfold Stamps.NANOS in *. by rewrite (proj2 (Z.ltb_ge _ _)) by lia.
Qed.

End Rpc.
