(* ===== verification/Database.v ===== *)
(** * The database and effectful code

    The tables of [crates/sovereign-config-server/migrations] the value and
    audit services use, and the effects of the code that runs statements
    against them.  A handler is a state-passing function over a [World]: the
    committed database, the clock, the random source, the audit counters, and
    a schedule that says how each statement ends.  A statement may fail, or
    take effect with its reply lost, at any point: what the server promises
    must hold under every schedule. *)

From stdpp Require Import strings.
From S2P Require Import Prelude Bytes ConfigPath Core Rpc.

Local Open Scope bytes_scope.

(** ** Rows *)

(** [configuration_value_contents], keyed by [id]. *)
Record ContentRow := mkContent {
  c_value : bytes; c_classification : bytes; c_created_at : Z; c_updated_at : Z }.
#[global] Instance ContentRow_eq_dec : EqDecision ContentRow.
Proof. solve_decision. Defined.

(** [configuration_paths], keyed by the generated column [lowercase_path]. *)
Record PathRow := mkPathRow {
  p_path : bytes; p_content_id : Z; p_created_at : Z; p_updated_at : Z }.
#[global] Instance PathRow_eq_dec : EqDecision PathRow.
Proof. solve_decision. Defined.

(** [audit_events]; [path_fold] and [counterpart_fold] are generated, and the
    last two columns keep what the name repair overwrote. *)
Record AuditRow := mkAuditRow {
  a_id : Z; a_occurred_at : Z; a_first_occurred_at : Z; a_event_count : Z; a_kind : bytes;
  a_display_path : bytes; a_counterpart : option bytes; a_subject : bytes;
  a_name : option bytes; a_protocol : bytes; a_old : option bytes; a_new : option bytes;
  a_narrative : bytes; a_digest : option bytes; a_recorded_name : option bytes;
  a_recorded_narrative : option bytes }.
#[global] Instance AuditRow_eq_dec : EqDecision AuditRow.
Proof. solve_decision. Defined.

Record Database := mkDatabase {
  contents : gmap Z ContentRow; paths : gmap bytes PathRow; content_seq : Z;
  audit : list AuditRow; audit_seq : Z }.
#[global] Instance Database_eq_dec : EqDecision Database.
Proof. solve_decision. Defined.

Definition set_contents (c : gmap Z ContentRow) (d : Database) : Database :=
  mkDatabase c (paths d) (content_seq d) (audit d) (audit_seq d).
Definition set_paths (p : gmap bytes PathRow) (d : Database) : Database :=
  mkDatabase (contents d) p (content_seq d) (audit d) (audit_seq d).
Definition set_content_seq (n : Z) (d : Database) : Database :=
  mkDatabase (contents d) (paths d) n (audit d) (audit_seq d).
Definition set_audit (a : list AuditRow) (n : Z) (d : Database) : Database :=
  mkDatabase (contents d) (paths d) (content_seq d) a n.

(** [lower(path)] of a column collated ["C"] folds ASCII letters only. *)
Definition lower : bytes → bytes := to_ascii_lowercase.

(** A [TIMESTAMPTZ] holds microseconds. *)
Definition timestamptz (t : Z) : Z := (t / 1000 * 1000)%Z.

(** A [TEXT] holds no NUL. *)
Definition text_ok (s : bytes) : bool := negb (contains_byte "000"%char s).

(** The constraint [path ~ '^/[A-Za-z0-9_-]+(/[A-Za-z0-9_-]+)*$']: the
    automaton of the repetition, [started] once the segment has a character. *)
Fixpoint path_check_from (started : bool) (s : bytes) : bool :=
  match s with
  | [] => started
  | c :: s' =>
      if bool_decide (c = "/"%char) then started && path_check_from false s'
      else segment_byte c && path_check_from true s'
  end.

Definition path_check (s : bytes) : bool :=
  match s with
  | c :: s' => bool_decide (c = "/"%char) && path_check_from false s'
  | [] => false
  end.

(** ** Worlds *)

(** How a statement ends: it runs, it fails without effect, or it runs and its
    reply is lost, which the caller sees as a failure. *)
Inductive Outcome := Done | Failed | Lost.
#[global] Instance Outcome_eq_dec : EqDecision Outcome.
Proof. solve_decision. Defined.

(** [AuditMetrics]: wrapping 64-bit counters, [writes] by kind and outcome. *)
Record AuditMetrics := mkMetrics {
  m_writes : gmap (nat * nat) Z; m_swept : Z; m_sweep_failures : Z }.

Record World := mkWorld {
  db : Database;
  outcomes : list Outcome;          (* of the next statements; then all run *)
  entropy : list (option bytes);    (* of the next [getrandom::fill] calls *)
  clock : Z;                        (* the instant the call reads *)
  metrics : AuditMetrics;
  locks : list (bytes * bool) }.    (* advisory locks requested, in order *)

Definition set_db (d : Database) (w : World) : World :=
  mkWorld d (outcomes w) (entropy w) (clock w) (metrics w) (locks w).
Definition set_outcomes (o : list Outcome) (w : World) : World :=
  mkWorld (db w) o (entropy w) (clock w) (metrics w) (locks w).
Definition set_entropy (e : list (option bytes)) (w : World) : World :=
  mkWorld (db w) (outcomes w) e (clock w) (metrics w) (locks w).
Definition set_metrics (m : AuditMetrics) (w : World) : World :=
  mkWorld (db w) (outcomes w) (entropy w) (clock w) m (locks w).
Definition add_lock (l : bytes * bool) (w : World) : World :=
  mkWorld (db w) (outcomes w) (entropy w) (clock w) (metrics w) (locks w ++ [l]).

(** ** Effectful code *)

Definition M (E A : Type) : Type := World → result A E * World.

#[global] Instance M_ret {E} : MRet (M E) := λ A a w, (Ok a, w).
#[global] Instance M_bind {E} : MBind (M E) :=
  λ A B k m w, match m w with (Ok a, w') => k a w' | (Err e, w') => (Err e, w') end.

Definition fail {E A} (e : E) : M E A := λ w, (Err e, w).
Definition lift {E A} (r : result A E) : M E A := λ w, (r, w).
Definition now {E} : M E Z := λ w, (Ok (clock w), w).
Definition map_error {E F A} (f : E → F) (m : M E A) : M F A :=
  λ w, let '(r, w') := m w in (map_err r f, w').

(** [getrandom::fill]: the next bytes of the source, [None] when it fails. *)
Definition getrandom {E} : M E (option bytes) := λ w,
  (Ok (default None (head (entropy w))), set_entropy (tail (entropy w)) w).

(** The only error [sqlx] reports that the code looks at is that there is one. *)
Inductive SqlError := sql_error.

Definition tick (w : World) : World := set_outcomes (tail (outcomes w)) w.
Definition outcome (w : World) : Outcome := default Done (head (outcomes w)).

(** One statement: [None] is a violated constraint or a missing row. *)
Definition stmt {A} (f : Database → option (A * Database)) : M SqlError A := λ w,
  match outcome w, f (db w) with
  | Done, Some (a, d) => (Ok a, set_db d (tick w))
  | Lost, Some (_, d) => (Err sql_error, set_db d (tick w))
  | _, _ => (Err sql_error, tick w)
  end.

(** A statement that only reads. *)
Definition query {A} (f : Database → A) : M SqlError A := stmt (λ d, Some (f d, d)).

(** Sequences are not transactional: [nextval] survives a rollback. *)
Definition rollback (before after : Database) : Database :=
  mkDatabase (contents before) (paths before) (content_seq after) (audit before) (audit_seq after).

(** [begin], the body, [commit]: an error inside drops the transaction, which
    rolls it back; a failed [commit] rolls it back too, unless only its reply
    was lost. *)
Definition in_transaction {E A} (e : E) (body : M E A) : M E A := λ w,
  match outcome w with
  | Done =>
      match body (tick w) with
      | (Err e', w') => (Err e', set_db (rollback (db w) (db w')) w')
      | (Ok a, w') =>
          match outcome w' with
          | Done => (Ok a, tick w')
          | Failed => (Err e, set_db (rollback (db w) (db w')) (tick w'))
          | Lost => (Err e, tick w')
          end
      end
  | _ => (Err e, tick w)
  end.

(** A left-to-right loop whose body may fail. *)
Fixpoint for_each {E A B} (f : A → M E B) (l : list A) : M E (list B) :=
  match l with
  | [] => mret []
  | x :: l' => y ← f x; ys ← for_each f l'; mret (y :: ys)
  end.

(** ** Reasoning about runs *)

Lemma bind_ok {E A B} (m : M E A) (k : A → M E B) w b w' :
  (m ≫= k) w = (Ok b, w') ↔ ∃ a w1, m w = (Ok a, w1) ∧ k a w1 = (Ok b, w').
Proof.
  unfold mbind, M_bind. destruct (m w) as [[a|e] w1]; naive_solver.
Qed.

Lemma bind_err {E A B} (m : M E A) (k : A → M E B) w e w' :
  (m ≫= k) w = (Err e, w') ↔
  m w = (Err e, w') ∨ ∃ a w1, m w = (Ok a, w1) ∧ k a w1 = (Err e, w').
Proof.
  unfold mbind, M_bind. destruct (m w) as [[a|e'] w1]; naive_solver.
Qed.

Lemma ret_ok {E A} (a b : A) w w' : mret (M:=M E) a w = (Ok b, w') ↔ b = a ∧ w' = w.
Proof. unfold mret, M_ret. naive_solver. Qed.

Lemma lift_ok {E A} (r : result A E) a w w' : lift r w = (Ok a, w') ↔ r = Ok a ∧ w' = w.
Proof. unfold lift. naive_solver. Qed.

Lemma fail_ok {E A} (e : E) (a : A) w w' : fail e w = (Ok a, w') ↔ False.
Proof. unfold fail. naive_solver. Qed.

Lemma map_error_ok {E F A} (f : E → F) (m : M E A) a w w' :
  map_error f m w = (Ok a, w') ↔ m w = (Ok a, w').
Proof. unfold map_error. destruct (m w) as [[]]; naive_solver. Qed.

Lemma now_ok {E} w t w' : now (E:=E) w = (Ok t, w') ↔ t = clock w ∧ w' = w.
Proof. unfold now. naive_solver. Qed.

Lemma stmt_ok {A} (f : Database → option (A * Database)) w a w' :
  stmt f w = (Ok a, w') ↔
  outcome w = Done ∧ ∃ d, f (db w) = Some (a, d) ∧ w' = set_db d (tick w).
Proof.
  unfold stmt. destruct (outcome w), (f (db w)) as [[? ?]|]; naive_solver.
Qed.

Lemma query_ok {A} (f : Database → A) w a w' :
  query f w = (Ok a, w') ↔ outcome w = Done ∧ a = f (db w) ∧ w' = tick w.
Proof.
  unfold query. rewrite stmt_ok. split.
  - intros (? & d & E & ->). simplify_eq. split; [done|]. split; [done|]. by destruct w.
  - intros (? & -> & ->). split; [done|]. eexists. split; [done|]. by destruct w.
Qed.

Lemma in_transaction_ok {E A} (e : E) (body : M E A) w a w' :
  in_transaction e body w = (Ok a, w') ↔
  outcome w = Done ∧ ∃ w1, body (tick w) = (Ok a, w1) ∧ outcome w1 = Done ∧ w' = tick w1.
Proof.
  unfold in_transaction. split.
  - intros H. destruct (outcome w); [|done..]. split; [done|].
    destruct (body (tick w)) as [[a'|e'] w1]; [|done].
    exists w1. destruct (outcome w1) eqn:Eo; [|done..]. by simplify_eq.
  - intros (-> & w1 & -> & -> & ->). done.
Qed.

(** The tables a transaction can change, as opposed to the sequences. *)
Definition same_tables (d d' : Database) : Prop :=
  contents d = contents d' ∧ paths d = paths d' ∧ audit d = audit d'.

#[global] Instance same_tables_equivalence : Equivalence same_tables.
Proof. unfold same_tables. split; repeat intro; intuition congruence. Qed.

Lemma rollback_same d d' : same_tables d (rollback d d').
Proof. done. Qed.

(** A failed transaction changed no table, unless everything was committed and
    only the reply to the commit was lost. *)
Lemma in_transaction_err {E A} (e e' : E) (body : M E A) w w' :
  in_transaction e body w = (Err e', w') →
  same_tables (db w) (db w')
  ∨ ∃ a w1, body (tick w) = (Ok a, w1) ∧ outcome w1 = Lost ∧ e' = e ∧ w' = tick w1.
Proof.
  unfold in_transaction. destruct (outcome w); [|by intros [= <- <-]; left..].
  destruct (body (tick w)) as [[a'|e''] w1]; [|intros [= <- <-]; by left].
  destruct (outcome w1) eqn:?; intros [= <- <-]; [by left|right; eauto 10].
Qed.

(** Decomposes a successful run into its steps. *)
Ltac run_step :=
  match goal with
  | H : (_ ≫= _) _ = (Ok _, _) |- _ =>
      apply bind_ok in H as (? & ? & ? & H)
  | H : mret _ _ = (Ok _, _) |- _ => apply ret_ok in H as (? & ?); subst
  | H : lift _ _ = (Ok _, _) |- _ => apply lift_ok in H as (? & ?); subst
  | H : fail _ _ = (Ok _, _) |- _ => by apply fail_ok in H
  | H : now _ = (Ok _, _) |- _ => apply now_ok in H as (? & ?); subst
  | H : map_error _ _ _ = (Ok _, _) |- _ => apply map_error_ok in H
  | H : map_err _ _ = Ok _ |- _ => apply map_err_ok in H
  | H : ok_or _ _ = Ok _ |- _ => apply ok_or_ok in H
  | H : and_then _ _ = Ok _ |- _ => apply and_then_ok in H as (? & ? & H)
  | H : query _ _ = (Ok _, _) |- _ => apply query_ok in H as (? & ? & ?); subst
  | H : stmt _ _ = (Ok _, _) |- _ => apply stmt_ok in H as (? & ? & ? & ?); subst
  | H : in_transaction _ _ _ = (Ok _, _) |- _ =>
      apply in_transaction_ok in H as (? & ? & ? & ? & ?); subst
  end.

Ltac run_steps := repeat run_step.

(** ** What every program does to the parts of a world it cannot undo *)

(** Sequences only move forward, and not past the end of a [BIGINT]. *)
Definition seq_le (d d' : Database) : Prop :=
  (content_seq d ≤ content_seq d')%Z ∧ (audit_seq d ≤ audit_seq d')%Z
  ∧ (content_seq d ≤ Stamps.i64_max → content_seq d' ≤ Stamps.i64_max)%Z.

#[global] Instance seq_le_preorder : PreOrder seq_le.
Proof.
  split; [done|]. unfold seq_le. intros x y z (?&?&?) (?&?&?). split_and!; [lia..|auto].
Qed.

Lemma seq_le_same d d' :
  content_seq d' = content_seq d → audit_seq d' = audit_seq d → seq_le d d'.
Proof. unfold seq_le. intros -> ->. split_and!; [lia..|done]. Qed.

(** [w'] is a later world: sequences moved forward, the schedule was consumed
    from its front, and the clock of the call did not change. *)
Definition later (w w' : World) : Prop :=
  seq_le (db w) (db w') ∧ outcomes w' `suffix_of` outcomes w ∧ clock w' = clock w.

#[global] Instance later_preorder : PreOrder later.
Proof.
  split; [by intros w; split_and!|].
  intros x y z (?&?&?) (?&?&?). split_and!; [by etrans..|congruence].
Qed.

(** Programs that only move forward; every program of the service is one. *)
Class Forward {E A} (m : M E A) : Prop := forward w : later w (snd (m w)).

Lemma later_tick w : later w (tick w).
Proof.
  split_and!; [done| |done]. unfold tick. simpl. destruct (outcomes w); [done|]. by eexists [_].
Qed.

Lemma later_set_db d w : seq_le (db w) d → later w (set_db d w).
Proof. intros H. split; [exact H|]. by split. Qed.

#[global] Instance Forward_ret {E A} (a : A) : Forward (mret (M:=M E) a).
Proof. by intros w. Qed.
#[global] Instance Forward_fail {E A} (e : E) : Forward (A:=A) (fail e).
Proof. by intros w. Qed.
#[global] Instance Forward_lift {E A} (r : result A E) : Forward (lift r).
Proof. by intros w. Qed.
#[global] Instance Forward_now {E} : Forward (E:=E) now.
Proof. by intros w. Qed.
#[global] Instance Forward_getrandom {E} : Forward (E:=E) getrandom.
Proof. by intros w. Qed.

#[global] Instance Forward_bind {E A B} (m : M E A) (k : A → M E B) :
  Forward m → (∀ a, Forward (k a)) → Forward (m ≫= k).
Proof.
  intros Hm Hk w. specialize (Hm w). unfold mbind, M_bind.
  destruct (m w) as [[a|e] w1]; [|done]. etrans; [done|]. apply Hk.
Qed.

#[global] Instance Forward_map_error {E F A} (f : E → F) (m : M E A) :
  Forward m → Forward (map_error f m).
Proof. intros Hm w. specialize (Hm w). unfold map_error. by destruct (m w). Qed.

Lemma Forward_stmt {A} (f : Database → option (A * Database)) :
  (∀ d a d', f d = Some (a, d') → seq_le d d') → Forward (stmt f).
Proof.
  intros Hf w. unfold stmt.
  destruct (f (db w)) as [[a d]|] eqn:E.
  - apply Hf in E. destruct (outcome w); simpl; try apply later_tick;
      (etrans; [apply later_tick|by apply later_set_db]).
  - destruct (outcome w); apply later_tick.
Qed.

#[global] Instance Forward_query {A} (f : Database → A) : Forward (query f).
Proof. apply Forward_stmt. intros d a d' [= _ <-]. done. Qed.

Lemma seq_le_rollback d d' : seq_le d d' → seq_le d (rollback d d').
Proof. done. Qed.

#[global] Instance Forward_transaction {E A} (e : E) (body : M E A) :
  Forward body → Forward (in_transaction e body).
Proof.
  intros Hb w. unfold in_transaction. destruct (outcome w); [|apply later_tick..].
  assert (later w (snd (body (tick w)))) as Hl by (etrans; [apply later_tick|apply Hb]).
  destruct (body (tick w)) as [[a|e'] w1]; simpl in *.
  - destruct (outcome w1); simpl.
    + etrans; [exact Hl|apply later_tick].
    + destruct Hl as (?&?&?). split_and!; [done| |done]. etrans; [apply later_tick|done].
    + etrans; [exact Hl|apply later_tick].
  - by destruct Hl as (?&?&?).
Qed.

#[global] Instance Forward_for_each {E A B} (f : A → M E B) l :
  (∀ x, Forward (f x)) → Forward (for_each f l).
Proof. intros Hf. induction l; simpl; apply _. Qed.

(** A failed transaction left every table as it was, when no reply was lost. *)
Lemma transaction_err_unchanged {E A} (e e' : E) (body : M E A) w w' :
  Forward body → Lost ∉ outcomes w →
  in_transaction e body w = (Err e', w') → same_tables (db w) (db w').
Proof.
  intros Hb Hl [?|(a & w1 & Hbody & Ho & _)]%in_transaction_err; [done|]. exfalso. apply Hl.
  pose proof (Hb (tick w)) as (_ & Hs & _). rewrite Hbody in Hs. simpl in Hs.
  assert (outcomes w1 `suffix_of` outcomes w) as [k ->]
    by (etrans; [exact Hs|apply (later_tick w)]).
  unfold outcome in Ho. destruct (outcomes w1) as [|o os]; [done|]. simpl in Ho. subst o.
  apply elem_of_app; right. by left.
Qed.

(** What holds of every committed state is kept by a transaction, however it
    ends: rolling back keeps it, and so does the body when it succeeds. *)
Lemma transaction_preserves {E A} (I : Database → Prop) (e : E) (body : M E A) w :
  Forward body →
  (∀ d d', I d → seq_le d d' → I (rollback d d')) →
  (∀ a w1, body (tick w) = (Ok a, w1) → I (db w1)) →
  I (db w) → I (db (snd (in_transaction e body w))).
Proof.
  intros Hb Hroll Hok HI. unfold in_transaction. destruct (outcome w); [|done..].
  pose proof (Hb (tick w)) as (Hseq & _).
  destruct (body (tick w)) as [[a|e'] w1]; simpl in *; [|by apply Hroll].
  specialize (Hok a w1 eq_refl).
  by destruct (outcome w1); simpl; [|apply Hroll|].
Qed.

(** Runs that changed nothing but the schedule and the locks held. *)
Definition read_only (w w' : World) : Prop :=
  db w' = db w ∧ entropy w' = entropy w ∧ clock w' = clock w ∧ metrics w' = metrics w.

#[global] Instance read_only_preorder : PreOrder read_only.
Proof. unfold read_only. split; repeat intro; intuition congruence. Qed.

(** ** Quiet worlds: every remaining statement runs *)

Definition quiet (w : World) : Prop := Forall (eq Done) (outcomes w).

Lemma quiet_outcome w : quiet w → outcome w = Done.
Proof. unfold quiet, outcome. by destruct 1. Qed.

Lemma quiet_tick w : quiet w → quiet (tick w).
Proof. unfold quiet, tick. simpl. by destruct 1. Qed.

Lemma quiet_set_db d w : quiet w → quiet (set_db d w).
Proof. done. Qed.

#[global] Hint Resolve quiet_outcome quiet_tick quiet_set_db : sovereign.

Lemma stmt_quiet {A} (f : Database → option (A * Database)) w :
  quiet w →
  stmt f w = match f (db w) with
             | Some (a, d) => (Ok a, set_db d (tick w))
             | None => (Err sql_error, tick w)
             end.
Proof. intros Hq. unfold stmt. rewrite quiet_outcome by done. by destruct (f (db w)) as [[]|]. Qed.

Lemma query_quiet {A} (f : Database → A) w : quiet w → query f w = (Ok (f (db w)), tick w).
Proof. intros Hq. unfold query. rewrite stmt_quiet by done. by destruct w. Qed.

(** ** The path constraint is the grammar of the operation parser *)

Lemma path_check_from_spec started s :
  path_check_from started s = true ↔
  Forall (λ c, segment_byte c = true) (default [] (head (split "/"%char s)))
  ∧ (started = true ∨ default [] (head (split "/"%char s)) ≠ [])
  ∧ Forall Path.Segment (tail (split "/"%char s)).
Proof.
  revert started. induction s as [|c s IH]; intros started; simpl.
  { split; [by intros ->; auto|]. intros (_ & [?|[]] & _); done. }
  case_bool_decide as E.
  - subst c. rewrite andb_true_iff, IH. simpl. destruct (split "/"%char s) as [|h t] eqn:Es.
    { by apply split_not_nil in Es. }
    simpl. rewrite Forall_cons. unfold Path.Segment at 2. naive_solver.
  - destruct (decide (c = "/"%char)) as [|_]; [done|]. rewrite andb_true_iff, IH.
    destruct (split "/"%char s) as [|h t] eqn:Es; [by apply split_not_nil in Es|]. simpl.
    rewrite Forall_cons. naive_solver.
Qed.

Lemma path_check_spec s : path_check s = true ↔ Path.parse_operation s = Ok (mkPath s).
Proof.
  rewrite Path.parse_operation_spec. unfold path_check. destruct s as [|c s].
  { split; [done|]. intros (_ & segs & _ & _ & E). done. }
  rewrite andb_true_iff, bool_decide_eq_true, path_check_from_spec. split.
  - intros (-> & Hh & [?|Hne] & Ht); [done|]. split; [done|].
    destruct (split "/"%char s) as [|h t] eqn:Es; [by apply split_not_nil in Es|].
    exists (h :: t). split; [done|]. split; [by repeat constructor|].
    unfold Path.render. by rewrite <- Es, (join_split "/"%char).
  - intros (_ & segs & Hne & Hs & E). unfold Path.render in E. simplify_eq/=.
    split; [done|]. rewrite Path.split_relative by done.
    destruct segs as [|h t]; [done|]. apply Forall_cons in Hs as [[? ?] ?]. simpl. auto.
Qed.
