(* ===== verification/AuditTrail.v ===== *)
(** * Recording the audit trail

    Models the effectful half of the trail: the statements of
    [crates/sovereign-config-server/src/audit/store.rs] that write
    [audit_events], with the constraints of migrations 0010, 0012 and 0013, and the
    recorder of [audit/mod.rs], whose three entry points differ only in what a
    failure does to the caller. *)

From stdpp Require Import strings.
From S2P Require Import Prelude Bytes ConfigPath Core Encryption AuditEvent Rpc Database.

Local Open Scope bytes_scope.

Module Trail.

(** ** store.rs *)

Record EventRow := mkEventRow {
  er_kind : bytes; er_display_path : bytes; er_counterpart : option bytes;
  er_old : option bytes; er_new : option bytes; er_narrative : bytes; er_digest : option bytes }.

Definition storable (text : bytes) : bytes :=
  if contains_byte "000"%char text then List.filter (λ c, negb (bool_decide (c = "000"%char))) text
  else text.

Definition opt_check {A} (f : A → bool) (o : option A) : bool :=
  match o with Some a => f a | None => true end.

Definition is_hex (c : ascii) : bool := is_ascii_digit c || ((97 <=? code c) && (code c <=? 102))%Z.
Definition label_char (c : ascii) : bool := is_ascii_lowercase c || is_ascii_digit c.

Definition single_value_kinds : list bytes :=
  ["value.created"; "value.updated"; "value.deleted"].

(** Every CHECK and NOT NULL of the table, and what a [TEXT] can hold. *)
Definition audit_check (r : AuditRow) : bool :=
  (1 <=? a_event_count r)%Z
  && existsb (λ k, bool_decide (a_kind r = Kind.as_str k)) Kind.ALL
  && (bool_decide (a_display_path r = "/") || path_check (a_display_path r))
  && negb (is_empty (a_subject r)) && text_ok (a_subject r)
  && opt_check (λ n, negb (is_empty n) && text_ok n) (a_name r)
  && forallb label_char (a_protocol r)
  && ((1 <=? length (a_protocol r)) && (length (a_protocol r) <=? 32))%nat
  && opt_check text_ok (a_old r) && opt_check text_ok (a_new r)
  && negb (is_empty (a_narrative r)) && text_ok (a_narrative r)
  && opt_check (λ d, forallb is_hex d && (length d =? 64)%nat) (a_digest r)
  && (a_first_occurred_at r <=? a_occurred_at r)%Z
  && (negb (bool_decide (a_digest r = None)) || (a_event_count r =? 1)%Z)
  && (existsb (λ k, bool_decide (a_kind r = k)) single_value_kinds
      || (bool_decide (a_old r = None) && bool_decide (a_new r = None)))
  && opt_check path_check (a_counterpart r)
  && (bool_decide (a_counterpart r = None) || bool_decide (a_kind r = "value.path_added"))
  && opt_check text_ok (a_recorded_name r) && opt_check text_ok (a_recorded_narrative r)
  && (negb (bool_decide (a_recorded_narrative r = None)) || bool_decide (a_recorded_name r = None)).

(** The row [INSERT … SELECT] proposes for one event. *)
Definition proposed (actor : Actor) (at_ : Z) (id : Z) (row : EventRow) : AuditRow :=
  mkAuditRow id (timestamptz at_) (timestamptz at_) 1 (er_kind row) (er_display_path row)
    (er_counterpart row) (storable (actor_subject actor)) (storable <$> actor_name actor)
    (actor_protocol actor) (er_old row) (er_new row) (storable (er_narrative row)) (er_digest row) None None.

(** [DO UPDATE SET …] of the window a proposed row conflicts with. *)
Definition bump (excluded r : AuditRow) : AuditRow :=
  mkAuditRow (a_id r) (Z.max (a_occurred_at r) (a_occurred_at excluded)) (a_first_occurred_at r)
    (a_event_count r + 1) (a_kind r) (a_display_path excluded) (a_counterpart r) (a_subject r)
    (match a_name excluded with Some n => Some n | None => a_name r end)
    (a_protocol r) (a_old r) (a_new r) (a_narrative excluded) (a_digest r)
    (a_recorded_name r) (a_recorded_narrative r).

Definition has_digest (d : bytes) (r : AuditRow) : bool := bool_decide (a_digest r = Some d).

(** [event_count] is an [INTEGER]. *)
Definition bump_ok (excluded r : AuditRow) : bool :=
  (a_event_count r <? Stamps.i32_max)%Z && audit_check (bump excluded r).

(** One proposed row: the new table, or [None] when a constraint refuses it.
    [touched] are the windows this statement already inserted or bumped, which
    [ON CONFLICT DO UPDATE] refuses to affect a second time. *)
Definition upsert (touched : list bytes) (e : AuditRow) (table : list AuditRow)
  : option (list AuditRow) :=
  if negb (audit_check e) then None
  else match a_digest e with
       | Some d =>
           if existsb (has_digest d) table then
             if bool_decide (d ∈ touched) || negb (forallb (λ r, negb (has_digest d r) || bump_ok e r) table)
             then None
             else Some (List.map (λ r, if has_digest d r then bump e r else r) table)
           else Some (table ++ [e])
       | None => Some (table ++ [e])
       end.

Fixpoint upsert_all (actor : Actor) (at_ : Z) (touched : list bytes) (rows : list EventRow)
  (table : list AuditRow) (seq : Z) : option (list AuditRow * Z) :=
  match rows with
  | [] => Some (table, seq)
  | row :: rows' =>
      if (Stamps.i64_max <=? seq)%Z then None
      else match upsert touched (proposed actor at_ (seq + 1) row) table with
           | None => None
           | Some table' =>
               upsert_all actor at_ (option_list (er_digest row) ++ touched) rows' table' (seq + 1)
           end
  end.

Definition insert_events (actor : Actor) (at_ : Z) (rows : list EventRow) : M SqlError unit :=
  if is_empty rows then mret ()
  else stmt (λ d, match upsert_all actor at_ [] rows (audit d) (audit_seq d) with
                  | Some (table, seq) => Some (tt, set_audit table seq d)
                  | None => None
                  end).

(** [DELETE FROM audit_events WHERE occurred_at < $1], counting rows. *)
Definition delete_before (cutoff : Z) : M SqlError Z :=
  stmt (λ d, let expired r := (a_occurred_at r <? timestamptz cutoff)%Z in
             Some (Z.of_nat (length (List.filter expired (audit d))),
                   set_audit (List.filter (λ r, negb (expired r)) (audit d)) (audit_seq d) d)).

(** ** mod.rs: the recorder *)

Definition BULK_EVENT_CAP : nat := 1000.

Inductive AuditWriteOutcome := WriteRecorded | WriteFailed.
#[global] Instance AuditWriteOutcome_eq_dec : EqDecision AuditWriteOutcome.
Proof. solve_decision. Defined.

Definition outcome_index (o : AuditWriteOutcome) : nat :=
  match o with WriteRecorded => 0 | WriteFailed => 1 end.

Definition wrap64 (n : Z) : Z := (n mod 2 ^ 64)%Z.

Definition counter (m : AuditMetrics) (k : EventKind) (o : AuditWriteOutcome) : Z :=
  default 0%Z (m_writes m !! (Kind.index k, outcome_index o)).

Definition record_write (k : EventKind) (o : AuditWriteOutcome) (m : AuditMetrics) : AuditMetrics :=
  mkMetrics (<[(Kind.index k, outcome_index o) := wrap64 (counter m k o + 1)]> (m_writes m))
    (m_swept m) (m_sweep_failures m).

Definition record_swept (rows : Z) (m : AuditMetrics) : AuditMetrics :=
  mkMetrics (m_writes m) (wrap64 (m_swept m + rows)) (m_sweep_failures m).

Definition record_sweep_failure (m : AuditMetrics) : AuditMetrics :=
  mkMetrics (m_writes m) (m_swept m) (wrap64 (m_sweep_failures m + 1)).

(** [Duration] in seconds, a [u64]. *)
Record AuditRecorder := mkRecorder { coalesce_window : Z }.

Definition hex_digit (n : Z) : ascii :=
  if (n <? 10)%Z then digit_byte n else ascii_of_N (Z.to_N (87 + n)).

Definition hex_byte (c : ascii) : bytes := [hex_digit (code c / 16); hex_digit (code c mod 16)].

Definition window_seconds (window : Z) : Z :=
  Z.max (if (window <=? Stamps.i64_max)%Z then window else Stamps.i64_max) 1.

(** The digest's input; [div_euclid] by a positive divisor rounds down. *)
Definition coalesce_input (kind : EventKind) (actor : Actor) (path : bytes) (at_ window : Z) : bytes :=
  let bucket := (Rpc.unix_timestamp at_ / window_seconds window)%Z in
  Kind.as_str kind ++ "|" ++ actor_protocol actor ++ "|" ++ show_Z bucket ++ "|"
  ++ to_ascii_lowercase path ++ "|" ++ actor_subject actor.

Section recorder.
Context `{Crypto}.

Definition coalesce_digest (kind : EventKind) (actor : Actor) (path : bytes) (at_ window : Z)
  : bytes :=
  flat_map hex_byte (sha256 (coalesce_input kind actor path at_ window)).

Definition rows (self : AuditRecorder) (actor : Actor) (at_ : Z) (events : list AuditEvent)
  : list EventRow :=
  List.map (λ event,
    mkEventRow (Kind.as_str (ev_kind event)) (ev_path event) (ev_counterpart event)
      (ev_old event) (ev_new event) (ev_narrative event)
      (if Kind.coalesces (ev_kind event)
       then Some (coalesce_digest (ev_kind event) actor (ev_path event) at_ (coalesce_window self))
       else None)) events.

(** Counts every event, then reports the bounded status. *)
Definition settle {A} (events : list AuditEvent) (m : M SqlError A) : M Status A := λ w,
  let '(r, w1) := m w in
  let o := match r with Ok _ => WriteRecorded | Err _ => WriteFailed end in
  let w2 := set_metrics
              (foldl (λ acc event, record_write (ev_kind event) o acc) (metrics w1) events) w1 in
  (map_err r (λ _, Rpc.storage_unavailable), w2).

(** Inside the caller's transaction. *)
Definition record_in (self : AuditRecorder) (actor : Actor) (at_ : Z) (events : list AuditEvent)
  : M Status unit :=
  settle events (insert_events actor at_ (rows self actor at_ events)).

(** On its own; the caller fails when this does. *)
Definition record (self : AuditRecorder) (actor : Actor) (at_ : Z) (event : AuditEvent)
  : M Status unit :=
  settle [event] (insert_events actor at_ (rows self actor at_ [event])).

(** On its own; the caller carries on either way. *)
Definition record_best_effort (self : AuditRecorder) (actor : Actor) (at_ : Z) (event : AuditEvent)
  : M Status unit := λ w, (Ok tt, snd (record self actor at_ event w)).

Definition sweep_expired (cutoff : Z) : M SqlError Z := λ w,
  match delete_before cutoff w with
  | (Ok swept, w') => (Ok swept, set_metrics (record_swept swept (metrics w')) w')
  | (Err e, w') => (Err e, set_metrics (record_sweep_failure (metrics w')) w')
  end.
End recorder.

(** ** Lemmas: what a write does to the table *)

Definition digests (table : list AuditRow) : list bytes := omap a_digest table.

(** How many events a table stands for. *)
Definition total (table : list AuditRow) : Z := foldr (λ r n, (a_event_count r + n)%Z) 0%Z table.

(** What the table's constraints keep true: every CHECK, the primary key and
    the unique digest, with identities below the sequence. *)
Definition table_wf (table : list AuditRow) (seq : Z) : Prop :=
  Forall (λ r, audit_check r = true) table
  ∧ NoDup (digests table)
  ∧ NoDup (List.map a_id table)
  ∧ Forall (λ r, (a_id r ≤ seq)%Z) table.

Lemma total_app t1 t2 : total (t1 ++ t2) = (total t1 + total t2)%Z.
Proof. induction t1 as [|r t1 IH]; simpl; [done|]. rewrite IH. lia. Qed.

Lemma digests_app t1 t2 : digests (t1 ++ t2) = digests t1 ++ digests t2.
Proof. apply omap_app. Qed.

Lemma digests_map (f : AuditRow → AuditRow) t :
  (∀ r, a_digest (f r) = a_digest r) → digests (List.map f t) = digests t.
Proof. intros Hf. induction t as [|r t IH]; simpl; [done|]. by rewrite Hf, IH. Qed.

Lemma existsb_has_digest d t : existsb (has_digest d) t = true ↔ d ∈ digests t.
Proof.
  rewrite existsb_elem_of. unfold digests. rewrite list_elem_of_omap.
  unfold has_digest. setoid_rewrite bool_decide_eq_true. done.
Qed.

Definition bump_in (d : bytes) (e : AuditRow) (t : list AuditRow) : list AuditRow :=
  List.map (λ r, if has_digest d r then bump e r else r) t.

Lemma bump_in_digests d e t : digests (bump_in d e t) = digests t.
Proof. apply digests_map. intros r. by destruct (has_digest d r). Qed.

Lemma bump_in_ids d e t : List.map a_id (bump_in d e t) = List.map a_id t.
Proof.
  unfold bump_in. rewrite List.map_map. apply List.map_ext. intros r.
  by destruct (has_digest d r).
Qed.

Lemma bump_in_absent d e t : d ∉ digests t → bump_in d e t = t.
Proof.
  intros Hd. rewrite <- existsb_has_digest, not_true_iff_false, existsb_false in Hd.
  rewrite <- (List.map_id t) at 2. apply List.map_ext_in. intros r Hr.
  by rewrite Hd by by apply list_elem_of_In.
Qed.

Lemma bump_in_total d e t :
  NoDup (digests t) → d ∈ digests t → total (bump_in d e t) = (total t + 1)%Z.
Proof.
  induction t as [|r t IH]; simpl; [by intros _ ?%not_elem_of_nil|].
  unfold has_digest at 1. destruct (a_digest r) as [d'|] eqn:E; simpl.
  - intros [Hn Hnd]%NoDup_cons. rewrite elem_of_cons. case_bool_decide; simplify_eq.
    + intros _. fold (bump_in d e t). rewrite bump_in_absent by done. simpl. lia.
    + intros [?|?]; [congruence|]. fold (bump_in d e t). rewrite IH by done. lia.
  - intros Hnd Hd. fold (bump_in d e t). rewrite IH by done. lia.
Qed.

Lemma upsert_spec touched e t t' :
  upsert touched e t = Some t' →
  audit_check e = true
  ∧ match a_digest e with
    | Some d => if decide (d ∈ digests t)
                then t' = bump_in d e t ∧ d ∉ touched
                     ∧ Forall (λ r, has_digest d r = true → bump_ok e r = true) t
                else t' = t ++ [e]
    | None => t' = t ++ [e]
    end.
Proof.
  unfold upsert. destruct (audit_check e); [|done]. simpl. intros H. split; [done|].
  destruct (a_digest e) as [d|]; [|by simplify_eq].
  destruct (existsb (has_digest d) t) eqn:Ed.
  - apply existsb_has_digest in Ed. rewrite decide_True by done.
    destruct (_ || _) eqn:Eb in H; [done|]. simplify_eq. bool_prop.
    split; [done|]. split; [done|].
    match goal with H : forallb _ _ = true |- _ => apply forallb_Forall in H as Hf end.
    eapply Forall_impl; [exact Hf|]. simpl. intros r [Hr|Hr]%orb_true_iff; [|done].
    apply negb_true_iff in Hr. congruence.
  - rewrite decide_False by (by rewrite <- existsb_has_digest, Ed). by simplify_eq.
Qed.

Lemma table_wf_snoc t e seq :
  table_wf t seq → audit_check e = true → a_id e = (seq + 1)%Z →
  (∀ d, a_digest e = Some d → d ∉ digests t) → table_wf (t ++ [e]) (seq + 1).
Proof.
  intros (Hc & Hd & Hi & Hs) Hce He Hfresh. split; [by apply Forall_app; auto|].
  rewrite digests_app, List.map_app. unfold digests at 2. simpl. split; [|split].
  - destruct (a_digest e) as [d|]; [|by rewrite app_nil_r].
    apply NoDup_app. split; [done|]. split; [|apply NoDup_singleton].
    intros x Hx ->%list_elem_of_singleton. by eapply Hfresh.
  - apply NoDup_app. split; [done|]. split; [|apply NoDup_singleton].
    intros x Hx ->%list_elem_of_singleton. rewrite He in Hx.
    apply list_elem_of_In, in_map_iff in Hx as (r & Hr & Hin).
    rewrite Forall_forall in Hs. apply list_elem_of_In, Hs in Hin. lia.
  - apply Forall_app. split; [|repeat constructor; lia].
    eapply Forall_impl; [exact Hs|]. simpl. lia.
Qed.

Lemma table_wf_bump t e d seq :
  table_wf t seq → Forall (λ r, has_digest d r = true → bump_ok e r = true) t →
  table_wf (bump_in d e t) (seq + 1).
Proof.
  intros (Hc & Hd & Hi & Hs) Hb.
  split; [|by rewrite bump_in_digests, bump_in_ids; split_and!;
             try apply Forall_map_iff; try (eapply Forall_impl; [exact Hs|]; simpl; intros r ?;
             destruct (has_digest d r); simpl; lia)].
  apply Forall_map_iff. rewrite Forall_forall in *. intros r Hr.
  destruct (has_digest d r) eqn:E; [|by apply Hc].
  specialize (Hb r Hr E). unfold bump_ok in Hb. by bool_prop.
Qed.

Lemma upsert_wf touched e t t' seq :
  table_wf t seq → a_id e = (seq + 1)%Z → upsert touched e t = Some t' →
  table_wf t' (seq + 1).
Proof.
  intros Hw He (Hce & H)%upsert_spec. destruct (a_digest e) as [d|] eqn:E.
  - destruct (decide (d ∈ digests t)) as [Hin|Hin].
    + destruct H as (-> & _ & Hb). by apply table_wf_bump.
    + subst. apply table_wf_snoc; [done..|]. intros d'. congruence.
  - subst. apply table_wf_snoc; [done..|]. intros d'. congruence.
Qed.

Lemma upsert_total touched e t t' :
  NoDup (digests t) → a_event_count e = 1%Z → upsert touched e t = Some t' →
  total t' = (total t + 1)%Z.
Proof.
  intros Hd He (_ & H)%upsert_spec.
  destruct (a_digest e) as [d|]; [destruct (decide (d ∈ digests t))|].
  - destruct H as (-> & _). by apply bump_in_total.
  - subst. rewrite total_app. simpl. lia.
  - subst. rewrite total_app. simpl. lia.
Qed.

Lemma upsert_all_wf actor at_ rows : ∀ touched t seq t' seq',
  table_wf t seq → upsert_all actor at_ touched rows t seq = Some (t', seq') →
  table_wf t' seq' ∧ total t' = (total t + Z.of_nat (length rows))%Z.
Proof.
  induction rows as [|row rows IH]; intros touched t seq t' seq' Hw; cbn [upsert_all length].
  { intros [= <- <-]. split; [done|lia]. }
  destruct (_ <=? seq)%Z; [done|].
  destruct (upsert touched _ t) as [t1|] eqn:E; [|done]. intros H.
  assert (table_wf t1 (seq + 1)) as Hw1 by (eapply upsert_wf; [exact Hw| |exact E]; done).
  apply (IH _ _ _ _ _ Hw1) in H as [? ->]. split; [done|].
  assert (total t1 = (total t + 1)%Z) as -> by (eapply upsert_total; [apply Hw| |exact E]; done).
  lia.
Qed.

(** Rows that do not coalesce are appended, one each, in order. *)
Fixpoint proposed_all (actor : Actor) (at_ : Z) (seq : Z) (rows : list EventRow) : list AuditRow :=
  match rows with
  | [] => []
  | row :: rows' => proposed actor at_ (seq + 1) row :: proposed_all actor at_ (seq + 1) rows'
  end.

Lemma upsert_all_appends actor at_ rows : ∀ touched t seq t' seq',
  Forall (λ row, er_digest row = None) rows →
  upsert_all actor at_ touched rows t seq = Some (t', seq') →
  t' = t ++ proposed_all actor at_ seq rows ∧ seq' = (seq + Z.of_nat (length rows))%Z.
Proof.
  induction rows as [|row rows IH]; intros touched t seq t' seq' Hn; cbn [upsert_all length proposed_all].
  { intros [= <- <-]. rewrite app_nil_r. split; [done|lia]. }
  apply Forall_cons in Hn as [Hr Hn].
  destruct (_ <=? seq)%Z; [done|].
  destruct (upsert touched _ t) as [t1|] eqn:E; [|done]. intros H.
  apply upsert_spec in E as [_ E]. simpl a_digest in E. rewrite Hr in E. subst t1.
  apply (IH _ _ _ _ _ Hn) in H as [-> ->]. rewrite <- app_assoc. split; [done|lia].
Qed.

Lemma upsert_all_seq actor at_ rows : ∀ touched t seq t' seq',
  upsert_all actor at_ touched rows t seq = Some (t', seq') → (seq ≤ seq')%Z.
Proof.
  induction rows as [|row rows IH]; intros touched t seq t' seq'; cbn [upsert_all].
  { by intros [= _ <-]. }
  destruct (_ <=? seq)%Z; [done|]. destruct (upsert _ _ _); [|done]. intros ?%IH. lia.
Qed.

#[global] Instance Forward_insert_events actor at_ rows : Forward (insert_events actor at_ rows).
Proof.
  unfold insert_events. destruct (is_empty rows); [apply _|]. apply Forward_stmt.
  intros d a d'. destruct (upsert_all _ _ _ _ _ _) as [[t seq]|] eqn:E; [|done].
  intros [= _ <-]. apply upsert_all_seq in E. unfold seq_le. simpl. split_and!; [lia|done|done].
Qed.

#[global] Instance Forward_settle {A} events (m : M SqlError A) :
  Forward m → Forward (settle events m).
Proof. intros Hm w. specialize (Hm w). unfold settle. by destruct (m w). Qed.

#[global] Instance Forward_record_in `{Crypto} self actor at_ events :
  Forward (record_in self actor at_ events).
Proof. unfold record_in. apply _. Qed.

#[global] Instance Forward_record `{Crypto} self actor at_ event :
  Forward (record self actor at_ event).
Proof. unfold record. apply _. Qed.

#[global] Instance Forward_record_best_effort `{Crypto} self actor at_ event :
  Forward (record_best_effort self actor at_ event).
Proof. intros w. apply (Forward_record self actor at_ event w). Qed.

(** A write to the trail touches nothing else. *)
Definition audit_only (w w' : World) : Prop :=
  contents (db w') = contents (db w) ∧ paths (db w') = paths (db w)
  ∧ content_seq (db w') = content_seq (db w) ∧ entropy w' = entropy w
  ∧ clock w' = clock w ∧ locks w' = locks w.

#[global] Instance audit_only_refl : Reflexive audit_only.
Proof. done. Qed.

Lemma insert_events_only actor at_ rows w : audit_only w (snd (insert_events actor at_ rows w)).
Proof.
  unfold insert_events. destruct (is_empty rows); [done|].
  unfold stmt. destruct (upsert_all _ _ _ _ _ _) as [[t seq]|]; by destruct (outcome w).
Qed.

Lemma settle_world {A} events (m : M SqlError A) w :
  snd (settle events m w) =
  set_metrics (foldl (λ acc event,
    record_write (ev_kind event)
      (match fst (m w) with Ok _ => WriteRecorded | Err _ => WriteFailed end) acc)
    (metrics (snd (m w))) events) (snd (m w)).
Proof. unfold settle. by destruct (m w) as [r w1]. Qed.

Lemma settle_ok {A} events (m : M SqlError A) a w w' :
  settle events m w = (Ok a, w') →
  ∃ w1, m w = (Ok a, w1)
    ∧ w' = set_metrics (foldl (λ acc event, record_write (ev_kind event) WriteRecorded acc)
                          (metrics w1) events) w1.
Proof. unfold settle. destruct (m w) as [[b|[]] w1]; intros; simplify_eq/=; eauto. Qed.

Lemma settle_err {A} events (m : M SqlError A) e w w' :
  settle events m w = (Err e, w') → e = Rpc.storage_unavailable.
Proof. unfold settle. destruct (m w) as [[b|[]] w1]; intros; by simplify_eq/=. Qed.

Lemma insert_events_ok actor at_ rows w u w' :
  insert_events actor at_ rows w = (Ok u, w') →
  ∃ table seq,
    upsert_all actor at_ [] rows (audit (db w)) (audit_seq (db w)) = Some (table, seq)
    ∧ db w' = set_audit table seq (db w) ∧ audit_only w w'.
Proof.
  intros H. assert (audit_only w w') as Ho
    by (pose proof (insert_events_only actor at_ rows w); by rewrite H in *).
  unfold insert_events in H. destruct rows as [|row rows]; cbn [is_empty] in H.
  - run_steps. do 2 eexists. split; [done|]. split; [by destruct (db w)|done].
  - run_steps. destruct (upsert_all _ _ _ _ _ _) as [[t seq]|]; simplify_eq.
    do 2 eexists. done.
Qed.

Section recording.
Context `{Crypto}.

Lemma record_in_only self actor at_ events w :
  audit_only w (snd (record_in self actor at_ events w)).
Proof.
  unfold record_in. rewrite settle_world.
  apply (insert_events_only actor at_ (rows self actor at_ events) w).
Qed.

Lemma record_in_ok self actor at_ events w u w' :
  record_in self actor at_ events w = (Ok u, w') →
  ∃ table seq,
    upsert_all actor at_ [] (rows self actor at_ events) (audit (db w)) (audit_seq (db w))
      = Some (table, seq)
    ∧ db w' = set_audit table seq (db w) ∧ audit_only w w'.
Proof.
  intros (w1 & H1 & ->)%settle_ok. by apply insert_events_ok in H1.
Qed.

Lemma record_best_effort_only self actor at_ event w :
  audit_only w (snd (record_best_effort self actor at_ event w)).
Proof. apply (record_in_only self actor at_ [event] w). Qed.

(** A database that answers and accepts the rows records them. *)
Lemma insert_events_quiet actor at_ rows w table seq :
  quiet w → upsert_all actor at_ [] rows (audit (db w)) (audit_seq (db w)) = Some (table, seq) →
  fst (insert_events actor at_ rows w) = Ok tt.
Proof.
  intros Hq Hu. unfold insert_events. destruct (is_empty rows); [done|].
  rewrite stmt_quiet by done. by rewrite Hu.
Qed.

Lemma record_in_quiet self actor at_ events w table seq :
  quiet w →
  upsert_all actor at_ [] (rows self actor at_ events) (audit (db w)) (audit_seq (db w))
    = Some (table, seq) →
  fst (record_in self actor at_ events w) = Ok tt.
Proof.
  intros Hq Hu. pose proof (insert_events_quiet _ _ _ _ _ _ Hq Hu) as Hi.
  unfold record_in, settle. destruct (insert_events _ _ _ w) as [r w1]. simpl in *. by rewrite Hi.
Qed.

Lemma rows_digest_none self actor at_ events :
  Forall (λ e, Kind.coalesces (ev_kind e) = false) events →
  Forall (λ row, er_digest row = None) (rows self actor at_ events).
Proof.
  intros He. apply Forall_map_iff. eapply Forall_impl; [exact He|]. simpl. by intros e ->.
Qed.

Lemma length_rows self actor at_ events : length (rows self actor at_ events) = length events.
Proof. apply length_map. Qed.
End recording.

Lemma counter_record_write k o m k' o' :
  counter (record_write k o m) k' o' =
  if decide (k = k' ∧ o = o') then wrap64 (counter m k o + 1) else counter m k' o'.
Proof.
  unfold counter at 1, record_write. simpl. destruct (decide (k = k' ∧ o = o')) as [[-> ->]|Hne].
  - by rewrite lookup_insert_eq.
  - rewrite lookup_insert_ne; [done|]. intros [= Hk Ho]. apply Hne.
    split; [by destruct k, k'|by destruct o, o'].
Qed.

(** *** One window, one digest input *)

Lemma show_Z_inj n m :
  (Z.abs n < 10 ^ 20)%Z → (Z.abs m < 10 ^ 20)%Z → show_Z n = show_Z m → n = m.
Proof.
  intros Hn Hm. unfold show_Z.
  assert (∀ k acc, (0 ≤ k)%Z → "-"%char ∉ acc → "-" ++ acc ≠ decimal_digits 20 k []) as Hneg.
  { intros k acc Hk _ E.
    pose proof (Cipher.decimal_digits_digits 20 k [] Hk (Forall_nil_2 _)) as Hd.
    rewrite <- E in Hd. by apply Forall_cons in Hd as [? _]. }
  assert (∀ k, (0 ≤ k)%Z → "-"%char ∉ decimal_digits 20 k []) as Hfree.
  { intros k Hk Hin.
    pose proof (Cipher.decimal_digits_digits 20 k [] Hk (Forall_nil_2 _)) as Hd.
    rewrite Forall_forall in Hd. by apply Hd in Hin. }
  destruct (Z.ltb_spec n 0), (Z.ltb_spec m 0); intros E.
  - apply app_inv_head, Cipher.decimal_digits_inj in E; change (Z.of_nat 20) with 20%Z; lia.
  - apply Hneg in E; [done|lia|apply Hfree; lia].
  - symmetry in E. apply Hneg in E; [done|lia|apply Hfree; lia].
  - apply Cipher.decimal_digits_inj in E; change (Z.of_nat 20) with 20%Z; lia.
Qed.

Lemma bar_inj (a b s t : bytes) :
  "|"%char ∉ a → "|"%char ∉ b → a ++ "|" ++ s = b ++ "|" ++ t → a = b ∧ s = t.
Proof.
  intros Ha Hb E.
  assert (split_once "|"%char (a ++ "|" ++ s) = Some (a, s)) as H1 by (by apply split_once_spec).
  assert (split_once "|"%char (b ++ "|" ++ t) = Some (b, t)) as H2 by (by apply split_once_spec).
  rewrite E, H2 in H1. by simplify_eq.
Qed.

Lemma show_Z_bar_free n : "|"%char ∉ show_Z n.
Proof.
  intros Hin. unfold show_Z in Hin.
  assert (∀ k, (0 ≤ k)%Z → "|"%char ∉ decimal_digits 20 k []) as Hfree.
  { intros k Hk Hk'.
    pose proof (Cipher.decimal_digits_digits 20 k [] Hk (Forall_nil_2 _)) as Hd.
    rewrite Forall_forall in Hd. by apply Hd in Hk'. }
  destruct (Z.ltb_spec n 0).
  - apply elem_of_app in Hin as [Hin|Hin]; [|by apply Hfree in Hin; [|lia]].
    by apply list_elem_of_singleton in Hin.
  - by apply Hfree in Hin.
Qed.

Lemma label_bar_free s : forallb label_char s = true → "|"%char ∉ s.
Proof. rewrite forallb_Forall, Forall_forall. intros Hs Hin. by apply Hs in Hin. Qed.

Lemma canonical_bytes s :
  Path.Canonical s → Forall (λ c, c = "/"%char ∨ segment_byte c = true) s.
Proof.
  intros (segs & Hs & ->). unfold Path.render. constructor; [by left|].
  apply Protocol.join_forall; [by repeat constructor; left|].
  eapply Forall_impl; [exact Hs|]. intros x [_ Hx]. eapply Forall_impl; [exact Hx|]. auto.
Qed.

Lemma canonical_bar_free s : Path.Canonical s → "|"%char ∉ to_ascii_lowercase s.
Proof.
  intros Hc%Path.Canonical_lower%canonical_bytes Hin. rewrite Forall_forall in Hc.
  apply Hc in Hin as [?|?]; done.
Qed.

(** The bucket of a window an instant falls in. *)
Definition bucket (at_ window : Z) : Z := (Rpc.unix_timestamp at_ / window_seconds window)%Z.

(** The instants an [OffsetDateTime] can hold lie within ten thousand years. *)
Definition representable (at_ : Z) : Prop := (Z.abs at_ < 10 ^ 21)%Z.

Lemma div_abs_le a b n : (1 ≤ b)%Z → (Z.abs a ≤ n)%Z → (Z.abs (a / b) ≤ n)%Z.
Proof.
  intros Hb Ha%Z.abs_le. apply Z.abs_le. split.
  - apply Z.div_le_lower_bound; nia.
  - apply Z.div_le_upper_bound; nia.
Qed.

Lemma bucket_bound at_ window : representable at_ → (Z.abs (bucket at_ window) < 10 ^ 20)%Z.
Proof.
  unfold representable, bucket, window_seconds, Rpc.unix_timestamp, Stamps.NANOS. intros Ha.
  apply Z.le_lt_trans with (10 ^ 13)%Z; [|done]. apply div_abs_le; [lia|].
  apply Z.abs_lt in Ha. apply Z.abs_le. split.
  - apply Z.div_le_lower_bound; lia.
  - apply Z.div_le_upper_bound; lia.
Qed.

Lemma coalesce_input_inj k1 k2 a1 a2 p1 p2 t1 t2 window :
  forallb label_char (actor_protocol a1) = true → forallb label_char (actor_protocol a2) = true →
  Path.Canonical p1 → Path.Canonical p2 → representable t1 → representable t2 →
  coalesce_input k1 a1 p1 t1 window = coalesce_input k2 a2 p2 t2 window →
  k1 = k2 ∧ actor_protocol a1 = actor_protocol a2 ∧ bucket t1 window = bucket t2 window
  ∧ to_ascii_lowercase p1 = to_ascii_lowercase p2 ∧ actor_subject a1 = actor_subject a2.
Proof.
  intros Hl1 Hl2 Hp1 Hp2 Ht1 Ht2. unfold coalesce_input.
  change (Rpc.unix_timestamp t1 / window_seconds window)%Z with (bucket t1 window).
  change (Rpc.unix_timestamp t2 / window_seconds window)%Z with (bucket t2 window).
  intros E. apply bar_inj in E as [Ek E]; [|apply Kind.as_str_bar_free..].
  apply bar_inj in E as [Ev E]; [|by apply label_bar_free..].
  apply bar_inj in E as [Eb E]; [|apply show_Z_bar_free..].
  apply bar_inj in E as [Ep Es]; [|by apply canonical_bar_free..].
  split; [by apply Kind.as_str_inj|]. split; [done|]. split; [|done].
  apply show_Z_inj in Eb; [done|by apply bucket_bound..].
Qed.

(** *** Correctness of the recorder *)

(** Recording a batch of events accounts for every one of them: the table
    keeps its constraints, the events it stands for grow by exactly the batch,
    a batch of changes is appended one row per event in order, and nothing but
    the trail is touched. *)
Theorem recording_accounts_for_every_event `{Crypto} (self : AuditRecorder) (actor : Actor)
    (at_ : Z) (events : list AuditEvent) (w w' : World) :
  table_wf (audit (db w)) (audit_seq (db w)) →
  record_in self actor at_ events w = (Ok tt, w') →
  table_wf (audit (db w')) (audit_seq (db w'))
  ∧ total (audit (db w')) = (total (audit (db w)) + Z.of_nat (length events))%Z
  ∧ (Forall (λ e, Kind.coalesces (ev_kind e) = false) events →
     audit (db w') = audit (db w) ++ proposed_all actor at_ (audit_seq (db w))
                                       (rows self actor at_ events))
  ∧ audit_only w w'.
Proof.
  intros Hw (table & seq & Hu & Hd & Ho)%record_in_ok. rewrite Hd. simpl.
  destruct (upsert_all_wf _ _ _ _ _ _ _ _ Hw Hu) as [Hw' Ht].
  rewrite length_rows in Ht. split; [done|]. split; [done|]. split; [|done].
  intros He. eapply upsert_all_appends in Hu as [-> _]; [done|]. by apply rows_digest_none.
Qed.

(** Two accesses share a window's row exactly when they agree on the kind,
    the protocol version, the window, the path up to letter case and the
    identity: the digest is taken of a text that determines all five. *)
Theorem coalescing_key_is_exact `{Crypto} (k1 k2 : EventKind) (a1 a2 : Actor) (p1 p2 : bytes)
    (t1 t2 window : Z) :
  forallb label_char (actor_protocol a1) = true → forallb label_char (actor_protocol a2) = true →
  Path.Canonical p1 → Path.Canonical p2 → representable t1 → representable t2 →
  (coalesce_input k1 a1 p1 t1 window = coalesce_input k2 a2 p2 t2 window ↔
     k1 = k2 ∧ actor_protocol a1 = actor_protocol a2 ∧ bucket t1 window = bucket t2 window
     ∧ to_ascii_lowercase p1 = to_ascii_lowercase p2 ∧ actor_subject a1 = actor_subject a2)
  ∧ (coalesce_input k1 a1 p1 t1 window = coalesce_input k2 a2 p2 t2 window →
     coalesce_digest k1 a1 p1 t1 window = coalesce_digest k2 a2 p2 t2 window).
Proof.
  intros. split; [|unfold coalesce_digest; by intros ->]. split; [by apply coalesce_input_inj|].
  intros (-> & Hv & Hb & Hp & Hs). unfold coalesce_input. unfold bucket in Hb.
  by rewrite Hv, Hb, Hp, Hs.
Qed.

(** A sample actor and world. *)
Definition example_actor : Actor := mkActor "user-1" (Some "ada") "v5".
Definition empty_db : Database := mkDatabase ∅ ∅ 0 [] 0.
Definition example_world : World :=
  mkWorld empty_db [] [] 1700000000123456789 (mkMetrics ∅ 0 0) [].

Lemma table_wf_nil : table_wf [] 0.
Proof. split_and!; constructor. Qed.

Lemma recording_accounts_for_every_event_witness :
  let events := [Event.value_created example_actor "/Apps/Url" (RPlain "x")] in
  let run := record_in (mkRecorder 3600) example_actor 1700000000123456789 events example_world in
  fst run = Ok tt ∧ total (audit (db (snd run))) = 1%Z.
Proof.
  intros events run. split; [vm_compute; reflexivity|].
  refine (proj1 (proj2 (recording_accounts_for_every_event (mkRecorder 3600) example_actor
    1700000000123456789 events example_world (snd run) table_wf_nil _))).
  vm_compute; reflexivity.
Defined.

Lemma coalescing_key_is_exact_witness :
  let a := mkActor "user-1" None "v5" in
  coalesce_input SecretRevealed a "/a" 5000000000 60 = coalesce_input SecretRevealed a "/A" 9000000000 60
  ∧ coalesce_input SecretRevealed a "/a" 5000000000 60 ≠ coalesce_input SecretRevealed a "/a" 65000000000 60.
Proof.
  intros a. split.
  - apply (coalescing_key_is_exact SecretRevealed SecretRevealed a a "/a" "/A" 5000000000 9000000000 60);
      [reflexivity..|apply Path.canonical_check; reflexivity|apply Path.canonical_check; reflexivity
      |done|done|split_and!; reflexivity].
  - intros E.
    apply (coalescing_key_is_exact SecretRevealed SecretRevealed a a "/a" "/a" 5000000000 65000000000 60)
      in E as (_ & _ & Hb & _); [done|reflexivity..|apply Path.canonical_check; reflexivity
      |apply Path.canonical_check; reflexivity|done|done].
Defined.

(** A repeated access inside one window adds no row: the window's row is
    bumped, so the trail grows by one event and by no rows. *)
Theorem repeated_access_adds_no_row `{Crypto} (self : AuditRecorder) (a1 a2 : Actor)
    (t1 t2 : Z) (e1 e2 : AuditEvent) (w w1 w2 : World) :
  table_wf (audit (db w)) (audit_seq (db w)) →
  Kind.coalesces (ev_kind e1) = true → ev_kind e2 = ev_kind e1 →
  actor_subject a2 = actor_subject a1 → actor_protocol a2 = actor_protocol a1 →
  to_ascii_lowercase (ev_path e2) = to_ascii_lowercase (ev_path e1) →
  bucket t2 (coalesce_window self) = bucket t1 (coalesce_window self) →
  record self a1 t1 e1 w = (Ok tt, w1) → record self a2 t2 e2 w1 = (Ok tt, w2) →
  length (audit (db w2)) = length (audit (db w1))
  ∧ total (audit (db w2)) = (total (audit (db w1)) + 1)%Z
  ∧ digests (audit (db w2)) = digests (audit (db w1)).
Proof.
  intros Hw Hc Hk Hs Hv Hp Hb (tb1 & s1 & Hu1 & Hd1 & _)%(record_in_ok self a1 t1 [e1])
    (tb2 & s2 & Hu2 & Hd2 & _)%(record_in_ok self a2 t2 [e2]).
  rewrite Hd1 in Hu2. rewrite Hd2, Hd1. cbn [audit set_audit audit_seq] in *.
  destruct (upsert_all_wf _ _ _ _ _ _ _ _ Hw Hu1) as [Hw1 _].
  destruct (upsert_all_wf _ _ _ _ _ _ _ _ Hw1 Hu2) as [Hw2 Ht2].
  unfold rows in *. cbn [List.map upsert_all er_digest] in *. rewrite Hk in Hu2. rewrite Hc in *.
  set (d := coalesce_digest (ev_kind e1) a1 (ev_path e1) t1 (coalesce_window self)) in *.
  assert (coalesce_digest (ev_kind e1) a2 (ev_path e2) t2 (coalesce_window self) = d) as Ed.
  { unfold d, coalesce_digest, coalesce_input. unfold bucket in Hb. by rewrite Hs, Hv, Hp, Hb. }
  rewrite Ed in Hu2. clearbody d.
  destruct (_ <=? audit_seq (db w))%Z; [done|]. destruct (_ <=? s1)%Z; [done|].
  destruct (upsert [] _ (audit (db w))) as [x1|] eqn:H1; [|done]. injection Hu1 as -> <-.
  destruct (upsert [] _ tb1) as [x2|] eqn:H2; [|done]. injection Hu2 as -> <-.
  apply upsert_spec in H1 as [_ H1]. apply upsert_spec in H2 as [_ H2].
  cbn [a_digest proposed er_digest] in *.
  assert (d ∈ digests tb1) as Hin.
  { destruct (decide (d ∈ digests (audit (db w)))).
    - destruct H1 as (-> & _). by rewrite bump_in_digests.
    - subst. rewrite digests_app. apply elem_of_app. right. by left. }
  rewrite decide_True in H2 by done. destruct H2 as (-> & _).
  split; [by unfold bump_in; rewrite length_map|]. split; [done|]. apply bump_in_digests.
Qed.

Lemma repeated_access_adds_no_row_witness :
  let e := Event.secret_revealed example_actor "/a" in
  let e' := Event.secret_revealed example_actor "/A" in
  let run1 := record (mkRecorder 3600) example_actor 5000000000 e example_world in
  let run2 := record (mkRecorder 3600) example_actor 9000000000 e' (snd run1) in
  fst run2 = Ok tt ∧ length (audit (db (snd run2))) = length (audit (db (snd run1))).
Proof.
  intros e e' run1 run2. split; [vm_compute; reflexivity|].
  refine (proj1 (repeated_access_adds_no_row (mkRecorder 3600) example_actor example_actor
    5000000000 9000000000 e e' example_world (snd run1) (snd run2) table_wf_nil _ _ _ _ _ _ _ _));
    vm_compute; reflexivity.
Defined.

(** The retention sweep deletes exactly the events last seen before the
    cutoff, keeps every other row unchanged and in order, reports how many
    went and counts them. *)
Theorem sweep_deletes_exactly_the_expired (cutoff swept : Z) (w w' : World) :
  sweep_expired cutoff w = (Ok swept, w') →
  (∀ r, r ∈ audit (db w') ↔ r ∈ audit (db w) ∧ (timestamptz cutoff ≤ a_occurred_at r)%Z)
  ∧ audit (db w') `sublist_of` audit (db w)
  ∧ swept = (Z.of_nat (length (audit (db w))) - Z.of_nat (length (audit (db w'))))%Z
  ∧ m_swept (metrics w') = wrap64 (m_swept (metrics w) + swept)
  ∧ contents (db w') = contents (db w) ∧ paths (db w') = paths (db w).
Proof.
  unfold sweep_expired. destruct (delete_before cutoff w) as [[n|e] w1] eqn:E; [|done].
  intros [= <- <-]. unfold delete_before in E. run_steps. simplify_eq. simpl.
  set (f := λ r, (a_occurred_at r <? timestamptz cutoff)%Z).
  split; [|split; [|split]].
  - intros r. rewrite !list_elem_of_In, filter_In. unfold f.
    rewrite negb_true_iff, Z.ltb_ge. done.
  - clear. induction (audit (db w)) as [|r t IH]; simpl; [constructor|].
    destruct (negb _); by constructor.
  - pose proof (filter_length f (audit (db w))). unfold f in *. lia.
  - done.
Qed.

Lemma sweep_deletes_exactly_the_expired_witness :
  let run := sweep_expired 1 example_world in
  ∃ swept, fst run = Ok swept ∧ swept = 0%Z ∧ audit (db (snd run)) = [].
Proof.
  intros run. exists 0%Z. split; [reflexivity|].
  split; [|reflexivity].
  refine (eq_trans (proj1 (proj2 (proj2 (sweep_deletes_exactly_the_expired 1 0 example_world
    (snd run) _)))) _); reflexivity.
Defined.

End Trail.
