(* ===== verification/ValuePaths.v ===== *)
(** * Validation steps of the value service

    Models the pure steps of [crates/sovereign-config-server/src/values/]:
    [authz.rs] (parsing and permission checks), [content.rs] (masking),
    [paths.rs] (fold-path arithmetic) and [subtree.rs] (validation of a subtree
    replacement).  A [BTreeMap] or [BTreeSet] is a finite map or set; iterating
    one visits its keys in byte order. *)

From stdpp Require Import strings.
From S2P Require Import Prelude Bytes ConfigPath Core Auth AuditEvent Rpc Database.

Local Open Scope bytes_scope.

(** The entries of a [BTreeMap], in key order. *)
Definition entries {A} (m : gmap bytes A) : list (bytes * A) :=
  sort_by (λ a b, bytes_leb (fst a) (fst b)) (map_to_list m).

Lemma elem_of_entries {A} (m : gmap bytes A) k a : (k, a) ∈ entries m ↔ m !! k = Some a.
Proof. unfold entries. by rewrite elem_of_sort_by, elem_of_map_to_list. Qed.

(** ** authz.rs *)

Module Authz.

Definition authorize (context : Rpc.CallContext) (path : bytes) (permissions : list Permission)
    (allow_root : bool) : result ConfigPath Status :=
  match (if allow_root then Path.parse_selection path else Path.parse_operation path) with
  | Err _ => Err (Rpc.invalid_argument "configuration path is invalid")
  | Ok path =>
      match Rpc.principal context with
      | Err e => Err e
      | Ok principal =>
          if existsb (λ permission, negb (Auth.allows principal path permission)) permissions
          then Err (Rpc.permission_denied "configuration operation is not permitted")
          else Ok path
      end
  end.

Lemma authorize_ok context s perms allow_root p :
  authorize context s perms allow_root = Ok p →
  p = mkPath s ∧ Path.Canonical s ∧ (allow_root = false → s ≠ "/")
  ∧ ∃ principal, Rpc.principal context = Ok principal
      ∧ ∀ permission, permission ∈ perms → Auth.allows principal p permission = true.
Proof.
  unfold authorize. intros H.
  destruct (if allow_root then _ else _) as [q|] eqn:E; [|done].
  assert (q = mkPath s ∧ Path.Canonical s ∧ (allow_root = false → s ≠ "/")) as (-> & Hc & Hr).
  { destruct allow_root; [by apply Path.parse_selection_spec in E as [-> ?]|].
    apply Path.parse_operation_spec in E as (-> & segs & Hne & Hs & ->).
    split; [done|]. split; [by exists segs|]. intros _. by apply Path.render_not_root. }
  destruct (Rpc.principal context) as [pr|] eqn:Ep; [|done].
  destruct (existsb _ perms) eqn:Ex; [done|]. simplify_eq.
  split_and!; [done..|]. exists pr. split; [done|]. intros perm Hp.
  rewrite existsb_false in Ex. apply Ex in Hp. by bool_prop.
Qed.

End Authz.

(** ** content.rs *)

Definition masked_content (value classification : bytes) : option ValueContent :=
  if bool_decide (classification = PLAIN) then Some (ContentPlain (mkPlainValue value))
  else if bool_decide (classification = SECRET) then Some (ContentSecret masked_secret)
  else None.

(** ** paths.rs *)

Module Paths.

Definition below (first second : bytes) : bool :=
  match strip_prefix second first with
  | Some suffix => starts_with suffix "/"
  | None => false
  end.

Definition paths_collide (first second : bytes) : bool :=
  bool_decide (first = second) || below first second || below second first.

Definition parent_path (fold_path : bytes) : bytes :=
  match rsplit_once "/"%char fold_path with
  | None => "/"
  | Some (parent, _) => if is_empty parent then "/" else parent
  end.

(** Earliest creation first, ties by display text. *)
Definition earlier (a b : Z * bytes) : bool :=
  (fst a <? fst b)%Z || ((fst a =? fst b)%Z && bytes_ltb (snd a) (snd b)).

Definition upsert_ancestor (paths : gmap bytes (Z * bytes)) (fold : bytes) (created_at : Z)
    (display : bytes) : gmap bytes (Z * bytes) :=
  match paths !! fold with
  | None => <[fold := (created_at, display)]> paths
  | Some entry =>
      if earlier (created_at, display) entry then <[fold := (created_at, display)]> paths
      else paths
  end.

(** The loop over the segments of the parent, by index; the source indexes
    the display segments in lockstep. *)
Fixpoint add_ancestors (paths : gmap bytes (Z * bytes)) (created_at : Z)
    (fold_prefix display_prefix : bytes) (fold_segments display_segments : list bytes)
  : gmap bytes (Z * bytes) :=
  match fold_segments, display_segments with
  | f :: fs, d :: ds =>
      let fold_prefix := fold_prefix ++ "/" ++ f in
      let display_prefix := display_prefix ++ "/" ++ d in
      add_ancestors (upsert_ancestor paths fold_prefix created_at display_prefix)
        created_at fold_prefix display_prefix fs ds
  | _, _ => paths
  end.

Definition add_parent_paths (paths : gmap bytes (Z * bytes)) (fold_path display_path : bytes)
    (created_at : Z) : gmap bytes (Z * bytes) :=
  let paths := upsert_ancestor paths "/" created_at "/" in
  let fold_parent := parent_path fold_path in
  if bool_decide (fold_parent = "/") then paths
  else
    add_ancestors paths created_at [] []
      (split "/"%char (trim_start_matches "/"%char fold_parent))
      (split "/"%char (trim_start_matches "/"%char display_path)).

End Paths.

(** ** subtree.rs *)

Inductive SubTreeEntryContent := PlainEntry (value : bytes) | PreserveSecret.
#[global] Instance SubTreeEntryContent_eq_dec : EqDecision SubTreeEntryContent.
Proof. solve_decision. Defined.

Record SubTreeEntry := mkEntry { e_path : bytes; e_content : option SubTreeEntryContent }.
#[global] Instance SubTreeEntry_eq_dec : EqDecision SubTreeEntry.
Proof. solve_decision. Defined.

Module Subtree.

Record NormalizedSubtree := mkNormalized {
  values : list SubTreeEntry; displays : gmap bytes bytes }.

Definition invalid_subtree : Status := Rpc.invalid_argument "configuration subtree is invalid".

Definition content_valid (c : option SubTreeEntryContent) : bool :=
  match c with
  | Some (PlainEntry content) => negb (contains_byte "000"%char content)
  | Some PreserveSecret => true
  | None => false
  end.

(** The first loop: parse, contain, check the content, fold. *)
Definition normalize_entry (root : ConfigPath) (displays : gmap bytes bytes) (value : SubTreeEntry)
  : result (gmap bytes bytes * SubTreeEntry) Status :=
  match Path.parse_operation (e_path value) with
  | Err _ => Err invalid_subtree
  | Ok value_path =>
      if negb (Path.is_at_or_below value_path root) then Err invalid_subtree
      else if negb (content_valid (e_content value)) then Err invalid_subtree
      else
        let fold := Path.fold value_path in
        Ok (if bool_decide (fold = Path.as_str value_path) then displays
            else <[fold := Path.as_str value_path]> displays,
            mkEntry fold (e_content value))
  end.

Fixpoint normalize_entries (root : ConfigPath) (displays : gmap bytes bytes)
    (values : list SubTreeEntry) : result (gmap bytes bytes * list SubTreeEntry) Status :=
  match values with
  | [] => Ok (displays, [])
  | value :: values' =>
      match normalize_entry root displays value with
      | Err e => Err e
      | Ok (displays, value) =>
          match normalize_entries root displays values' with
          | Err e => Err e
          | Ok (displays, values) => Ok (displays, value :: values)
          end
      end
  end.

(** The [while let] walk over the ancestors of a path; each round shortens the
    path, so its length bounds the rounds. *)
Fixpoint has_stored_ancestor (fuel : nat) (accepted : gset bytes) (ancestor : bytes) : bool :=
  match fuel with
  | O => false
  | S fuel' =>
      match rsplit_once "/"%char ancestor with
      | None => false
      | Some (parent, _) =>
          if is_empty parent then false
          else if bool_decide (parent ∈ accepted) then true
          else has_stored_ancestor fuel' accepted parent
      end
  end.

Fixpoint accept_paths (accepted : gset bytes) (values : list SubTreeEntry) : bool :=
  match values with
  | [] => true
  | value :: values' =>
      let p := e_path value in
      if has_stored_ancestor (length p) accepted p || bool_decide (p ∈ accepted) then false
      else accept_paths ({[p]} ∪ accepted) values'
  end.

Definition normalize (root : ConfigPath) (values : list SubTreeEntry)
  : result NormalizedSubtree Status :=
  match normalize_entries root ∅ values with
  | Err e => Err e
  | Ok (displays, values) =>
      let values := sort_by (λ first second, bytes_leb (e_path first) (e_path second)) values in
      if accept_paths ∅ values then Ok (mkNormalized values displays)
      else Err invalid_subtree
  end.

Definition resolve_preserve_markers (values : list SubTreeEntry) (secret_paths : gset bytes)
  : list SubTreeEntry :=
  List.map (λ value,
    match e_content value with
    | Some PreserveSecret =>
        if bool_decide (e_path value ∈ secret_paths) then value
        else mkEntry (e_path value) (Some (PlainEntry MASKED_SECRET_TEXT))
    | _ => value
    end) values.

Definition plain_of (values : list SubTreeEntry) : list (bytes * bytes) :=
  omap (λ value, match e_content value with
                 | Some (PlainEntry content) => Some (e_path value, content)
                 | _ => None
                 end) values.

Definition preserve_of (values : list SubTreeEntry) : list bytes :=
  omap (λ value, match e_content value with
                 | Some PreserveSecret => Some (e_path value)
                 | _ => None
                 end) values.

Definition plain_paths (values : list SubTreeEntry) (secret_paths : gset bytes)
  : result (list bytes) Status :=
  let plain := List.map fst (plain_of values) in
  if existsb (λ p, existsb (λ secret, Paths.paths_collide p secret) (elements secret_paths)) plain
     || negb (forallb (λ preserve, bool_decide (preserve ∈ secret_paths)) (preserve_of values))
  then Err invalid_subtree
  else Ok plain.

End Subtree.

(** ** Lemmas: nesting of fold keys *)

(** [a] is strictly below [b]. *)
Definition Below (a b : bytes) : Prop := ∃ s, a = b ++ "/" ++ s.

(** Two fold keys of which one is the other or an ancestor of it. *)
Definition Collide (a b : bytes) : Prop := a = b ∨ Below a b ∨ Below b a.

#[global] Instance Collide_sym : Symmetric Collide.
Proof. unfold Collide. intros a b. naive_solver. Qed.

Lemma below_spec a b : Paths.below a b = true ↔ Below a b.
Proof.
  unfold Paths.below, Below. destruct (strip_prefix b a) as [r|] eqn:E.
  - apply strip_prefix_spec in E as ->. rewrite starts_with_spec. split.
    + intros [s ->]. eauto.
    + intros [s Hs%app_inv_head]. eauto.
  - split; [done|]. intros [s Hs%strip_prefix_spec]. congruence.
Qed.

Lemma paths_collide_spec a b : Paths.paths_collide a b = true ↔ Collide a b.
Proof.
  unfold Paths.paths_collide, Collide. rewrite !orb_true_iff, bool_decide_eq_true, !below_spec. tauto.
Qed.

#[global] Instance Below_dec a b : Decision (Below a b).
Proof.
  refine (match Paths.below a b as x return Paths.below a b = x → _ with
          | true => λ E, left (proj1 (below_spec a b) E)
          | false => λ E, right (λ H, _)
          end eq_refl). apply below_spec in H. congruence.
Defined.

#[global] Instance Collide_dec a b : Decision (Collide a b).
Proof. unfold Collide. apply _. Defined.

Lemma starts_with_slash_spec a b : starts_with a (b ++ "/") = true ↔ Below a b.
Proof.
  rewrite starts_with_spec. unfold Below. split; intros [s ->]; exists s; by rewrite <- app_assoc.
Qed.

Lemma Below_irrefl a : ¬ Below a a.
Proof. intros [s E]. apply (f_equal length) in E. rewrite !length_app in E. simpl in E. lia. Qed.

Lemma Below_trans a b c : Below a b → Below b c → Below a c.
Proof. intros [s ->] [t ->]. exists (t ++ "/" ++ s). by rewrite <- !app_assoc. Qed.

Lemma Below_leb a b : Below a b → bytes_leb b a = true.
Proof. intros [s ->]. apply bytes_leb_prefix. Qed.

Lemma AtOrBelow_spec f r : Path.AtOrBelow f r ↔ r = "/" ∨ f = r ∨ Below f r.
Proof. done. Qed.

(** Every ancestor of a path is found at one of its slashes. *)
Lemma Below_last_slash a x :
  Below a x → ∃ parent rest, rsplit_once "/"%char a = Some (parent, rest)
                ∧ (parent = x ∨ Below parent x).
Proof.
  intros [s ->]. destruct (decide ("/"%char ∈ s)) as [Hs|Hs].
  - apply list_elem_of_split_r in Hs as (s1 & s2 & -> & Hs2).
    exists (x ++ "/" ++ s1), s2. split; [|right; by exists s1].
    rewrite <- (rsplit_once_some "/"%char (x ++ "/" ++ s1) s2) by done.
    f_equal. by rewrite <- !app_assoc.
  - exists x, s. split; [by apply rsplit_once_some|by left].
Qed.

(** The ancestors of [a] are its parent and the parent's ancestors. *)
Lemma Below_rsplit a parent rest x :
  rsplit_once "/"%char a = Some (parent, rest) → Below a x ↔ x = parent ∨ Below parent x.
Proof.
  intros E. split.
  - intros (parent' & rest' & E' & H)%Below_last_slash. simplify_eq. naive_solver.
  - apply rsplit_once_spec in E as [-> _]. intros [->|[s ->]]; [by exists rest|].
    exists (s ++ "/" ++ rest). by rewrite <- !app_assoc.
Qed.

Lemma has_stored_ancestor_spec fuel accepted : ∀ a,
  length a ≤ fuel →
  Subtree.has_stored_ancestor fuel accepted a = true
  ↔ ∃ x, x ∈ accepted ∧ x ≠ [] ∧ Below a x.
Proof.
  induction fuel as [|fuel IH]; intros a Ha; simpl.
  { destruct a; [|simpl in Ha; lia]. split; [done|]. intros (x & _ & Hx & s & E).
    apply (f_equal length) in E. rewrite length_app in E. simpl in E. lia. }
  destruct (rsplit_once "/"%char a) as [[parent rest]|] eqn:E.
  - setoid_rewrite (Below_rsplit _ _ _ _ E). apply rsplit_once_spec in E as [-> Hr].
    rewrite length_app in Ha. simpl in Ha.
    destruct (is_empty parent) eqn:Ep.
    { destruct parent; [|done]. split; [done|]. intros (x & _ & Hx & [->|[s E]]); [done|].
      by destruct x. }
    case_bool_decide as Hin.
    + split; [|done]. intros _. exists parent. split; [done|]. split; [by destruct parent|]. by left.
    + rewrite IH by lia. split; [naive_solver|]. intros (x & ? & ? & [->|?]); [done|]. eauto.
  - split; [done|]. intros (x & _ & _ & (? & ? & ? & _)%Below_last_slash). congruence.
Qed.

(** *** Accepting sorted paths *)

Lemma accept_paths_spec values : ∀ accepted,
  (∀ x, x ∈ accepted → x ≠ []) → Forall (λ v, e_path v ≠ []) values →
  Subtree.accept_paths accepted values = true ↔
  Forall (λ v, ∀ x, x ∈ accepted → e_path v ≠ x ∧ ¬ Below (e_path v) x) values
  ∧ ForallOrdPairs (λ v v', e_path v' ≠ e_path v ∧ ¬ Below (e_path v') (e_path v)) values.
Proof.
  induction values as [|v values IH]; intros accepted Hacc Hne; simpl.
  { split; [|done]. split; constructor. }
  apply Forall_cons in Hne as [Hv Hne].
  rewrite FOP_cons_iff, Forall_cons.
  destruct (_ || _) eqn:E.
  - split; [done|]. intros [[H _] _]. apply orb_true_iff in E as [E|E].
    + apply has_stored_ancestor_spec in E as (x & Hx & _ & Hb); [|done]. by apply H in Hx as [_ []].
    + bool_prop. by apply H in E as [[] _].
  - bool_prop. match goal with H : Subtree.has_stored_ancestor _ _ _ = false |- _ =>
      apply not_true_iff_false in H; rewrite has_stored_ancestor_spec in H by done end.
    rewrite IH; [|set_solver|done].
    rewrite (Forall_forall (λ v0, ∀ x, x ∈ {[e_path v]} ∪ accepted → _)), !Forall_forall.
    setoid_rewrite elem_of_union. setoid_rewrite elem_of_singleton.
    split.
    + intros [H1 H2]. split; [split|].
      * intros x Hx. split; [by intros <-|]. intros Hb.
        match goal with H : ¬ _ |- _ => apply H; exists x; auto end.
      * intros v' Hv' x Hx. apply H1; auto.
      * split; [|done]. intros v' Hv'. apply H1; auto.
    + intros [[H1 H2] [H3 H4]]. split; [|done]. intros v' Hv' x [->|Hx]; [by apply H3|by apply H2].
Qed.

(** ** Normalization accepts exactly the valid subtrees *)

Module Normalize.
Import Subtree.

(** What one entry must satisfy. *)
Definition EntryValid (root : ConfigPath) (v : SubTreeEntry) : Prop :=
  is_ok (Path.parse_operation (e_path v)) = true
  ∧ Path.is_at_or_below (mkPath (e_path v)) root = true
  ∧ content_valid (e_content v) = true.

Definition folded (v : SubTreeEntry) : SubTreeEntry :=
  mkEntry (to_ascii_lowercase (e_path v)) (e_content v).

(** No two entries name the same value or nest. *)
Definition Disjoint (vs : list SubTreeEntry) : Prop :=
  ForallOrdPairs (λ v v', ¬ Collide (e_path v) (e_path v')) vs.

#[global] Instance EntryValid_dec root v : Decision (EntryValid root v).
Proof. unfold EntryValid. apply _. Defined.

#[global] Instance FOP_dec {A} (R : A → A → Prop) `{!RelDecision R} (l : list A) :
  Decision (ForallOrdPairs R l).
Proof.
  induction l as [|x l IH]; [left; constructor|].
  destruct (decide (Forall (R x) l)) as [H|H], IH as [H'|H'];
    [left; by constructor|right; by inversion 1..].
Defined.

#[global] Instance Disjoint_dec vs : Decision (Disjoint vs).
Proof.
  unfold Disjoint. apply FOP_dec. intros v v'. apply _.
Defined.

Definition add_display (displays : gmap bytes bytes) (v : SubTreeEntry) : gmap bytes bytes :=
  if bool_decide (to_ascii_lowercase (e_path v) = e_path v) then displays
  else <[to_ascii_lowercase (e_path v) := e_path v]> displays.

Lemma normalize_entry_spec root displays v :
  normalize_entry root displays v =
  if decide (EntryValid root v) then Ok (add_display displays v, folded v)
  else Err invalid_subtree.
Proof.
  unfold normalize_entry. destruct (decide (EntryValid root v)) as [Hd|Hd]; unfold EntryValid in Hd.
  - destruct Hd as (Hp & Hb & Hc).
    destruct (Path.parse_operation (e_path v)) as [p|] eqn:E; [|done].
    apply Path.parse_operation_spec in E as [-> _]. by rewrite Hb, Hc.
  - destruct (Path.parse_operation (e_path v)) as [p|] eqn:E; [|done].
    apply Path.parse_operation_spec in E as [-> _].
    destruct (Path.is_at_or_below _ _), (content_valid _); naive_solver.
Qed.

Lemma normalize_entries_spec root vs : ∀ displays,
  normalize_entries root displays vs =
  if decide (Forall (EntryValid root) vs)
  then Ok (foldl add_display displays vs, List.map folded vs) else Err invalid_subtree.
Proof.
  induction vs as [|v vs IH]; intros displays; [done|].
  cbn [normalize_entries foldl List.map]. rewrite normalize_entry_spec. destruct (decide (EntryValid root v)) as [Hv|Hv].
  - rewrite IH. destruct (decide (Forall (EntryValid root) vs)) as [Hvs|Hvs].
    + by rewrite decide_True by (by constructor).
    + rewrite decide_False; [done|]. by intros [_ ?]%Forall_cons.
  - rewrite decide_False; [done|]. by intros [? _]%Forall_cons.
Qed.

Definition by_path (a b : SubTreeEntry) : bool := bytes_leb (e_path a) (e_path b).

Lemma by_path_sorted vs : StronglySorted (λ a b, by_path a b = true) (sort_by by_path vs).
Proof.
  apply sort_by_sorted; unfold by_path.
  - intros x y. apply bytes_leb_total.
  - intros x y z. apply bytes_leb_trans.
Qed.

(** In path order, looking for stored ancestors finds every collision. *)
Lemma sorted_disjoint vs :
  StronglySorted (λ a b, by_path a b = true) vs →
  ForallOrdPairs (λ v v', e_path v' ≠ e_path v ∧ ¬ Below (e_path v') (e_path v)) vs ↔ Disjoint vs.
Proof.
  unfold Disjoint. induction vs as [|v vs IH]; intros Hs; [split; constructor|].
  apply StronglySorted_cons in Hs as [Hle Hs]. rewrite !FOP_cons_iff, IH by done.
  rewrite !Forall_forall in *. unfold Collide. split; intros [H1 H2]; (split; [|done]).
  - intros x Hx. specialize (Hle x Hx). destruct (H1 x Hx) as [Hne Hb].
    intros [?|[Hb'|?]]; [congruence| |done]. apply Hne.
    apply bytes_leb_antisym; [by apply Below_leb|done].
  - intros x Hx. specialize (H1 x Hx). split; [intros E; apply H1; by left|intros ?; apply H1; auto].
Qed.

Lemma EntryValid_folded_nonempty root vs :
  Forall (EntryValid root) vs → Forall (λ v, e_path v ≠ []) (List.map folded vs).
Proof.
  intros H. apply Forall_map_iff. eapply Forall_impl; [exact H|].
  intros v (Hp & _ & _). simpl. by destruct (e_path v).
Qed.

Lemma Disjoint_perm vs vs' : vs ≡ₚ vs' → Disjoint vs → Disjoint vs'.
Proof.
  apply FOP_perm. intros v v' H Hc. by apply H, Collide_sym.
Qed.

Lemma normalize_spec root vs :
  normalize root vs =
  if decide (Forall (EntryValid root) vs ∧ Disjoint (List.map folded vs))
  then Ok (mkNormalized (sort_by by_path (List.map folded vs)) (foldl add_display ∅ vs))
  else Err invalid_subtree.
Proof.
  unfold normalize. rewrite normalize_entries_spec.
  destruct (decide (Forall (EntryValid root) vs)) as [Hv|Hv].
  2:{ rewrite decide_False; [done|]. tauto. }
  fold by_path. set (sorted := sort_by by_path (List.map folded vs)).
  assert (accept_paths ∅ sorted = true ↔ Disjoint (List.map folded vs)) as Ha.
  { rewrite accept_paths_spec; [|set_solver|].
    - rewrite sorted_disjoint by apply by_path_sorted.
      assert (Forall (λ v, ∀ x, x ∈ (∅ : gset bytes) → e_path v ≠ x ∧ ¬ Below (e_path v) x) sorted)
        by (apply Forall_forall; set_solver).
      pose proof (sort_by_perm by_path (List.map folded vs)) as Hp.
      split; [intros [_ ?]|intros ?; split; [done|]]; by eapply Disjoint_perm.
    - unfold sorted. rewrite sort_by_perm. by eapply EntryValid_folded_nonempty. }
  destruct (accept_paths ∅ sorted) eqn:E.
  - rewrite decide_True; [done|]. split; [done|by apply Ha].
  - rewrite decide_False; [done|]. intros [_ Hd]. by apply Ha in Hd.
Qed.

(** *** Display case *)

Lemma add_display_other displays v k :
  to_ascii_lowercase (e_path v) ≠ k → add_display displays v !! k = displays !! k.
Proof.
  intros Hk. unfold add_display. case_bool_decide; [done|]. by rewrite lookup_insert_ne.
Qed.

Lemma displays_other vs : ∀ displays k,
  Forall (λ v, to_ascii_lowercase (e_path v) ≠ k) vs →
  foldl add_display displays vs !! k = displays !! k.
Proof.
  induction vs as [|v vs IH]; intros displays k H; simpl; [done|].
  apply Forall_cons in H as [Hv H]. rewrite IH by done. by apply add_display_other.
Qed.

(** The display form of every entry is recovered from its fold key. *)
Lemma displays_recover vs : ∀ displays v,
  Disjoint (List.map folded vs) → v ∈ vs →
  displays !! to_ascii_lowercase (e_path v) = None →
  default (to_ascii_lowercase (e_path v))
    (foldl add_display displays vs !! to_ascii_lowercase (e_path v)) = e_path v.
Proof.
  induction vs as [|u vs IH]; intros displays v Hd Hv Hnone; [by apply not_elem_of_nil in Hv|].
  unfold Disjoint in Hd. simpl in Hd. apply FOP_cons_iff in Hd as [Hu Hd].
  rewrite Forall_map_iff, Forall_forall in Hu. simpl.
  assert (∀ x, x ∈ vs → to_ascii_lowercase (e_path u) ≠ to_ascii_lowercase (e_path x)) as Hne.
  { intros x Hx E. apply (Hu x Hx). by left. }
  apply elem_of_cons in Hv as [->|Hv].
  - rewrite displays_other by (apply Forall_forall; intros x Hx E; by apply (Hne x Hx)).
    unfold add_display. case_bool_decide as E; [by rewrite Hnone|]. by rewrite lookup_insert_eq.
  - apply IH; [done|done|]. rewrite add_display_other; [done|]. by apply Hne.
Qed.

(** A subtree mutation is accepted exactly when every entry has a valid
    path at or below the root and valid content, and no two entries name the
    same value or nest, ignoring letter case; an accepted one is the same
    entries under their fold keys, in path order, with the spelling of each
    path recoverable. *)
Theorem normalize_accepts_valid_subtrees (root : ConfigPath) (vs : list SubTreeEntry) :
  match normalize root vs with
  | Ok n =>
      Forall (EntryValid root) vs ∧ Disjoint (List.map folded vs)
      ∧ values n ≡ₚ List.map folded vs
      ∧ StronglySorted (λ a b, by_path a b = true) (values n)
      ∧ ∀ v, v ∈ vs →
          default (to_ascii_lowercase (e_path v)) (displays n !! to_ascii_lowercase (e_path v))
          = e_path v
  | Err e =>
      e = invalid_subtree ∧ ¬ (Forall (EntryValid root) vs ∧ Disjoint (List.map folded vs))
  end.
Proof.
  rewrite normalize_spec. case_decide as H; [|done]. destruct H as [Hv Hd].
  split_and!; [done|done|apply sort_by_perm|apply by_path_sorted|].
  intros v Hin. by apply displays_recover.
Qed.

(** *** Preserve markers *)

Lemma elem_of_plain_of vs p c :
  (p, c) ∈ plain_of vs ↔ mkEntry p (Some (PlainEntry c)) ∈ vs.
Proof.
  unfold plain_of. rewrite list_elem_of_omap. split.
  - intros ([q [[c'|]|]] & Hv & E); by simplify_eq/=.
  - intros H. by eexists.
Qed.

Lemma elem_of_preserve_of vs p :
  p ∈ preserve_of vs ↔ mkEntry p (Some PreserveSecret) ∈ vs.
Proof.
  unfold preserve_of. rewrite list_elem_of_omap. split.
  - intros ([q [[c'|]|]] & Hv & E); by simplify_eq/=.
  - intros H. by eexists.
Qed.

Lemma elem_of_resolve vs secrets v :
  v ∈ resolve_preserve_markers vs secrets ↔
  ∃ u, u ∈ vs ∧ v = if decide (e_content u = Some PreserveSecret ∧ e_path u ∉ secrets)
                    then mkEntry (e_path u) (Some (PlainEntry MASKED_SECRET_TEXT)) else u.
Proof.
  unfold resolve_preserve_markers. rewrite list_elem_of_In, in_map_iff.
  split; intros (u & H1 & H2); exists u.
  - split; [by apply list_elem_of_In|]. subst v. destruct (e_content u) as [[c|]|] eqn:E.
    + rewrite decide_False; [done|naive_solver].
    + case_bool_decide; [rewrite decide_False|rewrite decide_True]; naive_solver.
    + rewrite decide_False; [done|naive_solver].
  - split; [|by apply list_elem_of_In]. subst v. destruct (e_content u) as [[c|]|] eqn:E.
    + rewrite decide_False; [done|naive_solver].
    + case_bool_decide; [rewrite decide_False|rewrite decide_True]; naive_solver.
    + rewrite decide_False; [done|naive_solver].
Qed.

Lemma plain_paths_ok vs secrets plain :
  plain_paths vs secrets = Ok plain ↔
  plain = List.map fst (plain_of vs)
  ∧ (∀ p s, p ∈ plain → s ∈ secrets → ¬ Collide p s)
  ∧ (∀ p, p ∈ preserve_of vs → p ∈ secrets).
Proof.
  unfold plain_paths. set (l := List.map fst (plain_of vs)).
  destruct (_ || _) eqn:E.
  - split; [done|]. intros (-> & Hc & Hp). exfalso. apply orb_true_iff in E as [E|E].
    + apply existsb_elem_of in E as (p & Hp1 & E). apply existsb_elem_of in E as (s & Hs & E).
      apply paths_collide_spec in E. eapply Hc; [done| |done]. by apply elem_of_elements.
    + bool_prop. apply not_true_iff_false in E. apply E. apply forallb_Forall, Forall_forall.
      intros p Hp1. apply bool_decide_eq_true. auto.
  - bool_prop. rewrite existsb_false in *.
    match goal with H : forallb _ _ = true |- _ => rewrite forallb_Forall, Forall_forall in H; rename H into Hf end.
    split.
    + intros [= <-]. split; [done|]. split.
      * intros p s Hp Hs Hc. match goal with H : ∀ x, x ∈ l → _ |- _ => specialize (H p Hp) end.
        rewrite existsb_false in *. apply paths_collide_spec in Hc.
        match goal with H : ∀ x, x ∈ elements secrets → _ |- _ => rewrite H in Hc end;
          [done|by apply elem_of_elements].
      * intros p Hp. apply Hf in Hp. by bool_prop.
    + by intros (-> & _).
Qed.

(** Resolving the preserve markers of a subtree against the stored secrets
    turns a marker with no secret behind it into the plain masked text and
    leaves everything else alone; what remains is then accepted exactly when
    no plain value names a secret's path or nests with one. *)
Theorem markers_resolve_against_stored_secrets (vs : list SubTreeEntry) (secrets : gset bytes) :
  let resolved := resolve_preserve_markers vs secrets in
  List.map e_path resolved = List.map e_path vs
  ∧ (∀ p, p ∈ preserve_of resolved ↔ p ∈ preserve_of vs ∧ p ∈ secrets)
  ∧ (∀ p c, (p, c) ∈ plain_of resolved ↔
       (p, c) ∈ plain_of vs ∨ (c = MASKED_SECRET_TEXT ∧ p ∈ preserve_of vs ∧ p ∉ secrets))
  ∧ match plain_paths resolved secrets with
    | Ok plain => plain = List.map fst (plain_of resolved)
                  ∧ ∀ p s, p ∈ plain → s ∈ secrets → ¬ Collide p s
    | Err e => e = invalid_subtree
               ∧ ∃ p c s, (p, c) ∈ plain_of resolved ∧ s ∈ secrets ∧ Collide p s
    end.
Proof.
  intros resolved.
  assert (∀ p, p ∈ preserve_of resolved ↔ p ∈ preserve_of vs ∧ p ∈ secrets) as Hpres.
  { intros p. rewrite !elem_of_preserve_of. unfold resolved. rewrite elem_of_resolve. split.
    - intros (u & Hu & E). case_decide as Hd; [done|]. subst u. simpl in Hd.
      split; [done|]. destruct (decide (p ∈ secrets)); [done|tauto].
    - intros [Hv Hs]. eexists. split; [exact Hv|]. rewrite decide_False; [done|naive_solver]. }
  split.
  { unfold resolved, resolve_preserve_markers. rewrite List.map_map. apply List.map_ext.
    intros v. destruct (e_content v) as [[]|]; [done| |done]. by case_bool_decide. }
  split; [done|]. split.
  { intros p c. rewrite !elem_of_plain_of, elem_of_preserve_of. unfold resolved.
    rewrite elem_of_resolve. split.
    - intros ([q k] & Hu & E). case_decide as Hd; simplify_eq/=; [right|by left].
      destruct Hd as [-> ?]. done.
    - intros [Hv|(-> & Hv & Hs)]; (eexists; split; [exact Hv|]);
        [rewrite decide_False; [done|naive_solver]|by rewrite decide_True]. }
  destruct (plain_paths resolved secrets) as [plain|e] eqn:E.
  - apply plain_paths_ok in E as (-> & Hc & _). done.
  - assert (e = invalid_subtree) as -> by (unfold plain_paths in E; by destruct (_ || _); simplify_eq).
    split; [done|]. unfold plain_paths in E. destruct (_ || _) eqn:Eb; [|done].
    apply orb_true_iff in Eb as [Eb|Eb].
    + apply existsb_elem_of in Eb as (p & Hp & Eb).
      apply list_elem_of_In, in_map_iff in Hp as ([p' c] & <- & Hp%list_elem_of_In).
      apply existsb_elem_of in Eb as (s & Hs%elem_of_elements & Hc%paths_collide_spec). by exists p', c, s.
    + bool_prop. exfalso. apply not_true_iff_false in Eb. apply Eb, forallb_Forall, Forall_forall.
      intros p Hp. apply bool_decide_eq_true. by apply Hpres in Hp as [_ ?].
Qed.

End Normalize.
