(* ===== verification/Store.v ===== *)
(** * The value store

    Models [crates/sovereign-config-server/src/values/store.rs]: every
    statement behind the configuration service, over the tables of migrations
    0007 to 0009.  A violated constraint or a missing row is a failed
    statement, and every failure reaches the service as the one bounded
    [storage_unavailable]. *)

From stdpp Require Import strings.
From S2P Require Import Prelude Bytes ConfigPath Core AuditEvent Rpc Database ValuePaths.

Local Open Scope bytes_scope.

Module Store.

(** ** Row types *)

Record ListedValueRow := mkListedValueRow {
  lv_path : bytes; lv_lowercase_path : bytes; lv_content_id : Z; lv_value : bytes;
  lv_classification : bytes; lv_created_at : Z; lv_updated_at : Z }.
Record SubTreeRow := mkSubTreeRow {
  st_path : bytes; st_value : bytes; st_classification : bytes }.
Record PathWithFoldRow := mkPathWithFoldRow { pf_path : bytes; pf_lowercase_path : bytes }.
Record RevealedRow := mkRevealedRow {
  rv_content_id : Z; rv_value : bytes; rv_classification : bytes }.
Record PathContentRow := mkPathContentRow {
  pc_path : bytes; pc_lowercase_path : bytes; pc_content_id : Z; pc_created_at : Z }.
Record PathContentClassRow := mkPathContentClassRow {
  cc_content_id : Z; cc_value : bytes; cc_classification : bytes; cc_path_count : Z }.
Record DeletedPathRow := mkDeletedPathRow {
  dp_path : bytes; dp_content_id : Z; dp_value : bytes; dp_classification : bytes }.
Record MutationRow := mkMutationRow { mr_created_at : Z; mr_updated_at : Z }.
Record StoredSecretRow := mkStoredSecretRow { ss_id : Z; ss_value : bytes }.
Record InsertedRow := mkInsertedRow { ir_id : Z; ir_created_at : Z; ir_updated_at : Z }.
Record PreviousContentRow := mkPreviousContentRow { pv_value : bytes; pv_classification : bytes }.

(** ** Conditions of the statements *)

(** [$1 = '/' OR p.lowercase_path = $1 OR starts_with(p.lowercase_path, $1 || '/')] *)
Definition at_or_below (lowercase_path fold : bytes) : bool :=
  bool_decide (fold = "/") || bool_decide (lowercase_path = fold)
  || starts_with lowercase_path (fold ++ "/").

(** The CHECK constraints of [configuration_value_contents]. *)
Definition content_check (c : ContentRow) : bool :=
  text_ok (c_value c)
  && (bool_decide (c_classification c = PLAIN) || bool_decide (c_classification c = SECRET))
  && (c_created_at c <=? c_updated_at c)%Z.

Definition map_store {A} (m : M SqlError A) : M Status A :=
  map_error (λ _, Rpc.storage_unavailable) m.

(** Path rows in fold order, as [ORDER BY lowercase_path] returns them. *)
Definition path_rows (d : Database) : list (bytes * PathRow) := entries (paths d).

(** [JOIN configuration_value_contents c ON c.id = p.content_id] *)
Definition joined (d : Database) : list (bytes * PathRow * ContentRow) :=
  omap (λ '(k, p), c ← contents d !! p_content_id p; Some (k, p, c)) (path_rows d).

(** ** Statements *)

Definition path_collides (path : bytes) : M Status bool :=
  map_store (query (λ d,
    existsb (λ '(k, _),
      negb (bool_decide (k = path))
      && (starts_with k (path ++ "/") || starts_with path (k ++ "/"))) (map_to_list (paths d)))).

Definition reserve_content_id : M Status Z :=
  map_store (stmt (λ d,
    if (content_seq d <? Stamps.i64_max)%Z
    then Some (content_seq d + 1, set_content_seq (content_seq d + 1) d)%Z else None)).

Definition insert_content (content_id : Z) (value classification : bytes) (now : Z)
  : M Status InsertedRow :=
  map_store (stmt (λ d,
    let row := mkContent value classification (timestamptz now) (timestamptz now) in
    match contents d !! content_id with
    | Some _ => None
    | None =>
        if content_check row
        then Some (mkInsertedRow content_id (c_created_at row) (c_updated_at row),
                   set_contents (<[content_id := row]> (contents d)) d)
        else None
    end)).

Definition insert_path (path : bytes) (content_id : Z) (now : Z) : M Status unit :=
  map_store (stmt (λ d,
    match paths d !! lower path, contents d !! content_id with
    | None, Some _ =>
        if path_check path
        then Some (tt, set_paths (<[lower path :=
                         mkPathRow path content_id (timestamptz now) (timestamptz now)]> (paths d)) d)
        else None
    | _, _ => None
    end)).

(** [sort_unstable] and [dedup] of the content identities. *)
Fixpoint dedup (l : list Z) : list Z :=
  match l with
  | x :: (y :: _) as l' => if (x =? y)%Z then dedup l' else x :: dedup l'
  | _ => l
  end.

Definition content_ids (rows : list DeletedPathRow) : list Z :=
  dedup (sort_by Z.leb (List.map dp_content_id rows)).

Definition lock_content (content_id : Z) : M Status unit := λ w,
  match map_store (query (λ _, tt)) w with
  | (Ok u, w') => (Ok u, add_lock ("content:" ++ show_Z content_id, true) w')
  | (Err e, w') => (Err e, w')
  end.

Definition referenced (d : Database) (content_id : Z) : bool :=
  existsb (λ '(_, p), (p_content_id p =? content_id)%Z) (map_to_list (paths d)).

Definition prune_orphan_contents (ids : list Z) : M Status unit :=
  if is_empty ids then mret ()
  else
    _ ← for_each lock_content ids;
    map_store (stmt (λ d,
      Some (tt, set_contents
        (filter (λ '(id, _), ¬ (id ∈ ids ∧ referenced d id = false)) (contents d)) d))).

Definition lock_path (path : bytes) (exclusive : bool) : M Status unit := λ w,
  match map_store (query (λ _, tt)) w with
  | (Ok u, w') => (Ok u, add_lock (path, exclusive) w')
  | (Err e, w') => (Err e, w')
  end.

Fixpoint lock_prefixes (prefix : bytes) (segments : list bytes) : M Status unit :=
  match segments with
  | [] => mret ()
  | segment :: segments' =>
      let prefix := prefix ++ "/" ++ segment in
      _ ← lock_path prefix false; lock_prefixes prefix segments'
  end.

Definition lock_mutation_path (path : ConfigPath) : M Status unit :=
  let fold := Path.fold path in
  _ ← (if bool_decide (fold = "/") then mret ()
       else
         _ ← lock_path "/" false;
         let parent := Paths.parent_path fold in
         if bool_decide (parent = "/") then mret ()
         else lock_prefixes [] (split "/"%char (trim_start_matches "/"%char parent)));
  lock_path fold true.

Definition path_candidates : M Status (list PathContentRow) :=
  map_store (query (λ d,
    List.map (λ '(k, p), mkPathContentRow (p_path p) k (p_content_id p) (p_created_at p))
      (path_rows d))).

Definition listed_values (fold_paths : list bytes) : M Status (list ListedValueRow) :=
  map_store (query (λ d,
    omap (λ '(k, p, c),
      if bool_decide (k ∈ fold_paths)
      then Some (mkListedValueRow (p_path p) k (p_content_id p) (c_value c) (c_classification c)
                   (c_created_at c) (c_updated_at c))
      else None) (joined d))).

Definition sub_tree_rows (fold : bytes) : M Status (list SubTreeRow) :=
  map_store (query (λ d,
    omap (λ '(k, p, c),
      if at_or_below k fold then Some (mkSubTreeRow (p_path p) (c_value c) (c_classification c))
      else None) (joined d))).

Definition path_count (d : Database) (content_id : Z) : Z :=
  Z.of_nat (length (List.filter (λ '(_, p), (p_content_id p =? content_id)%Z)
                      (map_to_list (paths d)))).

(** The row a path resolves to: its path row joined with its content. *)
Definition resolve (d : Database) (fold : bytes) : option (PathRow * ContentRow) :=
  p ← paths d !! fold; c ← contents d !! p_content_id p; Some (p, c).

Definition path_content_class (fold : bytes) : M Status (option PathContentClassRow) :=
  map_store (query (λ d,
    '(p, c) ← resolve d fold;
    Some (mkPathContentClassRow (p_content_id p) (c_value c) (c_classification c)
            (path_count d (p_content_id p))))).

Definition update_content (content_id : Z) (stored classification : bytes) (now : Z)
  : M Status MutationRow :=
  map_store (stmt (λ d,
    match contents d !! content_id with
    | None => None
    | Some c =>
        let row := mkContent stored classification (c_created_at c) (timestamptz now) in
        if content_check row
        then Some (mkMutationRow (c_created_at row) (c_updated_at row),
                   set_contents (<[content_id := row]> (contents d)) d)
        else None
    end)).

Definition touches (k fold : bytes) : bool := at_or_below k fold || starts_with fold (k ++ "/").

Definition secret_paths_touching (fold : bytes) : M Status (gset bytes) :=
  map_store (query (λ d,
    list_to_set (omap (λ '(k, p, c),
      if bool_decide (c_classification c = SECRET) && touches k fold then Some k else None)
      (joined d)))).

(** A path row joins a content that satisfies [f]. *)
Definition matched (f : bytes → PathRow → ContentRow → bool) (d : Database) (k : bytes)
    (p : PathRow) : bool :=
  match contents d !! p_content_id p with Some c => f k p c | None => false end.

(** The rows a [DELETE … USING … RETURNING] removes, and the table without
    them; [RETURNING] promises no order, and the code sorts by path. *)
Definition delete_where (f : bytes → PathRow → ContentRow → bool) (d : Database)
  : list DeletedPathRow * Database :=
  let gone := List.filter (λ '(k, p, c), f k p c) (joined d) in
  (sort_by (λ a b, bytes_leb (dp_path a) (dp_path b))
     (List.map (λ '(k, p, c), mkDeletedPathRow (p_path p) (p_content_id p) (c_value c)
                                (c_classification c)) gone),
   set_paths (filter (λ '(k, p), matched f d k p = false) (paths d)) d).

Definition delete_plain_paths_except (fold : bytes) (keep : list bytes)
  : M Status (list DeletedPathRow) :=
  map_store (stmt (λ d, Some (delete_where (λ k p c,
    at_or_below k fold && bool_decide (c_classification c = PLAIN)
    && negb (bool_decide (k ∈ keep))) d))).

Definition content_id_at (fold : bytes) : M Status (option Z) :=
  map_store (query (λ d, p_content_id <$> paths d !! fold)).

Definition update_plain_content (content_id : Z) (value : bytes) (now : Z)
  : M Status PreviousContentRow :=
  map_store (stmt (λ d,
    match contents d !! content_id with
    | None => None
    | Some c =>
        let row := mkContent value PLAIN (c_created_at c) (timestamptz now) in
        if content_check row
        then Some (mkPreviousContentRow (c_value c) (c_classification c),
                   set_contents (<[content_id := row]> (contents d)) d)
        else None
    end)).

Definition delete_paths (fold : bytes) (recurse : bool) : M Status (list DeletedPathRow) :=
  map_store (stmt (λ d, Some (delete_where (λ k _ _,
    if recurse then at_or_below k fold else bool_decide (k = fold)) d))).

Definition revealed_row (fold : bytes) : M Status (option RevealedRow) :=
  map_store (query (λ d,
    '(p, c) ← resolve d fold;
    Some (mkRevealedRow (p_content_id p) (c_value c) (c_classification c)))).

Definition path_is_occupied (fold : bytes) : M Status bool :=
  map_store (query (λ d, bool_decide (is_Some (paths d !! fold)))).

Definition paths_of_content (content_id : Z) : M Status (list PathWithFoldRow) :=
  map_store (query (λ d,
    omap (λ '(k, p), if (p_content_id p =? content_id)%Z then Some (mkPathWithFoldRow (p_path p) k)
                     else None) (path_rows d))).

(** The startup pass keeps the raw error. *)
Definition lock_encryption_pass : M SqlError unit := query (λ _, tt).

Definition stored_secrets : M SqlError (list StoredSecretRow) :=
  query (λ d,
    sort_by (λ a b, (ss_id a <=? ss_id b)%Z)
      (omap (λ '(id, c), if bool_decide (c_classification c = SECRET)
                         then Some (mkStoredSecretRow id (c_value c)) else None)
         (map_to_list (contents d)))).

Definition reseal_secret (content_id : Z) (sealed : bytes) : M SqlError unit :=
  stmt (λ d,
    match contents d !! content_id with
    | None => Some (tt, d)
    | Some c =>
        let row := mkContent sealed (c_classification c) (c_created_at c) (c_updated_at c) in
        if content_check row then Some (tt, set_contents (<[content_id := row]> (contents d)) d)
        else None
    end).

(** ** Every statement moves forward *)

#[global] Instance Forward_map_store {A} (m : M SqlError A) : Forward m → Forward (map_store m).
Proof. unfold map_store. apply _. Qed.

(** Statements that touch no sequence. *)
Lemma Forward_stmt_same {A} (f : Database → option (A * Database)) :
  (∀ d a d', f d = Some (a, d') → content_seq d' = content_seq d ∧ audit_seq d' = audit_seq d) →
  Forward (stmt f).
Proof. intros Hf. apply Forward_stmt. intros d a d' [? ?]%Hf. by apply seq_le_same. Qed.

Ltac forward_stmt :=
  apply Forward_map_store, Forward_stmt_same;
  let d := fresh in let a := fresh in let d' := fresh in let E := fresh in
  intros d a d' E; unfold delete_where in E; repeat destruct_match_in E; by simplify_eq.

#[global] Instance Forward_path_collides p : Forward (path_collides p).
Proof. apply _. Qed.
#[global] Instance Forward_reserve : Forward reserve_content_id.
Proof.
  apply Forward_map_store, Forward_stmt. intros d a d'.
  destruct (Z.ltb_spec (content_seq d) Stamps.i64_max); [|done]. intros [= _ <-].
  unfold seq_le. simpl. lia.
Qed.
#[global] Instance Forward_insert_content i v c n : Forward (insert_content i v c n).
Proof. forward_stmt. Qed.
#[global] Instance Forward_insert_path p i n : Forward (insert_path p i n).
Proof. forward_stmt. Qed.
#[global] Instance Forward_lock_path p e : Forward (lock_path p e).
Proof.
  intros w. pose proof (Forward_map_store (query (λ _, tt)) _ w) as H. unfold lock_path.
  by destruct (map_store _ w) as [[] ?].
Qed.
#[global] Instance Forward_lock_content i : Forward (lock_content i).
Proof.
  intros w. pose proof (Forward_map_store (query (λ _, tt)) _ w) as H. unfold lock_content.
  by destruct (map_store _ w) as [[] ?].
Qed.
#[global] Instance Forward_prune ids : Forward (prune_orphan_contents ids).
Proof.
  unfold prune_orphan_contents. destruct (is_empty ids); [apply _|].
  apply Forward_bind; [apply _|]. intros _. forward_stmt.
Qed.
#[global] Instance Forward_lock_prefixes p segs : Forward (lock_prefixes p segs).
Proof. revert p. induction segs; intros p; simpl; apply _. Qed.
#[global] Instance Forward_lock_mutation_path p : Forward (lock_mutation_path p).
Proof. unfold lock_mutation_path. repeat case_bool_decide; apply _. Qed.
#[global] Instance Forward_path_candidates : Forward path_candidates.
Proof. apply _. Qed.
#[global] Instance Forward_listed_values l : Forward (listed_values l).
Proof. apply _. Qed.
#[global] Instance Forward_sub_tree_rows f : Forward (sub_tree_rows f).
Proof. apply _. Qed.
#[global] Instance Forward_path_content_class f : Forward (path_content_class f).
Proof. apply _. Qed.
#[global] Instance Forward_update_content i v c n : Forward (update_content i v c n).
Proof. forward_stmt. Qed.
#[global] Instance Forward_secret_paths f : Forward (secret_paths_touching f).
Proof. apply _. Qed.
#[global] Instance Forward_delete_plain f keep : Forward (delete_plain_paths_except f keep).
Proof. forward_stmt. Qed.
#[global] Instance Forward_content_id_at f : Forward (content_id_at f).
Proof. apply _. Qed.
#[global] Instance Forward_update_plain i v n : Forward (update_plain_content i v n).
Proof. forward_stmt. Qed.
#[global] Instance Forward_delete_paths f r : Forward (delete_paths f r).
Proof. forward_stmt. Qed.
#[global] Instance Forward_revealed_row f : Forward (revealed_row f).
Proof. apply _. Qed.
#[global] Instance Forward_path_is_occupied f : Forward (path_is_occupied f).
Proof. apply _. Qed.
#[global] Instance Forward_paths_of_content i : Forward (paths_of_content i).
Proof. apply _. Qed.

(** ** What each statement does when it succeeds *)

Lemma map_store_ok {A} (m : M SqlError A) a w w' : map_store m w = (Ok a, w') ↔ m w = (Ok a, w').
Proof. apply map_error_ok. Qed.

Lemma store_query_ok {A} (f : Database → A) w a w' :
  map_store (query f) w = (Ok a, w') → a = f (db w) ∧ read_only w w'.
Proof. intros (_ & -> & ->)%map_store_ok%query_ok. done. Qed.

Lemma store_query_err {A} (f : Database → A) w e w' :
  map_store (query f) w = (Err e, w') → e = Rpc.storage_unavailable ∧ read_only w w'.
Proof.
  unfold map_store, map_error, query, stmt.
  destruct (outcome w); intros [= <- <-]; by destruct w.
Qed.

Lemma store_stmt_ok {A} (f : Database → option (A * Database)) w a w' :
  map_store (stmt f) w = (Ok a, w') →
  ∃ d, f (db w) = Some (a, d) ∧ db w' = d ∧ entropy w' = entropy w ∧ clock w' = clock w.
Proof. intros (_ & d & ? & ->)%map_store_ok%stmt_ok. by exists d. Qed.

Lemma lock_path_ok p e u w w' : lock_path p e w = (Ok u, w') → read_only w w'.
Proof.
  unfold lock_path. destruct (map_store _ w) as [[v|er] w1] eqn:E; [|done]. intros [= _ <-].
  by apply store_query_ok in E as [_ ?].
Qed.

Lemma lock_content_ok i u w w' : lock_content i w = (Ok u, w') → read_only w w'.
Proof.
  unfold lock_content. destruct (map_store _ w) as [[v|er] w1] eqn:E; [|done]. intros [= _ <-].
  by apply store_query_ok in E as [_ ?].
Qed.

Lemma for_each_read_only {E A B} (f : A → M E B) l : ∀ ys w w',
  (∀ x y w w', f x w = (Ok y, w') → read_only w w') →
  for_each f l w = (Ok ys, w') → read_only w w'.
Proof.
  induction l as [|x l IH]; intros ys w w' Hf H; cbn [for_each] in H; run_steps; [done|].
  etrans; [by eapply Hf|]. by eapply IH.
Qed.

Lemma lock_prefixes_ok segs : ∀ p u w w', lock_prefixes p segs w = (Ok u, w') → read_only w w'.
Proof.
  induction segs as [|s segs IH]; intros p u w w' H; cbn [lock_prefixes] in H; run_steps; [done|].
  etrans; [by eapply lock_path_ok|]. by eapply IH.
Qed.

Lemma lock_mutation_path_ok p u w w' : lock_mutation_path p w = (Ok u, w') → read_only w w'.
Proof.
  unfold lock_mutation_path. intros H. run_steps. etrans; [|by eapply lock_path_ok].
  case_bool_decide; run_steps; [done|]. etrans; [by eapply lock_path_ok|].
  case_bool_decide; run_steps; [done|]. by eapply lock_prefixes_ok.
Qed.

End Store.
