(* ===== verification/Invariant.v ===== *)
(** * The stored tree

    What the configuration service keeps true of its tables, beyond what their
    constraints enforce: paths are fold keys of valid paths, no two of them
    nest, every path has a content and every content a path, identities lie
    below their sequence, and every secret is stored sealed.  The lemmas say
    which table operations keep it. *)

From stdpp Require Import strings.
From S2P Require Import Prelude Bytes ConfigPath Core Encryption AuditEvent Rpc Database AuditTrail ValuePaths Store.

Local Open Scope bytes_scope.

Module Tree.
Import Store.

(** ** The statements' conditions *)

Lemma at_or_below_spec k f : at_or_below k f = true ↔ Path.AtOrBelow k f.
Proof.
  unfold at_or_below. rewrite !orb_true_iff, !bool_decide_eq_true, starts_with_slash_spec.
  rewrite AtOrBelow_spec. tauto.
Qed.

Lemma elem_of_path_rows d k p : (k, p) ∈ path_rows d ↔ paths d !! k = Some p.
Proof. apply elem_of_entries. Qed.

Lemma elem_of_joined d k p c :
  (k, p, c) ∈ joined d ↔ paths d !! k = Some p ∧ contents d !! p_content_id p = Some c.
Proof.
  unfold joined. rewrite list_elem_of_omap. split.
  - intros ([k' p'] & Hin%elem_of_path_rows & E). apply bind_Some in E as (c' & Hc & E).
    by simplify_eq.
  - intros [Hp Hc]. exists (k, p). split; [by apply elem_of_path_rows|]. by rewrite Hc.
Qed.

Lemma referenced_spec d id :
  referenced d id = true ↔ ∃ k p, paths d !! k = Some p ∧ p_content_id p = id.
Proof.
  unfold referenced. rewrite existsb_elem_of. split.
  - intros ([k p] & Hin%elem_of_map_to_list & E%Z.eqb_eq). eauto.
  - intros (k & p & Hin & E). exists (k, p). split; [by apply elem_of_map_to_list|by apply Z.eqb_eq].
Qed.

Lemma resolve_spec d k p c :
  resolve d k = Some (p, c) ↔ paths d !! k = Some p ∧ contents d !! p_content_id p = Some c.
Proof.
  unfold resolve. destruct (paths d !! k) as [q|]; [|naive_solver]. simpl.
  destruct (contents d !! p_content_id q) eqn:E; simpl; naive_solver.
Qed.

Definition collision (d : Database) (path : bytes) : bool :=
  existsb (λ '(k, _),
    negb (bool_decide (k = path))
    && (starts_with k (path ++ "/") || starts_with path (k ++ "/"))) (map_to_list (paths d)).

Lemma collision_spec d path :
  collision d path = true ↔ ∃ k, is_Some (paths d !! k) ∧ k ≠ path ∧ Collide k path.
Proof.
  unfold collision, Collide. rewrite existsb_elem_of. split.
  - intros ([k p] & Hin%elem_of_map_to_list & E). bool_prop.
    match goal with H : _ || _ = true |- _ =>
      rewrite orb_true_iff, !starts_with_slash_spec in H end. naive_solver.
  - intros (k & [p Hp] & Hne & Hc). exists (k, p). split; [by apply elem_of_map_to_list|].
    rewrite andb_true_iff, orb_true_iff, !starts_with_slash_spec, negb_true_iff,
      bool_decide_eq_false. naive_solver.
Qed.

(** ** The invariant *)

Record tree_wf (d : Database) : Prop := mkTreeWf {
  wf_key k p : paths d !! k = Some p → k = lower (p_path p) ∧ path_check (p_path p) = true;
  wf_content k p : paths d !! k = Some p → is_Some (contents d !! p_content_id p);
  wf_path id : is_Some (contents d !! id) → ∃ k p, paths d !! k = Some p ∧ p_content_id p = id;
  wf_nest k k' : is_Some (paths d !! k) → is_Some (paths d !! k') → Collide k k' → k = k';
  wf_id id : is_Some (contents d !! id) → (0 < id ≤ content_seq d)%Z;
  wf_seq : (0 ≤ content_seq d ≤ Stamps.i64_max)%Z;
  wf_check id c : contents d !! id = Some c → content_check c = true;
  wf_audit : Trail.table_wf (audit d) (audit_seq d) }.

(** Every stored secret opens under the server's key on its own row. *)
Definition sealed `{Crypto} (d : Database) : Prop :=
  ∀ id c, contents d !! id = Some c → c_classification c = SECRET →
    ∃ plaintext, Cipher.decrypt id SECRET (c_value c) = Ok plaintext.

Lemma table_wf_mono t s s' : (s ≤ s')%Z → Trail.table_wf t s → Trail.table_wf t s'.
Proof.
  intros Hs (? & ? & ? & Hf). split_and!; [done..|]. eapply Forall_impl; [exact Hf|].
  simpl. lia.
Qed.

(** Rolling back keeps the tables; the sequences have only grown. *)
Lemma tree_wf_rollback d d' : tree_wf d → seq_le d d' → tree_wf (rollback d d').
Proof.
  intros [H1 H2 H3 H4 H5 H6 H7 H8] (Hc & Ha & Hm). split; simpl; [done..| | |done|].
  - intros id Hid. specialize (H5 id Hid). lia.
  - lia.
  - by eapply table_wf_mono.
Qed.

Lemma sealed_rollback `{Crypto} d d' : sealed d → sealed (rollback d d').
Proof. done. Qed.

(** A write to the trail keeps the tree. *)
Lemma tree_wf_audit d table seq :
  tree_wf d → Trail.table_wf table seq → tree_wf (set_audit table seq d).
Proof. intros [] Ht. by split. Qed.

(** Moving the content sequence forward keeps the tree. *)
Lemma tree_wf_seq d n :
  tree_wf d → (content_seq d ≤ n ≤ Stamps.i64_max)%Z → tree_wf (set_content_seq n d).
Proof.
  intros [H1 H2 H3 H4 H5 H6 H7 H8] Hn. split; simpl; [done..| | |done|done].
  - intros id Hid. specialize (H5 id Hid). lia.
  - lia.
Qed.

(** Overwriting a stored content keeps the tree. *)
Lemma tree_wf_overwrite d id c c' :
  tree_wf d → contents d !! id = Some c → content_check c' = true →
  tree_wf (set_contents (<[id := c']> (contents d)) d).
Proof.
  intros [H1 H2 H3 H4 H5 H6 H7 H8] Hid Hc.
  assert (∀ j, is_Some (<[id := c']> (contents d) !! j) ↔ is_Some (contents d !! j)) as Hdom.
  { intros j. destruct (decide (id = j)) as [<-|Hne].
    - rewrite lookup_insert_eq, Hid. split; by eexists.
    - by rewrite lookup_insert_ne. }
  split; simpl; try done.
  - intros k p Hp. apply Hdom. by eapply H2.
  - intros j Hj%Hdom. by apply H3.
  - intros j Hj%Hdom. by apply H5.
  - intros j cj. rewrite lookup_insert_Some. intros [[<- <-]|[_ Hj]]; [done|]. by eapply H7.
Qed.

(** Adding a path that nests with nothing, to a content the tree will hold. *)
Lemma tree_wf_insert_path d k p cs n :
  tree_wf d → paths d !! k = None → k = lower (p_path p) → path_check (p_path p) = true →
  collision d k = false →
  (content_seq d ≤ n ≤ Stamps.i64_max)%Z →
  (∀ id, is_Some (cs !! id) ↔ is_Some (contents d !! id) ∨ id = p_content_id p) →
  (0 < p_content_id p ≤ n)%Z →
  (∀ id c, cs !! id = Some c → content_check c = true) →
  tree_wf (set_paths (<[k := p]> (paths d)) (set_contents cs (set_content_seq n d))).
Proof.
  intros [H1 H2 H3 H4 H5 H6 H7 H8] Hk Hkey Hpc Hcol Hn Hcs Hid Hchk.
  assert (∀ k', is_Some (paths d !! k') → Collide k' k → k' = k) as Hfree.
  { intros k' Hk' Hc. destruct (decide (k' = k)) as [|Hne]; [done|].
    apply not_true_iff_false in Hcol. destruct Hcol. apply collision_spec. eauto. }
  split; simpl.
  - intros k' p'. rewrite lookup_insert_Some. intros [[<- <-]|[_ ?]]; [done|by apply H1].
  - intros k' p'. rewrite lookup_insert_Some. intros [[<- <-]|[_ Hp']]; apply Hcs; [by right|left].
    by eapply H2.
  - intros id [Hid'|Hid']%Hcs.
    + destruct (H3 id Hid') as (k' & p' & Hp' & <-). exists k', p'. split; [|done].
      rewrite lookup_insert_ne; [done|]. congruence.
    + exists k, p. by rewrite lookup_insert_eq.
  - intros k1 k2 H1' H2' Hc. rewrite lookup_insert_is_Some in H1', H2'.
    destruct H1' as [<-|[_ H1']], H2' as [<-|[_ H2']]; [done| | |by apply H4].
    + symmetry. apply Hfree; [done|]. by symmetry.
    + by apply Hfree.
  - intros id [Hid'|Hid']%Hcs; [specialize (H5 id Hid')|]; lia.
  - lia.
  - done.
  - done.
Qed.

(** The paths that remain when some are deleted and the contents nobody
    references any more are pruned. *)
Lemma tree_wf_delete d (keep : bytes → PathRow → bool) cs :
  tree_wf d →
  let ps := filter (λ '(k, p), keep k p = true) (paths d) in
  (∀ id c, cs !! id = Some c ↔
     contents d !! id = Some c ∧ ∃ k p, ps !! k = Some p ∧ p_content_id p = id) →
  tree_wf (set_contents cs (set_paths ps d)).
Proof.
  intros [H1 H2 H3 H4 H5 H6 H7 H8] ps Hcs.
  assert (∀ k p, ps !! k = Some p → paths d !! k = Some p) as Hps.
  { intros k p. unfold ps. rewrite map_lookup_filter_Some. tauto. }
  split; simpl; try done.
  - intros k p Hp%Hps. by apply H1.
  - intros k p Hp. destruct (H2 k p (Hps _ _ Hp)) as [c Hc]. exists c. apply Hcs. eauto.
  - intros id [c Hc]. apply Hcs in Hc as [_ ?]. done.
  - intros k k' [p Hp%Hps] [p' Hp'%Hps]. apply H4; eauto.
  - intros id [c Hc]. apply Hcs in Hc as [Hc _]. apply H5. eauto.
  - intros id c Hc. apply Hcs in Hc as [Hc _]. by eapply H7.
Qed.

(** The empty tree. *)
Lemma tree_wf_empty : tree_wf Trail.empty_db.
Proof.
  split; simpl; try done; try (intros *; rewrite lookup_empty; by (done || intros [])).
  apply Trail.table_wf_nil.
Qed.

Lemma sealed_empty `{Crypto} : sealed Trail.empty_db.
Proof. intros id c Hc. simpl in Hc. by rewrite lookup_empty in Hc. Qed.

End Tree.
