(* ===== verification/Values.v ===== *)
(** * The configuration service

    Models [crates/sovereign-config-server/src/values/service.rs]: the eight
    operations of the [Configuration] service in no protocol version's terms,
    composed of the authorization, validation, storage, sealing and recording
    steps of the other files in the order the source composes them. *)

From stdpp Require Import strings.
From S2P Require Import Prelude Bytes ConfigPath Core Auth Encryption AuditEvent Rpc Database AuditTrail ValuePaths Store.

Local Open Scope bytes_scope.

Module Values.
Import Store.

(** [PutContent], [AliasPaths] and [ResolvedWrites]. *)
Inductive PutContent := PutPlain (value : bytes) | PutSecret (value : bytes).
Record AliasPaths := mkAlias { al_source : bytes; al_new_path : bytes }.
Record ResolvedWrites := mkWrites {
  shared : gmap Z bytes; shared_paths : list (bytes * Z); fresh : list (bytes * bytes) }.

(** A [BTreeMap] keyed by content identity, in key order. *)
Definition id_entries {A} (m : gmap Z A) : list (Z * A) :=
  sort_by (λ a b, (fst a <=? fst b)%Z) (map_to_list m).

Definition invalid_path : Status := Rpc.invalid_argument "configuration path is invalid".
Definition not_permitted : Status := Rpc.permission_denied "configuration operation is not permitted".
Definition value_not_found : Status := Rpc.not_found "configuration value not found".
Definition collides : Status :=
  Rpc.invalid_argument "configuration value collides with an existing value".
Definition encryption_failed : Status := Rpc.internal "configuration value could not be encrypted".
Definition decryption_failed : Status := Rpc.internal "configuration value could not be decrypted".

(** [stored_path] *)
Definition stored_path (path : bytes) : result ConfigPath Status :=
  map_err (Path.parse_operation path) (λ _, Rpc.storage_unavailable).

Definition transaction {A} (body : M Status A) : M Status A :=
  in_transaction Rpc.storage_unavailable body.

(** ** Events of bulk operations *)

Definition push_capped (events : list AuditEvent) (event : AuditEvent) : list AuditEvent :=
  if (length events <? Trail.BULK_EVENT_CAP)%nat then events ++ [event] else events.

Definition deletion_events (actor : Actor) (root : ConfigPath) (deleted : list DeletedPathRow)
    (recurse : bool) : list AuditEvent :=
  let events := foldl push_capped []
    (List.map (λ row, Event.value_deleted actor (dp_path row)
                        (recorded_of (dp_classification row) (dp_value row))) deleted) in
  if recurse then
    events ++ [Event.subtree_deleted actor (Path.as_str root) (length deleted)
                 (length deleted - length events)]
  else events.

Record SubtreeChanges := mkChanges {
  cleared : list DeletedPathRow; writes : ResolvedWrites;
  previous : gmap Z PreviousContentRow; displays : gmap bytes bytes }.

Definition display_of (displays : gmap bytes bytes) (fold : bytes) : bytes :=
  default fold (displays !! fold).

Definition updated_events (actor : Actor) (changes : SubtreeChanges) : list AuditEvent :=
  omap (λ '(fold, content_id),
    before ← previous changes !! content_id;
    after ← shared (writes changes) !! content_id;
    if negb (bool_decide (pv_value before = after))
       || negb (bool_decide (pv_classification before = PLAIN))
    then Some (Event.value_updated actor (display_of (displays changes) fold)
                 (recorded_of (pv_classification before) (pv_value before))
                 (recorded_of PLAIN after))
    else None) (shared_paths (writes changes)).

Definition replacement_events (actor : Actor) (root : ConfigPath) (changes : SubtreeChanges)
  : list AuditEvent :=
  let deleted := List.map (λ row, Event.value_deleted actor (dp_path row)
                   (recorded_of (dp_classification row) (dp_value row))) (cleared changes) in
  let updated := updated_events actor changes in
  let created := List.map (λ '(fold, content),
                   Event.value_created actor (display_of (displays changes) fold)
                     (recorded_of PLAIN content)) (fresh (writes changes)) in
  let events := foldl push_capped (foldl push_capped (foldl push_capped [] deleted) updated) created in
  let total := length deleted + length updated + length created in
  events ++ [Event.subtree_replaced actor (Path.as_str root) (length created) (length updated)
               (length deleted) (total - length events)].

(** ** The operations *)

Section service.
Context `{Crypto}.
(** The recorder the service was built with. *)
Context (recorder : Trail.AuditRecorder).

Definition stored_representation (content_id : Z) (classification value : bytes)
  : M Status bytes :=
  if bool_decide (classification = SECRET) then
    nonce ← getrandom;
    lift (map_err (Cipher.encrypt nonce content_id classification value) (λ _, encryption_failed))
  else mret value.

Definition overwrite_existing (existing : PathContentClassRow) (value classification : bytes)
    (now : Z) : M Status MutationRow :=
  if (1 <? cc_path_count existing)%Z
     && negb (bool_decide (cc_classification existing = classification))
  then fail (Rpc.invalid_argument
               "configuration value has multiple paths and cannot change classification")
  else
    stored ← stored_representation (cc_content_id existing) classification value;
    update_content (cc_content_id existing) stored classification now.

Definition create_value (path : ConfigPath) (value classification : bytes) (now : Z)
  : M Status MutationRow :=
  collision ← path_collides (Path.fold path);
  if collision : bool then fail collides
  else
    content_id ← reserve_content_id;
    stored ← stored_representation content_id classification value;
    content ← insert_content content_id stored classification now;
    _ ← insert_path (Path.as_str path) (ir_id content) now;
    mret (mkMutationRow (ir_created_at content) (ir_updated_at content)).

(** *** put_value *)

Definition put_event (actor : Actor) (path : ConfigPath) (existing : option PathContentClassRow)
    (classification value : bytes) : AuditEvent :=
  let written := recorded_of classification value in
  match existing with
  | Some existing =>
      Event.value_updated actor (Path.as_str path)
        (recorded_of (cc_classification existing) (cc_value existing)) written
  | None => Event.value_created actor (Path.as_str path) written
  end.

Definition put_transaction (actor : Actor) (path : ConfigPath) (value classification : bytes)
  : M Status MutationRow :=
  _ ← lock_mutation_path path;
  now ← now;
  existing ← path_content_class (Path.fold path);
  row ← match existing with
        | Some existing => overwrite_existing existing value classification now
        | None => create_value path value classification now
        end;
  _ ← Trail.record_in recorder actor now [put_event actor path existing classification value];
  mret row.

Definition put_value (context : Rpc.CallContext) (path : bytes) (written : option PutContent)
  : M Status PutMetadata :=
  path ← lift (Authz.authorize context path [Write] false);
  '(value, classification) ← lift (match written with
    | Some (PutPlain value) => Ok (value, PLAIN)
    | Some (PutSecret value) => Ok (value, SECRET)
    | None => Err (Rpc.invalid_argument "configuration value is invalid")
    end);
  if contains_byte "000"%char value
  then fail (Rpc.invalid_argument "configuration value contains an invalid character")
  else
    actor ← lift (Rpc.actor context);
    row ← transaction (put_transaction actor path value classification);
    created_at ← lift (Rpc.to_timestamp (mr_created_at row));
    updated_at ← lift (Rpc.to_timestamp (mr_updated_at row));
    mret (mkPutMetadata created_at updated_at).

(** *** delete_values *)

Definition delete_transaction (actor : Actor) (path : ConfigPath) (recurse : bool)
  : M Status (Z * nat) :=
  _ ← lock_mutation_path path;
  deleted ← delete_paths (Path.fold path) recurse;
  if is_empty deleted then fail value_not_found
  else
    _ ← prune_orphan_contents (content_ids deleted);
    deleted_at ← now;
    _ ← Trail.record_in recorder actor deleted_at (deletion_events actor path deleted recurse);
    mret (deleted_at, length deleted).

Definition delete_values (context : Rpc.CallContext) (path : bytes) (recurse : bool)
  : M Status DeleteMetadata :=
  path ← lift (Authz.authorize context path [Write] recurse);
  actor ← lift (Rpc.actor context);
  '(deleted_at, count) ← transaction (delete_transaction actor path recurse);
  deleted_at ← lift (Rpc.to_timestamp deleted_at);
  mret (mkDeleteMetadata deleted_at (Z.of_nat count)).

(** *** reveal_secret *)

Definition reveal_secret (context : Rpc.CallContext) (path : bytes) : M Status RevealedSecret :=
  path ← lift (Authz.authorize context path [Read] false);
  actor ← lift (Rpc.actor context);
  row ← revealed_row (Path.fold path);
  row ← lift (ok_or row value_not_found);
  if negb (bool_decide (rv_classification row = SECRET))
  then fail (Rpc.invalid_argument "configuration value is not a secret")
  else
    value ← lift (map_err (Cipher.decrypt (rv_content_id row) (rv_classification row) (rv_value row))
                    (λ _, decryption_failed));
    now ← now;
    _ ← Trail.record recorder actor now (Event.secret_revealed actor (Path.as_str path));
    mret (mkRevealedSecret value).

(** *** add_value_path *)

Definition add_path_transaction (actor : Actor) (source new_path : ConfigPath) : M Status Z :=
  let '(first, second) := if Path.le source new_path then (source, new_path)
                          else (new_path, source) in
  _ ← lock_mutation_path first;
  _ ← lock_mutation_path second;
  content_id ← content_id_at (Path.fold source);
  content_id ← lift (ok_or content_id value_not_found);
  occupied ← path_is_occupied (Path.fold new_path);
  if occupied : bool then fail (Rpc.already_exists "configuration path already exists")
  else
    collision ← path_collides (Path.fold new_path);
    if collision : bool then fail collides
    else
      now ← now;
      _ ← insert_path (Path.as_str new_path) content_id now;
      _ ← Trail.record_in recorder actor now (Event.path_added actor source new_path);
      mret now.

Definition add_value_path (context : Rpc.CallContext) (alias : AliasPaths)
  : M Status AddPathMetadata :=
  principal ← lift (Rpc.principal context);
  actor ← lift (Rpc.actor context);
  source ← lift (map_err (Path.parse_operation (al_source alias)) (λ _, invalid_path));
  new_path ← lift (map_err (Path.parse_operation (al_new_path alias)) (λ _, invalid_path));
  if negb (Auth.allows principal source Read) || negb (Auth.allows principal source Write)
     || negb (Auth.allows principal new_path Write)
  then fail not_permitted
  else if Path.eq source new_path
  then fail (Rpc.invalid_argument "configuration value already has that path")
  else
    now ← transaction (add_path_transaction actor source new_path);
    created_at ← lift (Rpc.to_timestamp now);
    mret (mkAddPathMetadata created_at).

(** *** get_sub_tree *)

Definition sub_tree_value (row : SubTreeRow) : result SubTreeValue Status :=
  let? value := ok_or (masked_content (st_value row) (st_classification row)) Rpc.storage_unavailable in
  let? path := stored_path (st_path row) in
  Ok (mkSubTreeValue path value).

Definition get_sub_tree (context : Rpc.CallContext) (path : bytes) : M Status ValueSubTree :=
  path ← lift (Authz.authorize context path [Read] true);
  actor ← lift (Rpc.actor context);
  rows ← sub_tree_rows (Path.fold path);
  values ← lift (map_result sub_tree_value rows);
  now ← now;
  _ ← Trail.record_best_effort recorder actor now
        (Event.subtree_read actor (Path.as_str path) (length values));
  mret (mkValueSubTree values).

(** *** list_value_paths *)

Definition list_value_paths (context : Rpc.CallContext) (path : bytes) : M Status ValuePaths :=
  path ← lift (Authz.authorize context path [Read] false);
  principal ← lift (Rpc.principal context);
  content_id ← content_id_at (Path.fold path);
  content_id ← lift (ok_or content_id value_not_found);
  rows ← paths_of_content content_id;
  paths ← lift (fold_result (λ acc row,
    let? candidate := map_err (Path.parse (pf_lowercase_path row)) (λ _, Rpc.storage_unavailable) in
    if Auth.allows principal candidate Read then
      let? p := stored_path (pf_path row) in Ok (acc ++ [p])
    else Ok acc) [] rows);
  mret (mkValuePaths paths).

(** *** list_values *)

(** What the first loop accumulates. *)
Record Listing := mkListing {
  content_paths : gmap Z (list (bytes * bytes));
  ancestors : gmap bytes (Z * bytes);
  direct : list bytes }.

Definition list_candidate (principal : AuthenticatedPrincipal) (selected : ConfigPath)
    (acc : Listing) (row : PathContentRow) : result Listing Status :=
  let? path := map_err (Path.parse (pc_lowercase_path row)) (λ _, Rpc.storage_unavailable) in
  if negb (Auth.allows principal path Read) then Ok acc
  else Ok (mkListing
    (<[pc_content_id row :=
         default [] (content_paths acc !! pc_content_id row)
         ++ [(pc_lowercase_path row, pc_path row)]]> (content_paths acc))
    (Paths.add_parent_paths (ancestors acc) (pc_lowercase_path row) (pc_path row)
       (pc_created_at row))
    (if bool_decide (Paths.parent_path (pc_lowercase_path row) = Path.fold selected)
     then direct acc ++ [pc_lowercase_path row] else direct acc)).

Definition listed_value (content_paths : gmap Z (list (bytes * bytes))) (row : ListedValueRow)
  : result ListedValue Status :=
  let? value := ok_or (masked_content (lv_value row) (lv_classification row)) Rpc.storage_unavailable in
  let? alias_paths := map_result (λ '(_, display), stored_path display)
    (List.filter (λ '(fold, _), negb (bool_decide (fold = lv_lowercase_path row)))
       (default [] (content_paths !! lv_content_id row))) in
  let? path := stored_path (lv_path row) in
  let? created_at := Rpc.to_timestamp (lv_created_at row) in
  let? updated_at := Rpc.to_timestamp (lv_updated_at row) in
  Ok (mkListedValue path value created_at updated_at alias_paths).

Definition list_values (context : Rpc.CallContext) (path : bytes) : M Status ValueListing :=
  selected ← lift (map_err (Path.parse_selection path) (λ _, invalid_path));
  principal ← lift (Rpc.principal context);
  actor ← lift (Rpc.actor context);
  candidates ← path_candidates;
  listing ← lift (fold_result (list_candidate principal selected) (mkListing ∅ ∅ []) candidates);
  values ← (if is_empty (direct listing) then mret []
            else rows ← listed_values (direct listing);
                 lift (map_result (listed_value (content_paths listing)) rows));
  namespaces ← lift (map_result (λ '(_, (_, display)),
                  map_err (Path.parse_selection display) (λ _, Rpc.storage_unavailable))
                  (entries (ancestors listing)));
  now ← now;
  _ ← Trail.record_best_effort recorder actor now
        (Event.values_listed actor (Path.as_str selected) (length values));
  mret (mkValueListing values namespaces).

(** *** replace_sub_tree *)

Definition conflicting : Status :=
  Rpc.invalid_argument "configuration subtree assigns conflicting values to one stored value".

(** [resolve_plain_writes]: the loop, over the plain writes. *)
Fixpoint resolve_plain_writes (acc : ResolvedWrites) (values : list SubTreeEntry)
  : M Status ResolvedWrites :=
  match values with
  | [] => mret acc
  | value :: values' =>
      match e_content value with
      | Some (PlainEntry content) =>
          found ← content_id_at (e_path value);
          match found with
          | Some content_id =>
              let seen := shared_paths acc ++ [(e_path value, content_id)] in
              match shared acc !! content_id with
              | Some assigned =>
                  if bool_decide (assigned = content)
                  then resolve_plain_writes (mkWrites (shared acc) seen (fresh acc)) values'
                  else fail conflicting
              | None =>
                  resolve_plain_writes
                    (mkWrites (<[content_id := content]> (shared acc)) seen (fresh acc)) values'
              end
          | None =>
              resolve_plain_writes
                (mkWrites (shared acc) (shared_paths acc)
                   (fresh acc ++ [(e_path value, content)])) values'
          end
      | _ => resolve_plain_writes acc values'
      end
  end.

Definition update_shared (now : Z) (entry : Z * bytes) : M Status (Z * PreviousContentRow) :=
  replaced ← update_plain_content (fst entry) (snd entry) now;
  mret (fst entry, replaced).

Definition insert_fresh (displays : gmap bytes bytes) (now : Z) (entry : bytes * bytes)
  : M Status unit :=
  content_id ← reserve_content_id;
  inserted ← insert_content content_id (snd entry) PLAIN now;
  insert_path (display_of displays (fst entry)) (ir_id inserted) now.

Definition replace_transaction (actor : Actor) (path : ConfigPath)
    (normalized : Subtree.NormalizedSubtree) : M Status (Z * nat) :=
  let displays := Subtree.displays normalized in
  _ ← lock_mutation_path path;
  secret_paths ← secret_paths_touching (Path.fold path);
  let values := Subtree.resolve_preserve_markers (Subtree.values normalized) secret_paths in
  plain_paths ← lift (Subtree.plain_paths values secret_paths);
  now ← now;
  cleared ← delete_plain_paths_except (Path.fold path) plain_paths;
  _ ← prune_orphan_contents (content_ids cleared);
  writes ← resolve_plain_writes (mkWrites ∅ [] []) values;
  previous ← for_each (update_shared now) (id_entries (shared writes));
  _ ← for_each (insert_fresh displays now) (fresh writes);
  _ ← Trail.record_in recorder actor now
        (replacement_events actor path
           (mkChanges cleared writes (list_to_map previous) displays));
  mret (now, length values).

Definition replace_sub_tree (context : Rpc.CallContext) (path : bytes)
    (values : list SubTreeEntry) : M Status ReplaceMetadata :=
  path ← lift (Authz.authorize context path [Write; Manage] true);
  normalized ← lift (Subtree.normalize path values);
  actor ← lift (Rpc.actor context);
  '(now, count) ← transaction (replace_transaction actor path normalized);
  updated_at ← lift (Rpc.to_timestamp now);
  mret (mkReplaceMetadata updated_at (Z.of_nat count)).

End service.

(** ** A sample deployment, on which the witnesses of this development run *)

Module Sample.

Definition owner : Rpc.CallContext :=
  Rpc.mkContext (Some (mkPrincipal "user-1" (Some "ada") [mkGrant "/" {[Read; Write; Manage]}]))
    (Some "v5").

Definition hourly : Trail.AuditRecorder := Trail.mkRecorder 3600.

(** An empty database, no faults, and enough randomness. *)
Definition start : World :=
  mkWorld Trail.empty_db [] (replicate 8 (Some Cipher.toy_nonce)) 1700000000123456789
    (mkMetrics ∅ 0 0) [].

(** One plain value and one secret under [/apps]. *)
Definition with_plain : World := snd (put_value hourly owner "/Apps/Url" (Some (PutPlain "x")) start).
Definition with_secret : World :=
  snd (put_value hourly owner "/Apps/Pw" (Some (PutSecret "hunter2")) with_plain).

End Sample.

End Values.
