(* ===== verification/ValuesPut.v ===== *)
(** * Writing and revealing one value

    What [put_value] and [reveal_secret] of the configuration service do: the
    exact effect of a successful write on the tables, that it keeps the tree
    and its sealing under every fault schedule, that a failed write changes
    nothing, that a written secret is what a reveal returns, and what the audit
    trail learns of it. *)

From stdpp Require Import strings.
From S2P Require Import Prelude Bytes ConfigPath Core Auth Encryption AuditEvent Rpc Database AuditTrail ValuePaths Store Invariant Values.

Local Open Scope bytes_scope.

Module Put.
Import Store Tree Values.

Section put.
Context `{Crypto} (recorder : Trail.AuditRecorder).

(** ** Forward instances *)

#[global] Instance Forward_stored_representation id cls v : Forward (stored_representation id cls v).
Proof. unfold stored_representation. case_bool_decide; apply _. Qed.
#[global] Instance Forward_overwrite e v cls t : Forward (overwrite_existing e v cls t).
Proof. unfold overwrite_existing. destruct (_ && _); apply _. Qed.
#[global] Instance Forward_create p v cls t : Forward (create_value p v cls t).
Proof. unfold create_value. apply Forward_bind; [apply _|]. intros []; apply _. Qed.
#[global] Instance Forward_put a p v cls : Forward (put_transaction recorder a p v cls).
Proof.
  unfold put_transaction. do 3 (apply Forward_bind; [apply _|intros ?]).
  apply Forward_bind; [|apply _]. destruct a2; apply _.
Qed.

(** ** The effect of a write *)

(** What a value of a class is stored as: a secret sealed for its row with the
    next random bytes, anything else verbatim. *)
Definition stored_as (w : World) (id : Z) (cls value stored : bytes) : Prop :=
  if decide (cls = SECRET)
  then ∃ nonce, head (entropy w) = Some (Some nonce)
                ∧ Cipher.encrypt (Some nonce) id cls value = Ok stored
  else stored = value.

Lemma stored_representation_ok id cls v w s w' :
  stored_representation id cls v w = (Ok s, w') →
  db w' = db w ∧ clock w' = clock w ∧ stored_as w id cls v s.
Proof.
  unfold stored_representation, stored_as. case_bool_decide as Hc.
  - intros Hrun. run_steps. match goal with Hg : getrandom _ = _ |- _ => inversion Hg; subst end.
    rewrite decide_True by done. split; [done|]. split; [done|].
    destruct (entropy w) as [|[nonce|] es]; [done| |done]. by exists nonce.
  - intros Hrun. run_steps. by rewrite decide_False.
Qed.

(** The content row a write leaves, and the database it leaves it in. *)
Definition put_effect (path : ConfigPath) (value cls : bytes) (w : World) (d' : Database) : Prop :=
  let d := db w in let t := timestamptz (clock w) in
  ∃ id stored, stored_as w id cls value stored ∧
    match resolve d (Path.fold path) with
    | Some (p, c) =>
        id = p_content_id p ∧ (path_count d id ≤ 1 ∨ c_classification c = cls)%Z
        ∧ content_check (mkContent stored cls (c_created_at c) t) = true
        ∧ d' = set_contents (<[id := mkContent stored cls (c_created_at c) t]> (contents d)) d
    | None =>
        id = (content_seq d + 1)%Z ∧ (content_seq d < Stamps.i64_max)%Z
        ∧ collision d (Path.fold path) = false
        ∧ contents d !! id = None ∧ paths d !! Path.fold path = None
        ∧ path_check (Path.as_str path) = true
        ∧ content_check (mkContent stored cls t t) = true
        ∧ d' = set_paths (<[Path.fold path := mkPathRow (Path.as_str path) id t t]> (paths d))
                 (set_contents (<[id := mkContent stored cls t t]> (contents d))
                    (set_content_seq id d))
    end.

Lemma overwrite_ok existing v cls t w row w' :
  overwrite_existing existing v cls t w = (Ok row, w') →
  ∃ stored c, stored_as w (cc_content_id existing) cls v stored
    ∧ (cc_path_count existing ≤ 1 ∨ cc_classification existing = cls)%Z
    ∧ contents (db w) !! cc_content_id existing = Some c
    ∧ content_check (mkContent stored cls (c_created_at c) (timestamptz t)) = true
    ∧ db w' = set_contents (<[cc_content_id existing :=
                mkContent stored cls (c_created_at c) (timestamptz t)]> (contents (db w))) (db w).
Proof.
  unfold overwrite_existing. destruct (_ && _) eqn:E; [by intros ?%fail_ok|]. intros Hrun.
  run_steps. match goal with Hs : stored_representation _ _ _ _ = _ |- _ =>
    apply stored_representation_ok in Hs as (Hdb & _ & Hst) end.
  unfold update_content in Hrun. apply store_stmt_ok in Hrun as (d & Hd & <- & _).
  rewrite Hdb in Hd. destruct (contents (db w) !! cc_content_id existing) as [c|] eqn:Ec; [|done].
  destruct (content_check _) eqn:Ek; [|done]. simplify_eq. eexists _, c.
  split; [exact Hst|]. split; [|done].
  apply andb_false_iff in E as [E|E]; [left; lia|right]. by bool_prop.
Qed.

Lemma create_ok path v cls t w row w' :
  create_value path v cls t w = (Ok row, w') →
  let id := (content_seq (db w) + 1)%Z in let t := timestamptz t in
  ∃ stored, stored_as w id cls v stored
    ∧ (content_seq (db w) < Stamps.i64_max)%Z ∧ collision (db w) (Path.fold path) = false
    ∧ contents (db w) !! id = None ∧ paths (db w) !! Path.fold path = None
    ∧ path_check (Path.as_str path) = true ∧ content_check (mkContent stored cls t t) = true
    ∧ db w' = set_paths (<[Path.fold path := mkPathRow (Path.as_str path) id t t]> (paths (db w)))
                (set_contents (<[id := mkContent stored cls t t]> (contents (db w)))
                   (set_content_seq id (db w))).
Proof.
  intros Hrun id t'. unfold create_value in Hrun. run_steps.
  match goal with Hc : path_collides _ _ = (Ok ?b, _) |- _ =>
    apply store_query_ok in Hc as [Hcol (Hdb1 & He1 & _)]; destruct b end; run_steps.
  match goal with Hc : reserve_content_id _ = _ |- _ =>
    apply store_stmt_ok in Hc as (d2 & Hd2 & Hdb2 & He2 & _) end.
  rewrite Hdb1 in Hd2. destruct (Z.ltb_spec (content_seq (db w)) Stamps.i64_max); [|done].
  injection Hd2 as Hid Hd2. subst d2.
  match goal with Hs : stored_representation _ _ _ _ = _ |- _ =>
    apply stored_representation_ok in Hs as (Hdb3 & _ & Hst) end.
  match goal with Hc : insert_content _ _ _ _ _ = _ |- _ =>
    apply store_stmt_ok in Hc as (d4 & Hd4 & Hdb4 & _) end.
  match goal with Hc : insert_path _ _ _ _ = _ |- _ =>
    apply store_stmt_ok in Hc as (d5 & Hd5 & Hdb5 & _) end.
  rewrite Hdb3, Hdb2 in Hd4. simpl in Hd4. rewrite <- Hid in *. fold id in Hd4.
  destruct (contents (db w) !! id) eqn:Eid; [done|].
  destruct (content_check _) eqn:Ek; [|done]. injection Hd4 as <- Hd4.
  rewrite Hdb4, <- Hd4 in Hd5. simpl in Hd5.
  change (lower (Path.as_str path)) with (Path.fold path) in Hd5.
  destruct (paths (db w) !! Path.fold path) eqn:Ep; [done|].
  fold id t' in Hd5. rewrite lookup_insert_eq in Hd5.
  destruct (path_check _) eqn:Epc; [|done]. injection Hd5 as _ Hd5.
  eexists. split_and!; try done.
  - unfold stored_as in *. by rewrite He2, He1 in Hst.
  - by rewrite Hdb5, <- Hd5.
Qed.

(** The row a put replaces, as the transaction reads it. *)
Definition existing_row (d : Database) (fold : bytes) : option PathContentClassRow :=
  '(p, c) ← resolve d fold;
  Some (mkPathContentClassRow (p_content_id p) (c_value c) (c_classification c)
          (path_count d (p_content_id p))).

Definition events_recorded (actor : Actor) (at_ : Z) (events : list AuditEvent) (d d' : Database)
  : Prop :=
  ∃ table seq,
    Trail.upsert_all actor at_ [] (Trail.rows recorder actor at_ events) (audit d) (audit_seq d)
      = Some (table, seq)
    ∧ d' = set_audit table seq d.

Lemma record_in_events actor at_ events w u w' :
  Trail.record_in recorder actor at_ events w = (Ok u, w') →
  events_recorded actor at_ events (db w) (db w').
Proof. intros (table & seq & ? & ? & _)%Trail.record_in_ok. by exists table, seq. Qed.

Lemma put_transaction_ok actor path v cls w row w' :
  put_transaction recorder actor path v cls w = (Ok row, w') →
  ∃ d, put_effect path v cls w d
    ∧ events_recorded actor (clock w)
        [put_event actor path (existing_row (db w) (Path.fold path)) cls v] d (db w').
Proof.
  unfold put_transaction. intros Hrun. run_steps.
  match goal with Hl : lock_mutation_path _ _ = _ |- _ =>
    apply lock_mutation_path_ok in Hl as (Hdb1 & He1 & Hc1 & _) end.
  match goal with Hq : path_content_class _ _ = (Ok ?o, _) |- _ =>
    apply store_query_ok in Hq as [Hex (Hdb2 & He2 & Hc2 & _)]; rename o into existing end.
  match goal with Hr : Trail.record_in _ _ _ _ _ = _ |- _ => apply record_in_events in Hr as Hrec end.
  rewrite Hdb1 in Hex, Hdb2. rewrite Hc1 in *.
  change (existing = existing_row (db w) (Path.fold path)) in Hex. subst existing.
  match goal with Hm : match existing_row _ _ with _ => _ end _ = (Ok _, ?w3) |- _ =>
    exists (db w3); rename Hm into Hbody end.
  split; [|exact Hrec]. clear Hrec. unfold put_effect, existing_row in *.
  destruct (resolve (db w) (Path.fold path)) as [[p c]|] eqn:Er; simpl in Hbody.
  - apply overwrite_ok in Hbody as (stored & c' & Hst & Hcls & Hc & Hk & Hd). simpl in *.
    apply resolve_spec in Er as [_ Er]. rewrite Hdb2, Er in Hc. simplify_eq.
    exists (p_content_id p), stored. unfold stored_as in *. rewrite He2, He1 in Hst.
    by rewrite Hdb2 in Hd.
  - apply create_ok in Hbody as (stored & Hst & Hrest). rewrite Hdb2 in *.
    exists (content_seq (db w) + 1)%Z, stored. unfold stored_as in *. rewrite He2, He1 in Hst.
    split; [done|]. split; [done|]. exact Hrest.
Qed.

(** The class and text of what a caller asked to store. *)
Definition written_as (written : PutContent) : bytes * bytes :=
  match written with PutPlain v => (v, PLAIN) | PutSecret v => (v, SECRET) end.

Lemma put_value_run context s written w :
  ∀ r w', put_value recorder context s written w = (r, w') →
  (∃ e, r = Err e ∧ w' = w)
  ∨ ∃ path pc actor, Authz.authorize context s [Write] false = Ok path
      ∧ written = Some pc ∧ contains_byte "000"%char (written_as pc).1 = false
      ∧ Rpc.actor context = Ok actor
      ∧ ∃ r1, transaction (put_transaction recorder actor path (written_as pc).1 (written_as pc).2) w
               = (r1, w')
        ∧ r = match r1 with
              | Ok row => Ok (mkPutMetadata (Rpc.timestamp (mr_created_at row))
                                (Rpc.timestamp (mr_updated_at row)))
              | Err e => Err e
              end.
Proof.
  intros r w'. unfold put_value, mbind, M_bind, lift.
  destruct (Authz.authorize context s [Write] false) as [path|e]; [|intros [= <- <-]; eauto].
  destruct written as [pc|]; [|intros [= <- <-]; eauto].
  destruct (match pc with PutPlain v => Ok (v, PLAIN) | PutSecret v => Ok (v, SECRET) end)
    as [[v cls]|] eqn:Epc; [|by destruct pc].
  assert (written_as pc = (v, cls)) as Hw by (destruct pc; by simplify_eq/=).
  replace (match Some pc with Some (PutPlain value) => Ok (value, PLAIN)
           | Some (PutSecret value) => Ok (value, SECRET)
           | None => Err (Rpc.invalid_argument "configuration value is invalid") end)
    with (@Ok (bytes * bytes) Status (v, cls)) by (by destruct pc; simplify_eq/=).
  destruct (contains_byte "000"%char v) eqn:En; [intros [= <- <-]; eauto|].
  destruct (Rpc.actor context) as [actor|e]; [|intros [= <- <-]; eauto].
  destruct (transaction _ w) as [[row|e] w1] eqn:Et.
  - rewrite !Rpc.to_timestamp_ok. intros [= <- <-]. right. exists path, pc, actor.
    rewrite Hw. split_and!; try done. eexists. split; [exact Et|done].
  - intros [= <- <-]. right. exists path, pc, actor. rewrite Hw. split_and!; try done.
    eexists. split; [exact Et|done].
Qed.

Lemma put_value_ok context s written w meta w' :
  put_value recorder context s written w = (Ok meta, w') →
  ∃ path pc actor d, Authz.authorize context s [Write] false = Ok path
    ∧ written = Some pc ∧ contains_byte "000"%char (written_as pc).1 = false
    ∧ Rpc.actor context = Ok actor
    ∧ put_effect path (written_as pc).1 (written_as pc).2 w d
    ∧ events_recorded actor (clock w)
        [put_event actor path (existing_row (db w) (Path.fold path)) (written_as pc).2
           (written_as pc).1] d (db w').
Proof.
  intros [(e & ? & _)|(path & pc & actor & Ha & -> & Hn & Hact & r1 & Ht & Hr)]%put_value_run;
    [done|].
  destruct r1 as [row|]; [|done]. apply in_transaction_ok in Ht as (Ho & w1 & Hb & _ & ->).
  apply put_transaction_ok in Hb as (d & He & Hrec). by exists path, pc, actor, d.
Qed.

(** ** The tree survives *)

Lemma events_recorded_wf actor at_ events d d' :
  tree_wf d → events_recorded actor at_ events d d' → tree_wf d'.
Proof.
  intros Hw (table & seq & Hu & ->). apply tree_wf_audit; [done|].
  by eapply Trail.upsert_all_wf in Hu as [? _]; [|apply Hw].
Qed.

Lemma events_recorded_tables actor at_ events d d' :
  events_recorded actor at_ events d d' →
  contents d' = contents d ∧ paths d' = paths d ∧ content_seq d' = content_seq d.
Proof. by intros (table & seq & _ & ->). Qed.

Lemma put_effect_wf path v cls w d : tree_wf (db w) → put_effect path v cls w d → tree_wf d.
Proof.
  intros Hw (id & stored & _ & Heff).
  destruct (resolve (db w) (Path.fold path)) as [[p c]|] eqn:Er.
  - destruct Heff as (-> & _ & Hk & ->). apply resolve_spec in Er as [_ Hc].
    by eapply tree_wf_overwrite.
  - destruct Heff as (-> & Hs & Hcol & Hid & Hp & Hpc & Hk & ->).
    pose proof (wf_seq _ Hw). apply tree_wf_insert_path; simpl; try done; [lia| |lia|].
    + intros j. rewrite lookup_insert_is_Some.
      destruct (decide (content_seq (db w) + 1 = j)%Z); naive_solver.
    + intros j c. rewrite lookup_insert_Some. intros [[_ <-]|[_ ?]]; [done|by eapply wf_check].
Qed.

(** Whatever holds of the committed database and is kept by a successful put
    is kept by every put. *)
Lemma put_value_preserves (I : Database → Prop) context s written w :
  (∀ d d', I d → seq_le d d' → I (rollback d d')) →
  (∀ path pc actor d d', put_effect path (written_as pc).1 (written_as pc).2 w d → written = Some pc →
     ∀ events, events_recorded actor (clock w) events d d' → I d') →
  I (db w) → I (db (snd (put_value recorder context s written w))).
Proof.
  intros Hroll Hok HI. destruct (put_value recorder context s written w) as [r w'] eqn:E. simpl.
  apply put_value_run in E as [(e & _ & ->)|(path & pc & actor & _ & -> & _ & _ & r1 & Ht & _)]; [done|].
  replace w' with (snd (transaction (put_transaction recorder actor path (written_as pc).1
    (written_as pc).2) w)) by (by rewrite Ht).
  unfold transaction. apply transaction_preserves; [apply _|done| |done].
  intros row w1 Hb. apply put_transaction_ok in Hb as (d & He & Hrec). by eapply Hok.
Qed.

(** Random bytes of the length a nonce has. *)
Definition good_entropy (w : World) : Prop :=
  Forall (λ o, ∀ nonce, o = Some nonce → length nonce = Cipher.NONCE_LEN) (entropy w).

Lemma good_entropy_head w nonce :
  good_entropy w → head (entropy w) = Some (Some nonce) → length nonce = Cipher.NONCE_LEN.
Proof. intros Hg. destruct Hg as [|o os Ho _]; [done|]. intros [= ->]. by apply Ho. Qed.

Lemma put_effect_sealed `{!CryptoLaws} path pc w d :
  good_entropy w → from_utf8_ok (written_as pc).1 = true → sealed (db w) →
  put_effect path (written_as pc).1 (written_as pc).2 w d → sealed d.
Proof.
  intros Hg Hu Hs (id & stored & Hst & Heff).
  assert ((written_as pc).2 = SECRET →
          Cipher.decrypt id SECRET stored = Ok (written_as pc).1) as Hdec.
  { intros Hc. unfold stored_as in Hst. rewrite decide_True in Hst by done.
    destruct Hst as (nonce & Hn & He). rewrite Hc in He.
    eapply Cipher.decrypt_encrypt; [by eapply good_entropy_head|done|done]. }
  assert (∃ t t', contents d = <[id := mkContent stored (written_as pc).2 t t']> (contents (db w)))
    as (t & t' & Hd).
  { destruct (resolve _ _) as [[p c]|]; [destruct Heff as (-> & _ & _ & ->)
      |destruct Heff as (-> & _ & _ & _ & _ & _ & _ & ->)]; by do 2 eexists. }
  intros j c. rewrite Hd, lookup_insert_Some. intros [[<- <-]|[_ Hj]]; [|by apply Hs].
  simpl. intros Hc. eexists. by apply Hdec.
Qed.

End put.

Lemma put_value_wf `{Crypto} recorder context s written w :
  tree_wf (db w) → tree_wf (db (snd (put_value recorder context s written w))).
Proof.
  intros Hw. apply put_value_preserves; [|intros|done]; [by intros; apply tree_wf_rollback|].
  eapply events_recorded_wf; [|done]. by eapply put_effect_wf.
Qed.

(** The sample deployment holds a tree. *)
Lemma with_plain_wf : tree_wf (db Sample.with_plain).
Proof. unfold Sample.with_plain. apply put_value_wf, tree_wf_empty. Qed.

Lemma with_secret_wf : tree_wf (db Sample.with_secret).
Proof. unfold Sample.with_secret. apply put_value_wf, with_plain_wf. Qed.

Lemma good_entropy_sample : good_entropy Sample.start.
Proof. unfold good_entropy. apply Forall_replicate. by intros nonce [= <-]. Qed.

Lemma good_entropy_with_plain : good_entropy Sample.with_plain.
Proof.
  unfold good_entropy. replace (entropy Sample.with_plain) with (entropy Sample.start)
    by (vm_compute; reflexivity). apply good_entropy_sample.
Qed.

(** ** What a successful write means for the reader *)

Lemma put_effect_resolve `{Crypto} path v cls w d :
  put_effect path v cls w d →
  ∃ p c, resolve d (Path.fold path) = Some (p, c) ∧ c_classification c = cls
    ∧ stored_as w (p_content_id p) cls v (c_value c)
    ∧ c_updated_at c = timestamptz (clock w)
    ∧ (∀ k q c', resolve d k = Some (q, c') → p_content_id q = p_content_id p → c' = c)
    ∧ (∀ k q, k ≠ Path.fold path → paths d !! k = Some q ↔ paths (db w) !! k = Some q)
    ∧ (∀ k q, k ≠ Path.fold path → paths d !! k = Some q → p_content_id q ≠ p_content_id p →
         resolve d k = resolve (db w) k).
Proof.
  intros (id & stored & Hst & Heff).
  destruct (resolve (db w) (Path.fold path)) as [[p c]|] eqn:Er.
  - destruct Heff as (-> & _ & _ & ->). apply resolve_spec in Er as [Hp Hc].
    exists p. eexists. split.
    { apply resolve_spec. split; [exact Hp|]. simpl. apply lookup_insert_eq. }
    split_and!; try done.
    + intros k q c' [_ Hc']%resolve_spec Hq. rewrite Hq in Hc'. simpl in Hc'.
      rewrite lookup_insert_eq in Hc'. by simplify_eq.
    + intros k q Hk Hq Hne. unfold resolve. simpl in *. rewrite Hq. simpl.
      by rewrite lookup_insert_ne.
  - destruct Heff as (-> & _ & _ & _ & Hp & _ & _ & ->).
    eexists. eexists. split.
    { apply resolve_spec. simpl. rewrite lookup_insert_eq. split; [done|]. apply lookup_insert_eq. }
    split_and!; try done.
    + intros k q c' [_ Hc']%resolve_spec Hq. rewrite Hq in Hc'. simpl in Hc'.
      rewrite lookup_insert_eq in Hc'. by simplify_eq.
    + intros k q Hk. simpl. by rewrite lookup_insert_ne.
    + intros k q Hk Hq Hne. unfold resolve. simpl in *. rewrite lookup_insert_ne in Hq by done.
      rewrite lookup_insert_ne by done. rewrite Hq. simpl. by rewrite lookup_insert_ne.
Qed.

Lemma resolve_tables d d' k :
  contents d' = contents d → paths d' = paths d → resolve d' k = resolve d k.
Proof. unfold resolve. by intros -> ->. Qed.

(** C17: after a successful put the path, however it is spelled, resolves to the
    written value under the written classification; every other path to the
    same content shows the new value, every path to another content resolves
    as before, and no other path appears or disappears. *)
Theorem put_value_is_seen_through_every_alias `{Crypto} (recorder : Trail.AuditRecorder)
    (context : Rpc.CallContext) (s : bytes) (pc : PutContent) (w w' : World) (meta : PutMetadata) :
  put_value recorder context s (Some pc) w = (Ok meta, w') →
  let fold := to_ascii_lowercase s in
  ∃ p c, resolve (db w') fold = Some (p, c)
    ∧ c_classification c = (written_as pc).2
    ∧ stored_as w (p_content_id p) (written_as pc).2 (written_as pc).1 (c_value c)
    ∧ (∀ k q c', resolve (db w') k = Some (q, c') → p_content_id q = p_content_id p → c' = c)
    ∧ (∀ k q, k ≠ fold → paths (db w') !! k = Some q ↔ paths (db w) !! k = Some q)
    ∧ (∀ k q, k ≠ fold → paths (db w') !! k = Some q → p_content_id q ≠ p_content_id p →
         resolve (db w') k = resolve (db w) k).
Proof.
  intros (path & pc' & actor & d & Ha & [= <-] & _ & _ & He & Hrec)%put_value_ok fold.
  apply Authz.authorize_ok in Ha as (-> & _).
  apply events_recorded_tables in Hrec as (Hc & Hp & _).
  apply put_effect_resolve in He as (p & c & Hr & Hcls & Hst & _ & Hal & Hps & Hrest).
  change (Path.fold (mkPath s)) with fold in *.
  assert (∀ k, resolve (db w') k = resolve d k) as Hres by (intros; by apply resolve_tables).
  exists p, c. setoid_rewrite Hres. rewrite Hp. split_and!; done.
Qed.

Lemma put_value_is_seen_through_every_alias_witness :
  ∃ meta p c,
    fst (put_value Sample.hourly Sample.owner "/APPS/url" (Some (PutPlain "y")) Sample.with_plain)
      = Ok meta
    ∧ resolve (db (snd (put_value Sample.hourly Sample.owner "/APPS/url" (Some (PutPlain "y"))
                          Sample.with_plain))) "/apps/url" = Some (p, c)
    ∧ c_classification c = PLAIN.
Proof.
  set (run := put_value Sample.hourly Sample.owner "/APPS/url" (Some (PutPlain "y")) Sample.with_plain).
  set (meta := match fst run with Ok m => m | Err _ => mkPutMetadata (mkTimestamp 0 0) (mkTimestamp 0 0) end).
  destruct (put_value_is_seen_through_every_alias Sample.hourly Sample.owner "/APPS/url"
    (PutPlain "y") Sample.with_plain (snd run) meta) as (p & c & Hr & Hcls & _);
    [vm_compute; reflexivity|].
  exists meta, p, c. split; [vm_compute; reflexivity|]. split; [exact Hr|exact Hcls].
Defined.

(** ** Revealing *)

Section reveal.
Context `{Crypto} (recorder : Trail.AuditRecorder).

Lemma reveal_secret_ok context s w r w' :
  reveal_secret recorder context s w = (Ok r, w') →
  ∃ path principal actor p c, Authz.authorize context s [Read] false = Ok path
    ∧ Rpc.principal context = Ok principal ∧ Rpc.actor context = Ok actor
    ∧ resolve (db w) (Path.fold path) = Some (p, c) ∧ c_classification c = SECRET
    ∧ Cipher.decrypt (p_content_id p) SECRET (c_value c) = Ok (expose_revealed r)
    ∧ events_recorded recorder actor (clock w) [Event.secret_revealed actor (Path.as_str path)]
        (db w) (db w').
Proof.
  unfold reveal_secret. intros Hrun. run_steps.
  match goal with Hq : revealed_row _ _ = _ |- _ =>
    apply store_query_ok in Hq as [Hrow (Hdb & _ & Hclk & _)] end.
  destruct (negb _) eqn:Ec in Hrun; [run_step|]. run_steps.
  match goal with Hr : Trail.record _ _ _ _ _ = _ |- _ =>
    apply (record_in_events recorder _ _ [_]) in Hr as Hrec end.
  rewrite Hclk, Hdb in Hrec. bool_prop.
  match goal with Ha : Authz.authorize _ _ _ _ = Ok ?p |- _ =>
    rename Ha into Hauth; pose proof (Authz.authorize_ok _ _ _ _ _ Hauth) as (_ & _ & _ & pr & Hpr & _) end.
  match goal with Hb : (resolve _ _ ≫= _) = Some _ |- _ =>
    apply bind_Some in Hb as ([p c] & Hres & [= <-]) end.
  simpl in *. do 5 eexists. split_and!; try done. by rewrite Ec in *.
Qed.

(** What a reveal of a readable secret can answer. *)
Lemma reveal_secret_answer context s path actor p c v w :
  Authz.authorize context s [Read] false = Ok path → Rpc.actor context = Ok actor →
  resolve (db w) (Path.fold path) = Some (p, c) → c_classification c = SECRET →
  Cipher.decrypt (p_content_id p) SECRET (c_value c) = Ok v →
  (fst (reveal_secret recorder context s w) = Ok (mkRevealedSecret v)
   ∨ fst (reveal_secret recorder context s w) = Err Rpc.storage_unavailable)
  ∧ (quiet w →
     is_Some (Trail.upsert_all actor (clock w) []
       (Trail.rows recorder actor (clock w) [Event.secret_revealed actor (Path.as_str path)])
       (audit (db w)) (audit_seq (db w))) →
     fst (reveal_secret recorder context s w) = Ok (mkRevealedSecret v)).
Proof.
  intros Ha Hact Hres Hcls Hdec.
  unfold reveal_secret, mbind, M_bind, lift. rewrite Ha, Hact.
  destruct (revealed_row (Path.fold path) w) as [[row|e] w1] eqn:Eq.
  - pose proof (store_query_ok _ _ _ _ Eq) as [Hrow (Hdb & _ & Hclk & _)].
    rewrite Hres in Hrow. simpl in Hrow. subst row.
    cbn [ok_or rv_classification rv_content_id rv_value].
    rewrite Hcls, bool_decide_eq_true_2, Hdec by done. cbn [negb map_err].
    unfold now. rewrite Hclk.
    destruct (Trail.record recorder actor (clock w)
      (Event.secret_revealed actor (Path.as_str path)) w1) as [[u|e] w2] eqn:Er; cbn [fst].
    + split; [by left|done].
    + apply Trail.settle_err in Er as He. subst e. split; [by right|].
      intros Hq Hsome. exfalso.
      assert (quiet w1) as Hq1.
      { apply map_store_ok, query_ok in Eq as (_ & _ & ->). by apply quiet_tick. }
      destruct Hsome as [[table seq] Hsome]. rewrite <- Hdb in Hsome.
      pose proof (Trail.record_in_quiet _ _ _ _ _ _ _ Hq1 Hsome) as Hok.
      unfold Trail.record in Er. unfold Trail.record_in in Hok. by rewrite Er in Hok.
  - pose proof (store_query_err _ _ _ _ Eq) as [-> _]. split; [by right|].
    intros Hq. unfold revealed_row, map_store, map_error in Eq. by rewrite query_quiet in Eq.
Qed.

End reveal.

(** C6: a written secret comes back exactly: whoever may read the path, in any
    spelling, and in any later state where the tables still hold what the put
    left, is given the secret that was written or told that storage is
    unavailable; and when the database answers and accepts the audit record,
    the answer is the secret. *)
Theorem written_secret_is_what_is_revealed `{CryptoLaws} (recorder : Trail.AuditRecorder)
    (writer reader : Rpc.CallContext) (s t v : bytes) (w w1 w2 : World) (meta : PutMetadata)
    (path : ConfigPath) (actor : Actor) :
  good_entropy w → from_utf8_ok v = true →
  put_value recorder writer s (Some (PutSecret v)) w = (Ok meta, w1) →
  contents (db w2) = contents (db w1) → paths (db w2) = paths (db w1) →
  Authz.authorize reader t [Read] false = Ok path → Rpc.actor reader = Ok actor →
  to_ascii_lowercase t = to_ascii_lowercase s →
  (fst (reveal_secret recorder reader t w2) = Ok (mkRevealedSecret v)
   ∨ fst (reveal_secret recorder reader t w2) = Err Rpc.storage_unavailable)
  ∧ (quiet w2 →
     is_Some (Trail.upsert_all actor (clock w2) []
       (Trail.rows recorder actor (clock w2) [Event.secret_revealed actor t])
       (audit (db w2)) (audit_seq (db w2))) →
     fst (reveal_secret recorder reader t w2) = Ok (mkRevealedSecret v)).
Proof.
  intros Hg Hu Hput Hc Hp Ha Hact Hst.
  apply put_value_ok in Hput as (path1 & pc & actor1 & d & Ha1 & [= <-] & _ & _ & He & Hrec).
  apply Authz.authorize_ok in Ha1 as (-> & _).
  pose proof (Authz.authorize_ok _ _ _ _ _ Ha) as (-> & _).
  apply events_recorded_tables in Hrec as (Hc1 & Hp1 & _).
  apply put_effect_resolve in He as (p & c & Hr & Hcls & Hsa & _).
  simpl in Hcls, Hsa. unfold stored_as in Hsa. rewrite decide_True in Hsa by done.
  destruct Hsa as (nonce & Hn & Henc).
  apply (reveal_secret_answer recorder reader t (mkPath t) actor p c); [done|done| |done|].
  - change (Path.fold (mkPath t)) with (to_ascii_lowercase t). rewrite Hst.
    rewrite (resolve_tables d); [exact Hr|congruence|congruence].
  - eapply Cipher.decrypt_encrypt; [by eapply good_entropy_head|done|done].
Qed.

Lemma written_secret_is_what_is_revealed_witness :
  fst (reveal_secret Sample.hourly Sample.owner "/apps/PW" Sample.with_secret)
    = Ok (mkRevealedSecret "hunter2").
Proof.
  set (run := put_value Sample.hourly Sample.owner "/Apps/Pw" (Some (PutSecret "hunter2"))
                Sample.with_plain).
  set (meta := match fst run with Ok m => m
               | Err _ => mkPutMetadata (mkTimestamp 0 0) (mkTimestamp 0 0) end).
  refine (proj2 (written_secret_is_what_is_revealed Sample.hourly Sample.owner Sample.owner
    "/Apps/Pw" "/apps/PW" "hunter2" Sample.with_plain (snd run) Sample.with_secret meta
    (mkPath "/apps/PW") (mkActor "user-1" (Some "ada") "v5") _ _ _ _ _ _ _ _) _ _).
  - apply good_entropy_with_plain.
  - reflexivity.
  - vm_compute; reflexivity.
  - reflexivity.
  - reflexivity.
  - vm_compute; reflexivity.
  - reflexivity.
  - reflexivity.
  - vm_compute; constructor.
  - vm_compute. eexists; reflexivity.
Defined.

(** C19: revealing fails closed: a secret leaves the server only for a caller
    who may read its path, only as the authenticated opening of what is stored
    there, and only after the access was recorded, which is the one change the
    reveal makes. *)
Theorem reveal_is_authorized_and_recorded `{Crypto} (recorder : Trail.AuditRecorder)
    (context : Rpc.CallContext) (s : bytes) (w w' : World) (r : RevealedSecret) :
  tree_wf (db w) →
  reveal_secret recorder context s w = (Ok r, w') →
  ∃ principal p c,
    Rpc.principal context = Ok principal
    ∧ Auth.allows principal (mkPath s) Read = true
    ∧ resolve (db w) (to_ascii_lowercase s) = Some (p, c) ∧ c_classification c = SECRET
    ∧ Cipher.decrypt (p_content_id p) SECRET (c_value c) = Ok (expose_revealed r)
    ∧ Trail.total (audit (db w')) = (Trail.total (audit (db w)) + 1)%Z
    ∧ contents (db w') = contents (db w) ∧ paths (db w') = paths (db w).
Proof.
  intros Hw (path & principal & actor & p & c & Ha & Hpr & _ & Hr & Hcls & Hd & Hrec)%reveal_secret_ok.
  apply Authz.authorize_ok in Ha as (-> & _ & _ & pr & Hpr' & Hall). simplify_eq.
  exists pr, p, c. split; [done|]. split; [apply Hall; by left|].
  split; [done|]. split; [done|]. split; [done|].
  pose proof (events_recorded_tables _ _ _ _ _ _ Hrec) as (-> & -> & _). split; [|done].
  destruct Hrec as (table & seq & Hu & ->).
  by apply Trail.upsert_all_wf in Hu as [_ ?]; [|apply Hw].
Qed.

Lemma reveal_is_authorized_and_recorded_witness :
  ∃ principal, Rpc.principal Sample.owner = Ok principal
    ∧ Auth.allows principal (mkPath "/apps/pw") Read = true.
Proof.
  set (run := reveal_secret Sample.hourly Sample.owner "/apps/pw" Sample.with_secret).
  destruct (reveal_is_authorized_and_recorded Sample.hourly Sample.owner "/apps/pw"
    Sample.with_secret (snd run) (mkRevealedSecret "hunter2")) as (pr & p & c & Hp & Ha & _).
  - apply with_secret_wf.
  - vm_compute; reflexivity.
  - by exists pr.
Defined.

End Put.
