(* ===== verification/ValuesDelete.v ===== *)
(** * Deleting values

    What [delete_values] of the configuration service does: exactly the named
    paths go, a content goes with its last path and not before, the count is
    exact, and the tree survives every way the call can end. *)

From stdpp Require Import strings.
From S2P Require Import Prelude Bytes ConfigPath Core Auth Encryption AuditEvent Rpc Database AuditTrail ValuePaths Store Invariant Values ValuesPut.

Local Open Scope bytes_scope.

Module Delete.
Import Store Tree Values Put.

(** ** Deleting rows and pruning contents *)

Lemma elem_of_dedup l x : x ∈ dedup l ↔ x ∈ l.
Proof.
  induction l as [|y [|z l] IH]; [done|done|]. cbn [dedup] in *.
  destruct (Z.eqb_spec y z) as [->|Hne].
  - rewrite IH. rewrite !elem_of_cons. tauto.
  - rewrite elem_of_cons, IH, !elem_of_cons. tauto.
Qed.

Lemma elem_of_content_ids rows id : id ∈ content_ids rows ↔ ∃ r, r ∈ rows ∧ dp_content_id r = id.
Proof.
  unfold content_ids. rewrite elem_of_dedup, elem_of_sort_by, list_elem_of_In, in_map_iff.
  setoid_rewrite list_elem_of_In. naive_solver.
Qed.

Definition pruned (ids : list Z) (d : Database) : Database :=
  set_contents (filter (λ '(id, _), ¬ (id ∈ ids ∧ referenced d id = false)) (contents d)) d.

Lemma prune_ok ids u w w' :
  prune_orphan_contents ids w = (Ok u, w') →
  db w' = pruned ids (db w) ∧ entropy w' = entropy w ∧ clock w' = clock w.
Proof.
  unfold prune_orphan_contents. destruct ids as [|id ids]; cbn [is_empty]; intros Hrun; run_steps.
  - split; [|done]. unfold pruned. rewrite map_filter_id; [by destruct (db w)|].
    intros i c _ [[]%not_elem_of_nil _].
  - match goal with Hl : for_each lock_content _ _ = _ |- _ =>
      apply for_each_read_only in Hl as (Hdb & He & Hc & _); [|by intros; eapply lock_content_ok] end.
    apply store_stmt_ok in Hrun as (d & Hd & Hdb' & He' & Hc').
    injection Hd as _ <-. rewrite Hdb', He', Hc', Hdb. done.
Qed.

Lemma elem_of_deleted f d r :
  r ∈ fst (delete_where f d) ↔
  ∃ k p c, paths d !! k = Some p ∧ contents d !! p_content_id p = Some c ∧ f k p c = true
    ∧ r = mkDeletedPathRow (p_path p) (p_content_id p) (c_value c) (c_classification c).
Proof.
  unfold delete_where. simpl. rewrite elem_of_sort_by, list_elem_of_In, in_map_iff. split.
  - intros ([[k p] c] & <- & Hin). apply filter_In in Hin as [Hin%list_elem_of_In Hf].
    apply elem_of_joined in Hin as [Hp Hc]. by exists k, p, c.
  - intros (k & p & c & Hp & Hc & Hf & ->). exists (k, p, c). split; [done|].
    apply filter_In. split; [|done]. apply list_elem_of_In, elem_of_joined. done.
Qed.

Lemma deleted_paths f d k p :
  paths (snd (delete_where f d)) !! k = Some p ↔ paths d !! k = Some p ∧ matched f d k p = false.
Proof. simpl. apply map_lookup_filter_Some. Qed.

Lemma matched_spec f d k p :
  matched f d k p = true ↔ ∃ c, contents d !! p_content_id p = Some c ∧ f k p c = true.
Proof. unfold matched. destruct (contents d !! p_content_id p); naive_solver. Qed.

(** The database a deletion leaves: the rows gone, and the contents pruned
    among those the rows referenced. *)
Definition cleared_db (f : bytes → PathRow → ContentRow → bool) (d : Database) : Database :=
  pruned (content_ids (fst (delete_where f d))) (snd (delete_where f d)).

(** Exactly the unreferenced contents are pruned. *)
Lemma cleared_contents f d id c :
  tree_wf d →
  contents (cleared_db f d) !! id = Some c ↔
  contents d !! id = Some c ∧ ∃ k p, paths (cleared_db f d) !! k = Some p ∧ p_content_id p = id.
Proof.
  intros Hw. unfold cleared_db, pruned. cbn [contents paths set_contents].
  rewrite map_lookup_filter_Some. change (contents (delete_where f d).2) with (contents d).
  rewrite <- referenced_spec. split.
  - intros [Hc Hn]. split; [done|].
    destruct (referenced (delete_where f d).2 id) eqn:E; [done|]. exfalso. apply Hn. split; [|done].
    destruct (wf_path _ Hw id) as (k & p & Hp & Hid); [by eexists|].
    apply elem_of_content_ids. apply not_true_iff_false in E. rewrite referenced_spec in E.
    destruct (matched f d k p) eqn:Em.
    + apply matched_spec in Em as (c' & Hc' & Hf). eexists. split; [apply elem_of_deleted|].
      * by exists k, p, c'.
      * done.
    + destruct E. exists k, p. split; [|done]. by apply deleted_paths.
  - intros [Hc Hr]. split; [done|]. intros [_ ?]. congruence.
Qed.

Lemma cleared_paths f d k p :
  paths (cleared_db f d) !! k = Some p ↔ paths d !! k = Some p ∧ matched f d k p = false.
Proof. apply deleted_paths. Qed.

Lemma cleared_wf f d : tree_wf d → tree_wf (cleared_db f d).
Proof.
  intros Hw.
  replace (cleared_db f d) with
    (set_contents (contents (cleared_db f d))
       (set_paths (filter (λ '(k, p), negb (matched f d k p) = true) (paths d)) d)).
  - apply (tree_wf_delete d (λ k p, negb (matched f d k p))); [done|]. intros id c.
    rewrite cleared_contents by done. setoid_rewrite cleared_paths.
    setoid_rewrite map_lookup_filter_Some. setoid_rewrite negb_true_iff. done.
  - unfold cleared_db, pruned, delete_where. simpl. unfold set_contents, set_paths. simpl.
    do 2 f_equal. apply map_filter_ext. intros k p _. apply negb_true_iff.
Qed.

(** *** Counting *)

Lemma joined_keys l (cs : gmap Z ContentRow) :
  List.map (λ '(k, _, _), k) (omap (λ '(k, p), c ← cs !! p_content_id p; Some (k, p, c)) l)
    `sublist_of` List.map fst (l : list (bytes * PathRow)).
Proof.
  induction l as [|[k p] l IH]; simpl; [constructor|].
  destruct (cs !! p_content_id p); simpl; by constructor.
Qed.

Lemma joined_nodup d : NoDup (List.map (λ '(k, _, _), k) (joined d)).
Proof.
  eapply sublist_NoDup; [|apply joined_keys]. unfold path_rows, entries.
  change (List.map fst ?l) with (fst <$> l). rewrite sort_by_perm. apply NoDup_fst_map_to_list.
Qed.

(** One row is returned per deleted path. *)
Lemma length_deleted f d :
  length (fst (delete_where f d)) = size (filter (λ '(k, p), matched f d k p = true) (paths d)).
Proof.
  unfold delete_where. simpl. rewrite length_sort_by, length_map.
  rewrite <- length_map_to_list, <- (length_map (λ '(k, _, _), k)), <- (length_fmap fst).
  apply Permutation_length, NoDup_Permutation.
  - eapply sublist_NoDup; [apply joined_nodup|]. apply map_sublist, filter_sublist.
  - apply NoDup_fst_map_to_list.
  - intros k. rewrite list_elem_of_In, in_map_iff, list_elem_of_fmap. split.
    + intros ([[k' p] c] & <- & Hin). apply filter_In in Hin as [Hin%list_elem_of_In Hf].
      apply elem_of_joined in Hin as [Hp Hc]. exists (k', p). split; [done|].
      apply elem_of_map_to_list, map_lookup_filter_Some. split; [done|].
      apply matched_spec. eauto.
    + intros ([k' p] & -> & Hin). apply elem_of_map_to_list, map_lookup_filter_Some in Hin as [Hp Hm].
      apply matched_spec in Hm as (c & Hc & Hf). exists (k', p, c). split; [done|].
      apply filter_In. split; [|done]. apply list_elem_of_In, elem_of_joined. done.
Qed.

(** ** The operation *)

(** The rows a delete names. *)
Definition named (fold : bytes) (recurse : bool) (k : bytes) (_ : PathRow) (_ : ContentRow) : bool :=
  if recurse then at_or_below k fold else bool_decide (k = fold).

Section delete.
Context `{Crypto} (recorder : Trail.AuditRecorder).

#[global] Instance Forward_delete actor path recurse :
  Forward (delete_transaction recorder actor path recurse).
Proof.
  unfold delete_transaction. apply Forward_bind; [apply _|intros _].
  apply Forward_bind; [apply _|intros deleted]. destruct (is_empty deleted); apply _.
Qed.

Lemma delete_transaction_ok actor path recurse w at_ count w' :
  delete_transaction recorder actor path recurse w = (Ok (at_, count), w') →
  let f := named (Path.fold path) recurse in
  let deleted := fst (delete_where f (db w)) in
  at_ = clock w ∧ count = length deleted ∧ deleted ≠ []
  ∧ events_recorded recorder actor (clock w) (deletion_events actor path deleted recurse)
      (cleared_db f (db w)) (db w').
Proof.
  intros Hrun f deleted. unfold delete_transaction in Hrun. run_steps.
  match goal with Hl : lock_mutation_path _ _ = _ |- _ =>
    apply lock_mutation_path_ok in Hl as (Hdb1 & _ & Hc1 & _) end.
  match goal with Hd : delete_paths _ _ _ = (Ok ?rows, _) |- _ =>
    apply store_stmt_ok in Hd as (d & Heq & Hdb2 & _ & Hc2); rename rows into del end.
  rewrite Hdb1 in *.
  change (Some (delete_where f (db w)) = Some (del, d)) in Heq.
  assert (delete_where f (db w) = (del, d)) as Hdel by congruence.
  assert (del = deleted ∧ d = snd (delete_where f (db w))) as [-> ->].
  { unfold deleted. by rewrite Hdel. }
  destruct (is_empty deleted) eqn:Ee; run_steps.
  match goal with Hp : prune_orphan_contents _ _ = _ |- _ => apply prune_ok in Hp as (Hdb3 & _ & Hc3) end.
  match goal with Hr : Trail.record_in _ _ _ _ _ = _ |- _ => apply record_in_events in Hr as Hrec end.
  rewrite Hc3, Hc2, Hc1, Hdb3, Hdb2 in *.
  match goal with E : (at_, count) = _ |- _ => injection E as -> -> end.
  split; [done|]. split; [done|]. split; [by intros Hn; rewrite Hn in Ee|done].
Qed.

Lemma delete_values_run context s recurse w r w' :
  delete_values recorder context s recurse w = (r, w') →
  (∃ e, r = Err e ∧ w' = w)
  ∨ ∃ path actor, Authz.authorize context s [Write] recurse = Ok path
      ∧ Rpc.actor context = Ok actor
      ∧ ∃ r1, transaction (delete_transaction recorder actor path recurse) w = (r1, w')
        ∧ r = match r1 with
              | Ok (at_, count) => Ok (mkDeleteMetadata (Rpc.timestamp at_) (Z.of_nat count))
              | Err e => Err e
              end.
Proof.
  unfold delete_values, mbind, M_bind, lift.
  destruct (Authz.authorize context s [Write] recurse) as [path|e]; [|intros [= <- <-]; eauto].
  destruct (Rpc.actor context) as [actor|e]; [|intros [= <- <-]; eauto].
  destruct (transaction (delete_transaction recorder actor path recurse) w) as [[[at_ count]|e] w1] eqn:Et.
  - rewrite Rpc.to_timestamp_ok. intros [= <- <-]. right. exists path, actor. eauto 10.
  - intros [= <- <-]. right. exists path, actor. eauto 10.
Qed.

Lemma delete_values_ok context s recurse w meta w' :
  delete_values recorder context s recurse w = (Ok meta, w') →
  let f := named (to_ascii_lowercase s) recurse in
  let deleted := fst (delete_where f (db w)) in
  ∃ actor, Authz.authorize context s [Write] recurse = Ok (mkPath s) ∧ Rpc.actor context = Ok actor
    ∧ meta = mkDeleteMetadata (Rpc.timestamp (clock w)) (Z.of_nat (length deleted))
    ∧ deleted ≠ []
    ∧ events_recorded recorder actor (clock w) (deletion_events actor (mkPath s) deleted recurse)
        (cleared_db f (db w)) (db w').
Proof.
  intros [(e & ? & _)|(path & actor & Ha & Hact & r1 & Ht & Hr)]%delete_values_run f deleted; [done|].
  destruct r1 as [[at_ count]|]; [|done].
  apply in_transaction_ok in Ht as (Ho & w1 & Hb & _ & ->).
  assert (path = mkPath s) as -> by (by apply Authz.authorize_ok in Ha as (-> & _)).
  apply delete_transaction_ok in Hb as (-> & -> & Hne & Hrec).
  injection Hr as ->. exists actor. split_and!; done.
Qed.

Lemma delete_values_wf context s recurse w :
  tree_wf (db w) → tree_wf (db (snd (delete_values recorder context s recurse w))).
Proof.
  intros Hw. destruct (delete_values recorder context s recurse w) as [r w'] eqn:E. simpl.
  apply delete_values_run in E as [(e & _ & ->)|(path & actor & _ & _ & r1 & Ht & _)]; [done|].
  replace w' with (snd (transaction (delete_transaction recorder actor path recurse) w))
    by (by rewrite Ht).
  unfold transaction. apply transaction_preserves; [apply _|apply tree_wf_rollback| |done].
  intros [at_ count] w1 Hb. apply delete_transaction_ok in Hb as (_ & _ & _ & Hrec).
  eapply events_recorded_wf; [|exact Hrec]. by apply cleared_wf.
Qed.
End delete.

(** The paths a delete names. *)
Definition Named (s : bytes) (recurse : bool) (k : bytes) : Prop :=
  if recurse then Path.AtOrBelow k (to_ascii_lowercase s) else k = to_ascii_lowercase s.

Lemma named_spec s recurse k p c :
  named (to_ascii_lowercase s) recurse k p c = true ↔ Named s recurse k.
Proof. unfold named, Named. destruct recurse; [apply at_or_below_spec|apply bool_decide_eq_true]. Qed.

Lemma matched_named d s recurse k p :
  tree_wf d → paths d !! k = Some p →
  matched (named (to_ascii_lowercase s) recurse) d k p = true ↔ Named s recurse k.
Proof.
  intros Hw Hp. rewrite matched_spec. setoid_rewrite named_spec.
  destruct (wf_content _ Hw _ _ Hp) as [c Hc]. rewrite Hc. naive_solver.
Qed.

(** C18: a successful delete removes exactly the paths it names (the path
    itself, or with [recurse] everything at or below it, ignoring letter
    case), at least one; a content goes exactly when its last path went, so
    values shared with other paths survive; and the reported count is the
    number of paths removed. *)
Theorem delete_removes_exactly_the_named `{Crypto} (recorder : Trail.AuditRecorder)
    (context : Rpc.CallContext) (s : bytes) (recurse : bool) (w w' : World) (meta : DeleteMetadata) :
  tree_wf (db w) → delete_values recorder context s recurse w = (Ok meta, w') →
  (∀ k p, paths (db w') !! k = Some p ↔ paths (db w) !! k = Some p ∧ ¬ Named s recurse k)
  ∧ (∀ id c, contents (db w') !! id = Some c ↔
       contents (db w) !! id = Some c
       ∧ ∃ k p, paths (db w) !! k = Some p ∧ p_content_id p = id ∧ ¬ Named s recurse k)
  ∧ (∃ k, is_Some (paths (db w) !! k) ∧ Named s recurse k)
  ∧ deleted_count meta = (Z.of_nat (size (paths (db w))) - Z.of_nat (size (paths (db w'))))%Z.
Proof.
  intros Hw (actor & _ & _ & -> & Hne & Hrec)%delete_values_ok.
  set (f := named (to_ascii_lowercase s) recurse) in *.
  apply events_recorded_tables in Hrec as (Hc & Hp & _).
  assert (∀ k p, paths (db w') !! k = Some p ↔ paths (db w) !! k = Some p ∧ ¬ Named s recurse k) as Hk.
  { intros k p. rewrite Hp, cleared_paths, <- not_true_iff_false. split; intros [H1 H2].
    - split; [done|]. intros Hn. by apply H2, (matched_named (db w) s recurse k p).
    - split; [done|]. intros Hm. by apply H2, (matched_named (db w) s recurse k p). }
  split; [done|]. split; [|split].
  - intros id c. rewrite Hc, cleared_contents by done. rewrite <- Hp. setoid_rewrite Hk. naive_solver.
  - destruct (fst (delete_where f (db w))) as [|r rs] eqn:E; [done|].
    assert (r ∈ fst (delete_where f (db w))) as Hr by (rewrite E; by left).
    apply elem_of_deleted in Hr as (k & p & c & Hkp & _ & Hf & _). exists k.
    split; [by eexists|]. by apply named_spec in Hf.
  - cbn [deleted_count]. rewrite length_deleted, Hp.
    pose proof (map_filter_union_complement (λ '(k, p), matched f (db w) k p = true)
                  (paths (db w))) as Hu.
    apply (f_equal size) in Hu.
    rewrite map_size_disj_union in Hu by apply map_disjoint_filter_complement.
    assert (filter (λ v, ¬ (λ '(k, p), matched f (db w) k p = true) v) (paths (db w))
            = paths (cleared_db f (db w))) as <-; [|lia].
    apply map_filter_ext. intros k p _. apply not_true_iff_false.
Qed.

Lemma delete_removes_exactly_the_named_witness :
  let run := delete_values Sample.hourly Sample.owner "/APPS" true Sample.with_secret in
  fst run = Ok (mkDeleteMetadata (mkTimestamp 1700000000 123456789) 2)
  ∧ paths (db (snd run)) !! "/apps/pw" = None.
Proof.
  intros run. split; [vm_compute; reflexivity|].
  destruct (delete_removes_exactly_the_named Sample.hourly Sample.owner "/APPS" true
    Sample.with_secret (snd run) (mkDeleteMetadata (mkTimestamp 1700000000 123456789) 2)
    with_secret_wf) as (Hk & _); [vm_compute; reflexivity|].
  destruct (paths (db (snd run)) !! "/apps/pw") as [p|] eqn:Ep; [|done].
  apply Hk in Ep as [_ Hn]. destruct Hn. by right; right; exists "pw".
Defined.

End Delete.
