(* ===== verification/ValuesAlias.v ===== *)
(** * Aliasing values

    What [add_value_path] of the configuration service does: an alias resolves
    to the very content of its source, so it shows every later write, and
    adding one needs the permissions on both paths and keeps the tree. *)

From stdpp Require Import strings.
From S2P Require Import Prelude Bytes ConfigPath Core Auth Encryption AuditEvent Rpc Database AuditTrail ValuePaths Store Invariant Values ValuesPut.

Local Open Scope bytes_scope.

Module Alias.
Import Store Tree Values Put.

Section alias.
Context `{Crypto} (recorder : Trail.AuditRecorder).

#[global] Instance Forward_add_path actor source new_path :
  Forward (add_path_transaction recorder actor source new_path).
Proof.
  unfold add_path_transaction. destruct (Path.le source new_path);
  do 5 (apply Forward_bind; [apply _|intros ?]);
  (match goal with |- Forward (if ?b then _ else _) => destruct b end; [apply _|]);
  (apply Forward_bind; [apply _|intros []; apply _]).
Qed.

(** The database an alias leaves. *)
Definition aliased (new_path : ConfigPath) (id t : Z) (d : Database) : Database :=
  set_paths (<[Path.fold new_path := mkPathRow (Path.as_str new_path) id t t]> (paths d)) d.

Lemma add_path_transaction_ok actor source new_path w t w' :
  add_path_transaction recorder actor source new_path w = (Ok t, w') →
  ∃ p, t = clock w ∧ paths (db w) !! Path.fold source = Some p
    ∧ paths (db w) !! Path.fold new_path = None
    ∧ collision (db w) (Path.fold new_path) = false
    ∧ is_Some (contents (db w) !! p_content_id p) ∧ path_check (Path.as_str new_path) = true
    ∧ events_recorded recorder actor (clock w) (Event.path_added actor source new_path)
        (aliased new_path (p_content_id p) (timestamptz (clock w)) (db w)) (db w').
Proof.
  unfold add_path_transaction.
  destruct (if Path.le source new_path then _ else _) as [first second] eqn:Eo. clear Eo.
  intros Hrun. run_steps.
  match goal with Hl : lock_mutation_path first _ = _ |- _ =>
    apply lock_mutation_path_ok in Hl as (Hdb1 & _ & Hc1 & _) end.
  match goal with Hl : lock_mutation_path second _ = _ |- _ =>
    apply lock_mutation_path_ok in Hl as (Hdb2 & _ & Hc2 & _) end.
  match goal with Hq : content_id_at _ _ = _ |- _ =>
    apply store_query_ok in Hq as [Hid (Hdb3 & _ & Hc3 & _)] end.
  match goal with Hq : path_is_occupied _ _ = (Ok ?b, _) |- _ =>
    apply store_query_ok in Hq as [Hocc (Hdb4 & _ & Hc4 & _)]; destruct b end; run_steps.
  match goal with Hq : path_collides _ _ = (Ok ?b, _) |- _ =>
    apply store_query_ok in Hq as [Hcol (Hdb5 & _ & Hc5 & _)]; destruct b end; run_steps.
  match goal with Hi : insert_path _ _ _ _ = _ |- _ =>
    apply store_stmt_ok in Hi as (d & Hins & Hdb6 & _ & Hc6) end.
  match goal with Hr : Trail.record_in _ _ _ _ _ = _ |- _ => apply record_in_events in Hr as Hrec end.
  rewrite Hdb5, Hdb4, Hdb3, Hdb2, Hdb1 in *. rewrite Hc5, Hc4, Hc3, Hc2, Hc1 in *.
  match goal with E : p_content_id <$> _ = Some _ |- _ =>
    apply fmap_Some in E as (p & Hp & ->) end.
  change (lower (Path.as_str new_path)) with (Path.fold new_path) in Hins.
  destruct (paths (db w) !! Path.fold new_path) eqn:En; [done|].
  destruct (contents (db w) !! p_content_id p) as [c|] eqn:Ec; [|done].
  destruct (path_check _) eqn:Epc; [|done]. injection Hins as _ <-.
  exists p. split_and!; try done. by rewrite Hdb6 in Hrec.
Qed.

(** The permissions an alias needs. *)
Definition may_alias (principal : AuthenticatedPrincipal) (source new_path : ConfigPath) : Prop :=
  Auth.allows principal source Read = true ∧ Auth.allows principal source Write = true
  ∧ Auth.allows principal new_path Write = true.

Lemma add_value_path_run context alias w r w' :
  add_value_path recorder context alias w = (r, w') →
  (∃ e, r = Err e ∧ w' = w)
  ∨ ∃ principal actor,
      Rpc.principal context = Ok principal ∧ Rpc.actor context = Ok actor
      ∧ let source := mkPath (al_source alias) in let new_path := mkPath (al_new_path alias) in
        Path.parse_operation (al_source alias) = Ok source
        ∧ Path.parse_operation (al_new_path alias) = Ok new_path
        ∧ may_alias principal source new_path ∧ Path.fold source ≠ Path.fold new_path
        ∧ ∃ r1, transaction (add_path_transaction recorder actor source new_path) w = (r1, w')
          ∧ r = match r1 with Ok t => Ok (mkAddPathMetadata (Rpc.timestamp t)) | Err e => Err e end.
Proof.
  unfold add_value_path, mbind, M_bind, lift.
  destruct (Rpc.principal context) as [principal|e] eqn:Epr; [|intros [= <- <-]; eauto].
  destruct (Rpc.actor context) as [actor|e] eqn:Eact; [|intros [= <- <-]; eauto].
  destruct (Path.parse_operation (al_source alias)) as [source|e] eqn:Es; [|intros [= <- <-]; eauto].
  destruct (Path.parse_operation (al_new_path alias)) as [new_path|e] eqn:En; [|intros [= <- <-]; eauto].
  cbn [map_err]. destruct (_ || _) eqn:Eperm; [intros [= <- <-]; eauto|].
  destruct (Path.eq source new_path) eqn:Eeq; [intros [= <- <-]; eauto|].
  bool_prop.
  assert (source = mkPath (al_source alias)) as -> by (by apply Path.parse_operation_spec in Es as [-> _]).
  assert (new_path = mkPath (al_new_path alias)) as -> by (by apply Path.parse_operation_spec in En as [-> _]).
  assert (Path.fold (mkPath (al_source alias)) ≠ Path.fold (mkPath (al_new_path alias))) as Hne.
  { intros Hf. apply not_true_iff_false in Eeq. by apply Eeq, Path.eq_spec. }
  destruct (transaction _ w) as [[t|e] w1] eqn:Et.
  - rewrite Rpc.to_timestamp_ok. intros [= <- <-]. right. exists principal, actor.
    split_and!; try done. eexists. split; [exact Et|done].
  - intros [= <- <-]. right. exists principal, actor.
    split_and!; try done. eexists. split; [exact Et|done].
Qed.

Lemma aliased_wf new_path k p t d :
  tree_wf d → paths d !! k = Some p → paths d !! Path.fold new_path = None →
  collision d (Path.fold new_path) = false → path_check (Path.as_str new_path) = true →
  tree_wf (aliased new_path (p_content_id p) t d).
Proof.
  intros Hw Hp Hn Hcol Hpc. pose proof (wf_content _ Hw _ _ Hp) as Hc.
  pose proof (wf_id _ Hw _ Hc). pose proof (wf_seq _ Hw).
  pose proof (tree_wf_insert_path d (Path.fold new_path)
    (mkPathRow (Path.as_str new_path) (p_content_id p) t t) (contents d) (content_seq d)) as Hi.
  unfold aliased. replace (set_paths _ d) with
    (set_paths (<[Path.fold new_path := mkPathRow (Path.as_str new_path) (p_content_id p) t t]>
       (paths d)) (set_contents (contents d) (set_content_seq (content_seq d) d))) by done.
  apply Hi; try done; [lia| |by apply wf_check]. simpl. naive_solver.
Qed.

Lemma add_value_path_wf context alias w :
  tree_wf (db w) → tree_wf (db (snd (add_value_path recorder context alias w))).
Proof.
  intros Hw. destruct (add_value_path recorder context alias w) as [r w'] eqn:E. simpl.
  apply add_value_path_run in E as [(e & _ & ->)|(pr & actor & _ & _ & _ & _ & _ & _ & r1 & Ht & _)];
    [done|].
  replace w' with (snd (transaction (add_path_transaction recorder actor
    (mkPath (al_source alias)) (mkPath (al_new_path alias))) w)) by (by rewrite Ht).
  unfold transaction. apply transaction_preserves; [apply _|apply tree_wf_rollback| |done].
  intros t w1 Hb. apply add_path_transaction_ok in Hb as (p & _ & Hp & Hn & Hcol & _ & Hpc & Hrec).
  eapply events_recorded_wf; [|exact Hrec]. by eapply aliased_wf.
Qed.
End alias.

(** A successful alias adds exactly one path, which resolves to the very
    content of its source, leaving every content and every other path as it
    was; and it was added only for a caller who may read and write the source
    and write the new path, two different paths that nest with nothing. *)
Theorem alias_shares_its_source `{Crypto} (recorder : Trail.AuditRecorder)
    (context : Rpc.CallContext) (alias : AliasPaths) (w w' : World) (meta : AddPathMetadata) :
  add_value_path recorder context alias w = (Ok meta, w') →
  let source := to_ascii_lowercase (al_source alias) in
  let new_path := to_ascii_lowercase (al_new_path alias) in
  ∃ principal p q,
    Rpc.principal context = Ok principal
    ∧ may_alias principal (mkPath (al_source alias)) (mkPath (al_new_path alias))
    ∧ source ≠ new_path ∧ (∀ k, is_Some (paths (db w) !! k) → ¬ Collide k new_path)
    ∧ paths (db w) !! source = Some p
    ∧ paths (db w') = <[new_path := q]> (paths (db w))
    ∧ p_content_id q = p_content_id p ∧ p_path q = al_new_path alias
    ∧ contents (db w') = contents (db w).
Proof.
  intros [(e & ? & _)|(pr & actor & Hpr & _ & _ & _ & Hmay & Hne & r1 & Ht & Hr)]%add_value_path_run; [done|].
  destruct r1 as [t|]; [|done]. apply in_transaction_ok in Ht as (_ & w1 & Hb & _ & ->).
  apply add_path_transaction_ok in Hb as (p & _ & Hp & Hn & Hcol & _ & _ & Hrec).
  apply events_recorded_tables in Hrec as (Hc & Hps & _).
  exists pr, p. eexists. split_and!; [done|done|done| |exact Hp|exact Hps|done|done|exact Hc].
  intros k Hk Hcl. apply not_true_iff_false in Hcol. apply Hcol, collision_spec.
  exists k. split_and!; [done| |done]. intros ->. simpl in Hn. rewrite Hn in Hk. by destruct Hk.
Qed.

Lemma alias_shares_its_source_witness :
  let run := add_value_path Sample.hourly Sample.owner (mkAlias "/apps/pw" "/Other/Pw")
               Sample.with_secret in
  ∃ p q, paths (db Sample.with_secret) !! "/apps/pw" = Some p
    ∧ paths (db (snd run)) = <["/other/pw" := q]> (paths (db Sample.with_secret))
    ∧ p_content_id q = p_content_id p.
Proof.
  intros run.
  destruct (alias_shares_its_source Sample.hourly Sample.owner (mkAlias "/apps/pw" "/Other/Pw")
    Sample.with_secret (snd run) (mkAddPathMetadata (mkTimestamp 1700000000 123456789)))
    as (pr & p & q & _ & _ & _ & _ & Hp & Hps & Hid & _); [vm_compute; reflexivity|].
  exists p, q. split; [exact Hp|]. split; [exact Hps|exact Hid].
Defined.

End Alias.
