(* ===== verification/ValuesReplace.v ===== *)
(** * Replacing a subtree

    What [replace_sub_tree] of the configuration service does: afterwards the
    plain values at or below the root are exactly the requested ones, every
    secret is untouched, nothing outside the root changes but through aliases,
    and the audit trail itemizes a bounded prefix of the changes. *)

From stdpp Require Import strings.
From S2P Require Import Prelude Bytes ConfigPath Core Auth Encryption AuditEvent Rpc Database AuditTrail ValuePaths Store Invariant Values ValuesPut ValuesDelete.

Local Open Scope bytes_scope.

Module Replace.
Import Store Tree Values Put Delete.

(** ** Resolving the plain writes *)

(** [resolve_plain_writes] on the plain values, against one state. *)
Fixpoint resolve_writes (d : Database) (acc : ResolvedWrites) (plain : list (bytes * bytes))
  : option ResolvedWrites :=
  match plain with
  | [] => Some acc
  | (k, content) :: plain' =>
      match p_content_id <$> paths d !! k with
      | Some id =>
          let seen := shared_paths acc ++ [(k, id)] in
          match shared acc !! id with
          | Some assigned =>
              if bool_decide (assigned = content)
              then resolve_writes d (mkWrites (shared acc) seen (fresh acc)) plain'
              else None
          | None =>
              resolve_writes d (mkWrites (<[id := content]> (shared acc)) seen (fresh acc)) plain'
          end
      | None =>
          resolve_writes d (mkWrites (shared acc) (shared_paths acc) (fresh acc ++ [(k, content)])) plain'
      end
  end.

Lemma resolve_plain_writes_ok values : ∀ acc w writes w',
  resolve_plain_writes acc values w = (Ok writes, w') →
  resolve_writes (db w) acc (Subtree.plain_of values) = Some writes ∧ read_only w w'.
Proof.
  induction values as [|[k [[content|]|]] values IH]; intros acc w writes w' Hrun;
    cbn [resolve_plain_writes e_content e_path] in Hrun.
  - run_steps. done.
  - run_steps. match goal with Hq : content_id_at _ _ = (Ok ?o, _) |- _ =>
      apply store_query_ok in Hq as [Hid Hro]; subst o end.
    pose proof Hro as (Hdb & _). change (Subtree.plain_of (mkEntry k (Some (PlainEntry content)) :: values))
      with ((k, content) :: Subtree.plain_of values). cbn [resolve_writes].
    destruct (p_content_id <$> paths (db w) !! k) as [id|].
    + destruct (shared acc !! id) as [assigned|]; [case_bool_decide; [|run_step]|];
        apply IH in Hrun as [Hres Hro']; rewrite Hdb in Hres; (split; [done|by etrans]).
    + apply IH in Hrun as [Hres Hro']. rewrite Hdb in Hres. split; [done|by etrans].
  - by apply IH in Hrun.
  - by apply IH in Hrun.
Qed.

(** What the accumulated writes say about the plain values seen so far. *)
Record writes_for (d : Database) (plain : list (bytes * bytes)) (r : ResolvedWrites) : Prop := {
  wr_shared id v : shared r !! id = Some v ↔
    ∃ k p, (k, v) ∈ plain ∧ paths d !! k = Some p ∧ p_content_id p = id;
  wr_agree id v k p v' : shared r !! id = Some v → (k, v') ∈ plain → paths d !! k = Some p →
    p_content_id p = id → v' = v;
  wr_fresh : fresh r = List.filter (λ '(k, _), bool_decide (paths d !! k = None)) plain;
  wr_paths : shared_paths r = omap (λ '(k, _), p ← paths d !! k; Some (k, p_content_id p)) plain }.

Lemma resolve_writes_spec d plain : ∀ seen acc r,
  writes_for d seen acc → resolve_writes d acc plain = Some r → writes_for d (seen ++ plain) r.
Proof.
  induction plain as [|[k content] plain IH]; intros seen acc r Hacc; cbn [resolve_writes].
  { intros [= <-]. by rewrite app_nil_r. }
  replace (seen ++ (k, content) :: plain) with ((seen ++ [(k, content)]) ++ plain)
    by (by rewrite <- app_assoc).
  destruct Hacc as [Hs Ha Hf Hp].
  destruct (paths d !! k) as [p|] eqn:Ek; simpl.
  - destruct (shared acc !! p_content_id p) as [assigned|] eqn:Es; [case_bool_decide as Eq; [|done]|];
      apply IH; split; cbn [shared shared_paths fresh].
    + intros id v. rewrite Hs. subst assigned. split.
      * intros (k' & p' & Hin & Hrest). exists k', p'. rewrite elem_of_app. auto.
      * intros (k' & p' & [Hin|Hin]%elem_of_app & Hp' & Hid); [by exists k', p'|].
        apply list_elem_of_singleton in Hin. simplify_eq. by apply Hs.
    + intros id v k' p' v' Hv [Hin|Hin]%elem_of_app Hp' Hid; [by eapply Ha|].
      apply list_elem_of_singleton in Hin. simplify_eq. done.
    + rewrite List.filter_app, Hf. simpl. rewrite Ek, bool_decide_eq_false_2 by done. by rewrite app_nil_r.
    + rewrite omap_app, Hp. simpl. by rewrite Ek.
    + intros id v. rewrite lookup_insert_Some, Hs. split.
      * intros [[<- <-]|[Hne (k' & p' & Hin & Hrest)]].
        -- exists k, p. rewrite elem_of_app, list_elem_of_singleton. auto.
        -- exists k', p'. rewrite elem_of_app. auto.
      * intros (k' & p' & [Hin|Hin]%elem_of_app & Hp' & Hid).
        -- right. split; [|by exists k', p']. intros <-.
           assert (shared acc !! p_content_id p = Some v) by (apply Hs; by exists k', p'). congruence.
        -- apply list_elem_of_singleton in Hin. simplify_eq. by left.
    + intros id v k' p' v' Hv [Hin|Hin]%elem_of_app Hp' Hid.
      * rewrite lookup_insert_Some in Hv. destruct Hv as [[<- <-]|[Hne Hv]]; [|by eapply Ha].
        assert (shared acc !! p_content_id p = Some v') by (apply Hs; by exists k', p'). congruence.
      * apply list_elem_of_singleton in Hin. simplify_eq. rewrite lookup_insert_eq in Hv. by simplify_eq.
    + rewrite List.filter_app, Hf. simpl. rewrite Ek, bool_decide_eq_false_2 by done. by rewrite app_nil_r.
    + rewrite omap_app, Hp. simpl. by rewrite Ek.
  - apply IH. split; cbn [shared shared_paths fresh].
    + intros id v. rewrite Hs. split.
      * intros (k' & p' & Hin & Hrest). exists k', p'. rewrite elem_of_app. auto.
      * intros (k' & p' & [Hin|Hin]%elem_of_app & Hp' & Hid); [by exists k', p'|].
        apply list_elem_of_singleton in Hin. simplify_eq.
    + intros id v k' p' v' Hv [Hin|Hin]%elem_of_app Hp' Hid; [by eapply Ha|].
      apply list_elem_of_singleton in Hin. simplify_eq.
    + rewrite List.filter_app, Hf. simpl. by rewrite Ek, bool_decide_eq_true_2.
    + rewrite omap_app, Hp. simpl. rewrite Ek. by rewrite app_nil_r.
Qed.

Lemma writes_for_empty d : writes_for d [] (mkWrites ∅ [] []).
Proof.
  split; [|by intros ? ? ? ? ? _ []%not_elem_of_nil|done|done]. intros id v. simpl.
  rewrite lookup_empty. split; [done|]. by intros (k & p & []%not_elem_of_nil & _).
Qed.

Lemma resolve_writes_for d plain r :
  resolve_writes d (mkWrites ∅ [] []) plain = Some r → writes_for d plain r.
Proof. intros Hr. by apply (resolve_writes_spec d plain [] _ _ (writes_for_empty d)) in Hr. Qed.

(** ** Writing the shared contents *)

(** What rewriting the contents of [l] does, at instant [t]. *)
Record shared_effect (t : Z) (l : list (Z * bytes)) (d d' : Database) : Prop := {
  sh_paths : paths d' = paths d;
  sh_seq : content_seq d' = content_seq d;
  sh_audit : audit d' = audit d ∧ audit_seq d' = audit_seq d;
  sh_written id v : (id, v) ∈ l → ∃ c, contents d !! id = Some c
    ∧ contents d' !! id = Some (mkContent v PLAIN (c_created_at c) t)
    ∧ content_check (mkContent v PLAIN (c_created_at c) t) = true;
  sh_other id : id ∉ List.map fst l → contents d' !! id = contents d !! id }.

Lemma update_shared_ok t e w r w' :
  update_shared t e w = (Ok r, w') →
  ∃ c, contents (db w) !! fst e = Some c
    ∧ r = (fst e, mkPreviousContentRow (c_value c) (c_classification c))
    ∧ db w' = set_contents (<[fst e := mkContent (snd e) PLAIN (c_created_at c) (timestamptz t)]>
                (contents (db w))) (db w)
    ∧ content_check (mkContent (snd e) PLAIN (c_created_at c) (timestamptz t)) = true
    ∧ clock w' = clock w.
Proof.
  unfold update_shared. intros Hrun. run_steps.
  match goal with Hu : update_plain_content _ _ _ _ = _ |- _ =>
    apply store_stmt_ok in Hu as (d & Heq & Hdb & _ & Hc) end.
  destruct (contents (db w) !! fst e) as [c|]; [|done]. cbv zeta in Heq.
  destruct (content_check _) eqn:Ek; [|done]. injection Heq as <- <-.
  exists c. by rewrite Hdb.
Qed.

Definition previous_of (d : Database) (e : Z * bytes) : Z * PreviousContentRow :=
  (fst e, match contents d !! fst e with
          | Some c => mkPreviousContentRow (c_value c) (c_classification c)
          | None => mkPreviousContentRow [] []
          end).

Lemma update_all_ok t l : ∀ w rs w',
  NoDup (List.map fst l) → for_each (update_shared t) l w = (Ok rs, w') →
  shared_effect (timestamptz t) l (db w) (db w') ∧ rs = List.map (previous_of (db w)) l
  ∧ clock w' = clock w.
Proof.
  induction l as [|e l IH]; intros w rs w' Hnd Hrun; cbn [for_each] in Hrun; run_steps.
  { split_and!; [|done|done]. split; [done|done|done|by intros ? ? []%not_elem_of_nil|done]. }
  cbn [List.map] in Hnd. apply NoDup_cons in Hnd as [Hni Hnd].
  match goal with Hu : update_shared _ _ _ = _ |- _ =>
    apply update_shared_ok in Hu as (c & Hc & -> & Hdb & Hk & Hclk) end.
  match goal with Hr : for_each _ _ _ = _ |- _ => apply IH in Hr as ([H1 H2 H3 H4 H5] & -> & Hclk'); [|done] end.
  rewrite Hdb in *. cbn [paths content_seq audit audit_seq contents set_contents] in *.
  split_and!; [split| |congruence]; try done.
  - intros id v [<-|Hin]%elem_of_cons.
    + exists c. cbn [fst snd] in *. split; [done|]. split; [|done].
      rewrite H5 by done. apply lookup_insert_eq.
    + destruct (H4 id v Hin) as (c' & Hc' & Hrest). rewrite lookup_insert_ne in Hc'; [by exists c'|].
      intros <-. apply Hni, list_elem_of_In, in_map_iff. exists (fst e, v). split; [done|].
      by apply list_elem_of_In.
  - intros id Hid. cbn [List.map] in Hid. apply not_elem_of_cons in Hid as [Hne Hid].
    rewrite H5 by done. by rewrite lookup_insert_ne.
  - cbn [List.map]. f_equal; [unfold previous_of; by rewrite Hc|].
    apply List.map_ext_in. intros e' Hin. unfold previous_of.
    cbn [contents set_contents]. rewrite lookup_insert_ne; [done|].
    intros Heq. apply Hni. rewrite Heq. apply list_elem_of_In, in_map_iff. by exists e'.
Qed.

(** ** Inserting the fresh values *)

(** What inserting the fresh values [l] does, at instant [t]. *)
Record fresh_effect (displays : gmap bytes bytes) (t : Z) (l : list (bytes * bytes))
    (d d' : Database) : Prop := {
  fr_other k : k ∉ List.map fst l → paths d' !! k = paths d !! k;
  fr_old id : (id ≤ content_seq d)%Z → contents d' !! id = contents d !! id;
  fr_new k v : (k, v) ∈ l → ∃ p, paths d' !! k = Some p ∧ p_path p = display_of displays k
    ∧ paths d !! k = None ∧ path_check (p_path p) = true
    ∧ (content_seq d < p_content_id p ≤ content_seq d')%Z
    ∧ contents d' !! p_content_id p = Some (mkContent v PLAIN t t)
    ∧ content_check (mkContent v PLAIN t t) = true;
  fr_ids id : is_Some (contents d' !! id) → is_Some (contents d !! id)
    ∨ ∃ k v p, (k, v) ∈ l ∧ paths d' !! k = Some p ∧ p_content_id p = id;
  fr_seq : seq_le d d';
  fr_audit : audit d' = audit d ∧ audit_seq d' = audit_seq d }.

Definition inserted_one (display k v : bytes) (t : Z) (d : Database) : Database :=
  let id := (content_seq d + 1)%Z in
  set_paths (<[k := mkPathRow display id t t]> (paths d))
    (set_contents (<[id := mkContent v PLAIN t t]> (contents d)) (set_content_seq id d)).

Lemma insert_fresh_ok displays t k v w u w' :
  lower (display_of displays k) = k →
  insert_fresh displays t (k, v) w = (Ok u, w') →
  let d := db w in let t := timestamptz t in
  (content_seq d < Stamps.i64_max)%Z ∧ contents d !! (content_seq d + 1)%Z = None
  ∧ paths d !! k = None ∧ path_check (display_of displays k) = true
  ∧ content_check (mkContent v PLAIN t t) = true
  ∧ db w' = inserted_one (display_of displays k) k v t d ∧ clock w' = clock w.
Proof.
  intros Hlow Hrun d t'. unfold insert_fresh in Hrun. cbn [fst snd] in Hrun. run_steps.
  match goal with Hc : reserve_content_id _ = _ |- _ =>
    apply store_stmt_ok in Hc as (d2 & Heq2 & Hdb2 & _ & Hc2) end.
  match goal with Hc : insert_content _ _ _ _ _ = _ |- _ =>
    apply store_stmt_ok in Hc as (d4 & Heq4 & Hdb4 & _ & Hc4) end.
  match goal with Hc : insert_path _ _ _ _ = _ |- _ =>
    apply store_stmt_ok in Hc as (d5 & Heq5 & Hdb5 & _ & Hc5) end.
  destruct (Z.ltb_spec (content_seq (db w)) Stamps.i64_max); [|done]. injection Heq2 as <- Hd2.
  rewrite Hdb2, <- Hd2 in Heq4. cbn [contents set_content_seq] in Heq4.
  cbv zeta in Heq4. fold d in Heq4. destruct (contents d !! (content_seq d + 1)%Z) eqn:Eid; [done|].
  destruct (content_check _) eqn:Ek; [|done]. injection Heq4 as <- Hd4.
  rewrite Hdb4, <- Hd4, Hlow in Heq5. cbn [paths contents set_contents set_content_seq ir_id] in Heq5.
  fold d t' in Heq5. destruct (paths d !! k) eqn:Ep; [done|].
  rewrite lookup_insert_eq in Heq5. destruct (path_check _) eqn:Epc; [|done].
  injection Heq5 as _ Hd5. split_and!; try done; [by rewrite Hdb5, <- Hd5|congruence].
Qed.

Lemma insert_all_ok displays t l : ∀ w us w',
  NoDup (List.map fst l) → Forall (λ e, lower (display_of displays (fst e)) = fst e) l →
  for_each (insert_fresh displays t) l w = (Ok us, w') →
  fresh_effect displays (timestamptz t) l (db w) (db w') ∧ clock w' = clock w.
Proof.
  induction l as [|[k v] l IH]; intros w us w' Hnd Hlow Hrun; cbn [for_each] in Hrun; run_steps.
  { split; [|done]. split; [done|done|by intros ? ? []%not_elem_of_nil|by left|done|done]. }
  cbn [List.map fst] in Hnd. apply NoDup_cons in Hnd as [Hni Hnd].
  apply Forall_cons in Hlow as [Hk Hlow]. cbn [fst] in Hk.
  match goal with Hi : insert_fresh _ _ _ _ = _ |- _ =>
    apply insert_fresh_ok in Hi as (Hseq & Hid & Hp & Hpc & Hck & Hdb & Hclk); [|done] end.
  match goal with Hr : for_each _ _ _ = _ |- _ =>
    apply IH in Hr as ([H1 H2 H3 H6 H4 H5] & Hclk'); [|done|done] end.
  rewrite Hdb in *. unfold inserted_one in *.
  cbn [paths content_seq contents audit audit_seq set_paths set_contents set_content_seq] in *.
  pose proof H4 as (Hs1 & Hs2 & Hs3). cbn in Hs1, Hs2, Hs3.
  split; [|congruence]. split.
  - intros k' Hk'. cbn [List.map fst] in Hk'. apply not_elem_of_cons in Hk' as [Hne Hk'].
    rewrite H1 by done. by rewrite lookup_insert_ne.
  - intros id Hle. rewrite H2 by lia. rewrite lookup_insert_ne by lia. done.
  - intros k' v' [E|Hin]%elem_of_cons.
    + simplify_eq. eexists. rewrite H1 by done. rewrite lookup_insert_eq. split; [done|].
      cbn [p_path p_content_id]. split_and!; try done; try lia.
      rewrite H2 by lia. apply lookup_insert_eq.
    + destruct (H3 k' v' Hin) as (p & Hp1 & Hp2 & Hp3 & Hp4 & Hp5 & Hp6 & Hp7).
      exists p. split_and!; try done; try lia.
      rewrite lookup_insert_ne in Hp3; [done|]. intros <-. apply Hni.
      apply list_elem_of_In, in_map_iff. exists (k, v'). split; [done|]. by apply list_elem_of_In.
  - intros id [Hid'|(k' & v' & p & Hin & Hp1 & Hp2)]%H6.
    + rewrite lookup_insert_is_Some in Hid'. destruct Hid' as [<-|[_ ?]]; [|by left].
      right. exists k, v. eexists. split; [by left|]. rewrite H1 by done.
      rewrite lookup_insert_eq. done.
    + right. exists k', v', p. split; [by right|done].
  - unfold seq_le. split_and!; [lia|done|]. intros _. apply Hs3. lia.
  - done.
Qed.

(** ** The plain values of a normalized subtree *)

(** What [normalize] promises the transaction. *)
Record normalized (root : bytes) (n : Subtree.NormalizedSubtree) : Prop := {
  nm_disjoint : Normalize.Disjoint (Subtree.values n);
  nm_display e : e ∈ Subtree.values n →
    lower (display_of (Subtree.displays n) (e_path e)) = e_path e;
  nm_below e : e ∈ Subtree.values n → Path.AtOrBelow (e_path e) root ∧ Path.Canonical (e_path e)
    ∧ e_path e ≠ "/" }.

Lemma normalize_normalized root vs n :
  Subtree.normalize root vs = Ok n → normalized (Path.fold root) n.
Proof.
  rewrite Normalize.normalize_spec. case_decide as Hv; [|done]. intros [= <-].
  destruct Hv as [Hv Hd]. rewrite Forall_forall in Hv.
  assert (∀ e, e ∈ sort_by Normalize.by_path (List.map Normalize.folded vs) →
            ∃ v, v ∈ vs ∧ e = Normalize.folded v) as Hin.
  { intros e He. rewrite elem_of_sort_by in He.
    apply list_elem_of_In, in_map_iff in He as (v & <- & Hv'). exists v.
    split; [by apply list_elem_of_In|done]. }
  split; cbn [Subtree.values Subtree.displays].
  - eapply Normalize.Disjoint_perm; [|exact Hd]. symmetry. apply sort_by_perm.
  - intros e (v & Hv' & ->)%Hin. cbn [e_path Normalize.folded]. unfold display_of.
    rewrite (Normalize.displays_recover vs) by done. done.
  - intros e (v & Hv' & ->)%Hin. destruct (Hv v Hv') as (Hp & Hb & _). cbn [e_path Normalize.folded].
    split; [by apply Path.is_at_or_below_spec in Hb|].
    destruct (Path.parse_operation (e_path v)) eqn:E; [|done].
    apply Path.parse_operation_spec in E as (_ & segs & Hne & Hs & ->).
    split; [apply Path.Canonical_lower; by exists segs|].
    rewrite Path.lower_render. apply Path.render_not_root; [by destruct segs|auto with sovereign].
Qed.

(** The secrets a replacement must leave alone. *)
Definition secrets_of (d : Database) (fold : bytes) : gset bytes :=
  list_to_set (omap (λ '(k, p, c),
    if bool_decide (c_classification c = SECRET) && touches k fold then Some k else None) (joined d)).

Lemma elem_of_secrets_of d fold k :
  k ∈ secrets_of d fold ↔
  ∃ p c, resolve d k = Some (p, c) ∧ c_classification c = SECRET ∧ touches k fold = true.
Proof.
  unfold secrets_of. rewrite elem_of_list_to_set, list_elem_of_omap. split.
  - intros ([[k' p] c] & Hin%elem_of_joined & E). destruct (_ && _) eqn:Eb; [|done].
    simplify_eq. bool_prop. exists p, c. rewrite resolve_spec. done.
  - intros (p & c & Hr%resolve_spec & Hc & Ht). exists (k, p, c).
    split; [by apply elem_of_joined|]. by rewrite Ht, bool_decide_eq_true_2.
Qed.

Lemma touches_spec k fold : touches k fold = true ↔ Path.AtOrBelow k fold ∨ Below fold k.
Proof. unfold touches. by rewrite orb_true_iff, at_or_below_spec, starts_with_slash_spec. Qed.

(** Two paths above one path nest. *)
Lemma Below_common k a b : Below k a → Below k b → Collide a b.
Proof.
  intros [s ->] [s' E]. apply app_eq_inv in E as [(x & -> & E)|(x & -> & E)];
    (destruct x as [|c x]; [left; by rewrite app_nil_r|]);
    injection E as <- _; right; [left|right]; by exists x.
Qed.

(** A path that nests with one at or below the root touches the root. *)
Lemma collide_touches k k' r :
  Path.AtOrBelow k r → Collide k k' → Path.AtOrBelow k' r ∨ Below r k'.
Proof.
  rewrite !AtOrBelow_spec. intros [->|[->|Hk]] Hc; [by left; left|destruct Hc as [->|[?|?]]; auto|].
  destruct Hc as [->|[Hc|Hc]]; [auto| |left; right; right; by eapply Below_trans].
  destruct (Below_common k r k' Hk Hc) as [->|[?|?]]; auto.
Qed.

Lemma plain_or_secret d id c :
  tree_wf d → contents d !! id = Some c → c_classification c = PLAIN ∨ c_classification c = SECRET.
Proof.
  intros Hwf Hc%(wf_check _ Hwf). unfold content_check in Hc. bool_prop.
  match goal with E : bool_decide _ || bool_decide _ = true |- _ =>
    apply orb_true_iff in E as [E|E]; bool_prop; auto end.
Qed.

(** The plain values a replacement asks for, once its preserve markers are
    resolved against the stored secrets. *)
Definition requested (n : Subtree.NormalizedSubtree) (secrets : gset bytes) : list (bytes * bytes) :=
  Subtree.plain_of (Subtree.resolve_preserve_markers (Subtree.values n) secrets).

Lemma resolve_markers_paths vs secrets :
  List.map e_path (Subtree.resolve_preserve_markers vs secrets) = List.map e_path vs.
Proof.
  unfold Subtree.resolve_preserve_markers. rewrite List.map_map. apply List.map_ext. intros v.
  destruct (e_content v) as [[]|]; [done| |done]. by case_bool_decide.
Qed.

Lemma requested_entry n secrets k v :
  (k, v) ∈ requested n secrets → ∃ e, e ∈ Subtree.values n ∧ e_path e = k.
Proof.
  intros Hin%Normalize.elem_of_plain_of.
  assert (k ∈ List.map e_path (Subtree.resolve_preserve_markers (Subtree.values n) secrets)) as Hk
    by (apply list_elem_of_In, in_map_iff; eexists; split; [|by apply list_elem_of_In]; done).
  rewrite resolve_markers_paths in Hk. apply list_elem_of_In, in_map_iff in Hk as (e & He & Hin').
  exists e. split; [by apply list_elem_of_In|done].
Qed.

Lemma plain_of_keys vs : List.map fst (Subtree.plain_of vs) `sublist_of` List.map e_path vs.
Proof.
  induction vs as [|[k [[c|]|]] vs IH]; simpl; by constructor.
Qed.

#[global] Instance not_collide_sym : Symmetric (λ a b, ¬ Collide a b).
Proof. intros a b Hn Hc. by apply Hn, Collide_sym. Qed.

Lemma Disjoint_paths vs :
  Normalize.Disjoint vs ↔ ForallOrdPairs (λ a b, ¬ Collide a b) (List.map e_path vs).
Proof. unfold Normalize.Disjoint. by rewrite FOP_map. Qed.

Lemma disjoint_nodup l : ForallOrdPairs (λ a b, ¬ Collide a b) l → NoDup l.
Proof.
  induction 1 as [|x l Hx _ IH]; constructor; [|done]. intros Hin.
  rewrite Forall_forall in Hx. apply (Hx x Hin). by left.
Qed.

Lemma requested_disjoint root n secrets :
  normalized root n → ForallOrdPairs (λ a b, ¬ Collide a b) (List.map fst (requested n secrets)).
Proof.
  intros Hn. eapply FOP_sublist; [apply plain_of_keys|]. rewrite resolve_markers_paths.
  by apply Disjoint_paths, nm_disjoint with root.
Qed.

(** ** The transaction *)

(** The rows a replacement clears. *)
Definition cleared_rows (fold : bytes) (keep : list bytes) (k : bytes) (_ : PathRow) (c : ContentRow)
  : bool :=
  at_or_below k fold && bool_decide (c_classification c = PLAIN) && negb (bool_decide (k ∈ keep)).

Section replace.
Context `{Crypto} (recorder : Trail.AuditRecorder).

#[global] Instance Forward_resolve_plain_writes values acc : Forward (resolve_plain_writes acc values).
Proof.
  revert acc. induction values as [|[k [[c|]|]] values IH]; intros acc;
    cbn [resolve_plain_writes e_content]; [apply _| |apply IH|apply IH].
  apply Forward_bind; [apply _|]. intros [id|]; [|apply IH].
  destruct (shared acc !! id); [case_bool_decide; [apply IH|apply _]|apply IH].
Qed.

#[global] Instance Forward_update_shared t e : Forward (update_shared t e).
Proof. unfold update_shared. apply _. Qed.
#[global] Instance Forward_insert_fresh displays t e : Forward (insert_fresh displays t e).
Proof. unfold insert_fresh. apply _. Qed.
#[global] Instance Forward_replace actor path n : Forward (replace_transaction recorder actor path n).
Proof. unfold replace_transaction. apply _. Qed.

Lemma replace_transaction_ok actor path n w t count w' :
  normalized (Path.fold path) n →
  replace_transaction recorder actor path n w = (Ok (t, count), w') →
  let fold := Path.fold path in
  let secrets := secrets_of (db w) fold in
  let plain := requested n secrets in
  let f := cleared_rows fold (List.map fst plain) in
  ∃ writes d2 d3,
    t = clock w ∧ count = length (Subtree.values n)
    ∧ (∀ k v s, (k, v) ∈ plain → s ∈ secrets → ¬ Collide k s)
    ∧ writes_for (cleared_db f (db w)) plain writes
    ∧ shared_effect (timestamptz (clock w)) (id_entries (shared writes)) (cleared_db f (db w)) d2
    ∧ fresh_effect (Subtree.displays n) (timestamptz (clock w)) (fresh writes) d2 d3
    ∧ events_recorded recorder actor (clock w)
        (replacement_events actor path
           (mkChanges (fst (delete_where f (db w))) writes
              (list_to_map (List.map (previous_of (cleared_db f (db w))) (id_entries (shared writes))))
              (Subtree.displays n)))
        d3 (db w').
Proof.
  intros Hn Hrun fold secrets plain f. unfold replace_transaction in Hrun. run_steps.
  match goal with Hl : lock_mutation_path _ _ = _ |- _ =>
    apply lock_mutation_path_ok in Hl as (Hdb1 & _ & Hc1 & _) end.
  match goal with Hq : secret_paths_touching _ _ = (Ok ?o, _) |- _ =>
    apply store_query_ok in Hq as [Hsec (Hdb2 & _ & Hc2 & _)] end.
  rewrite Hdb1 in Hsec.
  match type of Hsec with ?o = _ => change (o = secrets) in Hsec; subst o end.
  match goal with Hp : Subtree.plain_paths _ _ = Ok ?o |- _ =>
    apply Normalize.plain_paths_ok in Hp as (Hkeep & Hcol & _) end.
  match type of Hkeep with ?o = _ => change (o = List.map fst plain) in Hkeep; subst o end.
  match goal with Hd : delete_plain_paths_except _ _ _ = (Ok ?rows, _) |- _ =>
    apply store_stmt_ok in Hd as (d & Heq & Hdb3 & _ & Hc3); rename rows into del end.
  rewrite Hdb2, Hdb1 in Heq.
  change (Some (delete_where f (db w)) = Some (del, d)) in Heq.
  assert (del = fst (delete_where f (db w)) ∧ d = snd (delete_where f (db w))) as [-> ->].
  { assert (delete_where f (db w) = (del, d)) as -> by congruence. done. }
  match goal with Hp : prune_orphan_contents _ _ = _ |- _ => apply prune_ok in Hp as (Hdb4 & _ & Hc4) end.
  rewrite Hdb3 in Hdb4. fold (cleared_db f (db w)) in Hdb4.
  match goal with Hr : resolve_plain_writes _ _ _ = (Ok ?r, _) |- _ =>
    apply resolve_plain_writes_ok in Hr as [Hw (Hdb5 & _ & Hc5 & _)]; rename r into writes end.
  rewrite Hdb4 in Hw. apply resolve_writes_for in Hw.
  match goal with Hr : for_each (update_shared _) _ _ = _ |- _ =>
    apply update_all_ok in Hr as (Hsh & -> & Hc6);
    [|unfold id_entries; change (List.map fst ?l) with (fst <$> l); rewrite sort_by_perm;
      apply NoDup_fst_map_to_list] end.
  rewrite Hdb5, Hdb4 in Hsh.
  match goal with Hr : for_each (insert_fresh _ _) _ _ = _ |- _ => rename Hr into Hfresh end.
  assert (∀ e, e ∈ fresh writes → e ∈ plain) as Hfp.
  { intros e. rewrite (wr_fresh _ _ _ Hw). rewrite !list_elem_of_In, filter_In. by intros [? _]. }
  apply insert_all_ok in Hfresh as (Hfr & Hc7).
  - match goal with Hr : Trail.record_in _ _ _ _ _ = _ |- _ => apply record_in_events in Hr as Hrec end.
    rewrite Hdb5, Hdb4 in Hrec. rewrite Hc2, Hc1 in *.
    match goal with E : (t, count) = _ |- _ => injection E as -> -> end.
    do 3 eexists. split; [done|]. split.
    { rewrite <- (length_map e_path), resolve_markers_paths. apply length_map. }
    split; [|by split_and!]. intros k v s Hk Hs. apply Hcol; [|done].
    apply list_elem_of_In, in_map_iff. exists (k, v). split; [done|]. by apply list_elem_of_In.
  - eapply sublist_NoDup; [apply disjoint_nodup, (requested_disjoint _ _ secrets Hn)|].
    rewrite (wr_fresh _ _ _ Hw). apply map_sublist, filter_sublist.
  - apply Forall_forall. intros [k v] He%Hfp. cbn [fst].
    apply requested_entry in He as (e & He & <-). by apply (nm_display _ _ Hn).
Qed.

End replace.

(** ** What the steps add up to *)

Section effect.
Context (d : Database) (root : bytes) (n : Subtree.NormalizedSubtree) (t : Z).
Context (writes : ResolvedWrites) (d2 d3 : Database).

Let secrets := secrets_of d root.
Let plain := requested n secrets.
Let f := cleared_rows root (List.map fst plain).
Let d1 := cleared_db f d.

Hypothesis Hwf : tree_wf d.
Hypothesis Hnorm : normalized root n.
Hypothesis Hcol : ∀ k v s, (k, v) ∈ plain → s ∈ secrets → ¬ Collide k s.
Hypothesis Hwrites : writes_for d1 plain writes.
Hypothesis Hshared : shared_effect t (id_entries (shared writes)) d1 d2.
Hypothesis Hfresh : fresh_effect (Subtree.displays n) t (fresh writes) d2 d3.

Lemma elem_of_plain_key k : k ∈ List.map fst plain ↔ ∃ v, (k, v) ∈ plain.
Proof.
  rewrite list_elem_of_In, in_map_iff. setoid_rewrite <- list_elem_of_In. split.
  - intros ([k' v] & <- & ?). eauto.
  - intros [v ?]. by exists (k, v).
Qed.

Lemma plain_key_below k v : (k, v) ∈ plain → Path.AtOrBelow k root ∧ Path.Canonical k ∧ k ≠ "/".
Proof. intros (e & He & <-)%requested_entry. by apply (nm_below _ _ Hnorm). Qed.

(** Requested paths do not nest. *)
Lemma requested_apart k v k' v' : (k, v) ∈ plain → (k', v') ∈ plain → Collide k k' → k = k'.
Proof.
  intros Hk Hk' Hc.
  assert (Symmetric (λ a b, ¬ Collide a b)) by (intros a b Hab Hba; by apply Hab, Collide_sym).
  destruct (FOP_elem _ _ k k' (requested_disjoint _ _ secrets Hnorm)) as [?|?]; [..|done|done];
    apply elem_of_plain_key; eauto.
Qed.

(** A requested path that is stored holds a plain value. *)
Lemma requested_not_secret k v p c :
  (k, v) ∈ plain → resolve d k = Some (p, c) → c_classification c = PLAIN.
Proof.
  intros Hin Hr. pose proof Hr as [_ Hc]%resolve_spec.
  destruct (plain_or_secret _ _ _ Hwf Hc) as [?|Hs]; [done|].
  exfalso. apply (Hcol k v k Hin); [|by left]. apply elem_of_secrets_of. exists p, c.
  split_and!; [done..|]. apply touches_spec. left. by apply (plain_key_below k v).
Qed.

Lemma resolve_cleared k p c :
  resolve d1 k = Some (p, c) ↔ resolve d k = Some (p, c) ∧ f k p c = false.
Proof.
  rewrite !resolve_spec. unfold d1. rewrite cleared_paths, cleared_contents by done.
  unfold matched. split.
  - intros [[Hp Hm] [Hc _]]. rewrite Hc in Hm. done.
  - intros [[Hp Hc] Hf]. rewrite Hc. split_and!; try done. exists k, p.
    split; [|done]. apply cleared_paths. split; [done|]. unfold matched. by rewrite Hc.
Qed.

(** At or below the root, only requested paths and secrets are left. *)
Lemma cleared_false k p c :
  f k p c = false ↔
  ¬ Path.AtOrBelow k root ∨ c_classification c ≠ PLAIN ∨ ∃ v, (k, v) ∈ plain.
Proof.
  unfold f, cleared_rows. rewrite !andb_false_iff, <- not_true_iff_false, at_or_below_spec,
    bool_decide_eq_false, negb_false_iff, bool_decide_eq_true, elem_of_plain_key. tauto.
Qed.

Lemma shared_lookup id v :
  shared writes !! id = Some v ↔ (id, v) ∈ id_entries (shared writes).
Proof. unfold id_entries. by rewrite elem_of_sort_by, elem_of_map_to_list. Qed.

Lemma shared_absent id :
  shared writes !! id = None → id ∉ List.map fst (id_entries (shared writes)).
Proof.
  intros E Hin. apply list_elem_of_In, in_map_iff in Hin as ([id' v] & E' & Hin%list_elem_of_In).
  apply shared_lookup in Hin. simpl in E'. congruence.
Qed.

Lemma resolve_shared k :
  resolve d2 k =
  match resolve d1 k with
  | Some (p, c) =>
      Some (p, match shared writes !! p_content_id p with
               | Some v => mkContent v PLAIN (c_created_at c) t
               | None => c
               end)
  | None => None
  end.
Proof.
  destruct Hshared as [Hp _ _ Hw Ho]. unfold resolve. rewrite Hp.
  destruct (paths d1 !! k) as [p|]; [|done]. cbn [mbind option_bind].
  destruct (shared writes !! p_content_id p) as [v|] eqn:E.
  - pose proof E as (c & Hc & Hc' & _)%shared_lookup%Hw. rewrite Hc, Hc'. simpl. by rewrite E.
  - rewrite Ho by (by apply shared_absent).
    by destruct (contents d1 !! p_content_id p); simpl; rewrite ?E.
Qed.

Lemma fresh_elem k v : (k, v) ∈ fresh writes ↔ (k, v) ∈ plain ∧ paths d1 !! k = None.
Proof.
  rewrite (wr_fresh _ _ _ Hwrites), list_elem_of_In, filter_In, <- list_elem_of_In.
  by rewrite bool_decide_eq_true.
Qed.

Lemma cleared_tree : tree_wf d1.
Proof. by apply cleared_wf. Qed.

Lemma shared_tree : tree_wf d2.
Proof.
  destruct cleared_tree as [H1 H2 H3 H4 H5 H6 H7 H8]. destruct Hshared as [Hp Hs [Ha Has] Hw Ho].
  assert (∀ id c, contents d2 !! id = Some c →
            is_Some (contents d1 !! id) ∧ content_check c = true) as Hback.
  { intros id c Hc. destruct (shared writes !! id) as [v|] eqn:E.
    - apply shared_lookup, Hw in E as (c0 & Hc0 & Hc' & Hk). rewrite Hc' in Hc. simplify_eq. eauto.
    - rewrite Ho in Hc by (by apply shared_absent). split; [by eexists|by eapply H7]. }
  assert (∀ id, is_Some (contents d1 !! id) → is_Some (contents d2 !! id)) as Hfwd.
  { intros id Hid. destruct (shared writes !! id) as [v|] eqn:E.
    - apply shared_lookup, Hw in E as (c0 & _ & Hc' & _). by eexists.
    - by rewrite Ho by (by apply shared_absent). }
  split; rewrite ?Hp, ?Hs, ?Ha, ?Has; try done.
  - intros k p Hkp. apply Hfwd. by eapply H2.
  - intros id [c Hc]. apply H3. by apply (Hback id c).
  - intros id [c Hc]. apply H5. by apply (Hback id c).
  - intros id c Hc. by apply (Hback id c).
Qed.

(** What each path resolves to in the end. *)
Lemma resolve_final k :
  (∃ v p, (k, v) ∈ fresh writes ∧ p_path p = display_of (Subtree.displays n) k
     ∧ resolve d3 k = Some (p, mkContent v PLAIN t t))
  ∨ (k ∉ List.map fst (fresh writes) ∧ resolve d3 k = resolve d2 k).
Proof.
  destruct Hfresh as [Ho Hold Hnew _ _ _].
  destruct (decide (k ∈ List.map fst (fresh writes))) as [Hin|Hin].
  - left. apply list_elem_of_In, in_map_iff in Hin as ([k' v] & <- & Hin%list_elem_of_In).
    destruct (Hnew _ _ Hin) as (p & Hp & Hd & _ & _ & _ & Hc & _).
    exists v, p. split_and!; [done|done|]. by apply resolve_spec.
  - right. split; [done|]. unfold resolve. rewrite Ho by done.
    destruct (paths d2 !! k) as [p|] eqn:Ek; [|done]. simpl. rewrite Hold; [done|].
    pose proof (wf_content _ shared_tree _ _ Ek) as Hc. apply (wf_id _ shared_tree) in Hc. lia.
Qed.

(** The plain values at or below the root are exactly the requested ones. *)
Lemma final_plain k v :
  Path.AtOrBelow k root →
  (∃ p c, resolve d3 k = Some (p, c) ∧ c_classification c = PLAIN ∧ c_value c = v)
  ↔ (k, v) ∈ plain.
Proof.
  intros Hb. destruct (resolve_final k) as [(v' & p & Hin & _ & Hr)|[Hni Hr]].
  - pose proof Hin as [Hpl _]%fresh_elem. rewrite Hr. split.
    + intros (p' & c & [= <- <-] & _ & <-). done.
    + intros Hin'. assert (v' = v) as ->; [|by do 2 eexists].
      pose proof (disjoint_nodup _ (requested_disjoint _ _ secrets Hnorm)) as Hnd.
      by eapply nodup_fst_unique.
  - rewrite Hr, resolve_shared. destruct (resolve d1 k) as [[p c]|] eqn:E1.
    + pose proof E1 as [E Hf]%resolve_cleared. apply cleared_false in Hf. split.
      * intros (p' & c' & [= <- <-] & Hcls & Hv).
        destruct (shared writes !! p_content_id p) as [v'|] eqn:Es.
        -- simpl in Hv. subst v'. destruct Hf as [?|[Hne|[v' Hin]]]; [done| |].
           ++ exfalso. apply Hne. apply (wr_shared _ _ _ Hwrites) in Es as (k' & p' & Hin' & Hp' & Hid).
              apply resolve_spec in E as [_ Hc]. eapply (requested_not_secret k' v p'); [done|].
              apply resolve_spec. apply cleared_paths in Hp' as [Hp' _]. split; [done|].
              by rewrite Hid.
           ++ apply resolve_spec in E1 as [Hp1 _].
              assert (v' = v) as <- by (by eapply (wr_agree _ _ _ Hwrites)). done.
        -- destruct Hf as [?|[?|[v' Hin]]]; [done|done|]. exfalso.
           apply resolve_spec in E1 as [Hp1 _].
           assert (shared writes !! p_content_id p = Some v') as Es'
             by (apply (wr_shared _ _ _ Hwrites); by exists k, p). congruence.
      * intros Hin. apply resolve_spec in E1 as [Hp1 _].
        assert (shared writes !! p_content_id p = Some v) as ->
          by (apply (wr_shared _ _ _ Hwrites); by exists k, p).
        by do 2 eexists.
    + split; [by intros (? & ? & ? & _)|]. intros Hin. exfalso. apply Hni.
      apply list_elem_of_In, in_map_iff. exists (k, v). split; [done|].
      apply list_elem_of_In, fresh_elem. split; [done|].
      destruct (paths d1 !! k) as [p|] eqn:Ep; [|done].
      destruct (wf_content _ cleared_tree _ _ Ep) as [c Hc].
      assert (resolve d1 k = Some (p, c)) by (by apply resolve_spec). congruence.
Qed.

(** Contents rewritten through an alias were plain. *)
Lemma shared_was_plain k p c v :
  resolve d k = Some (p, c) → shared writes !! p_content_id p = Some v →
  c_classification c = PLAIN ∧ ∃ k' p', (k', v) ∈ plain ∧ paths d !! k' = Some p'
    ∧ p_content_id p' = p_content_id p.
Proof.
  intros [_ Hc]%resolve_spec (k' & p' & Hin & [Hp' _]%cleared_paths & Hid)%(wr_shared _ _ _ Hwrites).
  split; [|by exists k', p']. eapply (requested_not_secret k' v p'); [done|].
  apply resolve_spec. split; [done|]. by rewrite Hid.
Qed.

Lemma fresh_absent k : is_Some (paths d1 !! k) → k ∉ List.map fst (fresh writes).
Proof.
  intros [p Hp] Hin. apply list_elem_of_In, in_map_iff in Hin as ([k' v] & <- & Hin%list_elem_of_In).
  apply fresh_elem in Hin as [_ Hn]. cbn [fst] in Hp. by rewrite Hn in Hp.
Qed.

(** Every secret, anywhere, is as it was. *)
Lemma final_secret k p c :
  c_classification c = SECRET →
  resolve d3 k = Some (p, c) ↔ resolve d k = Some (p, c).
Proof.
  intros Hcls. destruct (resolve_final k) as [(v' & p' & Hin & _ & Hr)|[Hni Hr]].
  - rewrite Hr. apply fresh_elem in Hin as [Hpl Hn]. split; [intros [= <- <-]; done|].
    intros Hd. exfalso. pose proof (requested_not_secret _ _ _ _ Hpl Hd) as E. by rewrite Hcls in E.
  - rewrite Hr, resolve_shared. split.
    + destruct (resolve d1 k) as [[p1 c1]|] eqn:E1; [|done].
      destruct (shared writes !! p_content_id p1); intros [= <- <-]; [done|].
      by apply resolve_cleared in E1 as [? _].
    + intros Hd. assert (resolve d1 k = Some (p, c)) as ->.
      { apply resolve_cleared. split; [done|]. apply cleared_false. right; left. by rewrite Hcls. }
      destruct (shared writes !! p_content_id p) as [v|] eqn:Es; [|done].
      apply (shared_was_plain k p c v Hd) in Es as [E _]. by rewrite Hcls in E.
Qed.

(** Outside the root no path changes, and a value only through an alias of a
    requested path. *)
Lemma final_outside k :
  ¬ Path.AtOrBelow k root →
  paths d3 !! k = paths d !! k
  ∧ (resolve d3 k = resolve d k ∨ ∃ k' v p p', (k', v) ∈ plain ∧ paths d !! k = Some p
       ∧ paths d !! k' = Some p' ∧ p_content_id p' = p_content_id p
       ∧ ∃ c, resolve d3 k = Some (p, c) ∧ c_classification c = PLAIN ∧ c_value c = v).
Proof.
  intros Hb.
  assert (k ∉ List.map fst (fresh writes)) as Hni.
  { intros Hin. apply list_elem_of_In, in_map_iff in Hin as ([k' v] & <- & Hin%list_elem_of_In).
    apply fresh_elem in Hin as [Hin _]. apply plain_key_below in Hin as [? _]. done. }
  assert (∀ p, paths d1 !! k = Some p ↔ paths d !! k = Some p) as Hk.
  { intros p. unfold d1. rewrite cleared_paths. split; [tauto|]. intros Hp. split; [done|].
    unfold matched. destruct (contents d !! p_content_id p) as [c|]; [|done].
    apply cleared_false. by left. }
  split.
  - rewrite (fr_other _ _ _ _ _ Hfresh) by done. rewrite (sh_paths _ _ _ _ Hshared).
    apply option_eq. done.
  - destruct (resolve_final k) as [(v' & p' & Hin & _)|[_ Hr]].
    { exfalso. apply Hni, list_elem_of_In, in_map_iff. exists (k, v'). split; [done|].
      by apply list_elem_of_In. }
    rewrite Hr, resolve_shared.
    destruct (resolve d k) as [[p c]|] eqn:Ed.
    + assert (resolve d1 k = Some (p, c)) as ->.
      { apply resolve_cleared. split; [done|]. apply cleared_false. by left. }
      destruct (shared writes !! p_content_id p) as [v|] eqn:Es; [right|by left].
      pose proof (shared_was_plain k p c v Ed Es) as (_ & k' & p' & Hin & Hp' & Hid).
      apply resolve_spec in Ed as [Hp _]. exists k', v, p, p'. split_and!; try done. by eexists.
    + left. destruct (resolve d1 k) as [[p c]|] eqn:E1; [|done].
      apply resolve_cleared in E1 as [E1 _]. by rewrite Ed in E1.
Qed.

(** A secret content was stored before. *)
Lemma final_secret_content id c :
  contents d3 !! id = Some c → c_classification c = SECRET → contents d !! id = Some c.
Proof.
  intros Hc Hs. pose proof Hfresh as [_ Hold Hnew Hids _ _]. pose proof Hshared as [_ _ _ Hw Ho].
  assert (is_Some (contents d2 !! id)) as Hid.
  { destruct (Hids id) as [?|(k & v & p & Hf & Hk & <-)]; [by eexists|done|].
    destruct (Hnew _ _ Hf) as (p' & Hp' & _ & _ & _ & _ & Hc' & _). rewrite Hk in Hp'.
    injection Hp' as <-. rewrite Hc in Hc'. by injection Hc' as ->. }
  apply (wf_id _ shared_tree) in Hid. rewrite Hold in Hc by lia.
  destruct (shared writes !! id) as [v|] eqn:E.
  - apply shared_lookup, Hw in E as (c0 & _ & Hc' & _). rewrite Hc in Hc'. by injection Hc' as ->.
  - rewrite Ho in Hc by (by apply shared_absent). by apply cleared_contents in Hc as [? _].
Qed.

(** No plain value is stored strictly above the root. *)
Definition no_plain_above : Prop :=
  ∀ k p c, resolve d k = Some (p, c) → c_classification c = PLAIN → ¬ Below root k.

(** Then a requested path nests with nothing that is left. *)
Lemma requested_free k v k' :
  no_plain_above → (k, v) ∈ plain → is_Some (paths d1 !! k') → Collide k k' → k = k'.
Proof.
  intros Hno Hin [p' Hp'] Hc.
  destruct (wf_content _ cleared_tree _ _ Hp') as [c' Hc'].
  assert (resolve d1 k' = Some (p', c')) as Hr1 by (by apply resolve_spec).
  pose proof Hr1 as [Hr Hf]%resolve_cleared. apply cleared_false in Hf.
  destruct (plain_key_below k v Hin) as (Hkb & _ & _).
  pose proof (collide_touches k k' root Hkb Hc) as Ht.
  pose proof Hr as [_ Hc0]%resolve_spec. destruct (plain_or_secret _ _ _ Hwf Hc0) as [Hp|Hs].
  - destruct Ht as [Ht|Ht]; [|by edestruct Hno].
    destruct Hf as [?|[?|[v' Hin']]]; [done|done|].
    by apply (requested_apart k v k' v').
  - exfalso. apply (Hcol k v k' Hin); [|done]. apply elem_of_secrets_of. exists p', c'.
    split_and!; [done|done|by apply touches_spec].
Qed.

(** So the tree keeps its invariant. *)
Lemma final_tree : no_plain_above → tree_wf d3.
Proof.
  intros Hno. pose proof Hfresh as [Ho Hold Hnew Hids (Hq1 & Hq2 & Hq3) [Ha Has]].
  pose proof shared_tree as W. pose proof (sh_paths _ _ _ _ Hshared) as Hp2.
  assert (∀ k p, paths d3 !! k = Some p →
    (∃ v, (k, v) ∈ plain ∧ (k, v) ∈ fresh writes) ∨ paths d2 !! k = Some p) as Hback.
  { intros k p Hk. destruct (decide (k ∈ List.map fst (fresh writes))) as [Hin|Hin].
    - apply list_elem_of_In, in_map_iff in Hin as ([k' v] & <- & Hin%list_elem_of_In).
      left. exists v. split; [|done]. by apply fresh_elem in Hin as [? _].
    - right. by rewrite Ho in Hk. }
  assert (∀ k p, paths d2 !! k = Some p → paths d3 !! k = Some p) as Hfwd.
  { intros k p Hk. rewrite Ho; [done|]. apply fresh_absent. rewrite <- Hp2. by eexists. }
  split.
  - intros k p Hk. destruct (Hback k p Hk) as [(v & Hpl & Hf)|Hk2]; [|by apply (wf_key _ W)].
    destruct (Hnew _ _ Hf) as (p' & Hp' & Hd & _ & Hck & _). rewrite Hk in Hp'.
    injection Hp' as <-. split; [|done]. rewrite Hd. apply requested_entry in Hpl as (e & He & <-).
    symmetry. by apply (nm_display _ _ Hnorm).
  - intros k p Hk. destruct (Hback k p Hk) as [(v & _ & Hf)|Hk2].
    + destruct (Hnew _ _ Hf) as (p' & Hp' & _ & _ & _ & _ & Hc & _). rewrite Hk in Hp'.
      injection Hp' as <-. by eexists.
    + pose proof (wf_content _ W _ _ Hk2) as Hc. rewrite Hold; [done|]. by apply (wf_id _ W).
  - intros id [(k & p & Hk & <-)%(wf_path _ W)|(k & v & p & _ & Hk & <-)]%Hids; eauto.
  - intros k k' [p Hk] [p' Hk'] Hc.
    destruct (Hback k p Hk) as [(v & Hpl & _)|Hk2], (Hback k' p' Hk') as [(v' & Hpl' & _)|Hk2'].
    + by apply (requested_apart k v k' v').
    + apply (requested_free k v k' Hno Hpl); [|done]. rewrite <- Hp2. by eexists.
    + symmetry. apply (requested_free k' v' k Hno Hpl'); [|by apply Collide_sym].
      rewrite <- Hp2. by eexists.
    + apply (wf_nest _ W); [by eexists|by eexists|done].
  - intros id [Hid|(k & v & p & Hf & Hk & <-)]%Hids.
    + apply (wf_id _ W) in Hid. lia.
    + destruct (Hnew _ _ Hf) as (p' & Hp' & _ & _ & _ & ? & _). rewrite Hk in Hp'.
      injection Hp' as <-. pose proof (wf_seq _ W). lia.
  - pose proof (wf_seq _ W). lia.
  - intros id c Hc.
    destruct (Z.le_gt_cases id (content_seq d2)) as [Hle|Hgt].
    { rewrite Hold in Hc by done. by apply (wf_check _ W) in Hc. }
    assert (is_Some (contents d3 !! id)) as [Hid|(k & v & p & Hf & Hk & <-)]%Hids by (by eexists).
    + apply (wf_id _ W) in Hid. lia.
    + destruct (Hnew _ _ Hf) as (p' & Hp' & _ & _ & _ & _ & Hc' & Hck). rewrite Hk in Hp'.
      injection Hp' as <-. rewrite Hc in Hc'. injection Hc' as ->. done.
  - rewrite Ha, Has. apply (wf_audit _ W).
Qed.

End effect.

(** ** The operation *)

(** The value a replacement asks to store at [k]: a plain entry's content, or
    the masked text where a preserve marker has no secret to preserve. *)
Definition Asked (d : Database) (values : list SubTreeEntry) (k v : bytes) : Prop :=
  ∃ e, e ∈ values ∧ to_ascii_lowercase (e_path e) = k
    ∧ (e_content e = Some (PlainEntry v)
       ∨ e_content e = Some PreserveSecret ∧ v = MASKED_SECRET_TEXT
         ∧ ¬ ∃ p c, resolve d k = Some (p, c) ∧ c_classification c = SECRET).

Lemma requested_asked d root vs n k v :
  Subtree.normalize root vs = Ok n →
  (k, v) ∈ requested n (secrets_of d (Path.fold root)) ↔ Asked d vs k v.
Proof.
  intros Hn. pose proof (normalize_normalized _ _ _ Hn) as Hnm.
  assert (∀ e, e ∈ Subtree.values n ↔ ∃ u, u ∈ vs ∧ e = Normalize.folded u) as Hvs.
  { rewrite Normalize.normalize_spec in Hn. case_decide; [|done]. injection Hn as <-.
    cbn [Subtree.values]. intros e. rewrite elem_of_sort_by, list_elem_of_In, in_map_iff.
    setoid_rewrite <- list_elem_of_In. naive_solver. }
  assert (∀ k, (∃ u, u ∈ vs ∧ to_ascii_lowercase (e_path u) = k) →
    k ∈ secrets_of d (Path.fold root) ↔
    ∃ p c, resolve d k = Some (p, c) ∧ c_classification c = SECRET) as Hsec.
  { intros k' (u & Hu & <-). rewrite elem_of_secrets_of. split; [naive_solver|].
    intros (p & c & Hr & Hc). exists p, c. split_and!; [done..|]. apply touches_spec. left.
    apply (nm_below _ _ Hnm (Normalize.folded u)). apply Hvs. by exists u. }
  unfold requested, Asked. rewrite Normalize.elem_of_plain_of, Normalize.elem_of_resolve. split.
  - intros (e & (u & Hu & ->)%Hvs & E). exists u. cbn [Normalize.folded e_path e_content] in E.
    case_decide as Hd.
    + destruct Hd as [Hc Hns]. injection E as -> ->. split; [done|]. split; [done|]. right.
      split; [done|]. split; [done|]. rewrite <- Hsec; [done|]. by exists u.
    + injection E as -> <-. split; [done|]. split; [done|]. by left.
  - intros (u & Hu & <- & Hc). exists (Normalize.folded u).
    split; [apply Hvs; by exists u|]. cbn [Normalize.folded e_path e_content].
    destruct Hc as [Hc|(Hc & -> & Hns)]; rewrite Hc.
    + rewrite decide_False by (by intros [? _]). unfold Normalize.folded. by rewrite Hc.
    + rewrite decide_True; [done|]. split; [done|]. rewrite Hsec; [done|]. by exists u.
Qed.

Section operation.
Context `{Crypto} (recorder : Trail.AuditRecorder).

Lemma replace_sub_tree_run context s values w r w' :
  replace_sub_tree recorder context s values w = (r, w') →
  (∃ e, r = Err e ∧ w' = w)
  ∨ ∃ n actor, Authz.authorize context s [Write; Manage] true = Ok (mkPath s)
      ∧ Subtree.normalize (mkPath s) values = Ok n ∧ Rpc.actor context = Ok actor
      ∧ ∃ r1, transaction (replace_transaction recorder actor (mkPath s) n) w = (r1, w')
        ∧ r = match r1 with
              | Ok (at_, count) => Ok (mkReplaceMetadata (Rpc.timestamp at_) (Z.of_nat count))
              | Err e => Err e
              end.
Proof.
  unfold replace_sub_tree, mbind, M_bind, lift.
  destruct (Authz.authorize context s [Write; Manage] true) as [path|e] eqn:Ea; [|intros [= <- <-]; eauto].
  assert (path = mkPath s) as -> by (by apply Authz.authorize_ok in Ea as (-> & _)).
  destruct (Subtree.normalize (mkPath s) values) as [n|e]; [|intros [= <- <-]; eauto].
  destruct (Rpc.actor context) as [actor|e]; [|intros [= <- <-]; eauto].
  destruct (transaction (replace_transaction recorder actor (mkPath s) n) w)
    as [[[at_ count]|e] w1] eqn:Et.
  - rewrite Rpc.to_timestamp_ok. intros [= <- <-]. right. exists n, actor. eauto 10.
  - intros [= <- <-]. right. exists n, actor. eauto 10.
Qed.

(** No plain value is stored strictly above the path named. *)
Definition nothing_plain_above (s : bytes) (d : Database) : Prop :=
  no_plain_above d (to_ascii_lowercase s).

Lemma replace_sub_tree_wf context s values w :
  tree_wf (db w) → nothing_plain_above s (db w) →
  tree_wf (db (snd (replace_sub_tree recorder context s values w))).
Proof.
  intros Hw Hno. destruct (replace_sub_tree recorder context s values w) as [r w'] eqn:E. simpl.
  apply replace_sub_tree_run in E as [(e & _ & ->)|(n & actor & _ & Hn & _ & r1 & Ht & _)]; [done|].
  apply normalize_normalized in Hn.
  replace w' with (snd (transaction (replace_transaction recorder actor (mkPath s) n) w))
    by (by rewrite Ht).
  unfold transaction. apply transaction_preserves; [apply _|apply tree_wf_rollback| |done].
  intros [at_ count] w1 Hb.
  apply replace_transaction_ok in Hb as (writes & d2 & d3 & _ & _ & Hcol & Hwr & Hsh & Hfr & Hrec); [|done].
  eapply events_recorded_wf; [|exact Hrec]. by eapply final_tree.
Qed.
End operation.

(** C16: a successful replacement of a subtree leaves, at or below the path
    named, exactly the plain values the request asks for (a preserve marker
    with no secret behind it asks for the masked text); every secret anywhere
    is untouched; outside the subtree no path appears or disappears, and a
    value changes only where it is an alias of a requested path; and the
    reported count is the number of entries in the request. *)
Theorem replace_sets_exactly_the_plain_values `{Crypto} (recorder : Trail.AuditRecorder)
    (context : Rpc.CallContext) (s : bytes) (values : list SubTreeEntry) (w w' : World)
    (meta : ReplaceMetadata) :
  tree_wf (db w) → replace_sub_tree recorder context s values w = (Ok meta, w') →
  let root := to_ascii_lowercase s in
  (∀ k v, Path.AtOrBelow k root →
     (∃ p c, resolve (db w') k = Some (p, c) ∧ c_classification c = PLAIN ∧ c_value c = v)
     ↔ Asked (db w) values k v)
  ∧ (∀ k p c, c_classification c = SECRET →
       resolve (db w') k = Some (p, c) ↔ resolve (db w) k = Some (p, c))
  ∧ (∀ k, ¬ Path.AtOrBelow k root →
       paths (db w') !! k = paths (db w) !! k
       ∧ (resolve (db w') k = resolve (db w) k
          ∨ ∃ k' v p p', Asked (db w) values k' v ∧ paths (db w) !! k = Some p
              ∧ paths (db w) !! k' = Some p' ∧ p_content_id p' = p_content_id p
              ∧ ∃ c, resolve (db w') k = Some (p, c) ∧ c_classification c = PLAIN ∧ c_value c = v))
  ∧ value_count meta = Z.of_nat (length values).
Proof.
  intros Hw [(e & ? & _)|(n & actor & _ & Hn & _ & r1 & Ht & Hr)]%replace_sub_tree_run root; [done|].
  destruct r1 as [[at_ count]|]; [|done]. apply in_transaction_ok in Ht as (_ & w1 & Hb & _ & ->).
  pose proof (normalize_normalized _ _ _ Hn) as Hnm.
  apply replace_transaction_ok in Hb as (writes & d2 & d3 & _ & -> & Hcol & Hwr & Hsh & Hfr & Hrec); [|done].
  injection Hr as ->. apply events_recorded_tables in Hrec as (Hc & Hp & _).
  assert (∀ k, resolve (db (tick w1)) k = resolve d3 k) as Hres.
  { intros k. unfold resolve. cbn [tick db]. rewrite <- Hc, <- Hp. done. }
  split_and!.
  - intros k v Hk. rewrite Hres, (final_plain (db w) root n) by done.
    by apply (requested_asked (db w) (mkPath s)).
  - intros k p c Hcl. rewrite Hres. by eapply final_secret.
  - intros k Hk. rewrite Hres. change (paths (db (tick w1))) with (paths (db w1)). rewrite Hp.
    destruct (final_outside (db w) root n _ writes d2 d3 Hw Hnm Hcol Hwr Hsh Hfr k Hk) as [Hpk Ho].
    split; [done|]. destruct Ho as [?|(k' & v & p & p' & Hq & Ho)]; [by left|right].
    exists k', v, p, p'. split; [|done]. by apply (requested_asked (db w) (mkPath s) values n).
  - cbn [value_count]. f_equal. rewrite Normalize.normalize_spec in Hn. case_decide; [|done].
    injection Hn as <-. cbn [Subtree.values]. by rewrite sort_by_perm, length_map.
Qed.

(** The sample subtree: one value kept, one new, a marker for the secret. *)
Definition sample_values : list SubTreeEntry :=
  [mkEntry "/apps/url" (Some (PlainEntry "y")); mkEntry "/Apps/New" (Some (PlainEntry "z"));
   mkEntry "/apps/pw" (Some PreserveSecret)].

Lemma replace_sets_exactly_the_plain_values_witness :
  let run := replace_sub_tree Sample.hourly Sample.owner "/apps" sample_values Sample.with_secret in
  fst run = Ok (mkReplaceMetadata (mkTimestamp 1700000000 123456789) 3)
  ∧ ∃ p c, resolve (db (snd run)) "/apps/new" = Some (p, c)
      ∧ c_classification c = PLAIN ∧ c_value c = "z".
Proof.
  intros run. split; [vm_compute; reflexivity|].
  destruct (replace_sets_exactly_the_plain_values Sample.hourly Sample.owner "/apps" sample_values
    Sample.with_secret (snd run) (mkReplaceMetadata (mkTimestamp 1700000000 123456789) 3)
    with_secret_wf) as (Hk & _); [vm_compute; reflexivity|].
  apply Hk; [by right; right; exists "new"|].
  exists (mkEntry "/Apps/New" (Some (PlainEntry "z"))). split; [by right; left|].
  split; [reflexivity|by left].
Defined.

(** The hypothesis of [replace_sub_tree_wf] is one the service does not check:
    with a plain value stored at [/apps/url], a replacement of the subtree
    [/apps/url/x] succeeds and stores a value below it. *)

(** Replacing a subtree strictly below a stored plain value is accepted
    and leaves two stored values nested, which every other mutation refuses. *)
Theorem replace_below_a_plain_value_nests :
  let run := replace_sub_tree Sample.hourly Sample.owner "/apps/url/x"
               [mkEntry "/apps/url/x/y" (Some (PlainEntry "z"))] Sample.with_plain in
  fst run = Ok (mkReplaceMetadata (mkTimestamp 1700000000 123456789) 1)
  ∧ is_Some (paths (db (snd run)) !! "/apps/url") ∧ is_Some (paths (db (snd run)) !! "/apps/url/x/y")
  ∧ Collide "/apps/url" "/apps/url/x/y"
  ∧ fst (put_value Sample.hourly Sample.owner "/apps/url/x/y" (Some (PutPlain "z"))
           Sample.with_plain) = Err collides.
Proof.
  intros run. split; [vm_compute; reflexivity|]. split; [vm_compute; by eexists|].
  split; [vm_compute; by eexists|]. split; [|vm_compute; reflexivity].
  right; right. by exists "x/y".
Qed.

(** ** The events of bulk operations *)

Lemma push_capped_all l : ∀ acc,
  length acc ≤ Trail.BULK_EVENT_CAP →
  foldl push_capped acc l = take Trail.BULK_EVENT_CAP (acc ++ l).
Proof.
  induction l as [|e l IH]; intros acc Hacc; cbn [foldl].
  - by rewrite app_nil_r, take_ge.
  - unfold push_capped at 2. destruct (Nat.ltb_spec (length acc) Trail.BULK_EVENT_CAP) as [Hlt|Hge].
    + rewrite IH; [by rewrite <- app_assoc|]. rewrite length_app. cbn [length]. lia.
    + rewrite IH by done. rewrite !take_app_le by lia. done.
Qed.

(** The per-value events of a replacement, before any cap. *)
Definition itemized (actor : Actor) (changes : SubtreeChanges) : list AuditEvent :=
  List.map (λ row, Event.value_deleted actor (dp_path row)
              (recorded_of (dp_classification row) (dp_value row))) (cleared changes)
  ++ updated_events actor changes
  ++ List.map (λ '(fold, content), Event.value_created actor (display_of (displays changes) fold)
                 (recorded_of PLAIN content)) (fresh (writes changes)).

(** A replacement records one event per value it deleted, updated or
    created, in that order, up to the cap, then one summary whose counts are
    the full ones and whose unrecorded count is exactly the number of events
    the cap left out. *)
Theorem replacement_events_account_for_every_value (actor : Actor) (root : ConfigPath)
    (changes : SubtreeChanges) :
  let all := itemized actor changes in
  replacement_events actor root changes
  = take Trail.BULK_EVENT_CAP all
    ++ [Event.subtree_replaced actor (Path.as_str root) (length (fresh (writes changes)))
          (length (updated_events actor changes)) (length (cleared changes))
          (length all - Trail.BULK_EVENT_CAP)].
Proof.
  intros all. unfold replacement_events.
  rewrite <- !foldl_app. fold (itemized actor changes). fold all.
  rewrite (push_capped_all all []) by (simpl; lia). cbn [app].
  f_equal. f_equal. rewrite !length_map, length_take. unfold all, itemized.
  rewrite !length_app, !length_map. f_equal. lia.
Qed.

End Replace.
