(* ===== verification/ValuesList.v ===== *)
(** * Listing a level of the tree

    What [list_values] of [crates/sovereign-config-server/src/values/service.rs]
    answers, with the namespaces [values/paths.rs] collects: the readable values
    directly under the selection, each with its readable aliases, and every
    proper ancestor of a readable path under the spelling of the earliest path
    below it. *)

From stdpp Require Import strings.
From S2P Require Import Prelude Bytes ConfigPath Core Json Auth Encryption AuditEvent Rpc Database AuditTrail ValuePaths Store Invariant Values ValuesPut ValuesRead.

Local Open Scope bytes_scope.

(** ** The ancestors collected from one path *)

Module Ancestors.
Import Path Paths.

Definition upsert (m : gmap bytes (Z * bytes)) (e : bytes * (Z * bytes)) : gmap bytes (Z * bytes) :=
  upsert_ancestor m (fst e) (fst (snd e)) (snd (snd e)).

(** Every ancestor of a path with the segments [segs], as the path spells it. *)
Definition ancestor_entries (t : Z) (segs : list bytes) : list (bytes * (Z * bytes)) :=
  List.map (λ i, (render (List.map to_ascii_lowercase (take i segs)), (t, render (take i segs))))
    (seq 0 (length segs)).

(** The running prefix of the loop. *)
Definition prefix_of_segments (segs : list bytes) : bytes :=
  match segs with [] => [] | _ => render segs end.

Lemma prefix_snoc segs s : prefix_of_segments segs ++ "/" ++ s = prefix_of_segments (segs ++ [s]).
Proof.
  replace (prefix_of_segments (segs ++ [s])) with (render (segs ++ [s])) by (by destruct segs).
  rewrite render_snoc. case_bool_decide as E; [by subst|]. by destruct segs.
Qed.

Lemma add_ancestors_entries t last : ∀ rest seen m,
  add_ancestors m t (prefix_of_segments (List.map to_ascii_lowercase seen)) (prefix_of_segments seen)
    (List.map to_ascii_lowercase rest) (rest ++ last)
  = foldl upsert m (List.map (λ i,
      (render (List.map to_ascii_lowercase (take i (seen ++ rest))), (t, render (take i (seen ++ rest)))))
      (seq (S (length seen)) (length rest))).
Proof.
  induction rest as [|x rest IH]; intros seen m; [done|].
  cbn [List.map app add_ancestors length seq foldl].
  rewrite (prefix_snoc seen x : _ ++ "/"%char :: x = _).
  rewrite (prefix_snoc (List.map to_ascii_lowercase seen) (to_ascii_lowercase x)
             : _ ++ "/"%char :: to_ascii_lowercase x = _).
  change ([to_ascii_lowercase x]) with (List.map to_ascii_lowercase [x]).
  rewrite <- map_app, IH, length_app, Nat.add_comm. cbn [length Nat.add].
  replace ((seen ++ [x]) ++ rest) with (seen ++ x :: rest) by (by rewrite <- app_assoc).
  f_equal. unfold upsert. cbn [fst snd].
  replace (take (S (length seen)) (seen ++ x :: rest)) with (seen ++ [x]).
  2:{ rewrite take_app_ge by lia. by replace (S (length seen) - length seen) with 1 by lia. }
  assert (∀ l, prefix_of_segments (l ++ [x]) = render (l ++ [x])) as Hp by (by intros []).
  rewrite Hp. f_equal. rewrite map_app. cbn [List.map].
  by destruct (List.map to_ascii_lowercase seen).
Qed.

Lemma parent_path_render segs s :
  Segment s → parent_path (render (segs ++ [s])) = render segs.
Proof.
  intros Hs. unfold parent_path. rewrite render_snoc.
  replace (rsplit_once "/"%char _) with (Some (prefix_of_segments segs, s)).
  { destruct segs as [|x segs]; [done|]. cbn [prefix_of_segments]. unfold render. done. }
  symmetry. case_bool_decide as E.
  - subst. apply (rsplit_once_some _ []). by apply Segment_no_slash.
  - destruct segs as [|x segs]; [done|]. apply rsplit_once_some. by apply Segment_no_slash.
Qed.

(** What [add_parent_paths] upserts for a path spelled [render segs]. *)
Lemma add_parent_paths_entries m segs t :
  segs ≠ [] → Forall Segment segs →
  add_parent_paths m (to_ascii_lowercase (render segs)) (render segs) t
  = foldl upsert m (ancestor_entries t segs).
Proof.
  intros Hne Hs. destruct segs as [|s segs _] using rev_ind; [done|].
  pose proof Hs as [Hsegs Hx]%Forall_app. apply Forall_cons in Hx as [Hx _].
  unfold add_parent_paths. rewrite lower_render, map_app. cbn [List.map].
  rewrite parent_path_render by auto with sovereign.
  unfold ancestor_entries. rewrite length_app, Nat.add_comm. cbn [length Nat.add seq List.map foldl].
  rewrite take_0. cbn [List.map]. unfold upsert at 2. cbn [fst snd]. rewrite render_nil.
  case_bool_decide as E.
  - destruct segs as [|x segs]; [done|]. exfalso.
    apply (render_not_root (List.map to_ascii_lowercase (x :: segs))); auto with sovereign.
  - assert (segs ≠ []) as Hne' by (by intros ->).
    assert (List.map to_ascii_lowercase segs ≠ []) by (by destruct segs).
    rewrite !Json.trim_start_render, !split_relative by auto with sovereign.
    etrans; [apply (add_ancestors_entries t [s] segs [])|]. f_equal. apply map_ext_in.
    intros i [_ Hi]%in_seq. cbn [app length] in *. by rewrite take_app_le by lia.
Qed.

(** The entries of a path: its proper ancestors, as it spells them. *)
Lemma elem_of_ancestor_entries t segs f e :
  Forall Segment segs →
  (f, e) ∈ ancestor_entries t segs ↔
  Canonical f ∧ AtOrBelow (to_ascii_lowercase (render segs)) f
  ∧ to_ascii_lowercase (render segs) ≠ f ∧ e = (t, take (length f) (render segs)).
Proof.
  intros Hs. unfold ancestor_entries. rewrite list_elem_of_In, in_map_iff.
  assert (Forall Segment (List.map to_ascii_lowercase segs)) as Hl by auto with sovereign.
  assert (∀ i, i < length segs → render (take i segs)
    = take (length (render (List.map to_ascii_lowercase (take i segs)))) (render segs)) as Htake.
  { intros i Hi. rewrite <- lower_render, length_to_ascii_lowercase.
    destruct (decide (i = 0)) as [->|Hi0]; [done|].
    rewrite <- (take_drop i segs) at 3. unfold render at 3.
    rewrite join_app, app_assoc by (intros E; apply (f_equal length) in E;
      rewrite ?length_take, ?length_drop in E; cbn in E; lia).
    change ("/" ++ join "/" (take i segs)) with (render (take i segs)). by rewrite take_app_length. }
  split.
  - intros (i & [= <- <-] & [_ Hi]%in_seq). cbn [Nat.add] in Hi. rewrite lower_render.
    rewrite <- firstn_map. assert (Forall Segment (take i (List.map to_ascii_lowercase segs)))
      by (by apply Forall_take).
    split; [by apply render_canonical|]. split; [|split].
    + apply AtOrBelow_segments; [by apply render_canonical..|].
      rewrite !segments_render by done. apply prefix_take.
    + intros E%render_inj; [|done..]. apply (f_equal length) in E.
      rewrite length_take, length_map in E. lia.
    + rewrite firstn_map. by rewrite Htake.
  - intros (Hf & Hb & Hne & ->). rewrite lower_render in Hb, Hne. destruct Hf as (fs & Hfs & ->).
    apply AtOrBelow_segments in Hb; [|by apply render_canonical..].
    rewrite !segments_render in Hb by done. destruct Hb as [rest Hb].
    assert (rest ≠ []) as Hrest.
    { intros ->. apply Hne. by rewrite Hb, app_nil_r. }
    assert (length fs < length segs) as Hlt.
    { apply (f_equal length) in Hb. rewrite length_map, length_app in Hb. destruct rest; [done|].
      cbn in Hb. lia. }
    assert (List.map to_ascii_lowercase (take (length fs) segs) = fs) as Ht.
    { by rewrite <- firstn_map, Hb, take_app_length. }
    exists (length fs). split; [|apply in_seq; lia]. by rewrite Htake, Ht.
Qed.

(** *** The earliest entry wins *)

Lemma bytes_ltb_trans a b c : bytes_ltb a b = true → bytes_ltb b c = true → bytes_ltb a c = true.
Proof.
  intros H1 H2.
  assert (∀ x y, bytes_ltb x y = true ↔ bytes_leb x y = true ∧ x ≠ y) as Hl.
  { intros x y. unfold bytes_ltb, bytes_leb. pose proof (cmp_bytes_eq x y).
    destruct (cmp_bytes x y) eqn:E; naive_solver. }
  rewrite Hl in *. destruct H1 as [H1 N1], H2 as [H2 N2].
  split; [by eapply bytes_leb_trans|]. intros ->. apply N1. by apply bytes_leb_antisym.
Qed.

Lemma bytes_ltb_irrefl a : bytes_ltb a a = false.
Proof. unfold bytes_ltb. by rewrite (proj2 (cmp_bytes_eq a a)). Qed.

Lemma earlier_spec a b :
  earlier a b = true ↔ (fst a < fst b)%Z ∨ fst a = fst b ∧ bytes_ltb (snd a) (snd b) = true.
Proof. unfold earlier. rewrite orb_true_iff, andb_true_iff, Z.ltb_lt, Z.eqb_eq. tauto. Qed.

Lemma earlier_irrefl a : earlier a a = false.
Proof.
  apply not_true_iff_false. rewrite earlier_spec, bytes_ltb_irrefl. intros [?|[_ ?]]; [lia|done].
Qed.

Lemma earlier_trans a b c : earlier a b = true → earlier b c = true → earlier a c = true.
Proof.
  rewrite !earlier_spec. intros [?|[? ?]] [?|[? ?]]; [left; lia..|]. right.
  split; [lia|by eapply bytes_ltb_trans].
Qed.

(** [m] holds, for each key, the earliest of the entries [l]. *)
Definition earliest_of (l : list (bytes * (Z * bytes))) (m : gmap bytes (Z * bytes)) : Prop :=
  (∀ f e, m !! f = Some e → (f, e) ∈ l ∧ ∀ e', (f, e') ∈ l → earlier e' e = false)
  ∧ (∀ f e, (f, e) ∈ l → is_Some (m !! f)).

Lemma upsert_earliest l m f e :
  earliest_of l m → earliest_of (l ++ [(f, e)]) (upsert m (f, e)).
Proof.
  intros [Hm Hd]. unfold upsert, upsert_ancestor. cbn [fst snd]. destruct e as [t x]. cbn [fst snd].
  assert (∀ g a, (g, a) ∈ l ++ [(f, (t, x))] ↔ (g, a) ∈ l ∨ g = f ∧ a = (t, x)) as Hin.
  { intros g a. rewrite elem_of_app, list_elem_of_singleton. naive_solver. }
  destruct (m !! f) as [e0|] eqn:Ef; [destruct (earlier (t, x) e0) eqn:Ee|].
  1,3: (split; [intros g a; rewrite lookup_insert_Some|];
    [|intros g a [Hg|[-> _]]%Hin; rewrite lookup_insert_is_Some;
      [destruct (decide (f = g)); [by left|right; split; [done|by eapply Hd]]|by left]]).
  - intros [[<- <-]|[Hne Hg]].
    + split; [apply Hin; by right|]. intros a [Ha|[_ ->]]%Hin; [|apply earlier_irrefl].
      apply not_true_iff_false. intros Hea. pose proof (earlier_trans _ _ _ Hea Ee) as Hx.
      by rewrite (proj2 (Hm f e0 Ef) a Ha) in Hx.
    + destruct (Hm g a Hg) as [Hl He]. split; [apply Hin; by left|].
      intros a' [?|[-> _]]%Hin; [by apply He|done].
  - intros [[<- <-]|[Hne Hg]].
    + split; [apply Hin; by right|]. intros a [Ha|[_ ->]]%Hin; [|apply earlier_irrefl].
      apply Hd in Ha. rewrite Ef in Ha. by destruct Ha.
    + destruct (Hm g a Hg) as [Hl He]. split; [apply Hin; by left|].
      intros a' [?|[-> _]]%Hin; [by apply He|done].
  - split.
    + intros g a Hg. destruct (Hm g a Hg) as [Hl He]. split; [apply Hin; by left|].
      intros a' [?|[-> ->]]%Hin; [by apply He|]. rewrite Ef in Hg. by injection Hg as <-.
    + intros g a [Hg|[-> _]]%Hin; [by eapply Hd|by eexists].
Qed.

Lemma upserts_earliest l : ∀ l0 m, earliest_of l0 m → earliest_of (l0 ++ l) (foldl upsert m l).
Proof.
  induction l as [|[f e] l IH]; intros l0 m Hm; [by rewrite app_nil_r|]. cbn [foldl].
  replace (l0 ++ (f, e) :: l) with ((l0 ++ [(f, e)]) ++ l) by (by rewrite <- app_assoc).
  by apply IH, upsert_earliest.
Qed.

Lemma ancestor_entry_spelling t segs f e :
  Forall Segment segs → (f, e) ∈ ancestor_entries t segs →
  Canonical (snd e) ∧ to_ascii_lowercase (snd e) = f.
Proof.
  intros Hs. unfold ancestor_entries. rewrite list_elem_of_In, in_map_iff.
  intros (i & [= <- <-] & _). cbn [snd]. split; [|apply lower_render].
  by apply render_canonical, Forall_take.
Qed.

End Ancestors.

(** ** The listing *)

Module Listed.
Import Store Tree Values Put Reads Ancestors.

Section listing.
Context (d : Database) (principal : AuthenticatedPrincipal) (selected : ConfigPath).
Hypothesis Hwf : tree_wf d.

(** The first loop, on a path the caller may read. *)
Definition add_readable (acc : Listing) (row : bytes * PathRow) : Listing :=
  let '(k, p) := row in
  mkListing
    (<[p_content_id p := default [] (content_paths acc !! p_content_id p) ++ [(k, p_path p)]]>
       (content_paths acc))
    (Paths.add_parent_paths (ancestors acc) k (p_path p) (p_created_at p))
    (if bool_decide (Paths.parent_path k = Path.fold selected) then direct acc ++ [k] else direct acc).

Lemma candidates_loop acc :
  fold_result (list_candidate principal selected) acc
    (List.map (λ '(k, p), mkPathContentRow (p_path p) k (p_content_id p) (p_created_at p))
       (path_rows d))
  = Ok (foldl add_readable acc (readable d principal)).
Proof.
  unfold readable.
  assert (∀ k p, (k, p) ∈ path_rows d → Path.parse k = Ok (mkPath k)) as Hrows.
  { intros k p Hkp%elem_of_path_rows. by eapply parse_stored. }
  revert acc. induction (path_rows d) as [|[k p] l IH]; intros acc; [done|].
  cbn [List.map List.filter fold_result]. unfold list_candidate at 1.
  cbn [pc_lowercase_path pc_path pc_content_id pc_created_at].
  rewrite (Hrows k p) by (by left). cbn [map_err and_then].
  assert (∀ k p, (k, p) ∈ l → Path.parse k = Ok (mkPath k)) as Hl
    by (intros ?? Hi; eapply Hrows; right; exact Hi).
  by destruct (Auth.allows principal (mkPath k) Read); cbn [negb foldl]; rewrite IH.
Qed.

Lemma direct_loop l : ∀ acc,
  direct (foldl add_readable acc l)
  = direct acc ++ List.map fst (List.filter (λ '(k, _),
      bool_decide (Paths.parent_path k = Path.fold selected)) l).
Proof.
  induction l as [|[k p] l IH]; intros acc; [simpl; by rewrite app_nil_r|].
  cbn [foldl List.filter]. rewrite IH. cbn [add_readable direct].
  destruct (bool_decide _); [|done]. cbn [List.map fst]. by rewrite <- app_assoc.
Qed.

Lemma content_paths_loop l id : ∀ acc,
  default [] (content_paths (foldl add_readable acc l) !! id)
  = default [] (content_paths acc !! id)
    ++ omap (λ '(k, p), if (p_content_id p =? id)%Z then Some (k, p_path p) else None) l.
Proof.
  induction l as [|[k p] l IH]; intros acc; [simpl; by rewrite app_nil_r|].
  cbn [foldl]. rewrite IH. cbn [add_readable content_paths].
  change (omap ?f ((k, p) :: l)) with
    (match f (k, p) with Some y => y :: omap f l | None => omap f l end). cbv beta iota.
  destruct (Z.eqb_spec (p_content_id p) id) as [->|Hne].
  - rewrite lookup_insert_eq. change (default [] (Some ?x)) with x. by rewrite <- app_assoc.
  - by rewrite lookup_insert_ne.
Qed.

(** The ancestor entries of the readable paths. *)
Definition all_entries (l : list (bytes * PathRow)) : list (bytes * (Z * bytes)) :=
  l ≫= λ '(_, p), ancestor_entries (p_created_at p) (Path.segments (p_path p)).

Lemma stored_segments k p :
  paths d !! k = Some p →
  ∃ segs, segs ≠ [] ∧ Forall Path.Segment segs ∧ p_path p = Path.render segs
    ∧ Path.segments (p_path p) = segs ∧ k = to_ascii_lowercase (Path.render segs).
Proof.
  intros [-> Hp]%(wf_key _ Hwf). apply path_check_spec, Path.parse_operation_spec in Hp
    as (_ & segs & Hne & Hs & Hp).
  exists segs. rewrite Hp. split_and!; [done|done|done|by apply Path.segments_render|done].
Qed.

Lemma ancestors_loop l acc :
  (∀ k p, (k, p) ∈ l → paths d !! k = Some p) →
  ancestors (foldl add_readable acc l) = foldl upsert (ancestors acc) (all_entries l).
Proof.
  revert acc. induction l as [|[k p] l IH]; intros acc Hl; [done|].
  cbn [foldl]. rewrite IH by (intros ?? Hi; apply Hl; by right).
  cbn [add_readable ancestors]. unfold all_entries. cbn [mbind list_bind]. rewrite foldl_app.
  f_equal. destruct (stored_segments k p) as (segs & Hne & Hs & Hp & -> & ->); [apply Hl; by left|].
  rewrite Hp. by apply add_parent_paths_entries.
Qed.

(** *** The values *)

Definition shown_value (k : bytes) (p : PathRow) (c : ContentRow) : ListedValue :=
  mkListedValue (mkPath (p_path p)) (shown_content c) (Rpc.timestamp (c_created_at c))
    (Rpc.timestamp (c_updated_at c))
    (omap (λ '(k', q), if (p_content_id q =? p_content_id p)%Z && negb (bool_decide (k' = k))
                       then Some (mkPath (p_path q)) else None) (readable d principal)).

Definition shown_values : list ListedValue :=
  omap (λ '(k, p, c),
    if Auth.allows principal (mkPath k) Read
       && bool_decide (Paths.parent_path k = Path.fold selected)
    then Some (shown_value k p c) else None) (joined d).

Let listing := foldl add_readable (mkListing ∅ ∅ []) (readable d principal).

Lemma elem_of_direct k :
  k ∈ direct listing ↔ is_Some (paths d !! k)
    ∧ Auth.allows principal (mkPath k) Read = true ∧ Paths.parent_path k = Path.fold selected.
Proof.
  unfold listing. rewrite direct_loop. cbn [direct app]. rewrite list_elem_of_In, in_map_iff.
  setoid_rewrite filter_In. setoid_rewrite <- list_elem_of_In. split.
  - intros ([k' p] & <- & [Hp Ha]%elem_of_readable & Hb). bool_prop. split_and!; [by eexists|done..].
  - intros ([p Hp] & Ha & Hb). exists (k, p). split; [done|]. split; [by apply elem_of_readable|].
    by rewrite bool_decide_eq_true_2.
Qed.

Lemma alias_loop k id :
  map_result (λ '(_, display), stored_path display)
    (List.filter (λ '(fold, _), negb (bool_decide (fold = k)))
       (default [] (content_paths listing !! id)))
  = Ok (omap (λ '(k', q), if (p_content_id q =? id)%Z && negb (bool_decide (k' = k))
                          then Some (mkPath (p_path q)) else None) (readable d principal)).
Proof.
  unfold listing. rewrite content_paths_loop. cbn [content_paths].
  rewrite lookup_empty. change (default [] None ++ ?x) with x.
  assert (∀ k p, (k, p) ∈ readable d principal → stored_path (p_path p) = Ok (mkPath (p_path p))) as Hr.
  { intros k' p [Hp _]%elem_of_readable. by eapply stored_path_ok. }
  induction (readable d principal) as [|[k' q] l IH]; [done|].
  assert (∀ k p, (k, p) ∈ l → stored_path (p_path p) = Ok (mkPath (p_path p))) as Hl
    by (intros ?? Hi; eapply Hr; right; exact Hi).
  specialize (IH Hl).
  change (omap ?f ((k', q) :: l)) with
    (match f (k', q) with Some y => y :: omap f l | None => omap f l end). cbv beta iota.
  destruct (p_content_id q =? id)%Z; [|exact IH]. cbn [andb List.filter].
  destruct (negb (bool_decide (k' = k))); [|exact IH]. cbn [map_result].
  rewrite (Hr k' q) by (by left). by rewrite IH.
Qed.

Lemma shown_values_rows :
  map_result (listed_value (content_paths listing))
    (omap (λ '(k, p, c),
      if bool_decide (k ∈ direct listing)
      then Some (mkListedValueRow (p_path p) k (p_content_id p) (c_value c) (c_classification c)
                   (c_created_at c) (c_updated_at c))
      else None) (joined d)) = Ok shown_values.
Proof.
  unfold shown_values. apply map_result_omap. intros [[k p] c] [Hp Hc]%elem_of_joined.
  case_bool_decide as Hd.
  - apply elem_of_direct in Hd as (_ & Ha & Hpar). rewrite Ha, bool_decide_eq_true_2 by done.
    cbn [andb]. eexists. split; [|done]. unfold listed_value.
    cbn [Store.lv_value lv_classification lv_lowercase_path lv_content_id Store.lv_path
         Store.lv_created_at Store.lv_updated_at].
    rewrite (masked_shown c) by (by eapply wf_check). cbn [ok_or and_then].
    rewrite alias_loop. cbn [and_then]. rewrite (stored_path_ok d k p Hwf Hp). cbn [and_then].
    by rewrite !Rpc.to_timestamp_ok.
  - destruct (_ && _) eqn:E; [|done]. destruct Hd. apply elem_of_direct. bool_prop.
    split_and!; [by eexists|done..].
Qed.

Lemma shown_values_none : direct listing = [] → shown_values = [].
Proof.
  intros Hn. pose proof shown_values_rows as Hr. rewrite Hn in Hr.
  destruct shown_values as [|v l] eqn:E; [done|]. exfalso.
  assert (v ∈ shown_values) as Hv by (rewrite E; by left). unfold shown_values in Hv.
  apply list_elem_of_omap in Hv as ([[k p] c] & [Hp _]%elem_of_joined & Hv).
  destruct (_ && _) eqn:Eb; [|done]. bool_prop.
  assert (k ∈ direct listing) as Hk by (apply elem_of_direct; split_and!; [by eexists|done..]).
  rewrite Hn in Hk. by apply not_elem_of_nil in Hk.
Qed.

(** *** The namespaces *)

(** [k] is a readable path strictly below [f]. *)
Definition shown_below (f k : bytes) (p : PathRow) : Prop :=
  paths d !! k = Some p ∧ Auth.allows principal (mkPath k) Read = true
  ∧ Path.AtOrBelow k f ∧ k ≠ f.

Lemma elem_of_all_entries f e :
  (f, e) ∈ all_entries (readable d principal) ↔
  Path.Canonical f ∧ ∃ k p, shown_below f k p
    ∧ e = (p_created_at p, take (length f) (p_path p)).
Proof.
  unfold all_entries. rewrite list_elem_of_bind. split.
  - intros ([k p] & He & [Hp Ha]%elem_of_readable).
    destruct (stored_segments k p Hp) as (segs & Hne & Hs & Ep & Es & Ek). rewrite Es in He.
    apply elem_of_ancestor_entries in He as (Hf & Hb & Hn & ->); [|done].
    split; [done|]. exists k, p. unfold shown_below. rewrite Ep, Ek. split_and!; try done.
    + by rewrite <- Ek.
    + by rewrite <- Ek.
  - intros (Hf & k & p & (Hp & Ha & Hb & Hn) & ->). exists (k, p).
    split; [|by apply elem_of_readable].
    destruct (stored_segments k p Hp) as (segs & Hne & Hs & Ep & Es & Ek). rewrite Es.
    apply elem_of_ancestor_entries; [done|]. rewrite <- Ek, Ep. done.
Qed.

Lemma ancestors_earliest : earliest_of (all_entries (readable d principal)) (ancestors listing).
Proof.
  unfold listing. rewrite ancestors_loop by (by intros k p [? _]%elem_of_readable).
  apply (upserts_earliest _ []). by split; [|intros ?? []%not_elem_of_nil].
Qed.

Definition shown_namespaces : list ConfigPath :=
  List.map (λ '(_, (_, display)), mkPath display) (entries (ancestors listing)).

Lemma ancestor_spelling f t x :
  ancestors listing !! f = Some (t, x) → Path.Canonical x ∧ to_ascii_lowercase x = f.
Proof.
  intros Hf. destruct ancestors_earliest as [He _]. apply He in Hf as [Hf _].
  unfold all_entries in Hf. apply list_elem_of_bind in Hf as ([k p] & Hf & [Hp _]%elem_of_readable).
  destruct (stored_segments k p Hp) as (segs & _ & Hs & _ & Es & _). rewrite Es in Hf.
  by apply ancestor_entry_spelling in Hf.
Qed.

Lemma namespaces_rows :
  map_result (λ '(_, (_, display)),
    map_err (Path.parse_selection display) (λ _, Rpc.storage_unavailable))
    (entries (ancestors listing)) = Ok shown_namespaces.
Proof.
  unfold shown_namespaces. apply map_result_total. intros [f [t x]] Hin%elem_of_entries.
  apply ancestor_spelling in Hin as [Hx _].
  assert (Path.parse_selection x = Ok (mkPath x)) as -> by (by apply Path.parse_selection_spec). done.
Qed.

Lemma namespaces_folds : List.map Path.fold shown_namespaces = List.map fst (entries (ancestors listing)).
Proof.
  unfold shown_namespaces. rewrite List.map_map. apply map_ext_in. intros [f [t x]] Hin.
  apply list_elem_of_In, elem_of_entries, ancestor_spelling in Hin as [_ Hx]. done.
Qed.

Lemma elem_of_shown_values v :
  v ∈ shown_values ↔ ∃ k p c, resolve d k = Some (p, c)
    ∧ Auth.allows principal (mkPath k) Read = true
    ∧ Paths.parent_path k = Path.fold selected ∧ v = shown_value k p c.
Proof.
  unfold shown_values. rewrite list_elem_of_omap. split.
  - intros ([[k p] c] & Hin%elem_of_joined & E). destruct (_ && _) eqn:Eb; [|done]. bool_prop.
    injection E as <-. exists k, p, c. by rewrite resolve_spec.
  - intros (k & p & c & Hr%resolve_spec & Ha & Hpar & ->). exists (k, p, c).
    split; [by apply elem_of_joined|]. by rewrite Ha, bool_decide_eq_true_2.
Qed.

Lemma shown_values_ascending : Ascending (List.map (λ v, Path.fold (Core.lv_path v)) shown_values).
Proof.
  eapply ascending_sublist; [|apply (joined_ascending d)]. apply omap_keys.
  intros [[k p] c] v [Hp _]%elem_of_joined. destruct (_ && _); [|done]. intros [= <-].
  symmetry. by apply (wf_key _ Hwf).
Qed.

Lemma elem_of_namespaces f :
  f ∈ List.map Path.fold shown_namespaces ↔
  Path.Canonical f ∧ ∃ k p, shown_below f k p.
Proof.
  rewrite namespaces_folds, list_elem_of_In, in_map_iff. setoid_rewrite <- list_elem_of_In.
  destruct ancestors_earliest as [He Hd]. split.
  - intros ([f' e] & <- & Hin%elem_of_entries). apply He in Hin as [Hin _].
    apply elem_of_all_entries in Hin as (Hf & k & p & Hb & _). split; [done|]. by exists k, p.
  - intros (Hf & k & p & Hb).
    assert (is_Some (ancestors listing !! f)) as [e Hf'].
    { eapply Hd, elem_of_all_entries. split; [done|]. exists k, p. by split. }
    exists (f, e). split; [done|]. by apply elem_of_entries.
Qed.

(** A namespace is spelled as the earliest readable path below it spells it. *)
Lemma namespace_spelling x :
  x ∈ shown_namespaces → ∃ k p, shown_below (Path.fold x) k p
    ∧ path x = take (length (path x)) (p_path p)
    ∧ ∀ k' p', shown_below (Path.fold x) k' p' →
        Paths.earlier (p_created_at p', take (length (path x)) (p_path p'))
          (p_created_at p, path x) = false.
Proof.
  intros Hx. unfold shown_namespaces in Hx.
  apply list_elem_of_In, in_map_iff in Hx as ([f [t y]] & <- & Hin%list_elem_of_In%elem_of_entries).
  pose proof (ancestor_spelling f t y Hin) as [Hc Hl]. cbn [path].
  assert (Path.fold (mkPath y) = f) as -> by done.
  assert (length f = length y) as Hlen by (by rewrite <- Hl, length_to_ascii_lowercase).
  destruct ancestors_earliest as [He _]. apply He in Hin as [Hin Hmin].
  apply elem_of_all_entries in Hin as (Hf & k & p & Hb & E).
  assert (t = p_created_at p ∧ y = take (length y) (p_path p)) as [-> Hy]
    by (rewrite <- Hlen; split; congruence).
  exists k, p. split_and!; [done|done|].
  intros k' p' Hb'. rewrite <- Hlen. apply Hmin, elem_of_all_entries. split; [done|]. by exists k', p'.
Qed.

End listing.

(** *** The operation *)

Lemma list_values_answer `{Crypto} recorder context s principal w :
  tree_wf (db w) → Path.parse_selection s = Ok (mkPath s) → Rpc.principal context = Ok principal →
  let answer := Ok (mkValueListing (shown_values (db w) principal (mkPath s))
                      (shown_namespaces (db w) principal (mkPath s))) in
  (fst (list_values recorder context s w) = answer
   ∨ fst (list_values recorder context s w) = Err Rpc.storage_unavailable)
  ∧ (quiet w → fst (list_values recorder context s w) = answer).
Proof.
  intros Hw Hs Hpr answer.
  assert (Rpc.actor context = Ok (mkActor (subject principal) (principal_name principal)
    (default Rpc.UNATTRIBUTED_PROTOCOL_LABEL (Rpc.cc_protocol_version context)))) as Hact
    by (unfold Rpc.actor; by rewrite Hpr).
  unfold list_values, mbind, M_bind, lift. rewrite Hs, Hpr, Hact.
  unfold path_candidates. cbn [map_err]. cbv beta iota. rewrite map_query_run.
  destruct (outcome w) eqn:Eo;
    [|(split; [by right|intros Hq; by rewrite (quiet_outcome w Hq) in Eo])..].
  rewrite candidates_loop by done.
  set (listing := foldl (add_readable (mkPath s)) (mkListing ∅ ∅ []) (readable (db w) principal)).
  pose proof (shown_values_rows (db w) principal (mkPath s) Hw) as Hrows.
  pose proof (shown_values_none (db w) principal (mkPath s) Hw) as Hnone.
  pose proof (namespaces_rows (db w) principal (mkPath s) Hw) as Hns.
  cbv zeta in Hrows, Hnone, Hns. fold listing in Hrows, Hnone, Hns.
  destruct (is_empty (direct listing)) eqn:Ed.
  - assert (direct listing = []) as Hd by (by destruct (direct listing)).
    unfold mret, M_ret. rewrite Hns.
    unfold answer. rewrite (Hnone Hd). split; [by left|done].
  - unfold listed_values. rewrite map_query_run. change (db (tick w)) with (db w).
    destruct (outcome (tick w)) eqn:Eo2;
      [|(split; [by right|intros Hq; by rewrite (quiet_outcome _ (quiet_tick w Hq)) in Eo2])..].
    rewrite Hrows, Hns. split; [by left|done].
Qed.

(** Listing a selection answers that storage is unavailable, which a
    database that answers never causes, or else exactly: the values directly
    under the selection that the caller may read, in key order, secrets
    masked, each with its other readable paths; and every proper ancestor of
    any readable path, in key order, spelled as the earliest created readable
    path below it spells it.  The tables stay as they were. *)
Theorem listing_shows_the_readable_level `{Crypto} (recorder : Trail.AuditRecorder)
    (context : Rpc.CallContext) (s : bytes) (principal : AuthenticatedPrincipal) (w : World) :
  tree_wf (db w) → Path.Canonical s → Rpc.principal context = Ok principal →
  let run := list_values recorder context s w in let d := db w in
  contents (db (snd run)) = contents d ∧ paths (db (snd run)) = paths d
  ∧ (quiet w → fst run ≠ Err Rpc.storage_unavailable)
  ∧ (fst run = Err Rpc.storage_unavailable ∨ ∃ values namespaces,
      fst run = Ok (mkValueListing values namespaces)
      ∧ Ascending (List.map (λ v, Path.fold (Core.lv_path v)) values)
      ∧ (∀ v, v ∈ values ↔ ∃ k p c, resolve d k = Some (p, c)
           ∧ Auth.allows principal (mkPath k) Read = true
           ∧ Paths.parent_path k = to_ascii_lowercase s ∧ v = shown_value d principal k p c)
      ∧ Ascending (List.map Path.fold namespaces)
      ∧ (∀ f, f ∈ List.map Path.fold namespaces ↔
           Path.Canonical f ∧ ∃ k p, shown_below d principal f k p)
      ∧ ∀ x, x ∈ namespaces → ∃ k p, shown_below d principal (Path.fold x) k p
          ∧ path x = take (length (path x)) (p_path p)
          ∧ ∀ k' p', shown_below d principal (Path.fold x) k' p' →
              Paths.earlier (p_created_at p', take (length (path x)) (p_path p'))
                (p_created_at p, path x) = false).
Proof.
  intros Hw Hs Hpr run d. destruct (Reading_list_values recorder context s w Hw) as (Hc & Hp & _).
  split; [exact Hc|]. split; [exact Hp|].
  assert (Path.parse_selection s = Ok (mkPath s)) as Hsel by (by apply Path.parse_selection_spec).
  destruct (list_values_answer recorder context s principal w Hw Hsel Hpr) as [Hr Hq].
  fold run in Hr, Hq. split; [intros Hqw; by rewrite (Hq Hqw)|].
  destruct Hr as [Hr|Hr]; [right|by left]. do 2 eexists. split; [exact Hr|].
  split; [by apply shown_values_ascending|]. split; [intros v; by apply elem_of_shown_values|].
  split; [rewrite namespaces_folds by done; apply entries_ascending|].
  split; [intros f; by apply elem_of_namespaces|intros x Hx; by eapply namespace_spelling].
Qed.

Lemma listing_shows_the_readable_level_witness :
  let run := list_values Sample.hourly Sample.owner "/APPS" Sample.with_secret in
  fst run ≠ Err Rpc.storage_unavailable
  ∧ match fst run with
    | Ok l => List.map (λ v, path (Core.lv_path v)) (vl_values l) = ["/Apps/Pw"; "/Apps/Url"]
              ∧ List.map path (vl_paths l) = ["/"; "/Apps"]
    | Err _ => False
    end.
Proof.
  intros run. split; [|vm_compute; split; reflexivity].
  refine (proj1 (proj2 (proj2 (listing_shows_the_readable_level Sample.hourly Sample.owner "/APPS"
    (mkPrincipal "user-1" (Some "ada") [mkGrant "/" {[Read; Write; Manage]}]) Sample.with_secret
    with_secret_wf _ _))) _).
  - apply Path.canonical_check. reflexivity.
  - reflexivity.
  - vm_compute; constructor.
Defined.

End Listed.
