(* ===== verification/System.v ===== *)
(** * The service as a state machine

    The eight operations of the configuration service as one step relation: a
    deployment starts from an empty database and serves any calls in any
    order, under any schedule of database faults, any clock and any randomness.
    Whatever is reachable satisfies the tree invariant, and every stored secret
    opens under the server's key. *)

From stdpp Require Import strings.
From S2P Require Import Prelude Bytes ConfigPath Core Auth Encryption AuditEvent Rpc Database AuditTrail ValuePaths Store Invariant Values ValuesPut ValuesDelete ValuesAlias ValuesReplace ValuesRead.

Local Open Scope bytes_scope.

Module System.
Import Store Tree Values Put Delete Alias Replace Reads.

(** ** Calls and their replies *)

Inductive Call :=
| CallPut (path : bytes) (written : option PutContent)
| CallDelete (path : bytes) (recurse : bool)
| CallReveal (path : bytes)
| CallAddPath (alias : AliasPaths)
| CallGetSubTree (path : bytes)
| CallListPaths (path : bytes)
| CallList (path : bytes)
| CallReplace (path : bytes) (values : list SubTreeEntry).

Inductive Reply :=
| ReplyPut (m : PutMetadata)
| ReplyDelete (m : DeleteMetadata)
| ReplyReveal (r : RevealedSecret)
| ReplyAddPath (m : AddPathMetadata)
| ReplySubTree (t : ValueSubTree)
| ReplyPaths (p : Core.ValuePaths)
| ReplyList (l : ValueListing)
| ReplyReplace (m : ReplaceMetadata).

Section system.
Context `{Crypto} (recorder : Trail.AuditRecorder).

Definition perform (context : Rpc.CallContext) (call : Call) : M Status Reply :=
  match call with
  | CallPut path written => m ← put_value recorder context path written; mret (ReplyPut m)
  | CallDelete path recurse => m ← delete_values recorder context path recurse; mret (ReplyDelete m)
  | CallReveal path => r ← reveal_secret recorder context path; mret (ReplyReveal r)
  | CallAddPath alias => m ← add_value_path recorder context alias; mret (ReplyAddPath m)
  | CallGetSubTree path => t ← get_sub_tree recorder context path; mret (ReplySubTree t)
  | CallListPaths path => p ← list_value_paths context path; mret (ReplyPaths p)
  | CallList path => l ← list_values recorder context path; mret (ReplyList l)
  | CallReplace path values =>
      m ← replace_sub_tree recorder context path values; mret (ReplyReplace m)
  end.

(** A call the tree's invariant needs: a replacement below no plain value. *)
Definition admissible (call : Call) (d : Database) : Prop :=
  match call with CallReplace path _ => nothing_plain_above path d | _ => True end.

Lemma snd_bind_ret {A B} (m : M Status A) (f : A → B) w :
  snd ((a ← m; mret (f a)) w) = snd (m w).
Proof. unfold mbind, M_bind, mret, M_ret. by destruct (m w) as [[a|e] w']. Qed.

Lemma perform_wf context call w :
  tree_wf (db w) → admissible call (db w) → tree_wf (db (snd (perform context call w))).
Proof.
  intros Hw Ha. destruct call; cbn [perform]; rewrite snd_bind_ret.
  - by apply put_value_wf.
  - by apply delete_values_wf.
  - by apply (Reading_reveal_secret recorder context path w Hw).
  - by apply add_value_path_wf.
  - by apply (Reading_get_sub_tree recorder context path w Hw).
  - by apply (Reading_list_value_paths context path w Hw).
  - by apply (Reading_list_values recorder context path w Hw).
  - by apply replace_sub_tree_wf.
Qed.

(** ** Secrets stay sealed *)

(** The text a call carries is UTF-8, as every Rust [String] is. *)
Definition well_typed (call : Call) : Prop :=
  match call with CallPut _ (Some pc) => from_utf8_ok (written_as pc).1 = true | _ => True end.

(** Secrets of [d'] were secrets of [d]. *)
Definition no_new_secret (d d' : Database) : Prop :=
  ∀ id c, contents d' !! id = Some c → c_classification c = SECRET → contents d !! id = Some c.

Lemma sealed_mono d d' : no_new_secret d d' → sealed d → sealed d'.
Proof. intros Hn Hs id c Hc Hcl. by apply (Hs id c (Hn id c Hc Hcl)). Qed.

Lemma no_new_secret_same d d' : contents d' = contents d → no_new_secret d d'.
Proof. intros E id c. by rewrite E. Qed.

Lemma no_new_secret_transaction {A} (body : M Status A) w :
  Forward body → (∀ a w1, body (tick w) = (Ok a, w1) → no_new_secret (db w) (db w1)) →
  no_new_secret (db w) (db (snd (transaction body w))).
Proof.
  intros Hb Hok. unfold transaction.
  apply (transaction_preserves (no_new_secret (db w))); [done| |done|by apply no_new_secret_same].
  intros d d' Hd _. done.
Qed.

Lemma delete_no_new_secret context s recurse w :
  tree_wf (db w) → no_new_secret (db w) (db (snd (delete_values recorder context s recurse w))).
Proof.
  intros Hw. destruct (delete_values recorder context s recurse w) as [r w'] eqn:E. cbn [snd].
  apply delete_values_run in E as [(e & _ & ->)|(path & actor & _ & _ & r1 & Ht & _)];
    [by apply no_new_secret_same|].
  replace w' with (snd (transaction (delete_transaction recorder actor path recurse) w))
    by (by rewrite Ht).
  apply no_new_secret_transaction; [apply _|]. intros [at_ count] w1 Hb.
  apply delete_transaction_ok in Hb as (_ & _ & _ & Hrec).
  apply events_recorded_tables in Hrec as (Hc & _ & _). intros id c. rewrite Hc.
  by intros [? _]%cleared_contents.
Qed.

Lemma add_path_no_new_secret context alias w :
  no_new_secret (db w) (db (snd (add_value_path recorder context alias w))).
Proof.
  destruct (add_value_path recorder context alias w) as [r w'] eqn:E. cbn [snd].
  apply add_value_path_run in E as [(e & _ & ->)|(pr & actor & _ & _ & _ & _ & _ & _ & r1 & Ht & _)];
    [by apply no_new_secret_same|].
  replace w' with (snd (transaction (add_path_transaction recorder actor
    (mkPath (al_source alias)) (mkPath (al_new_path alias))) w)) by (by rewrite Ht).
  apply no_new_secret_transaction; [apply _|]. intros t w1 Hb.
  apply add_path_transaction_ok in Hb as (p & _ & _ & _ & _ & _ & _ & Hrec).
  apply events_recorded_tables in Hrec as (Hc & _ & _). by apply no_new_secret_same.
Qed.

Lemma replace_no_new_secret context s values w :
  tree_wf (db w) → no_new_secret (db w) (db (snd (replace_sub_tree recorder context s values w))).
Proof.
  intros Hw. destruct (replace_sub_tree recorder context s values w) as [r w'] eqn:E. cbn [snd].
  apply replace_sub_tree_run in E as [(e & _ & ->)|(n & actor & _ & Hn & _ & r1 & Ht & _)];
    [by apply no_new_secret_same|].
  replace w' with (snd (transaction (replace_transaction recorder actor (mkPath s) n) w))
    by (by rewrite Ht).
  apply no_new_secret_transaction; [apply _|]. intros [at_ count] w1 Hb.
  apply normalize_normalized in Hn.
  apply replace_transaction_ok in Hb as (writes & d2 & d3 & _ & _ & Hcol & Hwr & Hsh & Hfr & Hrec); [|done].
  apply events_recorded_tables in Hrec as (Hc & _ & _). intros id c. rewrite Hc.
  by eapply final_secret_content.
Qed.

Lemma put_sealed `{!CryptoLaws} context s written w :
  good_entropy w → well_typed (CallPut s written) → sealed (db w) →
  sealed (db (snd (put_value recorder context s written w))).
Proof.
  intros Hg Ht Hs. apply put_value_preserves; [by intros; apply sealed_rollback| |done].
  intros path pc actor d d' He -> events Hrec.
  apply (put_effect_sealed path pc w d) in He; [|done..].
  apply events_recorded_tables in Hrec as (Hc & _ & _). unfold sealed. by rewrite Hc.
Qed.

Lemma perform_sealed `{!CryptoLaws} context call w :
  tree_wf (db w) → good_entropy w → well_typed call → sealed (db w) →
  sealed (db (snd (perform context call w))).
Proof.
  intros Hw Hg Ht Hs. destruct call; cbn [perform]; rewrite snd_bind_ret;
    [by apply put_sealed|eapply sealed_mono; [|exact Hs]..].
  - by apply delete_no_new_secret.
  - by apply no_new_secret_same, (Reading_reveal_secret recorder context path w Hw).
  - apply add_path_no_new_secret.
  - by apply no_new_secret_same, (Reading_get_sub_tree recorder context path w Hw).
  - by apply no_new_secret_same, (Reading_list_value_paths context path w Hw).
  - by apply no_new_secret_same, (Reading_list_values recorder context path w Hw).
  - by apply replace_no_new_secret.
Qed.

(** ** A failed call changes no table *)

(** [m] leaves the tables alone, however it ends. *)
Definition untouched {A} (m : M Status A) : Prop :=
  ∀ w, same_tables (db w) (db (snd (m w))) ∧ outcomes (snd (m w)) `suffix_of` outcomes w.

(** [m] leaves the tables alone when it fails and no reply was lost. *)
Definition clean {A} (m : M Status A) : Prop :=
  ∀ w e w', Lost ∉ outcomes w → m w = (Err e, w') → same_tables (db w) (db w').

Lemma untouched_lift {A} (r : result A Status) : untouched (lift r).
Proof. intros w. by split. Qed.
Lemma untouched_now : untouched now.
Proof. intros w. by split. Qed.
Lemma untouched_ret {A} (a : A) : untouched (mret (M:=M Status) a).
Proof. intros w. by split. Qed.

Lemma untouched_query {A} (f : Database → A) : untouched (map_store (query f)).
Proof.
  intros w. rewrite map_query_run. destruct (later_tick w) as (_ & Hs & _).
  by destruct (outcome w); split.
Qed.

Lemma untouched_bind {A B} (m : M Status A) (k : A → M Status B) :
  untouched m → (∀ a, untouched (k a)) → untouched (m ≫= k).
Proof.
  intros Hm Hk w. specialize (Hm w). unfold mbind, M_bind.
  destruct (m w) as [[a|e] w1]; [|done]. cbn [snd] in *. destruct Hm as [Ht Hs].
  destruct (Hk a w1) as [Ht' Hs']. split; [by etrans|by etrans].
Qed.

Lemma clean_untouched {A} (m : M Status A) : untouched m → clean m.
Proof. intros Hm w e w' _ E. destruct (Hm w) as [Ht _]. by rewrite E in Ht. Qed.

Lemma clean_bind {A B} (m : M Status A) (k : A → M Status B) :
  untouched m → (∀ a, clean (k a)) → clean (m ≫= k).
Proof.
  intros Hm Hk w e w' Hl. specialize (Hm w). unfold mbind, M_bind.
  destruct (m w) as [[a|e'] w1]; cbn [snd] in Hm; destruct Hm as [Ht Hs].
  - intros Hrun. etrans; [exact Ht|]. eapply Hk; [|exact Hrun].
    intros Hin. apply Hl. destruct Hs as [pre ->]. apply elem_of_app. by right.
  - by intros [= <- <-].
Qed.

Lemma clean_record actor at_ event : clean (Trail.record recorder actor at_ event).
Proof.
  intros w e w' Hl E.
  assert (db w' = db (snd (Trail.insert_events actor at_ (Trail.rows recorder actor at_ [event]) w))
    ∧ ∃ e', fst (Trail.insert_events actor at_ (Trail.rows recorder actor at_ [event]) w) = Err e')
    as [-> [e' He]].
  { unfold Trail.record, Trail.settle in E. destruct (Trail.insert_events _ _ _ w) as [[u|e'] w1];
      [done|]. injection E as _ <-. split; [done|by eexists]. }
  unfold Trail.insert_events in *. destruct (is_empty _); [done|]. unfold stmt in *.
  assert (outcome w ≠ Lost) as Ho.
  { intros Ho. apply Hl. unfold outcome in Ho. destruct (outcomes w); [done|]. cbn in Ho. subst. by left. }
  destruct (Trail.upsert_all _ _ _ _ _ _) as [[]|]; by destruct (outcome w).
Qed.

(** Once only a best-effort record is left, nothing fails. *)
Lemma clean_best_effort {B} actor at_ event (b : B) :
  clean (_ ← Trail.record_best_effort recorder actor at_ event; mret b).
Proof. intros w e w' _. done. Qed.

Lemma clean_then_ret {A B} (m : M Status A) (f : A → B) : clean m → clean (a ← m; mret (f a)).
Proof.
  intros Hm w e w' Hl. unfold mbind, M_bind, mret, M_ret.
  destruct (m w) as [[a|e'] w1] eqn:E; [done|]. intros [= <- <-]. by eapply Hm.
Qed.

Ltac clean_steps := repeat match goal with
  | |- clean (_ ← Trail.record_best_effort _ _ _ _; mret _) => apply clean_best_effort
  | |- clean (_ ← Trail.record _ _ _ _; mret _) => apply clean_then_ret, clean_record
  | |- clean (mbind _ _) => apply clean_bind; [|intros ?]
  | |- clean (mret _) => apply clean_untouched, untouched_ret
  | |- clean (fail _) => apply clean_untouched, (untouched_lift (Err _))
  | |- clean (if ?b then _ else _) => destruct b
  | |- untouched (lift _) => apply untouched_lift
  | |- untouched now => apply untouched_now
  | |- untouched (mret _) => apply untouched_ret
  | |- untouched (mbind _ _) => apply untouched_bind; [|intros ?]
  | |- untouched (if ?b then _ else _) => destruct b
  | |- untouched _ => apply untouched_query
  end.

Lemma clean_reads context path :
  clean (reveal_secret recorder context path) ∧ clean (get_sub_tree recorder context path)
  ∧ clean (list_value_paths context path) ∧ clean (list_values recorder context path).
Proof.
  unfold reveal_secret, get_sub_tree, list_value_paths, list_values. split_and!; clean_steps.
Qed.

Lemma clean_transaction {A} (body : M Status A) w e w' :
  Forward body → Lost ∉ outcomes w → transaction body w = (Err e, w') → same_tables (db w) (db w').
Proof. intros Hb Hl Ht. by eapply transaction_err_unchanged. Qed.

Lemma clean_mutations context :
  (∀ s written, clean (put_value recorder context s written))
  ∧ (∀ s recurse, clean (delete_values recorder context s recurse))
  ∧ (∀ alias, clean (add_value_path recorder context alias))
  ∧ (∀ s values, clean (replace_sub_tree recorder context s values)).
Proof.
  split_and!; intros; intros w e w' Hl.
  - intros [(? & _ & ->)|(path & pc & actor & _ & _ & _ & _ & r1 & Ht & Hr)]%put_value_run; [done|].
    destruct r1; [done|]. eapply clean_transaction; [|done|exact Ht]. apply _.
  - intros [(? & _ & ->)|(path & actor & _ & _ & r1 & Ht & Hr)]%delete_values_run; [done|].
    destruct r1 as [[]|]; [done|]. eapply clean_transaction; [|done|exact Ht]. apply _.
  - intros [(? & _ & ->)|(pr & actor & _ & _ & _ & _ & _ & _ & r1 & Ht & Hr)]%add_value_path_run; [done|].
    destruct r1; [done|]. eapply clean_transaction; [|done|exact Ht]. apply _.
  - intros [(? & _ & ->)|(n & actor & _ & _ & _ & r1 & Ht & Hr)]%replace_sub_tree_run; [done|].
    destruct r1 as [[]|]; [done|]. eapply clean_transaction; [|done|exact Ht]. apply _.
Qed.

Lemma perform_clean context call : clean (perform context call).
Proof.
  destruct (clean_mutations context) as (H1 & H2 & H3 & H4).
  destruct call; cbn [perform]; apply clean_then_ret; auto; apply clean_reads.
Qed.

(** ** Reachable deployments *)

(** The worlds a deployment can be in: an empty database, then calls in any
    order; between calls the clock, the randomness, the faults to come, the
    counters and the locks are whatever they are. *)
Inductive reachable : World → Prop :=
| reachable_start w : db w = Trail.empty_db → reachable w
| reachable_call context call w :
    reachable w → good_entropy w → well_typed call → admissible call (db w) →
    reachable (snd (perform context call w))
| reachable_later w w' : reachable w → db w' = db w → reachable w'.

End system.

(** C1: in every reachable deployment, whatever calls were served, refused or
    failed at whatever statement, the stored tree satisfies its invariant
    (valid fold keys, no nesting, no dangling path, no orphaned content, ids
    below their sequence, a consistent trail) and every stored secret opens
    under the server's key on its own row; the only calls left out are
    replacements below a stored plain value. *)
Theorem reachable_tree_is_well_formed_and_sealed `{CryptoLaws} (recorder : Trail.AuditRecorder)
    (w : World) :
  reachable recorder w → tree_wf (db w) ∧ sealed (db w).
Proof.
  induction 1 as [w E|context call w _ [Hw Hs] Hg Ht Ha|w w' _ [Hw Hs] E].
  - rewrite E. split; [apply tree_wf_empty|apply sealed_empty].
  - split; [by apply perform_wf|by apply perform_sealed].
  - by rewrite E.
Qed.

(** C11: a call that reports a failure changed no table, whichever operation it
    was, wherever it failed, when no reply of the database was lost on the
    way; a lost reply is the one case where a change may stand unreported. *)
Theorem failed_calls_change_nothing `{Crypto} (recorder : Trail.AuditRecorder)
    (context : Rpc.CallContext) (call : Call) (w w' : World) (e : Status) :
  Lost ∉ outcomes w → perform recorder context call w = (Err e, w') →
  same_tables (db w) (db w').
Proof. apply perform_clean. Qed.

Lemma failed_calls_change_nothing_witness :
  let w := set_outcomes [Done; Done; Done; Failed] Sample.with_secret in
  let run := perform Sample.hourly Sample.owner (CallDelete "/apps" true) w in
  fst run = Err Rpc.storage_unavailable ∧ same_tables (db w) (db (snd run)).
Proof.
  intros w run. split; [vm_compute; reflexivity|].
  apply (failed_calls_change_nothing Sample.hourly Sample.owner (CallDelete "/apps" true)
           w (snd run) Rpc.storage_unavailable); [|vm_compute; reflexivity].
  apply (bool_decide_unpack _). vm_compute. exact I.
Defined.

Lemma reachable_tree_is_well_formed_and_sealed_witness :
  tree_wf (db (snd (perform Sample.hourly Sample.owner (CallDelete "/apps/url" false)
                      (snd (perform Sample.hourly Sample.owner (CallPut "/Apps/Url" (Some (PutPlain "x")))
                              Sample.start))))).
Proof.
  refine (proj1 (reachable_tree_is_well_formed_and_sealed Sample.hourly _ _)).
  apply reachable_call; [|vm_compute; repeat constructor; by intros ? [= <-]|exact I|exact I].
  apply reachable_call; [|apply good_entropy_sample|reflexivity|exact I].
  by apply reachable_start.
Defined.

End System.
