(* ===== verification/Secrecy.v ===== *)
(** * Stored secrets do not flow

    A two-run argument over the whole configuration service: two deployments
    that differ only in the stored text of secrets give the same replies, leave
    the same audit trail and count the same, call for call, under every
    operation but [reveal_secret].  The rules below relate two runs of the
    programs of [values/service.rs], statement by statement. *)

From stdpp Require Import strings.
From S2P Require Import Prelude Bytes ConfigPath Core Auth Encryption AuditEvent Rpc Database AuditTrail ValuePaths Store Invariant Values ValuesPut ValuesDelete ValuesAlias ValuesReplace ValuesRead System.

Local Open Scope bytes_scope.

Module Secrecy.
Import Store Tree Values System.

(** ** Deployments that agree on everything but secret text *)

Definition hide (c : ContentRow) : ContentRow :=
  mkContent (if bool_decide (c_classification c = PLAIN) then c_value c else [])
    (c_classification c) (c_created_at c) (c_updated_at c).

(** The same row, up to the text of a secret. *)
Definition alike (c1 c2 : ContentRow) : Prop := hide c1 = hide c2.

Record agree (d1 d2 : Database) : Prop := mkAgree {
  ag_contents id : hide <$> contents d1 !! id = hide <$> contents d2 !! id;
  ag_paths : paths d1 = paths d2;
  ag_seq : content_seq d1 = content_seq d2;
  ag_audit : audit d1 = audit d2;
  ag_audit_seq : audit_seq d1 = audit_seq d2 }.

Record agree_w (w1 w2 : World) : Prop := mkAgreeW {
  aw_db : agree (db w1) (db w2);
  aw_outcomes : outcomes w1 = outcomes w2;
  aw_entropy : entropy w1 = entropy w2;
  aw_clock : clock w1 = clock w2;
  aw_metrics : metrics w1 = metrics w2;
  aw_locks : locks w1 = locks w2 }.

#[global] Instance agree_equivalence : Equivalence agree.
Proof.
  split.
  - intros d. by split.
  - intros d1 d2 []. by split.
  - intros d1 d2 d3 [] []. split; [intros id|..]; etrans; eauto.
Qed.

Lemma alike_spec c1 c2 :
  alike c1 c2 ↔ c_classification c1 = c_classification c2 ∧ c_created_at c1 = c_created_at c2
    ∧ c_updated_at c1 = c_updated_at c2
    ∧ (c_classification c1 = PLAIN → c_value c1 = c_value c2).
Proof.
  unfold alike, hide. destruct c1 as [v1 k1 a1 b1], c2 as [v2 k2 a2 b2]. simpl. split.
  - intros E. assert (k1 = k2) as <- by congruence. split_and!; [done|congruence..|].
    intros ->. by injection E.
  - intros (<- & <- & <- & Hv). f_equal. case_bool_decide; [auto|done].
Qed.

Lemma alike_lookup d1 d2 id c1 :
  agree d1 d2 → contents d1 !! id = Some c1 → ∃ c2, contents d2 !! id = Some c2 ∧ alike c1 c2.
Proof.
  intros Ha Hc. pose proof (ag_contents _ _ Ha id) as E. rewrite Hc in E.
  destruct (contents d2 !! id) as [c2|]; [|done]. exists c2. split; [done|]. by apply (inj Some) in E.
Qed.

(** ** Two runs *)

Definition same_result {E A B} (R : A → B → Prop) (r1 : result A E) (r2 : result B E) : Prop :=
  match r1, r2 with Ok a, Ok b => R a b | Err e, Err e' => e = e' | _, _ => False end.

Definition related {E A B} (R : A → B → Prop) (m1 : M E A) (m2 : M E B) : Prop :=
  ∀ w1 w2, agree_w w1 w2 →
    same_result R (fst (m1 w1)) (fst (m2 w2)) ∧ agree_w (snd (m1 w1)) (snd (m2 w2)).

Lemma related_ret {E A B} (R : A → B → Prop) a b : R a b → related (E:=E) R (mret a) (mret b).
Proof. intros HR w1 w2 Hw. by split. Qed.

Lemma related_fail {E A B} (R : A → B → Prop) (e : E) : related R (fail e) (fail e).
Proof. intros w1 w2 Hw. by split. Qed.

Lemma related_lift {E A B} (R : A → B → Prop) (r1 : result A E) (r2 : result B E) :
  same_result R r1 r2 → related R (lift r1) (lift r2).
Proof. intros HR w1 w2 Hw. by split. Qed.

Lemma same_result_refl {E A} (r : result A E) : same_result eq r r.
Proof. by destruct r. Qed.

Lemma same_result_eq {E A} (r1 r2 : result A E) : same_result eq r1 r2 → r1 = r2.
Proof. destruct r1, r2; cbn; try done; by intros ->. Qed.

Lemma related_same_lift {E A} (r : result A E) : related eq (lift r) (lift r).
Proof. apply related_lift, same_result_refl. Qed.

Lemma related_now {E} : related (E:=E) eq now now.
Proof. intros w1 w2 Hw. split; [apply Hw|done]. Qed.

Lemma related_getrandom {E} : related (E:=E) eq getrandom getrandom.
Proof.
  intros w1 w2 [H1 H2 H3 H4 H5 H6]. unfold getrandom. rewrite <- H3.
  by destruct (entropy w1) as [|o os]; split.
Qed.

Lemma related_bind {E A B A' B'} (R : A → B → Prop) (S : A' → B' → Prop) (m1 : M E A) (m2 : M E B)
    (k1 : A → M E A') (k2 : B → M E B') :
  related R m1 m2 → (∀ a b, R a b → related S (k1 a) (k2 b)) → related S (m1 ≫= k1) (m2 ≫= k2).
Proof.
  intros Hm Hk w1 w2 Hw. destruct (Hm w1 w2 Hw) as [Hr Hw']. unfold mbind, M_bind.
  destruct (m1 w1) as [[a|e] w1'], (m2 w2) as [[b|e'] w2']; cbn [fst snd same_result] in *; try done.
  by apply Hk.
Qed.

Lemma related_bind_eq {E A A' B'} (S : A' → B' → Prop) (m : M E A) (k1 : A → M E A') (k2 : A → M E B') :
  related eq m m → (∀ a, related S (k1 a) (k2 a)) → related S (m ≫= k1) (m ≫= k2).
Proof. intros Hm Hk. eapply related_bind; [exact Hm|]. intros a b <-. apply Hk. Qed.

Lemma agree_tick w1 w2 : agree_w w1 w2 → agree_w (tick w1) (tick w2).
Proof. intros []. split; try done. cbn. congruence. Qed.

Lemma agree_set_db d1 d2 w1 w2 : agree d1 d2 → agree_w w1 w2 → agree_w (set_db d1 w1) (set_db d2 w2).
Proof. intros Hd []. by split. Qed.

Lemma agree_outcome w1 w2 : agree_w w1 w2 → outcome w1 = outcome w2.
Proof. intros Hw. unfold outcome. by rewrite (aw_outcomes _ _ Hw). Qed.

(** Statements with the same effect up to secret text. *)
Lemma related_stmt {A B} (R : A → B → Prop) f1 f2 :
  (∀ d1 d2, agree d1 d2 → match f1 d1, f2 d2 with
     | Some (a, d1'), Some (b, d2') => R a b ∧ agree d1' d2' | None, None => True | _, _ => False end) →
  related R (map_store (stmt f1)) (map_store (stmt f2)).
Proof.
  intros Hf w1 w2 Hw. unfold map_store, map_error, stmt. rewrite (agree_outcome w1 w2 Hw).
  specialize (Hf _ _ (aw_db _ _ Hw)). pose proof (agree_tick _ _ Hw).
  destruct (f1 (db w1)) as [[a d1]|], (f2 (db w2)) as [[b d2]|]; try done;
    destruct (outcome w2); cbn; try done; destruct Hf as [HR Hd]; split; try done;
    by apply agree_set_db.
Qed.

Lemma related_query {A B} (R : A → B → Prop) (f1 : Database → A) (f2 : Database → B) :
  (∀ d1 d2, agree d1 d2 → R (f1 d1) (f2 d2)) →
  related R (map_store (query f1)) (map_store (query f2)).
Proof. intros Hf. apply related_stmt. intros d1 d2 Hd. split; [by apply Hf|done]. Qed.

Lemma related_transaction {A B} (R : A → B → Prop) (m1 : M Status A) (m2 : M Status B) :
  related R m1 m2 → related R (transaction m1) (transaction m2).
Proof.
  intros Hm w1 w2 Hw. unfold transaction, in_transaction. rewrite (agree_outcome w1 w2 Hw).
  pose proof (agree_tick _ _ Hw) as Ht. destruct (outcome w2); [|by split..].
  destruct (Hm _ _ Ht) as [Hr Hw'].
  assert (∀ d1 d2, agree d1 d2 → agree (rollback (db w1) d1) (rollback (db w2) d2)) as Hroll.
  { intros d1 d2 []. destruct (aw_db _ _ Hw). by split. }
  destruct (m1 (tick w1)) as [[a|e] w1'], (m2 (tick w2)) as [[b|e'] w2'];
    cbn [fst snd same_result] in *; try done.
  - rewrite (agree_outcome w1' w2' Hw'). pose proof (agree_tick _ _ Hw') as Ht'.
    destruct (outcome w2'); cbn [fst snd same_result]; split; try done.
    apply agree_set_db; [by apply Hroll, Hw'|done].
  - split; [done|]. apply agree_set_db; [by apply Hroll, Hw'|done].
Qed.

Lemma related_for_each {E A A' B B'} (P : A → A' → Prop) (R : B → B' → Prop)
    (f : A → M E B) (g : A' → M E B') l1 l2 :
  (∀ x y, P x y → related R (f x) (g y)) → Forall2 P l1 l2 →
  related (Forall2 R) (for_each f l1) (for_each g l2).
Proof.
  intros Hf. induction 1 as [|x y l1 l2 Hxy Hl IH]; cbn [for_each].
  - apply related_ret. constructor.
  - eapply related_bind; [by apply Hf|]. intros a b Hab.
    eapply related_bind; [exact IH|]. intros la lb Hlab. apply related_ret. by constructor.
Qed.

(** ** Rows up to secret text *)

Lemma Forall2_omap {A A' B B'} (P : A → A' → Prop) (R : B → B' → Prop) f g l1 l2 :
  (∀ x y, P x y → option_Forall2 R (f x) (g y)) → Forall2 P l1 l2 →
  Forall2 R (omap f l1) (omap g l2).
Proof.
  intros Hf. induction 1 as [|x y l1 l2 Hxy Hl IH]; [constructor|].
  change (omap f (x :: l1)) with (match f x with Some z => z :: omap f l1 | None => omap f l1 end).
  change (omap g (y :: l2)) with (match g y with Some z => z :: omap g l2 | None => omap g l2 end).
  destruct (Hf x y Hxy); [by constructor|done].
Qed.

Lemma Forall2_filter {A B} (P : A → B → Prop) (f : A → bool) (g : B → bool) l1 l2 :
  (∀ x y, P x y → f x = g y) → Forall2 P l1 l2 → Forall2 P (List.filter f l1) (List.filter g l2).
Proof.
  intros Hf. induction 1 as [|x y l1 l2 Hxy Hl IH]; [constructor|]. simpl. rewrite (Hf x y Hxy).
  destruct (g y); [by constructor|done].
Qed.

Lemma Forall2_sort_by {A} (R : A → A → Prop) (leb : A → A → bool) l1 l2 :
  (∀ x y x' y', R x y → R x' y' → leb x x' = leb y y') →
  Forall2 R l1 l2 → Forall2 R (sort_by leb l1) (sort_by leb l2).
Proof.
  intros Hleb. assert (∀ x y l l', R x y → Forall2 R l l' →
    Forall2 R (insert_by leb x l) (insert_by leb y l')) as Hins.
  { intros x y l l' Hxy. induction 1 as [|a b l l' Hab Hl IH]; simpl; [by repeat constructor|].
    rewrite (Hleb x y a b) by done. destruct (leb y b); by repeat constructor. }
  induction 1; simpl; [constructor|]. by apply Hins.
Qed.

Lemma Forall2_map_eq {A B C} (R : A → B → Prop) (f : A → C) (g : B → C) l1 l2 :
  (∀ x y, R x y → f x = g y) → Forall2 R l1 l2 → List.map f l1 = List.map g l2.
Proof. intros Hf. induction 1 as [|x y l1 l2 Hxy Hl IH]; [done|]. simpl. f_equal; auto. Qed.

Lemma map_result_alike {A B E} (f : A → result B E) l1 l2 :
  Forall2 (λ x y, f x = f y) l1 l2 → map_result f l1 = map_result f l2.
Proof. induction 1 as [|x y l1 l2 Hxy Hl IH]; [done|]. simpl. by rewrite Hxy, IH. Qed.

Definition alike_row (x y : bytes * PathRow * ContentRow) : Prop :=
  fst x = fst y ∧ alike (snd x) (snd y).

Lemma joined_alike d1 d2 : agree d1 d2 → Forall2 alike_row (joined d1) (joined d2).
Proof.
  intros Ha. unfold joined, path_rows. rewrite (ag_paths _ _ Ha).
  apply (Forall2_omap (=)); [|by apply list_eq_Forall2].
  intros [k p] ? <-. pose proof (ag_contents _ _ Ha (p_content_id p)) as E.
  destruct (contents d1 !! _) as [c1|], (contents d2 !! _) as [c2|]; try done; constructor.
  split; [done|]. by apply (inj Some) in E.
Qed.

Lemma recorded_alike c1 c2 :
  alike c1 c2 → recorded_of (c_classification c1) (c_value c1)
                = recorded_of (c_classification c2) (c_value c2).
Proof.
  intros (Hk & _ & _ & Hv)%alike_spec. unfold recorded_of. rewrite <- Hk.
  case_bool_decide; [|done]. by rewrite Hv.
Qed.

Lemma masked_alike c1 c2 :
  alike c1 c2 → masked_content (c_value c1) (c_classification c1)
                = masked_content (c_value c2) (c_classification c2).
Proof.
  intros (Hk & _ & _ & Hv)%alike_spec. unfold masked_content. rewrite <- Hk.
  case_bool_decide; [|done]. by rewrite Hv.
Qed.

Definition alike_deleted (r1 r2 : DeletedPathRow) : Prop :=
  dp_path r1 = dp_path r2 ∧ dp_content_id r1 = dp_content_id r2
  ∧ recorded_of (dp_classification r1) (dp_value r1) = recorded_of (dp_classification r2) (dp_value r2).

Definition alike_existing (r1 r2 : PathContentClassRow) : Prop :=
  cc_content_id r1 = cc_content_id r2 ∧ cc_classification r1 = cc_classification r2
  ∧ cc_path_count r1 = cc_path_count r2
  ∧ recorded_of (cc_classification r1) (cc_value r1) = recorded_of (cc_classification r2) (cc_value r2).

Definition alike_previous (r1 r2 : PreviousContentRow) : Prop :=
  pv_classification r1 = pv_classification r2
  ∧ (pv_classification r1 = PLAIN → pv_value r1 = pv_value r2).

(** ** The statements *)

Lemma related_sub_tree_rows f :
  related (Forall2 (λ x y, sub_tree_value x = sub_tree_value y)) (sub_tree_rows f) (sub_tree_rows f).
Proof.
  apply related_query. intros d1 d2 Ha. eapply Forall2_omap; [|by apply joined_alike].
  intros [[k p] c1] [[k' p'] c2] [[= <- <-] Hc]. cbn [snd] in Hc.
  destruct (at_or_below k f); constructor. unfold sub_tree_value.
  cbn [st_value st_classification st_path]. by rewrite (masked_alike c1 c2 Hc).
Qed.

Lemma related_listed_values l :
  related (Forall2 (λ x y, ∀ paths, listed_value paths x = listed_value paths y))
    (listed_values l) (listed_values l).
Proof.
  apply related_query. intros d1 d2 Ha. eapply Forall2_omap; [|by apply joined_alike].
  intros [[k p] c1] [[k' p'] c2] [[= <- <-] Hc]. cbn [snd] in Hc.
  case_bool_decide; constructor. intros paths. unfold listed_value.
  cbn [Store.lv_value lv_classification lv_lowercase_path lv_content_id Store.lv_path
       Store.lv_created_at Store.lv_updated_at].
  pose proof Hc as (_ & -> & -> & _)%alike_spec. by rewrite (masked_alike c1 c2 Hc).
Qed.

Lemma related_content_id_at f : related eq (content_id_at f) (content_id_at f).
Proof. apply related_query. intros d1 d2 Ha. by rewrite (ag_paths _ _ Ha). Qed.
Lemma related_paths_of_content i : related eq (paths_of_content i) (paths_of_content i).
Proof. apply related_query. intros d1 d2 Ha. unfold path_rows. by rewrite (ag_paths _ _ Ha). Qed.
Lemma related_path_candidates : related eq path_candidates path_candidates.
Proof. apply related_query. intros d1 d2 Ha. unfold path_rows. by rewrite (ag_paths _ _ Ha). Qed.
Lemma related_path_collides p : related eq (path_collides p) (path_collides p).
Proof. apply related_query. intros d1 d2 Ha. by rewrite (ag_paths _ _ Ha). Qed.
Lemma related_path_is_occupied p : related eq (path_is_occupied p) (path_is_occupied p).
Proof. apply related_query. intros d1 d2 Ha. by rewrite (ag_paths _ _ Ha). Qed.

Lemma related_secret_paths f : related eq (secret_paths_touching f) (secret_paths_touching f).
Proof.
  apply related_query. intros d1 d2 Ha. f_equal. apply list_eq_Forall2.
  eapply Forall2_omap; [|by apply joined_alike].
  intros [[k p] c1] [[k' p'] c2] [[= <- <-] Hc]. cbn [snd] in Hc.
  apply alike_spec in Hc as (-> & _). destruct (_ && _); by constructor.
Qed.

Lemma related_path_content_class f :
  related (option_Forall2 alike_existing) (path_content_class f) (path_content_class f).
Proof.
  apply related_query. intros d1 d2 Ha. unfold resolve, path_count. rewrite (ag_paths _ _ Ha).
  destruct (paths d2 !! f) as [p|]; [|constructor]. cbn [mbind option_bind].
  pose proof (ag_contents _ _ Ha (p_content_id p)) as E.
  destruct (contents d1 !! _) as [c1|], (contents d2 !! _) as [c2|]; try done; constructor.
  apply (inj Some) in E. pose proof (recorded_alike c1 c2 E).
  apply alike_spec in E as (? & _). by split_and!.
Qed.

(** *** Statements that write *)

Lemma agree_insert d1 d2 id c1 c2 :
  agree d1 d2 → alike c1 c2 →
  agree (set_contents (<[id := c1]> (contents d1)) d1) (set_contents (<[id := c2]> (contents d2)) d2).
Proof.
  intros [Hc H2 H3 H4 H5] Ha. split; cbn; try done. intros j.
  destruct (decide (id = j)) as [<-|Hne]; [rewrite !lookup_insert_eq|by rewrite !lookup_insert_ne].
  cbn. by f_equal.
Qed.

Lemma agree_set_paths d1 d2 p1 p2 :
  agree d1 d2 → p1 = p2 → agree (set_paths p1 d1) (set_paths p2 d2).
Proof. intros [] <-. by split. Qed.

Lemma alike_lookup_both d1 d2 id :
  agree d1 d2 → option_Forall2 alike (contents d1 !! id) (contents d2 !! id).
Proof.
  intros Ha. pose proof (ag_contents _ _ Ha id) as E.
  destruct (contents d1 !! id), (contents d2 !! id); try done; constructor.
  by apply (inj Some) in E.
Qed.

Lemma related_reserve : related eq reserve_content_id reserve_content_id.
Proof.
  apply related_stmt. intros d1 d2 Ha. rewrite (ag_seq _ _ Ha). destruct (_ <? _)%Z; [|done].
  split; [done|]. destruct Ha. by split.
Qed.

Lemma related_insert_content i v k t : related eq (insert_content i v k t) (insert_content i v k t).
Proof.
  apply related_stmt. intros d1 d2 Ha. cbv zeta. destruct (alike_lookup_both d1 d2 i Ha); [done|].
  destruct (content_check _); [|done]. split; [done|]. by apply agree_insert.
Qed.

Lemma related_insert_path p i t : related eq (insert_path p i t) (insert_path p i t).
Proof.
  apply related_stmt. intros d1 d2 Ha. rewrite (ag_paths _ _ Ha).
  destruct (paths d2 !! lower p); [done|]. destruct (alike_lookup_both d1 d2 i Ha); [|done].
  destruct (path_check p); [|done]. split; [done|]. by apply agree_set_paths.
Qed.

Lemma related_update_content i v k t : related eq (update_content i v k t) (update_content i v k t).
Proof.
  apply related_stmt. intros d1 d2 Ha.
  destruct (alike_lookup_both d1 d2 i Ha) as [c1 c2 Hc|]; [|done]. cbv zeta.
  apply alike_spec in Hc as (_ & -> & _). destruct (content_check _); [|done].
  split; [done|]. by apply agree_insert.
Qed.

Lemma related_update_plain i v t :
  related alike_previous (update_plain_content i v t) (update_plain_content i v t).
Proof.
  apply related_stmt. intros d1 d2 Ha.
  destruct (alike_lookup_both d1 d2 i Ha) as [c1 c2 Hc|]; [|done]. cbv zeta.
  pose proof Hc as (Hk & Ht & _ & Hv)%alike_spec. rewrite Ht. destruct (content_check _); [|done].
  split; [by split|]. by apply agree_insert.
Qed.

Lemma delete_where_alike f d1 d2 :
  (∀ k p c1 c2, alike c1 c2 → f k p c1 = f k p c2) → agree d1 d2 →
  Forall2 alike_deleted (fst (delete_where f d1)) (fst (delete_where f d2))
  ∧ agree (snd (delete_where f d1)) (snd (delete_where f d2)).
Proof.
  intros Hf Ha. unfold delete_where. cbn [fst snd]. split.
  - apply Forall2_sort_by; [by intros ???? (-> & _) (-> & _)|].
    apply Forall2_fmap. apply (Forall2_impl alike_row).
    { apply Forall2_filter; [|by apply joined_alike].
      intros [[k p] c1] [[k' p'] c2] [[= <- <-] Hc]. by apply Hf. }
    intros [[k p] c1] [[k' p'] c2] [[= <- <-] Hc]. cbn [snd] in Hc.
    pose proof (recorded_alike c1 c2 Hc). by split_and!.
  - apply agree_set_paths; [done|]. rewrite (ag_paths _ _ Ha). apply map_filter_ext.
    intros k p _. unfold matched. destruct (alike_lookup_both d1 d2 (p_content_id p) Ha); [|done].
    by erewrite Hf.
Qed.

Lemma related_delete_where f :
  (∀ k p c1 c2, alike c1 c2 → f k p c1 = f k p c2) →
  related (Forall2 alike_deleted) (map_store (stmt (λ d, Some (delete_where f d))))
    (map_store (stmt (λ d, Some (delete_where f d)))).
Proof.
  intros Hf. apply related_stmt. intros d1 d2 Ha.
  destruct (delete_where_alike f d1 d2 Hf Ha) as [Hr Hd].
  by destruct (delete_where f d1), (delete_where f d2).
Qed.

Lemma related_delete_paths f r :
  related (Forall2 alike_deleted) (delete_paths f r) (delete_paths f r).
Proof. by apply related_delete_where. Qed.

Lemma related_delete_plain f keep :
  related (Forall2 alike_deleted) (delete_plain_paths_except f keep) (delete_plain_paths_except f keep).
Proof. apply related_delete_where. by intros k p c1 c2 (-> & _)%alike_spec. Qed.

(** *** Locks *)

Lemma related_lock_path p e : related eq (lock_path p e) (lock_path p e).
Proof.
  intros w1 w2 Hw. destruct (related_query eq (λ _, tt) (λ _, tt) ltac:(done) w1 w2 Hw) as [Hr Hw'].
  unfold lock_path. destruct (map_store _ w1) as [[u|e1] w1'], (map_store _ w2) as [[u'|e2] w2'];
    cbn [fst snd same_result] in *; try done.
  split; [done|]. destruct Hw' as [? ? ? ? ? Hl]. split; try done. cbn. by rewrite Hl.
Qed.

Lemma related_lock_content i : related eq (lock_content i) (lock_content i).
Proof. apply (related_lock_path ("content:" ++ show_Z i) true). Qed.

Lemma related_lock_mutation p : related eq (lock_mutation_path p) (lock_mutation_path p).
Proof.
  assert (∀ segs pre, related eq (lock_prefixes pre segs) (lock_prefixes pre segs)) as Hpre.
  { induction segs as [|s segs IH]; intros pre; cbn [lock_prefixes]; [by apply related_ret|].
    apply related_bind_eq; [apply related_lock_path|]. intros _. apply IH. }
  unfold lock_mutation_path. apply related_bind_eq; [|intros _; apply related_lock_path].
  case_bool_decide; [by apply related_ret|]. apply related_bind_eq; [apply related_lock_path|].
  intros _. case_bool_decide; [by apply related_ret|apply Hpre].
Qed.

Lemma Forall2_eq_refl {A} (l : list A) : Forall2 eq l l.
Proof. by apply list_eq_Forall2. Qed.

Lemma related_prune ids : related eq (prune_orphan_contents ids) (prune_orphan_contents ids).
Proof.
  unfold prune_orphan_contents. destruct (is_empty ids); [by apply related_ret|].
  eapply related_bind; [eapply (related_for_each eq eq); [|apply Forall2_eq_refl]|].
  { intros x ? <-. apply related_lock_content. }
  intros _ _ _. apply related_stmt. intros d1 d2 Ha. split; [done|].
  assert (∀ id, referenced d1 id = referenced d2 id) as Href.
  { intros id. unfold referenced. by rewrite (ag_paths _ _ Ha). }
  pose proof Ha as [Hc H2 H3 H4 H5]. split; cbn; try done. intros id.
  rewrite !map_lookup_filter.
  destruct (alike_lookup_both d1 d2 id Ha) as [c1 c2 Hcc|]; [|done]. cbn.
  rewrite !Href. case_guard; [|done]. cbn. by f_equal.
Qed.

(** ** Recording *)

Section operations.
Context `{Crypto} (recorder : Trail.AuditRecorder).

Lemma related_record_in actor at_ events :
  related eq (Trail.record_in recorder actor at_ events) (Trail.record_in recorder actor at_ events).
Proof.
  set (rows := Trail.rows recorder actor at_ events).
  assert (related eq (map_store (Trail.insert_events actor at_ rows))
            (map_store (Trail.insert_events actor at_ rows))) as Hins.
  { unfold Trail.insert_events. destruct (is_empty rows); [by intros w1 w2 Hw; split|].
    apply related_stmt. intros d1 d2 Ha. rewrite (ag_audit _ _ Ha), (ag_audit_seq _ _ Ha).
    destruct (Trail.upsert_all _ _ _ _ _ _) as [[table seq]|]; [|done].
    split; [done|]. destruct Ha. by split. }
  intros w1 w2 Hw. destruct (Hins w1 w2 Hw) as [Hr Hw']. unfold map_store, map_error in Hr, Hw'.
  unfold Trail.record_in, Trail.settle. fold rows.
  destruct (Trail.insert_events actor at_ rows w1) as [[u|e1] w1'],
    (Trail.insert_events actor at_ rows w2) as [[u'|e2] w2']; cbn [fst snd same_result map_err] in *;
    try done; (split; [done|]); destruct Hw' as [? ? ? ? Hm ?]; split; try done; cbn; by rewrite Hm.
Qed.

Lemma related_best_effort actor at_ event :
  related eq (Trail.record_best_effort recorder actor at_ event)
    (Trail.record_best_effort recorder actor at_ event).
Proof.
  intros w1 w2 Hw. split; [done|]. apply (related_record_in actor at_ [event] w1 w2 Hw).
Qed.

(** ** The operations *)

Lemma related_stored_representation i k v :
  related eq (stored_representation i k v) (stored_representation i k v).
Proof.
  unfold stored_representation. case_bool_decide; [|by apply related_ret].
  apply related_bind_eq; [apply related_getrandom|]. intros nonce. apply related_same_lift.
Qed.

Lemma related_put_transaction actor path v k :
  related eq (put_transaction recorder actor path v k) (put_transaction recorder actor path v k).
Proof.
  unfold put_transaction. apply related_bind_eq; [apply related_lock_mutation|]. intros _.
  apply related_bind_eq; [apply related_now|]. intros t.
  eapply related_bind; [apply related_path_content_class|]. intros e1 e2 He.
  apply (related_bind eq).
  - destruct He as [r1 r2 (Hi & Hk & Hn & _)|].
    + unfold overwrite_existing. rewrite Hi, Hk, Hn. destruct (_ && _); [apply related_fail|].
      apply related_bind_eq; [apply related_stored_representation|]. intros x.
      apply related_update_content.
    + unfold create_value. apply related_bind_eq; [apply related_path_collides|].
      intros [|]; [apply related_fail|]. apply related_bind_eq; [apply related_reserve|]. intros id.
      apply related_bind_eq; [apply related_stored_representation|]. intros x.
      apply related_bind_eq; [apply related_insert_content|]. intros row.
      apply related_bind_eq; [apply related_insert_path|]. intros _. by apply related_ret.
  - intros row ? <-.
    assert (put_event actor path e1 k v = put_event actor path e2 k v) as ->.
    { unfold put_event. destruct He as [r1 r2 (_ & _ & _ & Hrec)|]; [|done]. by rewrite Hrec. }
    apply related_bind_eq; [apply related_record_in|]. intros _. by apply related_ret.
Qed.

Lemma related_put context s written :
  related eq (put_value recorder context s written) (put_value recorder context s written).
Proof.
  unfold put_value. apply related_bind_eq; [apply related_same_lift|]. intros path.
  apply related_bind_eq; [apply related_same_lift|]. intros [v k].
  destruct (contains_byte _ v); [apply related_fail|].
  apply related_bind_eq; [apply related_same_lift|]. intros actor.
  apply related_bind_eq; [apply related_transaction, related_put_transaction|]. intros row.
  do 2 (apply related_bind_eq; [apply related_same_lift|]; intros ?). by apply related_ret.
Qed.

Lemma content_ids_alike r1 r2 : Forall2 alike_deleted r1 r2 → content_ids r1 = content_ids r2.
Proof.
  intros Hr. unfold content_ids.
  by rewrite (Forall2_map_eq alike_deleted dp_content_id dp_content_id r1 r2)
    by (try done; by intros ?? (_ & ? & _)).
Qed.

Lemma deleted_events_alike actor r1 r2 :
  Forall2 alike_deleted r1 r2 →
  List.map (λ row, Event.value_deleted actor (dp_path row)
     (recorded_of (dp_classification row) (dp_value row))) r1
  = List.map (λ row, Event.value_deleted actor (dp_path row)
     (recorded_of (dp_classification row) (dp_value row))) r2.
Proof. apply Forall2_map_eq. by intros x y (-> & _ & ->). Qed.

Lemma related_delete_transaction actor path recurse :
  related eq (delete_transaction recorder actor path recurse)
    (delete_transaction recorder actor path recurse).
Proof.
  unfold delete_transaction. apply related_bind_eq; [apply related_lock_mutation|]. intros _.
  eapply related_bind; [apply related_delete_paths|]. intros r1 r2 Hr.
  pose proof (Forall2_length _ _ _ Hr) as Hlen.
  replace (is_empty r2) with (is_empty r1) by (by destruct Hr).
  destruct (is_empty r1); [apply related_fail|]. rewrite (content_ids_alike _ _ Hr).
  apply related_bind_eq; [apply related_prune|]. intros _.
  apply related_bind_eq; [apply related_now|]. intros t.
  assert (deletion_events actor path r1 recurse = deletion_events actor path r2 recurse) as ->.
  { unfold deletion_events. by rewrite (deleted_events_alike _ _ _ Hr), Hlen. }
  apply related_bind_eq; [apply related_record_in|]. intros _. apply related_ret. by rewrite Hlen.
Qed.

Lemma related_delete context s recurse :
  related eq (delete_values recorder context s recurse) (delete_values recorder context s recurse).
Proof.
  unfold delete_values. do 2 (apply related_bind_eq; [apply related_same_lift|]; intros ?).
  apply related_bind_eq; [apply related_transaction, related_delete_transaction|]. intros [t n].
  apply related_bind_eq; [apply related_same_lift|]. intros ?. by apply related_ret.
Qed.

Lemma related_add_path context alias :
  related eq (add_value_path recorder context alias) (add_value_path recorder context alias).
Proof.
  unfold add_value_path. do 4 (apply related_bind_eq; [apply related_same_lift|]; intros ?).
  destruct (_ || _); [apply related_fail|]. destruct (Path.eq _ _); [apply related_fail|].
  apply related_bind_eq; [apply related_transaction|intros t].
  - unfold add_path_transaction. destruct (if Path.le _ _ then _ else _) as [first second].
    do 2 (apply related_bind_eq; [apply related_lock_mutation|]; intros _).
    apply related_bind_eq; [apply related_content_id_at|]. intros found.
    apply related_bind_eq; [apply related_same_lift|]. intros id.
    apply related_bind_eq; [apply related_path_is_occupied|]. intros [|]; [apply related_fail|].
    apply related_bind_eq; [apply related_path_collides|]. intros [|]; [apply related_fail|].
    apply related_bind_eq; [apply related_now|]. intros t.
    apply related_bind_eq; [apply related_insert_path|]. intros _.
    apply related_bind_eq; [apply related_record_in|]. intros _. by apply related_ret.
  - apply related_bind_eq; [apply related_same_lift|]. intros ?. by apply related_ret.
Qed.

Lemma related_get_sub_tree context s :
  related eq (get_sub_tree recorder context s) (get_sub_tree recorder context s).
Proof.
  unfold get_sub_tree. do 2 (apply related_bind_eq; [apply related_same_lift|]; intros ?).
  eapply related_bind; [apply related_sub_tree_rows|]. intros r1 r2 Hr.
  rewrite (map_result_alike _ _ _ Hr). apply related_bind_eq; [apply related_same_lift|]. intros vs.
  apply related_bind_eq; [apply related_now|]. intros t.
  apply related_bind_eq; [apply related_best_effort|]. intros _. by apply related_ret.
Qed.

Lemma related_list_value_paths context s :
  related eq (list_value_paths context s) (list_value_paths context s).
Proof.
  unfold list_value_paths. do 2 (apply related_bind_eq; [apply related_same_lift|]; intros ?).
  apply related_bind_eq; [apply related_content_id_at|]. intros found.
  apply related_bind_eq; [apply related_same_lift|]. intros id.
  apply related_bind_eq; [apply related_paths_of_content|]. intros rows.
  apply related_bind_eq; [apply related_same_lift|]. intros ps. by apply related_ret.
Qed.

Lemma related_list_values context s :
  related eq (list_values recorder context s) (list_values recorder context s).
Proof.
  unfold list_values. do 3 (apply related_bind_eq; [apply related_same_lift|]; intros ?).
  apply related_bind_eq; [apply related_path_candidates|]. intros rows.
  apply related_bind_eq; [apply related_same_lift|]. intros listing.
  apply (related_bind eq).
  - destruct (is_empty (direct listing)); [by apply related_ret|].
    eapply related_bind; [apply related_listed_values|]. intros r1 r2 Hr.
    rewrite (map_result_alike (listed_value (content_paths listing)) r1 r2);
      [apply related_same_lift|]. eapply Forall2_impl; [exact Hr|]. by intros ?? Hxy.
  - intros vs ? <-. apply related_bind_eq; [apply related_same_lift|]. intros ns.
    apply related_bind_eq; [apply related_now|]. intros t.
    apply related_bind_eq; [apply related_best_effort|]. intros _. by apply related_ret.
Qed.

(** *** Replacing *)

Lemma related_resolve_plain_writes values : ∀ acc,
  related eq (resolve_plain_writes acc values) (resolve_plain_writes acc values).
Proof.
  induction values as [|[k [[v|]|]] values IH]; intros acc; cbn [resolve_plain_writes e_content];
    [by apply related_ret| |apply IH|apply IH].
  apply related_bind_eq; [apply related_content_id_at|]. intros [id|]; [|apply IH].
  destruct (shared acc !! id); [|apply IH]. case_bool_decide; [apply IH|apply related_fail].
Qed.

Definition alike_previous_entry (x y : Z * PreviousContentRow) : Prop :=
  fst x = fst y ∧ alike_previous (snd x) (snd y).

Lemma related_update_all t l :
  related (Forall2 alike_previous_entry) (for_each (update_shared t) l) (for_each (update_shared t) l).
Proof.
  eapply (related_for_each eq); [|apply Forall2_eq_refl]. intros e ? <-. unfold update_shared.
  eapply related_bind; [apply related_update_plain|]. intros r1 r2 Hr. by apply related_ret.
Qed.

Lemma related_insert_all displays t l :
  related (Forall2 eq) (for_each (insert_fresh displays t) l) (for_each (insert_fresh displays t) l).
Proof.
  eapply (related_for_each eq); [|apply Forall2_eq_refl]. intros e ? <-. unfold insert_fresh.
  apply related_bind_eq; [apply related_reserve|]. intros id.
  apply related_bind_eq; [apply related_insert_content|]. intros row. apply related_insert_path.
Qed.

Lemma previous_lookup l1 l2 id :
  Forall2 alike_previous_entry l1 l2 →
  option_Forall2 alike_previous ((list_to_map l1 : gmap Z _) !! id) ((list_to_map l2 : gmap Z _) !! id).
Proof.
  induction 1 as [|[i r1] [j r2] l1 l2 [E Hr] Hl IH]; [constructor|]. cbn in E. subst j. cbn [list_to_map foldr].
  destruct (decide (i = id)) as [<-|Hne]; [rewrite !lookup_insert_eq; by constructor|].
  by rewrite !lookup_insert_ne.
Qed.

Lemma updated_events_alike actor c1 c2 w displays l1 l2 :
  Forall2 alike_previous_entry l1 l2 →
  updated_events actor (mkChanges c1 w (list_to_map l1) displays)
  = updated_events actor (mkChanges c2 w (list_to_map l2) displays).
Proof.
  intros Hl. unfold updated_events. apply list_eq_Forall2.
  cbn [writes Values.previous Values.displays].
  eapply (Forall2_omap eq); [|apply Forall2_eq_refl]. intros [fold id] ? <-.
  destruct (previous_lookup l1 l2 id Hl) as [r1 r2 [Hk Hv]|]; [|constructor]. cbn [mbind option_bind].
  destruct (shared w !! id) as [after|]; [|constructor]. cbn [mbind option_bind].
  assert (recorded_of (pv_classification r1) (pv_value r1)
          = recorded_of (pv_classification r2) (pv_value r2)) as Hrec.
  { unfold recorded_of. rewrite <- Hk. case_bool_decide; [|done]. by rewrite Hv. }
  rewrite Hrec, <- Hk. destruct (decide (pv_classification r1 = PLAIN)) as [E|E].
  - rewrite (Hv E). destruct (_ || _); by constructor.
  - rewrite (bool_decide_eq_false_2 (pv_classification r1 = PLAIN)) by done.
    rewrite !orb_true_r. by constructor.
Qed.

Lemma related_replace_transaction actor path n :
  related eq (replace_transaction recorder actor path n) (replace_transaction recorder actor path n).
Proof.
  unfold replace_transaction. apply related_bind_eq; [apply related_lock_mutation|]. intros _.
  apply related_bind_eq; [apply related_secret_paths|]. intros secrets.
  apply related_bind_eq; [apply related_same_lift|]. intros plain.
  apply related_bind_eq; [apply related_now|]. intros t.
  eapply related_bind; [apply related_delete_plain|]. intros r1 r2 Hr.
  rewrite (content_ids_alike _ _ Hr). apply related_bind_eq; [apply related_prune|]. intros _.
  apply related_bind_eq; [apply related_resolve_plain_writes|]. intros w.
  eapply related_bind; [apply related_update_all|]. intros l1 l2 Hl.
  eapply related_bind; [apply related_insert_all|]. intros _ _ _.
  match goal with |- related _ (_ ← Trail.record_in _ _ _ ?e1; _) (_ ← Trail.record_in _ _ _ ?e2; _) =>
    assert (e1 = e2) as -> end.
  { unfold replacement_events. cbn [cleared writes Values.displays].
    rewrite (updated_events_alike actor r1 r2 w _ l1 l2 Hl). by rewrite (deleted_events_alike _ _ _ Hr). }
  apply related_bind_eq; [apply related_record_in|]. intros _. by apply related_ret.
Qed.

Lemma related_replace context s values :
  related eq (replace_sub_tree recorder context s values) (replace_sub_tree recorder context s values).
Proof.
  unfold replace_sub_tree. do 3 (apply related_bind_eq; [apply related_same_lift|]; intros ?).
  apply related_bind_eq; [apply related_transaction, related_replace_transaction|]. intros [t n].
  apply related_bind_eq; [apply related_same_lift|]. intros ?. by apply related_ret.
Qed.

Lemma related_perform context call :
  (∀ path, call ≠ CallReveal path) →
  related eq (perform recorder context call) (perform recorder context call).
Proof.
  intros Hnr. destruct call; cbn [perform]; (apply related_bind_eq; [|intros ?; by apply related_ret]).
  - apply related_put.
  - apply related_delete.
  - by destruct (Hnr path).
  - apply related_add_path.
  - apply related_get_sub_tree.
  - apply related_list_value_paths.
  - apply related_list_values.
  - apply related_replace.
Qed.

End operations.

(** C2: no operation but revealing a secret lets the text of a stored secret
    out: two deployments that differ only in it give the same reply to the
    same call, success or failure, and leave the same audit trail, paths,
    plain values, timestamps, counters and lock requests. *)
Theorem stored_secrets_do_not_flow `{Crypto} (recorder : Trail.AuditRecorder)
    (context : Rpc.CallContext) (call : Call) (w1 w2 : World) :
  (∀ path, call ≠ CallReveal path) → agree_w w1 w2 →
  fst (perform recorder context call w1) = fst (perform recorder context call w2)
  ∧ agree_w (snd (perform recorder context call w1)) (snd (perform recorder context call w2)).
Proof.
  intros Hnr Hw. destruct (related_perform recorder context call Hnr w1 w2 Hw) as [Hr Hw'].
  split; [by apply same_result_eq|done].
Qed.

(** The same deployment with other text for every secret. *)
Definition with_other_text (text : bytes) (w : World) : World :=
  set_db (set_contents ((λ c, if bool_decide (c_classification c = PLAIN) then c
                              else mkContent text (c_classification c) (c_created_at c) (c_updated_at c))
                        <$> contents (db w)) (db w)) w.

Lemma with_other_text_agrees text w : agree_w w (with_other_text text w).
Proof.
  split; try done. split; try done. intros id. unfold with_other_text.
  cbn [db set_db contents set_contents]. rewrite lookup_fmap.
  destruct (contents (db w) !! id) as [c|]; [|done]. cbn [fmap option_fmap option_map].
  destruct (decide (c_classification c = PLAIN)) as [E|E].
  - by rewrite bool_decide_eq_true_2.
  - unfold hide. rewrite (bool_decide_eq_false_2 (c_classification c = PLAIN)) by done. cbn.
    by rewrite (bool_decide_eq_false_2 (c_classification c = PLAIN)).
Qed.

Lemma stored_secrets_do_not_flow_witness :
  let other := with_other_text "other" Sample.with_secret in
  fst (perform Sample.hourly Sample.owner (CallDelete "/apps" true) Sample.with_secret)
  = fst (perform Sample.hourly Sample.owner (CallDelete "/apps" true) other)
  ∧ contents (db Sample.with_secret) ≠ contents (db other).
Proof.
  split.
  - refine (proj1 (stored_secrets_do_not_flow Sample.hourly Sample.owner (CallDelete "/apps" true)
      Sample.with_secret (with_other_text "other" Sample.with_secret) _ _)); [done|].
    apply with_other_text_agrees.
  - apply (bool_decide_unpack _). vm_compute. exact I.
Defined.

End Secrecy.
