(* ===== verification/Startup.v ===== *)
(** * The encryption pass at startup

    Models [crates/sovereign-config-server/src/values/startup.rs]: before it
    serves anything the server seals every secret still stored in plaintext and
    verifies the sealed ones, in one transaction; when not one sealed secret
    opens it takes the key for the wrong one and commits nothing. *)

From stdpp Require Import strings.
From S2P Require Import Prelude Bytes ConfigPath Core Encryption AuditEvent Rpc Database AuditTrail ValuePaths Store Invariant Values ValuesPut.

Local Open Scope bytes_scope.

Module Startup.
Import Store Tree.

(** What the pass reports; the source attaches a text to each storage failure. *)
Inductive StartupError :=
| StorageError
| EncryptFailed (content_id : Z)
| WrongKey (sealed_on_entry : nat).

Definition wrong_key (unreadable sealed_on_entry : nat) : bool :=
  (0 <? unreadable)%nat && (unreadable =? sealed_on_entry)%nat.

(** The variables of the loop. *)
Record Pass := mkPass { encrypted : nat; sealed_on_entry : nat; unreadable : list Z }.

Section startup.
Context `{Crypto}.

Fixpoint seal_rows (pass : Pass) (stored : list StoredSecretRow) : M StartupError Pass :=
  match stored with
  | [] => mret pass
  | row :: stored' =>
      if Cipher.is_envelope (ss_value row) then
        seal_rows (mkPass (encrypted pass) (S (sealed_on_entry pass))
          (match Cipher.decrypt (ss_id row) SECRET (ss_value row) with
           | Ok _ => unreadable pass
           | Err _ => unreadable pass ++ [ss_id row]
           end)) stored'
      else
        nonce ← getrandom;
        sealed ← lift (map_err (Cipher.encrypt nonce (ss_id row) SECRET (ss_value row))
                         (λ _, EncryptFailed (ss_id row)));
        _ ← map_error (λ _, StorageError) (reseal_secret (ss_id row) sealed);
        seal_rows (mkPass (S (encrypted pass)) (sealed_on_entry pass) (unreadable pass)) stored'
  end.

Definition encryption_pass : M StartupError unit :=
  _ ← map_error (λ _, StorageError) lock_encryption_pass;
  stored ← map_error (λ _, StorageError) stored_secrets;
  pass ← seal_rows (mkPass 0 0 []) stored;
  if wrong_key (length (unreadable pass)) (sealed_on_entry pass)
  then fail (WrongKey (sealed_on_entry pass)) else mret ().

Definition encrypt_stored_secrets : M StartupError unit := in_transaction StorageError encryption_pass.

(** ** The loop *)

(** A sealed row, and whether it opens. *)
Definition opens (row : StoredSecretRow) : bool :=
  is_ok (Cipher.decrypt (ss_id row) SECRET (ss_value row)).
Definition envelope_row (row : StoredSecretRow) : bool := Cipher.is_envelope (ss_value row).

(** What sealing the plaintext rows of [l] does. *)
Record seal_effect (l : list StoredSecretRow) (es : list (option bytes)) (d d' : Database) : Prop := {
  se_paths : paths d' = paths d;
  se_seq : content_seq d' = content_seq d;
  se_audit : audit d' = audit d ∧ audit_seq d' = audit_seq d;
  se_sealed row : row ∈ l → envelope_row row = false → ∃ nonce sealed,
    Some nonce ∈ es ∧ Cipher.encrypt (Some nonce) (ss_id row) SECRET (ss_value row) = Ok sealed
    ∧ ∀ c, contents d !! ss_id row = Some c →
        contents d' !! ss_id row
        = Some (mkContent sealed (c_classification c) (c_created_at c) (c_updated_at c))
        ∧ content_check (mkContent sealed (c_classification c) (c_created_at c) (c_updated_at c)) = true;
  se_other id : id ∉ List.map ss_id (List.filter (λ r, negb (envelope_row r)) l) →
    contents d' !! id = contents d !! id }.

Lemma seal_one_ok row w sealed w1 u w' :
  reseal_secret (ss_id row) sealed w1 = (Ok u, w') → db w1 = db w →
  db w' = match contents (db w) !! ss_id row with
          | None => db w
          | Some c => set_contents (<[ss_id row := mkContent sealed (c_classification c)
                        (c_created_at c) (c_updated_at c)]> (contents (db w))) (db w)
          end
  ∧ (∀ c, contents (db w) !! ss_id row = Some c →
       content_check (mkContent sealed (c_classification c) (c_created_at c) (c_updated_at c)) = true)
  ∧ entropy w' = entropy w1.
Proof.
  intros (_ & d & Hd & ->)%stmt_ok E. rewrite E in Hd.
  destruct (contents (db w) !! ss_id row) as [c|]; [|by injection Hd as <-].
  cbv zeta in Hd. destruct (content_check _) eqn:Ec; [|done]. injection Hd as <-.
  split_and!; [done| |done]. by intros c' [= <-].
Qed.

(** Sealing one more row, then the rest. *)
Lemma seal_effect_cons row l nonce sealed es es' d d1 d2 :
  ss_id row ∉ List.map ss_id l → envelope_row row = false → Some nonce ∈ es →
  Cipher.encrypt (Some nonce) (ss_id row) SECRET (ss_value row) = Ok sealed →
  d1 = match contents d !! ss_id row with
       | None => d
       | Some c => set_contents (<[ss_id row := mkContent sealed (c_classification c)
                     (c_created_at c) (c_updated_at c)]> (contents d)) d
       end →
  (∀ c, contents d !! ss_id row = Some c →
     content_check (mkContent sealed (c_classification c) (c_created_at c) (c_updated_at c)) = true) →
  seal_effect l es' d1 d2 → (∀ o, o ∈ es' → o ∈ es) → seal_effect (row :: l) es d d2.
Proof.
  intros Hni Ee Hnonce Henc Hd1 Hck [H1 H2 H3 H4 H5] Hsub.
  assert (∀ id, id ≠ ss_id row → contents d1 !! id = contents d !! id) as Hne.
  { intros id Hid. rewrite Hd1. destruct (contents d !! ss_id row); [|done]. cbn.
    by rewrite lookup_insert_ne. }
  assert (∀ r, r ∈ l → ss_id r ≠ ss_id row) as Hids.
  { intros r Hr E. apply Hni. rewrite <- E. apply list_elem_of_In, in_map_iff. exists r.
    split; [done|by apply list_elem_of_In]. }
  split.
  - rewrite H1, Hd1. by destruct (contents d !! ss_id row).
  - rewrite H2, Hd1. by destruct (contents d !! ss_id row).
  - rewrite (proj1 H3), (proj2 H3), Hd1. by destruct (contents d !! ss_id row).
  - intros r [->|Hr]%elem_of_cons Hr'.
    + exists nonce, sealed. split_and!; [done|done|]. intros c Hc. rewrite Hc in Hd1. rewrite H5.
      * rewrite Hd1. cbn. rewrite lookup_insert_eq. split; [done|by apply Hck].
      * intros Hin. apply list_elem_of_In, in_map_iff in Hin as (r' & E' & [Hr'' _]%filter_In).
        by apply (Hids r'); [apply list_elem_of_In|].
    + destruct (H4 r Hr Hr') as (n & x & Hn & Hx & Hc). exists n, x.
      split_and!; [by apply Hsub|done|]. intros c Hcr. apply Hc. by rewrite Hne by (by apply Hids).
  - intros id Hid. cbn [List.filter] in Hid. rewrite Ee in Hid. cbn [negb List.map] in Hid.
    apply not_elem_of_cons in Hid as [Hne' Hid]. by rewrite H5, Hne by done.
Qed.

Lemma seal_rows_ok l : ∀ pass w pass' w',
  NoDup (List.map ss_id l) → seal_rows pass l w = (Ok pass', w') →
  seal_effect l (entropy w) (db w) (db w')
  ∧ sealed_on_entry pass' = sealed_on_entry pass + length (List.filter envelope_row l)
  ∧ unreadable pass' = unreadable pass
      ++ List.map ss_id (List.filter (λ r, envelope_row r && negb (opens r)) l).
Proof.
  induction l as [|row l IH]; intros pass w pass' w' Hnd Hrun; cbn [seal_rows] in Hrun.
  { run_steps. split; [|simpl; by rewrite Nat.add_0_r, app_nil_r].
    split; try done. by intros ? []%not_elem_of_nil. }
  cbn [List.map] in Hnd. apply NoDup_cons in Hnd as [Hni Hnd]. cbn [List.filter].
  change (Cipher.is_envelope (ss_value row)) with (envelope_row row) in Hrun.
  destruct (envelope_row row) eqn:Ee.
  - apply IH in Hrun as ([H1 H2 H3 H4 H5] & Hs & Hu); [|done]. cbn [sealed_on_entry unreadable] in Hs, Hu.
    split; [|split].
    + split; [done|done|done| |].
      * intros r [->|Hr]%elem_of_cons Hr'; [congruence|by apply H4].
      * intros id Hid. cbn [List.filter] in Hid. rewrite Ee in Hid. by apply H5.
    + rewrite Hs. cbn [length]. lia.
    + rewrite Hu. unfold opens. cbn [andb].
      destruct (Cipher.decrypt _ _ _); cbn [is_ok negb List.map]; [done|]. by rewrite <- app_assoc.
  - run_steps.
    match goal with Hg : getrandom w = (Ok ?n, ?w1) |- _ =>
      assert (n = default None (head (entropy w)) ∧ w1 = set_entropy (tail (entropy w)) w) as [-> ->]
        by (unfold getrandom in Hg; by injection Hg as <- <-); clear Hg end.
    match goal with He : Cipher.encrypt _ _ _ _ = Ok ?x |- _ => rename He into Henc, x into sealed end.
    match goal with Hr : reseal_secret _ _ _ = _ |- _ =>
      eapply (seal_one_ok row w) in Hr as (Hdb & Hck & Hent); [|done] end.
    apply IH in Hrun as (He & Hs & Hu); [|done]. cbn [sealed_on_entry unreadable] in Hs, Hu.
    split; [|by rewrite Hs, Hu].
    destruct (default None (head (entropy w))) as [nonce|] eqn:En; [|done].
    assert (Some nonce ∈ entropy w) as Hnonce.
    { destruct (entropy w) as [|o os]; [done|]. cbn in En. subst. by left. }
    eapply seal_effect_cons; [done|done|exact Hnonce|exact Henc|exact Hdb|exact Hck|exact He|].
    rewrite Hent. cbn. intros o. destruct (entropy w); [done|]. cbn. by right.
Qed.

(** ** The rows of the pass *)

Definition secret_rows (d : Database) : list StoredSecretRow :=
  sort_by (λ a b, (ss_id a <=? ss_id b)%Z)
    (omap (λ '(id, c), if bool_decide (c_classification c = SECRET)
                       then Some (mkStoredSecretRow id (c_value c)) else None)
       (map_to_list (contents d))).

Lemma elem_of_secret_rows d row :
  row ∈ secret_rows d ↔
  ∃ c, contents d !! ss_id row = Some c ∧ c_classification c = SECRET ∧ ss_value row = c_value c.
Proof.
  unfold secret_rows. rewrite elem_of_sort_by, list_elem_of_omap. split.
  - intros ([id c] & Hin%elem_of_map_to_list & E). case_bool_decide; [|done]. injection E as <-.
    by exists c.
  - intros (c & Hc & Hk & Hv). exists (ss_id row, c). split; [by apply elem_of_map_to_list|].
    rewrite bool_decide_eq_true_2 by done. destruct row. cbn in *. by subst.
Qed.

Lemma secret_rows_nodup d : NoDup (List.map ss_id (secret_rows d)).
Proof.
  unfold secret_rows. change (List.map ?f ?l) with (f <$> l). rewrite sort_by_perm.
  assert (NoDup (fst <$> map_to_list (contents d))) as Hnd by apply NoDup_fst_map_to_list.
  eapply sublist_NoDup; [exact Hnd|]. clear Hnd.
  induction (map_to_list (contents d)) as [|[id c] l IH]; [constructor|].
  change (omap ?f ((id, c) :: l)) with
    (match f (id, c) with Some y => y :: omap f l | None => omap f l end). cbv beta iota.
  case_bool_decide; cbn; by constructor.
Qed.

(** Whether the pass takes the key for the wrong one. *)
Definition key_rejected (d : Database) : bool :=
  wrong_key (length (List.filter (λ r, envelope_row r && negb (opens r)) (secret_rows d)))
    (length (List.filter envelope_row (secret_rows d))).

(** What a completed pass did. *)
Lemma pass_ok w u w' :
  encryption_pass w = (Ok u, w') →
  seal_effect (secret_rows (db w)) (entropy w) (db w) (db w') ∧ key_rejected (db w) = false.
Proof.
  unfold encryption_pass, key_rejected. intros Hrun. run_steps.
  match goal with Hl : lock_encryption_pass _ = _ |- _ => apply query_ok in Hl as (_ & _ & ->) end.
  match goal with Hs : stored_secrets _ = (Ok ?l, _) |- _ => apply query_ok in Hs as (_ & Hl & ->) end.
  match goal with Hl : ?l = _ |- _ => change (l = secret_rows (db w)) in Hl; subst l end.
  match goal with Hr : seal_rows _ _ _ = _ |- _ =>
    apply seal_rows_ok in Hr as (He & Hs & Hu); [|apply secret_rows_nodup] end.
  cbn [sealed_on_entry unreadable Nat.add app] in Hs, Hu. rewrite Hs, Hu, length_map in *.
  destruct (wrong_key _ _); run_steps. done.
Qed.

Lemma filter_nonempty {A} (f : A → bool) l :
  0 < length (List.filter f l) ↔ ∃ x, x ∈ l ∧ f x = true.
Proof.
  setoid_rewrite list_elem_of_In. setoid_rewrite <- filter_In.
  destruct (List.filter f l) as [|x k]; cbn; split; try lia; [by intros [? []]|].
  intros _. exists x. by left.
Qed.

Lemma filter_same_length {A} (f g : A → bool) l :
  length (List.filter (λ x, f x && g x) l) ≤ length (List.filter f l)
  ∧ (length (List.filter (λ x, f x && g x) l) = length (List.filter f l)
     ↔ ∀ x, x ∈ l → f x = true → g x = true).
Proof.
  induction l as [|x l [Hle IH]]; cbn [List.filter].
  { split; [done|]. split; [|done]. by intros _ ? []%not_elem_of_nil. }
  setoid_rewrite elem_of_cons.
  destruct (f x) eqn:Ef, (g x) eqn:Eg; cbn [andb length]; (split; [lia|]).
  - rewrite Nat.succ_inj_wd, IH. naive_solver.
  - split; [lia|]. intros Hall. specialize (Hall x (or_introl eq_refl) Ef). congruence.
  - rewrite IH. naive_solver congruence.
  - rewrite IH. naive_solver congruence.
Qed.

Lemma key_rejected_spec d :
  key_rejected d = true ↔
  (∃ row, row ∈ secret_rows d ∧ envelope_row row = true)
  ∧ ∀ row, row ∈ secret_rows d → envelope_row row = true → opens row = false.
Proof.
  unfold key_rejected, wrong_key. rewrite andb_true_iff, Nat.ltb_lt, Nat.eqb_eq.
  rewrite (proj2 (filter_same_length envelope_row (λ r, negb (opens r)) (secret_rows d))).
  rewrite filter_nonempty. setoid_rewrite andb_true_iff. setoid_rewrite negb_true_iff. naive_solver.
Qed.

(** A pass that rejects the key commits nothing. *)
Lemma pass_wrong_key w :
  key_rejected (db w) = true →
  ∃ e, fst (encrypt_stored_secrets w) = Err e
    ∧ same_tables (db w) (db (snd (encrypt_stored_secrets w))).
Proof.
  intros Hk. destruct (encrypt_stored_secrets w) as [[u|e] w'] eqn:E.
  - apply in_transaction_ok in E as (_ & w1 & Hb & _). apply pass_ok in Hb as [_ Hn].
    change (db (tick w)) with (db w) in Hn. congruence.
  - exists e. split; [done|]. cbn [snd].
    apply in_transaction_err in E as [?|(u & w1 & Hb & _)]; [done|]. apply pass_ok in Hb as [_ Hn].
    change (db (tick w)) with (db w) in Hn. congruence.
Qed.

End startup.

(** The stored secrets that are sealed. *)
Definition SealedOnEntry (d : Database) (id : Z) (c : ContentRow) : Prop :=
  contents d !! id = Some c ∧ c_classification c = SECRET ∧ Cipher.is_envelope (c_value c) = true.

Lemma envelope_rows d id c :
  SealedOnEntry d id c ↔
  mkStoredSecretRow id (c_value c) ∈ secret_rows d ∧ contents d !! id = Some c
  ∧ envelope_row (mkStoredSecretRow id (c_value c)) = true.
Proof.
  unfold SealedOnEntry, envelope_row. rewrite elem_of_secret_rows. cbn [ss_id ss_value].
  split; [intros (? & ? & ?); split_and!; eauto|].
  intros ((c' & Hc & Hk & Hv) & Hc' & He). rewrite Hc in Hc'. injection Hc' as <-. done.
Qed.

(** When secrets are stored sealed and not one of them opens under the
    server's key, the startup pass fails, at whatever point and whatever the
    database does, and no table has changed: nothing is sealed twice and
    nothing half-converted. *)
Theorem wrong_key_changes_nothing `{Crypto} (w : World) :
  (∃ id c, SealedOnEntry (db w) id c) →
  (∀ id c, SealedOnEntry (db w) id c → is_ok (Cipher.decrypt id SECRET (c_value c)) = false) →
  ∃ e, fst (encrypt_stored_secrets w) = Err e
    ∧ same_tables (db w) (db (snd (encrypt_stored_secrets w))).
Proof.
  intros (id & c & Hs) Hall. apply pass_wrong_key, key_rejected_spec. split.
  - eexists. by apply envelope_rows in Hs as (? & _ & ?).
  - intros [id' v] Hr He. pose proof Hr as (c' & Hc & Hk & Hv)%elem_of_secret_rows.
    cbn [ss_id ss_value] in *. subst v. apply Hall. by split_and!.
Qed.

(** Stored as plaintext though a secret: what the pass seals. *)
Definition plaintext_secret (c : ContentRow) : bool :=
  bool_decide (c_classification c = SECRET) && negb (Cipher.is_envelope (c_value c)).

Lemma sealed_ids d id :
  id ∈ List.map ss_id (List.filter (λ r, negb (envelope_row r)) (secret_rows d)) ↔
  ∃ c, contents d !! id = Some c ∧ plaintext_secret c = true.
Proof.
  rewrite list_elem_of_In, in_map_iff. setoid_rewrite filter_In. setoid_rewrite <- list_elem_of_In.
  unfold plaintext_secret. split.
  - intros (row & <- & (c & Hc & Hk & Hv)%elem_of_secret_rows & He). exists c. split; [done|].
    unfold envelope_row in He. rewrite Hv in He. by rewrite He, bool_decide_eq_true_2.
  - intros (c & Hc & Hp). bool_prop. exists (mkStoredSecretRow id (c_value c)). split; [done|].
    split; [apply elem_of_secret_rows; by exists c|]. unfold envelope_row. cbn.
    match goal with E : Cipher.is_envelope _ = false |- _ => by rewrite E end.
Qed.

(** What the pass made of one content. *)
Lemma sealed_content `{Crypto} es d d' id c :
  seal_effect (secret_rows d) es d d' → contents d !! id = Some c →
  if plaintext_secret c
  then ∃ nonce sealed, Some nonce ∈ es
    ∧ Cipher.encrypt (Some nonce) id SECRET (c_value c) = Ok sealed
    ∧ contents d' !! id = Some (mkContent sealed (c_classification c) (c_created_at c) (c_updated_at c))
  else contents d' !! id = Some c.
Proof.
  intros [_ _ _ Hs Ho] Hc. destruct (plaintext_secret c) eqn:Ep.
  - assert (id ∈ List.map ss_id (List.filter (λ r, negb (envelope_row r)) (secret_rows d))) as Hid
      by (apply sealed_ids; eauto).
    apply list_elem_of_In, in_map_iff in Hid as (row & <- & [Hr%list_elem_of_In He]%filter_In).
    apply negb_true_iff in He. destruct (Hs row Hr He) as (nonce & x & Hn & Henc & Hd).
    apply elem_of_secret_rows in Hr as (c' & Hc' & _ & Hv). rewrite Hc in Hc'. injection Hc' as <-.
    rewrite Hv in Henc. exists nonce, x. split_and!; [done|done|by apply Hd].
  - rewrite Ho; [done|]. rewrite sealed_ids. intros (c' & Hc' & Hp). rewrite Hc in Hc'.
    injection Hc' as <-. congruence.
Qed.

(** A startup pass that succeeds found the key right (some sealed secret
    opened, if any was sealed) and leaves every stored value readable as it
    was: plain values and sealed secrets untouched, every plaintext secret
    sealed so that it opens to the text it had, with classification and both
    timestamps kept, and paths and trail unchanged. *)
Theorem startup_seals_plaintext_secrets `{CryptoLaws} (w w' : World) :
  Put.good_entropy w →
  (∀ id c, contents (db w) !! id = Some c → from_utf8_ok (c_value c) = true) →
  encrypt_stored_secrets w = (Ok tt, w') →
  paths (db w') = paths (db w) ∧ audit (db w') = audit (db w)
  ∧ (∀ id, is_Some (contents (db w') !! id) ↔ is_Some (contents (db w) !! id))
  ∧ (∀ id c c', contents (db w) !! id = Some c → contents (db w') !! id = Some c' →
       c_classification c' = c_classification c ∧ c_created_at c' = c_created_at c
       ∧ c_updated_at c' = c_updated_at c
       ∧ if plaintext_secret c
         then Cipher.decrypt id SECRET (c_value c') = Ok (c_value c) else c' = c)
  ∧ ((∃ id c, SealedOnEntry (db w) id c) →
     ∃ id c, SealedOnEntry (db w) id c ∧ is_ok (Cipher.decrypt id SECRET (c_value c)) = true).
Proof.
  intros Hg Hu Hrun. apply in_transaction_ok in Hrun as (_ & w1 & Hb & _ & ->).
  apply pass_ok in Hb as [He Hk]. change (db (tick w)) with (db w) in *.
  change (entropy (tick w)) with (entropy w) in He. change (db (tick w1)) with (db w1).
  split; [apply (se_paths _ _ _ _ He)|]. split; [apply (se_audit _ _ _ _ He)|]. split_and!.
  - intros id. destruct (contents (db w) !! id) as [c|] eqn:Hc.
    + pose proof (sealed_content _ _ _ id c He Hc) as Hd.
      destruct (plaintext_secret c); [destruct Hd as (? & ? & _ & _ & ->)|rewrite Hd]; split; by eexists.
    + rewrite (se_other _ _ _ _ He); [by rewrite Hc|]. rewrite sealed_ids. intros (c & Hc' & _). congruence.
  - intros id c c' Hc Hc'. pose proof (sealed_content _ _ _ id c He Hc) as Hd.
    destruct (plaintext_secret c); [|rewrite Hc' in Hd; by injection Hd as ->].
    destruct Hd as (nonce & x & Hn & Henc & Hd). rewrite Hc' in Hd. injection Hd as ->. cbn.
    split_and!; try done. eapply Cipher.decrypt_encrypt; [|by eapply Hu|exact Henc].
    unfold Put.good_entropy in Hg. rewrite Forall_forall in Hg. by apply (Hg _ Hn).
  - intros (id & c & Hs).
    destruct (Exists_dec (λ r, envelope_row r = true ∧ opens r = true) (secret_rows (db w))) as [Hx|Hx].
    + apply Exists_exists in Hx as ([id' v] & Hr & Hev & Ho).
      pose proof Hr as (c' & Hc' & Hk' & Hv)%elem_of_secret_rows. cbn in *. subst v.
      exists id', c'. by split_and!.
    + exfalso. apply not_true_iff_false in Hk. apply Hk, key_rejected_spec.
      apply envelope_rows in Hs as (Hr & _ & Hev). split; [by eexists|].
      intros r Hr' Hev'. apply not_true_iff_false. intros Ho. apply Hx, Exists_exists. by exists r.
Qed.

(** ** A second pass *)

Lemma decrypt_is_envelope `{Crypto} id cls stored x :
  Cipher.decrypt id cls stored = Ok x → Cipher.is_envelope stored = true.
Proof.
  unfold Cipher.decrypt, Cipher.is_envelope.
  destruct (strip_prefix Cipher.ENVELOPE_PREFIX stored) as [r|] eqn:E; [|done]. intros _.
  apply strip_prefix_spec in E as ->. apply starts_with_app.
Qed.

Lemma storage_query_run {A} (f : Database → A) w :
  map_error (λ _, StorageError) (query f) w
  = (match outcome w with Done => Ok (f (db w)) | _ => Err StorageError end, tick w).
Proof. unfold map_error, query, stmt. destruct (outcome w); by destruct w. Qed.

Lemma all_opens_rows `{Crypto} l : ∀ pass w,
  Forall (λ r, envelope_row r = true ∧ opens r = true) l →
  seal_rows pass l w
  = (Ok (mkPass (encrypted pass) (sealed_on_entry pass + length l) (unreadable pass)), w).
Proof.
  induction l as [|r l IH]; intros pass w Hl; cbn [seal_rows length].
  { rewrite Nat.add_0_r. by destruct pass. }
  apply Forall_cons in Hl as [[He Ho] Hl]. unfold envelope_row in He. rewrite He.
  unfold opens in Ho. destruct (Cipher.decrypt _ _ _); [|done]. rewrite IH by done.
  cbn. by rewrite Nat.add_succ_r.
Qed.

(** Once every stored secret opens, as after a successful pass over
    readable rows, running the pass again changes no table at all, and it
    succeeds whenever the database answers. *)
Theorem startup_pass_is_idempotent `{Crypto} (w : World) :
  sealed (db w) →
  same_tables (db w) (db (snd (encrypt_stored_secrets w)))
  ∧ (quiet w → fst (encrypt_stored_secrets w) = Ok tt).
Proof.
  intros Hs.
  assert (Forall (λ r, envelope_row r = true ∧ opens r = true) (secret_rows (db w))) as Hl.
  { apply Forall_forall. intros row (c & Hc & Hk & Hv)%elem_of_secret_rows.
    destruct (Hs _ _ Hc Hk) as [x Hx]. unfold envelope_row, opens. rewrite Hv, Hx. split; [|done].
    by eapply decrypt_is_envelope. }
  assert (wrong_key (length (@nil Z)) (length (secret_rows (db w))) = false) as Hk by done.
  unfold encrypt_stored_secrets, in_transaction, encryption_pass, mbind, M_bind.
  destruct (outcome w) eqn:Eo;
    [|(split; [done|]; intros Hq; by rewrite (quiet_outcome w Hq) in Eo)..].
  unfold lock_encryption_pass. rewrite storage_query_run.
  destruct (outcome (tick w)) eqn:Eo1;
    [|(split; [done|]; intros Hq; by rewrite (quiet_outcome _ (quiet_tick w Hq)) in Eo1)..].
  unfold stored_secrets. rewrite storage_query_run.
  destruct (outcome (tick (tick w))) eqn:Eo2;
    [|(split; [done|]; intros Hq;
       by rewrite (quiet_outcome _ (quiet_tick _ (quiet_tick w Hq))) in Eo2)..].
  change (sort_by _ _) with (secret_rows (db w)). rewrite all_opens_rows by done.
  cbn [unreadable sealed_on_entry Nat.add]. rewrite Hk. unfold mret, M_ret.
  destruct (outcome (tick (tick (tick w)))) eqn:Eo3; cbn [fst snd];
    (split; [done|]; intros Hq; try done);
    by rewrite (quiet_outcome _ (quiet_tick _ (quiet_tick _ (quiet_tick w Hq)))) in Eo3.
Qed.

(** *** Witnesses *)

(** A deployment rolled back to before it encrypted anything: a secret in
    plaintext beside a plain value. *)
Definition rolled_back : World :=
  mkWorld (mkDatabase {[1%Z := mkContent "hunter2" SECRET 5 7; 2%Z := mkContent "x" PLAIN 5 7]}
             {["/pw" := mkPathRow "/pw" 1 5 5; "/url" := mkPathRow "/url" 2 5 5]} 2 [] 0)
    [] (replicate 4 (Some Cipher.toy_nonce)) 1700000000123456789 (mkMetrics ∅ 0 0) [].

Lemma startup_seals_plaintext_secrets_witness :
  let run := encrypt_stored_secrets rolled_back in
  fst run = Ok tt ∧ paths (db (snd run)) = paths (db rolled_back).
Proof.
  intros run. split; [vm_compute; reflexivity|].
  refine (proj1 (startup_seals_plaintext_secrets rolled_back (snd run) _ _ _)).
  - unfold Put.good_entropy. apply Forall_replicate. by intros nonce [= <-].
  - intros id c. unfold rolled_back. cbn [db contents].
    intros [[<- <-]|[_ [<- <-]%lookup_singleton_Some]]%lookup_insert_Some; reflexivity.
  - vm_compute; reflexivity.
Defined.

Lemma startup_pass_is_idempotent_witness :
  fst (encrypt_stored_secrets Values.Sample.start) = Ok tt.
Proof.
  refine (proj2 (startup_pass_is_idempotent Values.Sample.start _) _).
  - apply sealed_empty.
  - vm_compute; constructor.
Defined.

(** One sealed secret, under a key the server does not have. *)
Definition foreign_key : World :=
  mkWorld (mkDatabase {[1%Z := mkContent "enc:v1:aaaa" SECRET 5 7]}
             {["/pw" := mkPathRow "/pw" 1 5 5]} 1 [] 0)
    [] [] 1700000000123456789 (mkMetrics ∅ 0 0) [].

Lemma wrong_key_changes_nothing_witness :
  ∃ e, fst (encrypt_stored_secrets foreign_key) = Err e
    ∧ same_tables (db foreign_key) (db (snd (encrypt_stored_secrets foreign_key))).
Proof.
  apply (wrong_key_changes_nothing foreign_key).
  - exists 1%Z, (mkContent "enc:v1:aaaa" SECRET 5 7). by split_and!.
  - intros id c (Hc & _ & _). unfold foreign_key in Hc. cbn [db contents] in Hc.
    apply lookup_singleton_Some in Hc as [<- <-]. vm_compute; reflexivity.
Defined.

End Startup.
