(* ===== verification/Locks.v ===== *)
(** * Locks of concurrent mutations

    Every mutation of [values/service.rs] first takes the advisory locks of
    [lock_mutation_path] (store.rs): shared on each ancestor of its path, from
    the root down, then exclusive on the path itself, all held to the end of
    the transaction.  The lock of a path is PostgreSQL's
    [hashtextextended] of its text, a parameter here.  Transactions compete for
    those locks as a step relation: mutations of nested paths exclude each
    other whatever the hash, mutations of one path each deadlock only when the
    hash confuses a path with a shallower one, and then they can; two aliasings
    can deadlock under any hash. *)

From stdpp Require Import strings.
From S2P Require Import Prelude Bytes ConfigPath Core Json Auth Encryption AuditEvent Rpc Database AuditTrail ValuePaths Store Invariant Values ValuesRead ValuesList.

Local Open Scope bytes_scope.

Module Locks.
Import Store Values Path Ancestors.

(** A lock request: the key, and whether it is exclusive. *)
Definition Request : Type := bytes * bool.

(** What [lock_mutation_path] requests for a fold key, in order. *)
Definition mutation_locks (fold : bytes) : list Request :=
  List.map (λ i, (render (take i (segments fold)), false)) (seq 0 (length (segments fold)))
  ++ [(fold, true)].

(** ** The code requests them *)

Lemma lock_path_requests p e u w w' : lock_path p e w = (Ok u, w') → locks w' = locks w ++ [(p, e)].
Proof.
  unfold lock_path. rewrite Reads.map_query_run. destruct (outcome w); [|done..]. by intros [= _ <-].
Qed.

Lemma lock_prefixes_requests segs : ∀ seen w u w',
  lock_prefixes (prefix_of_segments seen) segs w = (Ok u, w') →
  locks w' = locks w ++ List.map (λ i, (render (take i (seen ++ segs)), false))
                          (seq (S (length seen)) (length segs)).
Proof.
  induction segs as [|s segs IH]; intros seen w u w' Hrun; cbn [lock_prefixes] in Hrun; run_steps.
  { by rewrite app_nil_r. }
  match goal with Hl : lock_path _ _ _ = _ |- _ => apply lock_path_requests in Hl as Hl1 end.
  change (prefix_of_segments seen ++ ["/"%char] ++ s) with (prefix_of_segments seen ++ "/" ++ s) in *.
  rewrite prefix_snoc in *. apply IH in Hrun. rewrite Hrun, Hl1, <- app_assoc.
  rewrite length_app, Nat.add_comm. cbn [length Nat.add seq List.map app]. f_equal. f_equal.
  - assert (prefix_of_segments (seen ++ [s]) = render (seen ++ [s])) as -> by (by destruct seen).
    rewrite take_app_ge by lia. by replace (S (length seen) - length seen) with 1 by lia.
  - by rewrite <- app_assoc.
Qed.

(** Taking the locks of a mutation requests exactly a shared lock on every
    proper ancestor of the path's fold, from the root down, and then an
    exclusive lock on the fold itself, in whatever case the path is spelled. *)
Theorem mutations_lock_ancestors_then_path (p : ConfigPath) (w w' : World) (u : unit) :
  Canonical (path p) → lock_mutation_path p w = (Ok u, w') →
  locks w' = locks w ++ mutation_locks (to_ascii_lowercase (path p)).
Proof.
  intros (segs0 & Hs0 & Hp)%Canonical_lower Hrun.
  change (to_ascii_lowercase (path p)) with (Path.fold p) in *.
  unfold lock_mutation_path in Hrun. rewrite Hp in *. run_steps.
  match goal with Hl : lock_path _ true _ = _ |- _ => apply lock_path_requests in Hl as Hlast end.
  unfold mutation_locks. rewrite segments_render, Hlast, app_assoc by done. f_equal.
  destruct segs0 as [|s segs _] using rev_ind.
  { rewrite bool_decide_eq_true_2 in * by done. run_steps. cbn. by rewrite app_nil_r. }
  pose proof Hs0 as [Hsegs [Hs _]%Forall_cons]%Forall_app.
  rewrite bool_decide_eq_false_2 in * by (apply render_not_root; [by destruct segs|done]). run_steps.
  match goal with Hl : lock_path "/" false _ = _ |- _ => apply lock_path_requests in Hl as Hroot end.
  rewrite parent_path_render in * by done.
  rewrite length_app, Nat.add_comm. cbn [length Nat.add seq List.map]. rewrite take_0, render_nil.
  assert (∀ i, i ∈ seq 1 (length segs) → take i (segs ++ [s]) = take i segs) as Htake.
  { intros i Hi%elem_of_seq. by rewrite take_app_le by lia. }
  destruct segs as [|s' segs].
  - rewrite bool_decide_eq_true_2 in * by done. run_steps. by rewrite Hroot.
  - rewrite bool_decide_eq_false_2 in * by (by apply render_not_root).
    rewrite Json.trim_start_render, split_relative in * by done.
    match goal with Hl : lock_prefixes _ _ _ = _ |- _ =>
      apply (lock_prefixes_requests _ []) in Hl as Hpre end.
    rewrite Hpre, Hroot, <- app_assoc. cbn [app length]. f_equal. f_equal.
    apply map_ext_in. intros i Hi%list_elem_of_In. by rewrite Htake.
Qed.

Lemma mutations_lock_ancestors_then_path_witness :
  locks (snd (lock_mutation_path (mkPath "/Apps/Api/Url") Sample.start))
  = [("/", false); ("/apps", false); ("/apps/api", false); ("/apps/api/url", true)].
Proof.
  rewrite (mutations_lock_ancestors_then_path (mkPath "/Apps/Api/Url") Sample.start
    (snd (lock_mutation_path (mkPath "/Apps/Api/Url") Sample.start)) tt);
    [reflexivity|apply canonical_check; reflexivity|vm_compute; reflexivity].
Defined.

(** ** Competing transactions *)

(** The keys PostgreSQL locks: [hashtextextended(path, 0)], a 64-bit hash of
    the requested text, so two texts may contend as one. *)
Section competing.
Context (hashtextextended : bytes → Z).

(** PostgreSQL's rule: two requests for one key conflict unless both are
    shared. *)
Definition conflict (a b : Request) : Prop :=
  hashtextextended (fst a) = hashtextextended (fst b) ∧ (snd a || snd b = true).

#[global] Instance conflict_dec a b : Decision (conflict a b).
Proof. unfold conflict. apply _. Defined.

#[global] Instance conflict_sym : Symmetric conflict.
Proof. intros [k x] [k' y] [E H]. split; [done|]. cbn in *. by rewrite orb_comm. Qed.

(** A transaction: the locks it holds and those it has yet to request. *)
Record Tx := mkTx { held : list Request; wanted : list Request }.

Inductive step : list Tx → list Tx → Prop :=
| step_grant before tx after r rest :
    wanted tx = r :: rest →
    (∀ other x, other ∈ before ++ after → x ∈ held other → ¬ conflict r x) →
    step (before ++ tx :: after) (before ++ mkTx (held tx ++ [r]) rest :: after)
| step_end before tx after :
    wanted tx = [] → step (before ++ tx :: after) (before ++ after).

(** The transactions of mutations, each on the requests of its program. *)
Definition started (programs : list (list Request)) : list Tx := List.map (mkTx []) programs.

(** Held locks never conflict across transactions. *)
Definition exclusive_inv (txs : list Tx) : Prop :=
  ForallOrdPairs (λ t u, ∀ x y, x ∈ held t → y ∈ held u → ¬ conflict x y) txs.

Lemma exclusive_inv_split before t after :
  exclusive_inv (before ++ t :: after) ↔
  exclusive_inv (before ++ after)
  ∧ ∀ u x y, u ∈ before ++ after → x ∈ held t → y ∈ held u → ¬ conflict x y.
Proof.
  unfold exclusive_inv.
  assert (Symmetric (λ t u, ∀ x y, x ∈ held t → y ∈ held u → ¬ conflict x y)) as Hsym.
  { intros a b Hab x y Hx Hy Hc. by eapply Hab; [..|by apply conflict_sym]. }
  split.
  - intros Hf. apply (FOP_perm _ _ (t :: before ++ after)) in Hf;
      [|by rewrite Permutation_middle]. apply FOP_cons_iff in Hf as [Ht Hf]. split; [done|].
    rewrite Forall_forall in Ht. eauto.
  - intros [Hf Ht]. apply (FOP_perm _ (t :: before ++ after)); [by rewrite Permutation_middle|].
    apply FOP_cons_iff. split; [|done]. apply Forall_forall. eauto.
Qed.

Lemma exclusive_step txs txs' : exclusive_inv txs → step txs txs' → exclusive_inv txs'.
Proof.
  intros Hi Hs. destruct Hs as [before tx after r rest Hw Hr|before tx after Hw];
    apply exclusive_inv_split in Hi as [Hi Ht]; [|done].
  apply exclusive_inv_split. split; [done|]. cbn [held].
  intros u x y Hu [Hx|Hx%list_elem_of_singleton]%elem_of_app Hy; subst; eauto.
Qed.

(** Each transaction runs one of the programs: what it holds followed by what
    it wants. *)
Definition programs_inv (programs : list (list Request)) (txs : list Tx) : Prop :=
  Forall (λ t, held t ++ wanted t ∈ programs) txs.

Lemma programs_step programs txs txs' :
  programs_inv programs txs → step txs txs' → programs_inv programs txs'.
Proof.
  unfold programs_inv. intros Hi Hs.
  destruct Hs as [before tx after r rest Hw Hr|before tx after Hw];
    rewrite Forall_app, Forall_cons in Hi; destruct Hi as (Hb & Ht & Ha); rewrite Forall_app.
  - rewrite Forall_cons. split_and!; [done| |done]. cbn [held wanted]. rewrite <- app_assoc. cbn.
    by rewrite <- Hw.
  - done.
Qed.

Lemma reachable_inv programs txs :
  rtc step (started programs) txs → exclusive_inv txs ∧ programs_inv programs txs.
Proof.
  assert (∀ t1 t2, rtc step t1 t2 → exclusive_inv t1 ∧ programs_inv programs t1 →
            exclusive_inv t2 ∧ programs_inv programs t2) as Hgen.
  { induction 1 as [|t1 t2 t3 Hs _ IH]; [done|]. intros [H1 H2]. apply IH.
    split; [by eapply exclusive_step|by eapply programs_step]. }
  intros Hr. apply (Hgen _ _ Hr). unfold started. split.
  - clear Hr Hgen. unfold exclusive_inv. rewrite FOP_map. cbn [held].
    induction programs as [|p ps IH]; [constructor|]. constructor; [|done]. apply Forall_forall.
    by intros q _ x y []%not_elem_of_nil.
  - apply Forall_map_iff, Forall_forall. intros p Hp. done.
Qed.

(** ** Exclusion *)

Lemma elem_of_mutation_locks fold k e :
  Canonical fold →
  (k, e) ∈ mutation_locks fold ↔
  Canonical k ∧ AtOrBelow fold k ∧ (e = true ↔ k = fold).
Proof.
  intros (segs & Hs & ->). unfold mutation_locks. rewrite segments_render by done.
  rewrite elem_of_app, list_elem_of_singleton, list_elem_of_In, in_map_iff. split.
  - intros [(i & [= <- <-] & [_ Hi]%in_seq)|[= -> ->]].
    + assert (Forall Segment (take i segs)) by (by apply Forall_take).
      split; [by apply render_canonical|]. split.
      * apply AtOrBelow_segments; [by apply render_canonical..|]. rewrite !segments_render by done.
        apply prefix_take.
      * split; [done|]. intros E%render_inj; [|done..]. apply (f_equal length) in E.
        rewrite length_take in E. lia.
    + split; [by apply render_canonical|]. split; [apply AtOrBelow_refl|done].
  - intros (Hk & Hb & He). destruct (decide (k = render segs)) as [->|Hne].
    { right. by rewrite (proj2 He). }
    left. destruct Hk as (ks & Hks & ->).
    apply AtOrBelow_segments in Hb; [|by apply render_canonical..].
    rewrite !segments_render in Hb by done. destruct Hb as [rest ->].
    exists (length ks). rewrite take_app_length. split.
    + f_equal. destruct e; [|done]. exfalso. by apply Hne, He.
    + apply in_seq. rewrite length_app. destruct rest; [|cbn; lia]. by rewrite app_nil_r in Hne.
Qed.

(** Mutual exclusion: however any number of concurrent mutations take
    their locks, two transactions that hold all the locks of their paths at
    once mutate paths of which neither is at or below the other. *)
Theorem nested_mutations_exclude_each_other (folds : list bytes) (txs : list Tx)
    (before between after : list Tx) (p q : bytes) :
  rtc step (started (List.map mutation_locks folds)) txs →
  txs = before ++ mkTx (mutation_locks p) [] :: between ++ mkTx (mutation_locks q) [] :: after →
  Canonical p → Canonical q →
  ~ AtOrBelow p q /\ ~ AtOrBelow q p.
Proof.
  intros [Hi _]%reachable_inv -> Hp Hq. apply exclusive_inv_split in Hi as [_ Hi].
  assert (∀ x y, x ∈ mutation_locks p → y ∈ mutation_locks q → ¬ conflict x y) as Hno.
  { intros x y Hx Hy. apply (Hi (mkTx (mutation_locks q) [])); [|exact Hx|exact Hy].
    apply elem_of_app; right. apply elem_of_app; right. by left. }
  split; intros Hb.
  - apply (Hno (q, bool_decide (q = p)) (q, true)).
    + apply elem_of_mutation_locks; [done|]. by rewrite bool_decide_eq_true.
    + apply elem_of_mutation_locks; [done|]. split_and!; [done|apply AtOrBelow_refl|done].
    + split; [done|]. by rewrite orb_true_r.
  - apply (Hno (p, true) (p, bool_decide (p = q))).
    + apply elem_of_mutation_locks; [done|]. split_and!; [done|apply AtOrBelow_refl|done].
    + apply elem_of_mutation_locks; [done|]. by rewrite bool_decide_eq_true.
    + by split.
Qed.

End competing.

(** A hash without collisions, for the samples: the text read as a number. *)
Definition text_number (s : bytes) : Z := foldl (λ n c, n * 256 + Z.of_N (Ascii.N_of_ascii c))%Z 1%Z s.

(** Grants the next lock of the transaction after [before]. *)
Ltac grant before after :=
  eapply rtc_l;
  [eapply (step_grant _ before _ after); [reflexivity|];
   intros other x Hin Hx [Hk He]; cbn [app] in Hin;
   repeat (apply elem_of_cons in Hin as [->|Hin]); [..|by apply not_elem_of_nil in Hin];
   cbn [held] in Hx; repeat (apply elem_of_cons in Hx as [->|Hx]);
   try (by apply not_elem_of_nil in Hx); vm_compute in Hk, He; congruence|];
  cbn [app held].

Lemma nested_mutations_exclude_each_other_witness :
  rtc (step text_number) (started (List.map mutation_locks ["/a"; "/b"]))
    [mkTx (mutation_locks "/a") []; mkTx (mutation_locks "/b") []]
  /\ ~ AtOrBelow "/a" "/b".
Proof.
  assert (rtc (step text_number) (started (List.map mutation_locks ["/a"; "/b"]))
    [mkTx (mutation_locks "/a") []; mkTx (mutation_locks "/b") []]) as Hr.
  { do 2 grant (@nil Tx) [mkTx [] (mutation_locks "/b")].
    do 2 grant [mkTx (mutation_locks "/a") []] (@nil Tx). apply rtc_refl. }
  split; [exact Hr|].
  refine (proj1 (nested_mutations_exclude_each_other text_number ["/a"; "/b"] _ [] [] [] "/a" "/b" Hr eq_refl _ _));
    apply canonical_check; reflexivity.
Defined.

(** ** Freedom from deadlock *)

(** Requests go down the tree: each key has more segments than the last. *)
Definition depth (r : Request) : nat := length (segments (fst r)).
Definition descending (l : list Request) : Prop := StronglySorted (λ a b, depth a < depth b) l.

Lemma mutation_locks_descending fold : Canonical fold → descending (mutation_locks fold).
Proof.
  intros (segs & Hs & ->). unfold mutation_locks, descending. rewrite segments_render by done.
  assert (∀ i, i ≤ length segs → depth (render (take i segs), false) = i) as Hd.
  { intros i Hi. unfold depth. cbn [fst]. rewrite segments_render by (by apply Forall_take).
    rewrite length_take. lia. }
  assert (∀ n m, m + n ≤ length segs →
    StronglySorted (λ a b, depth a < depth b)
      (List.map (λ i, (render (take i segs), false)) (seq m n))) as Hseq.
  { induction n as [|n IH]; intros m Hm; cbn [seq List.map]; [constructor|].
    constructor; [apply IH; lia|]. apply Forall_map_iff, Forall_forall.
    intros j Hj%elem_of_seq. rewrite !Hd by lia. lia. }
  apply StronglySorted_app. split; [|split; [by apply Hseq|by repeat constructor]].
  intros x y Hx ->%list_elem_of_singleton.
  apply list_elem_of_In, in_map_iff in Hx as (i & <- & [_ Hi]%in_seq). cbn [Nat.add] in Hi.
  rewrite Hd by lia. unfold depth. cbn [fst]. by rewrite segments_render.
Qed.

Lemma of_a_mutation (folds : list bytes) (l : list Request) :
  l ∈ List.map mutation_locks folds → ∃ f, f ∈ folds ∧ l = mutation_locks f.
Proof. intros (f & <- & Hin)%list_elem_of_In%in_map_iff. exists f. by rewrite list_elem_of_In. Qed.

(** Some transaction waits for the deepest key. *)
Lemma deepest_wait (txs : list Tx) :
  Forall (λ t, wanted t ≠ []) txs → txs ≠ [] →
  ∃ before t after r rest, txs = before ++ t :: after ∧ wanted t = r :: rest
    ∧ ∀ u r' rest', u ∈ txs → wanted u = r' :: rest' → depth r' ≤ depth r.
Proof.
  induction txs as [|t txs IH]; [done|]. intros [Ht Hall]%Forall_cons _.
  destruct (wanted t) as [|r rest] eqn:Ew; [done|].
  destruct (decide (txs = [])) as [->|Hne].
  { exists [], t, [], r, rest. split_and!; [done|done|].
    intros u r' rest' ->%list_elem_of_singleton Hu. rewrite Ew in Hu. by injection Hu as <- <-. }
  destruct (IH Hall Hne) as (before & u & after & r1 & rest1 & -> & Hu & Hmax).
  destruct (le_lt_dec (depth r) (depth r1)) as [Hle|Hlt].
  - exists (t :: before), u, after, r1, rest1. split_and!; [done|done|].
    intros v r' rest' [->|Hv]%elem_of_cons Hw; [|by eapply Hmax].
    rewrite Ew in Hw. by injection Hw as <- <-.
  - exists [], t, (before ++ u :: after), r, rest. split_and!; [done|done|].
    intros v r' rest' [->|Hv]%elem_of_cons Hw.
    + rewrite Ew in Hw. by injection Hw as <- <-.
    + pose proof (Hmax v r' rest' Hv Hw). lia.
Qed.

(** C40: however any number of concurrent puts, deletes and replacements take
    the locks of their paths: as long as one is unfinished some transaction can
    take its next lock or end, unless the hash that names the locks gives one
    key to two of the paths they lock, one of them shallower than the other. *)
Theorem single_path_mutations_never_deadlock (hash : bytes → Z) (folds : list bytes) (txs : list Tx) :
  Forall Canonical folds → rtc (step hash) (started (List.map mutation_locks folds)) txs →
  txs = [] ∨ (∃ txs', step hash txs txs')
  ∨ ∃ f g a b, f ∈ folds ∧ g ∈ folds ∧ a ∈ mutation_locks f ∧ b ∈ mutation_locks g
      ∧ depth a < depth b ∧ hash (fst a) = hash (fst b).
Proof.
  intros Hc [_ Hi]%reachable_inv. destruct (decide (txs = [])) as [->|Hne]; [by left|right].
  destruct (decide (Forall (λ t, wanted t ≠ []) txs)) as [Hall|Hsome].
  2:{ apply not_Forall_Exists in Hsome; [|apply _].
      apply Exists_exists in Hsome as (t & Hin & Hw). left.
      apply list_elem_of_split in Hin as (before & after & ->). exists (before ++ after).
      apply step_end. destruct (wanted t) eqn:Ew; [done|]. exfalso. apply Hw. congruence. }
  destruct (deepest_wait txs Hall Hne) as (before & t & after & r & rest & -> & Hw & Hmax).
  destruct (decide (Exists (λ u, Exists (conflict hash r) (held u)) (before ++ after))) as [Hex|Hfree].
  - right. apply Exists_exists in Hex as (u & Hu & (x & Hx & [Hk _])%Exists_exists).
    assert (u ∈ before ++ t :: after) as Hu' by set_solver.
    unfold programs_inv in Hi. rewrite Forall_forall in Hi, Hall.
    destruct (wanted u) as [|r' rest'] eqn:Ewu; [by destruct (Hall u Hu')|].
    destruct (of_a_mutation folds _ (Hi u Hu')) as (f & Hf & Ef).
    destruct (of_a_mutation folds _ (Hi t ltac:(set_solver))) as (g & Hg & Eg).
    rewrite Forall_forall in Hc. pose proof (mutation_locks_descending f (Hc f Hf)) as Hd.
    rewrite <- Ef, Ewu in Hd. apply StronglySorted_app in Hd as (Hd & _ & _).
    pose proof (Hd x r' Hx ltac:(by left)) as Hlt. pose proof (Hmax u r' rest' Hu' Ewu) as Hle.
    exists f, g, x, r. rewrite <- Ef, <- Eg, Hw. split_and!; [done|done|set_solver|set_solver|lia|done].
  - left. exists (before ++ mkTx (held t ++ [r]) rest :: after). apply step_grant; [done|].
    intros u x Hu Hx Hk. apply Hfree, Exists_exists. exists u. split; [done|]. apply Exists_exists. eauto.
Qed.

Lemma single_path_mutations_never_deadlock_witness :
  ∃ txs', step text_number (started (List.map mutation_locks ["/a"; "/a/b"])) txs'.
Proof.
  destruct (single_path_mutations_never_deadlock text_number ["/a"; "/a/b"]
    (started (List.map mutation_locks ["/a"; "/a/b"]))) as [E|[Hs|(f & g & a & b & Hf & Hg & Ha & Hb & Hdeep & E)]];
    [| |done|exact Hs|].
  - repeat constructor; apply canonical_check; reflexivity.
  - apply rtc_refl.
  - exfalso. revert E Hdeep.
    repeat (apply elem_of_cons in Hf as [->|Hf]); repeat (apply elem_of_cons in Hg as [->|Hg]);
      try (by apply not_elem_of_nil in Hf); try (by apply not_elem_of_nil in Hg);
      cbn in Ha, Hb; repeat (apply elem_of_cons in Ha as [->|Ha]); repeat (apply elem_of_cons in Hb as [->|Hb]);
      try (by apply not_elem_of_nil in Ha); try (by apply not_elem_of_nil in Hb); vm_compute; (lia || discriminate).
Defined.

(** ** Aliasing *)

(** What [add_value_path] requests: both paths, the lesser first. *)
Definition alias_locks (source new_path : ConfigPath) : list Request :=
  let '(first, second) := if Path.le source new_path then (source, new_path)
                          else (new_path, source) in
  mutation_locks (Path.fold first) ++ mutation_locks (Path.fold second).

(** Two transactions that each want what the other holds are stuck. *)
Lemma two_stuck hash t u r r' x y rest rest' txs' :
  wanted t = r :: rest → wanted u = r' :: rest' → x ∈ held u → y ∈ held t →
  conflict hash r x → conflict hash r' y → ¬ step hash [t; u] txs'.
Proof.
  intros Hw Hw' Hx Hy Hc Hc' Hs. remember [t; u] as txs eqn:E.
  destruct Hs as [before tx after q others Hq Hr|before tx after Hq];
    destruct before as [|b1 [|b2 [|b3 before]]]; cbn [app] in E; try (by simplify_list_eq);
    injection E as; subst; try congruence.
  - rewrite Hw in Hq. injection Hq as <- <-. apply (Hr u x); [by left|done|done].
  - rewrite Hw' in Hq. injection Hq as <- <-. apply (Hr t y); [by left|done|done].
Qed.

(** Two aliasings can deadlock: the lesser path is locked first, but an
    ancestor of the greater may be less than it.  Aliasing [/a/b] with [/a-c]
    holds [/a-c] and waits for [/a], while aliasing [/a] with [/a-c] holds
    [/a] and waits for [/a-c]. *)
Theorem aliasings_can_deadlock :
  ∃ txs,
    rtc (step text_number) (started [alias_locks (mkPath "/a/b") (mkPath "/a-c");
                                     alias_locks (mkPath "/a") (mkPath "/a-c")]) txs
    ∧ txs ≠ [] ∧ ∀ txs', ¬ step text_number txs txs'.
Proof.
  set (t1 := mkTx [("/", false); ("/a-c", true); ("/", false)] [("/a", false); ("/a/b", true)]).
  set (t2 := mkTx [("/", false); ("/a", true); ("/", false)] [("/a-c", true)]).
  exists [t1; t2]. split_and!; [|done|].
  - do 3 grant (@nil Tx) [mkTx [] (alias_locks (mkPath "/a") (mkPath "/a-c"))].
    do 3 grant [t1] (@nil Tx). apply rtc_refl.
  - intros txs'. by apply (two_stuck _ t1 t2 ("/a", false) ("/a-c", true) ("/a", true) ("/a-c", true)
      [("/a/b", true)] []); [done|done|right; left|right; left|..].
Qed.

(** Two writes of [/a/b] deadlock when its hash is the one of [/a]: both hold
    that lock shared, and neither gets it exclusively. *)
Theorem colliding_hashes_can_deadlock :
  ∃ hash txs,
    rtc (step hash) (started [mutation_locks "/a/b"; mutation_locks "/a/b"]) txs
    ∧ txs ≠ [] ∧ ∀ txs', ¬ step hash txs txs'.
Proof.
  set (t := mkTx [("/", false); ("/a", false)] [("/a/b", true)]).
  exists (λ s, text_number (if bool_decide (s = "/a/b") then "/a" else s)), [t; t]. split_and!; [|done|].
  - do 2 grant (@nil Tx) [mkTx [] (mutation_locks "/a/b")].
    do 2 grant [t] (@nil Tx). apply rtc_refl.
  - intros txs'. by apply (two_stuck _ t t ("/a/b", true) ("/a/b", true) ("/a", false) ("/a", false) [] []);
      [done|done|right; left|right; left|..].
Qed.

End Locks.
