(* ===== verification/ConnectionUrl.v ===== *)
(** * Connection URLs

    Models [crates/sovereign-config-core/src/connection.rs]: the canonical
    version-1 connection URL, its parser and the builder of a managed
    connection's URL.  The [url], [form_urlencoded] and [base64] crates are
    third-party code: operations of the class [UrlCrates], whose documented
    behaviour is the class [UrlLaws].  [IpAddr::from_str], of the standard
    library, is written out. *)

From S2P Require Import Prelude Bytes ConfigPath Core Encryption.

Local Open Scope bytes_scope.

(** ** What the crates provide *)

(** What the source reads of a parsed [Url]. *)
Record Url := mkUrl {
  u_scheme : bytes; u_host_str : option bytes; u_username : bytes; u_password : option bytes;
  u_path : bytes; u_query : option bytes; u_fragment : option bytes;
  u_origin : bytes;                 (* [origin().ascii_serialization()] *)
  u_as_str : bytes }.

Class UrlCrates := {
  url_parse : bytes → option Url;
  form_parse : bytes → list (bytes * bytes);
  form_serialize : list (bytes * bytes) → bytes;
  b64url_encode : bytes → bytes;
  b64url_decode : bytes → option bytes;
  b64std_encode : bytes → bytes }.

(** The behaviour the crates document: the form codec round trips and escapes
    everything but unreserved characters, the origin of a URL with a host is
    its scheme and authority, and base64 round trips. *)
Class UrlLaws `{UrlCrates} := {
  form_round_trip l : form_parse (form_serialize l) = l;
  form_escapes l : "#"%char ∉ form_serialize l;
  origin_shape text u : url_parse text = Some u → u_host_str u ≠ None →
    ∃ authority, u_origin u = u_scheme u ++ "://" ++ authority
      ∧ "/"%char ∉ u_scheme u ∧ "/"%char ∉ authority ∧ "#"%char ∉ u_scheme u ∧ "#"%char ∉ authority;
  b64url_round_trip b : b64url_decode (b64url_encode b) = Some b;
  b64url_alphabet b : "*"%char ∉ b64url_encode b }.

(** ** [IpAddr::from_str] and [is_loopback] *)

Module Ip.

Definition digit_value (radix : Z) (c : ascii) : option Z :=
  let v := (if is_ascii_digit c then code c - 48
            else if is_ascii_lowercase c then code c - 87
            else if is_ascii_uppercase c then code c - 55
            else radix)%Z in
  if (v <? radix)%Z then Some v else None.

(** Reads digits, at most [max] of them, below [bound]: the value, how many
    digits were read, and the rest; [None] when the number is too long or too
    large. *)
Fixpoint read_digits (radix bound : Z) (max : nat) (acc : Z) (count : nat) (s : bytes)
  : option (Z * nat * bytes) :=
  match s with
  | c :: s' =>
      match digit_value radix c with
      | Some d =>
          let acc' := (acc * radix + d)%Z in
          if (bound <=? acc')%Z || (max <=? count)%nat then None
          else read_digits radix bound max acc' (S count) s'
      | None => Some (acc, count, s)
      end
  | [] => Some (acc, count, [])
  end.

Definition read_number (radix bound : Z) (max : nat) (allow_zero_prefix : bool) (s : bytes)
  : option (Z * bytes) :=
  match read_digits radix bound max 0 0 s with
  | Some (v, count, rest) =>
      if (count =? 0)%nat then None
      else if negb allow_zero_prefix && starts_with s "0" && (1 <? count)%nat then None
      else Some (v, rest)
  | None => None
  end.

Definition read_char (c : ascii) (s : bytes) : option bytes := strip_prefix [c] s.

(** [read_separator]: the separator precedes every element but the first. *)
Definition read_separator {A} (sep : ascii) (index : nat) (f : bytes → option (A * bytes))
    (s : bytes) : option (A * bytes) :=
  if (0 <? index)%nat then match read_char sep s with Some s' => f s' | None => None end else f s.

Definition octet : bytes → option (Z * bytes) := read_number 10 256 3 false.

Definition read_ipv4 (s : bytes) : option (list Z * bytes) :=
  match read_separator "."%char 0 octet s with
  | None => None
  | Some (a, s) =>
      match read_separator "."%char 1 octet s with
      | None => None
      | Some (b, s) =>
          match read_separator "."%char 2 octet s with
          | None => None
          | Some (c, s) =>
              match read_separator "."%char 3 octet s with
              | None => None
              | Some (d, s) => Some ([a; b; c; d], s)
              end
          end
      end
  end.

(** [read_groups]: up to [left] sixteen-bit groups, the last two of which may
    be an IPv4 address; [index] groups were read before. *)
Fixpoint read_groups (left index : nat) (s : bytes) : list Z * bool * bytes :=
  match left with
  | O => ([], false, s)
  | S left' =>
      match (if (0 <? left')%nat then read_separator ":"%char index read_ipv4 s else None) with
      | Some ([a; b; c; d], s') => ([a * 256 + b; c * 256 + d]%Z, true, s')
      | _ =>
          match read_separator ":"%char index (read_number 16 65536 4 true) s with
          | Some (g, s') => let '(gs, v4, rest) := read_groups left' (S index) s' in (g :: gs, v4, rest)
          | None => ([], false, s)
          end
      end
  end.

Definition read_ipv6 (s : bytes) : option (list Z * bytes) :=
  let '(head, v4, s1) := read_groups 8 0 s in
  if (length head =? 8)%nat then Some (head, s1)
  else if v4 then None
  else match strip_prefix "::" s1 with
       | None => None
       | Some s2 =>
           let '(tail, _, s3) := read_groups (8 - (length head + 1)) 0 s2 in
           Some (head ++ repeat 0%Z (8 - length head - length tail) ++ tail, s3)
       end.

(** [host.parse::<IpAddr>().ok().is_some_and(is_loopback)]: an IPv4 address of
    127.0.0.0/8 or the IPv6 address ::1, and nothing after it. *)
Definition is_loopback (s : bytes) : bool :=
  match read_ipv4 s with
  | Some (octets, rest) => is_empty rest && bool_decide (head octets = Some 127%Z)
  | None =>
      match read_ipv6 s with
      | Some (groups, rest) => is_empty rest && bool_decide (groups = [0; 0; 0; 0; 0; 0; 0; 1]%Z)
      | None => false
      end
  end.

Example loopbacks :
  List.map is_loopback ["127.0.0.1"; "127.1.2.3"; "::1"; "0:0::0:1"; "128.0.0.1"; "127.0.0.01";
                        "127.0.0.1x"; "[::1]"; "localhost"; "::ffff:127.0.0.1"; "::0.0.0.1"]
  = [true; true; true; true; false; false; false; false; false; false; true].
Proof. vm_compute. reflexivity. Qed.

End Ip.

(** ** connection.rs *)

Module Connection.

Definition FORMAT_VERSION : bytes := "1".

Record ConnectionUrl := mkConnectionUrl {
  canonical : Secret; endpoint : bytes; cu_root : ConfigPath; issuer : bytes;
  client_id : bytes; client_authentication : option Secret }.

Inductive ConnectionUrlError := connection_url_error.

Definition check (b : bool) : result unit ConnectionUrlError :=
  if b then Ok tt else Err connection_url_error.

Definition client_id_byte (c : ascii) : bool :=
  is_ascii_alphanumeric c || bool_decide (c ∈ ["-"; "."; "_"; "~"]%char).

Definition valid_secure_origin (url : Url) : bool :=
  bool_decide (u_host_str url ≠ None)
  && (bool_decide (u_scheme url = "https")
      || (bool_decide (u_scheme url = "http")
          && match u_host_str url with Some host => Ip.is_loopback host | None => false end)).

Definition validate_endpoint (url : Url) : result unit ConnectionUrlError :=
  if negb (valid_secure_origin url) || negb (is_empty (u_username url))
     || bool_decide (u_password url ≠ None) || bool_decide (u_query url ≠ None)
  then Err connection_url_error else Ok tt.

Definition parse_root (path : bytes) : result ConfigPath ConnectionUrlError :=
  map_err (Path.parse path) (λ _, connection_url_error).

(** The four slots the fragment's pairs fill. *)
Record Fields := mkFields {
  f_version : option bytes; f_issuer : option bytes; f_client_id : option bytes;
  f_client_secret : option bytes }.
Definition no_fields : Fields := mkFields None None None None.

Definition fill (slot : option bytes) (value : bytes) : result (option bytes) ConnectionUrlError :=
  match slot with Some _ => Err connection_url_error | None => Ok (Some value) end.

Definition field (fs : Fields) (pair : bytes * bytes) : result Fields ConnectionUrlError :=
  let '(key, value) := pair in
  if bool_decide (key = "v") then
    let? v := fill (f_version fs) value in
    Ok (mkFields v (f_issuer fs) (f_client_id fs) (f_client_secret fs))
  else if bool_decide (key = "issuer") then
    let? v := fill (f_issuer fs) value in
    Ok (mkFields (f_version fs) v (f_client_id fs) (f_client_secret fs))
  else if bool_decide (key = "client_id") then
    let? v := fill (f_client_id fs) value in
    Ok (mkFields (f_version fs) (f_issuer fs) v (f_client_secret fs))
  else if bool_decide (key = "client_secret") then
    let? v := fill (f_client_secret fs) value in
    Ok (mkFields (f_version fs) (f_issuer fs) (f_client_id fs) v)
  else Err connection_url_error.

Section urls.
Context `{UrlCrates}.

Definition canonical_issuer (value : bytes) : result bytes ConnectionUrlError :=
  let? issuer := ok_or (url_parse value) connection_url_error in
  if negb (valid_secure_origin issuer) || negb (is_empty (u_username issuer))
     || bool_decide (u_password issuer ≠ None) || bool_decide (u_query issuer ≠ None)
     || bool_decide (u_fragment issuer ≠ None) || negb (ends_with (u_path issuer) "/")
  then Err connection_url_error
  else if bool_decide (u_as_str issuer = value) then Ok (u_as_str issuer)
  else Err connection_url_error.

Definition parse_client_authentication (value : bytes) : result Secret ConnectionUrlError :=
  if is_empty value || contains_byte "="%char value then Err connection_url_error
  else
    let? decoded := ok_or (b64url_decode value) connection_url_error in
    if negb (bool_decide (b64url_encode decoded = value)) then Err connection_url_error
    else if negb (from_utf8_ok decoded) then Err connection_url_error
    else
      let? parts := ok_or (split_once ":"%char decoded) connection_url_error in
      let '(username, password) := parts in
      if is_empty username || is_empty password || existsb is_ascii_control decoded
      then Err connection_url_error
      else Ok (mkSecret (b64std_encode decoded)).

Definition serialize (endpoint : bytes) (root : ConfigPath) (issuer client_id : bytes)
    (client_secret : option bytes) : bytes :=
  let redacted := bool_decide (client_secret = Some "*") in
  let pairs := [("v" : bytes, FORMAT_VERSION); ("issuer" : bytes, issuer);
                ("client_id" : bytes, client_id)]
               ++ (if redacted then []
                   else match client_secret with
                        | Some secret => [("client_secret" : bytes, secret)]
                        | None => []
                        end) in
  endpoint ++ Path.fold root ++ "#" ++ form_serialize pairs
  ++ (if redacted then "&client_secret=*" else []).

Definition parse (value : bytes) : result ConnectionUrl ConnectionUrlError :=
  let? url := ok_or (url_parse value) connection_url_error in
  let? _ := validate_endpoint url in
  let? root := parse_root (u_path url) in
  let? fragment := ok_or (u_fragment url) connection_url_error in
  let? fields := fold_result field no_fields (form_parse fragment) in
  let? _ := check (bool_decide (f_version fields = Some FORMAT_VERSION)) in
  let? raw_issuer := ok_or (f_issuer fields) connection_url_error in
  let? issuer := canonical_issuer raw_issuer in
  let? client_id := ok_or (f_client_id fields) connection_url_error in
  let? _ := check (negb (is_empty client_id) && forallb client_id_byte client_id) in
  let? authentication :=
    match f_client_secret fields with
    | None => Ok None
    | Some secret => let? a := parse_client_authentication secret in Ok (Some a)
    end in
  let endpoint := u_origin url in
  let canonical := serialize endpoint root issuer client_id (f_client_secret fields) in
  let? _ := check (bool_decide (canonical = value)) in
  Ok (mkConnectionUrl (mkSecret canonical) endpoint root issuer client_id authentication).

Definition managed (public_origin : bytes) (root : ConfigPath) (issuer client_id username : bytes)
    (app_password : Secret) : result ConnectionUrl ConnectionUrlError :=
  let? origin := ok_or (url_parse public_origin) connection_url_error in
  let? _ := check (bool_decide (u_path origin = "/") && bool_decide (u_fragment origin = None)) in
  let? _ := validate_endpoint origin in
  let endpoint := u_origin origin in
  let? _ := check (bool_decide (endpoint = trim_end_matches "/"%char public_origin)) in
  let? _ := check (negb (contains_byte ":"%char username)) in
  let client_secret := b64url_encode (username ++ ":" ++ expose_secret app_password) in
  parse (serialize endpoint root issuer client_id (Some client_secret)).

Definition redacted (c : ConnectionUrl) : bytes :=
  serialize (endpoint c) (cu_root c) (issuer c) (client_id c)
    (match client_authentication c with Some _ => Some "*" | None => None end).



Definition fmt_display (c : ConnectionUrl) : bytes := redacted c.
End urls.

(** ** Lemmas *)

Lemma app_first_inj (c : ascii) (a a' b b' : bytes) :
  c ∉ a → c ∉ a' → a ++ c :: b = a' ++ c :: b' → a = a' ∧ b = b'.
Proof.
  intros Ha Ha' E.
  assert (split_once c (a ++ c :: b) = Some (a, b)) as H1 by (by apply split_once_spec).
  assert (split_once c (a ++ c :: b) = Some (a', b')) as H2 by (rewrite E; by apply split_once_spec).
  by simplify_eq.
Qed.

(** The origin of a URL with a host: scheme and authority. *)
Definition Origin (e : bytes) : Prop :=
  ∃ scheme authority, e = scheme ++ "://" ++ authority
    ∧ "/"%char ∉ scheme ∧ "/"%char ∉ authority ∧ "#"%char ∉ scheme ∧ "#"%char ∉ authority.

(** An origin followed by an absolute path determines both. *)
Lemma origin_path_inj e e' p p' :
  Origin e → Origin e' → e ++ "/" ++ p = e' ++ "/" ++ p' → e = e' ∧ p = p'.
Proof.
  intros (s & a & -> & Hs & Ha & _) (s' & a' & -> & Hs' & Ha' & _) E.
  assert (∀ x y z : bytes, (x ++ "://" ++ y) ++ "/" ++ z
                           = (x ++ ":") ++ "/"%char :: [] ++ "/"%char :: y ++ "/"%char :: z) as R
    by (intros; by rewrite <- !app_assoc).
  rewrite !R in E. apply app_first_inj in E as [E1 E]; [|set_solver..].
  apply app_first_inj in E as [_ E]; [|set_solver..].
  apply app_first_inj in E as [-> ->]; [|done..].
  apply app_inj_tail in E1 as [-> _]. done.
Qed.

Lemma Canonical_hash_free p : Path.Canonical p → "#"%char ∉ p.
Proof.
  intros (segs & Hs & ->). unfold Path.render. intros [?|H]%elem_of_app; [set_solver|].
  revert H.
  induction Hs as [|x segs [_ Hx] Hs IH]; [by intros ?%not_elem_of_nil|].
  assert ("#"%char ∉ x) as Hn.
  { intros Hin. rewrite Forall_forall in Hx. by apply Hx in Hin. }
  destruct segs as [|y segs]; [done|]. rewrite join_cons. rewrite !elem_of_app. set_solver.
Qed.

Lemma Canonical_slash p : Path.Canonical p → ∃ r, p = "/" ++ r.
Proof. intros (segs & _ & ->). by eexists. Qed.

Section laws.
Context `{UrlLaws}.

Lemma form_serialize_inj l l' : form_serialize l = form_serialize l' → l = l'.
Proof. intros E%(f_equal form_parse). by rewrite !form_round_trip in E. Qed.

Lemma Origin_hash_free e : Origin e → "#"%char ∉ e.
Proof. intros (s & a & -> & ? & ? & ? & ?). set_solver. Qed.

(** A serialized URL that is not redacted determines its parts. *)
Lemma serialize_inj e e' r r' i i' c c' s s' :
  Origin e → Origin e' → Path.Canonical (path r) → Path.Canonical (path r') →
  s ≠ "*" → s' ≠ Some "*" →
  serialize e r i c (Some s) = serialize e' r' i' c' s' →
  e = e' ∧ Path.fold r = Path.fold r' ∧ i = i' ∧ c = c' ∧ s' = Some s.
Proof.
  intros He He' Hr Hr' Hs Hs' E. unfold serialize in E.
  rewrite bool_decide_eq_false_2 in E by congruence.
  rewrite bool_decide_eq_false_2 in E by done. rewrite !app_nil_r in E.
  apply Path.Canonical_lower in Hr, Hr'. unfold Path.fold in *.
  pose proof (Canonical_hash_free _ Hr). pose proof (Canonical_hash_free _ Hr').
  pose proof (Origin_hash_free _ He). pose proof (Origin_hash_free _ He').
  rewrite (assoc_L (++)) in E. rewrite (assoc_L (++) e') in E.
  apply (app_first_inj "#"%char) in E as [E Ef]; [|set_solver..].
  apply form_serialize_inj in Ef.
  apply Canonical_slash in Hr as [p Ep], Hr' as [p' Ep']. rewrite Ep, Ep' in *.
  apply origin_path_inj in E as [-> ->]; [|done..].
  destruct s'; by simplify_eq/=.
Qed.

Lemma secure_host url : valid_secure_origin url = true → u_host_str url ≠ None.
Proof. unfold valid_secure_origin. intros H'. by bool_prop. Qed.

Lemma endpoint_origin text url :
  url_parse text = Some url → validate_endpoint url = Ok tt → Origin (u_origin url).
Proof.
  unfold validate_endpoint. intros Hu Hv. destruct (_ || _) eqn:E in Hv; [done|]. bool_prop.
  edestruct origin_shape as (a & -> & ?); [exact Hu|by apply secure_host|]. by exists (u_scheme url), a.
Qed.

Lemma parse_authentication_ok secret a :
  parse_client_authentication secret = Ok a →
  ∃ decoded, b64url_encode decoded = secret ∧ a = mkSecret (b64std_encode decoded).
Proof.
  unfold parse_client_authentication. intros E. repeat destruct_match_in E; try done.
  apply and_then_ok in E as (d & _ & E). destruct (negb _) eqn:Ed in E; [done|]. bool_prop.
  destruct (negb _) in E; [done|]. apply and_then_ok in E as ([u p] & _ & E).
  destruct (_ || _) in E; [done|]. simplify_eq. by exists d.
Qed.

(** What a parsed URL is: the text it was parsed from, which is its own
    serialization with the secret it carries. *)
Lemma parse_parts v u :
  parse v = Ok u →
  canonical u = mkSecret v ∧ Origin (endpoint u) ∧ Path.Canonical (path (cu_root u))
  ∧ Path.fold (cu_root u) = path (cu_root u)
  ∧ ∃ secret, v = serialize (endpoint u) (cu_root u) (issuer u) (client_id u) secret
      ∧ match secret with
        | None => client_authentication u = None
        | Some s => ∃ a, parse_client_authentication s = Ok a ∧ client_authentication u = Some a
        end.
Proof.
  unfold parse. intros E.
  apply and_then_ok in E as (url & Hu%ok_or_ok & E). apply and_then_ok in E as ([] & Hv & E).
  apply and_then_ok in E as (r & Hr%map_err_ok & E). apply and_then_ok in E as (f & _ & E).
  apply and_then_ok in E as (fs & _ & E). apply and_then_ok in E as (_ & _ & E).
  apply and_then_ok in E as (ri & _ & E). apply and_then_ok in E as (i & _ & E).
  apply and_then_ok in E as (c & _ & E). apply and_then_ok in E as (_ & _ & E).
  apply and_then_ok in E as (auth & Ha & E). apply and_then_ok in E as ([] & Hc & E).
  unfold check in Hc. destruct (bool_decide _) eqn:Ev in Hc; [|done]. bool_prop. simplify_eq/=.
  apply Path.parse_spec in Hr as (-> & Hcan & Hl). split; [done|].
  split; [by eapply endpoint_origin|]. split; [done|]. split; [done|].
  exists (f_client_secret fs). split; [done|].
  destruct (f_client_secret fs) as [s|]; [|by simplify_eq].
  apply and_then_ok in Ha as (a & ? & ?). simplify_eq. eauto.
Qed.

Lemma encoded_not_star b : b64url_encode b ≠ "*".
Proof. intros E. apply (b64url_alphabet b). rewrite E. set_solver. Qed.

(** The URL built for a managed connection carries exactly the connection it
    was built for: its text parses back to the same URL, and that URL holds the
    configured origin, the fold of the root, the issuer, the client and the
    encoded username and password. *)
Theorem managed_url_carries_the_connection origin (root : ConfigPath) iss client username password u :
  Path.Canonical (path root) →
  managed origin root iss client username password = Ok u →
  parse (expose_secret (canonical u)) = Ok u
  ∧ endpoint u = trim_end_matches "/"%char origin
  ∧ path (cu_root u) = Path.fold root
  ∧ issuer u = iss ∧ client_id u = client
  ∧ client_authentication u
    = Some (mkSecret (b64std_encode (username ++ ":" ++ expose_secret password))).
Proof.
  intros Hroot E. unfold managed in E.
  apply and_then_ok in E as (url & Hu%ok_or_ok & E). apply and_then_ok in E as (_ & _ & E).
  apply and_then_ok in E as ([] & Hv & E). apply and_then_ok in E as ([] & Ho & E).
  apply and_then_ok in E as (_ & _ & E). unfold check in Ho.
  destruct (bool_decide _) eqn:Eo in Ho; [|done]. bool_prop.
  pose proof (endpoint_origin _ _ Hu Hv) as Horigin.
  destruct (parse_parts _ _ E) as (Hc & He & Hr & Hf & secret & Hs & Ha).
  rewrite Hc. simpl. split; [by rewrite <- E|].
  apply serialize_inj in Hs as (He' & Hfold & Hi & Hcl & Hsec); try done.
  - rewrite Hsec in Ha. destruct Ha as (a & (d & Hd & ->)%parse_authentication_ok & ->).
    apply (f_equal b64url_decode) in Hd. rewrite !b64url_round_trip in Hd. simplify_eq.
    split; [congruence|]. split; [congruence|]. by split_and!.
  - apply encoded_not_star.
  - intros ->. destruct Ha as (a & (d & Hd & _)%parse_authentication_ok & _).
    by apply encoded_not_star in Hd.
Qed.
End laws.

End Connection.

(** ** The laws can hold: a small URL splitter, the form codec and a hex codec *)

Module SampleUrl.

Definition hex_digit (upper : bool) (n : Z) : ascii :=
  byte (if (n <? 10)%Z then 48 + n else (if upper then 55 else 87) + n)%Z.
Definition hex (upper : bool) (c : ascii) : bytes :=
  [hex_digit upper (code c / 16); hex_digit upper (code c mod 16)].
Definition unhex (h l : ascii) : option ascii :=
  match Ip.digit_value 16 h, Ip.digit_value 16 l with
  | Some a, Some b => Some (byte (a * 16 + b))
  | _, _ => None
  end.

Definition kept (c : ascii) : bool :=
  is_ascii_alphanumeric c || bool_decide (c ∈ ["*"; "-"; "."; "_"]%char).
Definition escape (c : ascii) : bytes :=
  if kept c then [c] else if bool_decide (c = " "%char) then "+" else "%" ++ hex true c.
Fixpoint unescape (s : bytes) : bytes :=
  match s with
  | [] => []
  | c :: s' =>
      if bool_decide (c = "+"%char) then " "%char :: unescape s'
      else match (if bool_decide (c = "%"%char) then s' else []) with
           | h :: (l :: s'') as rest =>
               match unhex h l, s' with
               | Some b, _ :: _ :: r => b :: unescape r
               | _, _ => c :: unescape s'
               end
           | _ => c :: unescape s'
           end
  end.

Definition encode_pair (p : bytes * bytes) : bytes :=
  flat_map escape p.1 ++ "=" ++ flat_map escape p.2.
Definition decode_pair (s : bytes) : bytes * bytes :=
  match split_once "="%char s with
  | Some (k, v) => (unescape k, unescape v)
  | None => (unescape s, [])
  end.

Fixpoint unhex_all (s : bytes) : option bytes :=
  match s with
  | [] => Some []
  | h :: l :: s' => match unhex h l, unhex_all s' with
                    | Some b, Some r => Some (b :: r)
                    | _, _ => None
                    end
  | _ => None
  end.

Definition split_url (text : bytes) : option Url :=
  match split_once ":"%char text with
  | None => None
  | Some (scheme, rest) =>
      if negb (forallb is_ascii_alphanumeric scheme) then None else
      match strip_prefix "//" rest with
      | None => None
      | Some rest =>
          let '(before, fragment) := match split_once "#"%char rest with
                                     | Some (b, f) => (b, Some f)
                                     | None => (rest, None)
                                     end in
          let '(authority, path) := match split_once "/"%char before with
                                    | Some (a, p) => (a, "/" ++ p)
                                    | None => (before, "/" : bytes)
                                    end in
          if contains_byte "#"%char authority || contains_byte "/"%char authority then None
          else Some (mkUrl scheme (Some authority) [] None path None fragment
                       (scheme ++ "://" ++ authority) text)
      end
  end.

#[export] Instance sample_crates : UrlCrates := {|
  url_parse := split_url;
  form_parse s := List.map decode_pair (List.filter (λ p, negb (is_empty p)) (split "&"%char s));
  form_serialize l := join "&" (List.map encode_pair l);
  b64url_encode := flat_map (hex false);
  b64url_decode := unhex_all;
  b64std_encode := flat_map (hex true) |}.

Lemma form_unescape_escape c r : unescape (escape c ++ r) = c :: unescape r.
Proof. destruct c as [[] [] [] [] [] [] [] []]; reflexivity. Qed.

Lemma unescape_all s : unescape (flat_map escape s) = s.
Proof. induction s as [|c s IH]; [done|]. simpl. by rewrite form_unescape_escape, IH. Qed.

Lemma escape_free c : Forall (λ d, d ∉ ["="; "&"; "#"]%char) (escape c).
Proof.
  apply (bool_decide_unpack _). destruct c as [[] [] [] [] [] [] [] []]; vm_compute; exact I.
Qed.

Lemma escape_all_free s : Forall (λ d, d ∉ ["="; "&"; "#"]%char) (flat_map escape s).
Proof. induction s as [|c s IH]; simpl; [done|]. apply Forall_app. split; [apply escape_free|done]. Qed.

Lemma escape_all_not_elem d s : d ∈ ["="; "&"; "#"]%char → d ∉ flat_map escape s.
Proof. intros Hd Hin. pose proof (escape_all_free s) as Hf. rewrite Forall_forall in Hf. by eapply Hf. Qed.

Lemma encode_pair_free d p : d ∈ ["&"; "#"]%char → d ∉ encode_pair p.
Proof.
  intros Hd. unfold encode_pair. rewrite !elem_of_app.
  assert (d ∈ ["="; "&"; "#"]%char) by set_solver.
  pose proof (escape_all_not_elem d p.1). pose proof (escape_all_not_elem d p.2). set_solver.
Qed.

Lemma decode_encode_pair p : decode_pair (encode_pair p) = p.
Proof.
  unfold decode_pair, encode_pair.
  replace (split_once _ _) with (Some (flat_map escape p.1, flat_map escape p.2)).
  - rewrite !unescape_all. by destruct p.
  - symmetry. apply split_once_spec. split; [done|]. apply escape_all_not_elem. set_solver.
Qed.

Lemma unhex_hex upper c : ∃ h l, hex upper c = [h; l] ∧ unhex h l = Some c.
Proof. eexists _, _. split; [done|]. destruct upper, c as [[] [] [] [] [] [] [] []]; reflexivity. Qed.

#[export] Instance sample_laws : UrlLaws.
Proof.
  split; simpl.
  - intros l. destruct l as [|p l]; [done|].
    rewrite (split_join "&"%char); [|done|].
    + induction (p :: l) as [|q k IH]; [done|]. simpl.
      assert (is_empty (encode_pair q) = false) as ->
        by (unfold encode_pair; by destruct (flat_map escape q.1)).
      simpl. by rewrite decode_encode_pair, IH.
    + apply Forall_map_iff, Forall_forall. intros q _. apply encode_pair_free. set_solver.
  - intros l. induction l as [|p [|q l] IH]; [by intros ?%not_elem_of_nil| |].
    + apply encode_pair_free. set_solver.
    + simpl List.map in *. rewrite join_cons, !elem_of_app.
      pose proof (encode_pair_free "#"%char p). set_solver.
  - intros text u Hu _. unfold split_url in Hu. repeat destruct_match_in Hu; try done;
      bool_prop; unfold contains_byte in *; bool_prop;
      (eexists; split; [done|]); split_and!; try done;
      match goal with H : forallb _ ?s = true |- _ ∉ ?s =>
        apply forallb_Forall in H; rewrite Forall_forall in H; intros Hin; by apply H in Hin end.
  - intros b. induction b as [|c b IH]; [done|]. cbn [flat_map].
    destruct (unhex_hex false c) as (h & l & -> & E). simpl. by rewrite E, IH.
  - intros b. induction b as [|c b IH]; [by intros ?%not_elem_of_nil|]. cbn [flat_map].
    rewrite elem_of_app. intros [H|?]; [|done]. revert H.
    destruct c as [[] [] [] [] [] [] [] []]; apply (bool_decide_unpack _); vm_compute; exact I.
Qed.

End SampleUrl.

Import SampleUrl.

(** The URL of a sample connection, built and read back. *)
Definition sample_managed : result Connection.ConnectionUrl Connection.ConnectionUrlError :=
  Connection.managed "https://config.example.test" (mkPath "/Apps/api")
    "https://auth.example.test/o/" "sovereign-config" "sc-managed-x" (mkSecret "pw").

Example sample_managed_text :
  match sample_managed with Ok u => expose_secret (Connection.canonical u) | Err _ => [] end
  = "https://config.example.test/apps/api#v=1&issuer=https%3A%2F%2Fauth.example.test%2Fo%2F&client_id=sovereign-config&client_secret=73632d6d616e616765642d783a7077".
Proof. vm_compute. reflexivity. Qed.

Lemma managed_url_carries_the_connection_witness : ∃ u, sample_managed = Ok u
  ∧ Connection.parse (expose_secret (Connection.canonical u)) = Ok u
  ∧ path (Connection.cu_root u) = "/apps/api".
Proof.
  destruct sample_managed as [u|] eqn:E; [|by vm_compute in E]. exists u. split; [done|].
  destruct (Connection.managed_url_carries_the_connection "https://config.example.test"
              (mkPath "/Apps/api") "https://auth.example.test/o/" "sovereign-config" "sc-managed-x"
              (mkSecret "pw") u) as (? & _ & ? & _).
  - apply Path.canonical_check. by vm_compute.
  - exact E.
  - done.
Defined.
