(* ===== verification/IdentityFake.v ===== *)
(** * The in-memory identity provider

    Models [crates/sovereign-config-identity/src/fake.rs], the provider callers
    are tested against, and proves that it keeps the contract of [Identity.v]
    whenever its scripted failures do. *)

From stdpp Require Import strings.
From S2P Require Import Prelude Bytes ConfigPath Core Encryption Identity.

Local Open Scope bytes_scope.

Module Fake.
Import Identity.

Inductive Operation :=
| CreateAccount | Grant | AssignBrowseGroup | RenameAccount | FindAccount | FindCredentials
| ReplaceCredential | DeleteAccount.
#[global] Instance Operation_eq_dec : EqDecision Operation.
Proof. solve_decision. Defined.

Definition operation_index (o : Operation) : nat :=
  match o with
  | CreateAccount => 0 | Grant => 1 | AssignBrowseGroup => 2 | RenameAccount => 3
  | FindAccount => 4 | FindCredentials => 5 | ReplaceCredential => 6 | DeleteAccount => 7
  end.
Definition operations : list Operation :=
  [CreateAccount; Grant; AssignBrowseGroup; RenameAccount; FindAccount; FindCredentials;
   ReplaceCredential; DeleteAccount].
#[global] Instance Operation_countable : Countable Operation.
Proof.
  refine (inj_countable operation_index (λ n, operations !! n) _). by intros [].
Defined.

Record FakeAccount := mkFakeAccount {
  fa_account : AccountId; fa_username : bytes; fa_subject : bytes; fa_credential : CredentialId;
  fa_client_id : bytes; fa_secret : bytes; fa_name : option bytes; fa_connection_id : option bytes;
  fa_root : option bytes; fa_permissions : list bytes; fa_in_browse_group : bool }.

(** The fake's credentials are always valid: the fallback is not reached. *)
Definition client_credential (a : FakeAccount) : ClientCredential :=
  match client_credential_new (fa_client_id a) (mkSecret (fa_secret a)) with
  | Ok c => c
  | Err _ => mkCredential (fa_client_id a) (mkSecret (fa_secret a))
  end.

Record Scripted := mkScripted { sc_error : ProviderError; sc_applied : bool }.

Record State := mkState {
  st_accounts : gmap bytes FakeAccount; next_id : Z; faults : gmap Operation (list Scripted);
  calls : gmap Operation nat; browse_group_missing : bool }.

Definition new : State := mkState ∅ 0 ∅ ∅ false.

Definition set_accounts (a : gmap bytes FakeAccount) (st : State) : State :=
  mkState a (next_id st) (faults st) (calls st) (browse_group_missing st).

(** A [BTreeMap]'s values, in key order. *)
Definition values (st : State) : list FakeAccount :=
  List.map snd (sort_by (λ a b, bytes_leb a.1 b.1) (map_to_list (st_accounts st))).

Definition script (operation : Operation) (error : ProviderError) (applied : bool) (st : State)
  : State :=
  mkState (st_accounts st) (next_id st)
    (<[operation := default [] (faults st !! operation) ++ [mkScripted error applied]]> (faults st))
    (calls st) (browse_group_missing st).

Definition fail_next (operation : Operation) (error : ProviderError) : State → State :=
  script operation error (match error with Ambiguous | Invalid => true | _ => false end).
Definition fail_next_unapplied (operation : Operation) (error : ProviderError) : State → State :=
  script operation error false.
Definition fail_next_after_applying (operation : Operation) (error : ProviderError)
  : State → State := script operation error true.

Definition remove_browse_group (st : State) : State :=
  mkState (st_accounts st) (next_id st) (faults st) (calls st) true.

Definition account_of (st : State) (username : bytes) : option FakeAccount :=
  List.find (λ a, bool_decide (fa_username a = username)) (values st).

(** Counts the call and takes its scripted failure, if any. *)
Definition begin (operation : Operation) (st : State) : option Scripted * State :=
  let queue := default [] (faults st !! operation) in
  (head queue,
   mkState (st_accounts st) (next_id st) (<[operation := tail queue]> (faults st))
     (<[operation := S (default 0 (calls st !! operation))]> (calls st)) (browse_group_missing st)).

Definition run {T} (operation : Operation) (apply : State → result T ProviderError * State)
    (st : State) : result T ProviderError * State :=
  let '(scripted, st1) := begin operation st in
  match scripted with
  | None => apply st1
  | Some sc => (Err (sc_error sc), if sc_applied sc then snd (apply st1) else st1)
  end.

Definition existing (st : State) (a : AccountId) : result FakeAccount ProviderError :=
  ok_or (st_accounts st !! account_str a) NotFound.

(** [u64::to_string]; the counter never comes near its width. *)
Definition to_string (n : Z) : bytes := decimal_digits (S (Z.to_nat (Z.log2 n))) n [].

Definition apply_create (username : bytes) (st : State)
  : result ProvisionedAccount ProviderError * State :=
  if existsb (λ a, bool_decide (fa_username a = username)) (values st) then (Err Rejected, st)
  else
    let id := (next_id st + 1)%Z in
    let account := mkAccountId (to_string id) in
    let created := mkFakeAccount account username ("fake-subject-" ++ to_string id)
      (mkCredentialId ("fake-credential-" ++ to_string id)) ("fake-client-" ++ to_string id)
      ("fake-secret-" ++ to_string id ++ "-0") None None None [] false in
    (Ok (mkProvisioned account (fa_subject created) (client_credential created)),
     mkState (<[to_string id := created]> (st_accounts st)) id (faults st) (calls st)
       (browse_group_missing st)).

Definition update_account (a : AccountId) (f : FakeAccount → FakeAccount) (st : State)
  : result unit ProviderError * State :=
  match existing st a with
  | Ok acc => (Ok tt, set_accounts (<[account_str a := f acc]> (st_accounts st)) st)
  | Err e => (Err e, st)
  end.

Definition apply_grant (a : AccountId) (g : AccountGrant) : State → result unit ProviderError * State :=
  update_account a (λ acc,
    mkFakeAccount (fa_account acc) (fa_username acc) (fa_subject acc) (fa_credential acc)
      (fa_client_id acc) (fa_secret acc) (Some (ag_display_name g)) (Some (ag_connection_id g))
      (Some (ag_root g)) (ag_permissions g) (fa_in_browse_group acc)).

Definition apply_assign (a : AccountId) (st : State) : result unit ProviderError * State :=
  if browse_group_missing st then (Err NotFound, st)
  else update_account a (λ acc,
    mkFakeAccount (fa_account acc) (fa_username acc) (fa_subject acc) (fa_credential acc)
      (fa_client_id acc) (fa_secret acc) (fa_name acc) (fa_connection_id acc) (fa_root acc)
      (fa_permissions acc) true) st.

Definition apply_rename (a : AccountId) (name : bytes) : State → result unit ProviderError * State :=
  update_account a (λ acc,
    mkFakeAccount (fa_account acc) (fa_username acc) (fa_subject acc) (fa_credential acc)
      (fa_client_id acc) (fa_secret acc) (Some name) (fa_connection_id acc) (fa_root acc)
      (fa_permissions acc) (fa_in_browse_group acc)).

Definition apply_replace (c : CredentialId) (st : State)
  : result ClientCredential ProviderError * State :=
  let generation := (next_id st + 1)%Z in
  let st1 := mkState (st_accounts st) generation (faults st) (calls st) (browse_group_missing st) in
  match List.find (λ p, bool_decide (fa_credential p.2 = c))
          (sort_by (λ a b, bytes_leb a.1 b.1) (map_to_list (st_accounts st1))) with
  | None => (Err NotFound, st1)
  | Some (k, acc) =>
      let acc' := mkFakeAccount (fa_account acc) (fa_username acc) (fa_subject acc)
        (fa_credential acc) (fa_client_id acc)
        ("fake-secret-" ++ account_str (fa_account acc) ++ "-" ++ to_string generation)
        (fa_name acc) (fa_connection_id acc) (fa_root acc) (fa_permissions acc)
        (fa_in_browse_group acc) in
      (Ok (client_credential acc'), set_accounts (<[k := acc']> (st_accounts st1)) st1)
  end.

Definition apply_delete (a : AccountId) (st : State) : result unit ProviderError * State :=
  match st_accounts st !! account_str a with
  | Some _ => (Ok tt, set_accounts (delete (account_str a) (st_accounts st)) st)
  | None => (Err NotFound, st)
  end.

#[export] Instance fake_provider : ManagedIdentityProvider State := {|
  create_account u := run CreateAccount (apply_create u);
  grant a g := run Grant (apply_grant a g);
  assign_browse_group a := run AssignBrowseGroup (apply_assign a);
  rename_account a n := run RenameAccount (apply_rename a n);
  find_account u := run FindAccount (λ st, (Ok (fa_account <$> account_of st u), st));
  find_credentials u := run FindCredentials (λ st,
    (Ok (List.map fa_credential
           (List.filter (λ a, bool_decide (fa_username a = u)) (values st))), st));
  replace_credential c := run ReplaceCredential (apply_replace c);
  delete_account a := run DeleteAccount (apply_delete a) |}.

(** ** What the contract observes of it *)

Definition view (a : FakeAccount) : AccountView :=
  mkView (fa_username a)
    (match fa_connection_id a, fa_root a with
     | Some c, Some r => Some (c, r, fa_permissions a)
     | _, _ => None
     end).

(** Scripted failures that stay within their class: a create that is reported
    as definitely not applied was not, and a delete is reported not found only
    of an account that is gone. *)
Definition honest (f : gmap Operation (list Scripted)) : Prop :=
  (∀ q, f !! CreateAccount = Some q →
     Forall (λ sc, sc_applied sc = true → may_have_created (sc_error sc) = true) q)
  ∧ (∀ q, f !! DeleteAccount = Some q →
     Forall (λ sc, sc_error sc = NotFound → sc_applied sc = true) q).

(** Accounts are filed under the identifiers the counter produced. *)
Definition filed (m : gmap bytes FakeAccount) (n : Z) : Prop :=
  (0 ≤ n)%Z ∧ (∀ k a, m !! k = Some a → fa_account a = mkAccountId k
                      ∧ ∃ i, k = to_string i ∧ (1 ≤ i ≤ n)%Z)
  ∧ (∀ k k' a a', m !! k = Some a → m !! k' = Some a' → fa_username a = fa_username a' → k = k').

#[export] Instance fake_view : ProviderView State := {|
  accounts st := view <$> st_accounts st;
  landing st := ∅;
  visible st a := True;
  sound st := filed (st_accounts st) (next_id st) ∧ honest (faults st) |}.

(** ** Lemmas *)

Lemma decimal_digits_fuel f : ∀ f' n acc,
  (0 ≤ n < 10 ^ Z.of_nat f)%Z → f ≤ f' → decimal_digits f' n acc = decimal_digits f n acc ∨ f = 0.
Proof.
  induction f as [|f IH]; intros f' n acc Hn Hf; [by right|left].
  destruct f' as [|f']; [lia|]. simpl. destruct (Z.ltb_spec n 10); [done|].
  rewrite Nat2Z.inj_succ, Z.pow_succ_r in Hn by lia.
  destruct (IH f' (n / 10)%Z (digit_byte (n mod 10) :: acc)) as [?| ->]; [|lia|done|].
  - split; [apply Z.div_pos; lia|apply Z.div_lt_upper_bound; lia].
  - simpl in Hn. lia.
Qed.

Lemma to_string_inj n m : (0 ≤ n)%Z → (0 ≤ m)%Z → to_string n = to_string m → n = m.
Proof.
  intros Hn Hm E. unfold to_string in E.
  set (f := S (Z.to_nat (Z.log2 n))) in *. set (g := S (Z.to_nat (Z.log2 m))) in *.
  assert (∀ k, (0 ≤ k)%Z → (0 ≤ k < 10 ^ Z.of_nat (S (Z.to_nat (Z.log2 k))))%Z) as Hb.
  { intros k Hk. split; [done|]. rewrite Nat2Z.inj_succ, Z2Nat.id by apply Z.log2_nonneg.
    destruct (decide (k = 0%Z)) as [->|]; [done|].
    eapply Z.lt_le_trans; [apply (Z.log2_spec k); lia|]. apply Z.pow_le_mono_l. lia. }
  pose proof (Hb n Hn). pose proof (Hb m Hm). fold f in H. fold g in H0.
  destruct (decimal_digits_fuel f (f `max` g) n []) as [E1|]; [done|lia| |done].
  destruct (decimal_digits_fuel g (f `max` g) m []) as [E2|]; [done|lia| |done].
  rewrite <- E1, <- E2 in E. apply Cipher.decimal_digits_inj in E; [done| |].
  - split; [lia|]. eapply Z.lt_le_trans; [apply H|]. apply Z.pow_le_mono_r; lia.
  - split; [lia|]. eapply Z.lt_le_trans; [apply H0|]. apply Z.pow_le_mono_r; lia.
Qed.

Lemma elem_of_values st a : a ∈ values st ↔ ∃ k, st_accounts st !! k = Some a.
Proof.
  unfold values. rewrite list_elem_of_In, in_map_iff. setoid_rewrite <- list_elem_of_In.
  setoid_rewrite elem_of_sort_by. split.
  - intros ([k b] & <- & Hin). exists k. by apply elem_of_map_to_list.
  - intros [k Hk]. exists (k, a). split; [done|]. by apply elem_of_map_to_list.
Qed.

(** A call runs its operation, or not at all, after taking its script. *)
Lemma run_cases {T} op (apply : State → result T ProviderError * State) st r st' :
  run op apply st = (r, st') →
  ∃ st1, st_accounts st1 = st_accounts st ∧ next_id st1 = next_id st
    ∧ (sound st → sound st1)
    ∧ (apply st1 = (r, st') ∨
       ∃ sc q, faults st !! op = Some (sc :: q) ∧ r = Err (sc_error sc)
         ∧ st' = if sc_applied sc then snd (apply st1) else st1).
Proof.
  unfold run. set (st1 := (begin op st).2).
  assert (begin op st = (head (default [] (faults st !! op)), st1)) as -> by done.
  intros Hr. exists st1. split; [done|]. split; [done|]. split.
  - intros [Hf [Hc Hd]]. split; [done|].
    split; simpl; intros q Hq; apply lookup_insert_Some in Hq as [[-> <-]|[_ Hq]]; eauto.
    + destruct (faults st !! CreateAccount) as [q|] eqn:E; [|done]. simpl.
      specialize (Hc q eq_refl). by destruct Hc.
    + destruct (faults st !! DeleteAccount) as [q|] eqn:E; [|done]. simpl.
      specialize (Hd q eq_refl). by destruct Hd.
  - destruct (faults st !! op) as [[|sc q]|] eqn:E; simpl in Hr; [by left| |by left].
    right. exists sc, q. by simplify_eq.
Qed.

Lemma keeps_sight_intro st st' : sound st' → keeps_sight st st'.
Proof. by split. Qed.

Lemma update_account_cases a f st r st' :
  update_account a f st = (r, st') →
  (st' = st ∧ st_accounts st !! account_str a = None ∧ is_ok r = false)
  ∨ ∃ acc, st_accounts st !! account_str a = Some acc
      ∧ st' = set_accounts (<[account_str a := f acc]> (st_accounts st)) st.
Proof.
  unfold update_account, existing. destruct (st_accounts st !! _) as [acc|]; simpl;
    intros [= <- <-]; [right|left]; eauto.
Qed.

(** Rewriting one account in place keeps the files in order. *)
Lemma filed_update m n n' k acc acc' :
  filed m n → (n ≤ n')%Z → m !! k = Some acc → fa_account acc' = fa_account acc →
  fa_username acc' = fa_username acc → filed (<[k := acc']> m) n'.
Proof.
  intros (Hn & Hk & Hu) Hle Hacc Ha Hun. split; [lia|].
  assert (∀ j b, <[k := acc']> m !! j = Some b →
            ∃ b0, m !! j = Some b0 ∧ fa_account b = fa_account b0 ∧ fa_username b = fa_username b0)
    as Hback.
  { intros j b [[<- <-]|[_ ?]]%lookup_insert_Some; eauto. }
  split.
  - intros j b (b0 & Hj & -> & _)%Hback. destruct (Hk _ _ Hj) as (? & i & ? & ?). split; [done|].
    exists i. split; [done|lia].
  - intros j j' b b' (b0 & Hj & _ & ->)%Hback (b0' & Hj' & _ & ->)%Hback. by apply Hu.
Qed.

Lemma update_account_sound a f st r st' :
  (∀ acc, fa_account (f acc) = fa_account acc ∧ fa_username (f acc) = fa_username acc) →
  sound st → update_account a f st = (r, st') → sound st'.
Proof.
  intros Hf [Hs Hh] [(-> & _)|(acc & Hacc & ->)]%update_account_cases; [done|].
  split; [|done]. simpl. eapply filed_update; [done|done|exact Hacc|apply Hf..].
Qed.

Lemma update_account_view a f st r st' :
  (∀ acc, view (f acc) = view acc) →
  update_account a f st = (r, st') → view <$> st_accounts st' = view <$> st_accounts st.
Proof.
  intros Hf [(-> & _)|(acc & Hacc & ->)]%update_account_cases; [done|]. simpl.
  rewrite fmap_insert, Hf. apply insert_id. by rewrite lookup_fmap, Hacc.
Qed.

Lemma accounts_values (st : State) u :
  named st u ↔ ∃ a, a ∈ values st ∧ fa_username a = u.
Proof.
  unfold named. simpl. split.
  - intros (k & v & Hk & <-). apply lookup_fmap_Some in Hk as (a & <- & Ha).
    exists a. split; [|done]. apply elem_of_values. eauto.
  - intros (a & [k Hk]%elem_of_values & <-). exists k, (view a). by rewrite lookup_fmap, Hk.
Qed.

(** Two states that file the same accounts look the same. *)
Lemma same_accounts_intro (st st' : State) :
  sound st' → accounts st' = accounts st → same_accounts st st'.
Proof. intros ? ?. by split; [by apply keeps_sight_intro|]. Qed.

(** An operation that only rewrites hidden parts of accounts changes nothing
    the contract observes, scripted or not. *)
Lemma run_same {T} op (apply : State → result T ProviderError * State) st r st' :
  (∀ s s' x, sound s → apply s = (x, s') → sound s' ∧ accounts s' = accounts s) →
  sound st → run op apply st = (r, st') → same_accounts st st'.
Proof.
  intros Ha Hs Hr. apply run_cases in Hr as (st1 & E & En & Hs1 & Hr). specialize (Hs1 Hs).
  assert (accounts st1 = accounts st) as Eacc by (simpl; by rewrite E).
  destruct Hr as [Hr|(sc & q & _ & -> & ->)].
  - apply Ha in Hr as [? ?]; [|done]. apply same_accounts_intro; [done|congruence].
  - destruct (apply st1) as [x s'] eqn:Ex. apply Ha in Ex as [? ?]; [|done].
    destruct (sc_applied sc); apply same_accounts_intro; simpl in *; congruence || done.
Qed.

Lemma update_same a f st r st' :
  (∀ acc, fa_account (f acc) = fa_account acc ∧ view (f acc) = view acc) →
  sound st → update_account a f st = (r, st') → sound st' ∧ accounts st' = accounts st.
Proof.
  intros Hf Hs Hu. split.
  - eapply update_account_sound; [|exact Hs|exact Hu]. intros acc.
    destruct (Hf acc) as [? Hv]. split; [done|]. by apply (f_equal av_username) in Hv.
  - eapply update_account_view; [|exact Hu]. apply Hf.
Qed.

Lemma apply_replace_same c st r st' :
  sound st → apply_replace c st = (r, st') → sound st' ∧ accounts st' = accounts st.
Proof.
  intros [Hs Hh]. pose proof Hs as (Hn & _). unfold apply_replace. simpl.
  destruct (List.find _ _) as [[k acc]|] eqn:E; intros [= <- <-]; simpl.
  - apply List.find_some in E as [Hin _]. apply list_elem_of_In, elem_of_sort_by in Hin.
    apply elem_of_map_to_list in Hin. split.
    + split; [|done]. eapply filed_update; [exact Hs|simpl; lia|exact Hin|done|done].
    + rewrite fmap_insert. apply insert_id. by rewrite lookup_fmap, Hin.
  - split; [|done]. split; [|done]. simpl. destruct Hs as (? & Hk & ?). split; [lia|].
    split; [|done]. intros k a (? & i & ? & ?)%Hk. split; [done|]. exists i. split; [done|lia].
Qed.

(** Creating files a fresh account, or refuses a username in use. *)
Lemma apply_create_cases u st r st' :
  sound st → apply_create u st = (r, st') →
  (r = Err Rejected ∧ st' = st)
  ∨ (∃ acc, r = Ok acc ∧ sound st' ∧ adds_account st st' u (account_str (account acc))).
Proof.
  intros [(Hn & Hk & Hu) Hh]. unfold apply_create.
  destruct (existsb _ _) eqn:Ex; intros [= <- <-]; [by left|right].
  eexists. split; [done|]. simpl.
  assert (st_accounts st !! to_string (next_id st + 1) = None) as Hfresh.
  { apply eq_None_not_Some. intros [a (_ & i & Hi & ?)%Hk].
    apply to_string_inj in Hi; lia. }
  rewrite existsb_false in Ex.
  assert (∀ k a, st_accounts st !! k = Some a → fa_username a ≠ u) as Hnone.
  { intros k a Ha Hau. assert (a ∈ values st) as Hv by (apply elem_of_values; eauto).
    specialize (Ex a Hv). by apply bool_decide_eq_false in Ex. }
  split; [|split; simpl; [by rewrite lookup_fmap, Hfresh|by rewrite fmap_insert]].
  split; [|done]. simpl. split; [lia|]. split.
  - intros k a [[<- <-]|[_ (? & i & ? & ?)%Hk]]%lookup_insert_Some.
    + split; [done|]. exists (next_id st + 1)%Z. split; [done|lia].
    + split; [done|]. exists i. split; [done|lia].
  - intros k k' a a' [[<- <-]|[_ H1]]%lookup_insert_Some [[<- <-]|[_ H2]]%lookup_insert_Some;
      simpl; [done| | |by eapply Hu]; intros E; exfalso; by eapply Hnone.
Qed.

Lemma fake_create_law u p r p' :
  sound p → create_account u p = (r, p') → create_law u p r p'.
Proof.
  intros Hs Hr. apply run_cases in Hr as (st1 & E & En & Hs1 & Hr). specialize (Hs1 Hs).
  assert (accounts st1 = accounts p) as Eacc by (simpl; by rewrite E).
  destruct Hr as [Hr|(sc & q & Hq & -> & ->)].
  - apply apply_create_cases in Hr as [(-> & ->)|(acc & -> & Hs' & Hadd)]; [| |done].
    + by split; [apply keeps_sight_intro|].
    + split; [by apply keeps_sight_intro|]. split; [|done].
      destruct Hadd as [? ?]. by split; rewrite <- Eacc.
  - destruct (apply_create u st1) as [x s'] eqn:Ex.
    destruct Hs as [_ [Hc _]]. specialize (Hc _ Hq). apply Forall_cons in Hc as [Hc _].
    apply apply_create_cases in Ex; [|done].
    destruct (sc_applied sc); simpl.
    + destruct Ex as [(-> & ->)|(acc & -> & Hs' & [? ?])].
      * split; [by apply keeps_sight_intro|]. rewrite Hc by done. split; [by left|set_solver].
      * split; [by apply keeps_sight_intro|]. rewrite Hc by done. split; [|set_solver].
        right. eexists. by split; rewrite <- Eacc.
    + split; [by apply keeps_sight_intro|]. destruct (may_have_created _); [|done].
      split; [by left|set_solver].
Qed.

Lemma fake_grant_law a g p r p' :
  sound p → grant a g p = (r, p') → grant_law a g p r p'.
Proof.
  intros Hs Hr. apply run_cases in Hr as (st1 & E & En & Hs1 & Hr). specialize (Hs1 Hs).
  assert (accounts st1 = accounts p) as Eacc by (simpl; by rewrite E).
  assert (∀ x s', apply_grant a g st1 = (x, s') →
            sound s' ∧ (accounts s' = alter (with_grant g) (account_str a) (accounts p)
                        ∨ (is_ok x = false ∧ accounts s' = accounts p))) as Hg.
  { intros x s' Hx. split; [eapply update_account_sound; [|exact Hs1|exact Hx]; done|].
    apply update_account_cases in Hx as [(-> & _ & ?)|(acc & Hacc & ->)]; [by right|left].
    rewrite <- Eacc. simpl. rewrite fmap_insert. apply map_eq. intros k.
    destruct (decide (k = account_str a)) as [->|Hne].
    - by rewrite lookup_insert_eq, lookup_alter_eq, lookup_fmap, Hacc.
    - by rewrite lookup_insert_ne, lookup_alter_ne. }
  destruct Hr as [Hr|(sc & q & Hq & -> & ->)].
  - apply Hg in Hr as [? ?]. split; [by apply keeps_sight_intro|]. by split.
  - destruct (apply_grant a g st1) as [x s'] eqn:Ex. destruct (Hg _ _ eq_refl) as [? Hc].
    destruct (sc_applied sc); simpl; (split; [by apply keeps_sight_intro|]; split; [done|]).
    + destruct Hc as [?|[_ ?]]; [by left|by right].
    + by right.
Qed.

Lemma fake_delete_law a p r p' :
  sound p → delete_account a p = (r, p') → delete_law a p r p'.
Proof.
  intros Hs Hr. apply run_cases in Hr as (st1 & E & En & Hs1 & Hr). specialize (Hs1 Hs).
  assert (∀ x s', apply_delete a st1 = (x, s') →
            sound s' ∧ accounts s' = delete (account_str a) (accounts p)) as Hd.
  { intros x s' Hx. unfold apply_delete in Hx. rewrite E in Hx.
    destruct (st_accounts p !! account_str a) eqn:Ea; simplify_eq/=.
    - split; [|by rewrite fmap_delete]. destruct Hs as [(? & Hk & Hu) _], Hs1 as [_ ?].
      split; [|done]. simpl. rewrite En. split; [done|].
      split.
      + by intros k b [_ ?%Hk]%lookup_delete_Some.
      + intros k k' b b' [_ H1]%lookup_delete_Some [_ H2]%lookup_delete_Some. by eapply Hu.
    - split; [done|]. rewrite E, delete_id; [done|]. by rewrite lookup_fmap, Ea. }
  destruct Hr as [Hr|(sc & q & Hq & -> & ->)].
  - apply Hd in Hr as [? Hacc]. split; [by apply keeps_sight_intro|]. split; [done|].
    split; [by left|]. intros _ _. rewrite Hacc. apply lookup_delete_eq.
  - destruct (apply_delete a st1) as [x s'] eqn:Ex. destruct (Hd _ _ eq_refl) as [? Hacc].
    assert (accounts s' !! account_str a = None) as Hgone
      by (rewrite Hacc; apply lookup_delete_eq).
    destruct Hs as [_ [_ Hh]]. specialize (Hh _ Hq). apply Forall_cons in Hh as [Hh _].
    destruct (sc_applied sc); simpl; (split; [by apply keeps_sight_intro|]; split; [done|]).
    + split; [by left|]. intros _ _. exact Hgone.
    + split; [right; split; [done|simpl; by rewrite E]|]. intros [= Hn] _. by apply Hh in Hn.
Qed.

Lemma run_pure {T} op (f : State → T) st r st' :
  sound st → run op (λ s, (Ok (f s), s)) st = (r, st') →
  same_accounts st st' ∧ (r = Ok (f st') ∨ is_ok r = false).
Proof.
  intros Hs Hr. split; [eapply run_same; [|exact Hs|exact Hr]; by intros ??? ? [= _ <-]|].
  apply run_cases in Hr as (st1 & _ & _ & _ & [[= <- <-]|(sc & q & _ & -> & _)]); [by left|by right].
Qed.

#[export] Instance fake_laws : ProviderLaws State.
Proof.
  split.
  - intros p a b v w [(_ & _ & Hu) _] Ha Hb Hv. simpl in *.
    apply lookup_fmap_Some in Ha as (x & <- & Ha), Hb as (y & <- & Hb). by eapply Hu.
  - set_solver.
  - apply fake_create_law.
  - apply fake_grant_law.
  - intros a p r p' Hs. apply run_same; [|done]. intros s s' x Hs'. unfold apply_assign.
    destruct (browse_group_missing s); [by intros [= _ <-]|]. by apply update_same.
  - intros a n p r p' Hs. apply run_same; [|done]. intros s s' x Hs'. by apply update_same.
  - intros u p r p' Hs [Hsame Hr]%run_pure; [|done]. split; [done|].
    assert (accounts p' = accounts p) as Ea by apply Hsame.
    destruct Hr as [->|]; [|by destruct r]. unfold account_of.
    destruct (List.find _ _) as [x|] eqn:E; simpl.
    + apply List.find_some in E as [Hin%list_elem_of_In Hx%bool_decide_eq_true].
      apply elem_of_values in Hin as [k Hk]. split; [done|].
      destruct Hsame as [[[(_ & Hf & _) _] _] _]. destruct (Hf _ _ Hk) as [-> _]. simpl in *.
      rewrite <- Ea, lookup_fmap, Hk. simpl. by rewrite Hx.
    + unfold named. rewrite <- Ea. change (¬ named p' u). rewrite accounts_values.
      intros (x & Hin%list_elem_of_In & Hx). eapply List.find_none in E; [|exact Hin].
      by apply bool_decide_eq_false in E.
  - intros u p r p' Hs [Hsame Hr]%run_pure; [|done]. split; [done|]. intros ->.
    assert (accounts p' = accounts p) as Ea by apply Hsame.
    destruct Hr as [[= E]|]; [|done]. symmetry in E. apply List.map_eq_nil in E.
    unfold named. rewrite <- Ea. change (¬ named p' u). rewrite accounts_values.
    intros (x & Hin & Hx).
    assert (x ∈ List.filter (λ a, bool_decide (fa_username a = u)) (values p')) as Hf.
    { apply list_elem_of_In, List.filter_In. split; [by apply list_elem_of_In|].
      by apply bool_decide_eq_true. }
    rewrite E in Hf. by apply not_elem_of_nil in Hf.
  - intros c p r p' Hs. apply run_same; [|done]. intros s s' x Hs'. by apply apply_replace_same.
  - apply fake_delete_law.
Qed.

Lemma new_sound : sound new.
Proof. split; [|by split]. by split. Qed.

(** The in-memory provider implements the contract callers rely on: account
    names stay unique, a failure reported as definitive changed nothing, a
    deletion reported as done or as not found left no such account, and lookups
    report the accounts there are; a fresh one is in a state the contract speaks
    of, and every scripted failure that stays within its class keeps it so. *)
Theorem fake_keeps_the_contract :
  ProviderLaws State ∧ sound new
  ∧ ∀ st operation error, sound st →
      (operation = DeleteAccount → error ≠ NotFound) →
      sound (fail_next operation error st).
Proof.
  split; [apply fake_laws|]. split; [apply new_sound|]. intros st op e [Hf [Hc Hd]] Hop.
  split; [done|]. unfold fail_next, script. simpl. split; intros q; destruct (decide (op = CreateAccount)) as [->|];
    try (destruct (decide (op = DeleteAccount)) as [->|]);
    rewrite ?lookup_insert_eq, ?lookup_insert_ne by done; eauto.
  - intros [= <-]. apply Forall_app. split; [|by destruct e; repeat constructor].
    destruct (faults st !! CreateAccount) eqn:E; simpl; [by apply Hc|constructor].
  - intros [= <-]. apply Forall_app. split.
    + destruct (faults st !! DeleteAccount) eqn:E; simpl; [by apply Hd|constructor].
    + constructor; [|constructor]. simpl. intros ->. by destruct Hop.
Qed.

End Fake.
