(* ===== verification/Flow.v ===== *)
(** * Flows: programs interleaved at their atomic steps

    An asynchronous handler runs a sequence of atomic steps, each one a database
    statement or transaction, a call to another service, or a counter; between
    two of them any other task may run.  A [Flow] is such a program as a tree of
    steps.  [exec] runs one to its end with interference [env] before each step,
    [reaches] to any point (an interrupted or cancelled task), and [pool_step]
    runs many at once.  [wpi] is the weakest precondition the proofs about
    single flows use. *)

From S2P Require Import Prelude.

Section flow.
Context {S : Type}.

Inductive Flow (A : Type) : Type :=
| Ret (a : A)
| Act (B : Type) (step : S → B * S) (k : B → Flow A).
Arguments Ret {A} a.
Arguments Act {A B} step k.

Fixpoint flow_bind {A B} (f : Flow A) (g : A → Flow B) : Flow B :=
  match f with
  | Ret a => g a
  | Act step k => Act step (λ b, flow_bind (k b) g)
  end.

(** One atomic step. *)
Definition act {A} (step : S → A * S) : Flow A := Act step Ret.

(** Undisturbed. *)
Fixpoint run {A} (f : Flow A) (s : S) : A * S :=
  match f with
  | Ret a => (a, s)
  | Act step k => run (k (step s).1) (step s).2
  end.

Section interference.
Context (env : relation S).

Fixpoint exec {A} (f : Flow A) (s : S) (a : A) (s' : S) : Prop :=
  match f with
  | Ret a0 => a = a0 ∧ s' = s
  | Act step k => ∃ s1, env s s1 ∧ exec (k (step s1).1) (step s1).2 a s'
  end.

Fixpoint reaches {A} (f : Flow A) (s s' : S) : Prop :=
  env s s' ∨ match f with
             | Ret _ => False
             | Act step k => ∃ s1, env s s1 ∧ reaches (k (step s1).1) (step s1).2 s'
             end.

(** Every step of every execution keeps [I], and every result satisfies [Q]. *)
Fixpoint wpi {A} (I : S → Prop) (f : Flow A) (Q : A → S → Prop) (s : S) : Prop :=
  match f with
  | Ret a => Q a s
  | Act step k => ∀ s1, env s s1 → I (step s1).2 ∧ wpi I (k (step s1).1) Q (step s1).2
  end.
End interference.

(** Whatever is done with what a step answers, every step satisfies [G]. *)
Fixpoint all_steps {A} (G : relation S) (f : Flow A) : Prop :=
  match f with
  | Ret _ => True
  | Act step k => (∀ s, G s (step s).2) ∧ ∀ b, all_steps G (k b)
  end.

(** At most [n] steps, whatever they answer. *)
Fixpoint within {A} (n : nat) (f : Flow A) {struct f} : Prop :=
  match f with
  | Ret _ => True
  | Act _ k => match n with O => False | Datatypes.S n' => ∀ b, within n' (k b) end
  end.

(** ** Many flows *)

Definition advance {A} (f : Flow A) (s : S) : option (Flow A * S) :=
  match f with
  | Ret _ => None
  | Act step k => Some (k (step s).1, (step s).2)
  end.

Inductive pool_step {A} (start : Flow A → Prop) (env : relation S)
  : list (Flow A) * S → list (Flow A) * S → Prop :=
| pool_start f pool s : start f → pool_step start env (pool, s) (pool ++ [f], s)
| pool_advance i f f' pool s s' : pool !! i = Some f → advance f s = Some (f', s') →
    pool_step start env (pool, s) (<[i := f']> pool, s')
| pool_drop i pool s : pool_step start env (pool, s) (delete i pool, s)
| pool_env pool s s' : env s s' → pool_step start env (pool, s) (pool, s').

(** ** Lemmas *)

Lemma flow_bind_assoc_wpi env {A B} I (f : Flow A) (g : A → Flow B) Q s :
  wpi env I (flow_bind f g) Q s ↔ wpi env I f (λ a, wpi env I (g a) Q) s.
Proof.
  revert s. induction f as [a|B' step k IH]; intros s; simpl; [done|].
  setoid_rewrite IH. done.
Qed.

Lemma wpi_mono env {A} (I : S → Prop) (f : Flow A) (Q Q' : A → S → Prop) s :
  wpi env I f Q s → (∀ a s', Q a s' → Q' a s') → wpi env I f Q' s.
Proof.
  intros H HQ. revert s H. induction f as [a|B' step k IH]; intros s H; simpl in *; [by apply HQ|].
  intros s1 Hs1. destruct (H s1 Hs1). auto.
Qed.

(** Results hold of executions, invariants of everything reached. *)
Lemma wpi_exec env {A} I (f : Flow A) Q s a s' : wpi env I f Q s → exec env f s a s' → Q a s'.
Proof.
  revert s. induction f as [a0|B' step k IH]; intros s; simpl; [by intros ? [-> ->]|].
  intros H (s1 & Henv & He). by eapply IH; [apply H|].
Qed.

Lemma wpi_reaches env {A} (I : S → Prop) (f : Flow A) Q s s' :
  (∀ s s', I s → env s s' → I s') → I s → wpi env I f Q s → reaches env f s s' → I s'.
Proof.
  intros Hst. revert s. induction f as [a0|B' step k IH]; intros s HI; simpl.
  - intros _ [H|[]]. by eapply Hst.
  - intros H [He|(s1 & He & Hr)]; [by eapply Hst|]. destruct (H s1 He). by eapply IH.
Qed.

Lemma exec_run env `{!Reflexive env} {A} (f : Flow A) s : exec env f s (run f s).1 (run f s).2.
Proof.
  revert s. induction f as [a0|B' step k IH]; intros s; simpl; [done|]. exists s. auto.
Qed.

Lemma reaches_run env `{!Reflexive env} {A} (f : Flow A) s : reaches env f s (run f s).2.
Proof.
  revert s. induction f as [a0|B' step k IH]; intros s; simpl; [by left|]. right. exists s. auto.
Qed.

Lemma all_steps_bind {A B} (G : relation S) (f : Flow A) (g : A → Flow B) :
  all_steps G f → (∀ a, all_steps G (g a)) → all_steps G (flow_bind f g).
Proof.
  intros Hf Hg. induction f as [a|B' step k IH]; simpl in *; [done|]. destruct Hf. auto.
Qed.

Lemma all_steps_mono {A} (G G' : relation S) (f : Flow A) :
  (∀ s s', G s s' → G' s s') → all_steps G f → all_steps G' f.
Proof. intros HG. induction f as [a|B step k IH]; [done|]. intros [Hs Hk]. split; auto. Qed.

(** An undisturbed run takes only such steps. *)
Lemma run_steps {A} (G : relation S) `{!PreOrder G} (f : Flow A) s : all_steps G f → G s (run f s).2.
Proof.
  revert s. induction f as [a|B step k IH]; intros s Hf; [done|]. destruct Hf as [Hs Hk]. cbn [run].
  etrans; [apply Hs|by apply IH].
Qed.

(** Everything [f] can return satisfies [P], whatever its steps answer. *)
Fixpoint returns {A} (P : A → Prop) (f : Flow A) : Prop :=
  match f with
  | Ret a => P a
  | Act _ k => ∀ b, returns P (k b)
  end.

Lemma returns_bind {A B} (P : A → Prop) (Q : B → Prop) (f : Flow A) (g : A → Flow B) :
  returns P f → (∀ a, P a → returns Q (g a)) → returns Q (flow_bind f g).
Proof. intros Hf Hg. induction f as [a|B' step k IH]; simpl in *; auto. Qed.

Lemma all_steps_bind_returns {A B} (G : relation S) (P : A → Prop) (f : Flow A) (g : A → Flow B) :
  all_steps G f → returns P f → (∀ a, P a → all_steps G (g a)) → all_steps G (flow_bind f g).
Proof.
  intros Hf HP Hg. induction f as [a|B' step k IH]; simpl in *; [auto|]. destruct Hf. auto.
Qed.

(** An undisturbed run goes through a sequence part by part. *)
Lemma run_bind {A B} (f : Flow A) (g : A → Flow B) s :
  run (flow_bind f g) s = run (g (run f s).1) (run f s).2.
Proof. revert s. induction f as [a|B' step k IH]; intros s; simpl; [done|]. apply IH. Qed.

Lemma returns_run {A} (P : A → Prop) (f : Flow A) s : returns P f → P (run f s).1.
Proof. revert s. induction f as [a|B' step k IH]; intros s; simpl; auto. Qed.

Lemma within_mono {A} (f : Flow A) : ∀ n m, within n f → n ≤ m → within m f.
Proof.
  induction f as [a|B step k IH]; intros n m Hf Hle; [exact I|].
  destruct n as [|n]; [done|]. destruct m as [|m]; [lia|]. intros b. eapply IH; [apply Hf|lia].
Qed.

Lemma within_bind {A B} (f : Flow A) (g : A → Flow B) : ∀ n m,
  within n f → (∀ a, within m (g a)) → within (n + m) (flow_bind f g).
Proof.
  induction f as [a|B' step k IH]; intros n m Hf Hg; simpl in *.
  - eapply within_mono; [apply Hg|lia].
  - destruct n as [|n]; [done|]. simpl. auto.
Qed.

(** Alone, a flow that takes at most [n] steps is over after [n]. *)
Fixpoint after {A} (n : nat) (f : Flow A) (s : S) : Flow A * S :=
  match n with
  | O => (f, s)
  | Datatypes.S n' => match advance f s with Some (f', s') => after n' f' s' | None => (f, s) end
  end.

Lemma within_after {A} n : ∀ (f : Flow A) s, within n f → advance (after n f s).1 (after n f s).2 = None.
Proof.
  induction n as [|n IH]; intros [a|B step k] s Hf; simpl in *; try done. by apply IH.
Qed.

Lemma all_steps_act {A} (G : relation S) (step : S → A * S) :
  (∀ s, G s (step s).2) → all_steps G (act step).
Proof. by split. Qed.

(** Flows that only take steps of [G] are run only in steps of [G]. *)
Lemma pool_steps {A} (G : relation S) (start : Flow A → Prop) (env : relation S) c c' :
  (∀ s s', env s s' → G s s') → Reflexive G →
  (∀ f, start f → all_steps G f) →
  Forall (all_steps G) c.1 → pool_step start env c c' →
  Forall (all_steps G) c'.1 ∧ G c.2 c'.2.
Proof.
  intros Henv Hrefl Hstart Hall Hstep.
  destruct Hstep as [f pool s Hf|i f f' pool s s' Hi Ha|i pool s|pool s s' He]; simpl in *.
  - split; [|done]. apply Forall_app. auto.
  - destruct f as [a|B step k]; simplify_eq/=.
    eapply Forall_lookup_1 in Hi as Hf; [|done]. simpl in Hf. destruct Hf as [Hs Hk]. split; [|auto].
    apply Forall_insert; auto.
  - split; [|done]. by apply Forall_delete.
  - auto.
Qed.

Lemma reachable_pool {A} (G : relation S) (start : Flow A → Prop) (env : relation S) c c' :
  (∀ s s', env s s' → G s s') → Reflexive G →
  (∀ f, start f → all_steps G f) →
  Forall (all_steps G) c.1 → rtc (pool_step start env) c c' →
  Forall (all_steps G) c'.1 ∧ rtc G c.2 c'.2.
Proof.
  intros Henv Hrefl Hstart Hall Hsteps. induction Hsteps as [c|c c1 c' H1 _ IH]; [done|].
  eapply pool_steps in H1 as [H1 HG]; [|done..]. destruct (IH H1). split; [done|].
  by eapply rtc_l.
Qed.
End flow.

Arguments Flow : clear implicits.
Arguments Ret {S A} a.
Arguments Act {S A B} step k.

#[global] Instance Flow_ret {S} : MRet (Flow S) := λ A a, Ret a.
#[global] Instance Flow_bind {S} : MBind (Flow S) := λ A B k f, flow_bind f k.

(** Early return on an error: Rust's [let x = f.await?;]. *)
Definition flow_try {S A B E} (f : Flow S (result A E)) (k : A → Flow S (result B E))
  : Flow S (result B E) :=
  flow_bind f (λ r, match r with Ok a => k a | Err e => Ret (Err e) end).

Notation "'let!' x := f 'in' k" := (flow_try f (λ x, k))
  (at level 200, x name, f at level 100, k at level 200, right associativity).
Notation "'await' x := f 'in' k" := (flow_bind f (λ x, k))
  (at level 200, x name, f at level 100, k at level 200, right associativity).

Lemma wpi_try {S} (env : relation S) I {A B E} (f : Flow S (result A E))
    (k : A → Flow S (result B E)) Q s :
  wpi env I (flow_try f k) Q s
  ↔ wpi env I f (λ r s', match r with Ok a => wpi env I (k a) Q s' | Err e => Q (Err e) s' end) s.
Proof.
  unfold flow_try. rewrite flow_bind_assoc_wpi.
  split; intros H; (eapply wpi_mono; [exact H|]); by intros [].
Qed.

Lemma all_steps_try {S A B E} (G : relation S) (f : Flow S (result A E))
    (k : A → Flow S (result B E)) :
  all_steps G f → (∀ a, all_steps G (k a)) → all_steps G (flow_try f k).
Proof. intros. apply all_steps_bind; [done|]. by intros []. Qed.

Lemma wpi_act {S} (env : relation S) I {A} (step : S → A * S) Q s :
  wpi env I (act step) Q s ↔ ∀ s1, env s s1 → I (step s1).2 ∧ Q (step s1).1 (step s1).2.
Proof. done. Qed.

Lemma within_act {S A B} n (step : S → A * S) (g : A → Flow S B) :
  (∀ a, within n (g a)) → within (Datatypes.S n) (flow_bind (act step) g).
Proof. done. Qed.

Lemma within_try {S A B E} (f : Flow S (result A E)) (k : A → Flow S (result B E)) n m :
  within n f → (∀ a, within m (k a)) → within (n + m) (flow_try f k).
Proof. intros. apply within_bind; [done|]. by intros []. Qed.

Lemma within_try_ret {S A B E} n (r : result A E) (k : A → Flow S (result B E)) :
  within n (match r with Ok a => k a | Err e => Ret (Err e) end) → within n (flow_try (Ret r) k).
Proof. done. Qed.

Lemma within_ret {S A B} n (a : A) (g : A → Flow S B) : within n (g a) → within n (flow_bind (Ret a) g).
Proof. done. Qed.
