(* ===== verification/ManagedStore.v ===== *)
(** * The managed connection store

    Models [crates/sovereign-config-server/src/managed/store.rs]: the table
    [managed_connections] with the constraints of migrations 0005, 0006, 0008
    and 0014, and every statement the service runs on it.  A [Deployment] is
    what the tasks of the service share: the database with its trail, the
    identity provider, and the counters of [metrics.rs]. *)

From stdpp Require Import strings.
From S2P Require Import Prelude Bytes ConfigPath Core Managed Auth Encryption AuditEvent Rpc Database AuditTrail Identity Flow.

Local Open Scope bytes_scope.

(** ** Rows *)

(** [ConnectionRow], the columns the service selects. *)
Record ConnectionRow := mkConnectionRow {
  connection_id : bytes; display_name : bytes; root : bytes; provider_user_id : option bytes;
  credential_identifier : option bytes; state : bytes; permissions : bytes;
  created_at : Z; updated_at : Z }.
#[global] Instance ConnectionRow_eq_dec : EqDecision ConnectionRow.
Proof. solve_decision. Defined.

(** A row of the table: those columns and [provider_user_uid]. *)
Record ManagedRow := mkManagedRow { m_row : ConnectionRow; m_uid : option bytes }.
#[global] Instance ManagedRow_eq_dec : EqDecision ManagedRow.
Proof. solve_decision. Defined.

(** [AccountRow], what the name repair selects. *)
Record AccountRow := mkAccountRow {
  ar_connection_id : bytes; ar_display_name : bytes; ar_provider_user_id : option bytes;
  ar_provider_user_uid : bytes; ar_state : bytes }.

Definition set_state (st : bytes) (at_ : Z) (r : ManagedRow) : ManagedRow :=
  let c := m_row r in
  mkManagedRow (mkConnectionRow (connection_id c) (display_name c) (root c) (provider_user_id c)
    (credential_identifier c) st (permissions c) (created_at c) (timestamptz at_)) (m_uid r).

Definition set_user (id uid : bytes) (at_ : Z) (r : ManagedRow) : ManagedRow :=
  let c := m_row r in
  mkManagedRow (mkConnectionRow (connection_id c) (display_name c) (root c) (Some id)
    (credential_identifier c) (state c) (permissions c) (created_at c) (timestamptz at_)) (Some uid).

Definition set_credential (identifier : bytes) (at_ : Z) (r : ManagedRow) : ManagedRow :=
  let c := m_row r in
  mkManagedRow (mkConnectionRow (connection_id c) (display_name c) (root c) (provider_user_id c)
    (Some identifier) (state c) (permissions c) (created_at c) (timestamptz at_)) (m_uid r).

Definition account_id (stored : option bytes) : option Identity.AccountId :=
  stored ≫= λ identifier, ok (Identity.account_id_parse identifier).

Definition row_account (r : ConnectionRow) : option Identity.AccountId :=
  account_id (provider_user_id r).
Definition row_credential (r : ConnectionRow) : option Identity.CredentialId :=
  credential_identifier r ≫= λ identifier, ok (Identity.credential_id_parse identifier).
Definition account_row_account (r : AccountRow) : option Identity.AccountId :=
  account_id (ar_provider_user_id r).

(** The character classes of the database's locale, which the constraint on
    display names refers to. *)
Class Locale := { posix_space : Z → bool; posix_cntrl : Z → bool }.

Definition identifier_check (may_be_empty : bool) (s : bytes) : bool :=
  (may_be_empty || negb (is_empty s)) && (length (chars s) <=? 128)%nat && text_ok s.

Definition id_check (s : bytes) : bool :=
  ((16 <=? length s) && (length s <=? 64))%nat
  && forallb (λ c, is_ascii_lowercase c || is_ascii_digit c) s.

(** [root = '/' OR root ~ '^/[a-z0-9_-]+(/[a-z0-9_-]+)*$'] *)
Definition root_check (s : bytes) : bool :=
  bool_decide (s = "/") || (path_check s && forallb (λ c, negb (is_ascii_uppercase c)) s).

Definition states : list bytes :=
  ["provisioning"; "active"; "rotation_unknown"; "revoking"; "cleanup_required"].

Section checks.
Context `{Locale}.

Definition name_check (s : bytes) : bool :=
  negb (is_empty s) && (length (chars s) <=? 100)%nat
  && negb (Trail.opt_check posix_space (head (chars s)))
  && negb (Trail.opt_check posix_space (last (chars s)))
  && negb (existsb posix_cntrl (chars s)) && text_ok s.

(** Every CHECK of the table. *)
Definition row_check (r : ManagedRow) : bool :=
  let c := m_row r in
  id_check (connection_id c) && name_check (display_name c) && root_check (root c)
  && Trail.opt_check (identifier_check false) (provider_user_id c)
  && Trail.opt_check (identifier_check true) (m_uid r)
  && Trail.opt_check (identifier_check false) (credential_identifier c)
  && bool_decide (state c ∈ states) && bool_decide (permissions c ∈ Managed.storage_check)
  && (created_at c <=? updated_at c)%Z.
End checks.

(** ** Deployments *)

(** [ManagedConnectionMetrics]: wrapping counters by label indices. *)
Record ManagedMetrics := mkManagedMetrics {
  operations : gmap (nat * nat) Z; dependencies : gmap (nat * nat) Z }.

Record Deployment (P : Type) := mkDeployment {
  world : World; connections : gmap bytes ManagedRow; name_repaired : bool;
  provider : P; counters : ManagedMetrics }.
Arguments mkDeployment {P}.
Arguments world {P}.
Arguments connections {P}.
Arguments name_repaired {P}.
Arguments provider {P}.
Arguments counters {P}.

Section setters.
Context {P : Type}.
Implicit Types s : Deployment P.
Definition set_world (w : World) s : Deployment P :=
  mkDeployment w (connections s) (name_repaired s) (provider s) (counters s).
Definition set_connections (c : gmap bytes ManagedRow) s : Deployment P :=
  mkDeployment (world s) c (name_repaired s) (provider s) (counters s).
Definition set_name_repaired (b : bool) s : Deployment P :=
  mkDeployment (world s) (connections s) b (provider s) (counters s).
Definition set_provider (p : P) s : Deployment P :=
  mkDeployment (world s) (connections s) (name_repaired s) p (counters s).
Definition set_counters (m : ManagedMetrics) s : Deployment P :=
  mkDeployment (world s) (connections s) (name_repaired s) (provider s) m.
Definition tick_deployment s : Deployment P := set_world (tick (world s)) s.
End setters.

(** ** Steps *)

(** Code that runs without interruption: one statement, or the statements of
    one transaction on a row it holds locked. *)
Definition D (P E A : Type) : Type := Deployment P → result A E * Deployment P.

#[global] Instance D_ret {P E} : MRet (D P E) := λ A a s, (Ok a, s).
#[global] Instance D_bind {P E} : MBind (D P E) :=
  λ A B k m s, match m s with (Ok a, s') => k a s' | (Err e, s') => (Err e, s') end.

Section steps.
Context {P : Type}.

Definition dfail {E A} (e : E) : D P E A := λ s, (Err e, s).
Definition dlift {E A} (r : result A E) : D P E A := λ s, (r, s).
Definition dnow {E} : D P E Z := λ s, (Ok (clock (world s)), s).
Definition on_world {E A} (m : M E A) : D P E A := λ s,
  let '(r, w) := m (world s) in (r, set_world w s).

(** One statement on the table: [None] is a violated constraint. *)
Definition table {A} (f : gmap bytes ManagedRow → option (A * gmap bytes ManagedRow))
  : D P Status A := λ s,
  match outcome (world s), f (connections s) with
  | Done, Some (a, c) => (Ok a, set_connections c (tick_deployment s))
  | Lost, Some (_, c) => (Err Rpc.storage_unavailable, set_connections c (tick_deployment s))
  | _, _ => (Err Rpc.storage_unavailable, tick_deployment s)
  end.

Definition undo (before after : Deployment P) : Deployment P :=
  set_connections (connections before)
    (set_world (set_db (rollback (db (world before)) (db (world after))) (world after)) after).

(** [begin], the body, [commit], as [in_transaction] for the whole database. *)
Definition transact {A} (body : D P Status A) : D P Status A := λ s,
  match outcome (world s) with
  | Done =>
      match body (tick_deployment s) with
      | (Err e, s') => (Err e, undo s s')
      | (Ok a, s') =>
          match outcome (world s') with
          | Done => (Ok a, tick_deployment s')
          | Failed => (Err Rpc.storage_unavailable, undo s (tick_deployment s'))
          | Lost => (Err Rpc.storage_unavailable, tick_deployment s')
          end
      end
  | _ => (Err Rpc.storage_unavailable, tick_deployment s)
  end.
End steps.

(** ** store.rs *)

(** [managed::wire]'s statuses. *)
Definition invalid_request : Status := Rpc.invalid_argument "managed connection request is invalid".
Definition connection_not_found : Status := Rpc.not_found "managed connection not found".
Definition conflict_error : Status :=
  Rpc.aborted "managed connection operation is already in progress".
Definition dependency_error : Status :=
  Rpc.unavailable "managed connection dependency is unavailable".
Definition internal_error : Status := Rpc.internal "managed connection state is invalid".

Section store.
Context {P : Type} `{Locale} `{Crypto} (recorder : Trail.AuditRecorder).

(** [UPDATE … WHERE connection_id = $1 AND …], with the row it returns. *)
Definition update_where (id : bytes) (cond : ManagedRow → bool) (f : ManagedRow → ManagedRow)
    (c : gmap bytes ManagedRow) : option (option ManagedRow * gmap bytes ManagedRow) :=
  match c !! id with
  | Some r =>
      if cond r then
        if row_check (f r) then Some (Some (f r), <[id := f r]> c) else None
      else Some (None, c)
  | None => Some (None, c)
  end.

Definition in_state (st : Managed.ManagedConnectionState) (r : ManagedRow) : bool :=
  bool_decide (state (m_row r) = Managed.state_as_str st).

Definition lock_manageable (id : Managed.ConnectionId) (principal : AuthenticatedPrincipal)
  : D P Status ConnectionRow :=
  found ← table (λ c, Some (c !! Managed.id_str id, c));
  row ← dlift (ok_or (m_row <$> found) connection_not_found);
  root ← dlift (map_err (Path.parse (root row)) (λ _, internal_error));
  if Auth.allows principal root Auth.Manage then mret row else dfail connection_not_found.

Definition transition_state (id : Managed.ConnectionId)
    (expected_state st : Managed.ManagedConnectionState) : D P Status (option ConnectionRow) :=
  now ← dnow;
  moved ← table (update_where (Managed.id_str id) (in_state expected_state)
                   (set_state (Managed.state_as_str st) now));
  mret (m_row <$> moved).

Definition transition_state_recorded (id : Managed.ConnectionId)
    (expected_state st : Managed.ManagedConnectionState) (actor : Actor) (event : AuditEvent)
  : D P Status (option ConnectionRow) :=
  transact (
    now ← dnow;
    moved ← table (update_where (Managed.id_str id) (in_state expected_state)
                     (set_state (Managed.state_as_str st) now));
    match moved with
    | Some row => _ ← on_world (Trail.record_in recorder actor now [event]); mret (Some (m_row row))
    | None => mret None
    end).

(** [DELETE … WHERE connection_id = $1], counting rows. *)
Definition delete_by_id (id : bytes) (c : gmap bytes ManagedRow)
  : option (nat * gmap bytes ManagedRow) :=
  Some (match c !! id with Some _ => 1 | None => 0 end, delete id c).

Definition delete_connection_recorded (id : Managed.ConnectionId) (actor : Actor)
    (event : AuditEvent) : D P Status unit :=
  transact (
    deleted ← table (delete_by_id (Managed.id_str id));
    if (0 <? deleted)%nat
    then now ← dnow; on_world (Trail.record_in recorder actor now [event])
    else mret ()).

Definition delete_connection (id : Managed.ConnectionId) : D P Status unit :=
  _ ← table (delete_by_id (Managed.id_str id)); mret ().

Definition delete_row (id : Managed.ConnectionId) : Deployment P → bool * Deployment P := λ s,
  let '(r, s') := delete_connection id s in (is_ok r, s').

(** [ORDER BY created_at, connection_id] *)
Definition row_leb (a b : ManagedRow) : bool :=
  (created_at (m_row a) <? created_at (m_row b))%Z
  || ((created_at (m_row a) =? created_at (m_row b))%Z
      && bytes_leb (connection_id (m_row a)) (connection_id (m_row b))).

Definition ordered (c : gmap bytes ManagedRow) : list ManagedRow :=
  sort_by row_leb (List.map snd (map_to_list c)).

Definition list_rows : D P Status (list ConnectionRow) :=
  table (λ c, Some (List.map m_row (ordered c), c)).

Definition list_accounts : D P Status (list AccountRow) :=
  table (λ c, Some (omap (λ r,
    uid ← m_uid r;
    Some (mkAccountRow (connection_id (m_row r)) (display_name (m_row r))
            (provider_user_id (m_row r)) uid (state (m_row r)))) (ordered c), c)).

Definition name_repair_completed : D P Status bool := λ s,
  match outcome (world s) with
  | Done => (Ok (name_repaired s), tick_deployment s)
  | _ => (Err Rpc.storage_unavailable, tick_deployment s)
  end.

Definition complete_name_repair : D P Status unit := λ s,
  match outcome (world s) with
  | Done => (Ok tt, set_name_repaired true (tick_deployment s))
  | Lost => (Err Rpc.storage_unavailable, set_name_repaired true (tick_deployment s))
  | Failed => (Err Rpc.storage_unavailable, tick_deployment s)
  end.

(** A primary key, so an identifier in use is refused. *)
Definition insert_provisioning (id : Managed.ConnectionId) (name : Managed.DisplayName)
    (root : ConfigPath) (perms : Managed.ManagedPermissions) : D P Status unit :=
  now ← dnow;
  table (λ c,
    let t := timestamptz now in
    let row := mkManagedRow (mkConnectionRow (Managed.id_str id) (Managed.name_str name)
                 (Path.as_str root) None None "provisioning" (Managed.as_storage perms) t t) None in
    match c !! Managed.id_str id with
    | Some _ => None
    | None => if row_check row then Some (tt, <[Managed.id_str id := row]> c) else None
    end).

Definition record_provider_user (id : Managed.ConnectionId) (account : Identity.ProvisionedAccount)
  : D P Status unit :=
  now ← dnow;
  _ ← table (update_where (Managed.id_str id) (λ _, true)
               (set_user (Identity.account_str (Identity.account account))
                  (Identity.pa_subject account) now));
  mret ().

Definition record_credential_identifier (id : Managed.ConnectionId)
    (credential : Identity.CredentialId) : D P Status unit :=
  now ← dnow;
  _ ← table (update_where (Managed.id_str id) (λ _, true)
               (set_credential (Identity.credential_str credential) now));
  mret ().

Definition mark (st : bytes) (id : Managed.ConnectionId) : D P Status unit :=
  now ← dnow;
  _ ← table (update_where (Managed.id_str id) (λ _, true) (set_state st now));
  mret ().
Definition mark_rotation_unknown : Managed.ConnectionId → D P Status unit := mark "rotation_unknown".
Definition mark_revoking : Managed.ConnectionId → D P Status unit := mark "revoking".
End store.

(** ** Reasoning about steps *)

Section reasoning.
Context {P : Type}.

Lemma dbind_ok {E A B} (m : D P E A) (k : A → D P E B) s b s' :
  (m ≫= k) s = (Ok b, s') ↔ ∃ a s1, m s = (Ok a, s1) ∧ k a s1 = (Ok b, s').
Proof. unfold mbind, D_bind. destruct (m s) as [[a|e] s1]; naive_solver. Qed.

Lemma dret_ok {E A} (a b : A) s s' : mret (M:=D P E) a s = (Ok b, s') ↔ b = a ∧ s' = s.
Proof. unfold mret, D_ret. naive_solver. Qed.

Lemma dlift_ok {E A} (r : result A E) a s s' : dlift (P:=P) r s = (Ok a, s') ↔ r = Ok a ∧ s' = s.
Proof. unfold dlift. naive_solver. Qed.

Lemma dfail_ok {E A} (e : E) (a : A) s s' : dfail (P:=P) e s = (Ok a, s') ↔ False.
Proof. unfold dfail. naive_solver. Qed.

Lemma dnow_ok {E} s t s' : dnow (P:=P) (E:=E) s = (Ok t, s') ↔ t = clock (world s) ∧ s' = s.
Proof. unfold dnow. naive_solver. Qed.

Lemma table_ok {A} (f : gmap bytes ManagedRow → option (A * gmap bytes ManagedRow)) s a s' :
  table (P:=P) f s = (Ok a, s') ↔
  outcome (world s) = Done ∧ ∃ c, f (connections s) = Some (a, c)
    ∧ s' = set_connections c (tick_deployment s).
Proof. unfold table. destruct (outcome (world s)), (f (connections s)) as [[? ?]|]; naive_solver. Qed.

Lemma on_world_ok {E A} (m : M E A) s a s' :
  on_world (P:=P) m s = (Ok a, s') ↔ ∃ w, m (world s) = (Ok a, w) ∧ s' = set_world w s.
Proof. unfold on_world. destruct (m (world s)) as [[?|?] w]; naive_solver. Qed.

Lemma transact_ok {A} (body : D P Status A) s a s' :
  transact body s = (Ok a, s') ↔
  outcome (world s) = Done ∧ ∃ s1, body (tick_deployment s) = (Ok a, s1)
    ∧ outcome (world s1) = Done ∧ s' = tick_deployment s1.
Proof.
  unfold transact. split.
  - intros H. destruct (outcome (world s)); [|done..]. split; [done|].
    destruct (body _) as [[a'|e'] s1]; [|done]. exists s1.
    destruct (outcome (world s1)) eqn:Eo; [|done..]. by simplify_eq.
  - intros (-> & s1 & -> & -> & ->). done.
Qed.

(** Whatever the end of a transaction, its table is the one before it or the
    one its body left. *)
Lemma transact_connections {A} (body : D P Status A) s :
  connections (transact body s).2 = connections s
  ∨ ∃ a s1, body (tick_deployment s) = (Ok a, s1)
      ∧ connections (transact body s).2 = connections s1.
Proof.
  unfold transact. destruct (outcome (world s)); [|by left..].
  destruct (body _) as [[a|e] s1] eqn:E; [|by left].
  destruct (outcome (world s1)); simpl; eauto.
Qed.

(** The database is not the provider. *)
Lemma transact_provider {A} (body : D P Status A) s :
  provider (body (tick_deployment s)).2 = provider s → provider (transact body s).2 = provider s.
Proof.
  intros Hb. unfold transact. destruct (outcome (world s)); [|done..].
  destruct (body _) as [[a|e] s1]; simpl in *; [|done]. by destruct (outcome (world s1)).
Qed.

Lemma table_connections {A} (f : gmap bytes ManagedRow → option (A * gmap bytes ManagedRow)) s :
  connections (table (P:=P) f s).2 = connections s
  ∨ ∃ a c, f (connections s) = Some (a, c) ∧ connections (table (P:=P) f s).2 = c.
Proof.
  unfold table. destruct (outcome (world s)), (f (connections s)) as [[? ?]|]; simpl; eauto.
Qed.
End reasoning.

(** Decomposes a successful uninterrupted run. *)
Ltac dstep :=
  match goal with
  | H : (_ ≫= _) _ = (Ok _, _) |- _ => apply dbind_ok in H as (? & ? & ? & H)
  | H : mret _ _ = (Ok _, _) |- _ => apply dret_ok in H as (? & ?); subst
  | H : dlift _ _ = (Ok _, _) |- _ => apply dlift_ok in H as (? & ?); subst
  | H : dfail _ _ = (Ok _, _) |- _ => by apply dfail_ok in H
  | H : dnow _ = (Ok _, _) |- _ => apply dnow_ok in H as (? & ?); subst
  | H : map_err _ _ = Ok _ |- _ => apply map_err_ok in H
  | H : ok_or _ _ = Ok _ |- _ => apply ok_or_ok in H
  | H : table _ _ = (Ok _, _) |- _ => apply table_ok in H as (? & ? & ? & ?); subst
  | H : on_world _ _ = (Ok _, _) |- _ => apply on_world_ok in H as (? & ? & ?); subst
  | H : transact _ _ = (Ok _, _) |- _ => apply transact_ok in H as (? & ? & ? & ? & ?); subst
  end.
Ltac dsteps := repeat dstep.
