(* ===== verification/ManagedService.v ===== *)
(** * The managed connection service

    Models [crates/sovereign-config-server/src/managed]: the generated
    identifiers of [identity.rs], the replies of [wire.rs], the provisioning,
    compensation and reconciliation of [provisioning.rs] and the operations of
    [service.rs].  An operation is a [Flow]: the statements and transactions of
    [ManagedStore.v] and the calls of the identity provider, in the order the
    source awaits them, with every other task free to run between two of
    them. *)

From stdpp Require Import strings.
From S2P Require Import Prelude Bytes ConfigPath Core Managed Auth Encryption AuditEvent Rpc Database AuditTrail ConnectionUrl Identity Flow ManagedStore.

Local Open Scope bytes_scope.

(** ** metrics.rs: the labels of the counters *)

Module Labels.

Inductive ManagedOperation := List | Create | Rotate | Revoke.
Definition operation_index (o : ManagedOperation) : nat :=
  match o with List => 0 | Create => 1 | Rotate => 2 | Revoke => 3 end.

Inductive ManagedOperationResult :=
| Success | InvalidRequest | Unauthenticated | PermissionDenied | NotFound | Conflict | Storage
| Dependency | CleanupRequired | Internal.
#[global] Instance ManagedOperationResult_eq_dec : EqDecision ManagedOperationResult.
Proof. solve_decision. Defined.
Definition result_index (r : ManagedOperationResult) : nat :=
  match r with
  | Success => 0 | InvalidRequest => 1 | Unauthenticated => 2 | PermissionDenied => 3
  | NotFound => 4 | Conflict => 5 | Storage => 6 | Dependency => 7 | CleanupRequired => 8
  | Internal => 9
  end.

Inductive ManagedDependencyCall :=
| CreateAccount | SetAttributes | FindUser | FindCredentials | SetCredential | DeleteUser
| AssignGroup | RenameAccount.
Definition call_index (c : ManagedDependencyCall) : nat :=
  match c with
  | CreateAccount => 0 | SetAttributes => 1 | FindUser => 2 | FindCredentials => 3
  | SetCredential => 4 | DeleteUser => 5 | AssignGroup => 6 | RenameAccount => 7
  end.

Inductive ManagedDependencyOutcome :=
| DepOk | DepNotFound | DepRejected | DepUnavailable | DepAmbiguous | DepInvalid.
Definition outcome_index (o : ManagedDependencyOutcome) : nat :=
  match o with
  | DepOk => 0 | DepNotFound => 1 | DepRejected => 2 | DepUnavailable => 3 | DepAmbiguous => 4
  | DepInvalid => 5
  end.

(** [fetch_add(1)] of one cell of a table of 64-bit counters. *)
Definition bump (i j : nat) (m : gmap (nat * nat) Z) : gmap (nat * nat) Z :=
  <[(i, j) := Trail.wrap64 (default 0%Z (m !! (i, j)) + 1)]> m.

End Labels.

(** ** identity.rs *)

Module Names.

Definition CONNECTION_ID_CHARS : nat := 32.
Definition USERNAME_PREFIX : bytes := "sc-managed-".
Definition USERNAME_SLUG_MAX_CHARS : nat := 32.
Definition ALPHABET : bytes := "abcdefghijklmnopqrstuvwxyz0123456789".

(** The loop over the characters; [slug] holds ASCII only, so its length in
    bytes is its length in characters.  [char::to_ascii_lowercase] leaves other
    characters alone. *)
Fixpoint slug_from (slug : bytes) (cs : list Z) : bytes :=
  match cs with
  | [] => slug
  | c :: cs' =>
      let lower := (if (65 <=? c) && (c <=? 90) then c + 32 else c)%Z in
      if char_is_ascii_alphanumeric lower then
        if (USERNAME_SLUG_MAX_CHARS <=? length slug)%nat then slug
        else slug_from (slug ++ [byte lower]) cs'
      else if negb (is_empty slug) && negb (ends_with slug "-")
              && (length slug <? USERNAME_SLUG_MAX_CHARS)%nat
      then slug_from (slug ++ "-") cs'
      else slug_from slug cs'
  end.

Definition username_slug (display_name : bytes) : bytes :=
  trim_end_matches "-"%char (slug_from [] (chars display_name)).

Definition managed_username (connection_id : Managed.ConnectionId) (display_name : bytes) : bytes :=
  let slug := username_slug display_name in
  if is_empty slug then USERNAME_PREFIX ++ Managed.id_str connection_id
  else USERNAME_PREFIX ++ slug ++ "-" ++ Managed.id_str connection_id.

(** Bytes at or above the largest multiple of the alphabet's length are
    rejected. *)
Definition limit (alphabet : bytes) : Z := 255 - 255 mod Z.of_nat (length alphabet).

Definition push_byte (alphabet : bytes) (wanted : nat) (value : bytes) (b : ascii) : bytes :=
  if (code b <? limit alphabet)%Z && (length value <? wanted)%nat
  then value ++ option_list (alphabet !! Z.to_nat (code b mod Z.of_nat (length alphabet)))
  else value.

(** [random_string]'s loop, over the buffers the random source will fill:
    [None] is a failing source, and nothing is drawn once enough is there. *)
Fixpoint random_string (alphabet : bytes) (wanted : nat) (value : bytes)
    (source : list (option bytes)) : result bytes Status * list (option bytes) :=
  if (wanted <=? length value)%nat then (Ok value, source)
  else match source with
       | Some buffer :: source' =>
           random_string alphabet wanted (foldl (push_byte alphabet wanted) value buffer) source'
       | None :: source' => (Err internal_error, source')
       | [] => (Err internal_error, [])
       end.

Definition generate_connection_id {P} : D P Status Managed.ConnectionId := λ s,
  let '(r, rest) := random_string ALPHABET CONNECTION_ID_CHARS [] (entropy (world s)) in
  (let? value := r in map_err (Managed.connection_id_parse value) (λ _, internal_error),
   set_world (set_entropy rest (world s)) s).

End Names.

(** ** wire.rs *)

Record ConnectionMetadata := mkMetadata {
  md_connection_id : bytes; md_display_name : bytes; md_root : bytes;
  md_state : Managed.ManagedConnectionState; md_permissions : Managed.ManagedPermissions;
  md_created_at : Stamps.Timestamp; md_updated_at : Stamps.Timestamp }.

Record ProvisionedConnection := mkProvisionedConnection {
  pc_metadata : ConnectionMetadata; pc_connection_url : Connection.ConnectionUrl }.

Definition metadata (row : ConnectionRow) : result ConnectionMetadata Status :=
  let? st := map_err (Managed.state_parse (state row)) (λ _, internal_error) in
  let? perms := map_err (Managed.parse (permissions row)) (λ _, internal_error) in
  let? created := Rpc.to_timestamp (created_at row) in
  let? updated := Rpc.to_timestamp (updated_at row) in
  Ok (mkMetadata (connection_id row) (display_name row) (root row) st perms created updated).

(** ** provisioning.rs and service.rs *)

Module Service.
Import Identity.

Definition CREATE_RECONCILIATION_ATTEMPTS : nat := 3.
Definition CLEANUP_MESSAGE : bytes := "managed connection requires cleanup".
Definition cleanup_status : Status := Rpc.unavailable CLEANUP_MESSAGE.

Record AccountName := mkAccountName { an_username : bytes; an_display_name : bytes }.

Record ManagedSettings := mkSettings {
  public_origin : bytes; issuer : bytes; rotation_lease : Z }.   (* nanoseconds *)

Definition dependency_outcome (e : ProviderError) : Labels.ManagedDependencyOutcome :=
  match e with
  | NotFound => Labels.DepNotFound
  | Rejected => Labels.DepRejected
  | Unavailable => Labels.DepUnavailable
  | Ambiguous => Labels.DepAmbiguous
  | Invalid => Labels.DepInvalid
  end.

Definition required_permission (p : Managed.ManagedPermission) : Auth.Permission :=
  match p with
  | Managed.Read => Auth.Read
  | Managed.Write => Auth.Write
  | Managed.Manage => Auth.Manage
  end.

Definition refusal_outcome (status : Status) : Labels.ManagedOperationResult :=
  match status_code status with
  | Rpc.InvalidArgument => Labels.InvalidRequest
  | Rpc.Unauthenticated => Labels.Unauthenticated
  | Rpc.PermissionDenied => Labels.PermissionDenied
  | Rpc.NotFound => Labels.NotFound
  | Rpc.Aborted => Labels.Conflict
  | Rpc.Unavailable =>
      if bool_decide (status_message status = Rpc.STORAGE_UNAVAILABLE_MESSAGE) then Labels.Storage
      else if bool_decide (status_message status = CLEANUP_MESSAGE) then Labels.CleanupRequired
      else Labels.Dependency
  | _ => Labels.Internal
  end.

Section service.
Context {P : Type} `{ManagedIdentityProvider P} `{Locale} `{Crypto} `{UrlCrates}.
Context (recorder : Trail.AuditRecorder) (settings : ManagedSettings).

Abbreviation F := (Flow (Deployment P)).

(** A call of the provider, and one statement or transaction. *)
Definition ask {A} (call : P → A * P) : F A := act (λ s,
  let '(r, p) := call (provider s) in (r, set_provider p s)).
Definition sql {A} (m : D P Status A) : F (result A Status) := act m.

Definition record_dependency (call : Labels.ManagedDependencyCall)
    (outcome : Labels.ManagedDependencyOutcome) : F unit := act (λ s,
  (tt, set_counters (mkManagedMetrics (operations (counters s))
         (Labels.bump (Labels.call_index call) (Labels.outcome_index outcome)
            (dependencies (counters s)))) s)).

Definition record_operation (operation : Labels.ManagedOperation)
    (outcome : Labels.ManagedOperationResult) : F unit := act (λ s,
  (tt, set_counters (mkManagedMetrics
         (Labels.bump (Labels.operation_index operation) (Labels.result_index outcome)
            (operations (counters s))) (dependencies (counters s))) s)).

(** [tokio::time::sleep]: the task only yields. *)
Definition sleep : F unit := act (λ s, (tt, s)).

Definition credential_gone (username : bytes) : F (option bool) :=
  await r := ask (find_credentials username) in
  match r with
  | Ok identifiers =>
      await _ := record_dependency Labels.FindCredentials
                   (if is_empty identifiers then Labels.DepNotFound else Labels.DepOk) in
      Ret (Some (is_empty identifiers))
  | Err error =>
      await _ := record_dependency Labels.FindCredentials (dependency_outcome error) in
      Ret None
  end.

Definition credential_is_gone (username : bytes) : F bool :=
  await gone := credential_gone username in Ret (bool_decide (gone = Some true)).

Definition cleanup_required (id : Managed.ConnectionId) : F Status :=
  await _ := sql (transition_state id Managed.Provisioning Managed.CleanupRequired) in
  Ret cleanup_status.

Definition compensate_created_account (id : Managed.ConnectionId) (account : AccountId)
    (failure : Status) : F Status :=
  await deletion := ask (delete_account account) in
  match deletion with
  | Ok _ | Err NotFound =>
      await _ := record_dependency Labels.DeleteUser
                   (if is_ok deletion then Labels.DepOk else Labels.DepNotFound) in
      await deleted := act (delete_row id) in
      if deleted : bool then Ret failure else cleanup_required id
  | Err error =>
      await _ := record_dependency Labels.DeleteUser (dependency_outcome error) in
      cleanup_required id
  end.

(** [for attempt in 0..CREATE_RECONCILIATION_ATTEMPTS], [left] of them to go. *)
Fixpoint reconcile (id : Managed.ConnectionId) (username : bytes) (left : nat) : F Status :=
  match left with
  | O => cleanup_required id
  | S left' =>
      await _ := (if (left <? CREATE_RECONCILIATION_ATTEMPTS)%nat then sleep else Ret tt) in
      await found := ask (find_account username) in
      match found with
      | Ok (Some account) =>
          await _ := record_dependency Labels.FindUser Labels.DepOk in
          compensate_created_account id account dependency_error
      | Ok None =>
          await _ := record_dependency Labels.FindUser Labels.DepOk in
          reconcile id username left'
      | Err probe_error =>
          await _ := record_dependency Labels.FindUser (dependency_outcome probe_error) in
          cleanup_required id
      end
  end.

Definition recover_ambiguous_create (id : Managed.ConnectionId) (username : bytes)
    (error : ProviderError) : F Status :=
  match error with
  | Ambiguous | Invalid => reconcile id username CREATE_RECONCILIATION_ATTEMPTS
  | _ => await _ := act (delete_row id) in Ret dependency_error
  end.

Definition assign_managed_group (account : AccountId) : F unit :=
  await r := ask (assign_browse_group account) in
  record_dependency Labels.AssignGroup
    (match r with Ok _ => Labels.DepOk | Err error => dependency_outcome error end).

Definition configure_account (id : Managed.ConnectionId) (name : AccountName) (root : ConfigPath)
    (perms : Managed.ManagedPermissions) (account : AccountId) : F (result unit Status) :=
  await found := ask (find_credentials (an_username name)) in
  match found with
  | Err error =>
      await _ := record_dependency Labels.FindCredentials (dependency_outcome error) in
      Ret (Err dependency_error)
  | Ok [credential_identifier] =>
      await _ := record_dependency Labels.FindCredentials Labels.DepOk in
      let! _ := sql (record_credential_identifier id credential_identifier) in
      let account_grant := mkAccountGrant (Managed.id_str id) (an_display_name name)
                             (Path.as_str root) (Managed.grant_tokens perms) in
      await granted := ask (grant account account_grant) in
      match granted with
      | Ok _ =>
          await _ := record_dependency Labels.SetAttributes Labels.DepOk in
          await _ := assign_managed_group account in
          Ret (Ok tt)
      | Err error =>
          await _ := record_dependency Labels.SetAttributes (dependency_outcome error) in
          Ret (Err dependency_error)
      end
  | Ok _ =>
      await _ := record_dependency Labels.FindCredentials Labels.DepInvalid in
      Ret (Err dependency_error)
  end.

Definition managed_url (root : ConfigPath) (credential : ClientCredential) (username : bytes)
  : result Connection.ConnectionUrl Status :=
  map_err (Connection.managed (public_origin settings) root (issuer settings) (client_id credential)
             username (secret credential)) (λ _, internal_error).

Definition complete_provisioning (id : Managed.ConnectionId) (name : AccountName)
    (root : ConfigPath) (perms : Managed.ManagedPermissions) (account : ProvisionedAccount)
    (created : Actor * AuditEvent)
  : F (result (ConnectionRow * Connection.ConnectionUrl) Status) :=
  let! _ := sql (record_provider_user id account) in
  let! _ := configure_account id name root perms (Identity.account account) in
  let! url := Ret (managed_url root (credential account) (an_username name)) in
  let! moved := sql (transition_state_recorded recorder id Managed.Provisioning Managed.Active
                       created.1 created.2) in
  let! row := Ret (ok_or moved internal_error) in
  Ret (Ok (row, url)).

Definition provision_inserted (id : Managed.ConnectionId) (name : AccountName) (root : ConfigPath)
    (perms : Managed.ManagedPermissions) (created : Actor * AuditEvent)
  : F (result ProvisionedConnection Status) :=
  await account := ask (create_account (an_username name)) in
  match account with
  | Err error =>
      await _ := record_dependency Labels.CreateAccount (dependency_outcome error) in
      await status := recover_ambiguous_create id (an_username name) error in
      Ret (Err status)
  | Ok account =>
      await _ := record_dependency Labels.CreateAccount Labels.DepOk in
      await completed := complete_provisioning id name root perms account created in
      match completed with
      | Ok (row, url) =>
          let! md := Ret (metadata row) in
          Ret (Ok (mkProvisionedConnection md url))
      | Err status =>
          await failure := compensate_created_account id (Identity.account account) status in
          Ret (Err failure)
      end
  end.

Definition list_connections (context : Rpc.CallContext)
  : F (result (list ConnectionMetadata) Status) :=
  let! principal := Ret (Rpc.principal context) in
  let! rows := sql list_rows in
  Ret (fold_result (λ acc row,
         let? root := map_err (Path.parse (root row)) (λ _, internal_error) in
         if Auth.allows principal root Auth.Manage
         then let? md := metadata row in Ok (acc ++ [md]) else Ok acc) [] rows).

Definition not_permitted : Status :=
  Rpc.permission_denied "configuration operation is not permitted".

(** The checks of [create] before anything is stored. *)
Definition create_request (context : Rpc.CallContext) (name root : bytes)
    (perms : option Managed.ManagedPermissions)
  : result (Actor * Managed.DisplayName * ConfigPath * Managed.ManagedPermissions) Status :=
  let? principal := Rpc.principal context in
  let? actor := Rpc.actor context in
  let? name := map_err (Managed.display_name_parse name) (λ _, invalid_request) in
  let? root := map_err (Path.parse_selection root) (λ _, invalid_request) in
  (* [expect]: the fold of a valid path is valid *)
  let? root := map_err (Path.parse (Path.fold root)) (λ _, internal_error) in
  let? perms := ok_or perms invalid_request in
  if negb (Auth.allows principal root Auth.Manage)
     || existsb (λ p, negb (Auth.allows principal root (required_permission p)))
          (Managed.iter perms)
  then Err not_permitted
  else Ok (actor, name, root, perms).

Definition create (context : Rpc.CallContext) (name root : bytes)
    (perms : option Managed.ManagedPermissions) : F (result ProvisionedConnection Status) :=
  let! request := Ret (create_request context name root perms) in
  let '(actor, name, root, perms) := request in
  let! id := sql Names.generate_connection_id in
  let username := Names.managed_username id (Managed.name_str name) in
  let! _ := sql (insert_provisioning id name root perms) in
  let event := Event.connection_created actor
    (mkConnectionSubject (Path.as_str root) (Managed.name_str name) (Managed.id_str id))
    (Managed.as_storage perms) in
  provision_inserted id (mkAccountName username (Managed.name_str name)) root perms (actor, event).

(** [begin_rotation]'s transaction, and its body. *)
Definition rotation_claim (id : Managed.ConnectionId) (principal : AuthenticatedPrincipal)
  : D P Status (ConnectionRow * ConfigPath) :=
  row ← lock_manageable id principal;
  root ← dlift (map_err (Path.parse (root row)) (λ _, internal_error));
  st ← dlift (map_err (Managed.state_parse (state row)) (λ _, internal_error));
  now ← dnow;
  let recoverable := bool_decide (st = Managed.RotationUnknown)
                     && (rotation_lease settings <=? now - updated_at row)%Z in
  if negb (bool_decide (st = Managed.Active) || recoverable) then dfail conflict_error
  else if bool_decide (credential_identifier row = None) then dfail conflict_error
  else _ ← mark_rotation_unknown id; mret (row, root).

Definition begin_rotation (id : Managed.ConnectionId) (context : Rpc.CallContext)
  : D P Status (ConnectionRow * ConfigPath) :=
  principal ← dlift (Rpc.principal context);
  transact (rotation_claim id principal).

Definition settle (id : Managed.ConnectionId) (credential_gone : bool) : F unit :=
  await _ := sql (transition_state id Managed.RotationUnknown
                    (if credential_gone then Managed.CleanupRequired else Managed.Active)) in
  Ret tt.

Definition settle_failed_rotation (id : Managed.ConnectionId) (username : bytes)
    (error : ProviderError) : F unit :=
  match error with
  | Unavailable => settle id false
  | Rejected =>
      await gone := credential_gone username in
      match gone with Some gone => settle id gone | None => Ret tt end
  | NotFound => settle id true
  | Ambiguous | Invalid => Ret tt
  end.

Definition rotate (context : Rpc.CallContext) (connection_id : bytes)
  : F (result ProvisionedConnection Status) :=
  let! id := Ret (map_err (Managed.connection_id_parse connection_id) (λ _, invalid_request)) in
  let! begun := sql (begin_rotation id context) in
  let '(row, root) := begun in
  let! actor := Ret (Rpc.actor context) in
  let! credential := Ret (ok_or (row_credential row) internal_error) in
  let username := Names.managed_username id (display_name row) in
  await replaced := ask (replace_credential credential) in
  match replaced with
  | Err error =>
      await _ := record_dependency Labels.SetCredential (dependency_outcome error) in
      await _ := settle_failed_rotation id username error in
      Ret (Err dependency_error)
  | Ok replacement =>
      await _ := record_dependency Labels.SetCredential Labels.DepOk in
      let! url := Ret (managed_url root replacement username) in
      let event := Event.connection_rotated actor
        (mkConnectionSubject (Path.as_str root) (display_name row) (Managed.id_str id)) in
      let! moved := sql (transition_state_recorded recorder id Managed.RotationUnknown
                           Managed.Active actor event) in
      match moved with
      | None => Ret (Err dependency_error)
      | Some row => let! md := Ret (metadata row) in Ret (Ok (mkProvisionedConnection md url))
      end
  end.

(** [claim_for_revocation]'s transaction. *)
Definition claim_for_revocation (context : Rpc.CallContext) (id : Managed.ConnectionId)
  : D P Status ConnectionRow :=
  principal ← dlift (Rpc.principal context);
  transact (row ← lock_manageable id principal; _ ← mark_revoking id; mret row).

Definition revocation_target (row : ConnectionRow) (username : bytes)
  : F (result (option AccountId) Status) :=
  match row_account row with
  | Some account => Ret (Ok (Some account))
  | None =>
      await r := ask (find_account username) in
      match r with
      | Ok found =>
          await _ := record_dependency Labels.FindUser Labels.DepOk in Ret (Ok found)
      | Err error =>
          await _ := record_dependency Labels.FindUser (dependency_outcome error) in
          await gone := credential_is_gone username in
          if gone : bool then Ret (Ok None) else Ret (Err dependency_error)
      end
  end.

Definition delete_account_confirmed (account : AccountId) (username : bytes)
  : F (result unit Status) :=
  await r := ask (delete_account account) in
  match r with
  | Ok _ => await _ := record_dependency Labels.DeleteUser Labels.DepOk in Ret (Ok tt)
  | Err error =>
      await _ := record_dependency Labels.DeleteUser (dependency_outcome error) in
      await gone := credential_is_gone username in
      if gone : bool then Ret (Ok tt) else Ret (Err dependency_error)
  end.

Definition revoke (context : Rpc.CallContext) (connection_id : bytes) : F (result unit Status) :=
  let! id := Ret (map_err (Managed.connection_id_parse connection_id) (λ _, invalid_request)) in
  let! row := sql (claim_for_revocation context id) in
  let! actor := Ret (Rpc.actor context) in
  let username := Names.managed_username id (display_name row) in
  let! target := revocation_target row username in
  let! _ := match target with
            | Some account => delete_account_confirmed account username
            | None => Ret (Ok tt)
            end in
  let event := Event.connection_revoked actor
    (mkConnectionSubject (root row) (display_name row) (Managed.id_str id)) in
  sql (delete_connection_recorded recorder id actor event).

(** ** The operations a protocol shim calls *)

Definition recorded {A} (operation : Labels.ManagedOperation) (f : F (result A Status))
  : F (result A Status) :=
  await r := f in
  await _ := record_operation operation
               (match r with Ok _ => Labels.Success | Err status => refusal_outcome status end) in
  Ret r.

Definition list_managed_connections (context : Rpc.CallContext) :
  F (result (list ConnectionMetadata) Status) := recorded Labels.List (list_connections context).
Definition create_managed_connection (context : Rpc.CallContext) (name root : bytes)
    (perms : option Managed.ManagedPermissions) : F (result ProvisionedConnection Status) :=
  recorded Labels.Create (create context name root perms).
Definition rotate_managed_connection (context : Rpc.CallContext) (id : bytes)
  : F (result ProvisionedConnection Status) := recorded Labels.Rotate (rotate context id).
Definition revoke_managed_connection (context : Rpc.CallContext) (id : bytes)
  : F (result unit Status) := recorded Labels.Revoke (revoke context id).
Definition refused (operation : Labels.ManagedOperation) (status : Status) : F Status :=
  await _ := record_operation operation (refusal_outcome status) in Ret status.
End service.

End Service.
