(* ===== verification/ManagedNames.v ===== *)
(** * Generated identifiers and usernames

    What [managed/identity.rs] guarantees of the names it generates: a username
    is a bounded text the connection URL can carry and determines its
    connection, and an identifier is drawn without bias. *)

From stdpp Require Import strings.
From S2P Require Import Prelude Bytes ConfigPath Core Managed Rpc Database Encryption Identity Flow ManagedStore ManagedService.

Local Open Scope bytes_scope.

Module Naming.
Import Names.

(** The characters of a slug, and of an identifier. *)
Definition id_char (c : ascii) : bool := is_ascii_lowercase c || is_ascii_digit c.
Definition slug_char (c : ascii) : bool := id_char c || bool_decide (c = "-"%char).

(** ** Lemmas: slugs *)

Lemma lower_char_ok c :
  char_is_ascii_alphanumeric (if (65 <=? c) && (c <=? 90) then c + 32 else c)%Z = true →
  id_char (byte (if (65 <=? c) && (c <=? 90) then c + 32 else c)%Z) = true.
Proof.
  intros Hc. set (l := (if (65 <=? c) && (c <=? 90) then c + 32 else c)%Z) in *.
  assert (97 ≤ l ≤ 122 ∨ 48 ≤ l ≤ 57)%Z as Hl.
  { unfold char_is_ascii_alphanumeric in Hc. unfold l in *.
    destruct (Z.leb_spec 65 c), (Z.leb_spec c 90); simpl in *;
      rewrite !orb_true_iff, !andb_true_iff, !Z.leb_le in Hc; lia. }
  assert (∀ n, (0 ≤ n < 256)%nat → (97 ≤ Z.of_nat n ≤ 122 ∨ 48 ≤ Z.of_nat n ≤ 57)%Z →
            id_char (byte (Z.of_nat n)) = true) as Hall.
  { intros n Hn Hr. assert (n ∈ seq 0 256) as Hin by (apply elem_of_seq; lia).
    assert (Forall (λ n, (97 ≤ Z.of_nat n ≤ 122 ∨ 48 ≤ Z.of_nat n ≤ 57)%Z →
                         id_char (byte (Z.of_nat n)) = true) (seq 0 256)) as Hf.
    { apply (bool_decide_unpack _). vm_compute. exact I. }
    rewrite Forall_forall in Hf. by apply Hf. }
  rewrite <- (Z2Nat.id l) by lia. apply Hall; lia.
Qed.

(** The loop keeps a bounded slug of slug characters that does not start with a
    hyphen. *)
Definition slug_ok (s : bytes) : Prop :=
  Forall (λ c, slug_char c = true) s ∧ length s ≤ USERNAME_SLUG_MAX_CHARS
  ∧ head s ≠ Some "-"%char.

Lemma slug_from_ok cs : ∀ s, slug_ok s → slug_ok (slug_from s cs).
Proof.
  induction cs as [|c cs IH]; intros s Hs; [done|]. cbn [slug_from].
  destruct (char_is_ascii_alphanumeric _) eqn:Ec.
  - destruct (Nat.leb_spec USERNAME_SLUG_MAX_CHARS (length s)); [done|]. apply IH.
    destruct Hs as (Hf & Hl & Hh). apply lower_char_ok in Ec. split_and!.
    + apply Forall_app. split; [done|]. repeat constructor. unfold slug_char. by rewrite Ec.
    + rewrite length_app. simpl. lia.
    + destruct s; [|done]. simpl. intros [= E]. rewrite E in Ec. by vm_compute in Ec.
  - destruct (negb _ && _ && _) eqn:Eh; [|by apply IH]. apply IH.
    destruct Hs as (Hf & Hl & Hh). bool_prop.
    match goal with H : (length s <? _)%nat = true |- _ => apply Nat.ltb_lt in H end. split_and!.
    + apply Forall_app. split; [done|]. by repeat constructor.
    + rewrite length_app. simpl. lia.
    + by destruct s.
Qed.

Lemma trim_start_suffix c s : trim_start_matches c s `suffix_of` s.
Proof.
  induction s as [|d s IH]; simpl; [done|]. case_match; [|done].
  etrans; [exact IH|]. by exists [d].
Qed.

Lemma trim_end_prefix c s : trim_end_matches c s `prefix_of` s.
Proof.
  unfold trim_end_matches. destruct (trim_start_suffix c (rev s)) as [k Hk].
  exists (rev k). rewrite <- rev_app_distr, <- Hk. by rewrite rev_involutive.
Qed.

Lemma slug_prefix s s' : s' `prefix_of` s → slug_ok s → slug_ok s'.
Proof.
  intros [k ->] (Hf & Hl & Hh). apply Forall_app in Hf as [? ?]. rewrite length_app in Hl.
  split_and!; [done|lia|]. by destruct s'.
Qed.

Lemma username_slug_ok name : slug_ok (username_slug name).
Proof.
  eapply slug_prefix; [apply trim_end_prefix|]. apply slug_from_ok. split_and!; [done|simpl; lia|done].
Qed.

(** ** Lemmas: identifiers *)

Lemma connection_id_chars text id :
  Managed.connection_id_parse text = Ok id →
  Managed.id_str id = text ∧ 16 ≤ length text ≤ 64 ∧ Forall (λ c, id_char c = true) text.
Proof.
  unfold Managed.connection_id_parse. destruct (_ && _) eqn:E; [|done]. intros [= <-]. bool_prop.
  split; [done|]. split; [|by apply forallb_Forall].
  split; by apply Nat.leb_le.
Qed.

Lemma id_hyphen_free text : Forall (λ c, id_char c = true) text → "-"%char ∉ text.
Proof. intros Hf Hin. rewrite Forall_forall in Hf. by apply Hf in Hin. Qed.

(** The username of a managed connection's account is a text of at most 108
    lowercase letters, digits and hyphens, so the connection URL can carry it,
    and it determines the connection, whatever the display names are. *)
Theorem usernames_determine_connections text text' id id' name name' :
  Managed.connection_id_parse text = Ok id → Managed.connection_id_parse text' = Ok id' →
  Forall (λ c, slug_char c = true) (managed_username id name)
  ∧ length (managed_username id name) ≤ 108
  ∧ ":"%char ∉ managed_username id name
  ∧ (managed_username id name = managed_username id' name' → id = id').
Proof.
  intros (E & Hl & Hc)%connection_id_chars (E' & Hl' & Hc')%connection_id_chars.
  destruct (username_slug_ok name) as (Hsf & Hsl & _). unfold USERNAME_SLUG_MAX_CHARS in Hsl.
  assert (Forall (λ c, slug_char c = true) (managed_username id name)) as Hf.
  { unfold managed_username. rewrite E. destruct (is_empty _); rewrite !Forall_app; split_and!; try done;
      try (apply (bool_decide_unpack _); vm_compute; exact I);
      (eapply Forall_impl; [exact Hc|]; simpl; unfold slug_char; by intros c ->). }
  split; [done|]. split; [|split].
  - unfold managed_username. rewrite E. destruct (is_empty _); rewrite !length_app; simpl; lia.
  - intros Hin. rewrite Forall_forall in Hf. by apply Hf in Hin.
  - assert (∀ i n, Forall (λ c, id_char c = true) (Managed.id_str i) →
              ∃ p, rsplit_once "-"%char (managed_username i n) = Some (p, Managed.id_str i)) as Hsplit.
    { intros i n Hi. apply id_hyphen_free in Hi. unfold managed_username.
      destruct (is_empty (username_slug n)).
      - exists "sc-managed". apply rsplit_once_spec. by split.
      - exists (USERNAME_PREFIX ++ username_slug n). apply rsplit_once_spec. split; [|done].
        by rewrite <- app_assoc. }
    intros Hu. rewrite <- E in Hc. rewrite <- E' in Hc'.
    destruct (Hsplit id name Hc) as [p Hp], (Hsplit id' name' Hc') as [p' Hp'].
    rewrite Hu, Hp' in Hp. destruct id, id'. simpl in *. congruence.
Qed.

Lemma usernames_determine_connections_witness :
  let id := Managed.mkConnectionId "abcdefghijklmnop" in
  managed_username id "CI Reader!" = "sc-managed-ci-reader-abcdefghijklmnop"
  ∧ length (managed_username id "CI Reader!") ≤ 108.
Proof.
  split; [vm_compute; reflexivity|].
  apply (usernames_determine_connections "abcdefghijklmnop" "abcdefghijklmnop"
           (Managed.mkConnectionId "abcdefghijklmnop") (Managed.mkConnectionId "abcdefghijklmnop")
           "CI Reader!" "CI Reader!"); vm_compute; reflexivity.
Defined.

(** ** Drawing identifiers *)

(** Every byte. *)
Definition all_bytes_list : list ascii := List.map (λ n, byte (Z.of_nat n)) (seq 0 256).

(** The bytes that are accepted and draw [c]. *)
Definition drawn_by (c : ascii) : list ascii :=
  List.filter (λ b, (code b <? limit ALPHABET)%Z
    && bool_decide (ALPHABET !! Z.to_nat (code b mod Z.of_nat (length ALPHABET)) = Some c))
    all_bytes_list.

Lemma push_byte_ok wanted value b :
  length value ≤ wanted → Forall (λ c, c ∈ ALPHABET) value →
  length (push_byte ALPHABET wanted value b) ≤ wanted
  ∧ Forall (λ c, c ∈ ALPHABET) (push_byte ALPHABET wanted value b).
Proof.
  intros Hl Hf. unfold push_byte. destruct (_ && _) eqn:E; [|done]. bool_prop.
  match goal with H : (length value <? wanted)%nat = true |- _ => apply Nat.ltb_lt in H end.
  rewrite length_app. destruct (ALPHABET !! _) as [c|] eqn:Ec; simpl; [|rewrite app_nil_r; split; [lia|done]].
  split; [lia|]. apply Forall_app. split; [done|]. apply Forall_singleton.
  by eapply list_elem_of_lookup_2.
Qed.

Lemma push_bytes_ok wanted buffer : ∀ value,
  length value ≤ wanted → Forall (λ c, c ∈ ALPHABET) value →
  length (foldl (push_byte ALPHABET wanted) value buffer) ≤ wanted
  ∧ Forall (λ c, c ∈ ALPHABET) (foldl (push_byte ALPHABET wanted) value buffer).
Proof.
  induction buffer as [|b buffer IH]; intros value Hl Hf; [done|]. simpl.
  destruct (push_byte_ok wanted value b Hl Hf). by apply IH.
Qed.

Lemma random_string_ok wanted source : ∀ value v rest,
  length value ≤ wanted → Forall (λ c, c ∈ ALPHABET) value →
  random_string ALPHABET wanted value source = (Ok v, rest) →
  length v = wanted ∧ Forall (λ c, c ∈ ALPHABET) v.
Proof.
  induction source as [|[buffer|] source IH]; intros value v rest Hl Hf; cbn [random_string];
    destruct (Nat.leb_spec wanted (length value)); try done;
    try (intros [= <- <-]; split; [lia|done]).
  destruct (push_bytes_ok wanted buffer value Hl Hf). by apply IH.
Qed.

(** How many characters a source has for the alphabet, up to its first failure. *)
Fixpoint supply (source : list (option bytes)) : nat :=
  match source with
  | Some buffer :: source' =>
      length (List.filter (λ b, (code b <? limit ALPHABET)%Z) buffer) + supply source'
  | _ => 0
  end.

Lemma push_bytes_length wanted buffer : ∀ value,
  length value ≤ wanted →
  length (foldl (push_byte ALPHABET wanted) value buffer)
  = Nat.min wanted (length value + length (List.filter (λ b, (code b <? limit ALPHABET)%Z) buffer)).
Proof.
  induction buffer as [|b buffer IH]; intros value Hl; [simpl; lia|]. cbn [foldl List.filter].
  assert (∀ b, is_Some (ALPHABET !! Z.to_nat (code b mod Z.of_nat (length ALPHABET)))) as Hin.
  { intros c. apply lookup_lt_is_Some. simpl length.
    pose proof (Z.mod_pos_bound (code c) 36). change (Z.of_nat 36) with 36%Z. lia. }
  unfold push_byte at 2. destruct (code b <? limit ALPHABET)%Z eqn:Eb; cbn [andb length].
  - destruct (Nat.ltb_spec (length value) wanted).
    + destruct (Hin b) as [c ->]. cbn [option_list]. rewrite IH; rewrite length_app; simpl; lia.
    + rewrite IH by done. lia.
  - by apply IH.
Qed.

Lemma random_string_total wanted source : ∀ value,
  length value ≤ wanted → wanted ≤ length value + supply source →
  is_ok (random_string ALPHABET wanted value source).1 = true.
Proof.
  induction source as [|[buffer|] source IH]; intros value Hl Hs; cbn [random_string supply] in *;
    destruct (Nat.leb_spec wanted (length value)); try done; try lia.
  destruct (decide (wanted ≤ length (foldl (push_byte ALPHABET wanted) value buffer))) as [Hd|Hd].
  - assert (∀ v, wanted ≤ length v → is_ok (random_string ALPHABET wanted v source).1 = true) as Hdone.
    { intros v Hv. destruct source as [|[] ?]; cbn [random_string];
        by rewrite (proj2 (Nat.leb_le _ _) Hv). }
    by apply Hdone.
  - pose proof (push_bytes_length wanted buffer value Hl). apply IH; lia.
Qed.

(** A connection identifier is drawn without bias: every character of the
    alphabet is drawn by exactly seven of the accepted byte values; an
    identifier that is drawn has 32 of its characters and is valid, and one is
    drawn as soon as the random source has supplied 32 accepted bytes. *)
Theorem identifiers_are_drawn_without_bias {P} (s : Deployment P) c :
  (c ∈ ALPHABET → length (drawn_by c) = 7)
  ∧ (∀ id s', generate_connection_id s = (Ok id, s') →
       length (Managed.id_str id) = 32 ∧ Forall (λ c, c ∈ ALPHABET) (Managed.id_str id)
       ∧ Managed.connection_id_parse (Managed.id_str id) = Ok id)
  ∧ (32 ≤ supply (entropy (world s)) → is_ok (generate_connection_id s).1 = true).
Proof.
  assert (∀ v rest, random_string ALPHABET CONNECTION_ID_CHARS [] (entropy (world s)) = (Ok v, rest) →
            length v = 32 ∧ Forall (λ c, c ∈ ALPHABET) v
            ∧ Managed.connection_id_parse v = Ok (Managed.mkConnectionId v)) as Hok.
  { intros v rest Hv. apply random_string_ok in Hv as [Hl Hf]; [|simpl; lia|done].
    split; [done|]. split; [done|]. unfold Managed.connection_id_parse. rewrite Hl. simpl.
    rewrite (proj2 (forallb_Forall _ _)); [done|]. eapply Forall_impl; [exact Hf|]. simpl.
    assert (Forall (λ c, is_ascii_lowercase c || is_ascii_digit c = true) ALPHABET) as Ha
      by (apply (bool_decide_unpack _); vm_compute; exact I).
    rewrite Forall_forall in Ha. auto. }
  split; [|split].
  - intros Hc. assert (Forall (λ c, length (drawn_by c) = 7) ALPHABET) as Hf
      by (apply (bool_decide_unpack _); vm_compute; exact I).
    rewrite Forall_forall in Hf. auto.
  - unfold generate_connection_id. intros id s' E.
    destruct (random_string _ _ _ _) as [[v|e] rest] eqn:Er; simplify_eq/=.
    destruct (Hok _ _ eq_refl) as (? & ? & Hp). rewrite Hp in *. by simplify_eq/=.
  - intros Hs. unfold generate_connection_id.
    pose proof (random_string_total CONNECTION_ID_CHARS (entropy (world s)) [] ltac:(simpl; lia) Hs) as Ht.
    destruct (random_string _ _ _ _) as [[v|e] rest] eqn:Er; [|done]. simpl.
    destruct (Hok _ _ eq_refl) as (_ & _ & ->). done.
Qed.

End Naming.
