(* ===== verification/ManagedMoves.v ===== *)
(** * The lifecycle of a managed connection

    Every step of every operation of [ManagedService.v] moves a stored
    connection along the edges of one state machine, and never changes what
    identifies it.  Since a step is atomic and any other task may run between
    two of them, that holds of any number of operations running at once. *)

From stdpp Require Import strings.
From S2P Require Import Prelude Bytes ConfigPath Core Managed Auth Encryption AuditEvent Rpc Database AuditTrail ConnectionUrl Identity Flow ManagedStore ManagedService.

Local Open Scope bytes_scope.

Module Lifecycle.
Import Managed.

(** The edges; besides them, any state may be left for [Revoking], which is
    never left but by deleting the row. *)
Definition edge (st st' : ManagedConnectionState) : bool :=
  match st, st' with
  | Provisioning, Active | Provisioning, CleanupRequired => true
  | Active, RotationUnknown => true
  | RotationUnknown, Active | RotationUnknown, CleanupRequired => true
  | _, _ => false
  end.

(** The columns that say which connection a row is. *)
Definition identity (r : ManagedRow) : bytes * bytes * bytes * bytes * Z :=
  let c := m_row r in (connection_id c, display_name c, root c, permissions c, created_at c).

Definition follows (r r' : ManagedRow) : Prop :=
  identity r' = identity r
  ∧ (state (m_row r') = state (m_row r) ∨ state (m_row r') = "revoking"
     ∨ ∃ st st', state (m_row r) = state_as_str st ∧ state (m_row r') = state_as_str st'
         ∧ edge st st' = true).

Section relation.
Context `{Locale}.

(** What one step may do to the row of one connection; a row that is written
    satisfies the constraints of the table. *)
Inductive row_moves (id : bytes) : option ManagedRow → option ManagedRow → Prop :=
| moves_none : row_moves id None None
| moves_insert r : connection_id (m_row r) = id → state (m_row r) = "provisioning" →
    row_check r = true → row_moves id None (Some r)
| moves_delete r : row_moves id (Some r) None
| moves_follow r r' : follows r r' → r' = r ∨ row_check r' = true → row_moves id (Some r) (Some r').

Definition map_moves (c c' : gmap bytes ManagedRow) : Prop :=
  ∀ id, row_moves id (c !! id) (c' !! id).

Definition moves {P} (s s' : Deployment P) : Prop := map_moves (connections s) (connections s').

(** ** Lemmas *)

Lemma follows_refl r : follows r r.
Proof. split; auto. Qed.

#[global] Instance map_moves_refl : Reflexive map_moves.
Proof.
  intros c id. destruct (c !! id) as [r|]; constructor; [apply follows_refl|by left].
Qed.

#[global] Instance moves_refl {P} : Reflexive (@moves P).
Proof. intros s. apply map_moves_refl. Qed.

Lemma moves_same {P} (s s' : Deployment P) : connections s' = connections s → moves s s'.
Proof. unfold moves. by intros ->. Qed.

Lemma map_moves_insert c id r :
  row_moves id (c !! id) (Some r) → map_moves c (<[id := r]> c).
Proof.
  intros Hr j. destruct (decide (j = id)) as [->|].
  - by rewrite lookup_insert_eq.
  - rewrite lookup_insert_ne by done. apply map_moves_refl.
Qed.

Lemma map_moves_delete c id : map_moves c (delete id c).
Proof.
  intros j. destruct (decide (j = id)) as [->|].
  - rewrite lookup_delete_eq. destruct (c !! id); constructor.
  - rewrite lookup_delete_ne by done. apply map_moves_refl.
Qed.

End relation.

Lemma follows_state st at_ r st0 st1 :
  st = state_as_str st1 → state (m_row r) = state_as_str st0 → edge st0 st1 = true →
  follows r (set_state st at_ r).
Proof. intros -> ? ?. split; [done|]. right; right. by exists st0, st1. Qed.

Section store_steps.
Context {P : Type} `{Locale} `{Crypto}.

Lemma update_where_moves id cond f c a c' :
  (∀ r, cond r = true → follows r (f r)) →
  update_where id cond f c = Some (a, c') → map_moves c c'.
Proof.
  unfold update_where. intros Hf Hu. destruct (c !! id) as [r|] eqn:E; simplify_eq; [|done].
  destruct (cond r) eqn:Ec; simplify_eq; [|done].
  destruct (row_check (f r)) eqn:Eck; simplify_eq. apply map_moves_insert. rewrite E.
  constructor; auto.
Qed.

Lemma table_moves {A} (f : gmap bytes ManagedRow → option (A * gmap bytes ManagedRow)) s :
  (∀ a c', f (connections s) = Some (a, c') → map_moves (connections s) c') →
  moves s (table (P:=P) f s).2.
Proof.
  intros Hf. destruct (table_connections f s) as [E|(a & c & Hc & E)].
  - by apply moves_same.
  - unfold moves. rewrite E. eauto.
Qed.

Lemma transact_moves {A} (body : D P Status A) s :
  (∀ a s', body (tick_deployment s) = (Ok a, s') → map_moves (connections s) (connections s')) →
  moves s (transact body s).2.
Proof.
  intros Hb. destruct (transact_connections body s) as [E|(a & s1 & Hok & E)].
  - by apply moves_same.
  - unfold moves. rewrite E. eauto.
Qed.

Lemma in_state_edge st st' at_ r :
  in_state st r = true → edge st st' = true → follows r (set_state (state_as_str st') at_ r).
Proof. unfold in_state. intros Hs%bool_decide_eq_true He. by eapply follows_state. Qed.

Lemma transition_state_moves id st st' s :
  edge st st' = true → moves s (transition_state (P:=P) id st st' s).2.
Proof.
  intros He. unfold transition_state, mbind at 1, D_bind at 1, dnow. simpl.
  unfold mbind, D_bind. pose proof (table_moves
    (update_where (id_str id) (in_state st) (set_state (state_as_str st') (clock (world s)))) s) as Ht.
  destruct (table _ s) as [[a|e] s1]; simpl; apply Ht; intros ?? Hu;
    (eapply update_where_moves; [|exact Hu]); intros r Hr; by eapply in_state_edge.
Qed.

Lemma transition_state_recorded_moves recorder id st st' actor event s :
  edge st st' = true → moves s (transition_state_recorded (P:=P) recorder id st st' actor event s).2.
Proof.
  intros He. apply transact_moves. intros a s' Hb. dsteps.
  match goal with H : update_where _ _ _ _ = Some (?m, ?c) |- _ =>
    assert (map_moves (connections s) c) as Hm
      by (eapply update_where_moves; [|exact H]; intros r Hr; by eapply in_state_edge);
    destruct m; dsteps; done
  end.
Qed.

Lemma then_unit_moves {A} (m : D P Status A) s :
  moves s (m s).2 → moves s ((_ ← m; mret ()) s).2.
Proof. unfold mbind, D_bind. by destruct (m s) as [[a|e] s1]. Qed.

Lemma delete_by_id_moves id c a c' : delete_by_id id c = Some (a, c') → map_moves c c'.
Proof. intros [= _ <-]. apply map_moves_delete. Qed.

Lemma delete_connection_recorded_moves recorder id actor event s :
  moves s (delete_connection_recorded (P:=P) recorder id actor event s).2.
Proof.
  apply transact_moves. intros a s' Hb. dsteps.
  match goal with H : delete_by_id _ _ = Some (?n, _) |- _ =>
    apply delete_by_id_moves in H; destruct (0 <? n)%nat; dsteps; done end.
Qed.

Lemma delete_row_moves id s : moves s (delete_row (P:=P) id s).2.
Proof.
  unfold delete_row, delete_connection.
  pose proof (then_unit_moves (table (P:=P) (delete_by_id (id_str id))) s) as Hm.
  match goal with |- context [let '(r, s') := ?m in _] => change m with
    ((_ ← table (P:=P) (delete_by_id (id_str id)); mret ()) s); destruct m as [r s1] end.
  apply Hm, table_moves. intros a c. apply delete_by_id_moves.
Qed.

Lemma insert_provisioning_moves id name root perms s :
  moves s (insert_provisioning (P:=P) id name root perms s).2.
Proof.
  unfold insert_provisioning, mbind, D_bind, dnow. apply table_moves. intros a c'.
  destruct (connections s !! id_str id) eqn:E; [done|].
  destruct (row_check _) eqn:Eck; [|done]. intros [= _ <-]. apply map_moves_insert. rewrite E.
  by constructor.
Qed.

(** Updates that leave the state alone, or revoke. *)
Lemma record_provider_user_moves id account s : moves s (record_provider_user (P:=P) id account s).2.
Proof.
  unfold record_provider_user, mbind at 1, D_bind at 1, dnow. apply then_unit_moves, table_moves.
  intros a c'. apply update_where_moves. split; auto.
Qed.

Lemma record_credential_moves id credential s :
  moves s (record_credential_identifier (P:=P) id credential s).2.
Proof.
  unfold record_credential_identifier, mbind at 1, D_bind at 1, dnow.
  apply then_unit_moves, table_moves. intros a c'. apply update_where_moves. split; auto.
Qed.

(** What locking a row for its manager answers. *)
Lemma lock_manageable_ok id principal s row s' :
  lock_manageable (P:=P) id principal s = (Ok row, s') →
  s' = tick_deployment s ∧ m_row <$> connections s !! id_str id = Some row
  ∧ Path.parse (root row) = Ok (mkPath (root row))
  ∧ Auth.allows principal (mkPath (root row)) Auth.Manage = true.
Proof.
  unfold lock_manageable. intros Hl. dsteps.
  match goal with H : Some (_, _) = Some (_, _) |- _ => simplify_eq end.
  match goal with H : Path.parse _ = Ok ?p |- _ =>
    pose proof H as [-> _]%Path.parse_spec; destruct (Auth.allows _ _ _) eqn:?; dsteps end.
  split; [by destruct s|done].
Qed.

Lemma claim_for_revocation_moves context id s :
  moves s (Service.claim_for_revocation (P:=P) context id s).2.
Proof.
  unfold Service.claim_for_revocation, mbind at 1, D_bind at 1, dlift.
  destruct (Rpc.principal context) as [p|]; [|done]. apply transact_moves. intros a s' Hb.
  unfold mark_revoking, mark in Hb. dsteps.
  match goal with H : lock_manageable _ _ _ = _ |- _ => apply lock_manageable_ok in H as (-> & _) end.
  simpl in *. eapply update_where_moves; [|eassumption]. intros r _. split; [done|]. auto.
Qed.

(** What starting a rotation does: the row was active, or its last rotation's
    lease had expired, and it is now marked. *)
Lemma rotation_claim_ok settings id principal s row root_ s' :
  Service.rotation_claim (P:=P) settings id principal s = (Ok (row, root_), s') →
  ∃ r, connections s !! id_str id = Some r ∧ row = m_row r ∧ root_ = mkPath (root row)
    ∧ Path.parse (root row) = Ok root_
    ∧ Auth.allows principal root_ Auth.Manage = true
    ∧ credential_identifier row ≠ None
    ∧ (state row = "active"
       ∨ (state row = "rotation_unknown"
          ∧ (Service.rotation_lease settings ≤ clock (world s) - updated_at row)%Z))
    ∧ row_check (set_state "rotation_unknown" (clock (world s)) r) = true
    ∧ s' = set_connections
             (<[id_str id := set_state "rotation_unknown" (clock (world s)) r]> (connections s))
             (tick_deployment (tick_deployment s)).
Proof.
  unfold Service.rotation_claim. intros Hb.
  apply dbind_ok in Hb as (row' & ? & (-> & Hrow & Hparse & Hallow)%lock_manageable_ok & Hb).
  apply dbind_ok in Hb as (root' & ? & [Hroot%map_err_ok ->]%dlift_ok & Hb).
  apply dbind_ok in Hb as (st & ? & [Hst%map_err_ok ->]%dlift_ok & Hb).
  apply dbind_ok in Hb as (now & ? & [-> ->]%dnow_ok & Hb).
  apply fmap_Some in Hrow as (r & Hr & ->).
  assert (root' = mkPath (root (m_row r))) as -> by congruence.
  assert (state (m_row r) = state_as_str st) as Est.
  { revert Hst. unfold state_parse. repeat case_bool_decide; intros [= <-]; done. }
  destruct (negb _) eqn:Eg in Hb; [dsteps|]. apply negb_false_iff, orb_true_iff in Eg.
  case_bool_decide as Ecred; [dsteps|]. unfold mark_rotation_unknown, mark in Hb. dsteps.
  match goal with H : update_where _ _ _ _ = Some _ |- _ =>
    simpl in H; unfold update_where in H; rewrite Hr in H; simpl in H;
    destruct (row_check _) eqn:Ec in H; simplify_eq/= end.
  exists r. split_and!; try done.
  destruct Eg as [->%bool_decide_eq_true|E]; [by left|right].
  apply andb_true_iff in E as [->%bool_decide_eq_true ?%Z.leb_le]. done.
Qed.

Lemma begin_rotation_moves settings id context s :
  moves s (Service.begin_rotation (P:=P) settings id context s).2.
Proof.
  unfold Service.begin_rotation, mbind, D_bind, dlift.
  destruct (Rpc.principal context) as [p|]; [|done]. apply transact_moves.
  intros [row root_] s' (r & Hr & -> & _ & _ & _ & _ & Hst & Hck & ->)%rotation_claim_ok. simpl in *.
  apply map_moves_insert. rewrite Hr. constructor; [|by right]. destruct Hst as [Hst|[Hst _]].
  - by eapply (follows_state _ _ _ Active RotationUnknown).
  - split; [done|]. by left.
Qed.
End store_steps.

(** ** Whole operations *)

Section flows.
Context {P : Type} `{Identity.ManagedIdentityProvider P} `{Locale} `{Crypto} `{UrlCrates}.
Context (recorder : Trail.AuditRecorder) (settings : Service.ManagedSettings).

Abbreviation steady f := (all_steps (S := Deployment P) moves f).

Lemma ask_steady {A} (call : P → A * P) : steady (Service.ask call).
Proof. apply all_steps_act. intros s. apply moves_same. by destruct (call (provider s)). Qed.

Lemma sql_steady {A} (m : D P Status A) : (∀ s, moves s (m s).2) → steady (Service.sql m).
Proof. apply all_steps_act. Qed.

Lemma record_dependency_steady call outcome : steady (Service.record_dependency call outcome).
Proof. apply all_steps_act. intros s. by apply moves_same. Qed.

Lemma record_operation_steady op outcome : steady (Service.record_operation op outcome).
Proof. apply all_steps_act. intros s. by apply moves_same. Qed.

Lemma sleep_steady : steady Service.sleep.
Proof. by apply all_steps_act. Qed.

Lemma delete_row_steady id : steady (act (delete_row id)).
Proof. apply all_steps_act, delete_row_moves. Qed.

Lemma list_rows_moves s : moves s (list_rows (P:=P) s).2.
Proof. apply table_moves. by intros a c [= _ <-]. Qed.

Lemma generate_connection_id_moves s : moves s (Names.generate_connection_id (P:=P) s).2.
Proof.
  apply moves_same. unfold Names.generate_connection_id. by destruct (Names.random_string _ _ _ _).
Qed.

(** Decomposes a flow into the steps it may take. *)
Ltac steady_step :=
  match goal with
  | |- all_steps _ (Ret _) => exact I
  | |- all_steps _ (flow_try _ _) => apply all_steps_try; [|intros]
  | |- all_steps _ (flow_bind _ _) => apply all_steps_bind; [|intros]
  | |- all_steps _ (Service.ask _) => apply ask_steady
  | |- all_steps _ (Service.record_dependency _ _) => apply record_dependency_steady
  | |- all_steps _ (Service.record_operation _ _) => apply record_operation_steady
  | |- all_steps _ Service.sleep => apply sleep_steady
  | |- all_steps _ (act (delete_row _)) => apply delete_row_steady
  | |- all_steps _ (Service.sql _) => apply sql_steady; intros
  | |- all_steps _ (match ?x with _ => _ end) => destruct x
  | |- all_steps _ (let _ := _ in _) => cbv zeta
  | |- moves _ (transition_state _ _ _ _).2 => apply transition_state_moves; by repeat case_match
  | |- moves _ (transition_state_recorded _ _ _ _ _ _ _).2 => by apply transition_state_recorded_moves
  | |- moves _ (record_provider_user _ _ _).2 => apply record_provider_user_moves
  | |- moves _ (record_credential_identifier _ _ _).2 => apply record_credential_moves
  | |- moves _ (insert_provisioning _ _ _ _ _).2 => apply insert_provisioning_moves
  | |- moves _ (Service.begin_rotation _ _ _ _).2 => apply begin_rotation_moves
  | |- moves _ (Service.claim_for_revocation _ _ _).2 => apply claim_for_revocation_moves
  | |- moves _ (delete_connection_recorded _ _ _ _ _).2 => apply delete_connection_recorded_moves
  | |- moves _ (list_rows _).2 => apply list_rows_moves
  | |- moves _ (Names.generate_connection_id _).2 => apply generate_connection_id_moves
  end.
Ltac steady := repeat steady_step.

Lemma cleanup_required_steady id : steady (Service.cleanup_required id).
Proof. unfold Service.cleanup_required. steady. Qed.

Lemma credential_gone_steady username : steady (Service.credential_gone username).
Proof. unfold Service.credential_gone. steady. Qed.

Lemma credential_is_gone_steady username : steady (Service.credential_is_gone username).
Proof. unfold Service.credential_is_gone. apply all_steps_bind; [apply credential_gone_steady|done]. Qed.

Lemma compensate_steady id account failure :
  steady (Service.compensate_created_account id account failure).
Proof.
  unfold Service.compensate_created_account. steady; apply cleanup_required_steady.
Qed.

Lemma reconcile_steady id username left : steady (Service.reconcile id username left).
Proof.
  induction left as [|left IH]; cbn [Service.reconcile]; [apply cleanup_required_steady|].
  steady; (apply IH || apply compensate_steady || apply cleanup_required_steady).
Qed.

Lemma configure_account_steady id name root perms account :
  steady (Service.configure_account id name root perms account).
Proof. unfold Service.configure_account, Service.assign_managed_group. steady. Qed.

Lemma provision_inserted_steady id name root perms created :
  steady (Service.provision_inserted recorder settings id name root perms created).
Proof.
  unfold Service.provision_inserted, Service.complete_provisioning, Service.recover_ambiguous_create.
  steady; (apply reconcile_steady || apply configure_account_steady || apply compensate_steady).
Qed.

Lemma settle_failed_rotation_steady id username error :
  steady (Service.settle_failed_rotation id username error).
Proof.
  unfold Service.settle_failed_rotation, Service.settle. steady; apply credential_gone_steady.
Qed.

(** A call of the service, of whichever of the four operations. *)
Inductive Call :=
| CallList (context : Rpc.CallContext)
| CallCreate (context : Rpc.CallContext) (name root : bytes) (perms : option ManagedPermissions)
| CallRotate (context : Rpc.CallContext) (id : bytes)
| CallRevoke (context : Rpc.CallContext) (id : bytes).

Definition flow_of (call : Call) : Flow (Deployment P) unit :=
  match call with
  | CallList context => flow_bind (Service.list_managed_connections context) (λ _, Ret tt)
  | CallCreate context name root perms =>
      flow_bind (Service.create_managed_connection recorder settings context name root perms)
        (λ _, Ret tt)
  | CallRotate context id =>
      flow_bind (Service.rotate_managed_connection recorder settings context id) (λ _, Ret tt)
  | CallRevoke context id =>
      flow_bind (Service.revoke_managed_connection recorder context id) (λ _, Ret tt)
  end.

Lemma flow_of_steady call : steady (flow_of call).
Proof.
  destruct call; simpl.
  - unfold Service.list_managed_connections, Service.recorded, Service.list_connections. steady.
  - unfold Service.create_managed_connection, Service.recorded, Service.create. steady.
    apply provision_inserted_steady.
  - unfold Service.rotate_managed_connection, Service.recorded, Service.rotate. steady.
    apply settle_failed_rotation_steady.
  - unfold Service.revoke_managed_connection, Service.recorded, Service.revoke,
      Service.revocation_target, Service.delete_account_confirmed.
    steady; apply credential_is_gone_steady.
Qed.

(** ** How long a call takes *)

Ltac within_step :=
  match goal with
  | |- within _ (Ret _) => exact I
  | |- within _ (flow_bind (Ret _) _) => apply within_ret
  | |- within _ (flow_try (Ret ?r) _) => apply within_try_ret
  | |- within _ (flow_bind (Service.ask _) _) => apply within_act; intros ?
  | |- within _ (flow_bind (Service.sql _) _) => apply within_act; intros ?
  | |- within _ (flow_bind (act _) _) => apply within_act; intros ?
  | |- within _ (flow_bind Service.sleep _) => apply within_act; intros ?
  | |- within _ (flow_bind (Service.record_dependency _ _) _) => apply within_act; intros ?
  | |- within _ (flow_bind (Service.record_operation _ _) _) => apply within_act; intros ?
  | |- within _ (flow_try (Service.sql _) _) => apply (within_try _ _ 1); [done|intros ?]
  | |- within _ (flow_bind (match ?x with _ => _ end) _) => destruct x
  | |- within _ (match ?x with _ => _ end) => destruct x
  | |- within _ (let _ := _ in _) => cbv zeta
  end.
Ltac within := repeat within_step.

Lemma cleanup_required_within id : within 1 (Service.cleanup_required (P:=P) id).
Proof. unfold Service.cleanup_required. within. Qed.

Lemma credential_gone_within username : within 2 (Service.credential_gone (P:=P) username).
Proof. unfold Service.credential_gone. within. Qed.

Lemma compensate_within id account failure :
  within 4 (Service.compensate_created_account (P:=P) id account failure).
Proof.
  unfold Service.compensate_created_account. within;
    (eapply within_mono; [apply cleanup_required_within|lia]).
Qed.

Lemma reconcile_within id username left :
  within (4 + 3 * left) (Service.reconcile (P:=P) id username left).
Proof.
  induction left as [|left IH]; cbn [Service.reconcile].
  { eapply within_mono; [apply cleanup_required_within|lia]. }
  replace (4 + 3 * S left) with (3 + (4 + 3 * left)) by lia. within.
  all: first [apply IH | eapply within_mono; [apply IH|lia]
    | eapply within_mono; [apply compensate_within|lia]
    | eapply within_mono; [apply cleanup_required_within|lia]].
Qed.
Lemma configure_account_within id name root perms account :
  within 7 (Service.configure_account (P:=P) id name root perms account).
Proof.
  unfold Service.configure_account, Service.assign_managed_group. within.
  apply (within_bind _ _ 2); [|done]. within. done.
Qed.

Lemma provision_inserted_within id name root perms created :
  within 15 (Service.provision_inserted recorder settings id name root perms created).
Proof.
  unfold Service.provision_inserted. within.
  - apply (within_bind _ _ 9 4).
    + unfold Service.complete_provisioning. within.
      apply (within_try _ _ 7); [apply configure_account_within|intros ?]. within.
    + intros [[row url]|status]; within.
      apply (within_bind _ _ 4 0); [apply compensate_within|done].
  - apply (within_bind _ _ 13 0); [|done]. unfold Service.recover_ambiguous_create. within.
    all: apply (reconcile_within _ _ 3).
Qed.

Lemma rotate_within context id : within 6 (Service.rotate recorder settings context id).
Proof.
  unfold Service.rotate, Service.settle_failed_rotation, Service.settle. within.
  all: apply (within_bind _ _ 3 0); [|done]; within.
  apply (within_bind _ _ 2 1); [apply credential_gone_within|intros ?]. within.
Qed.

Lemma revoke_within context id : within 10 (Service.revoke recorder context id).
Proof.
  unfold Service.revoke. within.
  apply (within_try _ _ 4 5); [unfold Service.revocation_target; within|intros target].
  - apply (within_bind _ _ 2 0); [|intros ?; within]. unfold Service.credential_is_gone.
    apply (within_bind _ _ 2 0); [apply credential_gone_within|done].
  - apply (within_try _ _ 4 1); [|done]. destruct target; within.
    unfold Service.delete_account_confirmed. within.
    apply (within_bind _ _ 2 0); [|intros ?; within]. unfold Service.credential_is_gone.
    apply (within_bind _ _ 2 0); [apply credential_gone_within|done].
Qed.

(** C21: every call of the managed connection service answers after at most 18 of
    its own steps, whatever the database and the identity provider answer, its
    reconciliation of an ambiguous create included: so run alone for 18 steps
    it has nothing left to do. *)
Theorem calls_answer_within_bounds call s :
  within 18 (flow_of call)
  ∧ advance (after 18 (flow_of call) s).1 (after 18 (flow_of call) s).2 = None.
Proof.
  assert (within 18 (flow_of call)) as Hw; [|split; [done|by apply within_after]].
  destruct call; simpl; apply (within_bind _ _ 18 0); try done;
    unfold Service.list_managed_connections, Service.create_managed_connection,
      Service.rotate_managed_connection, Service.revoke_managed_connection, Service.recorded.
  - apply (within_bind _ _ 17 1); [|intros ?; within]. unfold Service.list_connections. within.
  - apply (within_bind _ _ 17 1); [|intros ?; within]. unfold Service.create. within.
    apply provision_inserted_within.
  - apply (within_bind _ _ 17 1); [|intros ?; within]. eapply within_mono; [apply rotate_within|lia].
  - apply (within_bind _ _ 17 1); [|intros ?; within]. eapply within_mono; [apply revoke_within|lia].
Qed.

(** Everything but the table of connections may change at any time: clocks and
    schedules, the provider, the other tables. *)
Definition elsewhere (s s' : Deployment P) : Prop := connections s' = connections s.

Definition service_step := pool_step (λ f, ∃ call, f = flow_of call) elsewhere.

Lemma calls_steady (f : Flow (Deployment P) unit) : (∃ call, f = flow_of call) → all_steps moves f.
Proof. intros [call ->]. apply flow_of_steady. Qed.

Lemma elsewhere_moves s s' : elsewhere s s' → moves s s'.
Proof. intros. by apply moves_same. Qed.

(** A run is a sequence of moves, and so is its next step. *)
Lemma service_steps_moves s0 pool s :
  rtc service_step ([], s0) (pool, s) → rtc moves s0 s.
Proof.
  intros Hreach. eapply reachable_pool in Hreach as [_ HG];
    [exact HG|exact elsewhere_moves|apply moves_refl|exact calls_steady|done].
Qed.

Lemma service_step_moves s0 pool pool' s s' :
  rtc service_step ([], s0) (pool, s) → service_step (pool, s) (pool', s') → moves s s'.
Proof.
  intros Hreach Hstep.
  eapply reachable_pool in Hreach as [Hall _];
    [|exact elsewhere_moves|apply moves_refl|exact calls_steady|done].
  eapply pool_steps in Hstep as [_ HG];
    [exact HG|exact elsewhere_moves|apply moves_refl|exact calls_steady|exact Hall].
Qed.

(** C13: in any run of any number of list, create, rotate and revoke calls,
    interleaved at every statement, transaction and provider call, cancelled
    anywhere, with the database and the provider failing at will, every step
    takes every stored connection along the lifecycle: it appears provisioning,
    moves along the edges or to revoking, and disappears; its identifier, name,
    root, permissions and creation time never change; and a connection being
    revoked stays so until its row is gone. *)
Theorem lifecycle_is_respected s0 pool pool' s s' :
  rtc service_step ([], s0) (pool, s) → service_step (pool, s) (pool', s') →
  moves s s'
  ∧ ∀ id r r', connections s !! id = Some r → connections s' !! id = Some r' →
      state (m_row r) = "revoking" → state (m_row r') = "revoking".
Proof.
  intros Hreach Hstep. pose proof (service_step_moves _ _ _ _ _ Hreach Hstep) as Hm.
  split; [done|]. intros id r r' Hr Hr' Hst.
  specialize (Hm id). rewrite Hr, Hr' in Hm. inversion Hm as [| | |? ? [_ Hf] _]; subst.
  destruct Hf as [->|[->|(st & st' & E & -> & He)]]; [done..|].
  rewrite Hst in E. by destruct st, st'.
Qed.
End flows.

End Lifecycle.
