(* ===== verification/ManagedRotate.v ===== *)
(** * Rotating a managed connection

    What a rotation that reports a URL has done, whatever other tasks did
    meanwhile, and how the lease keeps two rotations of one connection apart.
    The lemmas on recorded transitions and on interference are shared with the
    other operations. *)

From stdpp Require Import strings.
From S2P Require Import Prelude Bytes ConfigPath Core Managed Auth Encryption AuditEvent Rpc Database AuditTrail ConnectionUrl Identity Flow ManagedStore ManagedService ManagedMoves.

Local Open Scope bytes_scope.

Module Rotation.
Import Lifecycle.

(** The row of an event that is never coalesced. *)
Definition event_row (e : AuditEvent) : Trail.EventRow :=
  Trail.mkEventRow (Kind.as_str (ev_kind e)) (ev_path e) (ev_counterpart e) (ev_old e) (ev_new e)
    (ev_narrative e) None.

(** The trail of a deployment ends with [event], recorded of [actor]. *)
Definition ends_with_event {P} (s : Deployment P) (actor : Actor) (event : AuditEvent) : Prop :=
  ∃ earlier at_ seq,
    audit (db (world s)) = earlier ++ [Trail.proposed actor at_ seq (event_row event)].

(** What other tasks may do to one connection while an operation on it runs:
    anything but change what identifies it, or store another under its
    identifier, which is drawn at random. *)
Definition undisturbed {P} (id : bytes) (s s' : Deployment P) : Prop :=
  match connections s !! id, connections s' !! id with
  | Some r, Some r' => identity r' = identity r
  | None, Some _ => False
  | _, None => True
  end.

Lemma moves_undisturbed {P} `{Locale} id (s s' : Deployment P) :
  moves s s' → (connections s !! id = None → connections s' !! id = None) → undisturbed id s s'.
Proof.
  intros Hm Hn. specialize (Hm id). unfold undisturbed.
  destruct (connections s !! id) as [r|]; [|by rewrite Hn].
  destruct (connections s' !! id) as [r'|]; [|done].
  inversion Hm as [| | |? ? [Hi _] _]; by subst.
Qed.

(** The row stored under [id], if any, is the connection [who] is. *)
Definition still {P} (id : bytes) (who : bytes * bytes * bytes * bytes * Z) (s : Deployment P) : Prop :=
  ∀ r, connections s !! id = Some r → identity r = who.

Lemma still_undisturbed {P} id who (s s' : Deployment P) :
  undisturbed id s s' → still id who s → still id who s'.
Proof.
  unfold undisturbed, still. intros Hu Hs r' Hr'. rewrite Hr' in Hu.
  destruct (connections s !! id) as [r|]; [|done]. rewrite Hu. auto.
Qed.

Lemma still_same {P} id who (s s' : Deployment P) :
  connections s' = connections s → still id who s → still id who s'.
Proof. unfold still. by intros ->. Qed.

Section steps.
Context {P : Type} `{Locale} `{Crypto}.

Lemma record_in_one recorder actor at_ event w u w' :
  Kind.coalesces (ev_kind event) = false →
  Trail.record_in recorder actor at_ [event] w = (Ok u, w') →
  audit (db w') = audit (db w) ++ [Trail.proposed actor at_ (audit_seq (db w) + 1) (event_row event)].
Proof.
  intros Hc (table & seq & Hu & Hdb & _)%Trail.record_in_ok. rewrite Hdb. cbn [audit set_audit].
  unfold Trail.rows in Hu. cbn [List.map] in Hu. rewrite Hc in Hu.
  apply (Trail.upsert_all_appends actor at_ [event_row event]) in Hu as [-> _]; [done|].
  by repeat constructor.
Qed.

(** A completed, recorded transition. *)
Lemma transition_state_recorded_ok recorder id st st' actor event s moved s' :
  Kind.coalesces (ev_kind event) = false →
  transition_state_recorded (P:=P) recorder id st st' actor event s = (Ok moved, s') →
  provider s' = provider s
  ∧ match moved with
    | Some row => ∃ r, connections s !! Managed.id_str id = Some r ∧ in_state st r = true
        ∧ row = m_row (set_state (Managed.state_as_str st') (clock (world s)) r)
        ∧ connections s' = <[Managed.id_str id
            := set_state (Managed.state_as_str st') (clock (world s)) r]> (connections s)
        ∧ ends_with_event s' actor event
    | None => connections s' = connections s
    end.
Proof.
  intros Hk Ht. unfold transition_state_recorded in Ht. dsteps.
  match goal with Hu : update_where _ _ _ _ = Some (?m, ?c) |- _ =>
    unfold update_where in Hu; simpl in Hu;
    destruct (connections s !! Managed.id_str id) as [r|] eqn:Er; simplify_eq; dsteps; [|done];
    destruct (in_state st r) eqn:Ei; simplify_eq; dsteps; [|done];
    destruct (row_check _); simplify_eq; dsteps end.
  split; [done|]. exists r. split_and!; try done.
  match goal with Hr : Trail.record_in _ _ _ _ _ = _ |- _ => apply record_in_one in Hr as Hl; [|done] end.
  unfold ends_with_event. simpl in *. rewrite Hl. eauto.
Qed.
End steps.

Section rotation.
Context {P : Type} `{Identity.ManagedIdentityProvider P} `{Locale} `{Crypto} `{UrlCrates}.
Context (recorder : Trail.AuditRecorder) (settings : Service.ManagedSettings).

(** The run of a rotation from [s], up to the answer of the identity provider:
    it claims the stored row at [s1], and then asks at [s3] for a replacement of
    the credential that row records. *)
Definition replaced (env : relation (Deployment P)) (context : Rpc.CallContext) (id : Managed.ConnectionId)
    (s : Deployment P) (replacement : Identity.ClientCredential) : Prop :=
  ∃ s1 r1 root_ s2 credential s3 p',
    env s s1 ∧ connections s1 !! Managed.id_str id = Some r1
    ∧ Service.begin_rotation settings id context s1 = (Ok (m_row r1, root_), s2)
    ∧ row_credential (m_row r1) = Some credential
    ∧ env s2 s3 ∧ Identity.replace_credential credential (provider s3) = (Ok replacement, p').

(** What is true when a rotation that began at [s] reports [pc]. *)
Definition rotated (env : relation (Deployment P)) (context : Rpc.CallContext) (id : Managed.ConnectionId)
    (s : Deployment P) (pc : ProvisionedConnection) (s' : Deployment P) : Prop :=
  ∃ principal actor r replacement,
    Rpc.principal context = Ok principal ∧ Rpc.actor context = Ok actor
    ∧ connections s' !! Managed.id_str id = Some r ∧ state (m_row r) = "active"
    ∧ Auth.allows principal (mkPath (root (m_row r))) Auth.Manage = true
    ∧ metadata (m_row r) = Ok (pc_metadata pc)
    ∧ replaced env context id s replacement
    ∧ Service.managed_url settings (mkPath (root (m_row r))) replacement
        (Names.managed_username id (display_name (m_row r))) = Ok (pc_connection_url pc)
    ∧ ends_with_event s' actor (Event.connection_rotated actor
        (mkConnectionSubject (root (m_row r)) (display_name (m_row r)) (Managed.id_str id))).

Lemma rotate_wpi env context text id s :
  (∀ s s' : Deployment P, env s s' → undisturbed (Managed.id_str id) s s') →
  Managed.connection_id_parse text = Ok id →
  wpi env (λ _, True) (Service.rotate recorder settings context text)
    (λ res s', ∀ pc, res = Ok pc → rotated env context id s pc s') s.
Proof.
  intros Henv Hid. unfold Service.rotate. rewrite Hid. simpl map_err. rewrite wpi_try. simpl.
  intros s1 He1. split; [done|].
  destruct (Service.begin_rotation settings id context s1) as [[[row root_]|e] s2] eqn:Eb; [|done].
  pose proof Eb as Hbegin. simpl. unfold Service.begin_rotation in Eb.
  apply dbind_ok in Eb as (principal & ? & [Hp ->]%dlift_ok & Eb).
  apply transact_ok in Eb as (_ & s1' & (r & Hr & -> & -> & Hparse & Hallow & _ & _ & _ & ->)%rotation_claim_ok
                              & _ & Es2).
  assert (still (Managed.id_str id) (identity r) s2) as Hstill.
  { intros r' Hr'. rewrite Es2 in Hr'. simpl in Hr'. rewrite lookup_insert_eq in Hr'. by simplify_eq. }
  clear Es2. rewrite wpi_try. simpl. destruct (Rpc.actor context) as [actor|] eqn:Ha; [|done].
  rewrite wpi_try. simpl. destruct (row_credential (m_row r)) as [credential|] eqn:Ecred; [|done]. simpl.
  intros s4 He4. pose proof He4 as Hask. split; [done|].
  apply Henv in He4. eapply still_undisturbed in Hstill; [|exact He4].
  destruct (Identity.replace_credential credential (provider s4)) as [[replacement|error] p'] eqn:Ep; simpl.
  - intros s5 He5. split; [done|]. try rewrite wpi_try. simpl.
    destruct (Service.managed_url _ _ _ _) as [url|] eqn:Eu; [|done].
    try rewrite wpi_try. simpl. intros s6 He6. split; [done|].
    apply Henv in He5, He6.
    eapply (still_same _ _ _ (set_provider p' s4)) in Hstill; [|done].
    eapply still_undisturbed in Hstill; [|exact He5].
    match type of He6 with undisturbed _ ?sx _ =>
      apply (still_same _ _ _ sx) in Hstill; [|done] end.
    eapply still_undisturbed in Hstill; [|exact He6].
    match goal with |- context [transition_state_recorded ?a ?b ?c ?d ?e ?f s6] =>
      destruct (transition_state_recorded a b c d e f s6) as [[moved|err] s7] eqn:Et end; [|done].
    simpl. apply transition_state_recorded_ok in Et as [_ Et]; [|done].
    destruct moved as [row|]; [|done]. destruct Et as (r' & Hr' & _ & -> & Hc & Hev). simpl.
    apply Hstill in Hr'. injection Hr' as E1 E2 E3 E4 E5.
    destruct (metadata _) as [md|] eqn:Em; [|done]. simpl. intros pc [= <-].
    eexists principal, actor, _, replacement. rewrite Hc, lookup_insert_eq.
    split; [done|]. split; [done|]. split; [done|]. simpl. rewrite E2, E3 in *.
    split_and!; try done. by exists s1, r, (mkPath (root (m_row r))), s2, credential, s4, p'.
  - intros s5 He5. split; [done|]. rewrite flow_bind_assoc_wpi.
    match goal with |- wpi _ _ ?f _ _ => assert (∀ s, wpi env (λ _, True) f (λ _ _, True) s) as Hw end.
    { intros s'. generalize (Service.settle_failed_rotation (P:=P) id
        (Names.managed_username id (display_name (m_row r))) error).
      clear. intros f. revert s'. induction f as [a|B step k IH]; intros s'; simpl; auto. }
    eapply wpi_mono; [apply Hw|]. done.
Qed.

(** C14: a rotation answers a URL only if, when it answers, the connection is
    stored as active under a root the caller manages, the URL carries what the
    identity provider answered this rotation as the replacement of the
    credential its row recorded when it claimed it, and the trail ends with the
    recorded rotation, whatever other tasks did between its steps except change
    what identifies the row or store another under its identifier. *)
Theorem rotation_reports_the_current_credential env context text id pc s s' :
  (∀ s s' : Deployment P, env s s' → undisturbed (Managed.id_str id) s s') →
  Managed.connection_id_parse text = Ok id →
  exec env (Service.rotate recorder settings context text) s (Ok pc) s' →
  rotated env context id s pc s'.
Proof.
  intros Henv Hid Hex. by eapply (wpi_exec _ _ _ _ _ _ _ (rotate_wpi env context text id s Henv Hid)) in Hex; [|done].
Qed.

(** The lease keeps rotations apart: once a rotation has marked a
    connection, and while the mark stands, every attempt to start another before
    the lease is over fails and changes nothing stored, whoever makes it and
    however the database behaves. *)
Theorem rotation_lease_excludes principal id s row root_ s' principal' (later_ : Deployment P) :
  Service.rotation_claim (P:=P) settings id principal s = (Ok (row, root_), s') →
  connections later_ !! Managed.id_str id = connections s' !! Managed.id_str id →
  (clock (world later_) - timestamptz (clock (world s)) < Service.rotation_lease settings)%Z →
  is_ok (transact (Service.rotation_claim settings id principal') later_).1 = false
  ∧ connections (transact (Service.rotation_claim settings id principal') later_).2
    = connections later_.
Proof.
  intros (r & _ & -> & -> & _ & _ & _ & _ & _ & ->)%rotation_claim_ok Hrow Hlease.
  simpl in Hrow. rewrite lookup_insert_eq in Hrow.
  assert (∀ a s2, Service.rotation_claim settings id principal' (tick_deployment later_)
                  = (Ok a, s2) → False) as Hno.
  { intros [row' root'] s2 (r' & Hr' & -> & _ & _ & _ & _ & Hst & _)%rotation_claim_ok. simpl in *.
    rewrite Hrow in Hr'. simplify_eq. simpl in *. destruct Hst as [?|[_ ?]]; [done|lia]. }
  split.
  - destruct (transact _ later_) as [[a|e] s2] eqn:E; [|done]. exfalso.
    apply transact_ok in E as (_ & s1 & E & _). by eapply Hno.
  - destruct (transact_connections (Service.rotation_claim settings id principal') later_)
      as [E|(a & s1 & E & _)]; [done|]. exfalso. by eapply Hno.
Qed.
End rotation.

End Rotation.
