(* ===== verification/ManagedRevoke.v ===== *)
(** * Revoking a managed connection

    A revocation removes the stored connection only after the identity
    provider's contract proves that no account of its name is left of those
    there were, at every point of its execution, however it fails or is
    interrupted.  A create of the connection that is still in flight may land
    its account meanwhile, also after the revocation looked for it. *)

From stdpp Require Import strings.
From S2P Require Import Prelude Bytes ConfigPath Core Managed Auth Encryption AuditEvent Rpc Database AuditTrail ConnectionUrl Identity Flow ManagedStore ManagedService ManagedMoves ManagedRotate.

Local Open Scope bytes_scope.

Module Revocation.
Import Identity Lifecycle Rotation.

Section revocation.
Context {P : Type} `{!ManagedIdentityProvider P, !ProviderView P, !ProviderLaws P}.
Context `{Locale} `{Crypto} (recorder : Trail.AuditRecorder).
(** The connection, by its identifier and display name. *)
Context (id : Managed.ConnectionId) (name : bytes).
(** Whether nobody else revokes it meanwhile. *)
Context (undisputed : Prop).
(** The accounts the revocation answers for, by their identifiers: those that
    exist when it begins, say. *)
Context (known : bytes → Prop).

Definition username : bytes := Names.managed_username id name.

(** One of those accounts is there, and of the connection's name. *)
Definition present (p : P) : Prop :=
  ∃ b v, known b ∧ accounts p !! b = Some v ∧ av_username v = username.

(** Such an account has a stored connection. *)
Definition accounted (s : Deployment P) : Prop :=
  present (provider s) → is_Some (connections s !! Managed.id_str id).

Definition only_account (a : bytes) (s : Deployment P) : Prop :=
  ∀ b v, known b → accounts (provider s) !! b = Some v → av_username v = username → b = a.

(** The account the row records, if any, is the only one of those. *)
Definition recorded_account (s : Deployment P) : Prop :=
  ∀ r a, connections s !! Managed.id_str id = Some r → row_account (m_row r) = Some a →
    only_account (account_str a) s.

(** What other tasks may do meanwhile: they keep the provider sound, make no
    known account one of this name (new accounts of that name may land), do not
    change what identifies the row or store another in its place, and leave no
    known account of that name without its row, as another revocation does
    not either. *)
Definition rely (s s' : Deployment P) : Prop :=
  (sound (provider s) → sound (provider s'))
  ∧ (∀ b v', known b → accounts (provider s') !! b = Some v' → av_username v' = username →
      ∃ v, accounts (provider s) !! b = Some v ∧ av_username v = username)
  ∧ undisturbed (Managed.id_str id) s s'
  ∧ (accounted s → accounted s')
  ∧ (recorded_account s → recorded_account s')
  ∧ (undisputed → is_Some (connections s !! Managed.id_str id) →
     is_Some (connections s' !! Managed.id_str id)).

(** ** Lemmas *)

#[local] Instance rely_preorder : PreOrder rely.
Proof.
  split.
  - intros s. split_and!; try done; eauto. unfold undisturbed.
    by destruct (connections s !! Managed.id_str id).
  - intros x y z (A1 & B1 & C1 & D1 & E1 & F1) (A2 & B2 & C2 & D2 & E2 & F2). split_and!; eauto.
    + intros b v' Hk Hb Hv. destruct (B2 _ _ Hk Hb Hv) as (v & ? & ?). eauto.
    + unfold undisturbed in *. destruct (connections x !! _), (connections y !! _), (connections z !! _);
        try done. congruence.
Qed.

(** Steps that leave the table alone and add no account. *)
Lemma rely_provider s s' :
  connections s' = connections s → (sound (provider s) → sound (provider s')) →
  (∀ b v, accounts (provider s') !! b = Some v → accounts (provider s) !! b = Some v) →
  rely s s'.
Proof.
  intros Hc Hs Ha. split_and!; [done|eauto| | | |by rewrite Hc].
  - unfold undisturbed. rewrite Hc. by destruct (connections s !! _).
  - unfold accounted. rewrite Hc. intros Hacc (b & v & Hk & Hb & Hv). apply Hacc. exists b, v. eauto.
  - unfold recorded_account, only_account. rewrite Hc. eauto.
Qed.

Lemma rely_same_accounts s p :
  sound (provider s) → same_accounts (provider s) p → rely s (set_provider p s).
Proof.
  intros Hs [[Hs' _] [Ha _]]. apply rely_provider; [done|done|]. simpl. by rewrite Ha.
Qed.

Lemma rely_absent s s' : rely s s' → ¬ present (provider s) → ¬ present (provider s').
Proof.
  intros (_ & Ha & _) Hn (b & v & Hk & Hb & Hv). apply Hn. destruct (Ha _ _ Hk Hb Hv) as (w & ? & ?).
  by exists b, w.
Qed.

Lemma absent_same p p' : accounts p' = accounts p → ¬ named p username → ¬ present p'.
Proof. intros E Hn (b & v & _ & Hb & Hv). apply Hn. exists b, v. by rewrite <- E. Qed.

Lemma rely_only a s s' : rely s s' → only_account a s → only_account a s'.
Proof.
  intros (_ & Ha & _) Ho b v Hk Hb Hv. destruct (Ha _ _ Hk Hb Hv) as (w & ? & ?). eauto.
Qed.

Section interference.
Context (env : relation (Deployment P)) (Henv : ∀ s s', env s s' → rely s s').

(** A postcondition that holds of every state later tasks may leave. *)
Abbreviation wp := (wpi env accounted).

Lemma revoke_wp_record call outcome {A} (k : unit → Flow (Deployment P) A) Q s :
  accounted s → (∀ s', rely s s' → wp (k tt) Q s') →
  wp (flow_bind (Service.record_dependency call outcome) k) Q s.
Proof.
  intros Hacc Hk. simpl. intros s1 He. apply Henv in He.
  match goal with |- _ ∧ wpi _ _ _ _ ?s2 => assert (rely s1 s2) as Hr by (by apply rely_provider) end.
  split; [|apply Hk; by etrans]. apply Hr, He, Hacc.
Qed.

(** A provider call whose law says it changed no account. *)
Lemma revoke_wp_ask {A B} (call : P → A * P) (k : A → Flow (Deployment P) B) Q s :
  sound (provider s) → accounted s →
  (∀ s1, rely s s1 → sound (provider s1) →
     rely s1 (set_provider (call (provider s1)).2 s1)
     ∧ (sound (provider (set_provider (call (provider s1)).2 s1)) →
        accounted (set_provider (call (provider s1)).2 s1) →
        wp (k (call (provider s1)).1) Q (set_provider (call (provider s1)).2 s1))) →
  wp (flow_bind (Service.ask call) k) Q s.
Proof.
  intros Hs Hacc Hk. simpl. intros s1 He. apply Henv in He.
  destruct (Hk s1 He) as [Hr Hw]; [by apply He|].
  destruct (call (provider s1)) as [r p]. simpl in *. split; [by apply Hr, He|].
  apply Hw; [by apply Hr, He|by apply Hr, He].
Qed.

Lemma credential_is_gone_wp {B} (k : bool → Flow (Deployment P) B) Q s :
  sound (provider s) → accounted s →
  (∀ b s', rely s s' → (b = true → ¬ present (provider s')) → wp (k b) Q s') →
  wp (flow_bind (Service.credential_is_gone username) k) Q s.
Proof.
  intros Hs Hacc Hk. unfold Service.credential_is_gone, Service.credential_gone.
  rewrite !flow_bind_assoc_wpi.
  apply (revoke_wp_ask (find_credentials username)); [done..|]. intros s1 Hs1 Hsound.
  destruct (find_credentials username (provider s1)) as [r p] eqn:E.
  apply find_credentials_of_law in E as [Hsame Hnone]; [|done].
  pose proof (rely_same_accounts s1 p Hsound Hsame) as Hr. split; [done|]. intros _ Hacc2.
  simpl fst. simpl snd in *. destruct r as [ids|e].
  - eapply (revoke_wp_record _ _ (λ _, Ret (Some (is_empty ids)))); [done|]. intros s3 Hs3. simpl.
    apply Hk; [by repeat (etrans; [eassumption|])|]. intros Hb%bool_decide_eq_true.
    destruct ids as [|c ids]; [|done]. eapply rely_absent; [exact Hs3|].
    apply (absent_same (provider s1)); [apply Hsame|by apply Hnone].
  - eapply (revoke_wp_record _ _ (λ _, Ret None)); [done|]. intros s3 Hs3. simpl.
    apply Hk; [by repeat (etrans; [eassumption|])|done].
Qed.

(** The account to delete is the only known one of the connection's name,
    and there is none when there is none to delete. *)
Definition target_found (target : option AccountId) (s : Deployment P) : Prop :=
  match target with
  | Some a => only_account (account_str a) s
  | None => ¬ present (provider s)
  end.

Lemma revocation_target_wp {B} row (k : option AccountId → Flow (Deployment P) (result B Status)) Q s :
  sound (provider s) → accounted s →
  (∀ a, row_account row = Some a → only_account (account_str a) s) →
  (∀ target s', rely s s' → target_found target s' → wp (k target) Q s') →
  (∀ e s', Q (Err e) s') →
  wp (flow_try (Service.revocation_target row username) k) Q s.
Proof.
  intros Hs Hacc Hrow Hk HQ. unfold Service.revocation_target. rewrite wpi_try.
  destruct (row_account row) as [a|]; [by apply Hk; [|apply Hrow]|].
  apply (revoke_wp_ask (find_account username)); [done..|]. intros s1 Hs1 Hsound.
  destruct (find_account username (provider s1)) as [r p] eqn:E.
  apply find_by_name_law in E as [Hsame Hfound]; [|done].
  pose proof (rely_same_accounts s1 p Hsound Hsame) as Hr. split; [done|]. intros Hsound2 Hacc2.
  simpl fst. simpl snd in *. destruct Hsame as [_ [Ea _]]. destruct r as [found|e].
  - eapply (revoke_wp_record _ _ (λ _, Ret (Ok found))); [done|]. intros s3 Hs3. simpl.
    apply Hk; [by repeat (etrans; [eassumption|])|]. destruct found as [a|]; simpl in *.
    + eapply rely_only; [exact Hs3|]. intros b v _ Hb Hv. simpl in Hb. rewrite Ea in Hb.
      destruct Hfound as [_ (w & Hw & Hwu)%fmap_Some].
      eapply (usernames_unique (provider s1)); [done|exact Hb|exact Hw|congruence].
    + eapply rely_absent; [exact Hs3|]. by apply (absent_same (provider s1)).
  - rewrite <- wpi_try. unfold flow_try.
    match goal with |- wpi _ _ (flow_bind (flow_bind ?f ?g) ?h) _ _ =>
      rewrite (flow_bind_assoc_wpi _ _ (flow_bind f g)) end.
    eapply (revoke_wp_record _ _ (λ _, await gone := Service.credential_is_gone username in
              if gone : bool then Ret (Ok None) else Ret (Err dependency_error))); [done|].
    intros s3 Hs3. apply credential_is_gone_wp; [by apply Hs3|by apply Hs3|].
    intros [] s4 Hs4 Hgone; simpl; [|apply HQ].
    apply Hk; [by repeat (etrans; [eassumption|])|by apply Hgone].
Qed.

Lemma delete_account_confirmed_wp {B} a (k : unit → Flow (Deployment P) (result B Status)) Q s :
  sound (provider s) → accounted s → only_account (account_str a) s →
  (∀ s', rely s s' → ¬ present (provider s') → wp (k tt) Q s') →
  (∀ e s', Q (Err e) s') →
  wp (flow_try (Service.delete_account_confirmed a username) k) Q s.
Proof.
  intros Hs Hacc Honly Hk HQ. unfold Service.delete_account_confirmed. rewrite wpi_try.
  apply (revoke_wp_ask (delete_account a)); [done..|]. intros s1 Hs1 Hsound.
  destruct (delete_account a (provider s1)) as [r p] eqn:E.
  apply delete_account_law in E as ([Hp _] & _ & Hacct & _); [|done].
  assert (rely s1 (set_provider p s1)) as Hr.
  { apply rely_provider; [done..|]. simpl. intros b v.
    destruct Hacct as [->|[_ ->]]; [by intros [_ ?]%lookup_delete_Some|done]. }
  split; [done|]. intros Hsound2 Hacc2. simpl fst. simpl snd in *. destruct r as [[]|e].
  - eapply (revoke_wp_record _ _ (λ _, Ret (Ok tt))); [done|]. intros s3 Hs3. simpl.
    apply Hk; [by repeat (etrans; [eassumption|])|]. eapply rely_absent; [exact Hs3|].
    destruct Hacct as [Ea|[? _]]; [|done]. intros (b & v & Hkn & Hb & Hv). simpl in Hb. rewrite Ea in Hb.
    apply lookup_delete_Some in Hb as [Hne Hb]. apply Hne. symmetry.
    eapply (rely_only _ _ _ Hs1 Honly); done.
  - rewrite <- wpi_try. unfold flow_try.
    match goal with |- wpi _ _ (flow_bind (flow_bind ?f ?g) ?h) _ _ =>
      rewrite (flow_bind_assoc_wpi _ _ (flow_bind f g)) end.
    eapply (revoke_wp_record _ _ (λ _, await gone := Service.credential_is_gone username in
              if gone : bool then Ret (Ok tt) else Ret (Err dependency_error))); [done|].
    intros s3 Hs3. apply credential_is_gone_wp; [by apply Hs3|by apply Hs3|].
    intros [] s4 Hs4 Hgone; simpl; [|apply HQ].
    apply Hk; [by repeat (etrans; [eassumption|])|by apply Hgone].
Qed.

(** Claiming the row: it keeps what identifies it and its account. *)
Lemma claim_rely context s : rely s (Service.claim_for_revocation context id s).2.
Proof.
  unfold Service.claim_for_revocation, mbind at 1, D_bind at 1, dlift.
  destruct (Rpc.principal context) as [principal|]; [|done].
  match goal with |- rely s (transact ?b s).2 => set (body := b) end.
  assert (provider (transact body s).2 = provider s) as Hprov.
  { apply transact_provider.
    unfold body, lock_manageable, mark_revoking, mark, mbind, D_bind, dlift, dfail, dnow, mret, D_ret, table.
    repeat (simpl; case_match; simplify_eq/=; try done). }
  assert (connections (transact body s).2 = connections s
          ∨ ∃ r, connections s !! Managed.id_str id = Some r
              ∧ connections (transact body s).2
                = <[Managed.id_str id := set_state "revoking" (clock (world s)) r]> (connections s)) as Hc.
  { destruct (transact_connections body s) as [?|(a & s1 & Hb & ->)]; [by left|right].
    unfold body, mark_revoking, mark in Hb.
    apply dbind_ok in Hb as (row & ? & (-> & Hrow & _)%lock_manageable_ok & Hb).
    apply fmap_Some in Hrow as (r & Hr & ->). simpl in Hr. exists r. split; [done|]. dsteps.
    match goal with Hu : update_where _ _ _ _ = _ |- _ =>
      simpl in Hu; unfold update_where in Hu; rewrite Hr in Hu;
      destruct (row_check _); by simplify_eq/= end. }
  destruct Hc as [Hc|(r & Hr & Hc)]; [apply rely_provider; [done|by rewrite Hprov..]|].
  split_and!; try (by rewrite Hprov).
  - rewrite Hprov. eauto.
  - unfold undisturbed. by rewrite Hc, Hr, lookup_insert_eq.
  - unfold accounted. rewrite Hprov, Hc, lookup_insert_eq. by eexists.
  - unfold recorded_account, only_account. rewrite Hprov, Hc. intros Hrec r' a Hr'.
    rewrite lookup_insert_eq in Hr'. simplify_eq. by apply (Hrec r).
  - rewrite Hc, lookup_insert_eq. by eexists.
Qed.

(** A claim that succeeded was the caller's to make, and leaves a row. *)
Lemma claim_ok context (s : Deployment P) row s' :
  Service.claim_for_revocation context id s = (Ok row, s') →
  ∃ principal r, Rpc.principal context = Ok principal
    ∧ connections s !! Managed.id_str id = Some r ∧ row = m_row r
    ∧ Auth.allows principal (mkPath (root row)) Auth.Manage = true
    ∧ is_Some (connections s' !! Managed.id_str id) ∧ provider s' = provider s.
Proof.
  unfold Service.claim_for_revocation. intros Hb.
  apply dbind_ok in Hb as (principal & ? & [Hp ->]%dlift_ok & Hb).
  apply transact_ok in Hb as (_ & s1 & Hb & _ & ->).
  apply dbind_ok in Hb as (row' & ? & (-> & Hrow & _ & Hallow)%lock_manageable_ok & Hb).
  apply fmap_Some in Hrow as (r & Hr & ->). simpl in Hr. unfold mark_revoking, mark in Hb. dsteps.
  match goal with Hu : update_where _ _ _ _ = _ |- _ =>
    simpl in Hu; unfold update_where in Hu; rewrite Hr in Hu;
    destruct (row_check _); simplify_eq/= end.
  exists principal, r. rewrite lookup_insert_eq. split_and!; eauto.
Qed.

(** The last step removes the row, if it is there, and records it. *)
Lemma delete_recorded_ok actor event (s : Deployment P) u s' :
  Kind.coalesces (ev_kind event) = false →
  delete_connection_recorded recorder id actor event s = (Ok u, s') →
  connections s' = delete (Managed.id_str id) (connections s) ∧ provider s' = provider s
  ∧ (is_Some (connections s !! Managed.id_str id) → ends_with_event s' actor event).
Proof.
  intros Hk Hd. unfold delete_connection_recorded in Hd. dsteps.
  match goal with Hu : delete_by_id _ _ = _ |- _ =>
    unfold delete_by_id in Hu; simpl in Hu; destruct (connections s !! _) as [r|] eqn:Er;
    simplify_eq/= end; dsteps.
  - split; [done|]. split; [done|]. intros _.
    match goal with Hr : Trail.record_in _ _ _ _ _ = _ |- _ =>
      apply record_in_one in Hr as Hl; [|done] end.
    unfold ends_with_event. simpl in *. rewrite Hl. eauto.
  - split; [done|]. split; [done|]. by intros [].
Qed.

Lemma delete_recorded_provider actor event (s : Deployment P) :
  provider (delete_connection_recorded recorder id actor event s).2 = provider s.
Proof.
  apply transact_provider. unfold mbind, D_bind, table, dnow, on_world, mret, D_ret, delete_by_id.
  repeat (simpl; case_match; simplify_eq/=; try done).
Qed.

(** What is true when a revocation of the connection [r] succeeds. *)
Definition revoked (context : Rpc.CallContext) (r : ManagedRow) (s' : Deployment P) : Prop :=
  connections s' !! Managed.id_str id = None ∧ ¬ present (provider s')
  ∧ ∃ principal actor, Rpc.principal context = Ok principal ∧ Rpc.actor context = Ok actor
      ∧ Auth.allows principal (mkPath (root (m_row r))) Auth.Manage = true
      ∧ (undisputed → ends_with_event s' actor (Event.connection_revoked actor
           (mkConnectionSubject (root (m_row r)) name (Managed.id_str id)))).

Lemma revoke_wpi context text r s :
  Managed.connection_id_parse text = Ok id →
  connections s !! Managed.id_str id = Some r → display_name (m_row r) = name →
  sound (provider s) → accounted s → recorded_account s →
  wp (Service.revoke recorder context text) (λ res s', res = Ok tt → revoked context r s') s.
Proof.
  intros Hid Hr Hname Hs Hacc Hrec. unfold Service.revoke. rewrite Hid. simpl map_err.
  rewrite wpi_try. simpl. intros s1 He. apply Henv in He.
  pose proof (claim_rely context s1) as Hclaim. split; [by apply Hclaim, He|].
  destruct (Service.claim_for_revocation context id s1) as [[row|e] s2] eqn:Ec; [|done].
  apply claim_ok in Ec as (principal & r1 & Hp & Hr1 & -> & Hallow & Hin & Hprov). simpl in *.
  assert (identity r1 = identity r) as Hident.
  { destruct He as (_ & _ & Hu & _). unfold undisturbed in Hu. by rewrite Hr, Hr1 in Hu. }
  injection Hident as E1 E2 E3 E4 E5.
  destruct (Rpc.actor context) as [actor|] eqn:Ha; [|done]. rewrite E2, Hname. fold username.
  assert (rely s s2) as Hs2 by (by etrans).
  apply revocation_target_wp; [by apply Hs2|by apply Hs2| | |done].
  { intros a Hra. eapply rely_only; [exact Hclaim|]. apply He in Hrec. by eapply Hrec. }
  intros target s3 Hs3 Htarget.
  match goal with |- wpi _ _ (flow_try ?f ?k) ?Q _ =>
    assert (∀ s4, rely s3 s4 → ¬ present (provider s4) → wp (k tt) Q s4) as Hlast end.
  { intros s4 Hs4 Hgone. simpl. intros s5 He5. apply Henv in He5.
    eapply rely_absent in Hgone; [|exact He5].
    split.
    - unfold accounted. rewrite delete_recorded_provider. done.
    - intros Hok. destruct (delete_connection_recorded _ _ _ _ s5) as [res s6] eqn:Ed. simpl in *. subst res.
      apply delete_recorded_ok in Ed as (Hc & Hpr & Hev); [|done].
      split; [by rewrite Hc, lookup_delete_eq|]. split; [by rewrite Hpr|].
      exists principal, actor. rewrite <- E3. split_and!; try done. intros Hund. apply Hev.
      assert (rely s2 s5) as Hall by (by repeat (etrans; [eassumption|])).
      by apply Hall. }
  destruct target as [a|]; simpl in Htarget.
  - apply delete_account_confirmed_wp; [by apply Hs3, Hs2|by apply Hs3, Hs2|done|exact Hlast|done].
  - by apply Hlast.
Qed.

End interference.

(** C4: as long as other tasks stay within [rely], which lets a create that is
    still in flight land an account of the connection's name at any moment, and
    the row records no other account than the known one of that name: a
    revocation that succeeds was made by a caller who manages the connection's
    root, and leaves neither the stored connection nor a known account of its
    name, with the revocation recorded; and at every point of any execution of
    it, failed, faulty or interrupted, a known account of that name still has
    its stored connection, so none of those is orphaned. *)
Theorem revocation_never_orphans env context text r s s' :
  (∀ s s', env s s' → rely s s') →
  Managed.connection_id_parse text = Ok id →
  connections s !! Managed.id_str id = Some r → display_name (m_row r) = name →
  sound (provider s) → accounted s → recorded_account s →
  (exec env (Service.revoke recorder context text) s (Ok tt) s' → revoked context r s')
  ∧ (reaches env (Service.revoke recorder context text) s s' → accounted s').
Proof.
  intros Henv Hid Hr Hname Hs Hacc Hrec.
  pose proof (revoke_wpi env Henv context text r s Hid Hr Hname Hs Hacc Hrec) as Hw. split.
  - intros Hex. by apply (wpi_exec _ _ _ _ _ _ _ Hw Hex).
  - intros Hre. eapply wpi_reaches; [|exact Hacc|exact Hw|exact Hre].
    intros x y Hx Hxy. apply Henv in Hxy. by apply Hxy.
Qed.
End revocation.

End Revocation.
