(* ===== verification/ManagedCreate.v ===== *)
(** * Creating a managed connection

    What a creation that reports a URL has done, and that no creation, however
    its steps fail and wherever it is interrupted, leaves an account that exists
    or may still come to exist without a stored connection to revoke it by. *)

From stdpp Require Import strings.
From S2P Require Import Prelude Bytes ConfigPath Core Managed Auth Encryption AuditEvent Rpc Database AuditTrail ConnectionUrl Identity Flow ManagedStore ManagedService ManagedMoves ManagedRotate.

Local Open Scope bytes_scope.

Module Creation.
Import Identity Lifecycle Rotation.

Section creation.
Context {P : Type} `{!ManagedIdentityProvider P, !ProviderView P, !ProviderLaws P}.
Context `{Locale} `{Crypto} `{UrlCrates}.
Context (recorder : Trail.AuditRecorder) (settings : Service.ManagedSettings).
(** The connection being created. *)
Context (id : Managed.ConnectionId) (name : bytes).

Definition username : bytes := Names.managed_username id name.
Abbreviation key := (Managed.id_str id).

(** An account of the connection's name exists, or may still land. *)
Definition may_exist (s : Deployment P) : Prop :=
  named (provider s) username ∨ username ∈ landing (provider s).

Definition accounted (s : Deployment P) : Prop := may_exist s → is_Some (connections s !! key).

(** What other tasks may do meanwhile: anything that leaves this connection and
    its accounts alone.  An account of its name may appear only by an earlier
    request of this creation landing late. *)
Definition rely (s s' : Deployment P) : Prop :=
  (sound (provider s) → sound (provider s') ∧ ∀ a, visible (provider s) a → visible (provider s') a)
  ∧ entropy (world s') = entropy (world s)
  ∧ connections s' !! key = connections s !! key
  ∧ (∀ a v, accounts (provider s) !! a = Some v → av_username v = username →
       accounts (provider s') !! a = Some v)
  ∧ (may_exist s' → may_exist s).

#[local] Instance rely_preorder : PreOrder rely.
Proof.
  split.
  - intros s. by split_and!.
  - intros x y z (A1 & B1 & C1 & D1 & E1) (A2 & B2 & C2 & D2 & E2).
    split_and!; [|congruence|congruence|eauto|eauto].
    intros Hx. destruct (A1 Hx) as [Hy Hv]. destruct (A2 Hy) as [Hz Hw]. eauto.
Qed.

Lemma rely_accounted s s' : rely s s' → accounted s → accounted s'.
Proof. unfold accounted. intros (_ & _ & -> & _ & Hm) Ha Hm'. auto. Qed.

Lemma rely_sound s s' : rely s s' → sound (provider s) → sound (provider s').
Proof. intros Hr Hs. by destruct (proj1 Hr Hs). Qed.

(** The stored connection satisfies [f]. *)
Definition Row (f : ManagedRow → Prop) (s : Deployment P) : Prop :=
  ∃ r, connections s !! key = Some r ∧ f r.

Lemma rely_Row f s s' : rely s s' → Row f s → Row f s'.
Proof. unfold Row. by intros (_ & _ & -> & _). Qed.

Lemma Row_accounted f s : Row f s → accounted s.
Proof. intros (r & Hr & _) _. by eexists. Qed.

Lemma Row_mono (f g : ManagedRow → Prop) s : (∀ r, f r → g r) → Row f s → Row g s.
Proof. intros Hfg (r & ? & ?). exists r. auto. Qed.

(** The account [a] of the connection's name exists, in plain sight, and no
    request for another is pending. *)
Definition Acct (a : bytes) (g : option (bytes * bytes * list bytes)) (s : Deployment P) : Prop :=
  sound (provider s) ∧ accounts (provider s) !! a = Some (mkView username g)
  ∧ visible (provider s) a.

Lemma rely_Acct a g s s' : rely s s' → Acct a g s → Acct a g s'.
Proof.
  intros (Hs & _ & _ & Ha & _) (Hsd & Hacc & Hv). destruct (Hs Hsd) as [? ?].
  split; [done|]. split; [by apply Ha|auto].
Qed.

Section interference.
Context (env : relation (Deployment P)) (Henv : ∀ s s', env s s' → rely s s').

Abbreviation wp := (wpi env accounted).

(** A step that other tasks could have taken too. *)
Lemma rely_counters m s : rely s (set_counters m s).
Proof. by split_and!. Qed.

Lemma create_wp_record call outcome Q s :
  accounted s → (∀ s', rely s s' → Q tt s') → wp (Service.record_dependency call outcome) Q s.
Proof.
  intros Hacc Hk s1 He. apply Henv in He. split.
  - eapply rely_accounted; [|exact Hacc]. etrans; [exact He|apply rely_counters].
  - apply Hk. etrans; [exact He|apply rely_counters].
Qed.

(** A call of the provider: its law, whatever came before it, must account for
    what it leaves. *)
Lemma create_wp_ask {A} (call : P → A * P) Q s :
  (∀ s1 r p, rely s s1 → call (provider s1) = (r, p) →
     accounted (set_provider p s1) ∧ Q r (set_provider p s1)) →
  wp (Service.ask call) Q s.
Proof.
  intros Hk s1 He. apply Henv in He.
  destruct (call (provider s1)) as [r p] eqn:E. simpl. by apply Hk.
Qed.

(** A statement or transaction. *)
Lemma wp_sql {A} (m : D P Status A) Q s :
  (∀ s1 r s2, rely s s1 → m s1 = (r, s2) → accounted s2 ∧ Q r s2) → wp (Service.sql m) Q s.
Proof.
  intros Hk s1 He. apply Henv in He. destruct (m s1) as [r s2] eqn:E. simpl. by eapply Hk.
Qed.

(** ** Statements on the stored connection *)

(** An update of the row, by whatever condition, keeps it stored. *)
Lemma table_update_keeps cond f (s : Deployment P) a s2 r :
  table (update_where key cond f) s = (a, s2) → connections s !! key = Some r →
  provider s2 = provider s
  ∧ ∃ r', connections s2 !! key = Some r' ∧ (r' = r ∨ r' = f r)
      ∧ (is_ok a = true → cond r = true → r' = f r).
Proof.
  unfold table, update_where. intros Ht Hr. rewrite Hr in Ht.
  destruct (cond r) eqn:Ec; [destruct (row_check (f r))|]; destruct (outcome (world s));
    simplify_eq/=; (split; [done|]); rewrite ?lookup_insert_eq, ?Hr;
    (eexists; split; [done|]; split; [by auto|]); try done; congruence.
Qed.

Lemma transition_state_keeps st st' (s : Deployment P) a s2 f :
  transition_state id st st' s = (a, s2) → Row f s →
  provider s2 = provider s ∧ Row (λ _, True) s2.
Proof.
  intros Ht (r & Hr & _). unfold transition_state, mbind at 1, D_bind at 1, dnow in Ht.
  unfold mbind, D_bind, mret, D_ret in Ht.
  destruct (table _ s) as [x s1] eqn:E. eapply table_update_keeps in E as (Hp & r' & Hr' & _); [|exact Hr].
  assert (s2 = s1) as -> by (destruct x; by simplify_eq/=). split; [done|]. by exists r'.
Qed.

(** Recording an identifier of the account on the row. *)
Lemma update_row_ok f (s : Deployment P) a s2 (R R' : ManagedRow → Prop) :
  (mbind (M:=D P Status) (λ now, _ ← table (update_where key (λ _, true) (f now)); mret ()) dnow) s
    = (a, s2) →
  Row R s → (∀ now r, R r → R' (f now r)) →
  provider s2 = provider s ∧ (is_ok a = true → Row R' s2)
  ∧ Row (λ r, R r ∨ R' r) s2.
Proof.
  intros Ht (r & Hr & HR) Hf. unfold mbind at 1, D_bind at 1, dnow in Ht.
  unfold mbind, D_bind, mret, D_ret in Ht. destruct (table _ s) as [x s1] eqn:E.
  eapply table_update_keeps in E as (Hp & r' & Hr' & Hor & Hok); [|exact Hr].
  assert (s2 = s1 ∧ is_ok a = is_ok x) as [-> Ea] by (destruct x; by simplify_eq/=).
  split; [done|]. split.
  - rewrite Ea. intros Hx. exists r'. split; [done|]. rewrite Hok by done. auto.
  - exists r'. split; [done|]. destruct Hor as [->| ->]; auto.
Qed.

(** Deleting the row accounts for what is gone. *)
Lemma delete_row_provider (s : Deployment P) : provider (delete_row id s).2 = provider s.
Proof.
  unfold delete_row, delete_connection, mbind, D_bind, table, delete_by_id.
  by destruct (outcome (world s)), (connections s !! key).
Qed.

Lemma wp_delete_row Q s :
  ¬ may_exist s → (∀ b s2, ¬ may_exist s2 → Q b s2) → wp (act (delete_row id)) Q s.
Proof.
  intros Hn Hk s1 He. apply Henv in He.
  assert (¬ may_exist (delete_row id s1).2) as Hn'.
  { unfold may_exist. rewrite delete_row_provider. intros Hm. by apply Hn, He. }
  split; [|by apply Hk]. by intros ?.
Qed.

(** Marking the row for cleanup keeps it, if it is there. *)
Lemma cleanup_required_wp Q s :
  (Row (λ _, True) s ∨ ¬ may_exist s) → (∀ st s', accounted s' → Q st s') →
  wp (Service.cleanup_required id) Q s.
Proof.
  intros Hpre Hk. unfold Service.cleanup_required. rewrite flow_bind_assoc_wpi. apply wp_sql.
  intros s1 r s2 Hs1 Ht. assert (accounted s2) as Hacc; [|split; [done|by apply Hk]].
  destruct Hpre as [Hrow|Hn].
  - eapply rely_Row in Hrow; [|exact Hs1].
    eapply transition_state_keeps in Ht as [_ ?]; [|exact Hrow]. by eapply Row_accounted.
  - intros Hm. exfalso. apply Hn, Hs1. unfold may_exist in *.
    assert (provider s2 = provider s1) as <-; [|done].
    revert Ht. unfold transition_state, mbind, D_bind, dnow, table.
    repeat (simpl; case_match; simplify_eq/=; try done); by intros [= _ <-].
Qed.

(** ** Compensation *)

Lemma deleted_is_gone a g s r p :
  Acct (account_str a) g s → delete_law a (provider s) r p → (is_ok r = true ∨ r = Err NotFound) →
  ¬ may_exist (set_provider p s).
Proof.
  intros (Hs & Ha & Hv) (_ & Hland & Hacc & Hnf) Hr. unfold may_exist, named. simpl.
  rewrite Hland. intros [(b & v & Hb & Hu)|Hl].
  - assert (accounts p !! account_str a = None ∧ b = account_str a) as [E ->]; [|congruence].
    assert (accounts (provider s) !! b = Some v) as Hb0.
    { destruct Hacc as [Ea|[_ Ea]]; rewrite Ea in Hb; [by apply lookup_delete_Some in Hb as [_ ?]|done]. }
    split; [|by eapply (usernames_unique (provider s))].
    destruct Hr as [Hok| ->]; [|by apply Hnf].
    destruct Hacc as [->|[? _]]; [apply lookup_delete_eq|congruence].
  - eapply (landing_unnamed (provider s)); [done|exact Hl|]. by exists (account_str a), (mkView username g).
Qed.

(** Carries what is known over a step of the others. *)
Ltac carry Hr :=
  repeat match goal with
  | H : Row _ ?x |- _ => match type of Hr with rely x _ => eapply rely_Row in H; [|exact Hr] end
  | H : Acct _ _ ?x |- _ => match type of Hr with rely x _ => eapply rely_Acct in H; [|exact Hr] end
  | H : sound (provider ?x) |- _ =>
      match type of Hr with rely x _ => eapply rely_sound in H; [|exact Hr] end
  end.

Lemma compensate_wp a g failure Q s :
  Row (λ _, True) s → Acct (account_str a) g s → (∀ st s', accounted s' → Q st s') →
  wp (Service.compensate_created_account id a failure) Q s.
Proof.
  intros Hrow Hacct Hk. unfold Service.compensate_created_account. rewrite flow_bind_assoc_wpi.
  apply create_wp_ask. intros s1 r p Hs1 E. carry Hs1. apply delete_account_law in E; [|apply Hacct].
  pose proof (deleted_is_gone _ _ _ _ _ Hacct E) as Hgone.
  assert (Row (λ _, True) (set_provider p s1)) as Hrow' by exact Hrow.
  assert (accounted (set_provider p s1)) as Hacc by (by eapply Row_accounted). split; [done|].
  destruct r as [[]|[]];
    (rewrite flow_bind_assoc_wpi; apply create_wp_record; [done|]; intros s3 Hs3);
    try (apply cleanup_required_wp; [left; by eapply rely_Row|done]);
    (rewrite flow_bind_assoc_wpi; apply wp_delete_row;
      [intros Hm; apply Hgone; [by auto|]; by apply Hs3|]; intros [] s4 Hn4;
      [apply Hk; by intros ?|apply cleanup_required_wp; [by right|done]]).
Qed.

Lemma reconcile_wp left Q s :
  Row (λ _, True) s → sound (provider s) → (∀ st s', accounted s' → Q st s') →
  wp (Service.reconcile id username left) Q s.
Proof.
  revert s. induction left as [|left IH]; intros s Hrow Hs Hk; cbn [Service.reconcile].
  { apply cleanup_required_wp; [by left|done]. }
  rewrite flow_bind_assoc_wpi.
  apply (wpi_mono _ _ _ (λ _ s', Row (λ _, True) s' ∧ sound (provider s'))).
  { destruct (_ <? _)%nat; [|done]. intros s1 He%Henv. carry He. split; [by eapply Row_accounted|done]. }
  clear s Hrow Hs. intros _ s [Hrow Hs].
  rewrite flow_bind_assoc_wpi. apply create_wp_ask. intros s1 r p Hs1 E. carry Hs1.
  apply find_by_name_law in E as [[[Hp Hv] [Ea El]] Hfound]; [|done].
  assert (Row (λ _, True) (set_provider p s1)) as Hrow' by exact Hrow.
  assert (sound (provider (set_provider p s1))) as Hs' by exact Hp.
  assert (accounted (set_provider p s1)) as Hacc by (by eapply Row_accounted). split; [done|].
  destruct r as [[a|]|e];
    (rewrite flow_bind_assoc_wpi; apply create_wp_record; [done|]; intros s3 Hs3).
  - destruct Hfound as [Hvis (v & Hav & Hu)%fmap_Some].
    eapply (compensate_wp a (av_grant v)); [by eapply rely_Row| |done].
    eapply rely_Acct; [exact Hs3|]. split; [done|]. split; [|done]. simpl. rewrite Ea, Hav.
    destruct v. simpl in *. by rewrite Hu.
  - carry Hs3. by apply IH.
  - carry Hs3. apply cleanup_required_wp; [by left|done].
Qed.

(** ** Provisioning *)

Context (root_ : ConfigPath) (perms : Managed.ManagedPermissions) (created : Actor * AuditEvent).
Context (Hevent : Kind.coalesces (ev_kind created.2) = false).

Definition account_name : Service.AccountName := Service.mkAccountName username name.

(** The stored connection while it is being provisioned. *)
Definition provisioning (user : option bytes → Prop) (r : ManagedRow) : Prop :=
  (∃ t, identity r = (key, name, Path.as_str root_, Managed.as_storage perms, t))
  ∧ state (m_row r) = "provisioning" ∧ user (provider_user_id (m_row r)).

Definition the_grant : bytes * bytes * list bytes :=
  (key, Path.as_str root_, Managed.grant_tokens perms).

Lemma rely_set_provider s p :
  sound (provider s) → same_accounts (provider s) p → rely s (set_provider p s).
Proof.
  intros Hs [[Hp Hv] [Ea El]]. split_and!; try done; simpl.
  - by rewrite Ea.
  - unfold may_exist, named. simpl. by rewrite Ea, El.
Qed.

Lemma wp_same {A} (call : P → A * P) Q s :
  (∀ p r p', sound p → call p = (r, p') → same_accounts p p') →
  sound (provider s) → accounted s → (∀ r s', rely s s' → Q r s') → wp (Service.ask call) Q s.
Proof.
  intros Hlaw Hs Hacc Hk. apply create_wp_ask. intros s1 r p Hs1 E.
  pose proof (rely_sound _ _ Hs1 Hs) as Hs1s.
  pose proof (rely_set_provider s1 p Hs1s (Hlaw _ _ _ Hs1s E)) as Hr.
  assert (rely s (set_provider p s1)) as Hall by (by etrans).
  split; [by eapply rely_accounted|by apply Hk].
Qed.

Lemma Acct_grant (a : AccountId) g acct s p r :
  Acct (account_str a) g s →
  grant_law a acct (provider s) r p →
  ∃ g', Acct (account_str a) g' (set_provider p s)
    ∧ (is_ok r = true → g' = Some (granted acct)).
Proof.
  intros (Hs & Ha & Hv) ([Hp Hvis] & _ & [Ea|[Hf Ea]]).
  - exists (Some (granted acct)). split; [|done]. split; [done|]. split; [|by apply Hvis].
    simpl. by rewrite Ea, lookup_alter_eq, Ha.
  - exists g. split; [|congruence]. split; [done|]. split; [|by apply Hvis]. simpl. by rewrite Ea.
Qed.

(** Granting, then the browse group. *)
Lemma grant_wp (a : AccountId) user Q s :
  Row (provisioning user) s → Acct (account_str a) None s →
  (∀ (res : result unit Status) g s', Row (provisioning user) s' → Acct (account_str a) g s' →
     (is_ok res = true → g = Some the_grant) → Q res s') →
  wp (await granted := Service.ask (grant a (mkAccountGrant key name (Path.as_str root_)
                                               (Managed.grant_tokens perms))) in
      match granted with
      | Ok _ =>
          await _ := Service.record_dependency Labels.SetAttributes Labels.DepOk in
          await _ := Service.assign_managed_group a in
          Ret (Ok tt)
      | Err error =>
          await _ := Service.record_dependency Labels.SetAttributes
                       (Service.dependency_outcome error) in
          Ret (Err dependency_error)
      end) Q s.
Proof.
  intros Hrow Hacct Hk. rewrite flow_bind_assoc_wpi. apply create_wp_ask. intros s1 r p Hs1 E. carry Hs1.
  apply grant_account_law in E; [|apply Hacct].
  destruct (Acct_grant _ _ _ _ _ _ Hacct E) as (g & Hg & Hok).
  assert (Row (provisioning user) (set_provider p s1)) as Hrow' by exact Hrow.
  split; [by eapply Row_accounted|].
  destruct r as [[]|e]; (rewrite flow_bind_assoc_wpi; apply create_wp_record; [by eapply Row_accounted|]);
    intros s2 Hs2; clear Hrow; carry Hs2; [|by eapply Hk].
  unfold Service.assign_managed_group. rewrite !flow_bind_assoc_wpi.
  apply wp_same; [apply assign_group_law|apply Hg|by eapply Row_accounted|].
  intros r s3 Hs3. carry Hs3. apply create_wp_record; [by eapply Row_accounted|]. intros s4 Hs4. carry Hs4.
  eapply Hk; [done..|]. intros _. by rewrite Hok.
Qed.

Lemma configure_account_wp (a : AccountId) user Q s :
  Row (provisioning user) s → Acct (account_str a) None s →
  (∀ res g s', Row (provisioning user) s' → Acct (account_str a) g s' →
     (is_ok res = true → g = Some the_grant) → Q res s') →
  wp (Service.configure_account id account_name root_ perms a) Q s.
Proof.
  intros Hrow Hacct Hk. unfold Service.configure_account. rewrite flow_bind_assoc_wpi.
  apply wp_same; [|apply Hacct|by eapply Row_accounted|].
  { intros p r p' Hp E. by apply find_credentials_of_law in E as [? _]. }
  intros found s1 Hs1. carry Hs1.
  destruct found as [[|c [|c' l]]|e]; rewrite flow_bind_assoc_wpi;
    (apply create_wp_record; [by eapply Row_accounted|]); intros s2 Hs2; carry Hs2; try by eapply Hk.
  rewrite wpi_try. apply wp_sql. intros s3 r s4 Hs3 E. carry Hs3.
  unfold record_credential_identifier in E.
  eapply (update_row_ok _ _ _ _ _ (provisioning user)) in E as (Hprov & _ & Hrow4); [|exact Hrow|done].
  eapply (Row_mono _ (provisioning user)) in Hrow4; [|by intros ? []].
  assert (Acct (account_str a) None s4) as Hacct4 by (unfold Acct in *; by rewrite Hprov).
  split; [by eapply Row_accounted|]. destruct r as [[]|e]; [|by eapply Hk].
  by eapply grant_wp.
Qed.

(** A recorded transition keeps the row, whatever becomes of it. *)
Lemma transition_recorded_keeps st st' actor event (s : Deployment P) a s2 f :
  transition_state_recorded recorder id st st' actor event s = (a, s2) → Row f s →
  provider s2 = provider s ∧ Row (λ _, True) s2.
Proof.
  intros Ht (r & Hr & _). unfold transition_state_recorded in Ht.
  match type of Ht with transact ?b s = _ =>
    pose proof (transact_provider b s) as Hp; pose proof (transact_connections b s) as Hc end.
  rewrite Ht in Hp, Hc. simpl in Hp, Hc. split.
  - apply Hp. unfold mbind, D_bind, table, dnow, on_world, mret, D_ret.
    repeat (simpl; case_match; simplify_eq/=; try done).
  - destruct Hc as [Hc|(x & s1 & Hb & Hc)]; unfold Row; rewrite Hc; [by exists r|].
    dsteps. match goal with Hu : update_where _ _ _ _ = Some (?m, ?c) |- _ =>
      unfold update_where in Hu; simpl in Hu; rewrite Hr in Hu;
      destruct (in_state st r); [destruct (row_check _)|]; simplify_eq; dsteps; simpl;
      rewrite ?lookup_insert_eq, ?Hr; eauto end.
Qed.

(** What completing the provisioning leaves. *)
Definition completed (a : AccountId) (row : ConnectionRow) (s : Deployment P) : Prop :=
  Row (λ r, row = m_row r ∧ state row = "active"
            ∧ (∃ t, identity r = (key, name, Path.as_str root_, Managed.as_storage perms, t))
            ∧ provider_user_id row = Some (account_str a)) s
  ∧ Acct (account_str a) (Some the_grant) s ∧ ends_with_event s created.1 created.2.

Lemma complete_provisioning_wp acc Q s :
  Row (provisioning (λ _, True)) s → Acct (account_str (account acc)) None s →
  (∀ row url s', completed (account acc) row s' →
     Service.managed_url settings root_ (credential acc) username = Ok url →
     Q (Ok (row, url)) s') →
  (∀ e g s', Row (λ _, True) s' → Acct (account_str (account acc)) g s' → Q (Err e) s') →
  wp (Service.complete_provisioning recorder settings id account_name root_ perms acc created) Q s.
Proof.
  intros Hrow Hacct Hok Herr. unfold Service.complete_provisioning. rewrite wpi_try. apply wp_sql.
  intros s1 r s2 Hs1 E. carry Hs1. unfold record_provider_user in E.
  set (user := λ o, o = Some (account_str (account acc))).
  eapply (update_row_ok _ _ _ _ _ (provisioning user)) in E as (Hprov & Hrow2 & Hany); [|exact Hrow|].
  2: { intros now r' (Hi & Hst & _). by split. }
  assert (Acct (account_str (account acc)) None s2) as Hacct2 by (unfold Acct in *; by rewrite Hprov).
  split; [by eapply Row_accounted|].
  destruct r as [[]|e]; [|eapply Herr; [by eapply Row_mono; [|exact Hany]|done]].
  specialize (Hrow2 eq_refl). rewrite wpi_try. eapply configure_account_wp; [exact Hrow2|done|].
  intros res g s3 Hrow3 Hacct3 Hg.
  destruct res as [[]|e]; [|eapply Herr; [by eapply Row_mono; [|exact Hrow3]|done]].
  rewrite Hg in Hacct3 by done. rewrite wpi_try. cbn [wpi].
  destruct (Service.managed_url _ _ _ _) as [url|e] eqn:Eu;
    [|eapply Herr; [by eapply Row_mono; [|exact Hrow3]|done]].
  rewrite wpi_try. apply wp_sql. intros s4 r s5 Hs4 E. carry Hs4.
  pose proof E as Hkeep. eapply transition_recorded_keeps in Hkeep as [Hp5 Hrow5]; [|exact Hrow3].
  assert (Acct (account_str (account acc)) (Some the_grant) s5) as Hacct5
    by (unfold Acct in *; by rewrite Hp5).
  split; [by eapply Row_accounted|]. destruct r as [moved|e]; [|by eapply Herr].
  apply transition_state_recorded_ok in E as [_ E]; [|done].
  destruct moved as [row|]; [|by eapply Herr]. simpl.
  destruct E as (r' & Hr' & _ & -> & Hc & Hev).
  eapply Hok; [|done]. destruct Hrow3 as (r & Hr & (t & Hi) & _ & Hu).
  assert (r' = r) as -> by congruence.
  split; [|done]. eexists. rewrite Hc, lookup_insert_eq. split; [done|]. split_and!; [done..| |done].
  by exists t.
Qed.

Lemma provision_inserted_wp Q s :
  Row (provisioning (λ _, True)) s → ¬ may_exist s → sound (provider s) →
  (∀ a row md url s' credential, completed a row s' → metadata row = Ok md →
     Service.managed_url settings root_ credential username = Ok url →
     Q (Ok (mkProvisionedConnection md url)) s') →
  (∀ e s', accounted s' → Q (Err e) s') →
  wp (Service.provision_inserted recorder settings id account_name root_ perms created) Q s.
Proof.
  intros Hrow Hn Hs Hok Herr. unfold Service.provision_inserted. rewrite flow_bind_assoc_wpi.
  apply create_wp_ask. intros s1 r p Hs1 E. carry Hs1.
  assert (¬ may_exist s1) as Hn1 by (intros Hm; by apply Hn, Hs1).
  apply create_account_law in E as [[Hp _] E]; [|done].
  assert (Row (provisioning (λ _, True)) (set_provider p s1)) as Hrow' by exact Hrow.
  assert (accounted (set_provider p s1)) as Hacc by (by eapply Row_accounted). split; [done|].
  destruct r as [acc|e].
  - destruct E as ([_ Ea] & El & Hv). rewrite flow_bind_assoc_wpi. apply create_wp_record; [done|].
    assert (Acct (account_str (account acc)) None (set_provider p s1)) as Hacct.
    { split; [done|]. split; [|done]. simpl. by rewrite Ea, lookup_insert_eq. }
    clear Hrow. intros s2 Hs2. carry Hs2. rewrite flow_bind_assoc_wpi.
    eapply complete_provisioning_wp; [done..| |].
    + intros row url s3 Hc Hu. simpl. destruct (metadata row) as [md|e] eqn:Em; simpl.
      * by eapply Hok.
      * apply Herr. destruct Hc as [Hr3 _]. by eapply Row_accounted.
    + intros e g s3 Hr3 Ha3. rewrite flow_bind_assoc_wpi. eapply compensate_wp; [done..|].
      intros st s4 Hacc4. by apply Herr.
  - rewrite flow_bind_assoc_wpi. apply create_wp_record; [done|]. intros s2 Hs2. rewrite flow_bind_assoc_wpi.
    assert (Row (λ _, True) s2) as Hrow2 by (eapply rely_Row; [exact Hs2|by eapply Row_mono]).
    assert (sound (provider s2)) as Hsd2 by (by eapply rely_sound).
    assert (may_have_created e = false → ¬ may_exist s2) as Hgone.
    { intros He. rewrite He in E. destruct E as [Ea El]. intros Hm. apply Hs2 in Hm. apply Hn1.
      unfold may_exist, named in *. simpl in Hm. by rewrite Ea, El in Hm. }
    unfold Service.recover_ambiguous_create.
    destruct e; try (apply reconcile_wp; [done..|]; intros st s4 Hacc4; by apply Herr);
      (rewrite flow_bind_assoc_wpi; apply wp_delete_row; [by apply Hgone|]; intros b s4 Hn4;
       apply Herr; by intros ?).
Qed.
End interference.

(** ** The whole operation *)

(** What the checks of a request establish. *)
Lemma create_request_ok context nm rt ps actor dn root_ perms :
  Service.create_request context nm rt ps = Ok (actor, dn, root_, perms) →
  ps = Some perms ∧ Managed.name_str dn = nm ∧ Rpc.actor context = Ok actor
  ∧ root_ = mkPath (to_ascii_lowercase rt) ∧ Path.Canonical rt
  ∧ ∃ principal, Rpc.principal context = Ok principal
      ∧ Auth.allows principal root_ Auth.Manage = true
      ∧ ∀ p, p ∈ Managed.iter perms →
          Auth.allows principal root_ (Service.required_permission p) = true.
Proof.
  unfold Service.create_request. intros E.
  apply and_then_ok in E as (principal & Hp & E). apply and_then_ok in E as (act_ & Ha & E).
  apply and_then_ok in E as (dn' & Hd%map_err_ok & E).
  apply and_then_ok in E as (rt' & Hrt%map_err_ok & E).
  apply and_then_ok in E as (root' & Hroot%map_err_ok & E).
  apply and_then_ok in E as (perms' & Hps%ok_or_ok & E).
  destruct (_ || _) eqn:Eg in E; [done|]. simplify_eq. apply orb_false_iff in Eg as [Hm He].
  apply negb_false_iff in Hm. rewrite existsb_false in He.
  apply Path.parse_selection_spec in Hrt as [-> Hcan]. apply Path.parse_spec in Hroot as [-> _].
  split; [done|]. split; [|split; [done|split; [done|split; [done|]]]].
  - revert Hd. unfold Managed.display_name_parse. destruct (_ && _); [|done]. by intros [= <-].
  - exists principal. split; [done|]. split; [done|]. intros p Hp'. by apply negb_false_iff, He.
Qed.

Lemma generate_id_entropy (s s1 : Deployment P) :
  entropy (world s1) = entropy (world s) →
  (Names.generate_connection_id s1).1 = (Names.generate_connection_id s).1.
Proof.
  unfold Names.generate_connection_id. intros ->. by destruct (Names.random_string _ _ _ _).
Qed.

Lemma generate_id_keeps (s : Deployment P) :
  connections (Names.generate_connection_id s).2 = connections s
  ∧ provider (Names.generate_connection_id s).2 = provider s.
Proof. unfold Names.generate_connection_id. by destruct (Names.random_string _ _ _ _). Qed.

(** Inserting the row: it was not there, or nothing is lost. *)
Lemma insert_provisioning_cases dn root_ perms (s : Deployment P) r s2 :
  insert_provisioning id dn root_ perms s = (r, s2) →
  provider s2 = provider s
  ∧ (connections s2 = connections s
     ∨ connections s !! key = None
       ∧ ∃ row, connections s2 !! key = Some row
           ∧ (∃ t, identity row = (key, Managed.name_str dn, Path.as_str root_, Managed.as_storage perms, t))
           ∧ state (m_row row) = "provisioning")
  ∧ (is_ok r = true → connections s !! key = None ∧ is_Some (connections s2 !! key)).
Proof.
  unfold insert_provisioning, mbind, D_bind, dnow, table. intros E.
  destruct (connections s !! key) as [r0|] eqn:Er.
  { destruct (outcome (world s)); simplify_eq/=; (split_and!; [done|by left|done]). }
  destruct (row_check _); [|destruct (outcome (world s)); simplify_eq/=; (split_and!; [done|by left|done])].
  destruct (outcome (world s)); simplify_eq/=; rewrite ?lookup_insert_eq;
    (split; [done|]; split; [|by eauto]); [right|by left|right];
    (split; [done|]; eexists; split; [done|]; split; [by eexists|done]).
Qed.

(** What is true when a creation reports [pc]. *)
Definition reported (context : Rpc.CallContext) (rt : bytes) (ps : option Managed.ManagedPermissions)
    (pc : ProvisionedConnection) (s' : Deployment P) : Prop :=
  ∃ principal actor perms r a cred,
    Rpc.principal context = Ok principal ∧ Rpc.actor context = Ok actor ∧ ps = Some perms
    ∧ (let root_ := mkPath (to_ascii_lowercase rt) in
       Auth.allows principal root_ Auth.Manage = true
       ∧ (∀ p, p ∈ Managed.iter perms →
            Auth.allows principal root_ (Service.required_permission p) = true)
       ∧ connections s' !! key = Some r ∧ state (m_row r) = "active"
       ∧ (∃ t, identity r = (key, name, path root_, Managed.as_storage perms, t))
       ∧ provider_user_id (m_row r) = Some a
       ∧ accounts (provider s') !! a
         = Some (mkView username (Some (key, path root_, Managed.grant_tokens perms)))
       ∧ metadata (m_row r) = Ok (pc_metadata pc)
       ∧ Service.managed_url settings root_ cred username = Ok (pc_connection_url pc)
       ∧ ends_with_event s' actor (Event.connection_created actor
           (mkConnectionSubject (path root_) name key) (Managed.as_storage perms))).

Lemma create_wpi env context rt ps s :
  (∀ s s', env s s' → rely s s') →
  (Names.generate_connection_id s).1 = Ok id → sound (provider s) → accounted s →
  wpi env accounted (Service.create recorder settings context name rt ps)
    (λ res s', accounted s' ∧ ∀ pc, res = Ok pc → reported context rt ps pc s') s.
Proof.
  intros Henv Hid Hs Hacc. unfold Service.create. rewrite wpi_try. cbn [wpi].
  destruct (Service.create_request context name rt ps) as [[[[actor dn] root_] perms]|e] eqn:Er;
    [|by split].
  apply create_request_ok in Er as (-> & Hname & Hactor & -> & Hcan & principal & Hp & Hm & Hperms).
  rewrite wpi_try. eapply wp_sql; [exact Henv|]. intros s1 r s2 Hs1 E.
  pose proof (generate_id_entropy s s1 ltac:(apply Hs1)) as Hg. rewrite Hid, E in Hg. simpl in Hg. subst r.
  pose proof (generate_id_keeps s1) as [Hc2 Hp2]. rewrite E in Hc2, Hp2. simpl in Hc2, Hp2.
  assert (accounted s2) as Hacc2.
  { eapply rely_accounted in Hacc; [|exact Hs1]. unfold accounted, may_exist. by rewrite Hc2, Hp2. }
  assert (sound (provider s2)) as Hsd2 by (rewrite Hp2; by eapply rely_sound).
  split; [done|]. cbv zeta. rewrite wpi_try. eapply wp_sql; [exact Henv|].
  intros s3 r s4 Hs3 Ei. eapply rely_accounted in Hacc2; [|exact Hs3].
  eapply rely_sound in Hsd2; [|exact Hs3].
  apply insert_provisioning_cases in Ei as (Hp4 & Hins & Hok).
  assert (accounted s4) as Hacc4.
  { destruct Hins as [Hc|(_ & row & Hrow & _)]; [|intros _; by eexists].
    unfold accounted, may_exist. by rewrite Hc, Hp4. }
  split; [done|]. destruct r as [[]|e]; [|by split]. destruct (Hok eq_refl) as [Hnone Hsome].
  assert (¬ may_exist s4) as Hn4.
  { unfold may_exist. rewrite Hp4. intros Hm'. apply Hacc2 in Hm' as [? ?]. congruence. }
  destruct Hins as [Hc|(_ & row & Hrow & Hident & Hst)].
  { rewrite Hc, Hnone in Hsome. by destruct Hsome. }
  rewrite Hname in *. eapply provision_inserted_wp; [exact Henv|done| |done|by rewrite Hp4| |].
  - by exists row.
  - intros a row' md url s5 cred (Hrow5 & (_ & Hacct5 & _) & Hev) Hmd Hurl.
    split; [by eapply Row_accounted|]. intros pc [= <-].
    destruct Hrow5 as (r & Hr & -> & Hact & Hid5 & Huser).
    exists principal, actor, perms, r, (account_str a), cred. by split_and!.
  - intros e s5 Hacc5. by split.
Qed.

(** C3: a creation answers a URL only to a caller who holds, on the fold of the
    requested root, the permission to manage and every permission requested;
    then the connection is stored as active with that root, name and permission
    set, its account at the identity provider is granted exactly those
    permissions there, and the trail ends with the recorded creation. *)
Theorem creation_grants_what_the_caller_holds env context rt ps pc s s' :
  (∀ s s', env s s' → rely s s') →
  (Names.generate_connection_id s).1 = Ok id → sound (provider s) → accounted s →
  exec env (Service.create recorder settings context name rt ps) s (Ok pc) s' →
  reported context rt ps pc s'.
Proof.
  intros Henv Hid Hs Hacc Hex.
  by apply (wpi_exec _ _ _ _ _ _ _ (create_wpi env context rt ps s Henv Hid Hs Hacc)) in Hex as [_ ?]; auto.
Qed.

(** C15: at every point of a creation, however its statements and provider calls
    fail and wherever it is interrupted, an account of the new connection's name
    that exists, or that an ambiguous request may still bring about, has a
    stored connection by which it can be revoked, as long as other tasks stay
    within [rely], which lets such a request land at any moment but lets nobody
    else touch the connection's row or the accounts of its name: a revocation
    of a connection that is still being created is not covered. *)
Theorem creation_never_orphans env context rt ps s s' :
  (∀ s s', env s s' → rely s s') →
  (Names.generate_connection_id s).1 = Ok id → sound (provider s) → accounted s →
  reaches env (Service.create recorder settings context name rt ps) s s' →
  accounted s'.
Proof.
  intros Henv Hid Hs Hacc Hre.
  eapply wpi_reaches; [|exact Hacc|by apply (create_wpi env context rt ps s)|exact Hre].
  intros x y Hx Hxy. eapply rely_accounted; [|exact Hx]. by apply Henv.
Qed.
End creation.

End Creation.
