(* ===== verification/ManagedReads.v ===== *)
(** * What callers see of managed connections

    The listing shows exactly the connections the caller manages, and an
    operation on a connection the caller does not manage answers as if it did
    not exist. *)

From stdpp Require Import strings.
From S2P Require Import Prelude Bytes ConfigPath Core Managed Auth Encryption AuditEvent Rpc Database AuditTrail ConnectionUrl Identity Flow ManagedStore ManagedService ManagedMoves ManagedRotate.

Local Open Scope bytes_scope.

Module Visible.

(** ** Lemmas: stored rows can be read back *)

Lemma root_check_parse s : root_check s = true → Path.parse s = Ok (mkPath s).
Proof.
  unfold root_check. intros [->%bool_decide_eq_true|[Hp Hl]%andb_true_iff]%orb_true_iff; [done|].
  apply path_check_spec, Path.parse_operation_canonical in Hp as [_ Hc].
  apply Path.parse_spec. split; [done|]. split; [done|].
  apply forallb_Forall in Hl. clear Hc. induction Hl as [|c s Hc _ IH]; [done|]. simpl.
  rewrite lower_byte_lowercase by (by apply negb_true_iff). f_equal. exact IH.
Qed.

Lemma state_check_parse s : s ∈ states → ∃ st, Managed.state_parse s = Ok st.
Proof. unfold states. rewrite !elem_of_cons, elem_of_nil. intros Hs. repeat destruct Hs as [->|Hs]; eauto; done. Qed.

Lemma permissions_check_parse s : s ∈ Managed.storage_check → ∃ ps, Managed.parse s = Ok ps.
Proof.
  unfold Managed.storage_check. rewrite !elem_of_cons, elem_of_nil. intros Hs.
  repeat destruct Hs as [->|Hs]; try done; (eexists; vm_compute; reflexivity).
Qed.

Lemma id_check_parse s : id_check s = true → Managed.connection_id_parse s = Ok (Managed.mkConnectionId s).
Proof.
  unfold id_check, Managed.connection_id_parse, Managed.MIN_CONNECTION_ID_CHARS,
    Managed.MAX_CONNECTION_ID_CHARS. by intros ->.
Qed.

Section reads.
Context {P : Type} `{Identity.ManagedIdentityProvider P} `{Locale} `{Crypto} `{UrlCrates}.
Context (recorder : Trail.AuditRecorder) (settings : Service.ManagedSettings).

(** What the constraints keep true of the table. *)
Definition rows_checked (s : Deployment P) : Prop :=
  ∀ id r, connections s !! id = Some r → row_check r = true ∧ connection_id (m_row r) = id.

Lemma moves_rows_checked (s s' : Deployment P) :
  Lifecycle.moves s s' → rows_checked s → rows_checked s'.
Proof.
  intros Hm Hs id r' Hr'. specialize (Hm id). rewrite Hr' in Hm.
  inversion Hm as [|r Hid _ Hck| |r ? [Hi _] Hck Hr]; subst; [done|].
  symmetry in Hr. destruct (Hs id r Hr) as [Hc Hid]. injection Hi as -> _ _ _ _. split; [|done].
  by destruct Hck as [->|?].
Qed.

Lemma metadata_ok r : row_check r = true → ∃ md, metadata (m_row r) = Ok md.
Proof.
  unfold row_check. intros Hc. bool_prop.
  match goal with H : state _ ∈ states |- _ => apply state_check_parse in H as [st Hst] end.
  match goal with H : permissions _ ∈ _ |- _ => apply permissions_check_parse in H as [ps Hps] end.
  unfold metadata. rewrite Hst, Hps. simpl. rewrite !Rpc.to_timestamp_ok. simpl. eauto.
Qed.

Lemma row_root_ok r : row_check r = true → Path.parse (root (m_row r)) = Ok (mkPath (root (m_row r))).
Proof. unfold row_check. intros Hc. bool_prop. by apply root_check_parse. Qed.

(** C20: starting from an empty table, in every deployment the calls can reach,
    interleaved, failing and cancelled at will, every stored connection is
    well-typed: it is filed under its own identifier, which parses, its root and
    permission set parse, and its metadata can be answered; so no reply of the
    service is lost to a row it cannot read. *)
Theorem stored_connections_are_well_typed s0 pool s :
  connections s0 = ∅ → rtc (Lifecycle.service_step recorder settings) ([], s0) (pool, s) →
  ∀ id r, connections s !! id = Some r →
    connection_id (m_row r) = id
    ∧ Managed.connection_id_parse id = Ok (Managed.mkConnectionId id)
    ∧ Path.parse (root (m_row r)) = Ok (mkPath (root (m_row r)))
    ∧ (∃ perms, Managed.parse (permissions (m_row r)) = Ok perms)
    ∧ ∃ md, metadata (m_row r) = Ok md ∧ md_connection_id md = id.
Proof.
  intros H0' Hreach id r Hr.
  assert (rows_checked s) as Hs.
  { eapply (Lifecycle.service_steps_moves recorder settings s0) in Hreach.
    assert (rows_checked s0) as Hs0 by (intros ? ? Hl; by rewrite H0' in Hl).
    clear H0'. induction Hreach; eauto using moves_rows_checked. }
  destruct (Hs id r Hr) as [Hck Hid]. destruct (metadata_ok r Hck) as [md Hmd].
  assert (md_connection_id md = id) as Hmid.
  { subst id. unfold metadata in Hmd.
    destruct (Managed.state_parse _), (Managed.parse _); try discriminate.
    simpl in Hmd. rewrite !Rpc.to_timestamp_ok in Hmd. by injection Hmd as <-. }
  pose proof (row_root_ok r Hck). unfold row_check in Hck. bool_prop.
  split; [done|]. split; [|split; [done|]; split; [|by eauto]].
  - subst id. match goal with H : id_check _ = true |- _ => by apply id_check_parse end.
  - match goal with H : permissions _ ∈ _ |- _ => by apply permissions_check_parse in H end.
Qed.

Lemma elem_of_ordered c r : r ∈ ordered c ↔ ∃ id, c !! id = Some r.
Proof.
  unfold ordered. rewrite elem_of_sort_by, list_elem_of_In, in_map_iff.
  setoid_rewrite <- list_elem_of_In. split.
  - intros ([id r'] & <- & Hin). exists id. by apply elem_of_map_to_list.
  - intros [id Hid]. exists (id, r). split; [done|]. by apply elem_of_map_to_list.
Qed.

Definition manages (principal : AuthenticatedPrincipal) (r : ManagedRow) : bool :=
  Auth.allows principal (mkPath (root (m_row r))) Auth.Manage.

(** The loop of the listing is a filter, on rows that can be read. *)
Lemma listing_loop principal l : ∀ acc,
  Forall (λ r, row_check r = true) l →
  ∃ mds, map_result (λ r, metadata (m_row r)) (List.filter (manages principal) l) = Ok mds
    ∧ fold_result (λ acc row,
         let? root := map_err (Path.parse (root row)) (λ _, internal_error) in
         if Auth.allows principal root Auth.Manage
         then let? md := metadata row in Ok (acc ++ [md]) else Ok acc) acc (List.map m_row l)
      = Ok (acc ++ mds).
Proof.
  induction l as [|r l IH]; intros acc Hf.
  { exists []. by rewrite app_nil_r. }
  apply Forall_cons in Hf as [Hr Hf]. cbn [List.map List.filter fold_result].
  rewrite (row_root_ok r Hr). simpl. unfold manages at 1.
  destruct (Auth.allows _ _ _).
  - destruct (metadata_ok r Hr) as [md Hmd]. simpl. rewrite Hmd. simpl.
    destruct (IH (acc ++ [md]) Hf) as (mds & -> & ->). exists (md :: mds).
    by rewrite <- app_assoc.
  - by apply IH.
Qed.

(** The listing answers exactly the stored connections whose root the caller
    manages, each with its own metadata, in the order of creation, or that
    storage is unavailable, and changes nothing. *)
Theorem listing_shows_what_the_caller_manages env context principal res s s' :
  (∀ s s', env s s' → rows_checked s → rows_checked s') → rows_checked s →
  Rpc.principal context = Ok principal →
  exec env (Service.list_connections context) s res s' →
  res = Err Rpc.storage_unavailable
  ∨ ∃ rows mds, res = Ok mds ∧ map_result (λ r, metadata (m_row r)) rows = Ok mds
      ∧ (∀ r, r ∈ rows ↔ (∃ id, connections s' !! id = Some r) ∧ manages principal r = true)
      ∧ rows `sublist_of` ordered (connections s').
Proof.
  intros Henv Hrows Hp. unfold Service.list_connections. rewrite Hp. simpl.
  intros (s1 & He & Hex). apply Henv in He; [|done].
  unfold list_rows, table in Hex. destruct (outcome (world s1)); simpl in Hex;
    destruct Hex as [-> ->]; [right|by left..].
  assert (Forall (λ r, row_check r = true) (ordered (connections s1))) as Hf.
  { apply Forall_forall. intros r [id Hr]%elem_of_ordered. by apply He in Hr as [? _]. }
  destruct (listing_loop principal _ [] Hf) as (mds & Hm & Hl).
  exists (List.filter (manages principal) (ordered (connections s1))), mds. rewrite Hl.
  split; [done|]. split; [done|]. split; [|apply filter_sublist].
  intros r. rewrite list_elem_of_In, List.filter_In, <- list_elem_of_In, elem_of_ordered. done.
Qed.

(** ** Connections of others *)

(** What a failed claim of a row answers does not depend on whether it exists. *)
Lemma hidden_claim {A} id principal r root_ (k : ConnectionRow → D P Status A) s :
  connections s !! Managed.id_str id = Some r →
  Path.parse (root (m_row r)) = Ok root_ → Auth.allows principal root_ Auth.Manage = false →
  let body := row ← lock_manageable id principal; k row in
  let without := set_connections (delete (Managed.id_str id) (connections s)) s in
  ∃ e s1 s2, transact body s = (Err e, s1) ∧ transact body without = (Err e, s2)
    ∧ connections s1 = connections s ∧ provider s1 = provider s
    ∧ audit (db (world s1)) = audit (db (world s)).
Proof.
  intros Hr Hparse Hallow body without. unfold transact, body, lock_manageable, mbind, D_bind, table, dlift.
  unfold without. simpl. destruct (outcome (world s)); simpl; [|by eauto 10..].
  destruct (outcome (tick (world s))); simpl; rewrite ?Hr, ?lookup_delete_eq; simpl; [|by eauto 10..].
  rewrite Hparse. simpl. rewrite Hallow. simpl. eauto 10.
Qed.

Lemma begin_rotation_as_claim id context principal s :
  Rpc.principal context = Ok principal →
  Service.begin_rotation (P:=P) settings id context s
    = transact (Service.rotation_claim settings id principal) s.
Proof. unfold Service.begin_rotation, mbind, D_bind, dlift. by intros ->. Qed.

Lemma claim_for_revocation_as_claim id context principal s :
  Rpc.principal context = Ok principal →
  Service.claim_for_revocation (P:=P) context id s
    = transact (row ← lock_manageable id principal; _ ← mark_revoking id; mret row) s.
Proof. unfold Service.claim_for_revocation. unfold mbind at 1, D_bind at 1, dlift. by intros ->. Qed.

(** Rotating or revoking a connection the caller does not manage answers
    exactly what it would if the connection did not exist, and changes neither
    the stored connections nor the provider nor the trail. *)
Theorem others_connections_look_missing context principal text id r root_ s :
  Managed.connection_id_parse text = Ok id → Rpc.principal context = Ok principal →
  connections s !! Managed.id_str id = Some r →
  Path.parse (root (m_row r)) = Ok root_ → Auth.allows principal root_ Auth.Manage = false →
  let without := set_connections (delete (Managed.id_str id) (connections s)) s in
  (run (Service.rotate (P:=P) recorder settings context text) s).1
    = (run (Service.rotate recorder settings context text) without).1
  ∧ (run (Service.revoke (P:=P) recorder context text) s).1
    = (run (Service.revoke recorder context text) without).1
  ∧ ∀ s', s' = (run (Service.rotate (P:=P) recorder settings context text) s).2
          ∨ s' = (run (Service.revoke (P:=P) recorder context text) s).2 →
      connections s' = connections s ∧ provider s' = provider s
      ∧ audit (db (world s')) = audit (db (world s)).
Proof.
  intros Hid Hp Hr Hparse Hallow without.
  destruct (hidden_claim id principal r root_ (λ row, _ ← mark_revoking id; mret row) s Hr Hparse Hallow)
    as (e' & s1' & s2' & E1' & E2' & Hs1').
  rewrite <- (claim_for_revocation_as_claim _ _ _ _ Hp) in E1'.
  rewrite <- (claim_for_revocation_as_claim _ _ _ _ Hp) in E2'.
  pose proof (begin_rotation_as_claim id context principal s Hp) as E1.
  pose proof (begin_rotation_as_claim id context principal without Hp) as E2.
  unfold Service.rotation_claim in E1, E2.
  match type of E1 with _ = transact (_ ≫= ?k) _ =>
    destruct (hidden_claim id principal r root_ k s Hr Hparse Hallow) as (e & s1 & s2 & H1' & H2' & Hs1) end.
  fold without in H2', E2'. rewrite H1' in E1. rewrite H2' in E2.
  unfold Service.rotate, Service.revoke. rewrite Hid. simpl.
  rewrite E1, E2, E1', E2'. simpl. split; [done|]. split; [done|].
  intros s' [->| ->]; done.
Qed.
End reads.

End Visible.
