(* ===== verification/ManagedSample.v ===== *)
(** * A sample deployment of the managed connection service

    The service over the in-memory identity provider: one connection created on
    an empty database.  The theorems about creation, rotation, revocation and
    listing are applied to it. *)

From stdpp Require Import strings.
From S2P Require Import Prelude Bytes ConfigPath Core Managed Auth Encryption AuditEvent Rpc Database AuditTrail Values ConnectionUrl Identity IdentityFake Flow ManagedStore ManagedService ManagedMoves ManagedRotate ManagedRevoke ManagedCreate ManagedReads.

Local Open Scope bytes_scope.

Module Scene.
#[local] Existing Instance Fake.fake_provider.
Import SampleUrl Values.Sample.

#[export] Instance posix : Locale := {| posix_space c := bool_decide (c = 32%Z);
  posix_cntrl c := (c <? 32)%Z |}.

Definition settings : Service.ManagedSettings :=
  Service.mkSettings "https://config.example.test" "https://auth.example.test/o/" 60000000000.

Definition empty : Deployment Fake.State :=
  mkDeployment (set_entropy (replicate 4 (Some (replicate 64 "a"%char))) start) ∅ true Fake.new
    (mkManagedMetrics ∅ ∅).

Definition id_text : bytes := replicate 32 "z"%char.
Definition id : Managed.ConnectionId := Managed.mkConnectionId id_text.
Definition perms : option Managed.ManagedPermissions := ok (Managed.parse "read,write").

Definition creation := Service.create hourly settings owner "Api server" "/Apps/api" perms.
Definition created : Deployment Fake.State := (Flow.run creation empty).2.

(** Someone who may read only. *)
Definition reader : Rpc.CallContext :=
  Rpc.mkContext (Some (mkPrincipal "user-2" None [mkGrant "/" {[Read]}])) (Some "v5").

End Scene.
Import Scene SampleUrl Values.Sample.
#[local] Existing Instances Fake.fake_provider Fake.fake_view Fake.fake_laws.

(** Running alone is one execution. *)
Lemma ran {A} (f : Flow (Deployment Fake.State) (result A Status)) s :
  is_ok (run f s).1 = true → ∃ a, exec eq f s (Ok a) (run f s).2.
Proof. intros H. pose proof (exec_run eq f s). destruct (run f s) as [[a|e] s']; [by exists a|done]. Qed.

(** Its one account. *)
Lemma created_account k a : Fake.st_accounts (provider created) !! k = Some a → k = "1".
Proof.
  assert (bool_decide (map_Forall (λ k _, k = "1") (Fake.st_accounts (provider created))) = true)
    as Hall%bool_decide_eq_true by (vm_compute; reflexivity). intros Ha. exact (Hall k a Ha).
Qed.

Lemma created_view k v : Identity.accounts (provider created) !! k = Some v → k = "1".
Proof.
  change (Identity.accounts (provider created)) with (Fake.view <$> Fake.st_accounts (provider created)).
  intros (a & _ & Ha)%lookup_fmap_Some. by eapply created_account.
Qed.

Lemma sound_created : Identity.sound (provider created).
Proof.
  split; [split_and!|split].
  - vm_compute. discriminate.
  - intros k a Ha. assert (k = "1") as -> by (by eapply created_account).
    vm_compute in Ha. simplify_eq. split; [done|]. exists 1%Z.
    split; [by vm_compute|vm_compute; split; discriminate].
  - intros k k' a a' ->%created_account ->%created_account _. done.
  - intros q Hq. vm_compute in Hq. by simplify_eq.
  - intros q Hq. by vm_compute in Hq.
Qed.

Definition created_row : ManagedRow :=
  default (mkManagedRow (mkConnectionRow [] [] [] None None [] [] 0 0) None) (connections created !! Managed.id_str id).
Lemma created_stored : connections created !! Managed.id_str id = Some created_row.
Proof.
  unfold created_row. destruct (connections created !! Managed.id_str id) eqn:E; [done|]. vm_compute in E. discriminate.
Qed.

Lemma created_recorded : Revocation.recorded_account id "Api server" (λ _, True) created.
Proof.
  intros r a Hr Ha b v _ ->%created_view _. pose proof (eq_trans (eq_sym created_stored) Hr) as Hr'.
  apply (inj Some) in Hr'. rewrite <- Hr' in Ha.
  assert (row_account (m_row created_row) = Some (Identity.mkAccountId "1")) as Ha'
    by (vm_compute; reflexivity). rewrite Ha' in Ha. apply (inj Some) in Ha. by rewrite <- Ha.
Qed.

Lemma created_rows_checked : Visible.rows_checked created.
Proof.
  assert (bool_decide (map_Forall (λ k r, row_check r = true ∧ connection_id (m_row r) = k)
                         (connections created)) = true)
    as Hall%bool_decide_eq_true by (vm_compute; reflexivity). intros k r Hr. exact (Hall k r Hr).
Qed.

#[local] Opaque created created_row.

(** ** The theorems at the sample *)

Lemma rotation_reports_the_current_credential_witness :
  ∃ pc, Rotation.rotated settings eq owner id created pc
          (run (Service.rotate hourly settings owner id_text) created).2.
Proof.
  destruct (ran (Service.rotate hourly settings owner id_text) created) as [pc Hrun];
    [vm_compute; reflexivity|]. exists pc.
  refine (Rotation.rotation_reports_the_current_credential hourly settings eq owner id_text id pc
            created _ _ _ Hrun).
  - intros s ? <-. unfold Rotation.undisturbed. by destruct (_ !! _).
  - vm_compute. reflexivity.
Defined.

Definition manager : AuthenticatedPrincipal := mkPrincipal "user-1" None [mkGrant "/" {[Auth.Manage]}].
Definition claimed : Deployment Fake.State := (Service.rotation_claim settings id manager created).2.

Lemma rotation_lease_excludes_witness :
  is_ok (transact (Service.rotation_claim settings id manager) claimed).1 = false
  ∧ connections (transact (Service.rotation_claim settings id manager) claimed).2 = connections claimed.
Proof.
  destruct (Service.rotation_claim settings id manager created) as [r s'] eqn:E.
  assert (is_ok r = true) as Hr by (replace r with (Service.rotation_claim settings id manager created).1
    by (by rewrite E); vm_compute; reflexivity).
  assert (s' = claimed) as -> by (unfold claimed; by rewrite E).
  destruct r as [[row root_]|e]; [|discriminate].
  apply (Rotation.rotation_lease_excludes settings manager id created row root_ claimed manager claimed E);
    vm_compute; reflexivity.
Defined.

(** Nobody else acts. *)
Lemma alone_revocation (s s' : Deployment Fake.State) :
  s = s' → Revocation.rely id "Api server" True (λ _, True) s s'.
Proof.
  intros <-. split_and!; try done; [naive_solver|]. unfold Rotation.undisturbed. by destruct (_ !! _).
Qed.

Lemma created_accounted : Revocation.accounted id "Api server" (λ _, True) created.
Proof. intros _. exists created_row. apply created_stored. Qed.

Lemma revocation_never_orphans_witness :
  Revocation.revoked id "Api server" True (λ _, True) owner created_row
    (run (Service.revoke hourly owner id_text) created).2.
Proof.
  assert (∃ u, exec eq (Service.revoke hourly owner id_text) created (Ok u)
                 (run (Service.revoke hourly owner id_text) created).2) as [[] Hrun]
    by (apply ran; vm_compute; reflexivity).
  assert (Managed.connection_id_parse id_text = Ok id) as Hid by (vm_compute; reflexivity).
  assert (display_name (m_row created_row) = "Api server") as Hname by (vm_compute; reflexivity).
  exact (proj1 (Revocation.revocation_never_orphans hourly id "Api server" True (λ _, True) eq owner id_text
            created_row created _ alone_revocation Hid created_stored Hname sound_created
            created_accounted created_recorded) Hrun).
Defined.

(** Nothing else happens. *)
Lemma alone_rely s s' : s = s' → Creation.rely id "Api server" s s'.
Proof. intros <-. by split_and!. Qed.

Lemma creation_grants_what_the_caller_holds_witness :
  ∃ pc, Creation.reported settings id "Api server" owner "/Apps/api" perms pc created.
Proof.
  destruct (ran creation empty) as [pc Hrun]; [vm_compute; reflexivity|]. exists pc.
  refine (Creation.creation_grants_what_the_caller_holds hourly settings id "Api server" eq owner
            "/Apps/api" perms pc empty created alone_rely _ Fake.new_sound _ Hrun).
  - vm_compute. reflexivity.
  - intros [(a & v & Ha & _)|Hl]; [vm_compute in Ha; discriminate|by apply elem_of_empty in Hl].
Defined.

(** A create that is reported ambiguous, and a lookup that fails. *)
Definition faulty : Deployment Fake.State :=
  set_provider (Fake.fail_next Fake.FindAccount Identity.Unavailable
                  (Fake.fail_next Fake.CreateAccount Identity.Ambiguous Fake.new)) empty.

Lemma creation_never_orphans_witness :
  let s' := (run creation faulty).2 in
  state ∘ m_row <$> connections s' !! id_text = Some ("cleanup_required" : bytes)
  ∧ Creation.accounted id "Api server" s'.
Proof.
  intros s'. split; [vm_compute; reflexivity|].
  refine (Creation.creation_never_orphans hourly settings id "Api server" eq owner "/Apps/api" perms
            faulty s' alone_rely _ _ _ (reaches_run eq creation faulty)).
  - vm_compute. reflexivity.
  - split; [apply Fake.new_sound|]. split; intros q Hq; vm_compute in Hq; [|discriminate].
    apply (inj Some) in Hq. subst q. by repeat constructor.
  - intros [(a & v & Ha & _)|Hl]; [vm_compute in Ha; discriminate|by apply elem_of_empty in Hl].
Defined.

Lemma listing_shows_what_the_caller_manages_witness :
  let '(res, s') := run (Service.list_connections owner) created in
  res = Err Rpc.storage_unavailable
  ∨ ∃ rows mds, res = Ok mds ∧ map_result (λ r, metadata (m_row r)) rows = Ok mds
      ∧ (∀ r, r ∈ rows ↔ (∃ id, connections s' !! id = Some r)
              ∧ Visible.manages (mkPrincipal "user-1" (Some "ada" : option bytes)
                  [mkGrant "/" {[Auth.Read; Auth.Write; Auth.Manage]}]) r = true)
      ∧ rows `sublist_of` ordered (connections s').
Proof.
  pose proof (exec_run eq (Service.list_connections owner) created) as Hrun.
  destruct (run _ created) as [res s'].
  refine (Visible.listing_shows_what_the_caller_manages eq owner _ res created s' _
            created_rows_checked _ Hrun); [by intros ?? <-|reflexivity].
Defined.

Lemma others_connections_look_missing_witness :
  (run (Service.revoke hourly reader id_text) created).1
  = (run (Service.revoke hourly reader id_text)
       (set_connections (delete (Managed.id_str id) (connections created)) created)).1.
Proof.
  refine (proj1 (proj2 (Visible.others_connections_look_missing hourly settings reader
    (mkPrincipal "user-2" None [mkGrant "/" {[Auth.Read]}]) id_text id created_row (mkPath "/apps/api")
    created _ _ created_stored _ _))); vm_compute; reflexivity.
Defined.

(** One call, started and run for its first two steps: the identifier drawn and
    the row inserted. *)
Definition call : Lifecycle.Call := Lifecycle.CallCreate owner "Api server" "/Apps/api" perms.
Definition starting : Flow (Deployment Fake.State) unit := Lifecycle.flow_of hourly settings call.
Definition drawn : option (Flow (Deployment Fake.State) unit * Deployment Fake.State) :=
  advance starting empty.
Definition inserted : option (Flow (Deployment Fake.State) unit * Deployment Fake.State) :=
  drawn ≫= λ c, advance c.1 c.2.

#[local] Opaque drawn starting empty.

Lemma inserted_reached : ∃ f s f' s', drawn = Some (f, s) ∧ inserted = Some (f', s')
  ∧ state ∘ m_row <$> connections s' !! Managed.id_str id = Some ("provisioning" : bytes)
  ∧ rtc (Lifecycle.service_step hourly settings) ([], empty) ([f], s)
  ∧ Lifecycle.service_step hourly settings ([f], s) ([f'], s').
Proof.
  assert ((λ c, state ∘ m_row <$> connections c.2 !! Managed.id_str id) <$> inserted
    = Some (Some ("provisioning" : bytes))) as Hrow by (vm_compute; reflexivity).
  unfold inserted in *. destruct drawn as [[f s]|] eqn:Ed; [|discriminate]. cbn [mbind option_bind fst snd] in *.
  destruct (advance f s) as [[f' s']|] eqn:Ei; [|discriminate]. apply (inj Some) in Hrow.
  exists f, s, f', s'. split_and!; [reflexivity|reflexivity|exact Hrow| |].
  - apply rtc_l with ([starting], empty); [apply (pool_start _ _ starting []); by exists call|].
    apply rtc_once, (pool_advance _ _ 0 starting f [starting] empty s); [reflexivity|exact Ed].
  - apply (pool_advance _ _ 0 f f' [f] s s'); [reflexivity|exact Ei].
Qed.

Lemma lifecycle_is_respected_witness :
  ∃ c c', drawn = Some c ∧ inserted = Some c'
    ∧ state ∘ m_row <$> connections c'.2 !! Managed.id_str id = Some ("provisioning" : bytes)
    ∧ Lifecycle.moves c.2 c'.2.
Proof.
  destruct inserted_reached as (f & s & f' & s' & Ed & Ei & Hrow & Hreach & Hstep).
  exists (f, s), (f', s'). split_and!; [exact Ed|exact Ei|exact Hrow|].
  exact (proj1 (Lifecycle.lifecycle_is_respected hourly settings empty [f] [f'] s s' Hreach Hstep)).
Defined.

Lemma stored_connections_are_well_typed_witness :
  ∃ (s' : Deployment Fake.State) r, connections s' !! Managed.id_str id = Some r ∧ ∃ md, metadata (m_row r) = Ok md
    ∧ md_connection_id md = Managed.id_str id.
Proof.
  destruct inserted_reached as (f & s & f' & s' & _ & _ & Hrow & Hreach & Hstep).
  destruct (connections s' !! Managed.id_str id) as [r|] eqn:Er; [|discriminate].
  exists s', r. split; [exact Er|].
  assert (connections empty = ∅) as He by (vm_compute; reflexivity).
  destruct (Visible.stored_connections_are_well_typed hourly settings empty [f'] s' He
    (rtc_r _ _ _ Hreach Hstep) _ _ Er) as (_ & _ & _ & _ & Hmd).
  exact Hmd.
Defined.
