(* ===== verification/AuditQuery.v ===== *)
(** * Reading the audit trail back

    Models [crates/sovereign-config-core/src/audit.rs], the query side of
    [audit/store.rs] and the service of [audit/service.rs]: validation of a
    query, the clauses its statement is built from, paging by cursor and the
    counts of the first page. *)

From stdpp Require Import strings.
From S2P Require Import Prelude Bytes ConfigPath Core Auth AuditEvent Rpc Database AuditTrail.

Local Open Scope bytes_scope.

(** [Option::is_some] *)
Definition is_some {A} (o : option A) : bool := match o with Some _ => true | None => false end.

(** ** core: audit.rs *)

Module Vocabulary.

Inductive AuditEventKind :=
| ValueCreated | ValueUpdated | ValueDeleted | ValuePathAdded | SubtreeReplaced
| SubtreeDeleted | SecretRevealed | SubtreeRead | ValuesListed
| ConnectionCreated | ConnectionRotated | ConnectionRevoked.
#[global] Instance AuditEventKind_eq_dec : EqDecision AuditEventKind.
Proof. solve_decision. Defined.

Definition ALL : list AuditEventKind :=
  [ValueCreated; ValueUpdated; ValueDeleted; ValuePathAdded; SubtreeReplaced; SubtreeDeleted;
   SecretRevealed; SubtreeRead; ValuesListed; ConnectionCreated; ConnectionRotated;
   ConnectionRevoked].

Definition as_str (k : AuditEventKind) : bytes :=
  match k with
  | ValueCreated => "value.created"
  | ValueUpdated => "value.updated"
  | ValueDeleted => "value.deleted"
  | ValuePathAdded => "value.path_added"
  | SubtreeReplaced => "subtree.replaced"
  | SubtreeDeleted => "subtree.deleted"
  | SecretRevealed => "secret.revealed"
  | SubtreeRead => "subtree.read"
  | ValuesListed => "values.listed"
  | ConnectionCreated => "connection.created"
  | ConnectionRotated => "connection.rotated"
  | ConnectionRevoked => "connection.revoked"
  end.

Definition parse (label : bytes) : option AuditEventKind :=
  List.find (λ kind, bool_decide (as_str kind = label)) ALL.

End Vocabulary.

Record AuditEntry := mkEntry {
  e_id : Z; e_kind : Vocabulary.AuditEventKind; e_path : ConfigPath;
  e_occurred_at : Stamps.Timestamp; e_first_occurred_at : Stamps.Timestamp; e_event_count : Z;
  e_actor_subject : bytes; e_actor_name : option bytes; e_protocol_version : bytes;
  e_old_value : option bytes; e_new_value : option bytes; e_narrative : bytes }.

Record AuditCounts := mkCounts { total : Z; matching : Z }.

Record AuditPage := mkPage {
  events : list AuditEntry; next_cursor : option bytes; counts : option AuditCounts }.

(** ** What the crates for instants and the database provide *)

(** The instants the [time] crate represents (the years -9999 to 9999, whose
    microseconds fit an [i64]), its calendar (year, month, day,
    hour, minute, second), how [sqlx] rounds an instant it binds to the
    microseconds a [TIMESTAMPTZ] holds, and the database's equality of
    characters up to case. *)
Class QueryCrates := {
  timestamp_min : Z; timestamp_max : Z;
  civil : Z → Z * Z * Z * Z * Z * Z;
  bind_instant : Z → Z;
  ilike_char : Z → Z → bool }.

Class QueryLaws `{QueryCrates} : Prop := {
  bind_exact t : timestamptz t = t → bind_instant t = t;
  range_fits : (Stamps.i64_min ≤ timestamp_min * 1000000
                ∧ (timestamp_max + 1) * 1000000 ≤ Stamps.i64_max)%Z }.

(** ** narrative.rs: serving a coalesced event *)

Section served.
Context `{QueryCrates}.

(** [{:0width}] of an integer. *)
Definition padded (width : nat) (n : Z) : bytes :=
  let digits := show_Z (Z.abs n) in
  if (n <? 0)%Z then "-" ++ replicate (width - 1 - length digits) "0"%char ++ digits
  else replicate (width - length digits) "0"%char ++ digits.

Definition utc (at_ : Z) : bytes :=
  let '(year, month, day, hour, minute, second) := civil at_ in
  padded 4 year ++ "-" ++ padded 2 month ++ "-" ++ padded 2 day ++ " " ++ padded 2 hour ++ ":"
  ++ padded 2 minute ++ ":" ++ padded 2 second ++ " UTC".

Definition served (narrative : bytes) (event_count first last : Z) : bytes :=
  if (event_count <=? 1)%Z then narrative
  else narrative ++ " — " ++ show_Z event_count ++ " times between " ++ utc first ++ " and "
       ++ utc last.
End served.

(** ** store.rs: the statement of a query *)

Record ElementScope := mkScope { es_path : bytes; es_ancestors : list bytes; es_parent : bytes }.

Record StoredEvent := mkStored {
  se_id : Z; se_kind : bytes; se_display_path : bytes; se_occurred_at : Z;
  se_first_occurred_at : Z; se_event_count : Z; se_actor_subject : bytes;
  se_actor_name : option bytes; se_protocol_version : bytes; se_old_value : option bytes;
  se_new_value : option bytes; se_narrative : bytes }.

Record EventFilter := mkFilter {
  f_readable : list bytes; f_manageable : list bytes; f_path : option bytes;
  f_element : option ElementScope; f_text : option bytes; f_actor : option bytes;
  f_from : option Z; f_until : option Z; f_protocol : option bytes; f_kinds : list bytes;
  f_after : option (Z * Z); f_limit : Z }.

Record EventCounts := mkEventCounts { ec_total : Z; ec_matching : Z }.

(** [LIKE … ESCAPE '\'] on characters, two of which match when [same]. *)
Definition PERCENT : Z := 37.
Definition BACKSLASH : Z := 92.
Definition UNDERSCORE : Z := 95.

Section like.
Context (same : Z → Z → bool).

Definition match_one (c : Z) (rest : list Z → bool) (text : list Z) : bool :=
  match text with x :: text' => same c x && rest text' | [] => false end.

Fixpoint like (pattern : list Z) : list Z → bool :=
  match pattern with
  | [] => is_empty
  | c :: pattern' =>
      if (c =? PERCENT)%Z then
        fix anywhere text :=
          like pattern' text || match text with _ :: text' => anywhere text' | [] => false end
      else if (c =? UNDERSCORE)%Z then
        λ text, match text with _ :: text' => like pattern' text' | [] => false end
      else if (c =? BACKSLASH)%Z then
        match pattern' with
        | d :: pattern'' => match_one d (like pattern'')
        | [] => λ _, false
        end
      else match_one c (like pattern')
  end.
End like.

(** The characters of the pattern. *)
Definition contains_pattern (fragment : bytes) : list Z :=
  [PERCENT]
  ++ flat_map (λ c, if ((c =? BACKSLASH) || (c =? PERCENT) || (c =? UNDERSCORE))%Z
                    then [BACKSLASH; c] else [c]) (chars fragment)
  ++ [PERCENT].

Definition CONNECTION_KINDS : list bytes :=
  [Kind.as_str ConnectionCreated; Kind.as_str ConnectionRotated; Kind.as_str ConnectionRevoked].

(** [EXISTS (… granted.prefix = '/' OR column = granted.prefix OR …)]: a null
    column makes the other two null, which selects nothing. *)
Definition push_covered (column : option bytes) (prefixes : list bytes) : bool :=
  existsb (λ p, bool_decide (p = "/")
    || match column with
       | Some c => bool_decide (c = p) || starts_with c (p ++ "/")
       | None => false
       end) prefixes.

(** The generated columns. *)
Definition path_fold (r : AuditRow) : bytes := lower (a_display_path r).
Definition counterpart_fold (r : AuditRow) : option bytes := lower <$> a_counterpart r.

Definition push_scope (filter : EventFilter) (r : AuditRow) : bool :=
  ((negb (bool_decide (a_kind r ∈ CONNECTION_KINDS))
    && push_covered (Some (path_fold r)) (f_readable filter))
   || (bool_decide (a_kind r ∈ CONNECTION_KINDS)
       && push_covered (Some (path_fold r)) (f_manageable filter)))
  && (negb (bool_decide (a_kind r = "value.path_added"))
      || push_covered (counterpart_fold r) (f_readable filter))
  && match f_element filter with
     | None => true
     | Some element =>
         bool_decide (path_fold r = es_path element)
         || (bool_decide (a_kind r = "subtree.read")
             && bool_decide (path_fold r ∈ es_ancestors element))
         || (bool_decide (a_kind r = "values.listed")
             && bool_decide (path_fold r = es_parent element))
     end.

Section store.
Context `{QueryCrates}.

Definition ilike (pattern : list Z) (text : bytes) : bool := like ilike_char pattern (chars text).

Definition push_filters (filter : EventFilter) (r : AuditRow) : bool :=
  Trail.opt_check (λ fragment, like Z.eqb (contains_pattern fragment) (chars (path_fold r)))
    (f_path filter)
  && Trail.opt_check (λ fragment, ilike (contains_pattern fragment) (a_narrative r)) (f_text filter)
  && Trail.opt_check (λ fragment,
       ilike (contains_pattern fragment) (a_subject r)
       || match a_name r with
          | Some name => ilike (contains_pattern fragment) name
          | None => false
          end) (f_actor filter)
  && Trail.opt_check (λ from, (bind_instant from <=? a_occurred_at r)%Z) (f_from filter)
  && Trail.opt_check (λ until, (a_first_occurred_at r <=? bind_instant until)%Z) (f_until filter)
  && Trail.opt_check (λ version, bool_decide (a_protocol r = version)) (f_protocol filter)
  && (is_empty (f_kinds filter) || bool_decide (a_kind r ∈ f_kinds filter)).

(** [(first_occurred_at, id) < …] and [ORDER BY first_occurred_at DESC, id DESC]. *)
Definition key (r : AuditRow) : Z * Z := (a_first_occurred_at r, a_id r).
Definition key_ltb (a b : Z * Z) : bool := ((a.1 <? b.1) || ((a.1 =? b.1) && (a.2 <? b.2)))%Z.
Definition newest (a b : AuditRow) : bool := negb (key_ltb (key a) (key b)).

Definition stored_event (r : AuditRow) : StoredEvent :=
  mkStored (a_id r) (a_kind r) (a_display_path r) (a_occurred_at r) (a_first_occurred_at r)
    (a_event_count r) (a_subject r) (a_name r) (a_protocol r) (a_old r) (a_new r) (a_narrative r).

Definition matches (filter : EventFilter) (r : AuditRow) : bool :=
  push_scope filter r && push_filters filter r
  && Trail.opt_check (λ '(first, id), key_ltb (key r) (bind_instant first, id)) (f_after filter).

Definition query_events (filter : EventFilter) : M SqlError (list StoredEvent) :=
  query (λ d, List.map stored_event
    (take (Z.to_nat (f_limit filter)) (sort_by newest (List.filter (matches filter) (audit d))))).

Definition count_events (filter : EventFilter) : M SqlError EventCounts :=
  query (λ d, let scope := List.filter (push_scope filter) (audit d) in
    mkEventCounts (Z.of_nat (length scope))
      (Z.of_nat (length (List.filter (push_filters filter) scope)))).
End store.

(** ** service.rs *)

Module Audit.

Definition MAX_PATH_FILTER_CHARACTERS : nat := 512.
Definition MAX_TEXT_FILTER_CHARACTERS : nat := 256.
Definition MAX_PROTOCOL_VERSION_CHARACTERS : nat := 32.

(** [page_size] is a [u32]. *)
Record AuditTrailService := mkService { page_size : Z }.

Record TrailQuery := mkQuery {
  path_filter : bytes; element_path : bytes; text_filter : bytes;
  from : option Stamps.Timestamp; until : option Stamps.Timestamp; protocol_version : bytes;
  kinds : option (list Vocabulary.AuditEventKind); query_page_size : Z; cursor : bytes;
  actor_filter : bytes; query_counts : bool }.

Record ValidQuery := mkValid {
  v_path : option bytes; v_element : option ElementScope; v_text : option bytes;
  v_actor : option bytes; v_from : option Z; v_until : option Z; v_protocol : option bytes;
  v_kinds : list bytes; v_after : option (Z * Z) }.

Definition granted_prefixes (principal : AuthenticatedPrincipal) (permission : Permission)
  : list bytes :=
  List.map prefix (List.filter (λ g, bool_decide (permission ∈ permissions g)) (grants principal)).

Definition invalid_query : Status := Rpc.invalid_argument "audit query is invalid".

Definition non_empty (text : bytes) : option bytes := if is_empty text then None else Some text.

(** [Option::map(f).transpose()?] *)
Definition transpose {A B E} (f : A → result B E) (o : option A) : result (option B) E :=
  match o with
  | None => Ok None
  | Some a => match f a with Ok b => Ok (Some b) | Err e => Err e end
  end.

Definition free_text_fragment (fragment : bytes) : result bytes Status :=
  if (length (chars fragment) <=? MAX_TEXT_FILTER_CHARACTERS)%nat
     && negb (contains_byte "000"%char fragment)
  then Ok fragment else Err invalid_query.

Definition path_character (c : ascii) : bool :=
  is_ascii_alphanumeric c || bool_decide (c = "_"%char) || bool_decide (c = "-"%char)
  || bool_decide (c = "/"%char).

(** [str::find] *)
Fixpoint find (c : ascii) (s : bytes) : option nat :=
  match s with
  | [] => None
  | d :: s' => if bool_decide (d = c) then Some 0 else S <$> find c s'
  end.

(** The loop of [element_scope], with [end_] where the last ancestor ended. *)
Fixpoint ancestors_from (fuel : nat) (fold : bytes) (end_ : nat) : list bytes :=
  match fuel with
  | O => []
  | S fuel' =>
      match find "/"%char (drop (S end_) fold) with
      | Some next =>
          let end_ := (end_ + (1 + next))%nat in
          take end_ fold :: ancestors_from fuel' fold end_
      | None => []
      end
  end.

Definition element_scope (path : ConfigPath) : ElementScope :=
  let fold := Path.fold path in
  let ancestors := "/" :: ancestors_from (length fold) fold 0 in
  mkScope fold ancestors (default "/" (last ancestors)).

(** [str::parse::<i64>] *)
Fixpoint parse_digits (acc : Z) (s : bytes) : option Z :=
  match s with
  | [] => Some acc
  | c :: s' => if is_ascii_digit c then parse_digits (acc * 10 + (code c - 48)) s' else None
  end.

Definition parse_i64 (s : bytes) : option Z :=
  let '(sign, digits) :=
    match s with
    | "+"%char :: rest => (1, rest)%Z
    | "-"%char :: rest => (-1, rest)%Z
    | _ => (1, s)%Z
    end in
  if is_empty digits then None
  else n ← parse_digits 0 digits;
       if ((Stamps.i64_min <=? sign * n) && (sign * n <=? Stamps.i64_max))%Z
       then Some (sign * n)%Z else None.

Section service.
Context `{QueryCrates}.

(** [OffsetDateTime::from_unix_timestamp]'s range. *)
Definition representable (at_ : Z) : bool :=
  ((timestamp_min <=? at_ / Stamps.NANOS) && (at_ / Stamps.NANOS <=? timestamp_max))%Z.

Definition instant (timestamp : Stamps.Timestamp) : result Z Status :=
  if ((0 <=? Stamps.nanos timestamp) && (Stamps.nanos timestamp <? 1000000000))%Z
  then if representable (Stamps.seconds timestamp * Stamps.NANOS)
       then Ok (Stamps.seconds timestamp * Stamps.NANOS + Stamps.nanos timestamp)%Z
       else Err invalid_query
  else Err invalid_query.

(** [/] of a signed integer rounds towards zero. *)
Definition cursor_after (row : StoredEvent) : bytes :=
  show_Z (Z.quot (se_first_occurred_at row) 1000) ++ "." ++ show_Z (se_id row).

Definition parse_cursor (cursor : bytes) : result (Z * Z) Status :=
  let? parts := ok_or (split_once "."%char cursor) invalid_query in
  let? micros := ok_or (parse_i64 parts.1) invalid_query in
  let? id := ok_or (parse_i64 parts.2) invalid_query in
  let at_ := (micros * 1000)%Z in
  if negb (representable at_) then Err invalid_query
  else if (id <? 1)%Z then Err invalid_query
  else Ok (at_, id).

Definition validate (query : TrailQuery) : result ValidQuery Status :=
  let? path_fragment := transpose (λ fragment,
    if forallb path_character fragment && (length fragment <=? MAX_PATH_FILTER_CHARACTERS)%nat
    then Ok (to_ascii_lowercase fragment) else Err invalid_query) (non_empty (path_filter query)) in
  let? element := transpose (λ path,
    map_err (let? path := Path.parse_operation path in Ok (element_scope path)) (λ _, invalid_query))
    (non_empty (element_path query)) in
  if is_some path_fragment && is_some element then Err invalid_query
  else
  let? text_fragment := transpose free_text_fragment (non_empty (text_filter query)) in
  let? actor_fragment := transpose free_text_fragment (non_empty (actor_filter query)) in
  let? version := transpose (λ version,
    if (length version <=? MAX_PROTOCOL_VERSION_CHARACTERS)%nat
       && forallb (λ c, is_ascii_lowercase c || is_ascii_digit c) version
    then Ok version else Err invalid_query) (non_empty (protocol_version query)) in
  let? from := transpose instant (from query) in
  let? until := transpose instant (until query) in
  if match from, until with Some f, Some u => (u <? f)%Z | _, _ => false end then Err invalid_query
  else
  let? kinds := ok_or (kinds query) invalid_query in
  let? after := transpose parse_cursor (non_empty (cursor query)) in
  Ok (mkValid path_fragment element text_fragment actor_fragment from until version
        (List.map Vocabulary.as_str kinds) after).

Definition entry (row : StoredEvent) : result AuditEntry Status :=
  let? event_count :=
    if (0 <=? se_event_count row)%Z then Ok (se_event_count row) else Err Rpc.storage_unavailable in
  let? id := if (0 <=? se_id row)%Z then Ok (se_id row) else Err Rpc.storage_unavailable in
  let? kind := ok_or (Vocabulary.parse (se_kind row)) Rpc.storage_unavailable in
  let? path := map_err (Path.parse_selection (se_display_path row)) (λ _, Rpc.storage_unavailable) in
  let? occurred_at := Rpc.to_timestamp (se_occurred_at row) in
  let? first_occurred_at := Rpc.to_timestamp (se_first_occurred_at row) in
  Ok (mkEntry id kind path occurred_at first_occurred_at event_count (se_actor_subject row)
        (se_actor_name row) (se_protocol_version row) (se_old_value row) (se_new_value row)
        (served (se_narrative row) event_count (se_first_occurred_at row) (se_occurred_at row))).

Definition page (rows : list StoredEvent) (page_size : Z) : result AuditPage Status :=
  let page_size := Z.to_nat page_size in
  let more := (page_size <? length rows)%nat in
  let rows := take page_size rows in
  let next_cursor := if more then cursor_after <$> last rows else None in
  let? events := map_result entry rows in
  Ok (mkPage events next_cursor None).

(** The filter of a validated query, and how many events it asks for. *)
Definition filter_of (principal : AuthenticatedPrincipal) (valid : ValidQuery) (page_size : Z)
  : EventFilter :=
  mkFilter (granted_prefixes principal Read) (granted_prefixes principal Manage) (v_path valid)
    (v_element valid) (v_text valid) (v_actor valid) (v_from valid) (v_until valid)
    (v_protocol valid) (v_kinds valid) (v_after valid) (page_size + 1).

Definition page_size_of (self : AuditTrailService) (query : TrailQuery) : Z :=
  if (query_page_size query =? 0)%Z then page_size self
  else Z.min (query_page_size query) (page_size self).

Definition query_audit_trail (self : AuditTrailService) (context : Rpc.CallContext)
    (query : TrailQuery) : M Status AuditPage :=
  valid ← lift (validate query);
  principal ← lift (Rpc.principal context);
  let readable_prefixes := granted_prefixes principal Read in
  let manageable_prefixes := granted_prefixes principal Manage in
  let counted := query_counts query && negb (is_some (v_after valid)) in
  if is_empty readable_prefixes && is_empty manageable_prefixes
  then mret (mkPage [] None (if counted then Some (mkCounts 0 0) else None))
  else
    let page_size := page_size_of self query in
    let filter := filter_of principal valid page_size in
    rows ← map_error (λ _, Rpc.storage_unavailable) (query_events filter);
    page ← lift (page rows page_size);
    if counted then
      counts ← map_error (λ _, Rpc.storage_unavailable) (count_events filter);
      mret (mkPage (events page) (next_cursor page)
              (Some (mkCounts (ec_total counts) (ec_matching counts))))
    else mret page.
End service.

End Audit.
