(* ===== verification/AuditPages.v ===== *)
(** * What a query of the audit trail answers

    Proofs over [AuditQuery.v]: fragments are matched literally, events are
    visible exactly where the caller's grants allow, a page holds exactly the
    newest matching events below its cursor, and scrolling by cursor returns no
    event twice and misses none, however the trail changes meanwhile. *)

From stdpp Require Import strings.
From S2P Require Import Prelude Bytes ConfigPath Core Auth Encryption AuditEvent Rpc Database AuditTrail ValuePaths ValuesList AuditQuery.

Local Open Scope bytes_scope.

Module Matching.

Section like.
Context (same : Z → Z → bool).

Lemma like_percent p t :
  like same (PERCENT :: p) t = true ↔ ∃ a b, t = a ++ b ∧ like same p b = true.
Proof.
  simpl. induction t as [|x t IH].
  - rewrite orb_false_r. split; [by exists [], []|]. by intros ([] & [] & ? & ?).
  - rewrite orb_true_iff, IH. split.
    + intros [H|(a & b & -> & H)]; [by exists [], (x :: t)|by exists (x :: a), b].
    + intros ([|y a] & b & E & H); simplify_eq/=; [by left|right; eauto].
Qed.

Definition escaped (c : Z) : list Z :=
  if ((c =? BACKSLASH) || (c =? PERCENT) || (c =? UNDERSCORE))%Z then [BACKSLASH; c] else [c].

(** An escaped character matches itself, whatever it is. *)
Lemma like_escaped c p t :
  like same (escaped c ++ p) t = true ↔ ∃ x t', t = x :: t' ∧ same c x = true ∧ like same p t' = true.
Proof.
  assert (match_one same c (like same p) t = true
    ↔ ∃ x t', t = x :: t' ∧ same c x = true ∧ like same p t' = true) as <-.
  { destruct t as [|x t]; simpl; [naive_solver|]. rewrite andb_true_iff. naive_solver. }
  unfold escaped. destruct (_ || _) eqn:E; [done|].
  apply orb_false_iff in E as [[E1 E2]%orb_false_iff E3]. simpl. by rewrite E1, E2, E3.
Qed.

Lemma like_literal cs p : ∀ t,
  like same (flat_map escaped cs ++ p) t = true
  ↔ ∃ m b, t = m ++ b ∧ Forall2 (λ c x, same c x = true) cs m ∧ like same p b = true.
Proof.
  induction cs as [|c cs IH]; intros t; simpl.
  - split; [by exists [], t|]. intros (m & b & -> & Hm & H). by inversion Hm; subst.
  - rewrite <- app_assoc, like_escaped. setoid_rewrite IH. split.
    + intros (x & ? & -> & Hx & m & b & -> & Hm & Hb). exists (x :: m), b. eauto.
    + intros (m & b & -> & Hm & Hb). inversion Hm as [|? x ? m' Hx Hm']; subst. exists x. eauto 10.
Qed.
End like.

(** A query's fragment is matched literally, whatever it contains: the
    pattern built from it matches a text exactly when the text contains its
    characters, one after the other, each up to the comparison's notion of
    equal characters. *)
Theorem fragments_match_literally same fragment text :
  like same (contains_pattern fragment) text = true
  ↔ ∃ before middle after_, text = before ++ middle ++ after_
      ∧ Forall2 (λ c x, same c x = true) (chars fragment) middle.
Proof.
  unfold contains_pattern. cbn [app]. rewrite like_percent.
  change (flat_map _ (chars fragment)) with (flat_map escaped (chars fragment)).
  setoid_rewrite like_literal. split.
  - intros (a & ? & -> & m & b & -> & Hm & _). eauto 10.
  - intros (a & m & b & -> & Hm). exists a, (m ++ b). split; [done|]. exists m, b.
    split; [done|]. split; [done|]. apply like_percent. exists b, []. by rewrite app_nil_r.
Qed.

End Matching.

Module Seen.
Import Audit.

(** ** Visibility *)

(** Where the caller's grants let it see an event. *)
Definition may_see (principal : AuthenticatedPrincipal) (r : AuditRow) : bool :=
  let at_ path permission := Auth.allows principal (mkPath path) permission in
  (if bool_decide (a_kind r ∈ CONNECTION_KINDS) then at_ (a_display_path r) Manage
   else at_ (a_display_path r) Read)
  && (negb (bool_decide (a_kind r = "value.path_added"))
      || match a_counterpart r with Some c => at_ c Read | None => at_ "/" Read end).

Lemma covered_allows principal p permission :
  push_covered (Some (lower p)) (granted_prefixes principal permission)
  = Auth.allows principal (mkPath p) permission.
Proof.
  apply eq_bool_prop_intro. rewrite !Is_true_true, Auth.allows_spec. unfold push_covered, granted_prefixes.
  rewrite existsb_elem_of. setoid_rewrite list_elem_of_In. setoid_rewrite in_map_iff.
  setoid_rewrite filter_In. setoid_rewrite <- list_elem_of_In.
  setoid_rewrite orb_true_iff. setoid_rewrite orb_true_iff. setoid_rewrite bool_decide_eq_true.
  setoid_rewrite starts_with_spec. unfold Path.AtOrBelow. split.
  - intros (x & (g & <- & Hg & Hp) & Hc). exists g. split; [done|]. split; [done|].
    destruct Hc as [?|[?|[s Hs]]]; [by left|by right; left|]. right; right. exists s.
    by rewrite <- app_assoc in Hs.
  - intros (g & Hg & Hp & Hc). exists (prefix g). split; [eauto|].
    destruct Hc as [?|[?|[s Hs]]]; [by left|by right; left|]. right; right. exists s.
    by rewrite <- app_assoc.
Qed.

(** A null column is covered by a grant on the root only. *)
Lemma covered_null principal permission :
  Auth.well_formed principal →
  push_covered None (granted_prefixes principal permission)
  = Auth.allows principal (mkPath "/") permission.
Proof.
  intros Hw. rewrite <- covered_allows. unfold push_covered. apply eq_bool_prop_intro.
  rewrite !Is_true_true, !existsb_elem_of. split; intros (p & Hp & Hc); exists p; (split; [done|]).
  - apply orb_true_iff in Hc as [->|?]; done.
  - rewrite orb_false_r. apply bool_decide_eq_true.
    apply list_elem_of_In in Hp. unfold granted_prefixes in Hp. rewrite in_map_iff in Hp.
    destruct Hp as (g & <- & [Hg _]%filter_In). apply list_elem_of_In in Hg.
    unfold Auth.well_formed in Hw. rewrite Forall_forall in Hw. destruct (Hw g Hg) as (segs & Hs & E).
    rewrite !orb_true_iff, !bool_decide_eq_true in Hc. destruct Hc as [?|[?|Hc]]; [done|done|].
    apply starts_with_spec in Hc as [s Hs']. rewrite E in Hs'. unfold Path.render in Hs'. vm_compute (lower "/") in Hs'.
    injection Hs' as Hs'. by destruct (join _ segs).
Qed.

(** ** The history of one value *)

Import Path Ancestors.

Lemma find_free c a b : c ∉ a → find c (a ++ c :: b) = Some (length a).
Proof.
  induction a as [|x a IH]; simpl; [by rewrite bool_decide_true|].
  rewrite not_elem_of_cons. intros [? ?]. rewrite bool_decide_false by congruence. by rewrite IH.
Qed.

Lemma find_none c a : c ∉ a → find c a = None.
Proof.
  induction a as [|x a IH]; simpl; [done|].
  rewrite not_elem_of_cons. intros [? ?]. rewrite bool_decide_false by congruence. by rewrite IH.
Qed.

Lemma prefix_flat segs : prefix_of_segments segs = flat_map (λ s, "/" ++ s) segs.
Proof.
  induction segs as [|s segs IH] using rev_ind; [done|].
  by rewrite <- prefix_snoc, IH, flat_map_app, (app_nil_r _ : flat_map _ [s] = _).
Qed.

Lemma render_prefix segs : segs ≠ [] → render segs = prefix_of_segments segs.
Proof. by destruct segs. Qed.

Lemma length_prefix segs : length segs ≤ length (prefix_of_segments segs).
Proof.
  rewrite prefix_flat. induction segs as [|s segs IH]; [done|].
  cbn [flat_map length]. rewrite !length_app. cbn [length]. lia.
Qed.

(** The loop pushes every proper ancestor but the root, longest last. *)
Lemma ancestors_from_segments rest : ∀ fuel seen,
  Forall Segment (seen ++ rest) → length rest ≤ fuel →
  ancestors_from fuel (prefix_of_segments (seen ++ rest)) (length (prefix_of_segments seen))
  = List.map (λ i, prefix_of_segments (seen ++ take i rest)) (seq 1 (length rest - 1)).
Proof.
  induction rest as [|s rest IH]; intros fuel seen Hs Hf.
  { destruct fuel; [done|]. cbn [ancestors_from]. rewrite app_nil_r.
    by rewrite drop_ge by lia. }
  destruct fuel as [|fuel]; simpl in Hf; [lia|]. cbn [ancestors_from].
  assert ("/"%char ∉ s) as Hfree.
  { apply Segment_no_slash. by apply Forall_app in Hs as [_ [? _]%Forall_cons]. }
  assert (prefix_of_segments (seen ++ s :: rest)
    = prefix_of_segments (seen ++ [s]) ++ prefix_of_segments rest) as E.
  { by rewrite (cons_middle s seen rest), app_assoc, !prefix_flat, flat_map_app. }
  assert (length (prefix_of_segments (seen ++ [s])) = length (prefix_of_segments seen) + (1 + length s)) as El
    by (rewrite <- prefix_snoc, !length_app; simpl; lia).
  assert (drop (S (length (prefix_of_segments seen))) (prefix_of_segments (seen ++ s :: rest))
    = s ++ prefix_of_segments rest) as Ed.
  { rewrite E, <- prefix_snoc, <- app_assoc, drop_app_ge by lia.
    by replace (_ - _) with 1 by lia. }
  rewrite Ed. destruct rest as [|s' rest]; [by rewrite app_nil_r, find_none|].
  replace (prefix_of_segments (s' :: rest)) with ("/"%char :: (s' ++ prefix_of_segments rest))
    by (by rewrite !prefix_flat). rewrite find_free by done. rewrite <- El.
  cbn [length Nat.sub seq List.map]. f_equal.
  - rewrite E. by rewrite take_app_length.
  - rewrite (cons_middle s seen), app_assoc in Hs |- *. rewrite IH; [|done|simpl in *; lia].
    rewrite <- (seq_shift _ 1), List.map_map. simpl. rewrite Nat.sub_0_r.
    apply map_ext. intros i. by rewrite <- app_assoc.
Qed.

Lemma element_scope_segments p segs :
  Path.fold p = render segs → Forall Segment segs → segs ≠ [] →
  (∀ x, x ∈ es_ancestors (element_scope p) ↔ ∃ i, i < length segs ∧ x = render (take i segs))
  ∧ es_parent (element_scope p) = Paths.parent_path (Path.fold p).
Proof.
  intros Hp Hs Hne. unfold element_scope. rewrite Hp. cbn [es_ancestors es_parent].
  pose proof (ancestors_from_segments segs (length (render segs)) [] Hs) as Ha. cbn [app prefix_of_segments length] in Ha.
  rewrite <- (render_prefix segs Hne) in Ha. rewrite Ha.
  2:{ rewrite render_prefix by done. apply length_prefix. }
  assert ("/" :: List.map (λ i, prefix_of_segments (take i segs)) (seq 1 (length segs - 1))
    = List.map (λ i, render (take i segs)) (seq 0 (length segs))) as ->.
  { destruct segs as [|s segs]; [done|]. cbn [length seq List.map take]. simpl Nat.sub.
    rewrite Nat.sub_0_r. f_equal. apply map_ext_in. intros i [Hi _]%in_seq.
    destruct i as [|i]; [lia|]. done. }
  split.
  - intros x. rewrite list_elem_of_In, in_map_iff. setoid_rewrite in_seq. naive_solver lia.
  - destruct segs as [|s segs _] using rev_ind; [done|].
    rewrite length_app, Nat.add_1_r, seq_S, map_app. cbn [List.map Nat.add]. rewrite last_snoc.
    cbn [default]. rewrite take_app_length, parent_path_render; [done|]. by apply Forall_app in Hs as [_ [? _]%Forall_cons].
Qed.

(** What belongs to the history of the value at [p]: its own events, reads of a
    subtree around it, and listings of its parent. *)
Definition in_history (p : ConfigPath) (r : AuditRow) : Prop :=
  path_fold r = Path.fold p
  ∨ (a_kind r = "subtree.read" ∧ AtOrBelow (Path.fold p) (path_fold r) ∧ path_fold r ≠ Path.fold p)
  ∨ (a_kind r = "values.listed" ∧ path_fold r = Paths.parent_path (Path.fold p)).

Lemma elem_of_ancestors p x :
  Canonical (path p) → path p ≠ "/" → Canonical x →
  x ∈ es_ancestors (element_scope p) ↔ AtOrBelow (Path.fold p) x ∧ x ≠ Path.fold p.
Proof.
  intros Hp Hne Hx. apply Canonical_lower in Hp as (segs & Hs & E).
  assert (segs ≠ []) as Hsegs.
  { intros ->. apply Hne, fold_root_iff. unfold Path.fold. by rewrite E. }
  destruct (element_scope_segments p segs E Hs Hsegs) as [-> _].
  unfold Path.fold. rewrite E. destruct Hx as (xs & Hxs & ->).
  rewrite AtOrBelow_segments, !segments_render by auto with sovereign. split.
  - intros (i & Hi & ->%render_inj); [|done|by apply Forall_take]. split; [apply prefix_take|].
    intros He%render_inj; [|by apply Forall_take|done]. apply (f_equal length) in He.
    rewrite length_take in He. lia.
  - intros [[k ->] Hn]. exists (length xs). rewrite take_app_length. split; [|done].
    rewrite length_app. destruct k; [by rewrite app_nil_r in Hn|simpl; lia].
Qed.

Lemma display_canonical r : Trail.audit_check r = true → Canonical (a_display_path r).
Proof.
  unfold Trail.audit_check. intros Hr. bool_prop.
  match goal with H : _ || path_check _ = true |- _ => apply orb_true_iff in H as [E|E] end.
  - apply bool_decide_eq_true in E as ->. by exists [].
  - by apply path_check_spec, parse_operation_canonical in E as [_ ?].
Qed.

Definition element_part (element : option ElementScope) (r : AuditRow) : bool :=
  match element with
  | None => true
  | Some element =>
      bool_decide (path_fold r = es_path element)
      || (bool_decide (a_kind r = "subtree.read") && bool_decide (path_fold r ∈ es_ancestors element))
      || (bool_decide (a_kind r = "values.listed") && bool_decide (path_fold r = es_parent element))
  end.

Lemma scope_split principal valid n r :
  Auth.well_formed principal →
  push_scope (filter_of principal valid n) r = may_see principal r && element_part (v_element valid) r.
Proof.
  intros Hw. unfold push_scope, may_see. cbn [f_element f_readable f_manageable filter_of].
  fold (element_part (v_element valid) r). unfold path_fold, counterpart_fold.
  rewrite !covered_allows. f_equal. f_equal.
  - destruct (bool_decide _); simpl; [done|]. by rewrite orb_false_r.
  - f_equal. destruct (a_counterpart r); simpl; [apply covered_allows|by apply covered_null].
Qed.

(** An event is in the scope of a caller's query exactly when the caller may
    read its path, or manage it for an event of a managed connection, and, for
    an event about an alias, may read the other path it names, a missing one
    counting as the root; a query for one value is narrowed to that value's
    history. *)
Theorem visibility_is_the_grant_check principal valid n r :
  Auth.well_formed principal → Trail.audit_check r = true →
  (v_element valid = None → push_scope (filter_of principal valid n) r = may_see principal r)
  ∧ ∀ text p, parse_operation text = Ok p → v_element valid = Some (element_scope p) →
      (push_scope (filter_of principal valid n) r = true ↔ may_see principal r = true ∧ in_history p r).
Proof.
  intros Hw Hr. rewrite (scope_split _ _ _ _ Hw).
  split; [intros ->; by rewrite andb_true_r|].
  intros text p (-> & segs & Hne & Hs & ->)%parse_operation_spec ->.
  rewrite andb_true_iff. apply and_iff_compat_l.
  assert (path (mkPath (render segs)) ≠ "/") as Hroot.
  { simpl. by apply render_not_root. }
  destruct (Canonical_lower (render segs)) as (fs & Hfs & Ef); [by exists segs|].
  assert (fs ≠ []) as Hfs'. { intros ->. by apply Hroot, fold_root_iff. }
  destruct (element_scope_segments (mkPath (render segs)) fs Ef Hfs Hfs') as [_ Hpar].
  unfold element_part, in_history.
  rewrite !orb_true_iff, !andb_true_iff, !bool_decide_eq_true, Hpar.
  rewrite elem_of_ancestors; [tauto|by exists segs|done|].
  by apply Canonical_lower, display_canonical.
Qed.

End Seen.

Module Paging.
Import Audit.

(** ** Cursors *)

Lemma parse_digits_app a : ∀ acc b,
  parse_digits acc (a ++ b) = parse_digits acc a ≫= λ x, parse_digits x b.
Proof.
  induction a as [|c a IH]; intros acc b; simpl; [done|]. destruct (is_ascii_digit c); [apply IH|done].
Qed.

Lemma parse_digits_decimal fuel : ∀ n,
  (0 ≤ n < 10 ^ Z.of_nat fuel)%Z → parse_digits 0 (decimal_digits fuel n []) = Some n.
Proof.
  induction fuel as [|fuel IH]; intros n Hn; [simpl in *; f_equal; lia|].
  rewrite Nat2Z.inj_succ, Z.pow_succ_r in Hn by lia. cbn [decimal_digits].
  pose proof (Z.mod_pos_bound n 10 ltac:(lia)) as Hm.
  assert (∀ acc d, (0 ≤ d < 10)%Z → parse_digits acc [digit_byte d] = Some (acc * 10 + d)%Z) as Hd.
  { intros acc d Hd'. cbn [parse_digits]. rewrite Cipher.digit_byte_is_digit by done. f_equal.
    unfold code, digit_byte. rewrite N_ascii_embedding by lia. lia. }
  destruct (Z.ltb_spec n 10).
  - rewrite Hd by done. rewrite Z.mod_small by lia. f_equal; lia.
  - rewrite Cipher.decimal_digits_app, parse_digits_app, IH.
    + cbn [mbind option_bind]. rewrite Hd by done. f_equal. pose proof (Z.div_mod n 10). lia.
    + split; [apply Z.div_pos; lia|apply Z.div_lt_upper_bound; lia].
Qed.

Lemma decimal_head fuel n :
  (0 ≤ n)%Z → ∃ c s, decimal_digits (S fuel) n [] = c :: s ∧ is_ascii_digit c = true.
Proof.
  intros Hn. pose proof (Cipher.decimal_digits_digits (S fuel) n [] Hn (Forall_nil_2 _)) as Hd.
  destruct (decimal_digits (S fuel) n []) as [|c s] eqn:E.
  - exfalso. cbn [decimal_digits] in E. destruct (n <? 10)%Z; [done|].
    rewrite Cipher.decimal_digits_app in E. by destruct (decimal_digits _ _ _).
  - apply Forall_cons in Hd as [? _]. eauto.
Qed.

(** [parse::<i64>] reads back what is printed. *)
Lemma parse_i64_show n :
  (Stamps.i64_min ≤ n ≤ Stamps.i64_max)%Z → parse_i64 (show_Z n) = Some n.
Proof.
  intros Hn. unfold show_Z.
  assert (∀ k, (0 ≤ k < 10 ^ 20)%Z → parse_digits 0 (decimal_digits 20 k []) = Some k) as Hp
    by (intros k Hk; apply parse_digits_decimal; exact Hk).
  assert (Stamps.i64_min ≤ n ≤ Stamps.i64_max)%Z as Hn' by done.
  unfold Stamps.i64_min, Stamps.i64_max in Hn'.
  assert (∀ sign k, parse_digits 0 (decimal_digits 20 k []) = Some k → (0 ≤ k)%Z → (sign * k = n)%Z →
    (if is_empty (decimal_digits 20 k []) then None
     else n0 ← parse_digits 0 (decimal_digits 20 k []);
       if ((Stamps.i64_min <=? sign * n0) && (sign * n0 <=? Stamps.i64_max))%Z
       then Some (sign * n0)%Z else None) = Some n) as Hfin.
  { intros sign k Hk Hk0 E. destruct (decimal_head 19 k Hk0) as (c & s & Ec & _).
    rewrite Hk. rewrite Ec at 1. cbn [is_empty mbind option_bind]. rewrite E.
    rewrite (proj2 (Z.leb_le _ _)), (proj2 (Z.leb_le _ _)) by lia. done. }
  destruct (Z.ltb_spec n 0).
  - unfold parse_i64. cbn [app]. apply (Hfin (-1)%Z); [apply Hp|..]; lia.
  - destruct (decimal_head 19 n ltac:(lia)) as (c & s & Ec & Hc). unfold parse_i64.
    assert ((match decimal_digits 20 n [] with
             | "+"%char :: rest => (1, rest)%Z | "-"%char :: rest => ((-1)%Z, rest)
             | _ => (1%Z, decimal_digits 20 n []) end) = (1%Z, decimal_digits 20 n [])) as ->.
    { rewrite Ec. clear -Hc. destruct c as [[] [] [] [] [] [] [] []]; vm_compute in Hc; done. }
    apply (Hfin 1%Z); [apply Hp|..]; lia.
Qed.

Lemma show_Z_dot_free n : "."%char ∉ show_Z n.
Proof.
  intros Hin. assert (∀ k, (0 ≤ k)%Z → "."%char ∉ decimal_digits 20 k []) as Hfree.
  { intros k Hk Hk'. pose proof (Cipher.decimal_digits_digits 20 k [] Hk (Forall_nil_2 _)) as Hd.
    rewrite Forall_forall in Hd. by apply Hd in Hk'. }
  unfold show_Z in Hin. destruct (Z.ltb_spec n 0); [|by apply Hfree in Hin].
  apply elem_of_app in Hin as [Hin|Hin]; [by apply list_elem_of_singleton in Hin|].
  by apply Hfree in Hin; [|lia].
Qed.

Section paging.
Context `{QueryLaws}.

(** What holds of a stored event: its instants are whole microseconds the
    [time] crate represents, and its identity is a positive [BIGINT]. *)
Definition readable (r : AuditRow) : Prop :=
  timestamptz (a_first_occurred_at r) = a_first_occurred_at r
  ∧ representable (a_first_occurred_at r) = true ∧ (1 ≤ a_id r ≤ Stamps.i64_max)%Z.

Lemma cursor_round_trip r :
  readable r → parse_cursor (cursor_after (stored_event r)) = Ok (key r).
Proof.
  intros (Ht & Hr & Hid). unfold parse_cursor, cursor_after.
  cbn [se_first_occurred_at se_id stored_event].
  assert (∃ k, a_first_occurred_at r = (k * 1000)%Z) as [k Ek].
  { unfold timestamptz in Ht. exists (a_first_occurred_at r / 1000)%Z. lia. }
  replace (split_once _ _) with (Some (show_Z k, show_Z (a_id r))).
  2:{ symmetry. apply split_once_spec. rewrite Ek, Z.quot_mul by lia. split; [done|].
      apply show_Z_dot_free. }
  cbn [ok_or and_then fst snd]. unfold representable in Hr. apply andb_true_iff in Hr as [Hlo Hhi].
  apply Z.leb_le in Hlo. apply Z.leb_le in Hhi. pose proof range_fits as [Hmin Hmax].
  unfold Stamps.NANOS in *.
  assert (k / 1000000 = a_first_occurred_at r / 1000000000)%Z as Ediv.
  { rewrite Ek. change 1000000000%Z with (1000000 * 1000)%Z. by rewrite Z.div_mul_cancel_r by lia. }
  pose proof (Z.div_mod k 1000000). pose proof (Z.mod_pos_bound k 1000000).
  rewrite !parse_i64_show by (unfold Stamps.i64_min in *; lia). cbn [ok_or and_then].
  rewrite <- Ek. replace (negb (representable (a_first_occurred_at r))) with false.
  2:{ unfold representable, Stamps.NANOS. symmetry. apply negb_false_iff, andb_true_iff.
      split; apply Z.leb_le; lia. }
  replace (a_id r <? 1)%Z with false by (symmetry; apply Z.ltb_ge; lia). done.
Qed.

(** ** The order of a page *)

Lemma key_ltb_spec a b : key_ltb a b = true ↔ (a.1 < b.1 ∨ (a.1 = b.1 ∧ a.2 < b.2))%Z.
Proof. unfold key_ltb. rewrite orb_true_iff, andb_true_iff, !Z.ltb_lt, Z.eqb_eq. done. Qed.

Lemma newest_spec a b : newest a b = true ↔ ¬ key_ltb (key a) (key b) = true.
Proof. unfold newest. rewrite negb_true_iff. by destruct (key_ltb _ _). Qed.

Lemma key_ltb_trans a b c : key_ltb a b = true → key_ltb b c = true → key_ltb a c = true.
Proof. rewrite !key_ltb_spec. lia. Qed.

Lemma newest_total a b : newest a b = false → newest b a = true.
Proof.
  intros Hn. apply newest_spec. intros Hlt. apply not_true_iff_false in Hn. apply Hn, newest_spec.
  rewrite key_ltb_spec in *. lia.
Qed.

Lemma newest_trans a b c : newest a b = true → newest b c = true → newest a c = true.
Proof. rewrite !newest_spec, !key_ltb_spec. lia. Qed.

(** The events of a filter, newest first. *)
Definition selected (f : EventFilter) (table : list AuditRow) : list AuditRow :=
  sort_by newest (List.filter (matches f) table).

Definition descending (keys : list (Z * Z)) : Prop :=
  StronglySorted (λ a b, key_ltb b a = true) keys.

Lemma elem_of_selected f table r : r ∈ selected f table ↔ r ∈ table ∧ matches f r = true.
Proof.
  unfold selected. rewrite elem_of_sort_by, list_elem_of_In, filter_In, <- list_elem_of_In. done.
Qed.

Lemma newest_descending l :
  StronglySorted (λ a b, newest a b = true) l → NoDup (List.map a_id l) → descending (List.map key l).
Proof.
  induction l as [|r l IH]; [constructor|]. intros [Hr Hs]%StronglySorted_cons.
  cbn [List.map]. intros [Hn Hd]%NoDup_cons. constructor; [by apply IH|].
  apply Forall_map_iff. rewrite Forall_forall in *. intros x Hx.
  specialize (Hr x Hx). rewrite newest_spec in Hr. rewrite key_ltb_spec in *.
  assert (a_id x ≠ a_id r).
  { intros E. apply Hn. rewrite <- E. apply list_elem_of_In, in_map, list_elem_of_In, Hx. }
  unfold key in *. simpl in *. lia.
Qed.

Lemma selected_descending f table :
  NoDup (List.map a_id table) → descending (List.map key (selected f table)).
Proof.
  intros Hn. apply newest_descending.
  - apply sort_by_sorted; [apply newest_total|apply newest_trans].
  - unfold selected. rewrite sort_by_perm. eapply sublist_NoDup; [exact Hn|apply map_sublist, filter_sublist].
Qed.

(** ** Runs *)

Lemma map_result_of_map {A B C E} (f : B → result C E) (g : A → B) l :
  map_result f (List.map g l) = map_result (λ x, f (g x)) l.
Proof. induction l as [|x l IH]; simpl; [done|]. by rewrite IH. Qed.

Definition counted (query : TrailQuery) (valid : ValidQuery) : bool :=
  query_counts query && negb (is_some (v_after valid)).

Definition counts_of (f : EventFilter) (table : list AuditRow) : AuditCounts :=
  let scope := List.filter (push_scope f) table in
  mkCounts (Z.of_nat (length scope)) (Z.of_nat (length (List.filter (push_filters f) scope))).

(** What a page is made of. *)
Definition page_of (f : EventFilter) (n : nat) (table : list AuditRow) (page : AuditPage) : Prop :=
  map_result (λ r, entry (stored_event r)) (take n (selected f table)) = Ok (events page)
  ∧ next_cursor page = (if (n <? length (selected f table))%nat
                        then (λ r, cursor_after (stored_event r)) <$> last (take n (selected f table))
                        else None).

Lemma page_run f n table page :
  (0 ≤ n)%Z → Audit.page (List.map stored_event (take (Z.to_nat (n + 1)) (selected f table))) n = Ok page →
  page_of f (Z.to_nat n) table page ∧ counts page = None.
Proof.
  intros Hn. unfold Audit.page. set (k := Z.to_nat n).
  replace (Z.to_nat (n + 1)) with (S k) by (unfold k; lia).
  rewrite <- (firstn_map stored_event) at 1. rewrite firstn_map, firstn_map.
  rewrite firstn_firstn, Nat.min_l by lia. rewrite map_result_of_map, length_map, length_take.
  replace (k <? S k `min` length (selected f table))%nat with (k <? length (selected f table))%nat
    by (apply eq_bool_prop_intro; rewrite !Is_true_true, !Nat.ltb_lt; lia).
  intros (es & Hes & [= <-])%and_then_ok. split; [|done]. split; [done|]. cbn [next_cursor].
  destruct (k <? _)%nat; [|done]. rewrite (fmap_last stored_event). by destruct (last _).
Qed.

Lemma no_grants_selects_nothing principal valid n table :
  is_empty (granted_prefixes principal Read) = true → is_empty (granted_prefixes principal Manage) = true →
  List.filter (push_scope (filter_of principal valid n)) table = []
  ∧ selected (filter_of principal valid n) table = [].
Proof.
  intros Hr Hm.
  assert (∀ r, push_scope (filter_of principal valid n) r = false) as Hs.
  { intros r. unfold push_scope. cbn [f_readable f_manageable filter_of].
    destruct (granted_prefixes principal Read), (granted_prefixes principal Manage); try done.
    cbn [push_covered existsb]. by rewrite !andb_false_r. }
  assert (∀ f : AuditRow → bool, (∀ r, f r = false) → List.filter f table = []) as Hf.
  { intros f Hf. induction table as [|r l IH]; simpl; [done|]. by rewrite Hf, IH. }
  split; [by apply Hf|]. unfold selected. rewrite Hf; [done|]. intros r. unfold matches. by rewrite Hs.
Qed.

Lemma query_run self context query w page w' :
  (0 ≤ page_size_of self query)%Z →
  query_audit_trail self context query w = (Ok page, w') →
  ∃ valid principal, validate query = Ok valid ∧ Rpc.principal context = Ok principal
    ∧ db w' = db w
    ∧ page_of (filter_of principal valid (page_size_of self query)) (Z.to_nat (page_size_of self query))
        (audit (db w)) page
    ∧ counts page = (if counted query valid
        then Some (counts_of (filter_of principal valid (page_size_of self query)) (audit (db w)))
        else None).
Proof.
  intros Hn. unfold query_audit_trail. intros Hq.
  apply bind_ok in Hq as (valid & ? & [Hv ->]%lift_ok & Hq).
  apply bind_ok in Hq as (principal & ? & [Hp ->]%lift_ok & Hq). exists valid, principal.
  split; [done|]. split; [done|]. fold (counted query valid) in Hq.
  destruct (is_empty (granted_prefixes principal Read) && is_empty (granted_prefixes principal Manage)) eqn:Ee.
  - apply andb_true_iff in Ee as [Er Em]. apply ret_ok in Hq as [-> ->]. split; [done|].
    destruct (no_grants_selects_nothing principal valid (page_size_of self query) (audit (db w)) Er Em) as [Hf Hs].
    unfold page_of, counts_of. rewrite Hs, Hf, take_nil. simpl. done.
  - apply bind_ok in Hq as (rows & w1 & Hrows & Hq). apply map_error_ok, query_ok in Hrows as (_ & -> & ->).
    apply bind_ok in Hq as (pg & w2 & [Hpg ->]%lift_ok & Hq).
    apply (page_run (filter_of principal valid (page_size_of self query))) in Hpg as [Hof Hc]; [|done].
    destruct (counted query valid).
    + apply bind_ok in Hq as (cs & w3 & Hcs & [-> ->]%ret_ok). apply map_error_ok, query_ok in Hcs as (_ & -> & ->).
      split; [done|]. split; [exact Hof|done].
    + apply ret_ok in Hq as [-> ->]. done.
Qed.

(** ** Scrolling *)

Definition with_cursor (c : bytes) (q : TrailQuery) : TrailQuery :=
  mkQuery (path_filter q) (element_path q) (text_filter q) (from q) (until q) (protocol_version q)
    (kinds q) (query_page_size q) c (actor_filter q) (query_counts q).

Definition with_after (a : option (Z * Z)) (v : ValidQuery) : ValidQuery :=
  mkValid (v_path v) (v_element v) (v_text v) (v_actor v) (v_from v) (v_until v) (v_protocol v)
    (v_kinds v) a.

Lemma validate_with_cursor c q v :
  validate (with_cursor c q) = Ok v →
  ∃ v0, validate (with_cursor [] q) = Ok v0
    ∧ transpose parse_cursor (non_empty c) = Ok (v_after v) ∧ v = with_after (v_after v) v0.
Proof.
  unfold validate. cbn [path_filter element_path text_filter from until protocol_version kinds
    cursor actor_filter with_cursor]. intros Hv.
  do 2 (apply and_then_ok in Hv as (? & -> & Hv); cbn [and_then]).
  destruct (_ && _); [done|].
  do 5 (apply and_then_ok in Hv as (? & -> & Hv); cbn [and_then]).
  match type of Hv with context [if ?b then _ else _] => destruct b end; [done|].
  apply and_then_ok in Hv as (? & -> & Hv). cbn [and_then].
  apply and_then_ok in Hv as (after_ & Ha & [= <-]). eexists. split; [reflexivity|]. done.
Qed.

(** What a query asks for, wherever it has got to. *)
Definition wanted (context : Rpc.CallContext) (q : TrailQuery) (r : AuditRow) : bool :=
  match Rpc.principal context, validate (with_cursor [] q) with
  | Ok principal, Ok valid =>
      push_scope (filter_of principal valid 0) r && push_filters (filter_of principal valid 0) r
  | _, _ => false
  end.

Definition below (bound : option (Z * Z)) (k : Z * Z) : bool := Trail.opt_check (key_ltb k) bound.

(** The pages of a query fetched one after the other, each from the trail as it
    is by then, until there is no cursor. *)
Inductive scroll (self : AuditTrailService) (context : Rpc.CallContext) (q : TrailQuery)
  : bytes → list (list AuditRow) → list AuditEntry → Prop :=
| scroll_last c w page w' :
    query_audit_trail self context (with_cursor c q) w = (Ok page, w') → next_cursor page = None →
    scroll self context q c [audit (db w)] (events page)
| scroll_next c w page w' c' tables rest :
    query_audit_trail self context (with_cursor c q) w = (Ok page, w') → next_cursor page = Some c' →
    scroll self context q c' tables rest →
    scroll self context q c (audit (db w) :: tables) (events page ++ rest).

(** One page, as what it asks for below its bound. *)
Lemma scroll_page self context q c w page w' :
  (0 < page_size self)%Z → (0 ≤ query_page_size q)%Z →
  (∀ bound, transpose parse_cursor (non_empty c) = Ok bound →
     ∀ f i, bound = Some (f, i) → timestamptz f = f) →
  query_audit_trail self context (with_cursor c q) w = (Ok page, w') →
  ∃ bound n rows, transpose parse_cursor (non_empty c) = Ok bound ∧ 0 < n
    ∧ (∀ r, r ∈ rows ↔ r ∈ audit (db w) ∧ wanted context q r = true ∧ below bound (key r) = true)
    ∧ (NoDup (List.map a_id (audit (db w))) → descending (List.map key rows))
    ∧ map_result (λ r, entry (stored_event r)) (take n rows) = Ok (events page)
    ∧ next_cursor page = (if (n <? length rows)%nat
                          then (λ r, cursor_after (stored_event r)) <$> last (take n rows) else None).
Proof.
  intros Hn Hq Hexact Hrun.
  assert (0 < page_size_of self (with_cursor c q))%Z as Hpos.
  { unfold page_size_of. cbn [query_page_size with_cursor].
    destruct (Z.eqb_spec (query_page_size q) 0); lia. }
  apply query_run in Hrun as (valid & principal & Hv & Hp & _ & [Hev Hc] & _); [|lia].
  apply validate_with_cursor in Hv as (v0 & Hv0 & Ha & Ev).
  remember (v_after valid) as bound eqn:Hb. clear Hb. subst valid.
  exists bound, (Z.to_nat (page_size_of self (with_cursor c q))). eexists.
  split; [exact Ha|]. split; [lia|]. split; [|split; [apply selected_descending|split; [exact Hev|exact Hc]]].
  intros r. rewrite elem_of_selected. unfold matches, wanted. rewrite Hp, Hv0.
  rewrite !andb_true_iff. unfold below. cbn [f_after filter_of v_after with_after].
  destruct bound as [[f i]|]; cbn [Trail.opt_check]; [|tauto].
  rewrite bind_exact by (by eapply Hexact). tauto.
Qed.

Lemma entry_id r e : entry (stored_event r) = Ok e → e_id e = a_id r.
Proof.
  unfold entry. intros He.
  apply and_then_ok in He as (? & _ & He). apply and_then_ok in He as (i & Hi & He).
  destruct (0 <=? _)%Z; [|done]. injection Hi as <-.
  repeat (apply and_then_ok in He as (? & _ & He)). by injection He as <-.
Qed.

Lemma descending_app l1 l2 k :
  descending l1 → descending l2 → last l1 = Some k → Forall (λ x, key_ltb x k = true) l2 →
  descending (l1 ++ l2).
Proof.
  intros H1 H2 Hl Hk. apply StronglySorted_app_2; [|done..].
  intros a b Ha Hb. rewrite Forall_forall in Hk. specialize (Hk b Hb).
  apply last_Some in Hl as [l ->]. apply StronglySorted_app in H1 as (Hx & _ & _).
  apply elem_of_app in Ha as [Ha| ->%list_elem_of_singleton]; [|done].
  eapply key_ltb_trans; [exact Hk|]. apply Hx; [done|]. by apply list_elem_of_singleton.
Qed.

(** ** Events keep the instant they were first recorded at *)

Definition birth (r : AuditRow) : Z * Z := (a_id r, a_first_occurred_at r).

Lemma upsert_births touched e T T' :
  Trail.upsert touched e T = Some T' →
  List.map birth T' = List.map birth T ∨ List.map birth T' = List.map birth T ++ [birth e].
Proof.
  unfold Trail.upsert. destruct (negb _); [done|].
  assert (List.map birth (T ++ [e]) = List.map birth T ++ [birth e]) as Happ by apply map_app.
  destruct (a_digest e) as [d|]; [|intros [= <-]; by right].
  destruct (existsb _ T); [|intros [= <-]; by right]. destruct (_ || _); [done|].
  intros [= <-]. left. rewrite List.map_map. apply List.map_ext. intros r.
  by destruct (Trail.has_digest d r).
Qed.

(** Recording bumps events in place and adds new ones under new identifiers. *)
Lemma recording_keeps_births actor at_ rows : ∀ touched T seq T' seq',
  Trail.upsert_all actor at_ touched rows T seq = Some (T', seq') →
  ∃ new, List.map birth T' = List.map birth T ++ new
    ∧ Forall (λ b, seq < b.1 ≤ seq')%Z new ∧ (seq ≤ seq')%Z.
Proof.
  induction rows as [|row rows IH]; intros touched T seq T' seq'; cbn [Trail.upsert_all].
  - intros [= <- <-]. exists []. rewrite app_nil_r. split_and!; [done|constructor|lia].
  - destruct (_ <=? _)%Z; [done|]. destruct (Trail.upsert _ _ _) as [T1|] eqn:E; [|done].
    intros (new & E' & Hnew & Hle)%IH. apply upsert_births in E. rewrite E'.
    assert (Forall (λ b, seq < b.1 ≤ seq')%Z new) as Hnew'
      by (eapply Forall_impl; [exact Hnew|]; simpl; lia).
    destruct E as [->| ->]; [exists new; split_and!; [done..|lia]|].
    eexists. split; [by rewrite <- app_assoc|]. split; [|lia].
    constructor; [simpl; lia|done].
Qed.

Section trail.
Context (self : AuditTrailService) (context : Rpc.CallContext) (q : TrailQuery).
Context (born : Z → Z).

(** A trail as it can be at any time: its events can be read, and each keeps
    the instant it was first recorded at. *)
Definition steady (table : list AuditRow) : Prop :=
  NoDup (List.map a_id table)
  ∧ Forall (λ r, readable r ∧ a_first_occurred_at r = born (a_id r)) table.

Definition entry_key (e : AuditEntry) : Z * Z := (born (e_id e), e_id e).

Lemma entries_keys rows es :
  Forall (λ r, a_first_occurred_at r = born (a_id r)) rows →
  map_result (λ r, entry (stored_event r)) rows = Ok es → List.map entry_key es = List.map key rows.
Proof.
  intros Hb Hm%map_result_ok. induction Hm as [|r e rows es He _ IH]; [done|].
  apply Forall_cons in Hb as [Hr Hb]. simpl. rewrite IH by done. f_equal.
  unfold entry_key, key. by rewrite (entry_id _ _ He), Hr.
Qed.

Lemma Forall2_elem_of_l {A B} (R : A → B → Prop) l k x :
  Forall2 R l k → x ∈ l → ∃ y, y ∈ k ∧ R x y.
Proof.
  induction 1 as [|a b l k Hab _ IH]; [by intros ?%not_elem_of_nil|].
  intros [->|Hx]%elem_of_cons; [exists b; split; [by left|done]|].
  destruct (IH Hx) as (y & ? & ?). exists y. split; [by right|done].
Qed.

(** What a page shows of the rows it is cut from. *)
Lemma page_facts table bound rows n es :
  steady table →
  (∀ r, r ∈ rows ↔ r ∈ table ∧ wanted context q r = true ∧ below bound (key r) = true) →
  descending (List.map key rows) →
  map_result (λ r, entry (stored_event r)) (take n rows) = Ok es →
  List.map entry_key es = List.map key (take n rows)
  ∧ descending (List.map entry_key es)
  ∧ Forall (λ e, below bound (entry_key e) = true) es
  ∧ (∀ e, e ∈ es → ∃ r, r ∈ table ∧ wanted context q r = true ∧ entry (stored_event r) = Ok e)
  ∧ ∀ r, r ∈ take n rows → ∃ e, e ∈ es ∧ e_id e = a_id r.
Proof.
  intros [_ Hst] Hin Hd Hev. rewrite Forall_forall in Hst.
  assert (∀ r, r ∈ take n rows → r ∈ rows) as Htake.
  { intros r Hr. eapply elem_of_sublist; [exact Hr|apply sublist_take]. }
  assert (List.map entry_key es = List.map key (take n rows)) as Hk.
  { eapply entries_keys; [|exact Hev]. apply Forall_forall. intros r Hr. by apply Hst, Hin, Htake. }
  pose proof Hev as HF%map_result_ok. split; [exact Hk|]. split; [|split; [|split]].
  - rewrite Hk. rewrite <- (take_drop n rows), map_app in Hd. by eapply StronglySorted_app_1_l.
  - apply (Forall_map_iff entry_key (λ k, below bound k = true)). rewrite Hk.
    apply Forall_map_iff, Forall_forall.
    intros r Hr. by apply Hin, Htake.
  - intros e He. apply Forall2_flip in HF. destruct (Forall2_elem_of_l _ _ _ _ HF He) as (r & Hr & Hre).
    exists r. split; [by apply Hin, Htake|]. split; [by apply Hin, Htake|done].
  - intros r Hr. destruct (Forall2_elem_of_l _ _ _ _ HF Hr) as (e & He & Hre). exists e.
    split; [done|by apply entry_id].
Qed.

Definition exact_cursor (c : bytes) : Prop :=
  ∀ bound, transpose parse_cursor (non_empty c) = Ok bound → ∀ f i, bound = Some (f, i) → timestamptz f = f.

Lemma cursor_bound r :
  readable r → transpose parse_cursor (non_empty (cursor_after (stored_event r))) = Ok (Some (key r))
  ∧ exact_cursor (cursor_after (stored_event r)).
Proof.
  intros Hr. assert (transpose parse_cursor (non_empty (cursor_after (stored_event r))) = Ok (Some (key r))) as E.
  { unfold non_empty. destruct (is_empty _) eqn:Ee.
    - exfalso. unfold cursor_after in Ee. by destruct (show_Z _).
    - cbn [transpose]. by rewrite cursor_round_trip. }
  split; [done|]. intros bound Hb f i ->. rewrite E in Hb. injection Hb as <- <-. by apply Hr.
Qed.

Lemma scroll_invariant c tables es :
  (0 < page_size self)%Z → (0 ≤ query_page_size q)%Z → Forall steady tables →
  scroll self context q c tables es → exact_cursor c →
  descending (List.map entry_key es)
  ∧ (∀ bound, transpose parse_cursor (non_empty c) = Ok bound →
       Forall (λ e, below bound (entry_key e) = true) es
       ∧ ∀ id, below bound (born id, id) = true →
           (∀ T, T ∈ tables → ∃ r, r ∈ T ∧ a_id r = id ∧ wanted context q r = true) →
           ∃ e, e ∈ es ∧ e_id e = id)
  ∧ ∀ e, e ∈ es → ∃ T r, T ∈ tables ∧ r ∈ T ∧ wanted context q r = true ∧ entry (stored_event r) = Ok e.
Proof.
  intros Hn Hq Hst Hsc. induction Hsc as [c w page w' Hrun Hnone|c w page w' c' tables rest Hrun Hsome _ IH];
    intros Hexact; apply Forall_cons in Hst as [Hst1 Hst];
    destruct (scroll_page _ _ _ _ _ _ _ Hn Hq Hexact Hrun) as (bound & n & rows & Hb & Hpos & Hin & Hd & Hev & Hc);
    specialize (Hd (proj1 Hst1));
    destruct (page_facts _ _ _ _ _ Hst1 Hin Hd Hev) as (Hk & Hpd & Hpb & Hps & Hpc).
  - assert (take n rows = rows) as Hall.
    { destruct (Nat.ltb_spec n (length rows)); [|by apply take_ge]. rewrite Hnone in Hc.
      destruct (last (take n rows)) eqn:El; [done|]. apply last_None in El.
      apply (f_equal length) in El. rewrite length_take in El. simpl in El. lia. }
    split; [done|]. split.
    + intros bound' Hb'. rewrite Hb in Hb'. injection Hb' as <-. split; [done|]. intros id Hid Hall'.
      destruct (Hall' _ (list_elem_of_here _ _)) as (r & Hr & <- & Hw). apply Hpc. rewrite Hall.
      apply Hin. split; [done|]. split; [done|]. unfold key.
      destruct Hst1 as [_ Hrows]. rewrite Forall_forall in Hrows. by rewrite (proj2 (Hrows r Hr)).
    + intros e He. destruct (Hps e He) as (r & ? & ? & ?). exists (audit (db w)), r.
      split; [by left|done].
  - destruct (n <? length rows)%nat; [|congruence].
    rewrite Hsome in Hc. destruct (last (take n rows)) as [r0|] eqn:El; [|done]. injection Hc as ->.
    assert (r0 ∈ take n rows) as Hr0 by (apply last_Some in El as [l ->]; apply elem_of_app; right; by left).
    assert (r0 ∈ rows) as Hr0' by (eapply elem_of_sublist; [exact Hr0|apply sublist_take]).
    destruct (proj1 (Hin r0) Hr0') as (Hr0t & _ & Hr0b).
    pose proof (proj2 Hst1) as Hrows. rewrite Forall_forall in Hrows.
    destruct (cursor_bound r0 (proj1 (Hrows r0 Hr0t))) as [Hcb Hce].
    destruct (IH Hst Hce) as (Hrd & Hrb & Hrs). destruct (Hrb _ Hcb) as [Hrf Hrc].
    split; [|split].
    + rewrite map_app. eapply descending_app; [exact Hpd|exact Hrd| |by apply Forall_map_iff].
      rewrite Hk. by rewrite (fmap_last key), El.
    + intros bound' Hb'. rewrite Hb in Hb'. injection Hb' as <-. split.
      * apply Forall_app. split; [done|]. eapply Forall_impl; [exact Hrf|]. intros e He.
        destruct bound as [k|]; [|done]. simpl in *. by eapply key_ltb_trans.
      * intros id Hid Hall'. destruct (Hall' _ (list_elem_of_here _ _)) as (r & Hr & <- & Hw).
        assert (key r = (born (a_id r), a_id r)) as Ek by (unfold key; by rewrite (proj2 (Hrows r Hr))).
        assert (r ∈ take n rows ++ drop n rows) as Hrr
          by (rewrite take_drop; apply Hin; by rewrite Ek).
        apply elem_of_app in Hrr as [Hrt|Hrt].
        { destruct (Hpc r Hrt) as (e & ? & ?). exists e. split; [|done]. apply elem_of_app. by left. }
        destruct (Hrc (a_id r)) as (e & ? & ?).
        { simpl. rewrite <- Ek. rewrite <- (take_drop n rows), map_app in Hd.
          unfold descending in Hd. rewrite StronglySorted_app in Hd.
          apply (proj1 Hd); by apply list_elem_of_In, in_map, list_elem_of_In. }
        { intros T HT. apply Hall'. by right. }
        exists e. split; [|done]. apply elem_of_app. by right.
    + intros e [He|He]%elem_of_app.
      * destruct (Hps e He) as (r & ? & ? & ?). exists (audit (db w)), r. split; [by left|done].
      * destruct (Hrs e He) as (T & r & ? & ?). exists T, r. split; [by right|done].
Qed.

(** C10: Scrolling through the trail page by page, each page read from the trail
    as it is by then, shows no event twice, misses no event that the query asks
    for all along, and shows only events the caller may see that match the
    query, whatever is recorded, coalesced, renamed or swept meanwhile. *)
Theorem scrolling_misses_and_repeats_nothing tables es :
  (0 < page_size self)%Z → (0 ≤ query_page_size q)%Z → Forall steady tables →
  scroll self context q [] tables es →
  NoDup (List.map e_id es)
  ∧ (∀ id, (∀ T, T ∈ tables → ∃ r, r ∈ T ∧ a_id r = id ∧ wanted context q r = true) →
       ∃ e, e ∈ es ∧ e_id e = id)
  ∧ ∀ e, e ∈ es → ∃ T r, T ∈ tables ∧ r ∈ T ∧ wanted context q r = true ∧ entry (stored_event r) = Ok e.
Proof.
  intros Hn Hq Hst Hsc.
  destruct (scroll_invariant [] tables es Hn Hq Hst Hsc) as (Hd & Hb & Hs); [by intros bound [= <-]|].
  destruct (Hb None eq_refl) as [_ Hc]. split; [|split; [|exact Hs]].
  - apply (NoDup_fmap_1 (λ id, (born id, id))). change (NoDup (List.map (λ id, (born id, id)) (List.map e_id es))).
    rewrite List.map_map. change (NoDup (List.map entry_key es)).
    clear -Hd. induction Hd as [|k l _ IH Hk]; constructor; [|done].
    intros Hin. rewrite Forall_forall in Hk. specialize (Hk k Hin). rewrite key_ltb_spec in Hk. lia.
  - intros id Hid. by apply Hc.
Qed.
End trail.

End paging.

End Paging.
