(* ===== verification/ManagedRepair.v ===== *)
(** * The one-time repair of actor names

    Models [managed/repair.rs] and [rename_actors] of [audit/mod.rs] and
    [audit/store.rs]: accounts are named after their connections, then past
    events by them, and what is overwritten is kept beside each event.  The
    repair is a [Flow], as the operations of [ManagedService.v] are. *)

From stdpp Require Import strings.
From S2P Require Import Prelude Bytes ConfigPath Core Managed Auth Encryption AuditEvent Rpc Database AuditTrail Values ConnectionUrl Identity Flow ManagedStore ManagedService.

Local Open Scope bytes_scope.

(** ** audit: renaming actors *)

Record ActorRename := mkActorRename {
  rn_subject : bytes; rn_name : bytes; rn_superseded : bytes; rn_superseded_marked : bytes }.
#[global] Instance ActorRename_eq_dec : EqDecision ActorRename.
Proof. solve_decision. Defined.

(** [UPDATE … FROM] of an event that several renames match uses one of them,
    unspecified which. *)
Class JoinChoice := {
  joined : list ActorRename → option ActorRename;
  joined_elem l x : joined l = Some x → x ∈ l;
  joined_none l : joined l = None → l = [] }.

Module Rename.

(** [COALESCE(event.actor_name, event.actor_subject)] *)
Definition shown_as (r : AuditRow) : bytes := default (a_subject r) (a_name r).

(** The [WHERE] of the statement. *)
Definition renames (r : AuditRow) (rename : ActorRename) : bool :=
  bool_decide (a_subject r = rn_subject rename)
  && match a_name r with
     | None => true
     | Some n => bool_decide (n = rn_superseded rename) || bool_decide (n = rn_superseded_marked rename)
     end
  && starts_with (a_narrative r) (shown_as r ++ " ").

(** The [SET] of the statement.  The narrative starts with [shown_as r], so
    cutting its characters cuts its bytes. *)
Definition rename_row (rename : ActorRename) (r : AuditRow) : AuditRow :=
  mkAuditRow (a_id r) (a_occurred_at r) (a_first_occurred_at r) (a_event_count r) (a_kind r)
    (a_display_path r) (a_counterpart r) (a_subject r) (Some (rn_name rename)) (a_protocol r)
    (a_old r) (a_new r) (rn_name rename ++ drop (length (shown_as r)) (a_narrative r)) (a_digest r)
    (match a_recorded_narrative r with None => a_name r | Some _ => a_recorded_name r end)
    (Some (default (a_narrative r) (a_recorded_narrative r))).

Section statement.
Context `{JoinChoice}.

Definition rename_of (names : list ActorRename) (r : AuditRow) : option ActorRename :=
  joined (List.filter (renames r) names).

Definition renamed (names : list ActorRename) (r : AuditRow) : AuditRow :=
  match rename_of names r with Some rename => rename_row rename r | None => r end.

(** [GROUP BY actor_subject], with the count of each. *)
Definition counts_by (subjects : list bytes) : list (bytes * Z) :=
  List.map (λ s, (s, Z.of_nat (length (List.filter (λ s', bool_decide (s' = s)) subjects))))
    (sort_by bytes_leb (remove_dups subjects)).

Definition rename_actors (names : list ActorRename) : M SqlError (list (bytes * Z)) :=
  stmt (λ d,
    let changed := List.filter (λ r, negb (bool_decide (rename_of names r = None))) (audit d) in
    if forallb (λ r, Trail.audit_check (renamed names r)) changed
    then Some (counts_by (List.map a_subject changed),
               set_audit (List.map (renamed names) (audit d)) (audit_seq d) d)
    else None).
End statement.

(** ** What renaming does *)

(** An event as it was recorded, before any repair. *)
Definition original (r : AuditRow) : AuditRow :=
  mkAuditRow (a_id r) (a_occurred_at r) (a_first_occurred_at r) (a_event_count r) (a_kind r)
    (a_display_path r) (a_counterpart r) (a_subject r)
    (match a_recorded_narrative r with None => a_name r | Some _ => a_recorded_name r end)
    (a_protocol r) (a_old r) (a_new r) (default (a_narrative r) (a_recorded_narrative r))
    (a_digest r) None None.

Lemma rename_row_original x r : original (rename_row x r) = original r.
Proof. unfold original, rename_row. cbn. by destruct (a_recorded_narrative r). Qed.

Lemma rename_row_shown x r : shown_as (rename_row x r) = rn_name x.
Proof. done. Qed.

(** Renaming to the name an event goes by already changes nothing. *)
Lemma rename_row_twice x r : rename_row x (rename_row x r) = rename_row x r.
Proof.
  unfold rename_row at 1. rewrite rename_row_shown. unfold rename_row. cbn.
  by rewrite drop_app_length.
Qed.

(** Every event the server makes leads with its actor's name. *)
Definition leads (actor : Actor) (e : AuditEvent) : Prop :=
  ∃ rest, ev_narrative e = shown actor ++ " " ++ rest.

Ltac led := eexists; cbn; rewrite <- ?app_assoc; reflexivity.

Lemma events_lead actor :
  (∀ path new, leads actor (Event.value_created actor path new))
  ∧ (∀ path old new, leads actor (Event.value_updated actor path old new))
  ∧ (∀ path old, leads actor (Event.value_deleted actor path old))
  ∧ (∀ source new, Forall (leads actor) (Event.path_added actor source new))
  ∧ (∀ root c u d n, leads actor (Event.subtree_replaced actor root c u d n))
  ∧ (∀ root d n, leads actor (Event.subtree_deleted actor root d n))
  ∧ (∀ path, leads actor (Event.secret_revealed actor path))
  ∧ (∀ root n, leads actor (Event.subtree_read actor root n))
  ∧ (∀ ns n, leads actor (Event.values_listed actor ns n))
  ∧ (∀ c p, leads actor (Event.connection_created actor c p))
  ∧ (∀ c, leads actor (Event.connection_rotated actor c))
  ∧ ∀ c, leads actor (Event.connection_revoked actor c).
Proof.
  split_and!; intros; try led.
  - destruct new; led.
  - destruct old, new; led.
  - destruct old; led.
  - repeat constructor; led.
Qed.

Lemma storable_filter s :
  Trail.storable s = List.filter (λ c, negb (bool_decide (c = "000"%char))) s.
Proof.
  unfold Trail.storable, contains_byte. case_bool_decide as E; [done|]. symmetry.
  induction s as [|c s IH]; [done|]. cbn [List.filter]. rewrite not_elem_of_cons in E.
  rewrite bool_decide_eq_false_2 by (destruct E; congruence). cbn. by rewrite IH by apply E.
Qed.

Lemma storable_app a b : Trail.storable (a ++ b) = Trail.storable a ++ Trail.storable b.
Proof. by rewrite !storable_filter, List.filter_app. Qed.

Definition led (r : AuditRow) : Prop := starts_with (a_narrative r) (shown_as r ++ " ") = true.

(** An event is stored so that the renaming finds it by its actor. *)
Lemma recorded_led actor at_ id row rest :
  Trail.er_narrative row = shown actor ++ " " ++ rest → led (Trail.proposed actor at_ id row).
Proof.
  intros E. unfold led, shown_as, Trail.proposed. cbn [a_narrative a_name a_subject].
  rewrite E. assert (default (Trail.storable (actor_subject actor)) (Trail.storable <$> actor_name actor)
    = Trail.storable (shown actor)) as -> by (unfold shown; by destruct (actor_name actor)).
  rewrite !storable_app, app_assoc. apply starts_with_app.
Qed.

Lemma led_renames r x :
  led r → a_subject r = rn_subject x →
  a_name r = None ∨ a_name r = Some (rn_superseded x) ∨ a_name r = Some (rn_superseded_marked x) →
  renames r x = true.
Proof.
  unfold led, renames. intros -> -> Hn. rewrite bool_decide_eq_true_2 by done.
  destruct Hn as [-> |[-> | ->]]; [done|..]; rewrite !andb_true_r; apply orb_true_iff;
    rewrite !bool_decide_eq_true; auto.
Qed.

(** A window keeps to this as long as its events agree on whether the actor has
    a name. *)
Lemma bump_led e r : led e → a_subject e = a_subject r → (a_name e = None → a_name r = None) →
  led (Trail.bump e r).
Proof.
  unfold led, shown_as, Trail.bump. cbn [a_narrative a_name a_subject].
  destruct (a_name e); [done|]. intros He Hs ->; [|done]. cbn in *. by rewrite <- Hs.
Qed.

Section laws.
Context `{JoinChoice}.

Lemma rename_of_some names r x : rename_of names r = Some x → x ∈ names ∧ renames r x = true.
Proof.
  intros Hx%joined_elem%list_elem_of_In%filter_In. by rewrite <- list_elem_of_In in Hx.
Qed.

Lemma rename_of_none names r x : rename_of names r = None → x ∈ names → renames r x = false.
Proof.
  intros Hn%joined_none Hx. apply not_true_is_false. intros Hr.
  apply (not_elem_of_nil x). rewrite <- Hn. apply list_elem_of_In, filter_In.
  by rewrite <- list_elem_of_In.
Qed.

Lemma renamed_original names r : original (renamed names r) = original r.
Proof. unfold renamed. destruct (rename_of names r); [apply rename_row_original|done]. Qed.

Lemma renamed_subject names r : a_subject (renamed names r) = a_subject r.
Proof. unfold renamed. by destruct (rename_of names r). Qed.

Lemma renames_subject r x : renames r x = true → a_subject r = rn_subject x.
Proof. unfold renames. intros. by bool_prop. Qed.

Lemma same_subject (names : list ActorRename) x y :
  NoDup (List.map rn_subject names) → x ∈ names → y ∈ names → rn_subject x = rn_subject y → x = y.
Proof.
  induction names as [|z names IH]; [by intros _ ?%not_elem_of_nil|].
  intros [Hz Hn]%NoDup_cons Hx Hy E.
  assert (∀ v, v ∈ names → rn_subject v ∈ List.map rn_subject names) as Hin
    by (intros v Hv; by apply list_elem_of_In, in_map, list_elem_of_In).
  apply elem_of_cons in Hx as [->|Hx], Hy as [->|Hy]; [done| | |by apply IH].
  - exfalso. apply Hz. rewrite E. auto.
  - exfalso. apply Hz. rewrite <- E. auto.
Qed.

Lemma renamed_twice names r :
  NoDup (List.map rn_subject names) → renamed names (renamed names r) = renamed names r.
Proof.
  intros Hn. unfold renamed at 2 3. destruct (rename_of names r) as [x|] eqn:Ex.
  - unfold renamed. destruct (rename_of names (rename_row x r)) as [y|] eqn:Ey; [|done].
    apply rename_of_some in Ex as [Hx Hrx], Ey as [Hy Hry]. apply renames_subject in Hrx, Hry.
    cbn in Hry. assert (y = x) as -> by (apply (same_subject names); [done..|congruence]).
    apply rename_row_twice.
  - unfold renamed. by rewrite Ex.
Qed.

(** What the statement leaves of the database, however it ends. *)
Lemma rename_actors_db names w w' x :
  rename_actors names w = (x, w') →
  db w' = db w
  ∨ (db w' = set_audit (List.map (renamed names) (audit (db w))) (audit_seq (db w)) (db w)
     ∧ Forall (λ r, rename_of names r = None ∨ Trail.audit_check (renamed names r) = true) (audit (db w))).
Proof.
  unfold rename_actors, stmt. destruct (forallb _ _) eqn:E.
  - intros Hrun. assert (Forall (λ r, rename_of names r = None ∨ Trail.audit_check (renamed names r) = true)
      (audit (db w))) as Hok.
    { apply forallb_Forall in E. rewrite Forall_forall in E |- *. intros r Hr.
      destruct (rename_of names r) eqn:Er; [|by left]. right. apply E.
      apply list_elem_of_In, filter_In. split; [by apply list_elem_of_In|].
      by rewrite Er. }
    destruct (outcome w); injection Hrun as <- <-; [right|left|right]; done.
  - intros Hrun. left. destruct (outcome w); by injection Hrun as <- <-.
Qed.

Lemma map_originals_ids T T' : List.map original T' = List.map original T →
  List.map a_id T' = List.map a_id T ∧ List.map a_digest T' = List.map a_digest T.
Proof.
  intros E. split.
  - apply (f_equal (List.map a_id)) in E. by rewrite !List.map_map in E.
  - apply (f_equal (List.map a_digest)) in E. by rewrite !List.map_map in E.
Qed.

Lemma map_renamed_original names T : List.map original (List.map (renamed names) T) = List.map original T.
Proof. rewrite List.map_map. apply List.map_ext, renamed_original. Qed.

Lemma renamed_table_wf names T seq :
  Trail.table_wf T seq →
  Forall (λ r, rename_of names r = None ∨ Trail.audit_check (renamed names r) = true) T →
  Trail.table_wf (List.map (renamed names) T) seq.
Proof.
  intros (Hc & Hd & Hi & Hs) Hok.
  destruct (map_originals_ids T _ (map_renamed_original names T)) as [Ei Ed].
  unfold Trail.table_wf. split; [|split; [|split]].
  - apply Forall_map_iff. rewrite Forall_forall in *. intros r Hr.
    destruct (Hok r Hr) as [Hn|]; [|done]. unfold renamed. rewrite Hn. auto.
  - unfold Trail.digests. rewrite Trail.digests_map; [done|]. intros r. unfold renamed.
    by destruct (rename_of names r).
  - by rewrite Ei.
  - apply Forall_map_iff. eapply Forall_impl; [exact Hs|]. intros r. unfold renamed.
    by destruct (rename_of names r).
Qed.

(** Renaming actors in the trail is reversible and repeatable.  However the
    statement ends, each event as first recorded can be read back from its row,
    in the same order and number, no other table changes, and the trail stays
    within its constraints; and when no two renames are for the same subject,
    a second renaming would change nothing more. *)
Theorem renaming_is_reversible_and_idempotent names w :
  let w' := (rename_actors names w).2 in
  List.map original (audit (db w')) = List.map original (audit (db w))
  ∧ set_audit [] 0 (db w') = set_audit [] 0 (db w)
  ∧ (∀ seq, Trail.table_wf (audit (db w)) seq → Trail.table_wf (audit (db w')) seq)
  ∧ (NoDup (List.map rn_subject names) →
     ∀ r, renamed names (renamed names r) = renamed names r).
Proof.
  intros w'. destruct (rename_actors names w) as [x w1] eqn:E. subst w'. cbn [snd].
  apply rename_actors_db in E as [-> | [-> Hok]]; cbn [audit set_audit];
    (split; [|split; [done|split; [|by intros ? r; apply renamed_twice]]]); [done..| |].
  - apply map_renamed_original.
  - intros seq Hw. by apply renamed_table_wf.
Qed.
End laws.

End Rename.

(** ** repair.rs *)

Module Repair.
Import Identity Service.

Definition ACCESS_URL_MARKER : bytes := " (access URL)".

Definition marked (name : bytes) : bytes := name ++ ACCESS_URL_MARKER.

Definition is_live (account : AccountRow) : bool :=
  match Managed.state_parse (ar_state account) with
  | Ok (Managed.Active | Managed.RotationUnknown) => true
  | _ => false
  end.

Definition actor_rename (account : AccountRow) : option ActorRename :=
  connection_id ← ok (Managed.connection_id_parse (ar_connection_id account));
  let username := Names.managed_username connection_id (ar_display_name account) in
  Some (mkActorRename (ar_provider_user_uid account) (marked (ar_display_name account)) username
          (marked username)).

Section repair.
Context {P : Type} `{ManagedIdentityProvider P} `{Locale} `{Crypto} `{JoinChoice}.

Abbreviation F := (Flow (Deployment P)).

Definition accounts_or_log : F (option (list AccountRow)) :=
  await accounts := sql list_accounts in Ret (ok accounts).

(** The loop over the accounts, with whether a failure holds the repair open. *)
Fixpoint rename_each (accounts : list AccountRow) (holding_open : bool) : F bool :=
  match accounts with
  | [] => Ret holding_open
  | account :: rest =>
      match account_row_account account with
      | None => rename_each rest holding_open
      | Some account_id =>
          await renamed := ask (rename_account account_id (ar_display_name account)) in
          match renamed with
          | Ok _ =>
              await _ := record_dependency Labels.RenameAccount Labels.DepOk in
              rename_each rest holding_open
          | Err error =>
              await _ := record_dependency Labels.RenameAccount (dependency_outcome error) in
              rename_each rest (holding_open || negb (bool_decide (error = NotFound)))
          end
      end
  end.

Definition rename_accounts : F bool :=
  await accounts := accounts_or_log in
  match accounts with
  | None => Ret false
  | Some accounts =>
      await holding_open := rename_each (List.filter is_live accounts) false in
      Ret (negb holding_open)
  end.

Definition rename_actors_in_trail : F bool :=
  await accounts := accounts_or_log in
  match accounts with
  | None => Ret false
  | Some accounts =>
      let names := omap actor_rename accounts in
      if is_empty names then Ret true
      else await renamed := act (on_world (Rename.rename_actors names)) in Ret (is_ok renamed)
  end.

Definition repair_actor_names : F unit :=
  await completed := sql name_repair_completed in
  match completed with
  | Ok true | Err _ => Ret tt
  | Ok false =>
      await accounts_named := rename_accounts in
      await _ := sleep in
      await trail_repaired := rename_actors_in_trail in
      if negb (accounts_named && trail_repaired) then Ret tt
      else await _ := sql complete_name_repair in Ret tt
  end.
End repair.

(** ** What the repair promises *)

(** The accounts the connections have. *)
Definition accounts_of (c : gmap bytes ManagedRow) : list AccountRow :=
  omap (λ r,
    uid ← m_uid r;
    Some (mkAccountRow (connection_id (m_row r)) (display_name (m_row r))
            (provider_user_id (m_row r)) uid (state (m_row r)))) (ordered c).

(** An event that still goes by an earlier name of its actor. *)
Definition stale (x : ActorRename) (r : AuditRow) : Prop :=
  Rename.renames r x = true ∧ a_name r ≠ Some (rn_name x).

Section promises.
Context {P : Type} `{ManagedIdentityProvider P} `{Locale} `{Crypto} `{JoinChoice}.
Implicit Types s : Deployment P.

(** What the repair may do to the rest of the deployment. *)
Definition only_renames s s' : Prop :=
  connections s' = connections s
  ∧ set_audit [] 0 (db (world s')) = set_audit [] 0 (db (world s))
  ∧ List.map Rename.original (audit (db (world s'))) = List.map Rename.original (audit (db (world s))).

Lemma only_renames_refl s : only_renames s s.
Proof. done. Qed.

Lemma table_read {A} (f : gmap bytes ManagedRow → A) s :
  only_renames s (table (P:=P) (λ c, Some (f c, c)) s).2.
Proof. unfold table. by destruct (outcome (world s)). Qed.

Lemma rename_each_steps accounts : ∀ held, all_steps only_renames (rename_each accounts held).
Proof.
  induction accounts as [|account rest IH]; intros held; simpl; [done|].
  destruct (account_row_account account); [|done]. split.
  - intros s. by destruct (rename_account _ _ _).
  - intros [?|e]; (split; [done|]); intros; apply IH.
Qed.

Lemma accounts_or_log_steps {A} (k : option (list AccountRow) → Flow (Deployment P) A) :
  (∀ o, all_steps only_renames (k o)) → all_steps only_renames (flow_bind accounts_or_log k).
Proof. intros Hk. split; [intros s; apply (table_read (λ c, accounts_of c))|]. intros b. apply Hk. Qed.

(** Wherever the repair is interrupted, it has changed nothing but names in
    the trail, and those reversibly. *)
Theorem repair_only_renames : all_steps only_renames repair_actor_names.
Proof.
  split; [intros s; unfold name_repair_completed; by destruct (outcome (world s))|].
  intros [[]|e]; [done| |done]. apply (all_steps_bind _ rename_accounts).
  { apply accounts_or_log_steps. intros [accounts|]; [|done].
    apply all_steps_bind; [apply rename_each_steps|done]. }
  intros named. split; [done|]. intros []. apply (all_steps_bind _ rename_actors_in_trail).
  { apply accounts_or_log_steps. intros [accounts|]; [|done]. lazy beta zeta iota.
    destruct (is_empty _); [done|].
    split; [|done]. intros s. unfold on_world.
    destruct (Rename.rename_actors _ (world s)) as [x w] eqn:E. cbn.
    apply Rename.rename_actors_db in E as [E | [E _]]; unfold only_renames; cbn; rewrite E; [done|].
    cbn. by rewrite Rename.map_renamed_original. }
  intros repaired. destruct (negb _); [done|]. split; [|done].
  intros s. unfold complete_name_repair. by destruct (outcome (world s)).
Qed.

(** ** When it is complete *)

Definition renames_of s : list ActorRename := omap actor_rename (accounts_of (connections s)).
Definition distinct s : Prop := NoDup (List.map rn_subject (renames_of s)).
Definition settled s : Prop :=
  ∀ x r, x ∈ renames_of s → r ∈ audit (db (world s)) → ¬ stale x r.

(** Other tasks neither complete the repair nor make an event stale: new
    connections have subjects of their own, and tokens carry current names. *)
Definition rely s s' : Prop :=
  name_repaired s' = name_repaired s ∧ (distinct s → distinct s')
  ∧ (∀ x, x ∈ renames_of s' → x ∉ renames_of s → ∀ y, y ∈ renames_of s → rn_subject y ≠ rn_subject x)
  ∧ ∀ x r, x ∈ renames_of s' → r ∈ audit (db (world s')) → stale x r →
      x ∈ renames_of s ∧ r ∈ audit (db (world s)).

Lemma rely_settled s s' : rely s s' → settled s → settled s'.
Proof. intros (_ & _ & _ & Hs) Hset x r Hx Hr Hst. destruct (Hs x r Hx Hr Hst). by eapply Hset. Qed.

(** Renaming with what was listed settles the trail. *)
Lemma renaming_settles s0 s s' counts :
  rely s0 s → distinct s0 →
  on_world (Rename.rename_actors (renames_of s0)) s = (Ok counts, s') → settled s'.
Proof.
  intros (_ & _ & Hfresh & Hstale) Hd Hrun. unfold on_world, Rename.rename_actors, stmt in Hrun.
  destruct (forallb _ _), (outcome (world s)); try done. injection Hrun as _ <-.
  intros x r' Hx Hr' [Hren Hname]. change (x ∈ renames_of s) in Hx. cbn in Hr'.
  apply list_elem_of_In, in_map_iff in Hr' as (r & <- & Hr%list_elem_of_In).
  pose proof (Rename.renames_subject _ _ Hren) as Hsub. rewrite Rename.renamed_subject in Hsub.
  unfold Rename.renamed in *. destruct (Rename.rename_of (renames_of s0) r) as [y|] eqn:Ey.
  - apply Hname. apply Rename.rename_of_some in Ey as [Hy Hry%Rename.renames_subject]. cbn. do 2 f_equal.
    destruct (decide (x ∈ renames_of s0)) as [Hx0|Hx0].
    + apply (Rename.same_subject (renames_of s0)); [done..|congruence].
    + exfalso. apply (Hfresh x Hx Hx0 y Hy). congruence.
  - destruct (Hstale x r Hx Hr) as [Hx0 _]; [done|].
    by rewrite (Rename.rename_of_none _ _ _ Ey Hx0) in Hren.
Qed.


(** What no step of a flow and no interference breaks, holds at its end. *)
Lemma wpi_keeps (env : relation (Deployment P)) (J : Deployment P → Prop) {A} (f : Flow (Deployment P) A) :
  (∀ s s', env s s' → J s → J s') → all_steps (λ s s', J s → J s') f →
  ∀ s, J s → wpi env (λ _, True) f (λ _, J) s.
Proof.
  intros Henv. induction f as [a|B step k IH]; intros Hf s HJ; simpl in *; [done|].
  intros s1 He1. destruct Hf as [Hs Hk]. split; [done|]. eauto.
Qed.

Definition open s : Prop := name_repaired s = false ∧ distinct s.

Lemma rely_open s s' : rely s s' → open s → open s'.
Proof. intros (Hf & Hd & _) []. split; [congruence|auto]. Qed.

Lemma table_read_facts {A} (f : gmap bytes ManagedRow → A) s :
  let s' := (table (P:=P) (λ c, Some (f c, c)) s).2 in
  connections s' = connections s ∧ name_repaired s' = name_repaired s ∧ db (world s') = db (world s).
Proof. unfold table. by destruct (outcome (world s)). Qed.

Lemma same_connections_open s s' :
  connections s' = connections s → name_repaired s' = name_repaired s → open s → open s'.
Proof. unfold open, distinct, renames_of. by intros -> ->. Qed.

Lemma rename_each_open accounts : ∀ held,
  all_steps (λ s s', open s → open s') (rename_each accounts held).
Proof.
  induction accounts as [|account rest IH]; intros held; simpl; [done|].
  destruct (account_row_account account); [|done]. split.
  - intros s. by destruct (rename_account _ _ _).
  - intros [?|e]; (split; [done|]); intros; apply IH.
Qed.

Lemma rename_accounts_open : all_steps (λ s s', open s → open s') rename_accounts.
Proof.
  split.
  - intros s. destruct (table_read_facts (λ c, accounts_of c) s) as (? & ? & _).
    by apply same_connections_open.
  - intros [accounts|e]; [|done].
    apply (all_steps_bind _ (rename_each (List.filter is_live accounts) false));
      [apply rename_each_open|done].
Qed.

(** The accounts listed and the renames made of them are those of the state. *)
Lemma listed s accounts s' :
  list_accounts (P:=P) s = (Ok accounts, s') → omap actor_rename accounts = renames_of s'.
Proof.
  unfold list_accounts, table, renames_of. destruct (outcome (world s)); [|done..].
  by intros [= <- <-].
Qed.

Lemma trail_wpi (env : relation (Deployment P)) s :
  (∀ s s', env s s' → rely s s') → open s →
  wpi env (λ _, True) rename_actors_in_trail
    (λ done s', name_repaired s' = false ∧ (done = true → settled s')) s.
Proof.
  intros Henv Ho s1 He1. split; [done|].
  assert (open (list_accounts (P:=P) s1).2) as Ho1.
  { destruct (table_read_facts (λ c, accounts_of c) s1) as (? & ? & _).
    apply (same_connections_open s1); [done..|]. by eapply rely_open; [apply Henv|]. }
  destruct (list_accounts s1) as [[accounts|e] s2] eqn:El; cbn [fst snd ok flow_bind] in *;
    [|split; [apply Ho1|done]].
  rewrite (listed _ _ _ El). destruct (renames_of s2) as [|x xs] eqn:Ex; cbn [is_empty].
  - split; [apply Ho1|]. intros _ y r. rewrite Ex. by intros ?%not_elem_of_nil.
  - rewrite <- Ex. intros s3 He3. split; [done|].
    destruct (on_world (Rename.rename_actors (renames_of s2)) s3) as [[counts|e] s4] eqn:Er;
      cbn [fst snd flow_bind wpi is_ok]; (split; [|try done]).
    + apply (f_equal (λ p, name_repaired p.2)) in Er. unfold on_world in Er.
      destruct (Rename.rename_actors _ _); cbn in Er. rewrite <- Er, (proj1 (Henv _ _ He3)). apply Ho1.
    + intros _. eapply renaming_settles; [by apply Henv|apply Ho1|exact Er].
    + apply (f_equal (λ p, name_repaired p.2)) in Er. unfold on_world in Er.
      destruct (Rename.rename_actors _ _); cbn in Er. rewrite <- Er, (proj1 (Henv _ _ He3)). apply Ho1.
Qed.

(** Once the repair is recorded as complete, no past event goes by an
    earlier name of a connection's account, however its statements and the
    provider fail and whatever runs in between, as long as other tasks record
    events under current names: a repair that failed anywhere is not recorded
    as complete. *)
Theorem completed_repair_leaves_no_earlier_name (env : relation (Deployment P)) s s' :
  (∀ s s', env s s' → rely s s') → name_repaired s = false → distinct s →
  exec env repair_actor_names s tt s' → name_repaired s' = true → settled s'.
Proof.
  intros Henv Hf Hd. apply (wpi_exec env (λ _, True) _ (λ _ s', name_repaired s' = true → settled s')).
  intros s1 He1. split; [done|].
  assert (open s1) as Ho1 by (by eapply rely_open; [apply Henv|split]).
  unfold name_repair_completed. destruct (outcome (world s1)); cbn [fst snd];
    [rewrite (proj1 Ho1)|cbn; by destruct Ho1 as [-> _]..].
  cbn [flow_bind]. apply flow_bind_assoc_wpi.
  eapply wpi_mono; [apply (wpi_keeps env open); [by intros; eapply rely_open; [apply Henv|]
    |apply rename_accounts_open|exact Ho1]|].
  intros named s2 Ho2 s3 He3. split; [done|]. cbn [fst snd flow_bind].
  apply flow_bind_assoc_wpi. eapply wpi_mono; [apply trail_wpi; [exact Henv|]|].
  { by eapply rely_open; [apply Henv|]. }
  intros repaired s4 [Hf4 Hs4]. destruct named, repaired; cbn; try (by rewrite Hf4).
  intros s5 He5. split; [done|]. intros _. assert (settled s5) as Hs5.
  { eapply rely_settled; [by apply Henv|]. by apply Hs4. }
  unfold complete_name_repair. by destruct (outcome (world s5)).
Qed.
End promises.

End Repair.

(** ** At a sample *)

Module RepairSample.
Import Values.Sample.
#[local] Existing Instance Cipher.toy_crypto.

#[export] Instance first_joined : JoinChoice.
Proof.
  refine {| joined := head |}; [|by intros []]. intros [|y l] x; [done|]. intros [= ->]. left.
Defined.

Definition account : ActorRename :=
  mkActorRename "hash-7" "Api server (access URL)" "sc-managed-api-server-1"
    "sc-managed-api-server-1 (access URL)".

(** Three reads by the account: by subject alone, under its generated username,
    and a window of one of each. *)
Definition by_subject : Actor := mkActor "hash-7" None "v5".
Definition by_username : Actor := mkActor "hash-7" (Some "sc-managed-api-server-1") "v5".

Definition reads (actors : list (Actor * bytes)) (w : World) : World :=
  foldl (λ w p, (Trail.record hourly p.1 (clock w) (Event.subtree_read p.1 p.2 1) w).2) w actors.

Definition mixed : World :=
  reads [(by_subject, "/a"); (by_username, "/b"); (by_username, "/c"); (by_subject, "/c")] start.

(** The first two are renamed.  The window is not: it kept the username, but its
    narrative leads with the subject, so the statement does not find it. *)
Example mixed_windows_are_not_renamed :
  List.map (λ r, (a_display_path r, a_name r)) (audit (db (Rename.rename_actors [account] mixed).2))
  = [("/a", Some "Api server (access URL)"); ("/b", Some "Api server (access URL)");
     ("/c", Some "sc-managed-api-server-1")].
Proof. vm_compute. reflexivity. Qed.

End RepairSample.
