(* ===== verification/AuditSample.v ===== *)
(** * The audit trail at a sample

    Queries of a small trail and the repair of a small deployment, at which the
    theorems of [AuditPages.v] and [ManagedRepair.v] are applied. *)

From stdpp Require Import strings.
From S2P Require Import Prelude Bytes ConfigPath Core Managed Auth Encryption AuditEvent Rpc Database AuditTrail Values ConnectionUrl Identity IdentityFake Flow ManagedStore ManagedService ManagedSample AuditQuery AuditPages ManagedRepair.

Local Open Scope bytes_scope.

Module Trails.
Import Values.Sample.

(** The years -9999 to 9999, instants as they are, and ASCII case. *)
Definition fold_char (c : Z) : Z := if ((65 <=? c) && (c <=? 90))%Z then (c + 32)%Z else c.

#[export] Instance sample_crates : QueryCrates := {|
  timestamp_min := -377705116800; timestamp_max := 253402300799;
  civil t := (1970, 1, 1, 0, 0, t / Stamps.NANOS)%Z; bind_instant := timestamptz;
  ilike_char a b := Z.eqb (fold_char a) (fold_char b) |}.

#[export] Instance sample_laws : QueryLaws.
Proof. split; [done|]. vm_compute. split; discriminate. Qed.

Definition service : Audit.AuditTrailService := Audit.mkService 1.
Definition everything : Audit.TrailQuery := Audit.mkQuery [] [] [] None None [] (Some []) 0 [] [] true.

(** A trail of two events, read one event a page. *)
Definition first_page := Audit.query_audit_trail service owner everything with_secret.
Definition cursor : bytes :=
  match first_page.1 with Ok p => default [] (next_cursor p) | Err _ => [] end.
Definition second_page :=
  Audit.query_audit_trail service owner (Paging.with_cursor cursor everything) with_secret.
Definition shown (r : result AuditPage Status) : list AuditEntry :=
  match r with Ok p => events p | Err _ => [] end.

Definition born (id : Z) : Z := 1700000000123456000.
Definition table : list AuditRow := audit (db with_secret).

End Trails.
Import Trails Values.Sample.

(** ** Queries *)

Lemma table_steady : Paging.steady born table.
Proof.
  split.
  - assert (bool_decide (NoDup (List.map a_id table)) = true) as H%bool_decide_eq_true
      by (vm_compute; reflexivity). exact H.
  - apply Forall_forall. intros r Hr.
    assert (forallb (λ r, (timestamptz (a_first_occurred_at r) =? a_first_occurred_at r)%Z
      && Audit.representable (a_first_occurred_at r) && ((1 <=? a_id r) && (a_id r <=? Stamps.i64_max))%Z
      && (a_first_occurred_at r =? born (a_id r))%Z) table = true) as H by (vm_compute; reflexivity).
    rewrite forallb_forall in H. apply list_elem_of_In, H in Hr. clear H.
    rewrite !andb_true_iff, !Z.eqb_eq, !Z.leb_le in Hr. unfold Paging.readable. tauto.
Qed.

Lemma pages_shown :
  Paging.scroll service owner everything [] [table; table] (shown first_page.1 ++ shown second_page.1).
Proof.
  assert (match first_page.1 with
          | Ok p => bool_decide (next_cursor p = Some cursor) | Err _ => false end = true) as H1
    by (vm_compute; reflexivity).
  assert (match second_page.1 with
          | Ok p => bool_decide (next_cursor p = None) | Err _ => false end = true) as H2
    by (vm_compute; reflexivity).
  destruct first_page as [[p1|] w1] eqn:E1; [|discriminate H1].
  destruct second_page as [[p2|] w2] eqn:E2; [|discriminate H2].
  apply bool_decide_eq_true in H1, H2. cbn [fst shown].
  eapply (Paging.scroll_next _ _ _ _ _ p1); [exact E1|exact H1|].
  eapply (Paging.scroll_last _ _ _ _ _ p2); [exact E2|exact H2].
Qed.

Lemma scrolling_misses_and_repeats_nothing_witness :
  NoDup (List.map e_id (shown first_page.1 ++ shown second_page.1)).
Proof.
  refine (proj1 (Paging.scrolling_misses_and_repeats_nothing service owner everything born
            [table; table] _ _ _ _ pages_shown)).
  - reflexivity.
  - cbn. lia.
  - apply Forall_cons. split; [apply table_steady|]. apply Forall_cons.
    split; [apply table_steady|constructor].
Defined.

(** Someone who may read [/apps/url] only. *)
Definition narrow : AuthenticatedPrincipal := mkPrincipal "user-2" None [mkGrant "/apps/url" {[Read]}].
Definition any_event : Audit.ValidQuery := Audit.mkValid None None None None None None None [] None.
Definition url_event : AuditRow := default (Trail.proposed RepairSample.by_subject 0 0
  (Trail.mkEventRow [] [] None None None [] None)) (head table).

Lemma visibility_is_the_grant_check_witness :
  push_scope (Audit.filter_of narrow any_event 1) url_event = true.
Proof.
  assert (Trail.audit_check url_event = true) as Hc by (vm_compute; reflexivity).
  assert (Auth.well_formed narrow) as Hw.
  { apply Forall_cons. split; [|constructor].
    apply (Path.parse_operation_canonical _ (mkPath "/apps/url")). vm_compute. reflexivity. }
  rewrite (proj1 (Seen.visibility_is_the_grant_check narrow any_event 1 url_event Hw Hc) eq_refl).
  vm_compute. reflexivity.
Defined.

(** ** The repair *)

#[local] Existing Instance Fake.fake_provider.
Import SampleUrl RepairSample.

(** A connection whose account has read [/a] under its subject alone. *)
Definition account_uid : bytes :=
  default [] (connections Scene.created !! Managed.id_str Scene.id ≫= m_uid).
Definition unrepaired : Deployment Fake.State :=
  set_name_repaired false (set_world
    (RepairSample.reads [(mkActor account_uid None "v5", "/a")] (world Scene.created)) Scene.created).
Definition repaired : Deployment Fake.State := (run Repair.repair_actor_names unrepaired).2.

Example repair_renames :
  List.map a_name (audit (db (world repaired))) = [Some "ada"; Some "Api server (access URL)"].
Proof. vm_compute. reflexivity. Qed.

Lemma repair_ran : exec eq Repair.repair_actor_names unrepaired tt repaired.
Proof.
  unfold repaired. pose proof (exec_run eq Repair.repair_actor_names unrepaired) as H.
  by destruct (run Repair.repair_actor_names unrepaired) as [[] ?].
Qed.

Lemma completed_repair_leaves_no_earlier_name_witness : Repair.settled repaired.
Proof.
  refine (Repair.completed_repair_leaves_no_earlier_name eq unrepaired repaired _ _ _ repair_ran _).
  - intros s s' <-. split; [reflexivity|]. split; [exact (λ H, H)|]. split; [|auto].
    intros x Hx Hn. contradiction.
  - reflexivity.
  - assert (bool_decide (NoDup (List.map rn_subject (Repair.renames_of unrepaired))) = true)
      as H%bool_decide_eq_true by (vm_compute; reflexivity). exact H.
  - vm_compute. reflexivity.
Defined.

Lemma renaming_is_reversible_and_idempotent_witness :
  List.map Rename.original (audit (db (Rename.rename_actors [account] mixed).2))
  = List.map Rename.original (audit (db mixed))
  ∧ ∀ r, Rename.renamed [account] (Rename.renamed [account] r) = Rename.renamed [account] r.
Proof.
  destruct (Rename.renaming_is_reversible_and_idempotent [account] mixed) as (Ho & _ & _ & Hi).
  split; [exact Ho|]. apply Hi. apply NoDup_singleton.
Defined.
