(* ===== verification/BrokerLayers.v ===== *)
(** * The broker's configuration layers

    Models [crates/sovereign-config-woodpecker-broker/src/layers.rs] and the
    request of [model.rs]: templates parsed and checked at startup, rendered for
    each request from the metadata in its signed body.  The rendered paths decide
    whose secrets a pipeline receives. *)

From stdpp Require Import strings.
From S2P Require Import Prelude Bytes ConfigPath Core Database.

Local Open Scope bytes_scope.

(** ** model.rs: the request *)

Record Repo := mkRepo {
  owner : bytes; repo_name : bytes; full_name : bytes; forge_id : option Z }.
Record Pipeline := mkPipeline { branch : bytes; event : bytes }.
Record SecretsRequest := mkRequest { repo : Repo; pipeline : Pipeline }.

Module Templates.

(** ** Placeholders *)

Inductive Field :=
| RepoOwner | RepoName | RepoFullName | RepoForgeId | PipelineBranch | PipelineEvent.
#[global] Instance Field_eq_dec : EqDecision Field.
Proof. solve_decision. Defined.

Definition field_parse (name : bytes) : option Field :=
  if bool_decide (name = "repo.owner") then Some RepoOwner
  else if bool_decide (name = "repo.name") then Some RepoName
  else if bool_decide (name = "repo.full_name") then Some RepoFullName
  else if bool_decide (name = "repo.forge_id") then Some RepoForgeId
  else if bool_decide (name = "pipeline.branch") then Some PipelineBranch
  else if bool_decide (name = "pipeline.event") then Some PipelineEvent
  else None.

Inductive Substitution := Absent | Unrepresentable | Value (s : bytes).
#[global] Instance Substitution_eq_dec : EqDecision Substitution.
Proof. solve_decision. Defined.

Definition canonical_byte (c : ascii) : bool :=
  is_ascii_lowercase c || is_ascii_digit c || bool_decide (c = "-"%char) || bool_decide (c = "_"%char).

Definition substitution_of (value : bytes) : Substitution :=
  if is_empty value then Absent
  else if forallb canonical_byte value then Value value
  else Unrepresentable.

Definition field_render (self : Field) (request : SecretsRequest) : Substitution :=
  match self with
  | RepoOwner => substitution_of (owner (repo request))
  | RepoName => substitution_of (repo_name (repo request))
  | RepoFullName =>
      match split_once "/"%char (full_name (repo request)) with
      | Some (owner, name) =>
          match substitution_of owner, substitution_of name with
          | Value owner, Value name => Value (owner ++ "/" ++ name)
          | Absent, _ | _, Absent => Absent
          | _, _ => Unrepresentable
          end
      | None => substitution_of (full_name (repo request))
      end
  | RepoForgeId =>
      match forge_id (repo request) with Some id => Value (show_Z id) | None => Absent end
  | PipelineBranch => substitution_of (branch (pipeline request))
  | PipelineEvent => substitution_of (event (pipeline request))
  end.

(** ** Templates *)

Inductive Segment := Literal (s : bytes) | Placeholder (f : Field).
#[global] Instance Segment_eq_dec : EqDecision Segment.
Proof. solve_decision. Defined.

Inductive LayerError :=
| Empty
| UnbalancedBrace (layer : bytes)
| UnknownPlaceholder (layer placeholder : bytes)
| NotAbsolute (layer : bytes)
| InvalidLiteral (layer : bytes).

Record LayerTemplates := mkTemplates { layers : list (list Segment); specs : list bytes }.

Definition FIELD_PROBE : bytes := "x".

Definition push_literal (literal : bytes) (segments : list Segment) : list Segment :=
  if is_empty literal then segments else segments ++ [Literal literal].

(** The loop of [parse_layer]; [literal] is empty whenever it starts over.  Each
    round consumes a brace, so the length of the text is fuel enough. *)
Fixpoint scan (fuel : nat) (raw : bytes) (segments : list Segment) (rest : bytes)
  : result (list Segment) LayerError :=
  match fuel with
  | O => Err (UnbalancedBrace raw)
  | S fuel' =>
      match split_once "{"%char rest with
      | Some (literal, after_) =>
          let? closed := ok_or (split_once "}"%char after_) (UnbalancedBrace raw) in
          let? field := ok_or (field_parse closed.1) (UnknownPlaceholder raw closed.1) in
          scan fuel' raw (push_literal literal segments ++ [Placeholder field]) closed.2
      | None =>
          if contains_byte "}"%char rest then Err (UnbalancedBrace raw)
          else Ok (push_literal rest segments)
      end
  end.

Definition probe (segments : list Segment) : bytes :=
  flat_map (λ segment, match segment with Literal literal => literal | Placeholder _ => FIELD_PROBE end)
    segments.

Definition parse_layer (raw : bytes) : result (list Segment) LayerError :=
  if negb (starts_with raw "/")
     || existsb (λ part, bool_decide (part = ".") || bool_decide (part = "..")) (split "/"%char raw)
  then Err (NotAbsolute raw)
  else
    let? segments := scan (S (length raw)) raw [] raw in
    match Path.parse_operation (probe segments) with
    | Ok _ => Ok segments
    | Err _ => Err (InvalidLiteral raw)
    end.

(** [str::split] on any of several characters. *)
Fixpoint split_where (f : ascii → bool) (s : bytes) : list bytes :=
  match s with
  | [] => [[]]
  | c :: s' =>
      if f c then [] :: split_where f s'
      else match split_where f s' with
           | p :: ps => (c :: p) :: ps
           | [] => [[c]]
           end
  end.

Definition spec_separator (c : ascii) : bool :=
  bool_decide (c = ","%char) || bool_decide (c = "010"%char) || bool_decide (c = "013"%char).

Definition parse (spec : bytes) : result LayerTemplates LayerError :=
  let raws := List.filter (λ raw, negb (is_empty raw)) (List.map trim (split_where spec_separator spec)) in
  let? layers := map_result parse_layer raws in
  if is_empty layers then Err Empty else Ok (mkTemplates layers raws).

(** ** Rendering *)

(** The text of one layer, or nothing when a placeholder has no value. *)
Fixpoint build (request : SecretsRequest) (built : bytes) (layer : list Segment) : option bytes :=
  match layer with
  | [] => Some built
  | Literal literal :: layer' => build request (built ++ literal) layer'
  | Placeholder field :: layer' =>
      match field_render field request with
      | Value value => build request (built ++ value) layer'
      | Absent | Unrepresentable => None
      end
  end.

Definition render (self : LayerTemplates) (request : SecretsRequest) : list ConfigPath :=
  omap (λ '(layer, _), built ← build request [] layer; ok (Path.parse_operation built))
    (zip (layers self) (specs self)).

(** ** Values of placeholders *)

Definition plain_segment (v : bytes) : Prop := v ≠ [] ∧ Forall (λ c, canonical_byte c = true) v.

Lemma substitution_value s v : substitution_of s = Value v → v = s ∧ plain_segment v.
Proof.
  unfold substitution_of. destruct s as [|c s]; [done|]. cbn [is_empty].
  destruct (forallb _ _) eqn:E; [|done]. intros [= <-]. split; [done|]. split; [done|].
  by apply forallb_Forall.
Qed.

Lemma canonical_digit d : (0 ≤ d < 10)%Z → canonical_byte (digit_byte d) = true.
Proof.
  intros Hd. assert (d = 0 ∨ d = 1 ∨ d = 2 ∨ d = 3 ∨ d = 4 ∨ d = 5 ∨ d = 6 ∨ d = 7 ∨ d = 8 ∨ d = 9)%Z as H
    by lia. by repeat destruct H as [->|H]; [done..|subst].
Qed.

Lemma decimal_digits_plain fuel : ∀ n acc,
  Forall (λ c, canonical_byte c = true) acc → Forall (λ c, canonical_byte c = true) (decimal_digits fuel n acc).
Proof.
  induction fuel as [|fuel IH]; intros n acc Hacc; [done|]. cbn [decimal_digits].
  assert (Forall (λ c, canonical_byte c = true) (digit_byte (n mod 10) :: acc)) as H.
  { constructor; [|done]. apply canonical_digit, Z.mod_pos_bound. lia. }
  destruct (n <? 10)%Z; [done|]. by apply IH.
Qed.

Lemma decimal_digits_not_nil fuel : ∀ n acc, fuel ≠ 0 ∨ acc ≠ [] → decimal_digits fuel n acc ≠ [].
Proof.
  induction fuel as [|fuel IH]; intros n acc [H|H]; try done; cbn [decimal_digits];
    destruct (n <? 10)%Z; try done; apply IH; by right.
Qed.

Lemma show_Z_plain n : plain_segment (show_Z n).
Proof.
  split.
  - unfold show_Z. destruct (n <? 0)%Z; [done|]. apply decimal_digits_not_nil. by left.
  - unfold show_Z. destruct (n <? 0)%Z; [|by apply decimal_digits_plain].
    constructor; [done|]. by apply decimal_digits_plain.
Qed.

Lemma field_value f r v : field_render f r = Value v →
  plain_segment v
  ∨ (f = RepoFullName ∧ ∃ a b, v = a ++ "/" ++ b ∧ plain_segment a ∧ plain_segment b).
Proof.
  destruct f; cbn [field_render]; try (intros [-> ?]%substitution_value; by left).
  - destruct (split_once _ _) as [[a b]|]; [|intros [-> ?]%substitution_value; by left].
    destruct (substitution_of a) as [| |a'] eqn:Ea, (substitution_of b) as [| |b'] eqn:Eb; try done.
    intros [= <-]. right. apply substitution_value in Ea as [_ ?], Eb as [_ ?]. eauto 10.
  - destruct (forge_id _); [|done]. intros [= <-]. left. apply show_Z_plain.
Qed.

(** ** Layers accepted at startup always render to paths *)

Lemma canonical_segment_byte c : canonical_byte c = true → segment_byte c = true ∧ c ≠ "/"%char.
Proof. all_bytes c. Qed.

Lemma check_plain v : Forall (λ c, canonical_byte c = true) v →
  ∀ started t, path_check_from started (v ++ t) = path_check_from (started || negb (is_empty v)) t.
Proof.
  induction 1 as [|c v [Hc Hs]%canonical_segment_byte _ IH]; intros started t; cbn.
  - by rewrite orb_false_r.
  - rewrite bool_decide_eq_false_2 by done. rewrite Hc, IH. cbn. by rewrite orb_true_r.
Qed.

Lemma check_value f r v started t : field_render f r = Value v →
  path_check_from started (v ++ t) = path_check_from true t.
Proof.
  intros [[Hne Hv]|(_ & a & b & -> & [Hna Ha] & [Hnb Hb])]%field_value.
  - rewrite check_plain by done. destruct v; [done|]. by rewrite orb_true_r.
  - rewrite <- !app_assoc, check_plain by done. cbn [app path_check_from].
    rewrite bool_decide_eq_true_2 by done. destruct a; [done|]. rewrite orb_true_r. cbn [negb is_empty andb].
    change (path_check_from false (b ++ t) = path_check_from true t).
    rewrite check_plain by done. by destruct b.
Qed.

Lemma check_app l t t' :
  (∀ started, path_check_from started t = true → path_check_from started t' = true) →
  ∀ started, path_check_from started (l ++ t) = true → path_check_from started (l ++ t') = true.
Proof.
  intros Ht. induction l as [|c l IH]; intros started; [apply Ht|]. cbn.
  destruct (bool_decide _); rewrite !andb_true_iff; intros []; auto.
Qed.

Lemma build_app r layer : ∀ built,
  build r built layer = (λ t, built ++ t) <$> build r [] layer.
Proof.
  induction layer as [|[l|f] layer IH]; intros built; cbn [build].
  - cbn. by rewrite app_nil_r.
  - rewrite (IH (built ++ l)), (IH ([] ++ l)). destruct (build r [] layer); [|done].
    cbn. by rewrite app_assoc.
  - destruct (field_render f r) as [| |v]; [done..|]. rewrite (IH (built ++ v)), (IH ([] ++ v)).
    destruct (build r [] layer); [|done]. cbn. by rewrite app_assoc.
Qed.

Lemma build_cons r x layer b :
  build r [] (x :: layer) = Some b →
  ∃ v t, build r [] layer = Some t ∧ b = v ++ t
    ∧ match x with Literal l => v = l | Placeholder f => field_render f r = Value v end.
Proof.
  destruct x as [l|f]; cbn [build].
  - rewrite build_app. destruct (build r [] layer) as [t|]; [|done]. cbn. intros [= <-]. eauto 10.
  - destruct (field_render f r) as [| |v]; [done..|]. rewrite build_app.
    destruct (build r [] layer) as [t|]; [|done]. cbn. intros [= <-]. eauto 10.
Qed.

Lemma build_checked r layer : ∀ t, build r [] layer = Some t →
  ∀ started, path_check_from started (probe layer) = true → path_check_from started t = true.
Proof.
  induction layer as [|x layer IH]; intros t Ht started; [by injection Ht as <-|].
  apply build_cons in Ht as (v & t' & Ht' & -> & Hx). destruct x as [l|f]; cbn [probe flat_map].
  - subst v. apply check_app. by apply IH.
  - rewrite (check_value f r v) by done. exact (IH t' Ht' true).
Qed.

Lemma build_absolute r layer : ∀ t, build r [] layer = Some t →
  starts_with (probe layer) "/" = true → starts_with t "/" = true.
Proof.
  induction layer as [|x layer IH]; intros t Ht; [by injection Ht as <-|].
  apply build_cons in Ht as (v & t' & Ht' & -> & Hx). destruct x as [[|c l]|f]; cbn [probe flat_map].
  - subst v. cbn. by apply IH.
  - subst v. unfold starts_with. cbn. by destruct (bool_decide _).
  - done.
Qed.

Lemma path_check_absolute s :
  path_check s = starts_with s "/" && path_check_from true s.
Proof.
  destruct s as [|c s]; [done|]. unfold starts_with. cbn.
  destruct (decide (c = "/"%char)) as [->|Hc]; [done|].
  by rewrite !bool_decide_eq_false_2 by congruence.
Qed.

Lemma parsed_layer_probe raw layer :
  parse_layer raw = Ok layer → path_check (probe layer) = true.
Proof.
  unfold parse_layer. destruct (_ || _); [done|]. intros (segs & _ & H)%and_then_ok.
  apply path_check_spec. destruct (Path.parse_operation (probe segs)) as [p|] eqn:E; [|done].
  injection H as <-. rewrite E. by apply Path.parse_operation_spec in E as [-> _].
Qed.

Lemma parsed_layer_renders raw layer r t :
  parse_layer raw = Ok layer → build r [] layer = Some t → Path.parse_operation t = Ok (mkPath t).
Proof.
  intros Hp%parsed_layer_probe Hb. apply path_check_spec. rewrite path_check_absolute in Hp |- *.
  apply andb_true_iff in Hp as [Ha Hc]. apply andb_true_iff. split.
  - by eapply build_absolute.
  - by eapply build_checked.
Qed.

Lemma zip_map_specs {A B C} (f : A → option C) (l : list A) (k : list B) :
  length l = length k → omap (λ '(a, _), f a) (zip l k) = omap f l.
Proof.
  revert k. induction l as [|a l IH]; intros [|b k]; try done. intros [= E]. cbn.
  rewrite <- (IH k E). done.
Qed.

(** A layer accepted at startup is never lost to the path grammar: for every
    request, the rendered paths are exactly the layers whose placeholders all
    have a value, in declared order, each with its placeholders replaced. *)
Theorem accepted_layers_render spec t r :
  parse spec = Ok t → render t r = omap (λ layer, mkPath <$> build r [] layer) (layers t).
Proof.
  unfold parse. intros (ls & Hls%map_result_ok & H)%and_then_ok.
  destruct (is_empty ls); [done|]. injection H as <-. unfold render. cbn [layers specs].
  rewrite (zip_map_specs (λ layer, built ← build r [] layer; ok (Path.parse_operation built)))
    by (symmetry; by eapply Forall2_length).
  induction Hls as [|raw layer raws ls Hl _ IH]; [done|]. cbn.
  destruct (build r [] layer) as [b|] eqn:E; cbn; [|exact IH].
  rewrite (parsed_layer_renders raw layer r b) by done. cbn. by f_equal.
Qed.

(** ** A rendered path tells whose it is *)

(** What a placeholder stands for, as the forge sent it. *)
Definition field_text (f : Field) (r : SecretsRequest) : bytes :=
  match f with
  | RepoOwner => owner (repo r)
  | RepoName => repo_name (repo r)
  | RepoFullName => full_name (repo r)
  | RepoForgeId => default [] (show_Z <$> forge_id (repo r))
  | PipelineBranch => branch (pipeline r)
  | PipelineEvent => event (pipeline r)
  end.

(** A value is the text itself, never a folding of it. *)
Lemma field_value_text f r v : field_render f r = Value v → v = field_text f r.
Proof.
  destruct f; cbn [field_render field_text]; try (by intros [-> _]%substitution_value).
  - destruct (split_once _ _) as [[a b]|] eqn:E; [|by intros [-> _]%substitution_value].
    apply split_once_spec in E as [-> _].
    destruct (substitution_of a) as [| |a'] eqn:Ea, (substitution_of b) as [| |b'] eqn:Eb; try done.
    intros [= <-]. apply substitution_value in Ea as [-> _], Eb as [-> _]. done.
  - destruct (forge_id _); [|done]. by intros [= <-].
Qed.

(** Every placeholder ends a segment of the path. *)
Fixpoint delimited (layer : list Segment) : bool :=
  match layer with
  | [] => true
  | Literal _ :: layer' => delimited layer'
  | Placeholder _ :: layer' =>
      match layer' with
      | [] => true
      | Literal (c :: _) :: _ => bool_decide (c = "/"%char)
      | _ => false
      end && delimited layer'
  end.

Definition slashes (s : bytes) : nat := length (List.filter (λ c, bool_decide (c = "/"%char)) s).

Lemma slashes_app a b : slashes (a ++ b) = slashes a + slashes b.
Proof. unfold slashes. by rewrite List.filter_app, length_app. Qed.

Lemma slashes_lower s : slashes (to_ascii_lowercase s) = slashes s.
Proof.
  unfold slashes, to_ascii_lowercase. induction s as [|c s IH]; [done|]. cbn.
  rewrite (bool_decide_ext (lower_byte c = "/"%char) (c = "/"%char)) by apply lower_byte_slash.
  destruct (bool_decide _); cbn; lia.
Qed.

Lemma slashes_plain v : plain_segment v → slashes v = 0.
Proof.
  intros [_ Hv]. unfold slashes. induction Hv as [|c v [_ Hc]%canonical_segment_byte _ IH]; [done|].
  cbn. by rewrite bool_decide_eq_false_2.
Qed.

(** How many separators the full name brings with it. *)
Definition inner (r : SecretsRequest) : nat :=
  match field_render RepoFullName r with Value v => slashes v | _ => 0 end.

Definition is_full (x : Segment) : bool := bool_decide (x = Placeholder RepoFullName).

Lemma slashes_build r layer : ∀ t, build r [] layer = Some t →
  slashes t = slashes (probe layer) + length (List.filter is_full layer) * inner r.
Proof.
  induction layer as [|x layer IH]; intros t Ht; [by injection Ht as <-|].
  apply build_cons in Ht as (v & t' & Ht' & -> & Hx). rewrite slashes_app, (IH t' Ht').
  destruct x as [l|f]; cbn [probe flat_map List.filter].
  - subst v. rewrite slashes_app. unfold is_full at 2. rewrite bool_decide_eq_false_2 by done.
    fold (probe layer). lia.
  - fold (probe layer). rewrite slashes_app. change (slashes FIELD_PROBE) with 0. unfold is_full at 2.
    destruct (decide (f = RepoFullName)) as [->|Hf].
    + rewrite bool_decide_eq_true_2 by done. cbn [length].
      assert (inner r = slashes v) as -> by (unfold inner; by rewrite Hx). lia.
    + rewrite bool_decide_eq_false_2 by congruence.
      apply field_value in Hx as [Hv|[? _]]; [|done]. rewrite (slashes_plain v Hv). lia.
Qed.

(** What follows a segment: nothing, or its separator. *)
Definition ended (u : bytes) : Prop := u = [] ∨ ∃ u', u = "/"%char :: u'.

Lemma segment_unique v1 v2 u1 u2 :
  plain_segment v1 → plain_segment v2 → ended u1 → ended u2 → v1 ++ u1 = v2 ++ u2 → v1 = v2 ∧ u1 = u2.
Proof.
  intros [_ H1] [_ H2] He1 He2. revert v2 H2.
  induction H1 as [|c v1 [_ Hc]%canonical_segment_byte _ IH]; intros v2 H2 E.
  - destruct H2 as [|d v2 [_ Hd]%canonical_segment_byte _]; [done|].
    destruct He1 as [-> |[u1' ->]]; by simplify_eq/=.
  - destruct H2 as [|d v2 _ Hv2]; [destruct He2 as [-> |[u2' ->]]; by simplify_eq/=|].
    injection E as -> E. destruct (IH v2 Hv2 E) as [-> ->]. done.
Qed.

Lemma value_unique f r1 r2 v1 v2 u1 u2 :
  field_render f r1 = Value v1 → field_render f r2 = Value v2 → slashes v1 = slashes v2 →
  ended u1 → ended u2 → v1 ++ u1 = v2 ++ u2 → v1 = v2 ∧ u1 = u2.
Proof.
  intros H1%field_value H2%field_value Hs He1 He2 E.
  destruct H1 as [H1|(_ & a1 & b1 & -> & Ha1 & Hb1)], H2 as [H2|(_ & a2 & b2 & -> & Ha2 & Hb2)].
  - by apply segment_unique.
  - exfalso. rewrite !slashes_app, (slashes_plain v1 H1) in Hs.
    change (slashes "/") with 1 in Hs. lia.
  - exfalso. rewrite !slashes_app, (slashes_plain v2 H2) in Hs.
    change (slashes "/") with 1 in Hs. lia.
  - rewrite <- !app_assoc in E. apply segment_unique in E as [-> E]; [|done|done|right; by eexists|right; by eexists].
    injection E as E. apply segment_unique in E as [-> ->]; done.
Qed.

Lemma plain_lower v : Forall (λ c, canonical_byte c = true) v → to_ascii_lowercase v = v.
Proof.
  induction 1 as [|c v Hc _ IH]; [done|]. cbn. f_equal; [|exact IH]. revert Hc. all_bytes c.
Qed.

Lemma value_lower f r v : field_render f r = Value v → to_ascii_lowercase v = v.
Proof.
  intros [[_ H]|(_ & a & b & -> & [_ Ha] & [_ Hb])]%field_value; [by apply plain_lower|].
  by rewrite !to_ascii_lowercase_app, (plain_lower a), (plain_lower b) by done.
Qed.

Lemma build_ended r layer t :
  match layer with
  | [] => true
  | Literal (c :: _) :: _ => bool_decide (c = "/"%char)
  | _ => false
  end = true → build r [] layer = Some t → ended (to_ascii_lowercase t).
Proof.
  destruct layer as [|[[|c l]|f] layer]; try done.
  - intros _ [= <-]. by left.
  - intros ->%bool_decide_eq_true (v & t' & _ & -> & ->)%build_cons. right. by eexists.
Qed.

Lemma same_values r1 r2 layer : delimited layer = true →
  (Placeholder RepoFullName ∈ layer → inner r1 = inner r2) →
  ∀ t1 t2, build r1 [] layer = Some t1 → build r2 [] layer = Some t2 →
  to_ascii_lowercase t1 = to_ascii_lowercase t2 →
  ∀ f, Placeholder f ∈ layer → field_render f r1 = field_render f r2.
Proof.
  induction layer as [|x layer IH]; [by intros _ _ ???? ? f ?%not_elem_of_nil|].
  intros Hd Hin t1 t2 Ht1 Ht2 E f Hf.
  apply build_cons in Ht1 as (v1 & t1' & Ht1 & -> & Hv1), Ht2 as (v2 & t2' & Ht2 & -> & Hv2).
  rewrite !to_ascii_lowercase_app in E.
  assert (Placeholder RepoFullName ∈ layer → inner r1 = inner r2) as Hin' by (intros; apply Hin; by right).
  destruct x as [l|g].
  - subst v1 v2. apply app_inv_head in E. apply elem_of_cons in Hf as [|Hf]; [done|].
    by eapply (IH Hd Hin' t1' t2').
  - cbn [delimited] in Hd. apply andb_true_iff in Hd as [He Hd].
    rewrite (value_lower g r1 v1 Hv1), (value_lower g r2 v2 Hv2) in E.
    apply (value_unique g r1 r2) in E as [<- E]; [|done|done| |by eapply build_ended|by eapply build_ended].
    + apply elem_of_cons in Hf as [[= ->]|Hf]; [congruence|]. by eapply (IH Hd Hin' t1' t2').
    + destruct (decide (g = RepoFullName)) as [->|Hg].
      * specialize (Hin (list_elem_of_here _ _)). unfold inner in Hin. by rewrite Hv1, Hv2 in Hin.
      * apply field_value in Hv1 as [H1|[? _]], Hv2 as [H2|[? _]]; try done.
        by rewrite !slashes_plain.
Qed.

(** The path rendered from a layer whose placeholders each end a path segment
    determines, even up to the case folding of the store, everything the layer
    took from the request: no two requests that differ in a value the layer
    names are given the same path. *)
Theorem rendered_path_determines_metadata layer r1 r2 t1 t2 :
  delimited layer = true → build r1 [] layer = Some t1 → build r2 [] layer = Some t2 →
  Path.fold (mkPath t1) = Path.fold (mkPath t2) →
  ∀ f, Placeholder f ∈ layer → field_text f r1 = field_text f r2.
Proof.
  intros Hd Ht1 Ht2 E f Hf. unfold Path.fold in E. cbn [path] in E.
  assert (field_render f r1 = field_render f r2) as Hr.
  { eapply same_values; [exact Hd| |exact Ht1|exact Ht2|exact E|exact Hf]. intros Hfull.
    apply (f_equal slashes) in E. rewrite !slashes_lower, (slashes_build r1 _ _ Ht1), (slashes_build r2 _ _ Ht2) in E.
    assert (Placeholder RepoFullName ∈ List.filter is_full layer) as Hk.
    { apply list_elem_of_In, filter_In. split; [by apply list_elem_of_In|done]. }
    destruct (List.filter is_full layer) as [|? k]; [by apply not_elem_of_nil in Hk|]. cbn [length] in E. nia. }
  clear E. revert t1 t2 Ht1 Ht2 Hr Hf. clear Hd. induction layer as [|x layer IH]; [by intros ????? ?%not_elem_of_nil|].
  intros t1 t2 (v1 & t1' & Ht1 & _ & Hv1)%build_cons (v2 & t2' & Ht2 & _ & Hv2)%build_cons Hr Hf.
  apply elem_of_cons in Hf as [<-|Hf]; [|by eapply IH]. cbn in Hv1, Hv2.
  rewrite <- (field_value_text f r1 v1 Hv1), <- (field_value_text f r2 v2 Hv2). congruence.
Qed.

(** ** Parsing keeps the text *)

Definition field_name (f : Field) : bytes :=
  match f with
  | RepoOwner => "repo.owner"
  | RepoName => "repo.name"
  | RepoFullName => "repo.full_name"
  | RepoForgeId => "repo.forge_id"
  | PipelineBranch => "pipeline.branch"
  | PipelineEvent => "pipeline.event"
  end.

Definition written (layer : list Segment) : bytes :=
  flat_map (λ x, match x with Literal l => l | Placeholder f => "{" ++ field_name f ++ "}" end) layer.

Lemma field_parse_name s f : field_parse s = Some f ↔ s = field_name f.
Proof.
  split; [|intros ->; by destruct f].
  unfold field_parse. repeat case_bool_decide; subst; intros; by simplify_eq.
Qed.

Lemma written_app a b : written (a ++ b) = written a ++ written b.
Proof. apply flat_map_app. Qed.

Lemma written_push l segs : written (push_literal l segs) = written segs ++ l.
Proof.
  unfold push_literal. destruct l; cbn [is_empty]; [by rewrite app_nil_r|].
  rewrite written_app. cbn. by rewrite app_nil_r.
Qed.

Lemma scan_written fuel raw : ∀ segs rest layer,
  scan fuel raw segs rest = Ok layer → written layer = written segs ++ rest.
Proof.
  induction fuel as [|fuel IH]; intros segs rest layer; [done|]. cbn [scan].
  destruct (split_once "{"%char rest) as [[l after_]|] eqn:E.
  - apply split_once_spec in E as [-> _]. intros ([name rest'] & Hc & H)%and_then_ok.
    apply and_then_ok in H as (f & Hf & H). cbn [fst snd] in *.
    destruct (split_once "}"%char after_) as [[? ?]|] eqn:E; [|done]. injection Hc as -> ->.
    destruct (field_parse name) as [f'|] eqn:Ef; [|done]. injection Hf as ->.
    apply split_once_spec in E as [-> _]. apply field_parse_name in Ef as ->.
    rewrite (IH _ _ _ H), written_app, written_push. cbn.
    rewrite app_nil_r, <- !app_assoc. cbn. by rewrite <- app_assoc.
  - destruct (contains_byte _ _); [done|]. intros [= <-]. apply written_push.
Qed.

(** The fuel of the loop is never the reason for a refusal. *)
Lemma scan_fuel raw : ∀ fuel fuel' segs rest,
  length rest < fuel → length rest < fuel' → scan fuel raw segs rest = scan fuel' raw segs rest.
Proof.
  induction fuel as [|fuel IH]; intros [|fuel'] segs rest H H'; [lia..|]. cbn [scan].
  destruct (split_once "{"%char rest) as [[l after_]|] eqn:E; [|done].
  apply split_once_spec in E as [-> _]. rewrite length_app in *. cbn [length] in *.
  destruct (split_once "}"%char after_) as [[name rest']|] eqn:E; [|done]. cbn [ok_or and_then fst snd].
  destruct (field_parse name); [|done]. cbn [ok_or and_then].
  apply split_once_spec in E as [-> _]. rewrite length_app in *. cbn [length] in *. apply IH; lia.
Qed.

(** A layer reads as it was written, placeholder by placeholder. *)
Theorem parsed_layer_is_written raw layer : parse_layer raw = Ok layer → written layer = raw.
Proof.
  unfold parse_layer. destruct (_ || _); [done|]. intros (segs & Hs & H)%and_then_ok.
  destruct (Path.parse_operation _); [|done]. injection H as <-. by apply scan_written in Hs.
Qed.

(** ** At a sample *)

Definition request_of (o n : bytes) : SecretsRequest :=
  mkRequest (mkRepo o n (o ++ "/" ++ n) (Some 7%Z)) (mkPipeline "main" "push").

Definition sample_spec : bytes :=
  "/woodpecker/shared, /woodpecker/repos/{repo.owner}/{repo.name}".

Definition sample_templates : LayerTemplates :=
  match parse sample_spec with Ok t => t | Err _ => mkTemplates [] [] end.
Definition sample_layer : list Segment := default [] (last (layers sample_templates)).

Lemma accepted_layers_render_witness :
  render sample_templates (request_of "ada" "engine")
  = [mkPath "/woodpecker/shared"; mkPath "/woodpecker/repos/ada/engine"].
Proof.
  rewrite (accepted_layers_render sample_spec sample_templates (request_of "ada" "engine"));
    vm_compute; reflexivity.
Defined.

Lemma rendered_path_determines_metadata_witness :
  field_text RepoOwner (request_of "ada" "engine")
  = field_text RepoOwner (mkRequest (mkRepo "ada" "engine" [] None) (mkPipeline [] [])).
Proof.
  apply (rendered_path_determines_metadata sample_layer (request_of "ada" "engine")
    (mkRequest (mkRepo "ada" "engine" [] None) (mkPipeline [] []))
    "/woodpecker/repos/ada/engine" "/woodpecker/repos/ada/engine");
    [vm_compute; reflexivity..|].
  apply (bool_decide_unpack (Placeholder RepoOwner ∈ sample_layer)). vm_compute. exact I.
Defined.

(** Two placeholders in one segment are accepted, and then two repositories can
    be given one path. *)
Example adjacent_placeholders_collide :
  match parse "/ci/{repo.owner}-{repo.name}" with
  | Ok t => render t (request_of "a" "b-c") = render t (request_of "a-b" "c")
            ∧ render t (request_of "a" "b-c") = [mkPath "/ci/a-b-c"]
  | Err _ => False
  end.
Proof. vm_compute. done. Qed.

End Templates.
