(* ===== verification/BrokerSignature.v ===== *)
(** * Verifying the broker's requests

    Models [crates/sovereign-config-woodpecker-broker/src/signature.rs]: the
    verifier for the one signature profile Woodpecker uses.  The signature
    primitive and the HTTP header type are parameters. *)

From stdpp Require Import strings.
From S2P Require Import Prelude Bytes ConfigPath Core Encryption Rpc AuditQuery.

Local Open Scope bytes_scope.

(** [ed25519_dalek]: reading a public key and checking a signature with it; and
    [HeaderValue::to_str], which admits visible ASCII only. *)
Class SignatureCrates := {
  from_public_key_pem : bytes → option bytes;
  verify_strict : bytes → bytes → bytes → bool;
  to_str : bytes → option bytes }.

Definition visible_ascii (c : ascii) : bool :=
  ((32 <=? code c) && (code c <? 127))%Z || (code c =? 9)%Z.

Class SignatureLaws `{SignatureCrates} : Prop := {
  to_str_visible v s : to_str v = Some s ↔ s = v ∧ Forall (λ c, visible_ascii c = true) v }.

Module Signature.

(** A double quote and a newline. *)
Definition DQ : ascii := "034"%char.
Definition NL : ascii := "010"%char.
Definition quote (s : bytes) : bytes := [DQ] ++ s ++ [DQ].

Definition SIGNATURE_LABEL : bytes := "woodpecker-ci-extensions".
Definition COVERED_COMPONENTS : bytes :=
  "(" ++ quote "@request-target" ++ " " ++ quote "content-digest" ++ ")".
(** Seconds. *)
Definition NOT_NEWER_THAN : Z := 2.
Definition NOT_OLDER_THAN : Z := 10.

Inductive SignatureError :=
| MissingHeaders | NotAscii | UnknownLabel | MalformedInput | UnexpectedComponents
| UnsupportedAlgorithm | CreatedOutOfRange | MissingDigest | MalformedDigest | DigestMismatch
| BadSignature.
#[global] Instance SignatureError_eq_dec : EqDecision SignatureError.
Proof. solve_decision. Defined.

Definition reason (e : SignatureError) : bytes :=
  match e with
  | MissingHeaders => "missing_headers"
  | NotAscii => "not_ascii"
  | UnknownLabel => "unknown_label"
  | MalformedInput => "malformed_input"
  | UnexpectedComponents => "unexpected_components"
  | UnsupportedAlgorithm => "unsupported_algorithm"
  | CreatedOutOfRange => "created_out_of_range"
  | MissingDigest => "missing_digest"
  | MalformedDigest => "malformed_digest"
  | DigestMismatch => "digest_mismatch"
  | BadSignature => "bad_signature"
  end.

Inductive KeyError := Malformed.

Record SignatureVerifier := mkVerifier { key : bytes }.

(** A header map: names in lower case, values as received. *)
Definition Headers : Type := list (bytes * bytes).
Definition get_all (headers : Headers) (name : bytes) : list bytes :=
  List.map snd (List.filter (λ h, bool_decide (h.1 = name)) headers).

(** ** Helpers of the standard library *)

Definition U64_MAX : Z := 18446744073709551615.

(** [str::parse::<u64>] *)
Definition parse_u64 (s : bytes) : option Z :=
  let digits := match s with "+"%char :: rest => rest | _ => s end in
  if is_empty digits then None
  else n ← Audit.parse_digits 0 digits; if (n <=? U64_MAX)%Z then Some n else None.

Definition strip_suffix (p s : bytes) : option bytes := List.rev (A:=ascii) <$> strip_prefix (rev p) (rev s).

(** [str::trim_matches] of one character. *)
Definition trim_matches (c : ascii) (s : bytes) : bytes := trim_end_matches c (trim_start_matches c s).

Definition saturating_add (a b : Z) : Z := Z.min (a + b) U64_MAX.
Definition saturating_sub (a b : Z) : Z := Z.max (a - b) 0.

(** ** Reading the headers *)

(** The loop of [dictionary_entry]: [current] is the member being read. *)
Fixpoint split_members (members : list bytes) (current : bytes) (quoted : bool) (depth : nat)
    (s : bytes) : result (list bytes) SignatureError :=
  match s with
  | [] =>
      if quoted || negb (depth =? 0)%nat then Err MalformedInput else Ok (members ++ [current])
  | c :: s' =>
      if bool_decide (c = DQ) then split_members members (current ++ [c]) (negb quoted) depth s'
      else if bool_decide (c = "("%char) && negb quoted
      then split_members members (current ++ [c]) quoted (S depth) s'
      else if bool_decide (c = ")"%char) && negb quoted
      then match depth with
           | O => Err MalformedInput
           | S depth' => split_members members (current ++ [c]) quoted depth' s'
           end
      else if bool_decide (c = ","%char) && negb quoted && (depth =? 0)%nat
      then split_members (members ++ [current]) [] quoted depth s'
      else split_members members (current ++ [c]) quoted depth s'
  end.

Definition dictionary_entry (value label : bytes) : result bytes SignatureError :=
  let? members := split_members [] [] false 0 value in
  match members with
  | [member] =>
      let? parts := ok_or (split_once "="%char (trim member)) MalformedInput in
      if bool_decide (trim parts.1 = label) then Ok (trim parts.2) else Err UnknownLabel
  | _ => Err MalformedInput
  end.

(** What the loop of [validate_params] collects. *)
Record Params := mkParams { created : option Z; algorithm : option bytes; expires : option Z }.

Definition parameter (acc : Params) (text : bytes) : result Params SignatureError :=
  let text := trim text in
  if is_empty text then Ok acc
  else
  let? parts := ok_or (split_once "="%char text) MalformedInput in
  let name := trim parts.1 in
  let value := trim parts.2 in
  if bool_decide (name = "created") then
    let? n := ok_or (parse_u64 value) MalformedInput in
    Ok (mkParams (Some n) (algorithm acc) (expires acc))
  else if bool_decide (name = "expires") then
    let? n := ok_or (parse_u64 value) MalformedInput in
    Ok (mkParams (created acc) (algorithm acc) (Some n))
  else if bool_decide (name = "alg") then
    Ok (mkParams (created acc) (Some (trim_matches DQ value)) (expires acc))
  else if bool_decide (name = "keyid") then
    if bool_decide (trim_matches DQ value = SIGNATURE_LABEL) then Ok acc else Err UnknownLabel
  else if bool_decide (name = "nonce") || bool_decide (name = "tag") then Ok acc
  else Err MalformedInput.

Fixpoint parameters (acc : Params) (texts : list bytes) : result Params SignatureError :=
  match texts with
  | [] => Ok acc
  | text :: texts' => let? acc := parameter acc text in parameters acc texts'
  end.

(** [now] is in nanoseconds since the epoch. *)
Definition validate_params (params : bytes) (now : Z) : result unit SignatureError :=
  let? rest := ok_or (strip_prefix COVERED_COMPONENTS params) UnexpectedComponents in
  let? read := parameters (mkParams None None None) (split ";"%char rest) in
  if negb (bool_decide (algorithm read = Some ("ed25519" : bytes))) then Err UnsupportedAlgorithm
  else
  let? created := ok_or (created read) MalformedInput in
  if (now <? 0)%Z then Err CreatedOutOfRange
  else
  let now_secs := (now / Stamps.NANOS)%Z in
  let newest := saturating_add now_secs NOT_NEWER_THAN in
  let oldest := saturating_sub now_secs NOT_OLDER_THAN in
  if (newest <? created)%Z || (created <? oldest)%Z then Err CreatedOutOfRange
  else if match expires read with Some e => (e <? now_secs)%Z | None => false end
  then Err CreatedOutOfRange
  else Ok tt.

Section verifier.
Context `{SignatureCrates} `{Crypto}.

Definition from_spki_pem (pem : bytes) : result SignatureVerifier KeyError :=
  match from_public_key_pem pem with Some key => Ok (mkVerifier key) | None => Err Malformed end.

Definition single_header (headers : Headers) (name : bytes) : result bytes SignatureError :=
  match get_all headers name with
  | [] => Err MissingHeaders
  | [value] => ok_or (to_str value) NotAscii
  | _ => Err MalformedInput
  end.

Definition decode_byte_sequence (value : bytes) : option bytes :=
  inner ← strip_prefix ":" (trim value) ≫= strip_suffix ":"; b64_decode inner.

(** The loop of [verify_digest] over the members. *)
Fixpoint digest_members (actual : bytes) (checked : bool) (members : list bytes)
  : result unit SignatureError :=
  match members with
  | [] => if checked then Ok tt else Err MalformedDigest
  | member :: members' =>
      match split_once "="%char (trim member) with
      | None => Err MalformedDigest
      | Some (algorithm, value) =>
          if negb (bool_decide (trim algorithm = "sha-256")) then digest_members actual checked members'
          else
            let? expected := ok_or (decode_byte_sequence (trim value)) MalformedDigest in
            if bool_decide (actual = expected) then digest_members actual true members'
            else Err DigestMismatch
      end
  end.

Definition verify_digest (header body : bytes) : result unit SignatureError :=
  digest_members (sha256 body) false (split ","%char header).

(** The signature base: one line per component. *)
Definition signature_base (request_target digest params : bytes) : bytes :=
  quote "@request-target" ++ ": " ++ request_target ++ [NL]
  ++ quote "content-digest" ++ ": " ++ trim digest ++ [NL]
  ++ quote "@signature-params" ++ ": " ++ params.

Definition verify (self : SignatureVerifier) (request_target : bytes) (headers : Headers)
    (body : bytes) (now : Z) : result unit SignatureError :=
  let? input := single_header headers "signature-input" in
  let? signature := single_header headers "signature" in
  let? params := dictionary_entry input SIGNATURE_LABEL in
  let? _ := validate_params params now in
  let? digest := map_err (single_header headers "content-digest")
    (λ e, match e with MissingHeaders => MissingDigest | other => other end) in
  let? _ := verify_digest digest body in
  let? raw_signature := dictionary_entry signature SIGNATURE_LABEL in
  let? bytes_ := ok_or (decode_byte_sequence raw_signature) MalformedInput in
  if negb (length bytes_ =? 64)%nat then Err MalformedInput
  else if verify_strict (key self) (signature_base request_target digest params) bytes_
  then Ok tt else Err BadSignature.
End verifier.

End Signature.
