(* ===== verification/BrokerSigned.v ===== *)
(** * Only requests that were signed are accepted

    Proofs over [BrokerSignature.v]: what the verifier accepts is a request the
    holder of the signing key sent, target and body, within the last seconds;
    and every request Woodpecker signs is accepted in that time. *)

From stdpp Require Import strings.
From S2P Require Import Prelude Bytes ConfigPath Core Encryption Rpc AuditQuery AuditPages BrokerSignature.

Local Open Scope bytes_scope.

Module Signed.
Import Signature.

(** ** Trimming ASCII text *)

Definition space (c : ascii) : bool := char_is_whitespace (code c).

Definition trim_bytes (s : bytes) : bytes := rev (drop_while space (rev (drop_while space s))).

Lemma chars_ascii s : Forall (λ c, is_ascii c = true) s → chars s = List.map code s.
Proof.
  induction 1 as [|c s Hc _ IH]; [done|]. cbn [chars]. unfold is_ascii in Hc. rewrite Hc. cbn. by f_equal.
Qed.

Lemma collect_codes s : Forall (λ c, is_ascii c = true) s → collect (List.map code s) = s.
Proof.
  induction 1 as [|c s Hc _ IH]; [done|]. cbn. fold (collect (List.map code s)). rewrite IH.
  unfold encode_char. unfold is_ascii in Hc. rewrite Hc. cbn. f_equal. clear. all_bytes c.
Qed.

Lemma drop_while_map {A B} (f : B → bool) (g : A → B) l :
  drop_while f (List.map g l) = List.map g (drop_while (λ a, f (g a)) l).
Proof. induction l as [|a l IH]; [done|]. cbn. by destruct (f (g a)). Qed.

Lemma drop_while_suffix {A} (f : A → bool) l : ∃ w, l = w ++ drop_while f l ∧ Forall (λ a, f a = true) w.
Proof.
  induction l as [|a l (w & E & Hw)]; [by exists []|]. cbn. destruct (f a) eqn:Ea; [|by exists []].
  exists (a :: w). split; [cbn; by rewrite <- E|by constructor].
Qed.

Lemma drop_while_app_all {A} (f : A → bool) w l :
  Forall (λ a, f a = true) w → drop_while f (w ++ l) = drop_while f l.
Proof. induction 1 as [|a w Ha _ IH]; [done|]. cbn. by rewrite Ha. Qed.

Lemma drop_while_app_some {A} (f : A → bool) l w :
  drop_while f l ≠ [] → drop_while f (l ++ w) = drop_while f l ++ w.
Proof. induction l as [|a l IH]; [done|]. cbn. destruct (f a); auto. Qed.

Lemma drop_while_nil {A} (f : A → bool) l : drop_while f l = [] ↔ Forall (λ a, f a = true) l.
Proof.
  induction l as [|a l IH]; [done|]. cbn. rewrite Forall_cons. destruct (f a) eqn:E; [|by split; [|intros []]].
  rewrite IH. naive_solver.
Qed.

Lemma drop_while_Forall {A} (P : A → Prop) (f : A → bool) l : Forall P l → Forall P (drop_while f l).
Proof.
  destruct (drop_while_suffix f l) as (w & E & _). rewrite E at 1. by intros [_ ?]%Forall_app.
Qed.

Lemma trim_ascii s : Forall (λ c, is_ascii c = true) s → trim s = trim_bytes s.
Proof.
  intros Hs. unfold trim, trim_chars. rewrite chars_ascii by done.
  rewrite drop_while_map, <- map_rev, drop_while_map, <- map_rev. apply collect_codes.
  by apply Forall_rev, drop_while_Forall, Forall_rev, drop_while_Forall.
Qed.

Lemma trim_bytes_left w s : Forall (λ c, space c = true) w → trim_bytes (w ++ s) = trim_bytes s.
Proof. intros Hw. unfold trim_bytes. by rewrite drop_while_app_all. Qed.

Lemma trim_bytes_right w s : Forall (λ c, space c = true) w → trim_bytes (s ++ w) = trim_bytes s.
Proof.
  intros Hw. unfold trim_bytes. destruct (drop_while space s) eqn:E.
  - apply drop_while_nil in E as Hs. rewrite drop_while_app_all by done.
    by rewrite (proj2 (drop_while_nil space w) Hw).
  - rewrite drop_while_app_some, E by (by rewrite E). rewrite rev_app_distr.
    by rewrite drop_while_app_all by by apply Forall_rev.
Qed.

Lemma trim_bytes_split s :
  ∃ w1 w2, s = w1 ++ trim_bytes s ++ w2
    ∧ Forall (λ c, space c = true) w1 ∧ Forall (λ c, space c = true) w2.
Proof.
  destruct (drop_while_suffix space s) as (w1 & E1 & H1).
  destruct (drop_while_suffix space (rev (drop_while space s))) as (w2 & E2 & H2).
  exists w1, (rev w2). split; [|split; [done|by apply Forall_rev]].
  unfold trim_bytes. rewrite <- rev_app_distr, <- E2, rev_involutive. exact E1.
Qed.

Lemma trim_bytes_id c s d : space c = false → space d = false → trim_bytes (c :: s ++ [d]) = c :: s ++ [d].
Proof.
  intros Hc Hd. unfold trim_bytes. cbn [drop_while]. rewrite Hc.
  change (c :: s ++ [d]) with ((c :: s) ++ [d]). rewrite rev_app_distr. cbn [rev app drop_while].
  rewrite Hd. cbn [rev]. by rewrite rev_app_distr, rev_involutive.
Qed.

(** ** The text of a header *)

Definition visible (s : bytes) : Prop := Forall (λ c, visible_ascii c = true) s.

Lemma visible_byte c : visible_ascii c = true → is_ascii c = true ∧ c ≠ NL.
Proof. all_bytes c. Qed.

Lemma visible_ascii_all s : visible s → Forall (λ c, is_ascii c = true) s.
Proof. intros Hs. eapply Forall_impl; [exact Hs|]. intros c Hc. by apply visible_byte. Qed.

Lemma visible_trim s : visible s → trim s = trim_bytes s.
Proof. intros. by apply trim_ascii, visible_ascii_all. Qed.

Lemma visible_one_line s : visible s → NL ∉ s.
Proof.
  intros Hs Hin. unfold visible in Hs. rewrite Forall_forall in Hs. apply Hs, visible_byte in Hin. naive_solver.
Qed.

Lemma visible_trimmed s : visible s → visible (trim s).
Proof.
  intros Hs. rewrite visible_trim by done. destruct (trim_bytes_split s) as (w1 & w2 & E & _).
  unfold visible in Hs. rewrite E in Hs. by apply Forall_app in Hs as [_ [? _]%Forall_app].
Qed.

Lemma split_prefix c w s : c ∉ w →
  ∃ p ps, split c s = p :: ps ∧ split c (w ++ s) = (w ++ p) :: ps.
Proof.
  intros Hw. induction w as [|d w IH].
  - destruct (split c s) as [|p ps] eqn:E; [by apply split_not_nil in E|]. exists p, ps. cbn. by rewrite E.
  - apply not_elem_of_cons in Hw as [Hd Hw]. destruct (IH Hw) as (p & ps & E & E').
    exists p, ps. split; [done|]. cbn [app split]. rewrite bool_decide_eq_false_2 by congruence. by rewrite E'.
Qed.

Lemma split_suffix c w s : c ∉ w →
  ∃ ps p, split c s = ps ++ [p] ∧ split c (s ++ w) = ps ++ [p ++ w].
Proof.
  intros Hw. induction s as [|d s (ps & p & E & E')].
  - exists [], []. cbn. by rewrite split_free.
  - cbn [app split]. rewrite E, E'. destruct (bool_decide (d = c)); [by exists ([] :: ps), p|].
    destruct ps as [|q ps]; cbn; [by exists [], (d :: p)|by exists ((d :: q) :: ps), p].
Qed.

Lemma space_no_comma w : Forall (λ c, space c = true) w → ","%char ∉ w.
Proof. intros Hw Hin. rewrite Forall_forall in Hw. by apply Hw in Hin. Qed.

Lemma split_visible c s p : visible s → p ∈ split c s → visible p.
Proof.
  intros Hs Hp. revert p Hp. induction Hs as [|d s Hd Hs IH]; intros p Hp.
  - apply list_elem_of_singleton in Hp as ->. constructor.
  - cbn in Hp. destruct (bool_decide _).
    + apply elem_of_cons in Hp as [->|Hp]; [constructor|by apply IH].
    + destruct (split c s) as [|q qs]; [apply list_elem_of_singleton in Hp as ->; by repeat constructor|].
      apply elem_of_cons in Hp as [->|Hp]; [|apply IH; by right].
      constructor; [done|]. apply IH. by left.
Qed.

(** The members of a trimmed header are the same up to trimming. *)
Lemma trimmed_members d : visible d →
  Forall2 (λ a b, trim a = trim b) (split ","%char d) (split ","%char (trim d)).
Proof.
  intros Hd. pose proof (visible_trimmed d Hd) as Ht.
  assert (∀ l k, Forall2 (λ a b, trim_bytes a = trim_bytes b) l k →
    Forall visible l → Forall visible k → Forall2 (λ a b, trim a = trim b) l k) as Hlift.
  { intros l k Hlk. induction Hlk as [|a b l k Hab _ IH]; [constructor|].
    intros [Ha Hl]%Forall_cons [Hb Hk]%Forall_cons. constructor; [|by apply IH].
    by rewrite !visible_trim. }
  apply Hlift; [|apply Forall_forall; intros p Hp; by eapply split_visible; [|exact Hp]..].
  rewrite visible_trim in * by done. destruct (trim_bytes_split d) as (w1 & w2 & E & H1 & H2).
  set (t := trim_bytes d) in *. rewrite E. clearbody t.
  destruct (split_prefix ","%char w1 (t ++ w2)) as (p & ps & E1 & ->); [by apply space_no_comma|].
  destruct (split_suffix ","%char w2 t) as (qs & q & E2 & E3); [by apply space_no_comma|].
  rewrite E2. rewrite E3 in E1. destruct qs as [|q' qs]; cbn in E1; injection E1 as <- <-; cbn.
  - repeat constructor. by rewrite trim_bytes_left, trim_bytes_right.
  - constructor; [by rewrite trim_bytes_left|]. apply Forall2_app; [|repeat constructor; by rewrite trim_bytes_right].
    clear. induction qs; constructor; auto.
Qed.

(** ** What Woodpecker sends *)

Lemma line_unique a1 a2 b1 b2 :
  NL ∉ a1 → NL ∉ a2 → a1 ++ NL :: b1 = a2 ++ NL :: b2 → a1 = a2 ∧ b1 = b2.
Proof.
  intros H1 H2 E. assert (split_once NL (a1 ++ NL :: b1) = Some (a1, b1)) as E1 by by apply split_once_spec.
  assert (split_once NL (a2 ++ NL :: b2) = Some (a2, b2)) as E2 by by apply split_once_spec.
  rewrite E, E2 in E1. by injection E1 as <- <-.
Qed.

Definition woodpecker_params (created : Z) : bytes :=
  COVERED_COMPONENTS ++ ";created=" ++ show_Z created ++ ";alg=" ++ quote "ed25519".

Lemma parse_u64_show n : (0 ≤ n ≤ U64_MAX)%Z → parse_u64 (show_Z n) = Some n.
Proof.
  intros Hn. unfold show_Z. rewrite (proj2 (Z.ltb_ge n 0)) by lia.
  destruct (Paging.decimal_head 19 n ltac:(lia)) as (c & s & Ec & Hc). unfold parse_u64.
  assert (match decimal_digits 20 n [] with "+"%char :: rest => rest | _ => decimal_digits 20 n [] end
          = decimal_digits 20 n []) as ->.
  { rewrite Ec. clear -Hc. destruct c as [[] [] [] [] [] [] [] []]; vm_compute in Hc; done. }
  rewrite Ec at 1. cbn [is_empty].
  rewrite Paging.parse_digits_decimal by (unfold U64_MAX in Hn; lia). cbn [mbind option_bind].
  by rewrite (proj2 (Z.leb_le n U64_MAX)) by lia.
Qed.

Definition word_byte (c : ascii) : bool :=
  is_ascii_alphanumeric c || bool_decide (c ∈ ["-"; "+"; "/"; "="; ":"]%char).

Lemma word_byte_facts c : word_byte c = true →
  visible_ascii c = true ∧ space c = false ∧ c ∉ [","; ";"; "("; ")"; DQ]%char.
Proof.
  intros Hc. split; [|split]; [revert Hc; all_bytes c..|].
  intros Hin. repeat (apply elem_of_cons in Hin as [->|Hin]; [done|]). by apply not_elem_of_nil in Hin.
Qed.

Definition word (s : bytes) : Prop := Forall (λ c, word_byte c = true) s.

Lemma word_visible s : word s → visible s.
Proof. intros Hs. eapply Forall_impl; [exact Hs|]. intros c Hc. by apply word_byte_facts. Qed.

Lemma word_free s c : word s → c ∈ [","; ";"; "("; ")"; DQ]%char → c ∉ s.
Proof.
  intros Hs Hc Hin. unfold word in Hs. rewrite Forall_forall in Hs. by apply Hs, word_byte_facts in Hin as (_ & _ & ?).
Qed.

Lemma trim_word s : word s → trim s = s.
Proof.
  intros Hs. rewrite visible_trim by by apply word_visible.
  destruct (trim_bytes_split s) as (w1 & w2 & E & H1 & H2).
  unfold word in Hs. rewrite E in Hs. apply Forall_app in Hs as [Hw1 [_ Hw2]%Forall_app].
  assert (∀ w, Forall (λ c, space c = true) w → Forall (λ c, word_byte c = true) w → w = []) as Hnil.
  { intros [|c w]; [done|]. intros [Hc _]%Forall_cons [Hc' _]%Forall_cons.
    apply word_byte_facts in Hc' as (_ & ? & _). congruence. }
  rewrite (Hnil w1), (Hnil w2), app_nil_r in E by done. symmetry. exact E.
Qed.

Lemma word_digits n : (0 ≤ n)%Z → word (show_Z n).
Proof.
  intros Hn. unfold show_Z. rewrite (proj2 (Z.ltb_ge n 0)) by lia.
  eapply Forall_impl; [by apply Cipher.decimal_digits_digits|]. simpl. intros c Hc. unfold word_byte, is_ascii_alphanumeric.
  by rewrite Hc, orb_true_r.
Qed.

Lemma trim_quoted : trim ("alg=" ++ quote "ed25519") = "alg=" ++ quote "ed25519".
Proof. vm_compute. reflexivity. Qed.

(** The parameters Woodpecker sends are read as the instant and algorithm they
    state. *)
Lemma woodpecker_parameters c :
  (0 ≤ c ≤ U64_MAX)%Z →
  parameters (mkParams None None None)
    (split ";"%char (";created=" ++ show_Z c ++ ";alg=" ++ quote "ed25519"))
  = Ok (mkParams (Some c) (Some ("ed25519" : bytes)) None).
Proof.
  intros Hc. pose proof (word_digits c ltac:(lia)) as Hw.
  assert (word ("created=" ++ show_Z c)) as Hcw by (apply Forall_app; split; [by repeat constructor|done]).
  assert (split ";"%char (";created=" ++ show_Z c ++ ";alg=" ++ quote "ed25519")
          = [[]; "created=" ++ show_Z c; "alg=" ++ quote "ed25519"]) as ->.
  { change (";created=" ++ show_Z c ++ ";alg=" ++ quote "ed25519")
      with ([] ++ ";"%char :: (("created=" ++ show_Z c) ++ ";"%char :: ("alg=" ++ quote "ed25519"))) at 1.
    rewrite split_app by apply not_elem_of_nil. f_equal.
    rewrite split_app by (apply word_free; [done|by right; left]). f_equal. }
  assert (parameter (mkParams None None None) [] = Ok (mkParams None None None)) as H0 by reflexivity.
  assert (parameter (mkParams None None None) ("created=" ++ show_Z c) = Ok (mkParams (Some c) None None)) as H1.
  { unfold parameter. rewrite (trim_word ("created=" ++ show_Z c)) by done.
    change (is_empty ("created=" ++ show_Z c)) with false. cbv iota.
    assert (split_once "="%char ("created=" ++ show_Z c) = Some ("created" : bytes, show_Z c)) as ->
      by (apply split_once_spec; split; [done|]; apply (bool_decide_unpack (_ ∉ _)); vm_compute; exact I).
    cbn [ok_or and_then fst snd]. rewrite (trim_word "created") by (by repeat constructor).
    rewrite bool_decide_eq_true_2 by done. by rewrite (trim_word (show_Z c)), parse_u64_show by done. }
  cbn [parameters]. rewrite H0. cbn [and_then]. rewrite H1. cbn [and_then].
  unfold parameter. rewrite trim_quoted. vm_compute. reflexivity.
Qed.

Definition in_window (c now : Z) : Prop :=
  (0 ≤ now ∧ now / Stamps.NANOS - NOT_OLDER_THAN ≤ c ≤ now / Stamps.NANOS + NOT_NEWER_THAN)%Z.

Lemma woodpecker_validated c now :
  (0 ≤ c ≤ U64_MAX)%Z → validate_params (woodpecker_params c) now = Ok tt ↔ in_window c now.
Proof.
  intros Hc. unfold validate_params, woodpecker_params.
  rewrite (proj2 (strip_prefix_spec _ _ _) eq_refl). cbn [ok_or and_then].
  rewrite woodpecker_parameters by done. cbn [and_then algorithm created expires ok_or].
  rewrite bool_decide_eq_true_2 by done. cbn [negb]. unfold in_window, saturating_add, saturating_sub.
  destruct (Z.ltb_spec now 0); [split; [done|lia]|].
  destruct (_ || _) eqn:E.
  - split; [done|]. apply orb_true_iff in E. rewrite !Z.ltb_lt in E. intros [_ Hw]. lia.
  - split; [intros _|done]. apply orb_false_iff in E. rewrite !Z.ltb_ge in E. split; [done|]. lia.
Qed.

(** ** Reading one member *)

Lemma run_word w : word w → ∀ members current quoted depth t,
  split_members members current quoted depth (w ++ t) = split_members members (current ++ w) quoted depth t.
Proof.
  induction 1 as [|c w Hc Hw IH]; intros members current quoted depth t; [by rewrite app_nil_r|].
  apply word_byte_facts in Hc as (_ & _ & Hf). rewrite !not_elem_of_cons in Hf.
  destruct Hf as (? & ? & ? & ? & ? & _). cbn [app split_members].
  rewrite !bool_decide_eq_false_2 by done. cbn [andb]. rewrite IH, <- app_assoc. done.
Qed.

(** A byte that is not a delimiter, or any byte but a quote inside quotes. *)
Definition passes (quoted : bool) (c : ascii) : bool :=
  negb (bool_decide (c = DQ)) && (quoted || negb (bool_decide (c ∈ ["("; ")"; ","]%char))).

Lemma run_text w quoted : forallb (passes quoted) w = true → ∀ members current depth t,
  split_members members current quoted depth (w ++ t) = split_members members (current ++ w) quoted depth t.
Proof.
  induction w as [|c w IH]; intros Hw members current depth t; [by rewrite app_nil_r|].
  cbn [forallb] in Hw. apply andb_true_iff in Hw as [Hc Hw]. unfold passes in Hc.
  apply andb_true_iff in Hc as [Hq Hc]. apply negb_true_iff in Hq. cbn [app split_members]. rewrite Hq.
  assert ((bool_decide (c = "("%char) && negb quoted) = false
    ∧ (bool_decide (c = ")"%char) && negb quoted) = false
    ∧ (bool_decide (c = ","%char) && negb quoted) = false) as (-> & -> & ->).
  { destruct quoted; [by rewrite !andb_false_r|]. cbn in Hc. rewrite !andb_true_r.
    apply negb_true_iff, bool_decide_eq_false in Hc. rewrite !not_elem_of_cons in Hc.
    rewrite !bool_decide_eq_false_2 by naive_solver. done. }
  cbn [andb]. rewrite IH by done. by rewrite <- app_assoc.
Qed.

Lemma run_quoted w : forallb (passes true) w = true → ∀ members current depth t,
  split_members members current false depth (quote w ++ t)
  = split_members members (current ++ quote w) false depth t.
Proof.
  intros Hw members current depth t. unfold quote. rewrite <- !app_assoc.
  change (split_members members current false depth ([DQ] ++ w ++ [DQ] ++ t))
    with (split_members members (current ++ [DQ]) true depth (w ++ [DQ] ++ t)).
  rewrite run_text by done. rewrite <- app_assoc.
  change (split_members members (current ++ [DQ] ++ w) true depth ([DQ] ++ t))
    with (split_members members ((current ++ [DQ] ++ w) ++ [DQ]) false depth t).
  by rewrite <- !app_assoc.
Qed.

(** A member that is read whole. *)
Definition one_member (s : bytes) : Prop := split_members [] [] false 0 s = Ok [s].

Lemma word_member s : word s → one_member s.
Proof.
  intros Hs. unfold one_member. rewrite <- (app_nil_r s) at 1. by rewrite run_word by done.
Qed.

Definition input_prefix : bytes := SIGNATURE_LABEL ++ "=" ++ COVERED_COMPONENTS ++ ";created=".

Lemma run_prefix t : split_members [] [] false 0 (input_prefix ++ t) = split_members [] input_prefix false 0 t.
Proof. reflexivity. Qed.

Lemma input_member c : (0 ≤ c)%Z → one_member (SIGNATURE_LABEL ++ "=" ++ woodpecker_params c).
Proof.
  intros Hc%word_digits. unfold one_member.
  assert (SIGNATURE_LABEL ++ "=" ++ woodpecker_params c
          = input_prefix ++ show_Z c ++ ";alg=" ++ quote "ed25519" ++ []) as ->
    by (unfold woodpecker_params, input_prefix; by rewrite app_nil_r, <- !app_assoc).
  rewrite run_prefix, (run_word (show_Z c)) by done.
  rewrite (run_text ";alg="), run_quoted by reflexivity. cbn [split_members orb negb Nat.eqb].
  by rewrite app_nil_r, <- !app_assoc.
Qed.

Lemma trim_ends s c d : visible (c :: s ++ [d]) → space c = false → space d = false →
  trim (c :: s ++ [d]) = c :: s ++ [d].
Proof. intros. rewrite visible_trim by done. by apply trim_bytes_id. Qed.

Lemma params_visible c : (0 ≤ c)%Z → visible (woodpecker_params c).
Proof.
  intros Hc%word_digits. unfold woodpecker_params.
  repeat apply Forall_app_2; try by apply word_visible.
  all: apply forallb_Forall; vm_compute; reflexivity.
Qed.

(** The value of the one member, when its ends need no trimming. *)
Lemma member_value v :
  one_member (SIGNATURE_LABEL ++ "=" ++ v) → trim (SIGNATURE_LABEL ++ "=" ++ v) = SIGNATURE_LABEL ++ "=" ++ v →
  trim v = v → dictionary_entry (SIGNATURE_LABEL ++ "=" ++ v) SIGNATURE_LABEL = Ok v.
Proof.
  intros Hone Htrim Hv. unfold dictionary_entry. rewrite Hone. cbn [and_then]. rewrite Htrim.
  assert (split_once "="%char (SIGNATURE_LABEL ++ "=" ++ v) = Some (SIGNATURE_LABEL, v)) as ->
    by (apply split_once_spec; split; [done|]; apply (bool_decide_unpack (_ ∉ _)); vm_compute; exact I).
  cbn [ok_or and_then fst snd]. rewrite (trim_word SIGNATURE_LABEL) by (by repeat constructor).
  rewrite bool_decide_eq_true_2 by done. by rewrite Hv.
Qed.

Lemma input_value c : (0 ≤ c)%Z →
  dictionary_entry (SIGNATURE_LABEL ++ "=" ++ woodpecker_params c) SIGNATURE_LABEL = Ok (woodpecker_params c).
Proof.
  intros Hc. pose proof (params_visible c Hc) as Hv.
  assert (∃ s, woodpecker_params c = "("%char :: s ++ [DQ]) as [s E].
  { exists (quote "@request-target" ++ " " ++ quote "content-digest" ++ ")" ++ ";created=" ++ show_Z c
            ++ ";alg=" ++ [DQ] ++ "ed25519").
    unfold woodpecker_params, COVERED_COMPONENTS, quote. rewrite <- !app_assoc. reflexivity. }
  apply member_value.
  - by apply input_member.
  - rewrite E. change (SIGNATURE_LABEL ++ "=" ++ "("%char :: s ++ [DQ])
      with ("w"%char :: (tail SIGNATURE_LABEL ++ "=(" ++ s ++ [DQ])).
    rewrite !app_assoc. apply trim_ends; [|done..]. rewrite <- !app_assoc.
    change ("w"%char :: (tail SIGNATURE_LABEL ++ "=(" ++ s ++ [DQ]))
      with ((SIGNATURE_LABEL ++ "=") ++ ("("%char :: s ++ [DQ])). rewrite <- E.
    apply Forall_app_2; [apply forallb_Forall; vm_compute; reflexivity|done].
  - rewrite E in *. by apply trim_ends.
Qed.

Section signed.
Context `{SignatureLaws} `{Crypto} `{!CryptoLaws}.

Definition digest_header (body : bytes) : bytes := "sha-256=:" ++ b64_encode (sha256 body) ++ ":".

Lemma b64_word b : word (b64_encode b).
Proof.
  eapply Forall_impl; [apply b64_alphabet|]. simpl. intros c. unfold b64_char, word_byte.
  clear. all_bytes c.
Qed.

Lemma byte_sequence b : decode_byte_sequence (":" ++ b64_encode b ++ ":") = Some b.
Proof.
  unfold decode_byte_sequence. rewrite trim_word.
  2:{ apply Forall_app. split; [by repeat constructor|]. apply Forall_app.
      split; [apply b64_word|by repeat constructor]. }
  rewrite (proj2 (strip_prefix_spec ":" _ _) eq_refl). cbn [mbind option_bind]. unfold strip_suffix.
  rewrite rev_app_distr. rewrite (proj2 (strip_prefix_spec (rev ":") _ _) eq_refl). cbn [fmap option_fmap option_map].
  rewrite rev_involutive. apply b64_round_trip.
Qed.

Lemma digest_word body : word (digest_header body).
Proof.
  apply Forall_app. split; [by repeat constructor|]. apply Forall_app.
  split; [apply b64_word|by repeat constructor].
Qed.

(** The digest header of one body is accepted with bodies of the same hash. *)
Lemma digest_checked body body' :
  verify_digest (digest_header body) body'
  = if bool_decide (sha256 body' = sha256 body) then Ok tt else Err DigestMismatch.
Proof.
  unfold verify_digest. rewrite split_free by (apply word_free; [apply digest_word|by left]).
  cbn [digest_members]. rewrite trim_word by apply digest_word.
  assert (split_once "="%char (digest_header body)
          = Some ("sha-256" : bytes, ":" ++ b64_encode (sha256 body) ++ ":")) as ->
    by (apply split_once_spec; split; [done|]; apply (bool_decide_unpack (_ ∉ _)); vm_compute; exact I).
  rewrite (trim_word "sha-256") by (by repeat constructor).
  rewrite (bool_decide_eq_true_2 (("sha-256" : bytes) = "sha-256")) by done. cbn [negb].
  rewrite trim_word.
  2:{ apply Forall_app. split; [by repeat constructor|]. apply Forall_app.
      split; [apply b64_word|by repeat constructor]. }
  rewrite byte_sequence. cbn [ok_or and_then]. by destruct (bool_decide _).
Qed.

Lemma digest_members_trim actual l k : Forall2 (λ a b, trim a = trim b) l k →
  ∀ checked, digest_members actual checked l = digest_members actual checked k.
Proof.
  induction 1 as [|a b l k E _ IH]; intros checked; [done|]. cbn [digest_members]. rewrite E.
  destruct (split_once _ _) as [[alg v]|]; [|done]. destruct (negb _); [done|].
  destruct (ok_or _ _); [|done]. cbn [and_then]. by destruct (bool_decide _).
Qed.

Lemma single_header_visible headers name s : single_header headers name = Ok s → visible s.
Proof.
  unfold single_header. destruct (get_all headers name) as [|v [|]]; try done.
  destruct (to_str v) eqn:E; [|done]. intros [= <-]. by apply to_str_visible in E as [-> ?].
Qed.

(** What the verifier checked of a request it accepts. *)
Lemma verify_checked self target headers body now :
  verify self target headers body now = Ok tt →
  ∃ digest params signature,
    visible digest ∧ validate_params params now = Ok tt ∧ verify_digest digest body = Ok tt
    ∧ verify_strict (key self) (signature_base target digest params) signature = true.
Proof.
  unfold verify. intros (input & _ & Hr)%and_then_ok. apply and_then_ok in Hr as (sig & _ & Hr).
  apply and_then_ok in Hr as (params & _ & Hr). apply and_then_ok in Hr as ([] & Hp & Hr).
  apply and_then_ok in Hr as (digest & Hd & Hr). apply and_then_ok in Hr as ([] & Hb & Hr).
  apply and_then_ok in Hr as (raw & _ & Hr). apply and_then_ok in Hr as (signature & _ & Hr).
  destruct (negb _); [done|]. destruct (verify_strict _ _ _) eqn:Hv; [|done].
  exists digest, params, signature. split; [|done].
  destruct (single_header headers "content-digest") eqn:E; [|done]. injection Hd as ->.
  by eapply single_header_visible.
Qed.

(** An accepted request was sent by the holder of the signing key, as long as
    its signatures cannot be forged: the key's holder signed exactly that target,
    with a body of the same hash, at an instant from ten seconds ago to two
    seconds ahead. *)
Lemma accepted_requests_were_sent self (sent : list (bytes * bytes * Z)) target headers body now :
  (∀ base signature, verify_strict (key self) base signature = true →
     ∃ t b c, (t, b, c) ∈ sent ∧ base = signature_base t (digest_header b) (woodpecker_params c)) →
  (∀ t b c, (t, b, c) ∈ sent → NL ∉ t ∧ (0 ≤ c ≤ U64_MAX)%Z) → NL ∉ target →
  verify self target headers body now = Ok tt →
  ∃ b c, (target, b, c) ∈ sent ∧ sha256 body = sha256 b ∧ in_window c now.
Proof.
  intros Hforge Hsent Ht (digest & params & signature & Hvis & Hp & Hd & Hv)%verify_checked.
  apply Hforge in Hv as (t & b & c & Hin & E). destruct (Hsent t b c Hin) as [Ht' Hc].
  unfold signature_base in E. apply app_inv_head, app_inv_head in E.
  apply line_unique in E as [-> E]; [|done..]. apply app_inv_head, app_inv_head in E.
  rewrite (trim_word (digest_header b)) in E by apply digest_word.
  apply line_unique in E as [Ed E];
    [|by apply visible_one_line, visible_trimmed|by apply visible_one_line, word_visible, digest_word].
  apply app_inv_head, app_inv_head in E as ->. exists b, c. split; [done|].
  split; [|by apply woodpecker_validated].
  assert (verify_digest digest body = verify_digest (trim digest) body) as Htrim
    by (apply digest_members_trim; by apply trimmed_members).
  rewrite Htrim, Ed, digest_checked in Hd. by case_bool_decide.
Qed.

(** The headers of a request Woodpecker sends. *)
Definition woodpecker_headers (body : bytes) (c : Z) (signature : bytes) : Headers :=
  [("signature-input" : bytes, SIGNATURE_LABEL ++ "=" ++ woodpecker_params c);
   ("content-digest" : bytes, digest_header body);
   ("signature" : bytes, SIGNATURE_LABEL ++ "=" ++ ":" ++ b64_encode signature ++ ":")].

Lemma header_read v : visible v → to_str v = Some v.
Proof. intros. by apply to_str_visible. Qed.

Lemma sequence_word b : word (":" ++ b64_encode b ++ ":").
Proof.
  apply Forall_app_2; [by repeat constructor|]. apply Forall_app_2; [apply b64_word|by repeat constructor].
Qed.

(** Every request Woodpecker signs is accepted while it is fresh: its headers
    parse, and carry the signature over exactly the text it was made for. *)
Theorem signed_requests_are_accepted self target body c signature now :
  length signature = 64 → (0 ≤ c ≤ U64_MAX)%Z → in_window c now →
  verify_strict (key self) (signature_base target (digest_header body) (woodpecker_params c)) signature = true →
  verify self target (woodpecker_headers body c signature) body now = Ok tt.
Proof.
  intros Hlen Hc Hnow Hsig. unfold verify.
  assert (word (SIGNATURE_LABEL ++ "=" ++ ":" ++ b64_encode signature ++ ":")) as Hw.
  { apply Forall_app_2; [by repeat constructor|]. apply Forall_app_2; [by repeat constructor|].
    apply sequence_word. }
  assert (single_header (woodpecker_headers body c signature) "signature-input"
          = Ok (SIGNATURE_LABEL ++ "=" ++ woodpecker_params c)) as ->.
  { unfold single_header, woodpecker_headers, get_all. cbn [List.filter fst].
    rewrite bool_decide_eq_true_2, !bool_decide_eq_false_2 by done. cbn [List.map snd].
    rewrite header_read; [done|]. apply Forall_app_2; [apply forallb_Forall; vm_compute; reflexivity|].
    apply Forall_app_2; [apply forallb_Forall; vm_compute; reflexivity|]. apply params_visible. lia. }
  assert (single_header (woodpecker_headers body c signature) "signature"
          = Ok (SIGNATURE_LABEL ++ "=" ++ ":" ++ b64_encode signature ++ ":")) as ->.
  { unfold single_header, woodpecker_headers, get_all. cbn [List.filter fst].
    rewrite (bool_decide_eq_true_2 (("signature" : bytes) = "signature")), !bool_decide_eq_false_2 by done.
    cbn [List.map snd]. by rewrite header_read by (by apply word_visible). }
  assert (single_header (woodpecker_headers body c signature) "content-digest" = Ok (digest_header body)) as ->.
  { unfold single_header, woodpecker_headers, get_all. cbn [List.filter fst].
    rewrite (bool_decide_eq_true_2 (("content-digest" : bytes) = "content-digest")), !bool_decide_eq_false_2 by done.
    cbn [List.map snd]. by rewrite header_read by (by apply word_visible, digest_word). }
  cbn [and_then]. rewrite input_value by lia. cbn [and_then].
  rewrite (proj2 (woodpecker_validated c now Hc) Hnow). cbn [and_then map_err].
  rewrite digest_checked, bool_decide_eq_true_2 by done. cbn [and_then].
  rewrite member_value by (try apply word_member; try apply trim_word; try apply sequence_word; done).
  cbn [and_then]. rewrite byte_sequence. cbn [ok_or and_then]. rewrite Hlen. cbn [Nat.eqb negb]. by rewrite Hsig.
Qed.
End signed.

(** *** A key whose holder signed one request *)

Definition sample_target : bytes := "/secrets".
Definition sample_body : bytes := "{}".
Definition sample_created : Z := 1700000000.
Definition sample_now : Z := (sample_created + 5) * Stamps.NANOS.

Definition sample_base : bytes :=
  signature_base sample_target (digest_header sample_body) (woodpecker_params sample_created).
Definition sample_signature : bytes := replicate 64 "s"%char.

#[local] Instance sample_crates : SignatureCrates := {|
  from_public_key_pem pem := Some pem;
  verify_strict k base signature :=
    bool_decide (base = sample_base) && bool_decide (signature = sample_signature);
  to_str v := if forallb visible_ascii v then Some v else None |}.

#[local] Instance sample_signature_laws : SignatureLaws.
Proof.
  split. intros v s. unfold to_str, sample_crates. destruct (forallb visible_ascii v) eqn:E; split.
  - intros [= <-]. split; [done|]. by apply forallb_Forall.
  - by intros [-> _].
  - done.
  - intros [_ Hv]. apply forallb_Forall in Hv. congruence.
Qed.

Definition sample_verifier : SignatureVerifier := mkVerifier "key".

Lemma signed_requests_are_accepted_witness :
  verify sample_verifier sample_target
    (woodpecker_headers sample_body sample_created sample_signature) sample_body sample_now = Ok tt.
Proof.
  apply signed_requests_are_accepted.
  - done.
  - by (split; vm_compute).
  - by (split; vm_compute).
  - vm_compute. reflexivity.
Defined.

End Signed.
