(* ===== verification/LayerReader.v ===== *)
(** * Reading configuration layers

    Models [crates/sovereign-config-layers/src]: the reader that merges ordered
    layers over an authenticated transport ([reader.rs]) and the caching token
    provider ([token.rs]).  The transport and the token issuer are classes of
    operations over a state. *)

From stdpp Require Import strings.
From S2P Require Import Prelude Bytes ConfigPath Core.

Local Open Scope bytes_scope.

(** ** The traits the reader is generic over *)

(** [ValueTransport]'s two calls, and [InvalidatableToken]. *)
Class ValueTransport (S : Type) := {
  get_subtree : ConfigPath → Secret → S → result ValueSubTree ClientError * S;
  reveal_secret : ConfigPath → Secret → S → result RevealedSecret ClientError * S }.

Class InvalidatableToken (S : Type) := {
  access_token : S → result (option Secret) ClientError * S;
  invalidate : S → S }.

Module Layers.

Inductive OnMissing := Skip | Fail.
#[global] Instance OnMissing_eq_dec : EqDecision OnMissing.
Proof. solve_decision. Defined.

Inductive Naming := Folded | AsStored.

Definition apply (self : Naming) (name : bytes) : bytes :=
  match self with Folded => to_ascii_lowercase name | AsStored => name end.

Record LayerReader := mkReader { on_missing : OnMissing; naming : Naming }.

(** [as_str().get(offset..)?] of a path is empty past its end, which is refused
    like an empty name. *)
Definition direct_child_name (layer path_ : ConfigPath) : option bytes :=
  let layer_fold := Path.fold layer in
  let path_fold := Path.fold path_ in
  offset ←
    (if bool_decide (layer_fold = "/") then Some 1
     else if negb (starts_with path_fold layer_fold)
             || negb (bool_decide (path_fold !! length layer_fold = Some "/"%char))
     then None
     else Some (length layer_fold + 1));
  let relative := drop offset (Path.as_str path_) in
  if negb (is_empty relative) && negb (contains_byte "/"%char relative) then Some relative else None.

Section reader.
Context {S : Type} `{ValueTransport S} `{InvalidatableToken S}.

(** Calls that act on the transport and the tokens and may fail. *)
Definition Call (A : Type) : Type := S → result A ClientError * S.

Definition try {A B} (m : Call A) (k : A → Call B) : Call B := λ s,
  match m s with (Ok a, s') => k a s' | (Err e, s') => (Err e, s') end.

Definition token : Call Secret := λ s,
  match access_token s with
  | (Ok (Some t), s') => (Ok t, s')
  | (Ok None, s') => (Err (mkClientError Unauthenticated "no access token was issued"), s')
  | (Err e, s') => (Err e, s')
  end.

(** Once more when the token is rejected, with the cache dropped. *)
Definition with_token {R} (call : Secret → Call R) : Call R := λ s,
  match token s with
  | (Err e, s1) => (Err e, s1)
  | (Ok t, s1) =>
      match call t s1 with
      | (Err e, s2) =>
          if bool_decide (kind e = Unauthenticated) then try token call (invalidate s2) else (Err e, s2)
      | (Ok r, s2) => (Ok r, s2)
      end
  end.

Fixpoint read_values (self : LayerReader) (layer : ConfigPath) (values : list SubTreeValue)
  : Call (list (bytes * RevealedSecret)) :=
  match values with
  | [] => λ s, (Ok [], s)
  | value :: values' =>
      match direct_child_name layer (stv_path value) with
      | None => read_values self layer values'
      | Some name =>
          let name := apply (naming self) name in
          let go (revealed : RevealedSecret) : Call (list (bytes * RevealedSecret)) :=
            try (read_values self layer values') (λ rest s, (Ok ((name, revealed) :: rest), s)) in
          match stv_value value with
          | ContentPlain plain => go (mkRevealedSecret (expose_plain plain))
          | ContentSecret _ => λ s,
              match with_token (reveal_secret (stv_path value)) s with
              | (Ok revealed, s') => go revealed s'
              | (Err e, s') =>
                  if bool_decide (on_missing self = Skip) && bool_decide (kind e = NotFound)
                  then read_values self layer values' s'
                  else (Err e, s')
              end
          end
      end
  end.

Definition read (self : LayerReader) (layer : ConfigPath) : Call (list (bytes * RevealedSecret)) := λ s,
  match with_token (get_subtree layer) s with
  | (Ok subtree, s') => read_values self layer (vst_values subtree) s'
  | (Err e, s') =>
      if bool_decide (on_missing self = Skip)
         && (bool_decide (kind e = PermissionDenied) || bool_decide (kind e = NotFound))
      then (Ok [], s') else (Err e, s')
  end.

(** A [BTreeMap] of the values, later ones over earlier ones. *)
Fixpoint fetch_from (self : LayerReader) (merged : gmap bytes RevealedSecret) (layers : list ConfigPath)
  : Call (gmap bytes RevealedSecret) :=
  match layers with
  | [] => λ s, (Ok merged, s)
  | layer :: layers' =>
      try (read self layer) (λ values,
        fetch_from self (foldl (λ m nv, <[nv.1 := nv.2]> m) merged values) layers')
  end.

Definition fetch (self : LayerReader) (layers : list ConfigPath) : Call (gmap bytes RevealedSecret) :=
  fetch_from self ∅ layers.
End reader.

(** ** Direct children *)

(** The name of a direct child is the rest of the path after its layer, in any
    spelling of the layer. *)
Definition child_of (layer path_ : ConfigPath) (n : bytes) : Prop :=
  n ≠ [] ∧ "/"%char ∉ n
  ∧ ∃ a, path path_ = a ++ "/" ++ n
      ∧ to_ascii_lowercase a = (if bool_decide (Path.fold layer = "/") then [] else Path.fold layer).

Definition name_of (r : bytes) : option bytes :=
  if negb (is_empty r) && negb (contains_byte "/"%char r) then Some r else None.

Lemma name_of_spec r n : name_of r = Some n ↔ n = r ∧ n ≠ [] ∧ "/"%char ∉ n.
Proof.
  unfold name_of, contains_byte. destruct r as [|c r]; cbn [is_empty negb andb]; [naive_solver|].
  case_bool_decide; naive_solver.
Qed.

Lemma child_at p k n : path p !! k = Some "/"%char → drop (S k) (path p) = n →
  path p = take k (path p) ++ "/" ++ n.
Proof. intros Hk <-. symmetry. by apply take_drop_middle. Qed.

Lemma direct_child_name_spec layer p n :
  Path.Canonical (path p) → direct_child_name layer p = Some n ↔ child_of layer p n.
Proof.
  intros (segs & _ & Hp). assert (∃ q, path p = "/" ++ q) as [q Hq] by (rewrite Hp; by eexists).
  clear Hp segs. unfold direct_child_name, child_of, Path.as_str.
  destruct (bool_decide (Path.fold layer = "/")) eqn:Er; cbn [mbind option_bind].
  - fold (name_of (drop 1 (path p))). rewrite name_of_spec, Hq. cbn [drop app]. split.
    + intros (-> & ? & ?). split; [done|]. split; [done|]. by exists [].
    + intros (? & ? & a & E & Ha). destruct a; [|done]. cbn in E. by injection E as <-.
  - set (L := Path.fold layer) in *. unfold Path.fold.
    destruct (starts_with _ L) eqn:Es; cbn [negb orb].
    + apply starts_with_spec in Es as [r Er'].
      destruct (bool_decide (to_ascii_lowercase (path p) !! length L = Some "/"%char)) eqn:Ek;
        cbn [negb mbind option_bind].
      * apply bool_decide_eq_true in Ek. unfold to_ascii_lowercase in Ek.
        apply list_lookup_fmap_Some in Ek as (c & Hc & Hk). symmetry in Hc. apply lower_byte_slash in Hc as ->.
        fold (name_of (drop (length L + 1) (path p))). rewrite name_of_spec, Nat.add_1_r. split.
        -- intros (Hn & ? & ?). split; [done|]. split; [done|]. exists (take (length L) (path p)).
           split; [by apply child_at|]. rewrite to_ascii_lowercase_take, Er'. apply take_app_length.
        -- intros (? & ? & a & E & Ha). split; [|done]. rewrite E. rewrite <- Ha, length_to_ascii_lowercase.
           rewrite drop_app_ge by lia. by replace (S (length a) - length a) with 1 by lia.
      * split; [done|]. intros (_ & _ & a & E & Ha). exfalso. apply bool_decide_eq_false in Ek. apply Ek.
        rewrite E, to_ascii_lowercase_app, Ha. rewrite lookup_app_r by lia. by rewrite Nat.sub_diag.
    + split; [done|]. intros (_ & _ & a & E & Ha). exfalso.
      rewrite E, to_ascii_lowercase_app, Ha, starts_with_app in Es. done.
Qed.

Lemma child_below layer p n :
  Path.Canonical (path p) → direct_child_name layer p = Some n → Path.is_at_or_below p layer = true.
Proof.
  intros Hp (_ & _ & a & E & Ha)%direct_child_name_spec; [|done].
  apply Path.is_at_or_below_spec. unfold Path.AtOrBelow. case_bool_decide as Hr; [by left|]. right. right.
  exists (to_ascii_lowercase n). unfold Path.fold at 1. by rewrite E, to_ascii_lowercase_app, Ha.
Qed.

(** ** What the service promises a reader *)

(** A stored value as a caller who may reveal it sees it. *)
Record StoredValue := mkStoredValue { sv_path : ConfigPath; sv_text : bytes; sv_secret : bool }.

Definition masked (e : StoredValue) : SubTreeValue :=
  mkSubTreeValue (sv_path e)
    (if sv_secret e then ContentSecret masked_secret else ContentPlain (mkPlainValue (sv_text e))).

Definition revealed (e : StoredValue) : RevealedSecret := mkRevealedSecret (sv_text e).

(** What a state holds. *)
Class TreeView (S : Type) := tree : S → list StoredValue.

(** Answers are about the tree, which no read changes; its paths are canonical
    and no two are the same up to case. *)
Class ReaderLaws (S : Type) `{ValueTransport S, InvalidatableToken S, TreeView S} : Prop := {
  get_subtree_law p t s r s' : get_subtree p t s = (r, s') →
    tree s' = tree s
    ∧ ∀ sub, r = Ok sub →
        vst_values sub = List.map masked (List.filter (λ e, Path.is_at_or_below (sv_path e) p) (tree s));
  reveal_law p t s r s' : reveal_secret p t s = (r, s') →
    tree s' = tree s
    ∧ ∀ v, r = Ok v → ∃ e, e ∈ tree s ∧ Path.fold (sv_path e) = Path.fold p ∧ v = revealed e;
  access_token_law s r s' : access_token s = (r, s') → tree s' = tree s;
  invalidate_law s : tree (invalidate s) = tree s;
  tree_canonical s e : e ∈ tree s → Path.Canonical (path (sv_path e));
  tree_distinct s : NoDup (List.map (λ e, Path.fold (sv_path e)) (tree s)) }.

(** The values of one layer, under the names they are served by. *)
Definition layer_value (naming : Naming) (layer : ConfigPath) (e : StoredValue)
  : option (bytes * RevealedSecret) :=
  n ← direct_child_name layer (sv_path e); Some (apply naming n, revealed e).

Definition layer_values (naming : Naming) (tree_ : list StoredValue) (layer : ConfigPath)
  : list (bytes * RevealedSecret) := omap (layer_value naming layer) tree_.

Section merge.
Context {S : Type} `{ReaderLaws S}.
Implicit Types s : S.

Lemma distinct_value s a b : a ∈ tree s → b ∈ tree s →
  Path.fold (sv_path a) = Path.fold (sv_path b) → a = b.
Proof.
  intros Ha Hb E. pose proof (tree_distinct s) as Hd. revert Ha Hb Hd.
  induction (tree s) as [|c l IH]; [by intros ?%not_elem_of_nil|].
  assert (∀ v, v ∈ l → Path.fold (sv_path v) ∈ List.map (λ e, Path.fold (sv_path e)) l) as Hin.
  { intros v Hv. apply list_elem_of_In, in_map_iff. exists v. by rewrite <- list_elem_of_In. }
  intros [->|Ha]%elem_of_cons [->|Hb]%elem_of_cons [Hn Hd]%NoDup_cons; [done|..|by apply IH];
    exfalso; apply Hn; [rewrite E|rewrite <- E]; auto.
Qed.

Lemma token_keeps s r s' : token s = (r, s') → tree s' = tree s.
Proof.
  unfold token. destruct (access_token s) as [[[t|]|e] s1] eqn:E; intros [= <- <-];
    by eapply access_token_law.
Qed.

(** A call made with a token is made on the tree, once or twice. *)
Lemma with_token_run {R} (call : Secret → Call R) (Q : result R ClientError → Prop) s r s' :
  (∀ t s1 r1 s2, tree s1 = tree s → call t s1 = (r1, s2) → tree s2 = tree s ∧ Q r1) →
  (∀ e, Q (Err e)) → with_token call s = (r, s') → tree s' = tree s ∧ Q r.
Proof.
  intros Hcall HQ. unfold with_token, try.
  destruct (token s) as [[t|e] s1] eqn:E1; [|intros [= <- <-]; split; [by eapply token_keeps|auto]].
  apply token_keeps in E1. destruct (call t s1) as [[v|e] s2] eqn:E2; apply Hcall in E2 as [Ht2 HQ2]; try done.
  - by intros [= <- <-].
  - destruct (bool_decide _); [|by intros [= <- <-]].
    destruct (token (invalidate s2)) as [[t'|e'] s3] eqn:E3; apply token_keeps in E3 as Ht3;
      rewrite invalidate_law, Ht2 in Ht3; [|intros [= <- <-]; auto].
    intros Hc. by eapply Hcall.
Qed.

Lemma get_run layer s r s' : with_token (get_subtree layer) s = (r, s') →
  tree s' = tree s
  ∧ ∀ sub, r = Ok sub →
      vst_values sub = List.map masked (List.filter (λ e, Path.is_at_or_below (sv_path e) layer) (tree s)).
Proof.
  intros Hr. revert Hr. apply (with_token_run _ (λ r, ∀ sub, r = Ok sub → vst_values sub = _)); [|done].
  intros t s1 r1 s2 E (? & Hsub)%get_subtree_law. rewrite E in *. auto.
Qed.

Lemma reveal_run p e s r s' : e ∈ tree s → sv_path e = p →
  with_token (reveal_secret p) s = (r, s') →
  tree s' = tree s ∧ ∀ v, r = Ok v → v = revealed e.
Proof.
  intros He <- Hr. revert Hr. apply (with_token_run _ (λ r, ∀ v, r = Ok v → v = revealed e)); [|done].
  intros t s1 r1 s2 E (? & Hv)%reveal_law. rewrite E in *. split; [done|].
  intros v ->. destruct (Hv v eq_refl) as (e' & He' & Hf & ->). by rewrite (distinct_value s e' e).
Qed.

(** What one layer contributes: all of its values, or fewer only when missing
    ones are to be skipped. *)
Lemma read_values_run self layer es : ∀ s vs s',
  Forall (λ e, e ∈ tree s) es →
  read_values self layer (List.map masked es) s = (Ok vs, s') →
  tree s' = tree s ∧ vs `sublist_of` omap (layer_value (naming self) layer) es
  ∧ (on_missing self = Fail → vs = omap (layer_value (naming self) layer) es).
Proof.
  induction es as [|e es IH]; intros s vs s' Hes; cbn [List.map read_values].
  - by intros [= <- <-].
  - apply Forall_cons in Hes as [He Hes]. cbn [stv_path stv_value masked].
    assert (∀ s1 vs1 s2 v, tree s1 = tree s →
      try (read_values self layer (List.map masked es)) (λ rest s, (Ok (v :: rest), s)) s1 = (Ok vs1, s2) →
      ∃ rest, vs1 = v :: rest ∧ tree s2 = tree s
        ∧ rest `sublist_of` omap (layer_value (naming self) layer) es
        ∧ (on_missing self = Fail → rest = omap (layer_value (naming self) layer) es)) as Hgo.
    { intros s1 vs1 s2 v E. unfold try. destruct (read_values _ _ _ s1) as [[rest|] s3] eqn:Er; [|done].
      intros [= <- <-]. apply IH in Er as (? & ? & ?); [|by rewrite E]. rewrite E in *. eauto 10. }
    destruct (direct_child_name layer (sv_path e)) as [n|] eqn:En.
    + assert (layer_value (naming self) layer e = Some (apply (naming self) n, revealed e)) as Hv
        by (unfold layer_value; by rewrite En).
      cbn [omap list_omap]. rewrite Hv. destruct (sv_secret e); cbn [expose_plain].
      * destruct (with_token _ s) as [[v|err] s1] eqn:Ew;
          apply (reveal_run _ e) in Ew as [E1 Hrev]; try done.
        -- rewrite (Hrev v eq_refl). intros (rest & -> & ? & ? & Hf)%Hgo; [|done].
           split; [done|]. split; [by constructor|]. intros Hm. by rewrite Hf.
        -- destruct (bool_decide (on_missing self = Skip)) eqn:Em; cbn [andb]; [|done].
           destruct (bool_decide (kind err = NotFound)); [|done]. intros (? & Hs & _)%IH; [|by rewrite E1].
           rewrite E1 in *. split; [done|]. split; [by apply sublist_cons|].
           apply bool_decide_eq_true in Em. intros. congruence.
      * intros (rest & -> & ? & ? & Hf)%Hgo; [|done].
        split; [done|]. split; [by constructor|]. intros Hm. by rewrite Hf.
    + assert (layer_value (naming self) layer e = None) as Hv by (unfold layer_value; by rewrite En).
      cbn [omap list_omap]. rewrite Hv. by apply IH.
Qed.

(** Values that are not below the layer contribute nothing to it. *)
Lemma layer_values_below naming_ layer (es : list StoredValue) :
  Forall (λ e, Path.Canonical (path (sv_path e))) es →
  omap (layer_value naming_ layer) (List.filter (λ e, Path.is_at_or_below (sv_path e) layer) es)
  = layer_values naming_ es layer.
Proof.
  induction 1 as [|e es He _ IH]; [done|]. unfold layer_values in *. cbn.
  destruct (Path.is_at_or_below (sv_path e) layer) eqn:Eb; cbn; rewrite IH; [done|].
  unfold layer_value. destruct (direct_child_name layer (sv_path e)) eqn:En; [|done].
  apply child_below in En; [|done]. congruence.
Qed.

Lemma read_run self layer s vs s' :
  read self layer s = (Ok vs, s') →
  tree s' = tree s ∧ vs `sublist_of` layer_values (naming self) (tree s) layer
  ∧ (on_missing self = Fail → vs = layer_values (naming self) (tree s) layer).
Proof.
  unfold read. destruct (with_token _ s) as [[sub|e] s1] eqn:Ew; apply get_run in Ew as [E Hsub].
  - rewrite (Hsub sub eq_refl). intros Hr%read_values_run.
    2:{ rewrite E. apply Forall_forall. intros x Hx. apply list_elem_of_In, filter_In in Hx as [Hx _].
        by apply list_elem_of_In. }
    rewrite layer_values_below, E in Hr; [done|]. apply Forall_forall. intros x. apply tree_canonical.
  - destruct (bool_decide (on_missing self = Skip)) eqn:Em; [|done]. cbn. destruct (_ || _); [|done].
    intros [= <- <-]. split; [done|]. split; [apply sublist_nil_l|].
    apply bool_decide_eq_true in Em. intros. congruence.
Qed.

(** ** Merging *)

Definition merge (merged : gmap bytes RevealedSecret) (values : list (bytes * RevealedSecret))
  : gmap bytes RevealedSecret := foldl (λ m nv, <[nv.1 := nv.2]> m) merged values.

Lemma merge_app merged a b : merge merged (a ++ b) = merge (merge merged a) b.
Proof. apply foldl_app. Qed.

(** The last value of a name wins. *)
Lemma merge_lookup values : ∀ merged n v,
  merge merged values !! n = Some v ↔
  (∃ a b, values = a ++ (n, v) :: b ∧ n ∉ List.map fst b)
  ∨ (n ∉ List.map fst values ∧ merged !! n = Some v).
Proof.
  induction values as [|[n' v'] values IH] using rev_ind; intros merged n v.
  - split; [intros; right; split; [apply not_elem_of_nil|done]|].
    intros [(a & b & E & _)|[_ ?]]; [by destruct a|done].
  - rewrite merge_app. cbn [merge foldl fst snd].
    destruct (decide (n = n')) as [<-|Hn].
    + rewrite lookup_insert_eq. split.
      * intros [= ->]. left. exists values, []. split; [done|apply not_elem_of_nil].
      * intros [(a & b & E & Hb)|[Hn _]].
        -- destruct b as [|x b _] using rev_ind; [by apply app_inj_2 in E as [_ [= ->]]|].
           exfalso. apply Hb. rewrite app_comm_cons, app_assoc in E.
           apply app_inj_2 in E as [_ [= <-]]; [|done].
           rewrite map_app. apply elem_of_app. right. by left.
        -- exfalso. apply Hn. rewrite map_app. apply elem_of_app. right. by left.
    + rewrite lookup_insert_ne by done. change (foldl _ merged values) with (merge merged values). rewrite IH.
      rewrite map_app, not_elem_of_app. split.
      * intros [(a & b & -> & Hb)|[Hnv Hm]].
        -- left. exists a, (b ++ [(n', v')]). split; [by rewrite <- app_assoc|].
           rewrite map_app, not_elem_of_app. split; [done|]. by intros ?%list_elem_of_singleton.
        -- right. split; [|done]. split; [done|]. by intros ?%list_elem_of_singleton.
      * intros [(a & b & E & Hb)|[[Hnv _] Hm]]; [left|by right].
        destruct b as [|x b _] using rev_ind.
        { apply app_inj_2 in E as [_ [= -> ->]]; done. }
        rewrite app_comm_cons, app_assoc in E. apply app_inj_2 in E as [-> _]; [|done].
        exists a, b. split; [done|]. rewrite map_app, not_elem_of_app in Hb. apply Hb.
Qed.

Lemma merge_covers values merged n : n ∈ List.map fst values → is_Some (merge merged values !! n).
Proof.
  induction values as [|[k w] values IH] using rev_ind; [by intros ?%not_elem_of_nil|].
  rewrite map_app, elem_of_app, merge_app. cbn. rewrite list_elem_of_singleton.
  destruct (decide (k = n)) as [->|Hn]; [by rewrite lookup_insert_eq|]. rewrite lookup_insert_ne by done.
  intros [?|?]; [by apply IH|done].
Qed.

Lemma fetch_run self layers : ∀ merged s m s',
  fetch_from self merged layers s = (Ok m, s') →
  tree s' = tree s
  ∧ ∃ vss, m = merge merged (concat vss)
      ∧ Forall2 (λ layer vs, vs `sublist_of` layer_values (naming self) (tree s) layer
          ∧ (on_missing self = Fail → vs = layer_values (naming self) (tree s) layer)) layers vss.
Proof.
  induction layers as [|layer layers IH]; intros merged s m s'; cbn [fetch_from].
  - intros [= <- <-]. split; [done|]. by exists [].
  - unfold try. destruct (read self layer s) as [[vs|] s1] eqn:Er; [|done].
    apply read_run in Er as (E & Hvs). intros (E' & vss & -> & Hf)%IH. rewrite E in *. split; [done|].
    exists (vs :: vss). split; [|by constructor]. cbn [concat]. by rewrite merge_app.
Qed.

(** In one layer no name comes twice. *)
Lemma layer_names_distinct naming_ s layer :
  NoDup (List.map fst (layer_values naming_ (tree s) layer)).
Proof.
  pose proof (tree_distinct s) as Hd. pose proof (tree_canonical s) as Hc. revert Hd Hc.
  unfold layer_values. induction (tree s) as [|e l IH]; [by constructor|]. cbn [List.map].
  intros [Hn Hd]%NoDup_cons Hc. cbn [omap list_omap].
  assert (NoDup (List.map fst (omap (layer_value naming_ layer) l))) as IH' by (apply IH; [done|];
    intros x Hx; apply Hc; by right).
  unfold layer_value at 1. destruct (direct_child_name layer (sv_path e)) as [n|] eqn:En; [|done].
  cbn [mbind option_bind List.map fst]. constructor; [|done].
  intros Hin. apply Hn. apply list_elem_of_In, in_map_iff in Hin as ([n' v'] & E & Hin).
  cbn [fst] in E. apply list_elem_of_In, list_elem_of_omap in Hin as (e' & He' & Hv).
  unfold layer_value in Hv. destruct (direct_child_name layer (sv_path e')) as [m|] eqn:Em; [|done].
  injection Hv as Hm _. apply list_elem_of_In, in_map_iff. exists e'. split; [|by apply list_elem_of_In].
  apply direct_child_name_spec in En as (_ & _ & a & Ea & Ha); [|apply Hc; by left].
  apply direct_child_name_spec in Em as (_ & _ & b & Eb & Hb); [|apply Hc; by right].
  unfold Path.fold. rewrite Ea, Eb, !to_ascii_lowercase_app, Ha, Hb. do 2 f_equal.
  destruct naming_; cbn [apply] in *; congruence.
Qed.

(** The last pair of a name in the layers' values is that of the last layer
    that has the name. *)
Lemma last_of_layers (values : ConfigPath → list (bytes * RevealedSecret)) layers n v :
  (∀ l, NoDup (List.map fst (values l))) →
  (∃ a b, concat (List.map values layers) = a ++ (n, v) :: b ∧ n ∉ List.map fst b)
  ↔ ∃ before layer after, layers = before ++ layer :: after
      ∧ (n, v) ∈ values layer ∧ Forall (λ l, n ∉ List.map fst (values l)) after.
Proof.
  intros Hd. split.
  - intros (a & b & E & Hb). revert a E. induction layers as [|l layers IH]; intros a E; [by destruct a|].
    cbn in E. apply app_eq_inv in E as [([|x k] & E1 & E2)|(k & -> & E2)].
    + destruct (IH []) as (before & layer & after & -> & ?); [by rewrite E2|]. by exists (l :: before), layer, after.
    + injection E2 as <- ->. exists [], l, layers. split; [done|].
      split; [rewrite E1; apply elem_of_app; right; by left|].
      rewrite map_app, not_elem_of_app in Hb. apply Forall_forall. intros l' Hl' Hn. apply (proj2 Hb).
      rewrite concat_map. apply list_elem_of_In, in_concat. exists (List.map fst (values l')).
      split; [|by apply list_elem_of_In]. apply in_map, in_map. by apply list_elem_of_In.
    + destruct (IH _ E2) as (before & layer & after & -> & ?). by exists (l :: before), layer, after.
  - intros (before & layer & after & -> & Hin & Hf). apply list_elem_of_split in Hin as (x & y & E).
    exists (concat (List.map values before) ++ x), (y ++ concat (List.map values after)). split.
    { rewrite map_app, concat_app. cbn. rewrite E. by rewrite <- !app_assoc. }
    specialize (Hd layer). rewrite E, map_app in Hd. cbn in Hd. apply NoDup_app in Hd as (_ & _ & Hd).
    apply NoDup_cons in Hd as [Hy _]. rewrite map_app, not_elem_of_app. split; [done|].
    rewrite concat_map. intros (ns & Hns & Hn%list_elem_of_In)%list_elem_of_In%in_concat.
    rewrite in_map_iff in Hns. destruct Hns as (vs & <- & (l & <- & Hl)%in_map_iff).
    rewrite Forall_forall in Hf. by apply (Hf l); [apply list_elem_of_In|].
Qed.

(** Every value fetched is that of a direct child of one of the layers. *)
Lemma fetch_sound self layers s m s' :
  fetch self layers s = (Ok m, s') →
  ∀ n v, m !! n = Some v → ∃ layer, layer ∈ layers ∧ (n, v) ∈ layer_values (naming self) (tree s) layer.
Proof.
  intros (_ & vss & -> & Hf)%fetch_run n v. rewrite merge_lookup. intros [(a & b & E & _)|[_ ?]]; [|done].
  assert ((n, v) ∈ concat vss) as Hin by (rewrite E; apply elem_of_app; right; by left).
  apply list_elem_of_In, in_concat in Hin as (vs & Hvs%list_elem_of_In & Hin%list_elem_of_In).
  apply list_elem_of_lookup in Hvs as [i Hi]. eapply Forall2_lookup_r in Hf as (layer & Hl & Hsub & _); [|done].
  exists layer. split; [by eapply list_elem_of_lookup_2|]. by eapply elem_of_sublist.
Qed.

(** A fetch leaves the tree as it was, whether it succeeds or fails. *)
Lemma with_token_keeps {R} (call : Secret → Call R) s :
  (∀ t s1, tree (call t s1).2 = tree s1) → tree (with_token call s).2 = tree s.
Proof.
  intros Hcall. destruct (with_token call s) as [r s'] eqn:E.
  apply (with_token_run call (λ _, True)) in E as [? _]; [done| |done].
  intros t s1 r1 s2 E1 E2. specialize (Hcall t s1). rewrite E2 in Hcall. cbn [snd] in Hcall. by rewrite Hcall.
Qed.

Lemma read_values_keeps self layer values : ∀ s, tree (read_values self layer values s).2 = tree s.
Proof.
  induction values as [|value values IH]; intros s; [done|]. cbn [read_values].
  destruct (direct_child_name _ _); [|done].
  assert (∀ s1 (v : bytes * RevealedSecret),
    tree (try (read_values self layer values) (λ rest s, (Ok (v :: rest), s)) s1).2 = tree s1) as Hgo.
  { intros s1 v. unfold try. specialize (IH s1). by destruct (read_values _ _ _ s1) as [[]]. }
  destruct (stv_value value); [apply Hgo|].
  assert (tree (with_token (reveal_secret (stv_path value)) s).2 = tree s) as Ht.
  { apply with_token_keeps. intros t s1. destruct (reveal_secret _ t s1) eqn:E. by apply reveal_law in E as [? _]. }
  destruct (with_token _ s) as [[v|e] s1]; cbn [snd] in Ht; [by rewrite Hgo|].
  destruct (_ && _); [by rewrite IH|done].
Qed.

Lemma read_keeps self layer s : tree (read self layer s).2 = tree s.
Proof.
  unfold read. assert (tree (with_token (get_subtree layer) s).2 = tree s) as Ht.
  { apply with_token_keeps. intros t s1. destruct (get_subtree _ t s1) eqn:E. by apply get_subtree_law in E as [? _]. }
  destruct (with_token _ s) as [[sub|e] s1]; cbn [snd] in Ht; [by rewrite read_values_keeps|]. by destruct (_ && _).
Qed.

Lemma fetch_keeps self layers s : tree (fetch self layers s).2 = tree s.
Proof.
  unfold fetch. generalize (∅ : gmap bytes RevealedSecret) as merged. revert s.
  induction layers as [|layer layers IH]; intros s merged; [done|]. cbn [fetch_from]. unfold try.
  pose proof (read_keeps self layer s) as Hr. destruct (read self layer s) as [[vs|e] s1]; cbn [snd] in Hr;
    [by rewrite IH|done].
Qed.

(** Where nothing may be missing, a name has the value of the last layer that
    has it. *)
Lemma fetch_lookup self layers s m s' :
  fetch self layers s = (Ok m, s') → on_missing self = Fail →
  ∀ n v, m !! n = Some v ↔
    ∃ before layer after, layers = before ++ layer :: after
      ∧ (n, v) ∈ layer_values (naming self) (tree s) layer
      ∧ Forall (λ l, n ∉ List.map fst (layer_values (naming self) (tree s) l)) after.
Proof.
  intros (_ & vss & -> & Hf)%fetch_run Hm n v. set (values := layer_values (naming self) (tree s)).
  assert (vss = List.map values layers) as ->.
  { clear -Hf Hm. induction Hf as [|layer vs layers vss [_ H] _ IH]; [done|]. cbn. by rewrite IH, H. }
  clear Hf. rewrite merge_lookup, <- last_of_layers by (intros; apply layer_names_distinct).
  split; [intros [?|[_ ?]]; [done|done]|by left].
Qed.

(** Fetching ordered layers answers, under each name, the value of the last
    layer that has a direct child of that name, and nothing else, when a missing
    layer fails the fetch; and when missing layers are skipped, every value
    answered is still the stored text of a direct child of one of the layers.
    The tree is left as it was. *)
Theorem later_layers_win self layers s m s' :
  fetch self layers s = (Ok m, s') →
  tree s' = tree s
  ∧ (∀ n v, m !! n = Some v →
       ∃ layer, layer ∈ layers ∧ (n, v) ∈ layer_values (naming self) (tree s) layer)
  ∧ (on_missing self = Fail → ∀ n v, m !! n = Some v ↔
       ∃ before layer after, layers = before ++ layer :: after
         ∧ (n, v) ∈ layer_values (naming self) (tree s) layer
         ∧ Forall (λ l, n ∉ List.map fst (layer_values (naming self) (tree s) l)) after).
Proof.
  intros Hrun. pose proof (fetch_sound _ _ _ _ _ Hrun) as Hsound. pose proof (fetch_lookup _ _ _ _ _ Hrun) as Hl.
  apply fetch_run in Hrun as (Ht & _). auto.
Qed.
End merge.

(** *** A service that answers from one fixed tree

    The state counts the calls; the first token is rejected. *)

Definition sample_tree : list StoredValue :=
  [mkStoredValue (mkPath "/ci/global/Token") "shared" true;
   mkStoredValue (mkPath "/ci/global/url") "https://u" false;
   mkStoredValue (mkPath "/ci/global/nested/deep") "never" false;
   mkStoredValue (mkPath "/ci/repo/token") "own" true].

Definition rejected : ClientError := mkClientError Unauthenticated "authentication required".

#[local] Instance sample_transport : ValueTransport nat := {|
  get_subtree p t n :=
    (if n <? 2 then Err rejected
     else Ok (mkValueSubTree
            (List.map masked (List.filter (λ e, Path.is_at_or_below (sv_path e) p) sample_tree))), S n);
  reveal_secret p t n :=
    (match List.find (λ e, bool_decide (Path.fold (sv_path e) = Path.fold p)) sample_tree with
     | Some e => Ok (revealed e)
     | None => Err (mkClientError NotFound "configuration value not found")
     end, S n) |}.

#[local] Instance sample_tokens : InvalidatableToken nat := {|
  access_token n := (Ok (Some (mkSecret "t")), S n);
  invalidate n := n |}.

#[local] Instance sample_view : TreeView nat := λ _, sample_tree.

#[local] Instance sample_laws : ReaderLaws nat.
Proof.
  split.
  - intros p t s r s' [= <- <-]. split; [done|]. intros sub. case_match; [done|]. by intros [= <-].
  - intros p t s r s'. unfold reveal_secret, sample_transport.
    destruct (List.find _ sample_tree) as [e|] eqn:E; intros [= <- <-]; (split; [done|]); [|done].
    intros v [= <-]. apply find_some in E as [He Ee%bool_decide_eq_true]. exists e. split; [by apply list_elem_of_In|done].
  - by intros s r s' [= <- <-].
  - done.
  - intros s. apply Forall_forall. repeat constructor; apply Path.canonical_check; vm_compute; reflexivity.
  - intros s. apply (bool_decide_unpack _). vm_compute. exact I.
Qed.

Definition sample_fetch : result (gmap bytes RevealedSecret) ClientError * nat :=
  fetch (mkReader Fail Folded) [mkPath "/ci/Global"; mkPath "/ci/repo"] 0.

Lemma later_layers_win_witness :
  match sample_fetch.1 with
  | Ok m => m !! "token" = Some (mkRevealedSecret "own")
  | Err _ => False
  end.
Proof.
  assert (is_ok sample_fetch.1 = true) as Hok by (vm_compute; reflexivity).
  destruct sample_fetch as [[m|e] n] eqn:E; [|done]. cbn [fst].
  destruct (later_layers_win _ _ _ _ _ E) as (_ & _ & Hm). apply (Hm eq_refl).
  exists [mkPath "/ci/Global"], (mkPath "/ci/repo"), []. split; [done|]. split; [|constructor].
  apply (bool_decide_unpack _). vm_compute. exact I.
Defined.

End Layers.

(** ** token.rs *)

Module Tokens.

(** Nanoseconds. *)
Definition REFRESH_SKEW : Z := 30 * 1000000000.
Definition MIN_TTL : Z := 15 * 1000000000.

(** [DeviceFlowClient]'s discovery and client credentials grant, which answers a
    token and its reported lifetime; and [Instant::now]. *)
Class TokenIssuer (W : Type) := {
  now : W → Z;
  client_credentials : W → result (Secret * option Z) ClientError * W }.

(** The provider with what it acts on; [ceiling] is fixed. *)
Record CachedTokenProvider (W : Type) := mkProvider { issuer : W; cached : option (Secret * Z) }.
Arguments mkProvider {W}.
Arguments issuer {W}.
Arguments cached {W}.

Section provider.
Context {W : Type} `{TokenIssuer W} (ceiling : Z).

Definition new (w : W) : CachedTokenProvider W := mkProvider w None.

Definition cached_token (p : CachedTokenProvider W) : option Secret :=
  c ← cached p; if (now (issuer p) <? c.2)%Z then Some c.1 else None.

(** [saturating_sub] of a [Duration]. *)
Definition lifetime (reported : option Z) : Z :=
  Z.max (Z.min (match reported with None => ceiling | Some life => Z.max (life - REFRESH_SKEW) 0 end)
           ceiling) MIN_TTL.

Definition access_token (p : CachedTokenProvider W)
  : result (option Secret) ClientError * CachedTokenProvider W :=
  match cached_token p with
  | Some token => (Ok (Some token), p)
  | None =>
      match client_credentials (issuer p) with
      | (Err e, w) => (Err e, mkProvider w (cached p))
      | (Ok (token, expires_in), w) =>
          (Ok (Some token), mkProvider w (Some (token, (now w + lifetime expires_in)%Z)))
      end
  end.

Definition invalidate (p : CachedTokenProvider W) : CachedTokenProvider W := mkProvider (issuer p) None.

(** ** How long a token is reused *)

(** At least the floor, at most the ceiling unless that is below the floor, and
    never past the skew before the reported expiry unless that is below it. *)
Lemma lifetime_bounds reported :
  (MIN_TTL ≤ lifetime reported ≤ Z.max ceiling MIN_TTL)%Z
  ∧ ∀ life, reported = Some life → (lifetime reported ≤ Z.max (life - REFRESH_SKEW) MIN_TTL)%Z.
Proof. unfold lifetime, MIN_TTL, REFRESH_SKEW. split; [lia|]. intros life ->. lia. Qed.
End provider.

End Tokens.
