(* ===== verification/Session.v ===== *)
(** * Client sessions

    Models [crates/sovereign-config-client/src/lib.rs]: the bounded mapping of
    transport statuses, version negotiation with its fallback for services that
    have no handshake, and the session that negotiates again when its version is
    retired.  A session is shared by any number of calls, so its operations are
    flows over the connection and the state the lock guards. *)

From stdpp Require Import strings.
From S2P Require Import Prelude Bytes ConfigPath Core Flow.

Local Open Scope bytes_scope.

Import Protocol.

(** ** Statuses *)

Inductive RpcCode :=
| RpcUnauthenticated | RpcPermissionDenied | RpcFailedPrecondition | RpcUnimplemented
| RpcVersionNotServed | RpcInvalidArgument | RpcNotFound | RpcAlreadyExists | RpcUnavailable
| RpcOther.

Definition map_rpc_status (code : RpcCode) : ClientError :=
  match code with
  | RpcUnauthenticated => mkClientError Unauthenticated "authentication required"
  | RpcPermissionDenied => mkClientError PermissionDenied "permission denied"
  | RpcFailedPrecondition | RpcUnimplemented =>
      mkClientError IncompatibleProtocol "service protocol is incompatible"
  | RpcVersionNotServed =>
      mkClientError VersionNotServed "the service no longer serves this protocol version"
  | RpcInvalidArgument => mkClientError InvalidRequest "request is invalid"
  | RpcNotFound => mkClientError NotFound "configuration value not found"
  | RpcAlreadyExists => mkClientError Conflict "configuration path already exists"
  | RpcUnavailable => mkClientError Unavailable "service is unavailable"
  | RpcOther => mkClientError Internal "request failed"
  end.

Lemma only_retirements_map_to_version_not_served code :
  kind (map_rpc_status code) = VersionNotServed ↔ code = RpcVersionNotServed.
Proof. by destruct code. Qed.

(** ** Negotiation *)

Record VersionReply := mkVersionReply {
  application_version : bytes;
  reply_protocol_version : bytes;
  supported_protocol_versions : list bytes }.

(** [Handshake]: a connection that has not yet agreed a version. *)
Class Handshake (S : Type) := {
  served_versions : list ProtocolVersion → S → result (list ServedVersion) ClientError * S;
  legacy_version : S → result VersionReply ClientError * S }.

Module Sessions.

Section negotiation.
Context {S : Type} `{Handshake S}.

Definition predates_the_handshake (error : ClientError) : bool :=
  bool_decide (kind error = Unauthenticated) || bool_decide (kind error = IncompatibleProtocol).

(** [ServedVersion::new] names a version with no deprecation date. *)
Definition undated (version : bytes) : ServedVersion := mkServedVersion version None.

Definition legacy_answer (reply : VersionReply) : list ServedVersion :=
  if bool_decide (reply_protocol_version reply = as_str LEGACY) then [undated (as_str LEGACY)]
  else match supported_protocol_versions reply with
       | [] => [undated (reply_protocol_version reply)]
       | versions => List.map undated versions
       end.

Definition legacy_served : Flow S (result (list ServedVersion) ClientError) :=
  let! reply := act legacy_version in Ret (Ok (legacy_answer reply)).

(** The warning about a deprecation date is a log line. *)
Definition negotiate : Flow S (result ServiceStatus ClientError) :=
  let! served :=
    (await r := act (served_versions ALL) in
     match r with
     | Ok served => Ret (Ok served)
     | Err error => if predates_the_handshake error then legacy_served else Ret (Err error)
     end) in
  Ret (select served).
End negotiation.

(** ** Sessions *)

Record SessionState (T : Type) := mkSessionState {
  version : ProtocolVersion;
  deprecation_date : option bytes;
  transport : T }.
Arguments mkSessionState {T}.
Arguments version {T}.
Arguments deprecation_date {T}.
Arguments transport {T}.

(** The connection with what the session's lock guards. *)
Record Session (W T : Type) := mkSession { connection : W; state : SessionState T }.
Arguments mkSession {W T}.
Arguments connection {W T}.
Arguments state {W T}.

Section session.
(** [Connection::speaking]: a new transport for a version. *)
Context {W T : Type} `{Handshake W} (speaking : ProtocolVersion → T).

(** A step on the connection. *)
Definition over {A} (step : W → A * W) (s : Session W T) : A * Session W T :=
  let r := step (connection s) in (r.1, mkSession r.2 (state s)).

#[global] Instance session_handshake : Handshake (Session W T) := {|
  served_versions versions := over (served_versions versions);
  legacy_version := over legacy_version |}.

Definition session_state (status : ServiceStatus) : SessionState T :=
  mkSessionState (protocol_version status) (status_deprecation_date status)
    (speaking (protocol_version status)).

Definition open : Flow W (result (SessionState T) ClientError) :=
  let! status := negotiate in Ret (Ok (session_state status)).

Definition swap (st : SessionState T) (s : Session W T) : unit * Session W T :=
  (tt, mkSession (connection s) st).

(** The three values are replaced under the lock. *)
Definition renegotiate : Flow (Session W T) (result T ClientError) :=
  let! status := negotiate in
  await _ := act (swap (session_state status)) in
  Ret (Ok (speaking (protocol_version status))).

Definition take_transport (s : Session W T) : T * Session W T := (transport (state s), s).

Definition call {R} (operation : T → Flow (Session W T) (result R ClientError))
  : Flow (Session W T) (result R ClientError) :=
  await t := act take_transport in
  await outcome := operation t in
  match outcome with
  | Err error =>
      if bool_decide (kind error = VersionNotServed)
      then let! t' := renegotiate in operation t'
      else Ret (Err error)
  | Ok r => Ret (Ok r)
  end.
End session.

(** ** What the lock guards *)

Section bound.
Context {W T : Type} `{Handshake W} (speaking : ProtocolVersion → T).
Implicit Types s : Session W T.

(** A state some negotiation ended in: a version this build speaks, chosen from
    a service's answer with its announced date, and that version's transport. *)
Definition Negotiated (st : SessionState T) : Prop :=
  ∃ served status, select served = Ok status ∧ st = session_state speaking status.

(** The session's state is left as it is, or replaced by a negotiated one. *)
Definition kept s s' : Prop := state s' = state s ∨ Negotiated (state s').

#[export] Instance kept_refl : Reflexive kept.
Proof. by left. Qed.

Lemma over_kept {A} (step : W → A * W) s : kept s (over step s).2.
Proof. by left. Qed.

Lemma negotiate_steps {S} `{Handshake S} (G : relation S) :
  (∀ v (x : S), G x (served_versions v x).2) → (∀ x : S, G x (legacy_version x).2) → all_steps G negotiate.
Proof.
  intros Hs Hl. apply all_steps_try; [|done]. split; [apply Hs|]. intros [served|e]; [exact I|].
  simpl. destruct (predates_the_handshake e); [|exact I]. apply all_steps_try; [by apply all_steps_act|done].
Qed.

Lemma negotiate_returns {S} `{Handshake S} :
  returns (λ r, ∀ status, r = Ok status → ∃ served, select served = Ok status) (@negotiate S _).
Proof.
  apply (returns_bind (λ _, True)).
  - intros [served|e]; simpl; [done|]. destruct (predates_the_handshake e); [|done]. by intros [].
  - intros [served|e] _; simpl; [by eexists|done].
Qed.

Lemma renegotiate_kept : all_steps kept (renegotiate speaking).
Proof.
  eapply all_steps_bind_returns; [|apply negotiate_returns|].
  { apply negotiate_steps; by left. }
  intros [status|e]; [|done]. intros Hs. destruct (Hs status eq_refl) as [served Hserved].
  split; [|done]. intros s. right. by exists served, status.
Qed.

Lemma call_kept {R} (operation : T → Flow (Session W T) (result R ClientError)) :
  (∀ t, all_steps kept (operation t)) → all_steps kept (call speaking operation).
Proof.
  intros Hop. split; [by intros s; left|]. intros t. apply (all_steps_bind _ (operation t)); [apply Hop|].
  intros [r|e]; [exact I|]. case_bool_decide; [|exact I]. apply all_steps_try; [apply renegotiate_kept|apply Hop].
Qed.

(** However many calls share a session and however they interleave, its
    version, its announced date and its transport are at every moment those of
    one negotiation: a session never reports a version its calls do not travel
    on. *)
Theorem session_speaks_what_it_reports {R} (env : relation (Session W T)) st w pool s :
  (∀ s s', env s s' → state s' = state s) →
  Negotiated st →
  rtc (pool_step
         (λ f, ∃ operation : T → Flow (Session W T) (result R ClientError),
            (∀ t, all_steps (λ s s', state s' = state s) (operation t)) ∧ f = call speaking operation) env)
    ([], mkSession w st) (pool, s) →
  Negotiated (state s) ∧ transport (state s) = speaking (version (state s)).
Proof.
  intros Henv Hst Hsteps. assert (Negotiated (state s)) as HN.
  - eapply (reachable_pool kept) in Hsteps as [_ Hs]; [|intros ???; left; auto|apply _| |constructor].
    + simpl in Hs. remember (mkSession w st) as s0 eqn:E. revert E.
      assert (∀ a b, rtc kept a b → Negotiated (state a) → Negotiated (state b)) as Hk.
      { intros a b Hab. induction Hab as [|a b c Hab _ IH]; [done|]. intros Ha. apply IH.
        destruct Hab as [->|]; done. }
      intros ->. by eapply Hk.
    + intros f (operation & Hop & ->). apply call_kept. intros t. specialize (Hop t).
      induction (operation t) as [a|B step k IH]; [done|]. destruct Hop as [Hs1 Hk].
      split; [by left|]. auto.
  - split; [done|]. destruct HN as (served & status & _ & ->). done.
Qed.
End bound.

(** ** Surviving a retirement *)

(** What a session relies on of a service it reaches by transports of one
    version each: [same] relates states that differ in counters only, and
    [serves] is what a handshake answers. *)
Class VersionedService (W T Req Resp : Type) := {
  request : T → Req → W → result Resp ClientError * W;
  serves : W → list ServedVersion;
  same : relation W }.

Definition names (served : list ServedVersion) : list bytes := List.map Protocol.version served.

Class ServiceLaws {W T Req Resp} `{Handshake W} `{VersionedService W T Req Resp}
    (speaking : ProtocolVersion → T) : Prop := {
  #[global] same_equivalence :: Equivalence same;
  same_serves w w' : same w w' → serves w' = serves w;
  same_request t q w w' : same w w' →
    (request t q w').1 = (request t q w).1 ∧ same (request t q w).2 (request t q w').2;
  handshake_answers vs w :
    (served_versions vs w).1 = Ok (serves w) ∧ same w (served_versions vs w).2;
  unserved_refused v q w : as_str v ∉ names (serves w) →
    (request (speaking v) q w).1 = Err (map_rpc_status RpcVersionNotServed)
    ∧ same w (request (speaking v) q w).2;
  served_answers v q w e : as_str v ∈ names (serves w) →
    (request (speaking v) q w).1 = Err e → kind e ≠ VersionNotServed;
  request_serves t q w : serves (request t q w).2 = serves w }.

(** An operation: requests in sequence, each depending on the answers before it,
    given up at the first error. *)
Inductive Program (Req Resp R : Type) :=
| Return (r : R)
| Ask (q : Req) (k : Resp → Program Req Resp R).
Arguments Return {Req Resp R}.
Arguments Ask {Req Resp R}.

Section retirement.
Context {W T Req Resp : Type} (speaking : ProtocolVersion → T).
Context `{Handshake W} `{VersionedService W T Req Resp} `{!ServiceLaws speaking}.
Implicit Types (s : Session W T) (w : W).

Fixpoint perform {R} (p : Program Req Resp R) (t : T) : Flow (Session W T) (result R ClientError) :=
  match p with
  | Return r => Ret (Ok r)
  | Ask q k => let! answer := act (over (request t q)) in perform (k answer) t
  end.

Lemma run_perform {R} q (k : Resp → Program Req Resp R) t s :
  run (perform (Ask q k) t) s =
  let r := request t q (connection s) in
  match r.1 with
  | Ok answer => run (perform (k answer) t) (mkSession r.2 (state s))
  | Err e => (Err e, mkSession r.2 (state s))
  end.
Proof.
  cbn [perform]. unfold flow_try. rewrite run_bind. cbn [run act over fst snd].
  by destruct (request t q (connection s)) as [[]].
Qed.

(** Performed on states that differ in counters, an operation answers the same
    and leaves states that differ in counters; it leaves the session's state and
    what is served alone. *)
Lemma perform_same {R} (p : Program Req Resp R) t : ∀ w w' st st', same w w' →
  let a := run (perform p t) (mkSession w st) in
  let b := run (perform p t) (mkSession w' st') in
  b.1 = a.1 ∧ same (connection a.2) (connection b.2) ∧ state a.2 = st
  ∧ serves (connection a.2) = serves w.
Proof.
  induction p as [r|q k IH]; intros w w' st st' Hw; [done|]. rewrite !run_perform. cbn [connection].
  destruct (same_request t q w w' Hw) as [Ha Hs]. rewrite Ha. cbn [state].
  rewrite <- (request_serves t q w). destruct (request t q w).1 as [answer|e]; [|done].
  apply IH. done.
Qed.

Lemma perform_served {R} (p : Program Req Resp R) v : ∀ w st e, as_str v ∈ names (serves w) →
  (run (perform p (speaking v)) (mkSession w st)).1 = Err e → kind e ≠ VersionNotServed.
Proof.
  induction p as [r|q k IH]; intros w st e Hv; [done|]. rewrite run_perform. cbn [connection state].
  destruct (request (speaking v) q w).1 as [answer|e'] eqn:E; [|intros [= <-]; by eapply served_answers].
  apply IH. by rewrite request_serves.
Qed.

(** Undisturbed, a negotiation selects from what is served. *)
Lemma run_renegotiate s :
  let r := run (renegotiate speaking) s in
  match select (serves (connection s)) with
  | Ok status => r.1 = Ok (speaking (protocol_version status)) ∧ state r.2 = session_state speaking status
  | Err e => r.1 = Err e ∧ state r.2 = state s
  end ∧ same (connection s) (connection r.2).
Proof.
  destruct (handshake_answers ALL (connection s)) as [Ha Hs].
  unfold renegotiate, negotiate, flow_try. rewrite !run_bind. cbn [run act served_versions session_handshake].
  unfold over. cbn [fst snd connection]. rewrite Ha. cbn [run fst snd].
  destruct (select _) as [status|e]; done.
Qed.

(** The version an operation should travel on: the session's own while it is
    served, and otherwise the one selected from what is. *)
Definition right_version (served : list ServedVersion) (st : SessionState T) : result (SessionState T) ClientError :=
  if bool_decide (as_str (version st) ∈ names served) then Ok st
  else and_then (select served) (λ status, Ok (session_state speaking status)).

(** A call on a session takes effect exactly once, on a version the service
    serves.  While its own version is served the call is the operation itself;
    once that version is retired, the call does what the operation does on the
    version selected from the service's answer, started from the same state of
    the service, and the session speaks that version from then on; and when no
    version is common, it reports both lists and changes nothing. *)
Lemma call_survives_retirement {R} q (k : Resp → Program Req Resp R) s :
  transport (state s) = speaking (version (state s)) →
  let r := run (call speaking (perform (Ask q k))) s in
  match right_version (serves (connection s)) (state s) with
  | Ok st =>
      let once := run (perform (Ask q k) (transport st)) (mkSession (connection s) st) in
      r.1 = once.1 ∧ same (connection once.2) (connection r.2) ∧ state r.2 = st
  | Err e => r.1 = Err e ∧ same (connection s) (connection r.2) ∧ state r.2 = state s
  end.
Proof.
  intros Ht. unfold call. rewrite run_bind. cbn [run act take_transport fst snd]. rewrite run_bind, Ht.
  destruct s as [w st]. cbn [state connection] in *. unfold right_version. case_bool_decide as Hv.
  - destruct (perform_same (Ask q k) (speaking (version st)) w w st st) as (_ & _ & Hst & _); [done|].
    pose proof (perform_served (Ask q k) (version st) w st) as Hne. rewrite Ht.
    destruct (run (perform (Ask q k) (speaking (version st))) (mkSession w st)) as [[a|e] s1] eqn:E;
      cbn [fst snd run] in *; [done|].
    rewrite bool_decide_eq_false_2 by (by apply Hne). done.
  - destruct (unserved_refused (version st) q w Hv) as [He Hs].
    rewrite (run_perform q k (speaking (version st)) (mkSession w st)). cbn [connection state]. rewrite He.
    cbn [fst snd map_rpc_status kind]. rewrite bool_decide_eq_true_2 by done. unfold flow_try.
    rewrite run_bind. set (w1 := (request (speaking (version st)) q w).2) in *.
    destruct (run_renegotiate (mkSession w1 st)) as [Hr Hs']. cbn [connection state] in *.
    rewrite (same_serves w w1 Hs) in Hr.
    destruct (select (serves w)) as [status|e]; cbn [and_then]; destruct Hr as [-> Hst].
    + destruct (run (renegotiate speaking) (mkSession w1 st)).2 as [w2 st2]. cbn [connection state] in *. subst st2.
      assert (same w w2) as Hw by (by etrans).
      destruct (perform_same (Ask q k) (speaking (protocol_version status)) w w2
                  (session_state speaking status) (session_state speaking status) Hw) as (? & ? & ? & _).
      destruct (perform_same (Ask q k) (speaking (protocol_version status)) w2 w2
                  (session_state speaking status) (session_state speaking status)) as (_ & _ & ? & _); [done|].
      done.
    + cbn [run fst snd]. split; [done|]. split; [by etrans|done].
Qed.
End retirement.

(** *** One call on a new session *)

#[local] Instance sample_handshake : Handshake unit := {|
  served_versions _ s := (Ok [undated "v5"], s);
  legacy_version s := (Err (map_rpc_status RpcUnimplemented), s) |}.

Definition sample_state : SessionState ProtocolVersion := mkSessionState V5 None V5.

Lemma session_speaks_what_it_reports_witness :
  Negotiated id sample_state ∧ transport sample_state = id (version sample_state).
Proof.
  apply (session_speaks_what_it_reports (R:=unit) id eq sample_state tt
           [call id (λ _, Ret (Ok tt))] (mkSession tt sample_state)).
  - by intros ? ? ->.
  - by exists [undated "v5"], (mkServiceStatus V5 None).
  - apply rtc_once, (pool_start _ _ (call id (λ _, Ret (Ok tt))) []). by exists (λ _, Ret (Ok tt)).
Defined.

End Sessions.
