(* ===== verification/SigningKeys.v ===== *)
(** * The issuers' signing keys

    Models [crates/sovereign-config-server/src/auth/jwks.rs] and the bounded
    response reader of [auth.rs]: reading a key set, and the cache of one issuer's
    keys as a machine whose tasks (token lookups and periodic re-reads) contend
    for the fetch lock.  The steps of a task are those between two points where
    it waits: taking the lock and the issuer's answer. *)

From stdpp Require Import strings.
From S2P Require Import Prelude Bytes ConfigPath Core.

Local Open Scope bytes_scope.

(** [ring]'s RS256 check, [serde_json] reading a JWK set, and the unpadded
    URL-safe base64 engine. *)
Record Jwk := mkJwk {
  kty : bytes; jwk_kid : option bytes; alg : option bytes; usage : option bytes;
  jwk_n : option bytes; jwk_e : option bytes }.

Class KeyCrates := {
  rsa_verify : bytes → bytes → bytes → bytes → bool;
  jwk_set_from_slice : bytes → option (list Jwk);
  url_decode : bytes → option bytes }.

Module Jwks.

(** Nanoseconds. *)
Definition PERIODIC_REFRESH : Z := 600 * Stamps.NANOS.
Definition RETRY_INTERVAL : Z := 15 * Stamps.NANOS.
Definition MIN_REFRESH_INTERVAL : Z := 10 * Stamps.NANOS.

Definition MAX_JWKS_RESPONSE_BYTES : nat := 64 * 1024.

Record VerifyingKey := mkKey { modulus : bytes; exponent : bytes }.
#[global] Instance VerifyingKey_eq_dec : EqDecision VerifyingKey.
Proof. solve_decision. Defined.

Definition KeySet : Type := gmap bytes VerifyingKey.

Inductive KeyLookup := Found (key : VerifyingKey) | Unknown | KeysUnavailable.

Section reading.
Context `{KeyCrates}.

Definition verifies (self : VerifyingKey) (message signature : bytes) : bool :=
  rsa_verify (modulus self) (exponent self) message signature.

Definition is_none_or (o : option bytes) (f : bytes → bool) : bool :=
  match o with Some x => f x | None => true end.

Definition signing (jwk : Jwk) : bool :=
  bool_decide (kty jwk = "RSA")
  && is_none_or (alg jwk) (λ a, bool_decide (a = "RS256"))
  && is_none_or (usage jwk) (λ u, bool_decide (u = "sig")).

Definition entry (jwk : Jwk) : option (bytes * VerifyingKey) :=
  modulus ← jwk_n jwk ≫= url_decode;
  exponent ← jwk_e jwk ≫= url_decode;
  kid ← jwk_kid jwk;
  if is_empty kid then None else Some (kid, mkKey modulus exponent).

(** Collecting into a [HashMap]: a later key of the same name replaces. *)
Definition parse_key_set (body : bytes) : option KeySet :=
  set ← jwk_set_from_slice body;
  Some (foldl (λ m kv, <[kv.1 := kv.2]> m) ∅ (omap entry (List.filter signing set))).

(** A response: whether its status is a success, its announced length, and its
    body chunk by chunk, each of which may fail to arrive. *)
Record HttpResponse := mkResponse {
  is_success : bool; content_length : option nat; chunks : list (option bytes) }.

Fixpoint read_chunks (body : bytes) (l : list (option bytes)) : option bytes :=
  match l with
  | [] => Some body
  | None :: _ => None
  | Some chunk :: l' =>
      if MAX_JWKS_RESPONSE_BYTES <? length body + length chunk then None
      else read_chunks (body ++ chunk) l'
  end.

Definition read_bounded_response (response : HttpResponse) : option bytes :=
  if match content_length response with Some n => MAX_JWKS_RESPONSE_BYTES <? n | None => false end
  then None else read_chunks [] (chunks response).

(** [None] is a request that failed to send. *)
Definition fetch_keys (response : option HttpResponse) : option KeySet :=
  response ← response;
  body ← (if is_success response then read_bounded_response response else None);
  parse_key_set body.
End reading.

(** ** One issuer's cache *)

Record LastFetch := mkLast { miss : option Z; succeeded : bool }.

(** Where a task is: a lookup before its first look, waiting for the lock,
    holding it, or holding it and waiting for the issuer; a re-read likewise. *)
Inductive Task :=
| Looking (kid : bytes) | Waiting (kid : bytes) | Locked (kid : bytes) | Fetching (kid : bytes)
| RefreshWaiting | Refreshing
| Looked (kid : bytes) (r : KeyLookup) | Refreshed (ok : bool).

(** The cache, the lock with what it guards, the tasks and the clock; and the
    history a claim is stated on: when lookups prompted a fetch and what fetches
    answered, newest first. *)
Record IssuerKeys := mkIssuerKeys {
  keys : KeySet;
  last : LastFetch;
  holder : option nat;
  tasks : gmap nat Task;
  clock : Z;
  prompted : list Z;
  answers : list (option KeySet) }.

Definition cached (s : IssuerKeys) (kid : bytes) : option VerifyingKey := keys s !! kid.

Definition initial : IssuerKeys := mkIssuerKeys ∅ (mkLast None false) None ∅ 0 [] [].

Section cache.
Context (min_refresh_interval : Z).

Definition set_task (i : nat) (t : Task) (s : IssuerKeys) : IssuerKeys :=
  mkIssuerKeys (keys s) (last s) (holder s) (<[i := t]> (tasks s)) (clock s) (prompted s) (answers s).
Definition set_holder (h : option nat) (s : IssuerKeys) : IssuerKeys :=
  mkIssuerKeys (keys s) (last s) h (tasks s) (clock s) (prompted s) (answers s).

(** A task that is over gives up the lock. *)
Definition finish (i : nat) (t : Task) (s : IssuerKeys) : IssuerKeys := set_task i t (set_holder None s).

(** [key] before the lock. *)
Definition look (i : nat) (kid : bytes) (s : IssuerKeys) : IssuerKeys :=
  match cached s kid with
  | Some key => set_task i (Looked kid (Found key)) s
  | None => set_task i (Waiting kid) s
  end.

Definition recent (s : IssuerKeys) : bool :=
  match miss (last s) with Some m => (clock s - m <? min_refresh_interval)%Z | None => false end.

(** [key] with the lock, up to the fetch. *)
Definition locked_key (i : nat) (kid : bytes) (s : IssuerKeys) : IssuerKeys :=
  match cached s kid with
  | Some key => finish i (Looked kid (Found key)) s
  | None =>
      if recent s then finish i (Looked kid (if succeeded (last s) then Unknown else KeysUnavailable)) s
      else mkIssuerKeys (keys s) (mkLast (Some (clock s)) (succeeded (last s))) (holder s)
             (<[i := Fetching kid]> (tasks s)) (clock s) (clock s :: prompted s) (answers s)
  end.

(** [fetch], once the issuer has answered. *)
Definition fetch (fetched : option KeySet) (s : IssuerKeys) : bool * IssuerKeys :=
  let last' := mkLast (miss (last s)) (bool_decide (is_Some fetched)) in
  match fetched with
  | None => (false, mkIssuerKeys (keys s) last' (holder s) (tasks s) (clock s) (prompted s) (fetched :: answers s))
  | Some ks => (true, mkIssuerKeys ks last' (holder s) (tasks s) (clock s) (prompted s) (fetched :: answers s))
  end.

(** [key] after the fetch. *)
Definition fetched_key (i : nat) (kid : bytes) (fetched : option KeySet) (s : IssuerKeys) : IssuerKeys :=
  let '(ok, s') := fetch fetched s in
  finish i (Looked kid (if ok then match cached s' kid with Some key => Found key | None => Unknown end
                        else KeysUnavailable)) s'.

(** [refresh] of one issuer, after the fetch. *)
Definition refreshed (i : nat) (fetched : option KeySet) (s : IssuerKeys) : IssuerKeys :=
  let '(ok, s') := fetch fetched s in finish i (Refreshed ok) s'.

(** A lookup is dropped with its request wherever it is, and gives up the lock. *)
Definition cancel (i : nat) (s : IssuerKeys) : IssuerKeys :=
  mkIssuerKeys (keys s) (last s) (if bool_decide (holder s = Some i) then None else holder s)
    (delete i (tasks s)) (clock s) (prompted s) (answers s).

Definition tick (d : Z) (s : IssuerKeys) : IssuerKeys :=
  mkIssuerKeys (keys s) (last s) (holder s) (tasks s) (clock s + d) (prompted s) (answers s).

Inductive step : IssuerKeys → IssuerKeys → Prop :=
| step_start i t s : tasks s !! i = None → (∃ kid, t = Looking kid) ∨ t = RefreshWaiting →
    step s (set_task i t s)
| step_look i kid s : tasks s !! i = Some (Looking kid) → step s (look i kid s)
| step_lock i kid s : tasks s !! i = Some (Waiting kid) → holder s = None →
    step s (set_task i (Locked kid) (set_holder (Some i) s))
| step_locked i kid s : tasks s !! i = Some (Locked kid) → step s (locked_key i kid s)
| step_fetched i kid fetched s : tasks s !! i = Some (Fetching kid) → step s (fetched_key i kid fetched s)
| step_refresh_lock i s : tasks s !! i = Some RefreshWaiting → holder s = None →
    step s (set_task i Refreshing (set_holder (Some i) s))
| step_refreshed i fetched s : tasks s !! i = Some Refreshing → step s (refreshed i fetched s)
| step_cancel i s : step s (cancel i s)
| step_tick d s : (0 ≤ d)%Z → step s (tick d s).

Definition reachable (s : IssuerKeys) : Prop := rtc step initial s.

(** ** What holds in every reachable state *)

Definition holds (t : option Task) : Prop :=
  match t with Some (Locked _) | Some (Fetching _) | Some Refreshing => True | _ => False end.

Definition spaced (l : list Z) : Prop := Sorted (λ newer older, older + min_refresh_interval ≤ newer)%Z l.

Fixpoint newest (l : list (option KeySet)) : KeySet :=
  match l with [] => ∅ | Some ks :: _ => ks | None :: l' => newest l' end.

Record Inv (s : IssuerKeys) : Prop := {
  inv_holder i : holds (tasks s !! i) ↔ holder s = Some i;
  inv_miss : miss (last s) = head (prompted s);
  inv_clock : Forall (λ t, 0 ≤ t ≤ clock s)%Z (prompted s);
  inv_now : (0 ≤ clock s)%Z;
  inv_spaced : spaced (prompted s);
  inv_keys : keys s = newest (answers s);
  inv_succeeded : succeeded (last s) = true ↔ ∃ ks, head (answers s) = Some (Some ks) }.

Lemma Inv_initial : Inv initial.
Proof.
  split; simpl; [intros i; by rewrite lookup_empty|done|constructor|done|constructor|done|].
  split; [done|]. by intros [? ?].
Qed.

(** Moving a task along without taking or giving up the lock. *)
Lemma Inv_set_task i t s : Inv s → (holds (Some t) ↔ holds (tasks s !! i)) → Inv (set_task i t s).
Proof.
  intros [] Ht. split; try done. simpl. intros j. destruct (decide (i = j)) as [<-|Hij].
  - by rewrite lookup_insert_eq, Ht.
  - by rewrite lookup_insert_ne.
Qed.

Lemma Inv_lock i t s : Inv s → holder s = None → holds (Some t) → Inv (set_task i t (set_holder (Some i) s)).
Proof.
  intros [Hh] Hn Ht. split; try done. simpl. intros j. destruct (decide (i = j)) as [<-|Hij].
  - rewrite lookup_insert_eq. done.
  - rewrite lookup_insert_ne, Hh, Hn by done. split; [done|]. by intros [= ->].
Qed.

Lemma Inv_finish i t s : Inv s → holds (tasks s !! i) → ¬ holds (Some t) → Inv (finish i t s).
Proof.
  intros [Hh] Hi Ht. split; try done. simpl. intros j. destruct (decide (i = j)) as [<-|Hij].
  - rewrite lookup_insert_eq. naive_solver.
  - rewrite lookup_insert_ne by done. split; [|done]. rewrite Hh. apply Hh in Hi. congruence.
Qed.

Lemma Inv_fetch fetched s : Inv s → Inv (fetch fetched s).2 ∧ tasks (fetch fetched s).2 = tasks s.
Proof.
  intros []. unfold fetch. destruct fetched as [ks|]; (split; [|done]); split; try done; simpl.
  - split; [by eexists|done].
  - split; [done|]. by intros [].
Qed.

Lemma Inv_locked_key i kid s : Inv s → tasks s !! i = Some (Locked kid) → Inv (locked_key i kid s).
Proof.
  intros HI Hi. unfold locked_key. destruct (cached s kid); [apply Inv_finish; [done|by rewrite Hi|auto]|].
  destruct (recent s) eqn:Er; [apply Inv_finish; [done|by rewrite Hi|auto]|].
  pose proof HI as [Hh Hm Hc Hn Hs Hk Hsucc]. split; simpl; try done.
  - intros j. destruct (decide (i = j)) as [<-|Hij]; [rewrite lookup_insert_eq, <- Hh, Hi; done|].
    by rewrite lookup_insert_ne.
  - constructor; [lia|done].
  - constructor; [done|]. unfold recent in Er. rewrite Hm in Er.
    destruct (prompted s) as [|m l]; constructor. simpl in Er. lia.
Qed.

Lemma Inv_cancel i s : Inv s → Inv (cancel i s).
Proof.
  intros [Hh]. split; try done. simpl. intros j. destruct (decide (i = j)) as [<-|Hij].
  - rewrite lookup_delete_eq. case_bool_decide; naive_solver.
  - rewrite lookup_delete_ne, Hh by done. case_bool_decide; naive_solver.
Qed.

Lemma Inv_tick d s : (0 ≤ d)%Z → Inv s → Inv (tick d s).
Proof.
  intros Hd []. split; try done; simpl; [|lia]. eapply Forall_impl; [done|]. simpl. lia.
Qed.

Lemma Inv_step s s' : step s s' → Inv s → Inv s'.
Proof.
  intros Hstep HI. destruct Hstep as
    [i t s Hi Ht|i kid s Hi|i kid s Hi Hn|i kid s Hi|i kid fetched s Hi|i s Hi Hn|i fetched s Hi|i s|d s Hd].
  - apply Inv_set_task; [done|]. rewrite Hi. destruct Ht as [[kid ->]| ->]; done.
  - unfold look. destruct (cached s kid); apply Inv_set_task; by rewrite ?Hi.
  - by apply Inv_lock.
  - by apply Inv_locked_key.
  - unfold fetched_key. destruct (Inv_fetch fetched s HI) as [Hf Ht]. destruct (fetch fetched s) as [ok s1]. cbn [snd] in *.
    apply Inv_finish; [done|by rewrite Ht, Hi|auto].
  - by apply Inv_lock.
  - unfold refreshed. destruct (Inv_fetch fetched s HI) as [Hf Ht]. destruct (fetch fetched s) as [ok s1]. cbn [snd] in *.
    apply Inv_finish; [done|by rewrite Ht, Hi|auto].
  - by apply Inv_cancel.
  - by apply Inv_tick.
Qed.

Lemma reachable_Inv s : reachable s → Inv s.
Proof.
  intros Hr. unfold reachable in Hr. pose proof Inv_initial as HI. revert HI.
  induction Hr as [|a b c Hab _ IH]; [done|]. intros Ha. apply IH. by eapply Inv_step.
Qed.

Lemma spaced_count l c : (0 ≤ min_refresh_interval)%Z → spaced l → Forall (λ t, 0 ≤ t ≤ c)%Z l →
  ((Z.of_nat (length l) - 1) * min_refresh_interval ≤ c)%Z ∨ l = [].
Proof.
  intros Hm Hs Hl. destruct l as [|t l]; [by right|]. left.
  assert ((Z.of_nat (length l)) * min_refresh_interval ≤ t)%Z as H.
  { revert t Hs Hl. induction l as [|u l IH]; intros t Hs Hl; [inversion Hl; simpl; lia|].
    inversion Hs as [|? ? Hs' Hh]; subst. inversion Hh; subst. inversion Hl; subst.
    specialize (IH u Hs' ltac:(done)). simpl length. lia. }
  inversion Hl; subst. simpl length. lia.
Qed.

(** However tokens naming unknown keys arrive, the fetches they prompt start
    at least the refresh interval apart, so at most one for each interval the
    server has run and one more; and the issuer is asked by one task at a time. *)
Theorem prompted_fetches_are_bounded s : (0 < min_refresh_interval)%Z → reachable s →
  spaced (prompted s)
  ∧ (Z.of_nat (length (prompted s)) ≤ clock s / min_refresh_interval + 1)%Z
  ∧ ∀ i j, holds (tasks s !! i) → holds (tasks s !! j) → i = j.
Proof.
  intros Hm HI%reachable_Inv. pose proof HI as [Hh _ Hc Hn Hs _ _]. split; [done|]. split.
  - destruct (spaced_count (prompted s) (clock s)) as [H| ->]; [lia|done..| |].
    + assert (Z.of_nat (length (prompted s)) - 1 ≤ clock s / min_refresh_interval)%Z; [|lia].
      apply Z.div_le_lower_bound; lia.
    + simpl. pose proof (Z.div_pos (clock s) min_refresh_interval). lia.
  - intros i j Hi%Hh Hj%Hh. congruence.
Qed.

(** A task that moves to a new place is the one a step moved. *)
Lemma new_task (m : gmap nat Task) i j t x :
  <[j := t]> m !! i = Some x → m !! i ≠ Some x → i = j ∧ x = t.
Proof.
  destruct (decide (j = i)) as [->|Hij]; [rewrite lookup_insert_eq; intros [= <-]; done|].
  by rewrite lookup_insert_ne.
Qed.

(** What a lookup may end with, after the fetches so far. *)
Definition justified (kid : bytes) (r : KeyLookup) (answers_ : list (option KeySet)) : Prop :=
  match r with
  | Found key => newest answers_ !! kid = Some key
  | Unknown => ∃ ks, head answers_ = Some (Some ks) ∧ ks !! kid = None
  | KeysUnavailable => ∀ ks, head answers_ ≠ Some (Some ks)
  end.

Lemma locked_justified s i kid kid' r :
  Inv s → tasks s !! i ≠ Some (Looked kid' r) → tasks (locked_key i kid s) !! i = Some (Looked kid' r) →
  justified kid' r (answers (locked_key i kid s)).
Proof.
  intros [_ _ _ _ _ Hk Hs] Hn. unfold locked_key, cached.
  destruct (keys s !! kid) as [key|] eqn:E; [|destruct (recent s)]; cbn [finish set_task set_holder tasks];
    rewrite lookup_insert_eq; intros [= <- <-]; cbn [justified finish set_task set_holder answers].
  - by rewrite <- Hk.
  - destruct (succeeded (last s)) eqn:Es; cbn [justified].
    + destruct (proj1 Hs eq_refl) as [ks Hks]. exists ks. split; [done|]. rewrite Hk in E.
      destruct (answers s) as [|[]]; by simplify_eq/=.
    + intros ks Hks. enough (false = true) by done. apply Hs. by exists ks.
Qed.

Lemma fetched_justified s i kid kid' r fetched :
  tasks s !! i ≠ Some (Looked kid' r) → tasks (fetched_key i kid fetched s) !! i = Some (Looked kid' r) →
  justified kid' r (answers (fetched_key i kid fetched s)).
Proof.
  intros Hn. unfold fetched_key, fetch, cached. destruct fetched as [ks|];
    cbn [finish set_task set_holder tasks answers keys]; rewrite lookup_insert_eq; intros [= <- <-]; [|done].
  destruct (ks !! kid) eqn:E; cbn [justified]; [done|by exists ks].
Qed.

(** A lookup that ends with a key ends with the one the newest key set the
    issuer has answered holds under that name, so a key the issuer has dropped
    is refused from the next successful fetch on; it ends unknown only when the
    most recent fetch succeeded without the key, and unavailable only when the
    most recent fetch did not. *)
Theorem lookups_follow_the_issuer s s' i kid r :
  reachable s → step s s' → tasks s !! i ≠ Some (Looked kid r) → tasks s' !! i = Some (Looked kid r) →
  justified kid r (answers s').
Proof.
  intros HI%reachable_Inv Hstep Hn Hi'.
  destruct Hstep as
    [j t s Hj Ht|j kid' s Hj|j kid' s Hj Hh|j kid' s Hj|j kid' fetched s Hj|j s Hj Hh|j fetched s Hj|j s|d s Hd].
  - apply new_task in Hi' as [_ <-]; [|done]. by destruct Ht as [[? ?]|?].
  - unfold look, cached in *. destruct (keys s !! kid') as [key|] eqn:E; apply new_task in Hi' as [_ E']; try done.
    injection E' as -> ->. simpl. by rewrite <- (inv_keys _ HI).
  - by apply new_task in Hi' as [_ ?].
  - destruct (decide (i = j)) as [->|Hij]; [by apply locked_justified|]. exfalso. apply Hn. rewrite <- Hi'.
    unfold locked_key, cached. destruct (keys s !! kid'); [|destruct (recent s)]; simpl; by rewrite lookup_insert_ne.
  - destruct (decide (i = j)) as [->|Hij]; [by apply fetched_justified|]. exfalso. apply Hn. rewrite <- Hi'.
    unfold fetched_key, fetch. destruct fetched; simpl; by rewrite lookup_insert_ne.
  - by apply new_task in Hi' as [_ ?].
  - unfold refreshed, fetch in Hi'. destruct fetched; by apply new_task in Hi' as [_ ?].
  - simpl in Hi'. apply lookup_delete_Some in Hi' as [_ ?]. done.
  - done.
Qed.
End cache.

(** *** One lookup that prompts a fetch *)

Definition sample_key : VerifyingKey := mkKey "n" "e".
Definition sample_set : KeySet := {[("k1" : bytes) := sample_key]}.

Definition sample_fetching : IssuerKeys :=
  locked_key MIN_REFRESH_INTERVAL 0 "k1"
    (set_task 0 (Locked "k1") (set_holder (Some 0)
       (look 0 "k1" (set_task 0 (Looking "k1") (tick 7 initial))))).

Lemma sample_reachable : reachable MIN_REFRESH_INTERVAL sample_fetching.
Proof.
  eapply rtc_r; [|by apply (step_locked _ 0 "k1")].
  eapply rtc_r; [|by apply (step_lock _ 0 "k1")].
  eapply rtc_r; [|by apply (step_look _ 0 "k1")].
  eapply rtc_r; [|apply (step_start _ 0 (Looking "k1")); [done|by left; exists "k1"]].
  eapply rtc_r; [reflexivity|]. by apply step_tick.
Qed.

Lemma prompted_fetches_are_bounded_witness :
  length (prompted sample_fetching) = 1
  ∧ (Z.of_nat (length (prompted sample_fetching)) ≤ clock sample_fetching / MIN_REFRESH_INTERVAL + 1)%Z.
Proof.
  split; [vm_compute; reflexivity|].
  apply (prompted_fetches_are_bounded MIN_REFRESH_INTERVAL); [done|apply sample_reachable].
Defined.

Lemma lookups_follow_the_issuer_witness :
  newest (answers (fetched_key 0 "k1" (Some sample_set) sample_fetching)) !! ("k1" : bytes) = Some sample_key.
Proof.
  apply (lookups_follow_the_issuer MIN_REFRESH_INTERVAL sample_fetching
           (fetched_key 0 "k1" (Some sample_set) sample_fetching) 0 "k1" (Found sample_key)).
  - apply sample_reachable.
  - apply step_fetched. vm_compute. reflexivity.
  - vm_compute. discriminate.
  - vm_compute. reflexivity.
Defined.

End Jwks.
