(* ===== verification/Authenticate.v ===== *)
(** * Verifying bearer tokens

    Models the authentication half of [crates/sovereign-config-server/src/auth.rs]:
    splitting a JWS compact token, its validity window in [f64] arithmetic, and
    [Authenticator::authenticate].  JSON and base64 decoding and the signature
    check are parameters; key lookups are the answers of [SigningKeys]. *)

From Stdlib Require Import SpecFloat.
From stdpp Require Import strings.
From S2P Require Import Prelude Bytes ConfigPath Core Auth SigningKeys.

Local Open Scope bytes_scope.

Import Jwks.

Record JoseHeader := mkJose { jose_alg : bytes; jose_kid : option bytes }.

(** [serde_json] reading a token header, a token's claims and a grants claim. *)
Class JwtCrates := {
  jose_from_slice : bytes → option JoseHeader;
  claims_from_slice : bytes → option Auth.TokenClaims;
  grants_from_value : Auth.Value → option (list Auth.RawGrant) }.

Module Authenticate.

(** ** [f64] *)

Definition f64_add : spec_float → spec_float → spec_float := SFadd 53 1024.
Definition f64_of (n : Z) : spec_float := binary_normalize 53 1024 n 0 false.
(** [x > y] *)
Definition f64_gt (x y : spec_float) : bool := SFltb y x.

(** [Duration::as_secs_f64], of nanoseconds. *)
Definition as_secs_f64 (d : Z) : spec_float :=
  f64_add (f64_of (d / Stamps.NANOS)) (SFdiv 53 1024 (f64_of (d mod Stamps.NANOS)) (f64_of Stamps.NANOS)).

Definition CLOCK_LEEWAY : Z := 30 * Stamps.NANOS.

(** ** Tokens *)

Record Jwt := mkJwt {
  jwt_kid : bytes; signing_input : bytes; signature : bytes; claims : Auth.TokenClaims }.

Section authenticate.
Context `{KeyCrates} `{JwtCrates}.

Definition parse_jwt (token : bytes) : result Jwt Auth.AuthenticationResult :=
  match split "."%char token with
  | [encoded_header; payload; sig] =>
      if is_empty encoded_header || is_empty payload || is_empty sig then Err Auth.MalformedBearer
      else
        let? decoded := ok_or (url_decode encoded_header) Auth.MalformedBearer in
        let? header := ok_or (jose_from_slice decoded) Auth.MalformedBearer in
        if negb (bool_decide (jose_alg header = "RS256")) then Err Auth.WrongAlgorithm
        else
          let? kid := ok_or (k ← jose_kid header; if is_empty k then None else Some k) Auth.MalformedBearer in
          let? claims := ok_or (url_decode payload ≫= claims_from_slice) Auth.MalformedBearer in
          let? sig := ok_or (url_decode sig) Auth.MalformedBearer in
          Ok (mkJwt kid (take (length encoded_header + 1 + length payload) token) sig claims)
  | _ => Err Auth.MalformedBearer
  end.

(** [now] is a [SystemTime], nanoseconds from the Unix epoch. *)
Definition require_current (c : Auth.TokenClaims) (now : Z) : result unit Auth.AuthenticationResult :=
  let now := as_secs_f64 (Z.max now 0) in
  let leeway := as_secs_f64 CLOCK_LEEWAY in
  let time (claim : option Auth.Value) : result (option spec_float) Auth.AuthenticationResult :=
    match claim with
    | None => Ok None
    | Some value => let? x := ok_or (Auth.as_f64 value) Auth.InvalidClaims in Ok (Some x)
    end in
  let is_some_and (o : option spec_float) (f : spec_float → bool) :=
    match o with Some x => f x | None => false end in
  let? exp := time (Auth.exp c) in
  let? expires := ok_or exp Auth.InvalidClaims in
  let? not_before := time (Auth.nbf c) in
  let? issued := time (Auth.iat c) in
  if f64_gt now (f64_add expires leeway)
     || is_some_and not_before (λ t, f64_gt t (f64_add now leeway))
     || is_some_and issued (λ t, f64_gt t (f64_add now leeway))
  then Err Auth.Inactive else Ok tt.

(** [keys] is what [KeySets::key] answers for an issuer and a key name. *)
Definition authenticate (accepted_identities : list Auth.AcceptedIdentity)
    (keys : bytes → bytes → KeyLookup) (headers : list bytes) (now : Z)
  : result AuthenticatedPrincipal Auth.AuthenticationResult :=
  let? token := Auth.bearer_token headers in
  let? jwt := parse_jwt token in
  let? issuer :=
    ok_or (issuer ← Auth.iss (claims jwt) ≫= Auth.as_str;
           if existsb (λ identity, bool_decide (Auth.issuer identity = issuer)) accepted_identities
           then Some issuer else None) Auth.InvalidClaims in
  match keys issuer (jwt_kid jwt) with
  | Unknown => Err Auth.AuthBadSignature
  | KeysUnavailable => Err Auth.AuthUnavailable
  | Found key =>
      if negb (verifies key (signing_input jwt) (signature jwt)) then Err Auth.AuthBadSignature
      else
        let? _ := require_current (claims jwt) now in
        Auth.validate_claims grants_from_value (claims jwt) accepted_identities
  end.

(** ** What an authenticated caller's token says *)

Lemma parse_jwt_spec token jwt : parse_jwt token = Ok jwt →
  ∃ header payload sig h,
    token = header ++ "." ++ payload ++ "." ++ sig
    ∧ url_decode header ≫= jose_from_slice = Some h ∧ jose_alg h = "RS256" ∧ jose_kid h = Some (jwt_kid jwt)
    ∧ url_decode payload ≫= claims_from_slice = Some (claims jwt) ∧ url_decode sig = Some (signature jwt)
    ∧ signing_input jwt = header ++ "." ++ payload.
Proof.
  unfold parse_jwt. pose proof (join_split "."%char token) as Hj.
  destruct (split "."%char token) as [|header [|payload [|sig [|]]]]; try done.
  cbn [join] in Hj. destruct (is_empty header || is_empty payload || is_empty sig); [done|].
  intros (d & Hd%ok_or_ok & Hr)%and_then_ok. apply and_then_ok in Hr as (h & Hh%ok_or_ok & Hr).
  destruct (bool_decide (jose_alg h = "RS256")) eqn:Ea; [|discriminate Hr]. apply bool_decide_eq_true in Ea. cbn [negb] in Hr.
  apply and_then_ok in Hr as (kid & Hk%ok_or_ok & Hr). apply and_then_ok in Hr as (c & Hc%ok_or_ok & Hr).
  apply and_then_ok in Hr as (g & Hg%ok_or_ok & [= <-]). exists header, payload, sig, h.
  split; [by rewrite <- Hj|]. split; [by rewrite Hd|]. split; [done|]. cbn [jwt_kid claims signature signing_input].
  split. { destruct (jose_kid h) as [k|]; [|done]. cbn [mbind option_bind] in Hk. by destruct (is_empty k); simplify_eq. }
  split; [done|]. split; [done|].
  assert (token = (header ++ "." ++ payload) ++ "." ++ sig) as -> by (by rewrite <- !app_assoc, <- Hj).
  apply take_app_length'. rewrite !length_app. simpl. lia.
Qed.

(** The window a token is accepted in, in the arithmetic of [f64]. *)
Definition current (c : Auth.TokenClaims) (now : Z) : Prop :=
  let now := as_secs_f64 (Z.max now 0) in
  let leeway := as_secs_f64 CLOCK_LEEWAY in
  (∃ x, Auth.exp c = Some (Auth.VNumber x) ∧ f64_gt now (f64_add x leeway) = false)
  ∧ (∀ v, Auth.nbf c = Some v → ∃ x, v = Auth.VNumber x ∧ f64_gt x (f64_add now leeway) = false)
  ∧ (∀ v, Auth.iat c = Some v → ∃ x, v = Auth.VNumber x ∧ f64_gt x (f64_add now leeway) = false).

Lemma require_current_spec c now : require_current c now = Ok tt → current c now.
Proof.
  unfold require_current, current. destruct (Auth.exp c) as [e|]; [|done]. destruct e; cbn; try done.
  set (n := as_secs_f64 (Z.max now 0)). set (l := as_secs_f64 CLOCK_LEEWAY).
  assert (∀ claim : option Auth.Value, ∀ o, match claim with
    | None => Ok None
    | Some value => let? y := ok_or (Auth.as_f64 value) Auth.InvalidClaims in Ok (Some y)
    end = Ok o → ∀ v, claim = Some v → ∃ y, v = Auth.VNumber y ∧ o = Some y) as Htime.
  { intros claim o Ho v ->. apply and_then_ok in Ho as (y & Hy%ok_or_ok & [= <-]).
    destruct v; simplify_eq/=. by eexists. }
  intros (nb & Hnb & Hr)%and_then_ok. apply and_then_ok in Hr as (ia & Hia & Hr).
  destruct (f64_gt n (f64_add x l)) eqn:E1; [done|]. cbn [orb] in Hr.
  assert (∀ o : option spec_float, match o with Some y => f64_gt y (f64_add n l) | None => false end = false →
    ∀ y, o = Some y → f64_gt y (f64_add n l) = false) as Hsome by (by intros o Ho y ->).
  destruct (match nb with Some y => f64_gt y (f64_add n l) | None => false end) eqn:E2; [done|].
  destruct (match ia with Some y => f64_gt y (f64_add n l) | None => false end) eqn:E3; [done|].
  split; [by exists x|]. split; intros v Hv.
  - destruct (Htime _ _ Hnb v Hv) as (y & -> & ->). eauto.
  - destruct (Htime _ _ Hia v Hv) as (y & -> & ->). eauto.
Qed.

(** What the claims of an accepted principal hold. *)
Lemma validate_claims_spec c ids principal :
  Auth.validate_claims grants_from_value c ids = Ok principal →
  ∃ identity aud scopes g raws,
    identity ∈ ids ∧ Auth.iss c = Some (Auth.VString (Auth.issuer identity))
    ∧ Auth.aud c = Some aud ∧ Auth.audience_contains aud (Auth.audience identity) = true
    ∧ Auth.scope c = Some (Auth.VString scopes) ∧ Auth.REQUIRED_SCOPE ∈ split_ascii_whitespace scopes
    ∧ Auth.sub c = Some (Auth.VString (subject principal)) ∧ subject principal ≠ []
    ∧ Auth.sovereign_config_grants c = Some g ∧ grants_from_value g = Some raws
    ∧ Auth.validate_grants raws = Ok (grants principal).
Proof.
  unfold Auth.validate_claims. destruct (Auth.sub c) as [[s| | |]|]; try done. cbn [Auth.as_str].
  destruct (existsb _ ids) eqn:Ei; [|done]. cbn [andb].
  destruct (Auth.scope c) as [[scopes| | |]|] eqn:Esc; try done. cbn [Auth.as_str].
  destruct (existsb _ (split_ascii_whitespace scopes)) eqn:Es; [|done]. cbn [andb].
  destruct s as [|b s]; [done|]. cbn [is_empty negb].
  destruct (Auth.sovereign_config_grants c) as [g|]; [|done].
  destruct (grants_from_value g) as [raws|] eqn:Er; [|done].
  destruct (Auth.validate_grants raws) as [gs|] eqn:Eg; [|done]. intros [= <-].
  apply existsb_elem_of in Ei as (identity & Hid & Hi). apply andb_true_iff in Hi as [Hiss%bool_decide_eq_true Ha].
  apply existsb_elem_of in Es as (w & Hw & ->%bool_decide_eq_true).
  destruct (Auth.aud c) as [aud|] eqn:Eaud; [|done].
  exists identity, aud, scopes, g, raws. split; [done|].
  split. { destruct (Auth.iss c) as [[]|]; cbn in Hiss; by simplify_eq. }
  by repeat (split; [done|]).
Qed.

(** C7: a caller is authenticated only by a token one of the accepted issuers
    signed, as long as its signatures cannot be forged: the signed claims name
    that issuer and the audience configured with it, carry the required scope and
    a subject, and are within their validity window; and the caller may do at a
    path exactly what the signed grants permit at or above it. *)
Theorem authenticated_callers_hold_issued_tokens (Issued : bytes → bytes → Prop)
    accepted keys headers now principal :
  (∀ issuer kid key message sig, keys issuer kid = Found key →
     verifies key message sig = true → Issued issuer message) →
  authenticate accepted keys headers now = Ok principal →
  ∃ identity header payload c aud scopes g raws,
    identity ∈ accepted ∧ Issued (Auth.issuer identity) (header ++ "." ++ payload)
    ∧ url_decode payload ≫= claims_from_slice = Some c
    ∧ Auth.iss c = Some (Auth.VString (Auth.issuer identity))
    ∧ Auth.aud c = Some aud ∧ Auth.audience_contains aud (Auth.audience identity) = true
    ∧ Auth.scope c = Some (Auth.VString scopes) ∧ Auth.REQUIRED_SCOPE ∈ split_ascii_whitespace scopes
    ∧ current c now
    ∧ Auth.sub c = Some (Auth.VString (subject principal)) ∧ subject principal ≠ []
    ∧ Auth.sovereign_config_grants c = Some g ∧ grants_from_value g = Some raws
    ∧ ∀ p permission, Auth.allows principal p permission = true ↔
        ∃ raw q, raw ∈ raws ∧ Path.parse_selection (Auth.raw_prefix raw) = Ok q
          ∧ permission ∈ Auth.raw_permissions raw ∧ Path.is_at_or_below p q = true.
Proof.
  intros Hforge Ha. unfold authenticate in Ha. apply and_then_ok in Ha as (token & _ & Ha).
  apply and_then_ok in Ha as (jwt & Hj & Ha). apply parse_jwt_spec in Hj as (header & payload & sig & h & _ & _ & _ & _ & Hc & _ & Hin).
  apply and_then_ok in Ha as (issuer & Hi%ok_or_ok & Ha).
  destruct (keys issuer (jwt_kid jwt)) as [key| |] eqn:Ek; try done.
  destruct (verifies key (signing_input jwt) (signature jwt)) eqn:Ev; [|discriminate Ha]. cbn [negb] in Ha.
  apply and_then_ok in Ha as ([] & Hcur & Ha).
  apply validate_claims_spec in Ha as (identity & aud & scopes & g & raws & Hid & Hiss & ? & ? & ? & ? & ? & ? & ? & ? & Hg).
  assert (issuer = Auth.issuer identity) as ->.
  { rewrite Hiss in Hi. cbn [mbind option_bind Auth.as_str] in Hi. destruct (existsb _ _); by simplify_eq. }
  exists identity, header, payload, (claims jwt), aud, scopes, g, raws. split; [done|].
  split; [rewrite <- Hin; by eapply Hforge|]. do 6 (split; [done|]). split; [by apply require_current_spec|].
  do 4 (split; [done|]). intros p permission. destruct principal as [sub name gs]. by apply Auth.validate_grants_spec.
Qed.
End authenticate.

(** *** An issuer that signed one token *)

Definition sample_claims : Auth.TokenClaims :=
  Auth.mkClaims (Some (Auth.VString "https://auth/")) (Some (Auth.VArray [Auth.VString "config"]))
    (Some (Auth.VString "user-1")) (Some (Auth.VString "openid sovereign-config"))
    (Some (Auth.VNumber (f64_of 1700000300))) None (Some (Auth.VNumber (f64_of 1700000000)))
    (Some Auth.VOther) (Some (Auth.VString "ada")) None.

#[local] Instance sample_key_crates : KeyCrates := {|
  rsa_verify n e message sig := bool_decide (message = "h.p") && bool_decide (sig = "s");
  jwk_set_from_slice b := None;
  url_decode b := Some b |}.

#[local] Instance sample_jwt_crates : JwtCrates := {|
  jose_from_slice b := if bool_decide (b = "h") then Some (mkJose "RS256" (Some ("k1" : bytes))) else None;
  claims_from_slice b := if bool_decide (b = "p") then Some sample_claims else None;
  grants_from_value v := Some [Auth.mkRawGrant "/apps" [Read]] |}.

Definition sample_keys (issuer kid : bytes) : KeyLookup :=
  if bool_decide (issuer = "https://auth/") && bool_decide (kid = "k1") then Found (mkKey "n" "e") else Unknown.

Definition sample_principal : AuthenticatedPrincipal :=
  mkPrincipal "user-1" (Some ("ada" : bytes)) [mkGrant "/apps" (list_to_set [Read])].

Lemma authenticated_callers_hold_issued_tokens_witness :
  ∃ identity header payload c,
    identity ∈ [Auth.mkIdentity "https://auth/" "config"]
    ∧ (Auth.issuer identity = "https://auth/" ∧ header ++ "." ++ payload = "h.p")
    ∧ url_decode payload ≫= claims_from_slice = Some c ∧ current c (1700000320 * Stamps.NANOS).
Proof.
  destruct (authenticated_callers_hold_issued_tokens
    (λ issuer message, issuer = "https://auth/" ∧ message = "h.p")
    [Auth.mkIdentity "https://auth/" "config"] sample_keys ["Bearer h.p.s" : bytes]
    (1700000320 * Stamps.NANOS) sample_principal)
    as (identity & header & payload & c & aud & scopes & g & raws & Hid & Hiss & Hc & _ & _ & _ & _ & _ & Hcur & _).
  - intros issuer kid key message sig Hk Hv. unfold sample_keys in Hk.
    destruct (bool_decide_reflect (issuer = "https://auth/")) as [->|]; [|done].
    apply andb_true_iff in Hv as [Hv%bool_decide_eq_true _]. done.
  - vm_compute. reflexivity.
  - by exists identity, header, payload, c.
Defined.

End Authenticate.
