(* ===== verification/Dispatch.v ===== *)
(** * Dispatching requests

    Models the path of a request into the server: [protocol.rs] (attribution to a
    protocol version, and the answer for a version that is not served), the
    authentication layer of [auth.rs], [handshake.rs], [system.rs] and the counters
    of [metrics.rs] they keep.  Everything behind them (the other services, the web
    assets and health probes) is the parameter [services]; messages are typed, so
    protobuf encoding is not modelled, nor is gRPC-Web framing. *)

From stdpp Require Import strings.
From S2P Require Import Prelude Bytes ConfigPath Core Auth AuditEvent Rpc Database AuditTrail BrokerSignature SigningKeys Authenticate.

Local Open Scope bytes_scope.

(** ** Requests and responses *)

Inductive Method := GET | HEAD | POST | OtherMethod.
#[global] Instance Method_eq_dec : EqDecision Method.
Proof. solve_decision. Defined.

Inductive Message (M : Type) :=
| NegotiateRequest (client_protocol_versions : list bytes)
| GetVersionRequest (protocol_version : bytes)
| GetIdentityRequest
| OtherRequest (m : M).
Arguments NegotiateRequest {M}.
Arguments GetVersionRequest {M}.
Arguments GetIdentityRequest {M}.
Arguments OtherRequest {M}.

(** [version] and [principal] are the extensions the layers attach: the first is
    absent outside protocol traffic and empty for an unserved version. *)
Record HttpRequest (M : Type) := mkRequest {
  method : Method; uri_path : bytes; authorization : list bytes; message : Message M;
  version_extension : option (option bytes);
  principal_extension : option AuthenticatedPrincipal }.
Arguments mkRequest {M}.
Arguments method {M}.
Arguments uri_path {M}.
Arguments authorization {M}.
Arguments message {M}.
Arguments version_extension {M}.
Arguments principal_extension {M}.

(** A status with its metadata, an HTTP 404, or an answer. *)
Record GrpcStatus := mkGrpcStatus { grpc_status : Status; metadata : list (bytes * bytes) }.

Inductive Answer (P : Type) :=
| NegotiateResponse (served_protocol_versions : list (bytes * option bytes))
| GetVersionResponse (application_version protocol_version : bytes) (supported : list bytes)
| GetIdentityResponse (authenticated : bool)
| OtherResponse (p : P).
Arguments NegotiateResponse {P}.
Arguments GetVersionResponse {P}.
Arguments GetIdentityResponse {P}.
Arguments OtherResponse {P}.

Inductive Response (P : Type) :=
| HttpNotFound
| Failed (status : GrpcStatus)
| Answered (a : Answer P).
Arguments HttpNotFound {P}.
Arguments Failed {P}.
Arguments Answered {P}.

(** ** metrics.rs *)

Module ProtocolMetrics.

Definition UNRECOGNISED_PROTOCOL_LABEL : bytes := "unrecognised".

Record VersionCounters := mkCounters { label : bytes; attempted : Z; authenticated : Z; offered : Z }.

Record ProtocolMetrics := mkProtocolMetrics {
  versions : list VersionCounters; unrecognised : Z; offered_unrecognised : Z }.

Definition new (labels : list bytes) : ProtocolMetrics :=
  mkProtocolMetrics (List.map (λ l, mkCounters l 0 0 0) labels) 0 0.

(** [fetch_add(1)] *)
Definition add1 (n : Z) : Z := Trail.wrap64 (n + 1).

(** Acts on the first counters with the label, or not at all. *)
Fixpoint on_counters (version : bytes) (f : VersionCounters → VersionCounters) (l : list VersionCounters)
  : option (list VersionCounters) :=
  match l with
  | [] => None
  | c :: l' => if bool_decide (label c = version) then Some (f c :: l')
               else cons c <$> on_counters version f l'
  end.

Definition record_attempted (version : bytes) (m : ProtocolMetrics) : ProtocolMetrics :=
  match on_counters version (λ c, mkCounters (label c) (add1 (attempted c)) (authenticated c) (offered c)) (versions m) with
  | Some l => mkProtocolMetrics l (unrecognised m) (offered_unrecognised m)
  | None => mkProtocolMetrics (versions m) (add1 (unrecognised m)) (offered_unrecognised m)
  end.

Definition record_authenticated (version : bytes) (m : ProtocolMetrics) : ProtocolMetrics :=
  match on_counters version (λ c, mkCounters (label c) (attempted c) (add1 (authenticated c)) (offered c)) (versions m) with
  | Some l => mkProtocolMetrics l (unrecognised m) (offered_unrecognised m)
  | None => m
  end.

Definition record_offered (version : bytes) (m : ProtocolMetrics) : ProtocolMetrics :=
  match on_counters version (λ c, mkCounters (label c) (attempted c) (authenticated c) (add1 (offered c))) (versions m) with
  | Some l => mkProtocolMetrics l (unrecognised m) (offered_unrecognised m)
  | None => mkProtocolMetrics (versions m) (unrecognised m) (add1 (offered_unrecognised m))
  end.

(** *** What the counters of a version read *)

Definition counters (v : bytes) (m : ProtocolMetrics) : option VersionCounters :=
  List.find (λ c, bool_decide (label c = v)) (versions m).

Definition tally (v : bytes) (m : ProtocolMetrics) : option (Z * Z) :=
  (λ c, (attempted c, authenticated c)) <$> counters v m.

Lemma find_on_counters v w f l :
  (∀ c, label (f c) = label c) →
  List.find (λ c, bool_decide (label c = v)) (default l (on_counters w f l))
  = (if bool_decide (v = w) then f else id) <$> List.find (λ c, bool_decide (label c = v)) l.
Proof.
  intros Hf. induction l as [|c l IH]; [done|]. cbn [on_counters].
  destruct (bool_decide_reflect (label c = w)) as [<-|Hw]; cbn [default from_option List.find id].
  - rewrite Hf. destruct (bool_decide_reflect (label c = v)) as [<-|Hv]; [by rewrite bool_decide_eq_true_2|].
    rewrite (bool_decide_eq_false_2 (v = label c)) by congruence. by destruct (List.find _ l).
  - destruct (on_counters w f l) as [l'|]; cbn [fmap option_fmap option_map default from_option List.find id] in *;
      (destruct (bool_decide_reflect (label c = v)) as [<-|Hv]; [|by apply IH]);
      by rewrite bool_decide_eq_false_2.
Qed.

Lemma tally_on_counters v w f (g : Z * Z → Z * Z) l u o :
  (∀ c, label (f c) = label c) → (∀ c, (attempted (f c), authenticated (f c)) = g (attempted c, authenticated c)) →
  tally v (mkProtocolMetrics (default l (on_counters w f l)) u o)
  = (if bool_decide (v = w) then g else id) <$> tally v (mkProtocolMetrics l u o).
Proof.
  intros Hf Hg. unfold tally, counters. cbn [versions]. rewrite find_on_counters by done.
  destruct (List.find _ l) as [c|]; [|done]. cbn. by destruct (bool_decide (v = w)); cbn; rewrite ?Hg.
Qed.

Lemma tally_attempted v w m :
  tally v (record_attempted w m)
  = (if bool_decide (v = w) then λ x, (add1 x.1, x.2) else id) <$> tally v m.
Proof.
  destruct m as [l u o]. rewrite <- (tally_on_counters v w
    (λ c, mkCounters (label c) (add1 (attempted c)) (authenticated c) (offered c))) by done.
  unfold record_attempted. cbn [versions]. by destruct (on_counters w _ l).
Qed.

Lemma tally_authenticated v w m :
  tally v (record_authenticated w m)
  = (if bool_decide (v = w) then λ x, (x.1, add1 x.2) else id) <$> tally v m.
Proof.
  destruct m as [l u o]. rewrite <- (tally_on_counters v w
    (λ c, mkCounters (label c) (attempted c) (add1 (authenticated c)) (offered c))) by done.
  unfold record_authenticated. cbn [versions]. by destruct (on_counters w _ l).
Qed.

Lemma tally_offered v w m : tally v (record_offered w m) = tally v m.
Proof.
  destruct m as [l u o]. trans ((if bool_decide (v = w) then (λ x : Z * Z, x) else id) <$> tally v (mkProtocolMetrics l u o)).
  - rewrite <- (tally_on_counters v w
      (λ c, mkCounters (label c) (attempted c) (authenticated c) (add1 (offered c)))) by done.
    unfold record_offered. cbn [versions]. by destruct (on_counters w _ l).
  - destruct (tally v _) as [[]|]; [|done]. by destruct (bool_decide (v = w)).
Qed.

Lemma add1_wrap n : add1 (Trail.wrap64 n) = Trail.wrap64 (n + 1).
Proof. unfold add1, Trail.wrap64. by rewrite Zplus_mod_idemp_l. Qed.

End ProtocolMetrics.

Module AuthenticationMetrics.

Definition index (r : Auth.AuthenticationResult) : nat :=
  match r with
  | Auth.AuthSuccess => 0 | Auth.MissingBearer => 1 | Auth.MalformedBearer => 2 | Auth.WrongAlgorithm => 3
  | Auth.AuthBadSignature => 4 | Auth.Inactive => 5 | Auth.InvalidClaims => 6 | Auth.AuthUnavailable => 7
  end.

Definition zero : list Z := replicate 8 0%Z.

Definition increment (r : Auth.AuthenticationResult) (m : list Z) : list Z :=
  alter ProtocolMetrics.add1 (index r) m.

End AuthenticationMetrics.

Module Dispatch.

Import ProtocolMetrics.

(** ** protocol.rs *)

Definition ERROR_KIND_METADATA : bytes := "sovereign-config-error-kind".
Definition VERSION_NOT_SERVED_KIND : bytes := "version-not-served".
Definition REQUESTED_VERSION_METADATA : bytes := "sovereign-config-protocol-version".
Definition ECHOED_VERSION_LENGTH : nat := 16.

Inductive Route := Unversioned | Versioned (version : bytes) | Malformed.
#[global] Instance Route_eq_dec : EqDecision Route.
Proof. solve_decision. Defined.

Definition classify (path : bytes) : option Route :=
  rest ← strip_prefix "/sovereign.config." path;
  match split_once "/"%char rest with
  | None => Some Malformed
  | Some (qualified_service, method) =>
      if is_empty qualified_service || is_empty method || contains_byte "/"%char method then Some Malformed
      else match split_once "."%char qualified_service with
           | None => Some Unversioned
           | Some (version, service) =>
               if negb (is_empty version) && negb (is_empty service) then Some (Versioned version)
               else Some Malformed
           end
  end.

Inductive Attribution :=
| Served (version : bytes) | UnservedVersion | UnversionedCall | Unrecognised | NotProtocolTraffic.
#[global] Instance Attribution_eq_dec : EqDecision Attribution.
Proof. solve_decision. Defined.

Definition attribute (m : Method) (path : bytes) (recognised : list bytes) : Attribution :=
  if negb (bool_decide (m = POST)) then NotProtocolTraffic
  else match classify path with
       | None => NotProtocolTraffic
       | Some Unversioned => UnversionedCall
       | Some Malformed => Unrecognised
       | Some (Versioned version) =>
           match List.find (λ candidate, bool_decide (candidate = version)) recognised with
           | Some candidate => Served candidate
           | None => UnservedVersion
           end
       end.

Definition echoed_version (version : bytes) : bytes :=
  collect (List.map (λ c, if Protocol.version_char c then c else Protocol.question)
             (take ECHOED_VERSION_LENGTH (chars version))).

(** [str::parse] of a metadata value admits what [HeaderValue::from_str] does. *)
Definition metadata_entry (key value : bytes) : list (bytes * bytes) :=
  match Auth.header_to_str value with Some v => [(key, v)] | None => [] end.

Definition version_not_served (version : bytes) (served : list bytes) : GrpcStatus :=
  let echoed := echoed_version version in
  mkGrpcStatus
    (Rpc.failed_precondition
       ("protocol version " ++ Signature.quote echoed ++ " is not served; this server serves: " ++ join ", " served))
    (metadata_entry ERROR_KIND_METADATA VERSION_NOT_SERVED_KIND
     ++ metadata_entry REQUESTED_VERSION_METADATA echoed).

(** ** The server's state

    Counters, the signing keys' cache and what the services keep. *)
Record Server (K App : Type) := mkServer {
  protocol_metrics : ProtocolMetrics;
  authentication_metrics : list Z;
  key_cache : K;
  app : App }.
Arguments mkServer {K App}.
Arguments protocol_metrics {K App}.
Arguments authentication_metrics {K App}.
Arguments key_cache {K App}.
Arguments app {K App}.

Definition with_protocol_metrics {K App} (f : ProtocolMetrics → ProtocolMetrics) (s : Server K App) : Server K App :=
  mkServer (f (protocol_metrics s)) (authentication_metrics s) (key_cache s) (app s).

Definition with_version {M} (v : option bytes) (r : HttpRequest M) : HttpRequest M :=
  mkRequest (method r) (uri_path r) (authorization r) (message r) (Some v) (principal_extension r).
Definition with_principal {M} (p : AuthenticatedPrincipal) (r : HttpRequest M) : HttpRequest M :=
  mkRequest (method r) (uri_path r) (authorization r) (message r) (version_extension r) (Some p).

(** ** system.rs *)

Record ServedProtocol := mkServedProtocol { version : bytes; age : Z; deprecation_date : option bytes }.

(** The list of this build; every function below takes the list, since a client
    may meet a server of another build. *)
Definition SERVED_PROTOCOL_VERSIONS : list ServedProtocol :=
  [mkServedProtocol "v5" 5 None; mkServedProtocol "v4" 4 None; mkServedProtocol "v3" 3 None].

Definition APPLICATION_VERSION (release : option bytes) (cargo_version : bytes) : bytes :=
  match release with Some v => if is_empty v then cargo_version else v | None => cargo_version end.

Section dispatch.
Context {M P K App : Type}.
Context (served_versions : list ServedProtocol) (application_version : bytes).
(** The other services, and [Authenticator::authenticate] on the key cache. *)
Context (services : HttpRequest M → App → Response P * App).
Context (authenticate : list bytes → K → result AuthenticatedPrincipal Auth.AuthenticationResult * K).

Definition SERVED_PROTOCOL_LABELS : list bytes := List.map version served_versions.

(** The list is not empty. *)
Definition preferred_served : bytes := List.hd [] SERVED_PROTOCOL_LABELS.

Definition served (requested : bytes) : bool :=
  existsb (λ v, bool_decide (version v = requested)) served_versions.

Definition oldest_first : list ServedProtocol := sort_by (λ a b, (age a <=? age b)%Z) served_versions.

Definition advertised_to_v3 : list bytes := List.map version oldest_first.

Definition preferred_first_supported_protocol_versions : list bytes := List.map version served_versions.

Definition echoed (requested : bytes) : bytes := if served requested then requested else preferred_served.

Definition require_principal (r : HttpRequest M) : result unit Status :=
  match principal_extension r with
  | None => Err (Rpc.unauthenticated "authentication required")
  | Some _ => Ok tt
  end.

(** [GetVersion] of [v3], and of [v4] and [v5]. *)
Definition get_version (route : bytes) (requested : bytes) : Answer P :=
  GetVersionResponse application_version (echoed requested)
    (if bool_decide (route = "v3") then advertised_to_v3 else preferred_first_supported_protocol_versions).

Definition get_identity (r : HttpRequest M) : Response P :=
  match require_principal r with
  | Ok _ => Answered (GetIdentityResponse true)
  | Err e => Failed (mkGrpcStatus e [])
  end.

(** ** handshake.rs *)

Definition CLIENT_LIST_LIMIT : nat := 32.
Definition CLIENT_VERSION_LENGTH : nat := 16.

Definition record (client_versions : list bytes) (m : ProtocolMetrics) : ProtocolMetrics :=
  foldl (λ m offered,
    record_offered (if CLIENT_VERSION_LENGTH <? length offered then UNRECOGNISED_PROTOCOL_LABEL else offered) m)
    m (take CLIENT_LIST_LIMIT client_versions).

Definition negotiate (client_versions : list bytes) (s : Server K App) : Response P * Server K App :=
  (Answered (NegotiateResponse (List.map (λ v, (version v, deprecation_date v)) served_versions)),
   with_protocol_metrics (record client_versions) s).

(** ** The router *)

Definition HANDSHAKE_RPC : bytes := "/sovereign.config.Handshake/Negotiate".
Definition GET_VERSION_SUFFIX : bytes := ".System/GetVersion".
Definition GET_IDENTITY_SUFFIX : bytes := ".System/GetIdentity".

(** The version a route of a [System] method names. *)
Definition system_route (suffix path : bytes) : option bytes :=
  strip_prefix "/sovereign.config." path ≫= Signature.strip_suffix suffix.

Definition rest (r : HttpRequest M) (s : Server K App) : Response P * Server K App :=
  let a := services r (app s) in
  (a.1, mkServer (protocol_metrics s) (authentication_metrics s) (key_cache s) a.2).

Definition router (r : HttpRequest M) (s : Server K App) : Response P * Server K App :=
  if negb (bool_decide (method r = POST)) then rest r s
  else match message r with
  | NegotiateRequest versions =>
      if bool_decide (uri_path r = HANDSHAKE_RPC) then negotiate versions s else rest r s
  | GetVersionRequest requested =>
      match system_route GET_VERSION_SUFFIX (uri_path r) with
      | Some v => if served v then (Answered (get_version v requested), s) else rest r s
      | None => rest r s
      end
  | GetIdentityRequest =>
      match system_route GET_IDENTITY_SUFFIX (uri_path r) with
      | Some v => if served v then (get_identity r, s) else rest r s
      | None => rest r s
      end
  | OtherRequest _ => rest r s
  end.

(** ** The authentication layer *)

Definition OPERATIONAL_RPCS : list bytes :=
  ["/grpc.health.v1.Health/Check"; "/grpc.health.v1.Health/Watch"; HANDSHAKE_RPC].

Definition is_unauthenticated_version_handshake (path : bytes) : bool :=
  match system_route GET_VERSION_SUFFIX path with Some v => served v | None => false end.

Definition is_operational_rpc (path : bytes) : bool :=
  bool_decide (path ∈ OPERATIONAL_RPCS) || is_unauthenticated_version_handshake path.

Definition is_client_telemetry_path (path : bytes) : bool :=
  bool_decide (path = "/v1") || starts_with path "/v1/".

Definition is_web_asset_request (m : Method) (path : bytes) : bool :=
  (bool_decide (m = GET) || bool_decide (m = HEAD)) && negb (is_operational_rpc path).

Definition failure_status (r : Auth.AuthenticationResult) : GrpcStatus :=
  mkGrpcStatus
    (match r with
     | Auth.AuthUnavailable => Rpc.unavailable "authentication dependency unavailable"
     | _ => Rpc.unauthenticated "authentication failed"
     end) [].

Definition Service : Type := HttpRequest M → Server K App → Response P * Server K App.

(** [AuthenticationService::call] *)
Definition authentication_service (inner : Service) : Service := λ r s,
  if is_client_telemetry_path (uri_path r) then (HttpNotFound, s)
  else if is_web_asset_request (method r) (uri_path r) || is_operational_rpc (uri_path r) then inner r s
  else
    let '(result, cache) := authenticate (authorization r) (key_cache s) in
    match result with
    | Ok principal =>
        let s := mkServer
          (match version_extension r with
           | Some (Some v) => record_authenticated v (protocol_metrics s)
           | _ => protocol_metrics s
           end)
          (AuthenticationMetrics.increment Auth.AuthSuccess (authentication_metrics s)) cache (app s) in
        inner (with_principal principal r) s
    | Err failure =>
        (Failed (failure_status failure),
         mkServer (protocol_metrics s)
           (AuthenticationMetrics.increment failure (authentication_metrics s)) cache (app s))
    end.

(** [UnservedVersionService::call] *)
Definition unserved_version_service (recognised : list bytes) (inner : Service) : Service := λ r s,
  match classify (uri_path r) with
  | Some (Versioned v) =>
      if bool_decide (method r = POST) && negb (bool_decide (v ∈ recognised))
      then (Failed (version_not_served v recognised), s) else inner r s
  | _ => inner r s
  end.

(** [ProtocolVersionService::call] *)
Definition protocol_version_service (recognised : list bytes) (inner : Service) : Service := λ r s,
  match attribute (method r) (uri_path r) recognised with
  | Served v => inner (with_version (Some v) r) (with_protocol_metrics (record_attempted v) s)
  | UnservedVersion | Unrecognised =>
      inner (with_version None r) (with_protocol_metrics (record_attempted UNRECOGNISED_PROTOCOL_LABEL) s)
  | UnversionedCall | NotProtocolTraffic => inner r s
  end.

(** The stack [serve] builds. *)
Definition serve : Service :=
  protocol_version_service SERVED_PROTOCOL_LABELS
    (unserved_version_service SERVED_PROTOCOL_LABELS (authentication_service router)).

(** ** Who is served *)

(** The request as the services see it. *)
Definition seen (v : option (option bytes)) (p : option AuthenticatedPrincipal) (r : HttpRequest M) : HttpRequest M :=
  mkRequest (method r) (uri_path r) (authorization r) (message r) v p.

(** What the attribution of a request attaches to it and counts. *)
Definition extension (r : HttpRequest M) : option (option bytes) :=
  match attribute (method r) (uri_path r) SERVED_PROTOCOL_LABELS with
  | Served v => Some (Some v)
  | UnservedVersion | Unrecognised => Some None
  | UnversionedCall | NotProtocolTraffic => version_extension r
  end.

Definition attempt (r : HttpRequest M) (m : ProtocolMetrics) : ProtocolMetrics :=
  match attribute (method r) (uri_path r) SERVED_PROTOCOL_LABELS with
  | Served v => record_attempted v m
  | UnservedVersion | Unrecognised => record_attempted UNRECOGNISED_PROTOCOL_LABEL m
  | UnversionedCall | NotProtocolTraffic => m
  end.

Lemma serve_attributed r s :
  serve r s =
  unserved_version_service SERVED_PROTOCOL_LABELS (authentication_service router)
    (seen (extension r) (principal_extension r) r) (with_protocol_metrics (attempt r) s).
Proof.
  unfold serve, protocol_version_service, extension, attempt.
  destruct (attribute _ _ _); try done; destruct r, s; done.
Qed.

(** The router answers from the services' state alone and touches no key. *)
Lemma router_app r s s' : app s = app s' →
  (router r s).1 = (router r s').1 ∧ app (router r s).2 = app (router r s').2
  ∧ key_cache (router r s).2 = key_cache s.
Proof.
  intros E. unfold router, rest, negotiate.
  repeat case_match; simplify_eq/=; rewrite ?E; done.
Qed.

Lemma attribute_versioned m path v : m = POST → classify path = Some (Versioned v) →
  v ∈ SERVED_PROTOCOL_LABELS → attribute m path SERVED_PROTOCOL_LABELS = Served v.
Proof.
  intros -> Hc Hv. unfold attribute. rewrite Hc. simpl.
  destruct (List.find _ SERVED_PROTOCOL_LABELS) as [c|] eqn:E.
  - by apply find_some in E as [_ ->%bool_decide_eq_true].
  - apply list_elem_of_In in Hv. apply (find_none _ _ E) in Hv. by apply bool_decide_eq_false in Hv.
Qed.

(** C12: a call that is not one of the few open ones reaches the services only
    with the principal its credentials authenticate and, on a version's route,
    with that version, which is one the server serves; otherwise it is refused
    and what the services keep is untouched. *)
Theorem services_see_authenticated_callers r s :
  method r = POST → is_operational_rpc (uri_path r) = false →
  (app (serve r s).2 = app s ∧ ∀ x, (serve r s).1 ≠ Answered x)
  ∨ ∃ principal,
      (authenticate (authorization r) (key_cache s)).1 = Ok principal
      ∧ (∀ v, classify (uri_path r) = Some (Versioned v) →
           v ∈ SERVED_PROTOCOL_LABELS ∧ extension r = Some (Some v))
      ∧ (serve r s).1 = (router (seen (extension r) (Some principal) r) s).1
      ∧ app (serve r s).2 = app (router (seen (extension r) (Some principal) r) s).2.
Proof.
  intros Hm Hop. rewrite serve_attributed. set (r' := seen (extension r) _ r).
  set (s' := with_protocol_metrics (attempt r) s). unfold unserved_version_service.
  change (uri_path r') with (uri_path r). change (method r') with (method r). rewrite Hm.
  assert (∀ v, classify (uri_path r) = Some (Versioned v) → v ∈ SERVED_PROTOCOL_LABELS → extension r = Some (Some v)) as Hext.
  { intros v Hc Hv. unfold extension. by rewrite (attribute_versioned _ _ v). }
  assert ((∀ v, classify (uri_path r) = Some (Versioned v) → v ∈ SERVED_PROTOCOL_LABELS) →
    (app (authentication_service router r' s').2 = app s ∧ ∀ x, (authentication_service router r' s').1 ≠ Answered x)
    ∨ ∃ principal, (authenticate (authorization r) (key_cache s)).1 = Ok principal
      ∧ (∀ v, classify (uri_path r) = Some (Versioned v) → v ∈ SERVED_PROTOCOL_LABELS ∧ extension r = Some (Some v))
      ∧ (authentication_service router r' s').1 = (router (seen (extension r) (Some principal) r) s).1
      ∧ app (authentication_service router r' s').2 = app (router (seen (extension r) (Some principal) r) s).2) as Hauth.
  { intros Hv. unfold authentication_service. change (uri_path r') with (uri_path r).
    change (method r') with (method r). change (authorization r') with (authorization r).
    change (key_cache s') with (key_cache s).
    destruct (is_client_telemetry_path (uri_path r)); [by left|].
    unfold is_web_asset_request. rewrite Hm, Hop. cbn [bool_decide negb andb orb].
    rewrite !bool_decide_eq_false_2 by done. cbn [orb andb].
    destruct (authenticate (authorization r) (key_cache s)) as [[principal|failure] cache]; [|by left].
    right. exists principal. split; [done|]. split; [auto|].
    edestruct (router_app (with_principal principal r')) as (H1 & H2 & _); [|split; [apply H1|apply H2]]. done. }
  destruct (classify (uri_path r)) as [[|v|]|] eqn:Ec; try (by apply Hauth).
  rewrite bool_decide_eq_true_2 by done. cbn [andb]. case_bool_decide as Hv; cbn [negb]; [|by left].
  apply Hauth. by intros ? [= <-].
Qed.

(** ** What the counters count *)

(** A request attributed to a version, and one that also authenticates. *)
Definition on_version (v : bytes) (r : HttpRequest M) : bool :=
  bool_decide (attribute (method r) (uri_path r) SERVED_PROTOCOL_LABELS = Served v).

Definition accepted_on (v : bytes) (r : HttpRequest M) (s : Server K App) : bool :=
  on_version v r && negb (is_operational_rpc (uri_path r))
  && is_ok (authenticate (authorization r) (key_cache s)).1.

Definition handle (s : Server K App) (rs : list (HttpRequest M)) : Server K App :=
  foldl (λ s r, (serve r s).2) s rs.

Fixpoint accepted (v : bytes) (s : Server K App) (rs : list (HttpRequest M)) : nat :=
  match rs with
  | [] => 0
  | r :: rs' => (if accepted_on v r s then 1 else 0) + accepted v (serve r s).2 rs'
  end.

Lemma router_tally v r s : tally v (protocol_metrics (router r s).2) = tally v (protocol_metrics s).
Proof.
  unfold router. destruct (negb _); [done|]. destruct (message r) as [vs|q| |m]; try (repeat case_match; done).
  case_bool_decide; [|done]. unfold negotiate, record. cbn [snd with_protocol_metrics protocol_metrics].
  generalize (protocol_metrics s) as m. induction (take CLIENT_LIST_LIMIT vs) as [|o l IH]; intros m; [done|].
  cbn [foldl]. rewrite IH. apply tally_offered.
Qed.

Lemma versioned_not_telemetry path v : classify path = Some (Versioned v) → is_client_telemetry_path path = false.
Proof.
  unfold classify. destruct (strip_prefix "/sovereign.config." path) as [p|] eqn:E; [|done]. intros _.
  apply strip_prefix_spec in E as ->. done.
Qed.

Lemma served_classified m path v : attribute m path SERVED_PROTOCOL_LABELS = Served v →
  m = POST ∧ classify path = Some (Versioned v) ∧ v ∈ SERVED_PROTOCOL_LABELS.
Proof.
  unfold attribute. destruct (bool_decide_reflect (m = POST)) as [->|]; [|done]. cbn [negb].
  destruct (classify path) as [[|w|]|]; try done. destruct (List.find _ _) as [c|] eqn:E; [|done].
  intros [= <-]. apply find_some in E as [Hin ->%bool_decide_eq_true]. split; [done|]. split; [done|].
  by apply list_elem_of_In.
Qed.

(** Without a served version nothing is counted as authenticated. *)
Lemma unserved_tally v r s : (∀ w, version_extension r ≠ Some (Some w)) →
  tally v (protocol_metrics (unserved_version_service SERVED_PROTOCOL_LABELS (authentication_service router) r s).2)
  = tally v (protocol_metrics s).
Proof.
  intros Hext.
  assert (tally v (protocol_metrics (authentication_service router r s).2) = tally v (protocol_metrics s)) as Ha.
  { unfold authentication_service. destruct (is_client_telemetry_path _); [done|].
    destruct (_ || _); [apply router_tally|]. destruct (authenticate _ _) as [[p|e] cache]; [|done].
    rewrite router_tally. cbn. destruct (version_extension r) as [[w|]|]; [|done..]. by destruct (Hext w). }
  unfold unserved_version_service. destruct (classify _) as [[]|]; try done. by destruct (_ && _).
Qed.

Lemma serve_tally v r s :
  version_extension r = None → UNRECOGNISED_PROTOCOL_LABEL ≠ v →
  tally v (protocol_metrics (serve r s).2)
  = (λ x, (if on_version v r then add1 x.1 else x.1, if accepted_on v r s then add1 x.2 else x.2))
    <$> tally v (protocol_metrics s).
Proof.
  intros Hfresh Hv. rewrite serve_attributed.
  assert (tally v (attempt r (protocol_metrics s))
          = (λ x, (if on_version v r then add1 x.1 else x.1, x.2)) <$> tally v (protocol_metrics s)) as Hatt.
  { unfold attempt, on_version. destruct (attribute _ _ _) as [w| | | |];
      rewrite ?tally_attempted; try (rewrite !bool_decide_eq_false_2 by congruence);
      try (destruct (tally v _) as [[]|]; done).
    destruct (bool_decide_reflect (v = w)) as [->|].
    - by rewrite bool_decide_eq_true_2.
    - rewrite bool_decide_eq_false_2 by congruence. by destruct (tally v _) as [[]|]. }
  unfold accepted_on. set (r' := seen (extension r) _ r).
  set (s' := with_protocol_metrics (attempt r) s) in *. fold (protocol_metrics s') in Hatt.
  destruct (attribute (method r) (uri_path r) SERVED_PROTOCOL_LABELS) as [w| | | |] eqn:Ea.
  2-5: assert (on_version v r = false) as Ho by (unfold on_version; by rewrite Ea);
    assert (∀ w, version_extension r' ≠ Some (Some w)) as Hext
      by (intros w; cbn; unfold extension; rewrite Ea, ?Hfresh; done);
    rewrite Ho in *; cbn [andb]; rewrite unserved_tally by done; exact Hatt.
  apply served_classified in Ea as (Hm & Hc & Hw). unfold unserved_version_service.
  change (uri_path r') with (uri_path r). change (method r') with (method r). rewrite Hc, Hm.
  rewrite (bool_decide_eq_true_2 (w ∈ _)) by done. rewrite bool_decide_eq_true_2 by done. cbn [andb negb].
  unfold authentication_service. change (uri_path r') with (uri_path r). change (method r') with (method r).
  rewrite (versioned_not_telemetry _ w) by done. unfold is_web_asset_request. rewrite Hm. cbn [negb andb orb].
  rewrite !bool_decide_eq_false_2 by done. cbn [orb andb].
  change (authorization r') with (authorization r). change (key_cache s') with (key_cache s).
  destruct (is_operational_rpc (uri_path r)); cbn [negb andb]; rewrite ?andb_false_r; [by rewrite router_tally|].
  rewrite andb_true_r. destruct (authenticate (authorization r) (key_cache s)) as [[p|e] cache]; cbn [is_ok fst];
    rewrite ?andb_true_r, ?andb_false_r; [|exact Hatt].
  rewrite router_tally. cbn [protocol_metrics]. change (version_extension r') with (extension r).
  unfold extension. rewrite (attribute_versioned _ _ w Hm Hc Hw), tally_authenticated.
  change (protocol_metrics s') with (attempt r (protocol_metrics s)). rewrite Hatt.
  unfold on_version. rewrite (attribute_versioned _ _ w Hm Hc Hw).
  destruct (bool_decide_reflect (v = w)) as [->|].
  - rewrite bool_decide_eq_true_2 by done. destruct (tally w (protocol_metrics s)) as [[]|]; reflexivity.
  - rewrite bool_decide_eq_false_2 by congruence. destruct (tally v (protocol_metrics s)) as [[]|]; reflexivity.
Qed.

Lemma handle_tally v rs : UNRECOGNISED_PROTOCOL_LABEL ≠ v → ∀ s a b,
  Forall (λ r, version_extension r = None) rs →
  tally v (protocol_metrics s) = Some (Trail.wrap64 a, Trail.wrap64 b) →
  tally v (protocol_metrics (handle s rs))
  = Some (Trail.wrap64 (a + Z.of_nat (length (List.filter (on_version v) rs))),
          Trail.wrap64 (b + Z.of_nat (accepted v s rs))).
Proof.
  intros Hv. induction rs as [|r rs IH]; intros s a b Hrs Ht.
  { cbn. by rewrite Ht, !Z.add_0_r. }
  apply Forall_cons in Hrs as [Hr Hrs]. cbn [handle foldl accepted List.filter].
  change (foldl _ _ rs) with (handle (serve r s).2 rs).
  rewrite (IH _ (a + (if on_version v r then 1 else 0))%Z (b + (if accepted_on v r s then 1 else 0))%Z Hrs).
  - f_equal. f_equal; f_equal; destruct (on_version v r), (accepted_on v r s); cbn [length]; lia.
  - rewrite serve_tally, Ht by done. cbn [fmap option_fmap option_map fst snd].
    destruct (on_version v r), (accepted_on v r s); by rewrite ?add1_wrap, ?Z.add_0_r.
Qed.

Lemma new_tally v labels : v ∈ labels → tally v (new labels) = Some (0%Z, 0%Z).
Proof.
  intros Hv. unfold tally, counters, new. cbn [versions].
  induction labels as [|l labels IH]; [by apply not_elem_of_nil in Hv|]. cbn.
  destruct (bool_decide_reflect (l = v)) as [|Hl]; [done|]. apply IH. by apply elem_of_cons in Hv as [->|].
Qed.

Lemma accepted_le v rs : ∀ s, accepted v s rs ≤ length (List.filter (on_version v) rs).
Proof.
  induction rs as [|r rs IH]; intros s; [done|]. cbn [accepted List.filter]. specialize (IH (serve r s).2).
  unfold accepted_on. destruct (on_version v r); cbn [andb length]; [destruct (_ && _); lia|lia].
Qed.

(** The counters a retirement is decided on count what they say: for a
    version the server serves, [attempted] is the number of calls on that
    version's routes and [authenticated] the number of those whose credentials
    were accepted, to the width of the counters, so the second is at most the
    first. *)
Theorem retirement_counters_are_exact v rs s :
  protocol_metrics s = new SERVED_PROTOCOL_LABELS →
  v ∈ SERVED_PROTOCOL_LABELS → UNRECOGNISED_PROTOCOL_LABEL ∉ SERVED_PROTOCOL_LABELS →
  Forall (λ r, version_extension r = None) rs →
  tally v (protocol_metrics (handle s rs))
  = Some (Trail.wrap64 (Z.of_nat (length (List.filter (on_version v) rs))),
          Trail.wrap64 (Z.of_nat (accepted v s rs)))
  ∧ accepted v s rs ≤ length (List.filter (on_version v) rs).
Proof.
  intros Hs Hv Hu Hrs. split; [|apply accepted_le].
  apply (handle_tally v rs ltac:(by intros <-) s 0 0); [done|]. rewrite Hs. by apply new_tally.
Qed.
End dispatch.

(** *** Two callers, one of whom is refused *)

Definition sample_services (r : HttpRequest unit) (a : nat) : Response nat * nat := (Answered (OtherResponse a), S a).
Definition sample_authenticate (headers : list bytes) (k : unit)
  : result AuthenticatedPrincipal Auth.AuthenticationResult * unit :=
  (if bool_decide (headers = ["Bearer t" : bytes]) then Ok (mkPrincipal "u" None []) else Err Auth.MissingBearer, k).
Definition sample_server : Server unit nat := mkServer (new ["v5"; "v4"; "v3"]) AuthenticationMetrics.zero tt 0.
Definition sample_request (headers : list bytes) : HttpRequest unit :=
  mkRequest POST "/sovereign.config.v4.Configuration/PutValue" headers (OtherRequest tt) None None.

Lemma services_see_authenticated_callers_witness :
  app (serve SERVED_PROTOCOL_VERSIONS "2" sample_services sample_authenticate (sample_request []) sample_server).2 = 0
  ∧ app (serve SERVED_PROTOCOL_VERSIONS "2" sample_services sample_authenticate
           (sample_request ["Bearer t" : bytes]) sample_server).2 = 1.
Proof.
  split.
  - destruct (services_see_authenticated_callers SERVED_PROTOCOL_VERSIONS "2" sample_services sample_authenticate
      (sample_request []) sample_server) as [[Ha _]|(p & Hp & _)]; [done|vm_compute; reflexivity|exact Ha|done].
  - destruct (services_see_authenticated_callers SERVED_PROTOCOL_VERSIONS "2" sample_services sample_authenticate
      (sample_request ["Bearer t" : bytes]) sample_server) as [[_ Ha]|(p & _ & _ & _ & Hp)];
      [done|vm_compute; reflexivity| |rewrite Hp; done].
    exfalso. eapply Ha. vm_compute. reflexivity.
Defined.

Lemma retirement_counters_are_exact_witness :
  tally "v4" (protocol_metrics (handle SERVED_PROTOCOL_VERSIONS "2" sample_services sample_authenticate sample_server
    [sample_request []; sample_request ["Bearer t" : bytes]])) = Some (2%Z, 1%Z).
Proof.
  destruct (retirement_counters_are_exact SERVED_PROTOCOL_VERSIONS "2" sample_services sample_authenticate "v4"
    [sample_request []; sample_request ["Bearer t" : bytes]] sample_server) as [Ht _].
  - done.
  - apply (bool_decide_unpack _). vm_compute. exact I.
  - apply (bool_decide_unpack _). vm_compute. exact I.
  - by repeat constructor.
  - rewrite Ht. vm_compute. reflexivity.
Defined.

End Dispatch.
