(* ===== verification/Retirement.v ===== *)
(** * Native sessions and the server

    Models [crates/sovereign-config-native/src/transport/mod.rs]: the channel that
    negotiates and the transport bound to one version, over the server of
    [Dispatch]; and shows that the server keeps the promises the sessions of
    [Session] rely on, so that a session outlives the retirement of its version.
    The channel carries a request to the server and its answer back. *)

From stdpp Require Import strings.
From S2P Require Import Prelude Bytes ConfigPath Core Auth AuditEvent Rpc Database AuditTrail BrokerSignature SigningKeys Authenticate Flow Dispatch Session.

Local Open Scope bytes_scope.

(** ** Statuses *)

Module Native.

Import Dispatch Sessions.

Definition is_version_not_served (status : GrpcStatus) : bool :=
  match List.find (λ kv, bool_decide (kv.1 = ERROR_KIND_METADATA)) (metadata status) with
  | Some kv => bool_decide (Auth.header_to_str kv.2 = Some VERSION_NOT_SERVED_KIND)
  | None => false
  end.

Definition map_status (status : GrpcStatus) : ClientError :=
  if is_version_not_served status then map_rpc_status RpcVersionNotServed
  else map_rpc_status
    match status_code (grpc_status status) with
    | Rpc.Unauthenticated => RpcUnauthenticated
    | Rpc.PermissionDenied => RpcPermissionDenied
    | Rpc.FailedPrecondition => RpcFailedPrecondition
    | Rpc.Unimplemented => RpcUnimplemented
    | Rpc.InvalidArgument => RpcInvalidArgument
    | Rpc.NotFound => RpcNotFound
    | Rpc.AlreadyExists => RpcAlreadyExists
    | Rpc.Aborted | Rpc.Unavailable => RpcUnavailable
    | Rpc.Internal => RpcOther
    end.

(** The methods of the versions' services. *)
Inductive RpcMethod :=
| GetVersion | GetIdentity
| ListValues | GetSubTree | PutValue | ReplaceSubTree | DeleteValues | RevealSecret | AddValuePath | ListValuePaths
| ListManagedConnections | CreateManagedConnection | RotateManagedConnection | RevokeManagedConnection
| QueryAuditTrail.

Definition method_path (m : RpcMethod) : bytes :=
  match m with
  | GetVersion => "System/GetVersion"
  | GetIdentity => "System/GetIdentity"
  | ListValues => "Configuration/ListValues"
  | GetSubTree => "Configuration/GetSubTree"
  | PutValue => "Configuration/PutValue"
  | ReplaceSubTree => "Configuration/ReplaceSubTree"
  | DeleteValues => "Configuration/DeleteValues"
  | RevealSecret => "Configuration/RevealSecret"
  | AddValuePath => "Configuration/AddValuePath"
  | ListValuePaths => "Configuration/ListValuePaths"
  | ListManagedConnections => "ManagedConnections/ListManagedConnections"
  | CreateManagedConnection => "ManagedConnections/CreateManagedConnection"
  | RotateManagedConnection => "ManagedConnections/RotateManagedConnection"
  | RevokeManagedConnection => "ManagedConnections/RevokeManagedConnection"
  | QueryAuditTrail => "Audit/QueryAuditTrail"
  end.

(** The route of a version's method: its package, then the service and method. *)
Definition route (v : Protocol.ProtocolVersion) (m : RpcMethod) : bytes :=
  "/sovereign.config." ++ Protocol.as_str v ++ "." ++ method_path m.

(** [authenticated_request]: the bearer token is a metadata value. *)
Definition bearer_header (bearer : Secret) : result bytes ClientError :=
  ok_or (Auth.header_to_str ("Bearer " ++ expose_secret bearer)) (map_rpc_status RpcInvalidArgument).

(** A transport is a channel and the version it speaks. *)
Record TonicTransport := mkTransport { transport_version : Protocol.ProtocolVersion }.
Definition speaking (v : Protocol.ProtocolVersion) : TonicTransport := mkTransport v.

Section native.
Context {M P K App : Type}.
Context (served_protocols : list ServedProtocol) (application_version : bytes).
Context (services : HttpRequest M → App → Response P * App).
Context (authenticate : list bytes → K → result AuthenticatedPrincipal Auth.AuthenticationResult * K).

(** [tonic] reads an HTTP 404 as an unimplemented method. *)
Definition outcome (r : Response P) : result (Answer P) ClientError :=
  match r with
  | HttpNotFound => Err (map_rpc_status RpcUnimplemented)
  | Failed status => Err (map_status status)
  | Answered a => Ok a
  end.

Definition post (path : bytes) (headers : list bytes) (m : Message M) : HttpRequest M :=
  mkRequest POST path headers m None None.

Definition send (path : bytes) (headers : list bytes) (m : Message M) (s : Server K App)
  : result (Answer P) ClientError * Server K App :=
  let a := serve served_protocols application_version services authenticate (post path headers m) s in
  (outcome a.1, a.2).

(** A stub decodes the message type it expects. *)
Definition malformed_answer : ClientError := map_rpc_status RpcOther.

Definition served_versions_call (client_versions : list Protocol.ProtocolVersion) (s : Server K App)
  : result (list Protocol.ServedVersion) ClientError * Server K App :=
  let r := send HANDSHAKE_RPC [] (NegotiateRequest (List.map Protocol.as_str client_versions)) s in
  (match r.1 with
   | Ok (NegotiateResponse versions) => Ok (List.map (λ e, Protocol.mkServedVersion e.1 e.2) versions)
   | Ok _ => Err malformed_answer
   | Err e => Err e
   end, r.2).

Definition get_version_call (v : Protocol.ProtocolVersion) (s : Server K App)
  : result VersionReply ClientError * Server K App :=
  let r := send (route v GetVersion) [] (GetVersionRequest (Protocol.as_str v)) s in
  (match r.1 with
   | Ok (GetVersionResponse application version supported) => Ok (mkVersionReply application version supported)
   | Ok _ => Err malformed_answer
   | Err e => Err e
   end, r.2).

#[local] Instance native_handshake : Handshake (Server K App) := {|
  Session.served_versions := served_versions_call;
  legacy_version := get_version_call Protocol.LEGACY |}.

(** A call of a transport: a method, its authorization header and the message. *)
Record Call := mkCall { call_method : RpcMethod; call_authorization : list bytes; call_message : Message M }.

Definition dial (t : TonicTransport) (c : Call) (s : Server K App) : result (Answer P) ClientError * Server K App :=
  send (route (transport_version t) (call_method c)) (call_authorization c) (call_message c) s.

(** States that differ in counters only. *)
Definition same_substance (s s' : Server K App) : Prop := key_cache s' = key_cache s ∧ app s' = app s.

#[local] Instance native_service : VersionedService (Server K App) TonicTransport Call (Answer P) := {|
  request := dial;
  serves _ := List.map (λ p, Protocol.mkServedVersion (Dispatch.version p) (Dispatch.deprecation_date p)) served_protocols;
  same := same_substance |}.

(** ** The promises a session relies on *)

(** The services' statuses carry no marker: they are plain statuses. *)
Context (services_unmarked : ∀ r a status, (services r a).1 = Failed status → metadata status = []).

Lemma route_classified v m : classify (route v m) = Some (Versioned (Protocol.as_str v)).
Proof. by destruct v, m. Qed.

Lemma route_not_telemetry v m : is_client_telemetry_path (route v m) = false.
Proof. by destruct v, m. Qed.

Lemma marker_read v l : map_status (version_not_served v l) = map_rpc_status RpcVersionNotServed.
Proof. done. Qed.

Lemma names_served s : names (serves s) = SERVED_PROTOCOL_LABELS served_protocols.
Proof. unfold names. cbn. by rewrite List.map_map. Qed.

Notation serve := (serve served_protocols application_version services authenticate).
Notation router := (router served_protocols application_version services).
Notation authentication_service := (authentication_service served_protocols authenticate router).

(** Counters do not change what a request is answered, nor what it does. *)
Lemma serve_same r s s' : same_substance s s' →
  (serve r s').1 = (serve r s).1 ∧ same_substance (serve r s).2 (serve r s').2.
Proof.
  intros [Hk Ha]. rewrite !serve_attributed.
  assert (∀ r s s', same_substance s s' → (router r s').1 = (router r s).1
    ∧ same_substance (router r s).2 (router r s').2) as Hr.
  { clear. intros r s s' [Hk Ha].
    destruct (router_app served_protocols application_version services r s s' ltac:(done)) as (-> & Happ & Hc).
    destruct (router_app served_protocols application_version services r s' s' eq_refl) as (_ & _ & Hc').
    split; [done|]. split; [by rewrite Hc, Hc'|done]. }
  assert (∀ r s s', same_substance s s' → (authentication_service r s').1 = (authentication_service r s).1
    ∧ same_substance (authentication_service r s).2 (authentication_service r s').2) as Hau.
  { clear -Hr. intros r s s' Hs. pose proof Hs as [Hk Ha]. unfold Dispatch.authentication_service.
    destruct (is_client_telemetry_path _); [done|]. destruct (_ || _); [by apply Hr|]. rewrite Hk.
    destruct (authenticate _ _) as [[p|e] cache]; [by apply Hr|done]. }
  unfold unserved_version_service. destruct (classify _) as [[]|]; try (by apply Hau).
  destruct (_ && _); [done|]. by apply Hau.
Qed.

Lemma handshake_answered vs s :
  (served_versions_call vs s).1 = Ok (serves s) ∧ same_substance s (served_versions_call vs s).2.
Proof.
  unfold served_versions_call, send. rewrite serve_attributed. unfold unserved_version_service.
  change (classify (uri_path _)) with (Some Unversioned). cbn [fst snd].
  unfold Dispatch.authentication_service. change (is_client_telemetry_path (uri_path _)) with false.
  change (uri_path _) with HANDSHAKE_RPC.
  assert (is_operational_rpc served_protocols HANDSHAKE_RPC = true) as ->.
  { apply orb_true_iff. left. apply bool_decide_eq_true. right. right. by left. }
  rewrite orb_true_r. unfold Dispatch.router. cbn [method seen post message uri_path].
  rewrite !bool_decide_eq_true_2 by done. unfold Dispatch.negotiate. cbn [negb fst snd outcome].
  rewrite List.map_map. done.
Qed.

(** A version that is not served is refused before anything is looked at. *)
Lemma unserved_dial v c s : Protocol.as_str v ∉ SERVED_PROTOCOL_LABELS served_protocols →
  (dial (speaking v) c s).1 = Err (map_rpc_status RpcVersionNotServed)
  ∧ same_substance s (dial (speaking v) c s).2.
Proof.
  intros Hv. unfold dial, send. rewrite serve_attributed. unfold unserved_version_service.
  change (uri_path _) with (route v (call_method c)). rewrite route_classified. cbn [method seen post].
  rewrite bool_decide_eq_true_2, bool_decide_eq_false_2 by done. done.
Qed.

(** Nothing behind the catch-all answers with its marker. *)
Lemma served_dial v c s e : Protocol.as_str v ∈ SERVED_PROTOCOL_LABELS served_protocols →
  (dial (speaking v) c s).1 = Err e → kind e ≠ VersionNotServed.
Proof.
  intros Hv. unfold dial, send. rewrite serve_attributed. unfold unserved_version_service.
  change (uri_path _) with (route v (call_method c)). rewrite route_classified. cbn [fst].
  rewrite (bool_decide_eq_true_2 (_ ∈ _)) by done. rewrite andb_false_r.
  assert (∀ r (s : Server K App) e, outcome (router r s).1 = Err e → kind e ≠ VersionNotServed) as Hr.
  { clear -services_unmarked. intros r s e. assert (outcome (rest services r s).1 = Err e → kind e ≠ VersionNotServed) as Hrest.
    { unfold rest. cbn [fst]. destruct (services r (app s)).1 as [|status|] eqn:E; [by intros [= <-]| |done].
      apply services_unmarked in E. intros [= <-]. unfold map_status, is_version_not_served. rewrite E. cbn.
      by destruct (status_code _). }
    unfold Dispatch.router. repeat case_match; try done. unfold get_identity. case_match; [done|].
    intros [= <-]. unfold require_principal in *. case_match; by simplify_eq/=. }
  unfold Dispatch.authentication_service. change (uri_path _) with (route v (call_method c)).
  rewrite route_not_telemetry. destruct (_ || _); [apply Hr|].
  destruct (authenticate _ _) as [[p|f] cache]; [apply Hr|]. intros [= <-]. by destruct f.
Qed.

#[local] Instance native_laws : ServiceLaws speaking.
Proof.
  split.
  - split; [by split|by intros ? ? [? ?]; split|intros ? ? ? [? ?] [? ?]; split; congruence].
  - done.
  - intros t c s s' Hs. destruct (serve_same (post (route (transport_version t) (call_method c))
      (call_authorization c) (call_message c)) s s' Hs) as [E Hs']. split; [exact (f_equal outcome E)|exact Hs'].
  - apply handshake_answered.
  - intros v c s. rewrite names_served. apply unserved_dial.
  - intros v c s e. rewrite names_served. apply served_dial.
  - done.
Qed.

(** C9: a native session outlives the retirement of its protocol version: against
    a server of any build, one call on a session does exactly what the operation
    does when performed once on a version both speak, which is the session's own
    as long as the server serves it and otherwise the one selected from the
    server's list, and the session speaks that version from then on; the refused
    attempt and the handshake touch nothing the services keep.  With no version
    in common the call fails naming both lists and changes nothing. *)
Theorem native_sessions_survive_retirement {R} (c : Call) (k : Answer P → Program Call (Answer P) R)
    (s : Session (Server K App) TonicTransport) :
  transport (state s) = speaking (version (state s)) →
  let r := run (call speaking (perform (Ask c k))) s in
  match right_version speaking (serves (connection s)) (state s) with
  | Ok st =>
      let once := run (perform (Ask c k) (transport st)) (mkSession (connection s) st) in
      r.1 = once.1 ∧ app (connection r.2) = app (connection once.2) ∧ state r.2 = st
  | Err e => r.1 = Err e ∧ app (connection r.2) = app (connection s) ∧ state r.2 = state s
  end.
Proof.
  intros Ht. pose proof (call_survives_retirement speaking c k s Ht) as Hs. revert Hs.
  cbv zeta. destruct (right_version _ _ _) as [st|e]; intros (? & [_ ?] & ?); done.
Qed.
End native.

(** *** A session on [v3] against a server that serves [v4] and [v5] *)

Definition sample_served : list ServedProtocol :=
  [mkServedProtocol "v5" 5 (Some ("2031-01-01T00:00:00Z" : bytes)); mkServedProtocol "v4" 4 None].

Definition sample_services (r : HttpRequest unit) (a : nat) : Response nat * nat := (Answered (OtherResponse a), S a).
Definition sample_authenticate (headers : list bytes) (k : unit)
  : result AuthenticatedPrincipal Auth.AuthenticationResult * unit := (Ok (mkPrincipal "u" None []), k).

Definition sample_server : Server unit nat :=
  mkServer (ProtocolMetrics.new ["v5"; "v4"]) AuthenticationMetrics.zero tt 0.

#[local] Instance sample_handshake : Handshake (Server unit nat) :=
  native_handshake sample_served "2.0" sample_services sample_authenticate.
#[local] Instance sample_service : VersionedService (Server unit nat) TonicTransport (Call (M:=unit)) (Answer nat) :=
  native_service sample_served "2.0" sample_services sample_authenticate.

Definition sample_session : Session (Server unit nat) TonicTransport :=
  mkSession sample_server (mkSessionState Protocol.V3 None (speaking Protocol.V3)).

Definition sample_put : Call (M:=unit) := mkCall PutValue ["Bearer t" : bytes] (OtherRequest tt).

Lemma native_sessions_survive_retirement_witness :
  let r := run (call speaking (perform (Ask sample_put (λ a, Return a)))) sample_session in
  r.1 = Ok (OtherResponse 0) ∧ app (connection r.2) = 1 ∧ version (state r.2) = Protocol.V4.
Proof.
  assert (∀ r (a : nat) status, (sample_services r a).1 = Failed status → metadata status = []) as Hu by done.
  pose proof (native_sessions_survive_retirement sample_served "2.0" sample_services sample_authenticate
    Hu sample_put (λ a, Return a) sample_session eq_refl) as Hw.
  vm_compute in Hw. vm_compute. naive_solver.
Defined.

End Native.
