(* ===== verification/BrokerConfig.v ===== *)
(** * Starting the Woodpecker broker

    Models [crates/sovereign-config-woodpecker-broker/src]: the environment
    ([config.rs]), the signing key ([pubkey.rs]) and opening the one managed
    connection ([sovereign/connect.rs]).  The environment, files, the HTTP client and
    the channel are parameters, and so is what a socket address is. *)

From stdpp Require Import strings.
From S2P Require Import Prelude Bytes ConfigPath Core Encryption Rpc AuditQuery ConnectionUrl BrokerLayers BrokerSignature LayerReader Flow Session.

Local Open Scope bytes_scope.

(** [env::var], [fs::read_to_string] and the reading of a socket address. *)
Class BrokerHost (A : Type) := {
  env_get : bytes → option bytes;
  read_to_string : bytes → option bytes;
  parse_socket_addr : bytes → option A }.

Module Config.

Definition DEFAULT_TOKEN_TTL : Z := 300.
Definition DEFAULT_QUEUE_DEPTH : Z := 16.
Definition DEFAULT_LISTEN_ADDR : bytes := "0.0.0.0:8080".
Definition DEFAULT_METRICS_ADDR : bytes := "0.0.0.0:9090".

Inductive PublicKeySource :=
| Fetch (url : bytes) (token : Secret)
| File (path : bytes).

(** [token_ttl] is in seconds. *)
Record Config (A : Type) := mkConfig {
  connection_url : Secret; layers : Templates.LayerTemplates; listen_addr_ : A; metrics_addr : A;
  token_ttl : Z; queue_depth : Z; public_key : PublicKeySource }.
Arguments mkConfig {A}.
Arguments connection_url {A}.
Arguments layers {A}.
Arguments listen_addr_ {A}.
Arguments metrics_addr {A}.
Arguments token_ttl {A}.
Arguments queue_depth {A}.
Arguments public_key {A}.

Inductive ConfigError :=
| Missing (name : bytes) | Empty (name : bytes) | Unreadable (name : bytes)
| Invalid (name expected : bytes) | NoPublicKeySource | DuplicateListener
| LayersInvalid (e : Templates.LayerError).

Section config.
Context {A : Type} `{EqDecision A} `{BrokerHost A}.

Definition optional (name : bytes) : option bytes :=
  value ← env_get name; let value := trim value in if is_empty value then None else Some value.

Definition required (name : bytes) : result bytes ConfigError := ok_or (optional name) (Missing name).

Definition socket_addr (name default_ : bytes) : result A ConfigError :=
  ok_or (parse_socket_addr (default default_ (optional name))) (Invalid name "socket address").

Definition listen_addr : result A ConfigError :=
  socket_addr "SOVEREIGN_CONFIG_BROKER_LISTEN_ADDR" DEFAULT_LISTEN_ADDR.

Definition positive (name : bytes) (default_ : Z) (expected : bytes) : result Z ConfigError :=
  match optional name with
  | None => Ok default_
  | Some value =>
      match Signature.parse_u64 value with
      | Some parsed => if (0 <? parsed)%Z then Ok parsed else Err (Invalid name expected)
      | None => Err (Invalid name expected)
      end
  end.

Definition required_secret (name : bytes) : result bytes ConfigError :=
  match optional name with
  | Some value => Ok value
  | None =>
      let file_name := name ++ "_FILE" in
      let? path := ok_or (optional file_name) (Missing name) in
      let? value := ok_or (read_to_string path) (Unreadable file_name) in
      let value := trim value in
      if is_empty value then Err (Empty file_name) else Ok value
  end.

Definition public_key_source : result PublicKeySource ConfigError :=
  match optional "WOODPECKER_URL", optional "WOODPECKER_TOKEN" with
  | Some url, Some token => Ok (Fetch url (mkSecret token))
  | _, _ => ok_or (File <$> optional "WOODPECKER_PUBLIC_KEY_FILE") NoPublicKeySource
  end.

(** [usize] holds a [u64]. *)
Definition resolve : result (Config A) ConfigError :=
  let? connection_url := required_secret "SOVEREIGN_CONFIG_BROKER_CONNECTION_URL" in
  let? spec := required "SOVEREIGN_CONFIG_BROKER_LAYERS" in
  let? layers := map_err (Templates.parse spec) LayersInvalid in
  let? listen := listen_addr in
  let? metrics := socket_addr "SOVEREIGN_CONFIG_BROKER_METRICS_ADDR" DEFAULT_METRICS_ADDR in
  if bool_decide (listen = metrics) then Err DuplicateListener
  else
    let? ttl := positive "SOVEREIGN_CONFIG_BROKER_TOKEN_TTL_SECONDS" DEFAULT_TOKEN_TTL "positive number of seconds" in
    let? depth := positive "SOVEREIGN_CONFIG_BROKER_QUEUE_DEPTH" DEFAULT_QUEUE_DEPTH "positive integer" in
    let? key := public_key_source in
    Ok (mkConfig (mkSecret connection_url) layers listen metrics ttl depth key).

(** Text read from the environment or a file is never empty. *)
Lemma optional_nonempty name v : optional name = Some v → v ≠ [].
Proof.
  unfold optional. destruct (env_get name) as [x|]; [|done]. cbn.
  destruct (trim x) as [|c t]; [done|]. by intros [= <-].
Qed.

Lemma required_secret_nonempty name v : required_secret name = Ok v → v ≠ [].
Proof.
  unfold required_secret. destruct (optional name) eqn:E; [intros [= <-]; by eapply optional_nonempty|].
  intros (p & _ & Hr)%and_then_ok. apply and_then_ok in Hr as (x & _ & Hr).
  destruct (trim x); [done|]. by injection Hr as <-.
Qed.

Lemma positive_pos name d expected n : (0 < d)%Z → positive name d expected = Ok n → (0 < n)%Z.
Proof.
  intros Hd. unfold positive. destruct (optional name); [|by intros [= <-]].
  destruct (Signature.parse_u64 _); [|done]. destruct (0 <? z)%Z eqn:E; [|done]. intros [= <-]. lia.
Qed.

(** A configuration that resolves can be served with: a connection, layers the
    broker renders, two listeners that do not collide, and a queue and a token
    lifetime that are not zero. *)
Lemma resolved_config c : resolve = Ok c →
  expose_secret (connection_url c) ≠ []
  ∧ (∃ spec, spec ≠ [] ∧ Templates.parse spec = Ok (layers c))
  ∧ listen_addr_ c ≠ metrics_addr c ∧ (0 < token_ttl c)%Z ∧ (0 < queue_depth c)%Z.
Proof.
  unfold resolve. intros (url & Hurl & Hr)%and_then_ok. apply and_then_ok in Hr as (spec & Hspec & Hr).
  apply and_then_ok in Hr as (ls & Hls & Hr). apply and_then_ok in Hr as (l & _ & Hr).
  apply and_then_ok in Hr as (m & _ & Hr). case_bool_decide as Hlm; [done|].
  apply and_then_ok in Hr as (ttl & Httl & Hr). apply and_then_ok in Hr as (depth & Hdepth & Hr).
  apply and_then_ok in Hr as (k & _ & [= <-]). cbn. split; [by eapply required_secret_nonempty|]. split.
  { exists spec. unfold required in Hspec. destruct (optional _) eqn:E; [|done]. injection Hspec as ->.
    split; [by eapply optional_nonempty|]. destruct (Templates.parse spec); cbn in Hls; congruence. }
  split; [done|]. split; by eapply positive_pos; [|done].
Qed.
End config.

End Config.

(** ** pubkey.rs *)

Module PubKey.

Definition MAX_KEY_BYTES : nat := 8 * 1024.

Inductive PublicKeyError := KeyUnreadable | Unfetchable | KeyUnauthorized | KeyMalformed (e : Signature.KeyError).

(** A response of the key endpoint: its status and its text, which may fail to
    arrive.  [http_get] sends one request for a URL with a bearer token, following
    no redirect; no answer is a request that could not be sent. *)
Record KeyResponse := mkKeyResponse { key_status : Z; key_text : option bytes }.

Section pubkey.
Context {A : Type} `{BrokerHost A} `{SignatureCrates}.
Context (http_get : bytes → Secret → option KeyResponse).

Definition key_url (base_url : bytes) : bytes := trim_end_matches "/"%char base_url ++ "/api/signature/public-key".

Definition fetch (base_url : bytes) (token : Secret) : result bytes PublicKeyError :=
  let? response := ok_or (http_get (key_url base_url) token) Unfetchable in
  if bool_decide (key_status response = 401%Z) || bool_decide (key_status response = 403%Z)
  then Err KeyUnauthorized
  else if negb ((200 <=? key_status response)%Z && (key_status response <? 300)%Z) then Err Unfetchable
  else
    let? body := ok_or (key_text response) Unfetchable in
    if (MAX_KEY_BYTES <? length body) || is_empty (trim body) || bool_decide (trim body = "User not authorized")
    then Err KeyUnauthorized else Ok body.

Definition load (source : Config.PublicKeySource) : result Signature.SignatureVerifier PublicKeyError :=
  let? pem :=
    match source with
    | Config.Fetch url token => fetch url token
    | Config.File path => ok_or (read_to_string path) KeyUnreadable
    end in
  map_err (Signature.from_spki_pem pem) KeyMalformed.
End pubkey.

End PubKey.

(** ** sovereign/connect.rs *)

Module Connect.

Inductive ConnectError := MalformedUrl | UnsupportedCredential | Unreachable | IncompatibleVersion | RuntimeFailed.

(** What the token provider is made of: issuer, client, credential and ceiling. *)
Record TokenSettings := mkTokenSettings {
  token_issuer : bytes; token_client : bytes; token_authentication : Secret; token_ceiling : Z }.

Record Connected (W T : Type) := mkConnected {
  session : Sessions.Session W T; tokens : TokenSettings; root : ConfigPath }.
Arguments mkConnected {W T}.
Arguments session {W T}.
Arguments tokens {W T}.
Arguments root {W T}.

Section connect.
Context {W T : Type} `{Handshake W} `{UrlCrates} (speaking : Protocol.ProtocolVersion → T).
(** [TonicChannel::connect] *)
Context (open_channel : bytes → option W).

Definition connect (url : Secret) (token_ttl : Z) : result (Connected W T) ConnectError :=
  let? connection := map_err (Connection.parse (expose_secret url)) (λ _, MalformedUrl) in
  let? authentication := ok_or (Connection.client_authentication connection) UnsupportedCredential in
  let? channel := ok_or (open_channel (Connection.endpoint connection)) Unreachable in
  match run (Sessions.open speaking) channel with
  | (Ok st, channel) =>
      Ok (mkConnected (Sessions.mkSession channel st)
            (mkTokenSettings (Connection.issuer connection) (Connection.client_id connection) authentication token_ttl)
            (Connection.cu_root connection))
  | (Err e, _) =>
      Err (match kind e with Core.IncompatibleProtocol => IncompatibleVersion | _ => Unreachable end)
  end.

(** A connection is opened only with a managed credential, on a version the
    service listed or its legacy answer named. *)
Lemma connected url ttl c : connect url ttl = Ok c →
  ∃ connection, Connection.parse (expose_secret url) = Ok connection
    ∧ Connection.client_authentication connection = Some (token_authentication (tokens c))
    ∧ root c = Connection.cu_root connection
    ∧ Sessions.Negotiated speaking (Sessions.state (session c)).
Proof.
  unfold connect. intros (connection & Hc & Hr)%and_then_ok.
  apply and_then_ok in Hr as (authentication & Ha & Hr). apply and_then_ok in Hr as (w & _ & Hr).
  destruct (run (Sessions.open speaking) w) as [[st|e] w'] eqn:E; [|done]. injection Hr as <-.
  exists connection. split; [by destruct (Connection.parse _); simplify_eq/=|].
  split; [by destruct (Connection.client_authentication _); simplify_eq/=|]. split; [done|]. cbn.
  assert (returns (λ r, ∀ st, r = Ok st → Sessions.Negotiated speaking st) (Sessions.open speaking)) as Hret.
  { eapply returns_bind; [apply Sessions.negotiate_returns|]. intros [status|e] Hs; cbn; [|done].
    destruct (Hs status eq_refl) as [served Hsel]. intros ? [= <-]. by exists served, status. }
  apply (returns_run _ _ w) in Hret. rewrite E in Hret. by apply Hret.
Qed.
End connect.

End Connect.
