(* ===== verification/Broker.v ===== *)
(** * The Woodpecker broker

    Models [crates/sovereign-config-woodpecker-broker/src]: the wire model
    ([model.rs]), the error surface ([error.rs]), the counters ([metrics.rs]), the
    reader thread behind its bounded queue ([sovereign/mod.rs]) and the handler that
    joins them ([handler.rs]).  JSON decoding is a parameter. *)

From stdpp Require Import strings.
From S2P Require Import Prelude Bytes ConfigPath Core Encryption Rpc AuditTrail BrokerLayers BrokerSignature BrokerSigned LayerReader Flow Session.

Local Open Scope bytes_scope.

(** [serde_json] reading a request, and a document as a value. *)
Inductive JsonValue := JsonNull | JsonObject (fields : list (bytes * JsonValue)) | JsonOther.

Class BrokerJson := {
  request_from_slice : bytes → option SecretsRequest;
  value_from_slice : bytes → option JsonValue }.

Module Broker.

(** ** model.rs *)

Definition ALL_EVENTS : list bytes := ["push"; "tag"; "release"; "deployment"; "cron"; "manual"].

Record ResponseSecret := mkResponseSecret {
  secret_name : bytes; secret_value : bytes; events : list bytes; images : list bytes }.

Record SecretsResponse := mkResponse { secrets_ : list ResponseSecret }.

(** The values come from a [BTreeMap]; the sort makes their order that of the
    names however they are enumerated. *)
Definition build (values : gmap bytes RevealedSecret) : SecretsResponse :=
  mkResponse (sort_by (λ l r, bytes_leb (secret_name l) (secret_name r))
    (List.map (λ nv, mkResponseSecret nv.1 (expose_revealed nv.2) ALL_EVENTS []) (map_to_list values))).

(** ** error.rs *)

Inductive BrokerError :=
| Unauthorized (e : Signature.SignatureError)
| InvalidBody | MissingFields | BrokerUnavailable | AuthUnavailable | Overloaded | ReaderGone.
#[global] Instance BrokerError_eq_dec : EqDecision BrokerError.
Proof. solve_decision. Defined.

Definition status (self : BrokerError) : Z :=
  match self with
  | Unauthorized _ => 401
  | InvalidBody | MissingFields => 400
  | BrokerUnavailable | AuthUnavailable | Overloaded | ReaderGone => 503
  end.

Definition outcome (self : BrokerError) : bytes :=
  match self with
  | Unauthorized _ => "unauthorized"
  | InvalidBody | MissingFields => "invalid"
  | BrokerUnavailable | AuthUnavailable => "unavailable"
  | Overloaded => "overloaded"
  | ReaderGone => "reader_gone"
  end.

Definition to_string (self : BrokerError) : bytes :=
  match self with
  | Unauthorized _ => "signature verification failed"
  | InvalidBody => "invalid request body"
  | MissingFields => "repo and pipeline are required"
  | BrokerUnavailable => "secret store unavailable"
  | AuthUnavailable => "auth unavailable"
  | Overloaded => "broker is overloaded"
  | ReaderGone => "secret store unavailable"
  end.

(** The status and the error text of the body. *)
Definition into_response (self : BrokerError) : Z * bytes :=
  (status self, match self with Overloaded => "secret store unavailable" | other => to_string other end).

Definition from_client_error (error : ClientError) : BrokerError :=
  match kind error with Core.Unauthenticated => AuthUnavailable | _ => BrokerUnavailable end.

(** ** metrics.rs *)

Definition OUTCOMES : list bytes :=
  ["ok"; "unauthorized"; "invalid"; "unavailable"; "overloaded"; "reader_gone"].

Definition SIGNATURE_REASONS : list bytes :=
  ["missing_headers"; "not_ascii"; "unknown_label"; "malformed_input"; "unexpected_components";
   "unsupported_algorithm"; "created_out_of_range"; "missing_digest"; "malformed_digest";
   "digest_mismatch"; "bad_signature"].

Record Metrics := mkMetrics {
  requests : list Z; signature_failures : list Z; secrets_returned : Z }.

Definition no_metrics : Metrics := mkMetrics (replicate 6 0%Z) (replicate 11 0%Z) 0.

Definition position (known : list bytes) (label : bytes) : option nat :=
  fst <$> list_find (λ k, k = label) known.

(** [fetch_add(1)] of the cell of a known label. *)
Definition count (known : list bytes) (label : bytes) (cells : list Z) : list Z :=
  match position known label with
  | Some index => alter (λ n, Trail.wrap64 (n + 1)) index cells
  | None => cells
  end.

Definition request_metric (outcome : bytes) (secrets : nat) (m : Metrics) : Metrics :=
  mkMetrics (count OUTCOMES outcome (requests m)) (signature_failures m)
    (if 0 <? secrets then Trail.wrap64 (Z.of_nat secrets) else secrets_returned m).

Definition signature_failure (reason : bytes) (m : Metrics) : Metrics :=
  mkMetrics (requests m) (count SIGNATURE_REASONS reason (signature_failures m)) (secrets_returned m).

(** ** sovereign/mod.rs *)

Definition Values : Type := gmap bytes RevealedSecret.

(** The queue with the reader behind it: the commands waiting, whether the
    reader still receives, the replies sent, and what it reads from.  A command is
    the layers of one fetch with the number of its reply channel. *)
Record Reader (S : Type) := mkReaderState {
  inbox : list (nat * list ConfigPath);
  live : bool;
  replies : gmap nat (result Values BrokerError);
  world : S }.
Arguments mkReaderState {S}.
Arguments inbox {S}.
Arguments live {S}.
Arguments replies {S}.
Arguments world {S}.

Section reader.
Context {S : Type} (queue_depth : nat).
(** One fetch over the session. *)
Context (session_fetch : list ConfigPath → S → result Values ClientError * S).

(** [mpsc::Sender::try_send] on a channel of [queue_depth] *)
Definition try_send (id : nat) (layers : list ConfigPath) (rd : Reader S) : result (Reader S) BrokerError :=
  if negb (live rd) then Err ReaderGone
  else if queue_depth <=? length (inbox rd) then Err Overloaded
  else Ok (mkReaderState (inbox rd ++ [(id, layers)]) (live rd) (replies rd) (world rd)).

(** One turn of the reader's loop. *)
Definition serve_command (rd : Reader S) : Reader S :=
  match inbox rd with
  | [] => rd
  | (id, layers) :: inbox' =>
      let '(r, w) := session_fetch layers (world rd) in
      mkReaderState inbox' (live rd) (<[id := map_err r from_client_error]> (replies rd)) w
  end.

(** The reader's exit drops the commands still waiting, and their channels. *)
Definition reader_exit (rd : Reader S) : Reader S := mkReaderState [] false (replies rd) (world rd).

(** What awaiting the reply of a sent command gives, once its channel is used or
    dropped. *)
Definition response (id : nat) (rd : Reader S) : option (result Values BrokerError) :=
  match replies rd !! id with
  | Some r => Some r
  | None => if bool_decide (id ∈ List.map fst (inbox rd)) then None else Some (Err ReaderGone)
  end.

Definition is_live (rd : Reader S) : bool := live rd.

(** [SovereignHandle::fetch], the reader serving what is queued meanwhile. *)
Definition fetch (id : nat) (layers : list ConfigPath) (rd : Reader S) : result Values BrokerError * Reader S :=
  match try_send id layers rd with
  | Err e => (Err e, rd)
  | Ok rd1 =>
      let rd2 := Nat.iter (length (inbox rd1)) serve_command rd1 in
      (default (Err ReaderGone) (response id rd2), rd2)
  end.
End reader.

(** ** handler.rs *)

Definition MAX_BODY_BYTES : nat := 1024 * 1024.

Record AppState (S : Type) := mkAppState {
  verifier : Signature.SignatureVerifier; templates : Templates.LayerTemplates;
  sovereign : Reader S; metrics : Metrics }.
Arguments mkAppState {S}.
Arguments verifier {S}.
Arguments templates {S}.
Arguments sovereign {S}.
Arguments metrics {S}.

(** [Value::get] of a name, absent or null. *)
Definition missing (v : JsonValue) (name : bytes) : bool :=
  match v with
  | JsonObject fields =>
      match List.find (λ f, bool_decide (f.1 = name)) fields with
      | Some (_, JsonNull) | None => true
      | Some _ => false
      end
  | _ => true
  end.

Section handler.
Context `{SignatureCrates} `{Crypto} `{BrokerJson}.
Context {S : Type} (queue_depth : nat).
Context (session_fetch : list ConfigPath → S → result Values ClientError * S).

Definition body_error (body : bytes) : BrokerError :=
  match value_from_slice body with
  | Some value => if missing value "repo" || missing value "pipeline" then MissingFields else InvalidBody
  | None => InvalidBody
  end.

Definition resolve (id : nat) (st : AppState S) (request_target : bytes) (headers : Signature.Headers)
    (body : bytes) (now : Z) : result SecretsResponse BrokerError * AppState S :=
  match Signature.verify (verifier st) request_target headers body now with
  | Err e => (Err (Unauthorized e), st)
  | Ok _ =>
      match request_from_slice body with
      | None => (Err (body_error body), st)
      | Some request =>
          let layers := Templates.render (templates st) request in
          let '(r, rd) := fetch queue_depth session_fetch id layers (sovereign st) in
          let st := mkAppState (verifier st) (templates st) rd (metrics st) in
          (match r with Ok values => Ok (build values) | Err e => Err e end, st)
      end
  end.

Definition secrets (id : nat) (st : AppState S) (request_target : bytes) (headers : Signature.Headers)
    (body : bytes) (now : Z) : result SecretsResponse BrokerError * AppState S :=
  let '(r, st) := resolve id st request_target headers body now in
  let m := match r with
           | Ok response => request_metric "ok" (length (secrets_ response)) (metrics st)
           | Err error =>
               request_metric (outcome error) 0
                 (match error with
                  | Unauthorized e => signature_failure (Signature.reason e) (metrics st)
                  | _ => metrics st
                  end)
           end in
  (r, mkAppState (verifier st) (templates st) (sovereign st) m).
End handler.

(** ** The reader's queue *)

Section queue.
Context {S : Type} (queue_depth : nat).
Context (session_fetch : list ConfigPath → S → result Values ClientError * S).
Implicit Types rd : Reader S.

Lemma serve_iter_inbox n : ∀ rd, inbox (Nat.iter n (serve_command session_fetch) rd) = drop n (inbox rd).
Proof.
  induction n as [|n IH]; intros rd; [by rewrite drop_0|].
  rewrite Nat.iter_succ_r, IH. unfold serve_command. destruct (inbox rd) as [|[id layers] q] eqn:E.
  - by rewrite E, !drop_nil.
  - by destruct (session_fetch layers (world rd)).
Qed.

Lemma serve_replies id rd : id ∉ List.map fst (inbox rd) →
  replies (serve_command session_fetch rd) !! id = replies rd !! id.
Proof.
  unfold serve_command. destruct (inbox rd) as [|[j layers] q]; [done|]. cbn [List.map fst].
  intros [Hj _]%not_elem_of_cons. destruct (session_fetch layers (world rd)). cbn. by rewrite lookup_insert_ne.
Qed.

(** The commands before one are served before it, and it is answered with what
    its own fetch gives in the state they leave. *)
Lemma served_in_turn before id layers after_ : ∀ rd,
  inbox rd = before ++ (id, layers) :: after_ → id ∉ List.map fst after_ →
  ∃ w, replies (Nat.iter (length (inbox rd)) (serve_command session_fetch) rd) !! id
       = Some (map_err (session_fetch layers w).1 from_client_error)
       ∧ w = world (Nat.iter (length before) (serve_command session_fetch) rd).
Proof.
  intros rd E Hid. set (rd1 := Nat.iter (length before) (serve_command session_fetch) rd).
  exists (world rd1). split; [|done].
  assert (inbox rd1 = (id, layers) :: after_) as E1.
  { unfold rd1. by rewrite serve_iter_inbox, E, drop_app_length. }
  assert (length (inbox rd) = length after_ + Datatypes.S (length before)) as -> by (rewrite E, length_app; simpl; lia).
  rewrite Nat.iter_add, Nat.iter_succ. fold rd1.
  assert (replies (serve_command session_fetch rd1) !! id = Some (map_err (session_fetch layers (world rd1)).1 from_client_error)
    ∧ inbox (serve_command session_fetch rd1) = after_) as [Hr Hi].
  { unfold serve_command. rewrite E1. destruct (session_fetch layers (world rd1)) as [r w]. cbn.
    by rewrite lookup_insert_eq. }
  revert Hr Hi Hid. generalize (serve_command session_fetch rd1) as rd2. clear.
  induction after_ as [|[j l] q IH]; intros rd2 Hr Hi Hid; [done|].
  cbn [length]. rewrite Nat.iter_succ_r. apply not_elem_of_cons in Hid as [Hj Hq]. apply IH.
  - rewrite <- Hr. unfold serve_command. rewrite Hi. destruct (session_fetch l (world rd2)). cbn.
    by rewrite lookup_insert_ne.
  - unfold serve_command. rewrite Hi. by destruct (session_fetch l (world rd2)).
  - done.
Qed.

(** The answer to a fetch whose command is accepted: its own, from the state the
    commands queued before it leave. *)
Lemma fetch_answer id layers rd : id ∉ List.map fst (inbox rd) →
  (fetch queue_depth session_fetch id layers rd).1 =
  if negb (live rd) then Err ReaderGone
  else if queue_depth <=? length (inbox rd) then Err Overloaded
  else map_err (session_fetch layers
         (world (Nat.iter (length (inbox rd)) (serve_command session_fetch)
                   (mkReaderState (inbox rd ++ [(id, layers)]) (live rd) (replies rd) (world rd))))).1
         from_client_error.
Proof.
  intros Hid. unfold fetch, try_send. destruct (negb (live rd)); [done|].
  destruct (queue_depth <=? length (inbox rd)); [done|].
  set (rd1 := mkReaderState _ _ _ _). cbn [fst].
  destruct (served_in_turn (inbox rd) id layers [] rd1) as (w & Hr & ->); [done|by apply not_elem_of_nil|].
  unfold response. by rewrite Hr.
Qed.
End queue.

(** ** What the handler relies on of the reader *)

Class FetchLaws {S} (session_fetch : list ConfigPath → S → result Values ClientError * S)
    (tree_of : S → list Layers.StoredValue) : Prop := {
  fetch_tree layers s : tree_of (session_fetch layers s).2 = tree_of s;
  fetch_values layers s m n v : (session_fetch layers s).1 = Ok m → m !! n = Some v →
    ∃ layer, layer ∈ layers ∧ (n, v) ∈ Layers.layer_values Layers.Folded (tree_of s) layer;
  fetch_canonical s e : e ∈ tree_of s → Path.Canonical (path (Layers.sv_path e)) }.

(** *** [connect.rs]: a session's transports, read by the broker's reader *)

Definition broker_reader : Layers.LayerReader := Layers.mkReader Layers.Skip Layers.Folded.

Section connected.
Context {W T : Type} `{Handshake W} (speaking : Protocol.ProtocolVersion → T).
Context (transport_of : T → ValueTransport (Sessions.Session W T)).
Context `{InvalidatableToken (Sessions.Session W T)} `{Layers.TreeView (Sessions.Session W T)}.

(** The reader is built for the transport of the call; one fetch runs alone on
    the reader's thread. *)
Definition connected_fetch (layers : list ConfigPath) (s : Sessions.Session W T)
  : result Values ClientError * Sessions.Session W T :=
  run (Sessions.call speaking (λ t, act (@Layers.fetch _ (transport_of t) _ broker_reader layers))) s.

Context `{!∀ t, @Layers.ReaderLaws _ (transport_of t) _ _}.
Context (negotiation_keeps : ∀ s : Sessions.Session W T, Layers.tree (run (Sessions.renegotiate speaking) s).2 = Layers.tree s).

Lemma connected_laws : FetchLaws connected_fetch Layers.tree.
Proof.
  split.
  - intros layers s. unfold connected_fetch, Sessions.call. rewrite run_bind. cbn [run act Sessions.take_transport fst snd].
    rewrite run_bind. cbn [run act]. set (t := Sessions.transport (Sessions.state s)).
    pose proof (@Layers.fetch_keeps _ (transport_of t) _ _ _ broker_reader layers s) as Hk.
    destruct (@Layers.fetch _ (transport_of t) _ broker_reader layers s) as [[m|e] s1]; cbn [fst snd] in *; [done|].
    destruct (bool_decide _); [|done]. unfold flow_try. rewrite run_bind.
    pose proof (negotiation_keeps s1) as Hn. destruct (run (Sessions.renegotiate speaking) s1) as [[t'|e'] s2];
      cbn [fst snd run act] in *; [|by rewrite Hn].
    by rewrite (@Layers.fetch_keeps _ (transport_of t') _ _ _), Hn.
  - intros layers s m n v. unfold connected_fetch, Sessions.call. rewrite run_bind.
    cbn [run act Sessions.take_transport fst snd]. rewrite run_bind. cbn [run act].
    set (t := Sessions.transport (Sessions.state s)).
    pose proof (@Layers.fetch_keeps _ (transport_of t) _ _ _ broker_reader layers s) as Hk.
    pose proof (@Layers.fetch_sound _ (transport_of t) _ _ _ broker_reader layers s) as Hsound.
    destruct (@Layers.fetch _ (transport_of t) _ broker_reader layers s) as [[m1|e] s1]; cbn [fst snd] in *.
    { intros [= <-]. by apply (Hsound m1 s1). }
    destruct (bool_decide _); [|done]. unfold flow_try. rewrite run_bind.
    pose proof (negotiation_keeps s1) as Hn. destruct (run (Sessions.renegotiate speaking) s1) as [[t'|e'] s2];
      cbn [fst snd run act] in *; [|done].
    pose proof (@Layers.fetch_sound _ (transport_of t') _ _ _ broker_reader layers s2) as Hsound'.
    destruct (@Layers.fetch _ (transport_of t') _ broker_reader layers s2) as [r s3]. cbn [fst].
    intros -> Hm. rewrite <- Hk, <- Hn. by eapply Hsound'.
  - intros s e. exact (@Layers.tree_canonical _ (transport_of (Sessions.transport (Sessions.state s))) _ _ _ s e).
Qed.
End connected.

(** ** What a served secret is *)

Section served.
Context `{SignatureLaws} `{Crypto} `{!CryptoLaws} `{BrokerJson}.
Context {S : Type} (queue_depth : nat).
Context (session_fetch : list ConfigPath → S → result Values ClientError * S).
Context (tree_of : S → list Layers.StoredValue) `{!FetchLaws session_fetch tree_of}.

Lemma serve_iter_tree n : ∀ rd, tree_of (world (Nat.iter n (serve_command session_fetch) rd)) = tree_of (world rd).
Proof.
  induction n as [|n IH]; intros rd; [done|]. rewrite Nat.iter_succ_r, IH.
  unfold serve_command. destruct (inbox rd) as [|[id layers] q]; [done|].
  pose proof (fetch_tree layers (world rd)) as Ht. by destruct (session_fetch layers (world rd)).
Qed.

(** A secret that is the text of a direct child of one of the layers, under its
    name in lower case, for every event that is not a pull request. *)
Definition child_secret (tree_ : list Layers.StoredValue) (layers : list ConfigPath) (x : ResponseSecret) : Prop :=
  (∃ layer e n, layer ∈ layers ∧ e ∈ tree_ ∧ Layers.child_of layer (Layers.sv_path e) n
     ∧ secret_name x = to_ascii_lowercase n ∧ secret_value x = Layers.sv_text e)
  ∧ Forall (λ event, starts_with event "pull_request" = false) (events x) ∧ images x = [].

Lemma build_sorted values :
  StronglySorted (λ l r, bytes_ltb (secret_name l) (secret_name r) = true) (secrets_ (build values)).
Proof.
  unfold build. cbn [secrets_]. set (l := List.map _ _).
  assert (NoDup (List.map secret_name l)) as Hd.
  { unfold l. rewrite List.map_map. apply (NoDup_fst_map_to_list values). }
  pose proof (sort_by_sorted (λ a b, bytes_leb (secret_name a) (secret_name b))
    (λ a b, bytes_leb_total _ _) (λ a b c, bytes_leb_trans _ _ _) l) as Hs.
  assert (NoDup (List.map secret_name (sort_by (λ a b, bytes_leb (secret_name a) (secret_name b)) l))) as Hd'.
  { by rewrite sort_by_perm. }
  revert Hs Hd'. generalize (sort_by (λ a b, bytes_leb (secret_name a) (secret_name b)) l) as k. clear.
  induction k as [|x k IH]; intros Hs Hd; [constructor|].
  apply StronglySorted_cons in Hs as [Hx Hs]. cbn [List.map] in Hd. apply NoDup_cons in Hd as [Hn Hd].
  constructor; [by apply IH|]. rewrite Forall_forall in Hx |- *. intros y Hy. specialize (Hx y Hy).
  unfold bytes_ltb, bytes_leb in *. destruct (cmp_bytes (secret_name x) (secret_name y)) eqn:E; try done.
  exfalso. apply Hn. apply cmp_bytes_eq in E as ->. apply list_elem_of_In, in_map. by apply list_elem_of_In.
Qed.

Lemma build_elem values x : x ∈ secrets_ (build values) →
  values !! secret_name x = Some (mkRevealedSecret (secret_value x)) ∧ events x = ALL_EVENTS ∧ images x = [].
Proof.
  unfold build. cbn [secrets_]. rewrite elem_of_sort_by, list_elem_of_In, in_map_iff.
  intros ([n v] & <- & Hin%list_elem_of_In). apply elem_of_map_to_list in Hin. cbn. by destruct v.
Qed.

(** C8: a secret is served only to a request Woodpecker signed: the signing key's
    holder signed this very target, with a body of the same hash, within the
    accepted window; and every secret of the answer is the stored text of a direct
    child of a layer rendered from that body's repository and pipeline, under its
    name in lower case, never offered to a pull request, and once per name. *)
Theorem secrets_are_served_to_signed_requests (sent : list (bytes * bytes * Z)) id st target headers body now resp st' :
  (∀ base signature, verify_strict (Signature.key (verifier st)) base signature = true →
     ∃ t b c, (t, b, c) ∈ sent
       ∧ base = Signature.signature_base t (Signed.digest_header b) (Signed.woodpecker_params c)) →
  (∀ t b c, (t, b, c) ∈ sent → Signature.NL ∉ t ∧ (0 ≤ c ≤ Signature.U64_MAX)%Z) → Signature.NL ∉ target →
  id ∉ List.map fst (inbox (sovereign st)) →
  secrets queue_depth session_fetch id st target headers body now = (Ok resp, st') →
  ∃ b c request,
    (target, b, c) ∈ sent ∧ sha256 body = sha256 b ∧ Signed.in_window c now
    ∧ request_from_slice body = Some request
    ∧ Forall (child_secret (tree_of (world (sovereign st))) (Templates.render (templates st) request)) (secrets_ resp)
    ∧ StronglySorted (λ l r, bytes_ltb (secret_name l) (secret_name r) = true) (secrets_ resp).
Proof.
  intros Hforge Hsent Ht Hid. unfold secrets, resolve.
  destruct (Signature.verify _ _ _ _ _) as [[]|] eqn:Ev; [|done].
  eapply Signed.accepted_requests_were_sent in Ev as (b & c & Hin & Hsha & Hwin); [|done..].
  destruct (request_from_slice body) as [request|]; [|done].
  pose proof (fetch_answer queue_depth session_fetch id (Templates.render (templates st) request) (sovereign st) Hid) as Hf.
  destruct (fetch _ _ _ _ _) as [r rd]. cbn [fst] in Hf. destruct r as [values|]; [|done]. intros [= <- _].
  exists b, c, request. do 4 (split; [done|]). split; [|apply build_sorted].
  destruct (negb (live _)); [done|]. destruct (queue_depth <=? _); [done|].
  apply Forall_forall. intros x (Hx & Hev & Him)%build_elem.
  destruct (session_fetch _ _) as [[m|] w] eqn:E; cbn [fst map_err] in Hf; [|done]. injection Hf as ->.
  eapply fetch_values in Hx as (layer & Hl & Hv); [|by rewrite E]. rewrite serve_iter_tree in Hv. cbn [world] in Hv.
  apply list_elem_of_omap in Hv as (e & He & Hv). unfold Layers.layer_value in Hv.
  destruct (Layers.direct_child_name _ _) as [n|] eqn:En; [|done]. injection Hv as Hn Hr.
  split; [|rewrite Hev; split; [by repeat constructor|done]]. exists layer, e, n. split; [done|]. split; [done|].
  split; [by apply Layers.direct_child_name_spec; [eapply fetch_canonical|]|]. done.
Qed.
End served.

(** *** One signed request *)

Existing Instances Signed.sample_crates Signed.sample_signature_laws.
Existing Instances Layers.sample_transport Layers.sample_tokens Layers.sample_view Layers.sample_laws.

#[local] Instance sample_json : BrokerJson := {|
  request_from_slice b := if bool_decide (b = Signed.sample_body) then Some (Templates.request_of "ada" "repo") else None;
  value_from_slice b := Some JsonNull |}.

Definition sample_fetch (layers : list ConfigPath) (s : nat) : result Values ClientError * nat :=
  Layers.fetch broker_reader layers s.

#[local] Instance sample_fetch_laws : FetchLaws sample_fetch Layers.tree.
Proof.
  split.
  - intros. apply Layers.fetch_keeps.
  - intros layers s m n v E. unfold sample_fetch in E. destruct (Layers.fetch _ layers s) as [r s'] eqn:Ef. cbn in E. subst r.
    by apply (Layers.fetch_sound broker_reader layers s m s').
  - apply Layers.tree_canonical.
Qed.

Definition sample_app : AppState nat :=
  mkAppState Signed.sample_verifier
    (match Templates.parse "/ci/global,/ci/{repo.name}" with Ok t => t | Err _ => Templates.mkTemplates [] [] end)
    (mkReaderState [] true ∅ 0) no_metrics.

Definition sample_answer : result SecretsResponse BrokerError * AppState nat :=
  secrets 4 sample_fetch 0 sample_app Signed.sample_target
    (Signed.woodpecker_headers Signed.sample_body Signed.sample_created Signed.sample_signature)
    Signed.sample_body Signed.sample_now.

Lemma secrets_are_served_to_signed_requests_witness :
  ∃ resp, sample_answer.1 = Ok resp ∧ length (secrets_ resp) = 2
  ∧ ∃ b c, (Signed.sample_target, b, c) ∈ [(Signed.sample_target, Signed.sample_body, Signed.sample_created)]
      ∧ sha256 Signed.sample_body = sha256 b ∧ Signed.in_window c Signed.sample_now.
Proof.
  assert (is_ok sample_answer.1 = true) as Hok by (vm_compute; reflexivity).
  assert (length (match sample_answer.1 with Ok r => secrets_ r | Err _ => [] end) = 2) as Hlen by (vm_compute; reflexivity).
  destruct sample_answer as [[resp|] st'] eqn:E; [|done]. exists resp. split; [done|]. split; [exact Hlen|].
  destruct (secrets_are_served_to_signed_requests 4 sample_fetch Layers.tree
    [(Signed.sample_target, Signed.sample_body, Signed.sample_created)] 0 sample_app Signed.sample_target
    (Signed.woodpecker_headers Signed.sample_body Signed.sample_created Signed.sample_signature)
    Signed.sample_body Signed.sample_now resp st') as (b & c & _ & Hin & Hsha & Hwin & _);
    [..|exists b, c; exact (conj Hin (conj Hsha Hwin))].
  - intros base signature Hv. apply andb_true_iff in Hv as [Hb%bool_decide_eq_true _].
    exists Signed.sample_target, Signed.sample_body, Signed.sample_created. split; [by left|exact Hb].
  - intros t b c [= -> -> ->]%list_elem_of_singleton.
    split; [|by (split; vm_compute)]. apply (bool_decide_unpack _). vm_compute. exact I.
  - apply (bool_decide_unpack _). vm_compute. exact I.
  - apply not_elem_of_nil.
  - exact E.
Defined.

(** ** Labels *)

(** Every outcome and every reason is a label the counters know. *)
Lemma outcomes_are_known e : position OUTCOMES (outcome e) ≠ None ∧ position OUTCOMES "ok" = Some 0.
Proof. split; [|done]. by destruct e. Qed.

Lemma reasons_are_known e : position SIGNATURE_REASONS (Signature.reason e) ≠ None.
Proof. by destruct e. Qed.

(** The gauge keeps the count of the last answer that had secrets: a later answer
    with none leaves it. *)
Example empty_answer_leaves_the_gauge :
  secrets_returned (request_metric "ok" 0 (request_metric "ok" 3 no_metrics)) = 3%Z.
Proof. reflexivity. Qed.

End Broker.
