(* ===== verification/Oidc.v ===== *)
(** * Tokens from an identity provider

    Models [crates/sovereign-config-native/src/oidc.rs]: discovery of an issuer's
    endpoints, the device flow, the refresh and the client-credentials grants.
    The network is a log of the requests sent with an arbitrary function that
    answers them, and a clock.  [reqwest]'s responses are records; [url] and
    [serde_json] are operations of the classes [UrlCrates] and [OidcCrates]. *)

From stdpp Require Import strings.
From S2P Require Import Prelude Bytes ConfigPath Core Encryption ConnectionUrl.

Local Open Scope bytes_scope.

(** ** The network and the clock *)

Definition NANOS : Z := 1000000000.

Record Response := mkHttpResponse {
  status : Z; announced_length : option Z; body : option bytes }.

Inductive Request := Get (url : Url) | Post (url : Url) (form : list (bytes * bytes)).

Definition request_url (r : Request) : Url := match r with Get u | Post u _ => u end.

(** [answers] and [delays] say of any requests sent, oldest first, what the last
    one is answered, if at all, and how much longer than asked anything takes. *)
Record Net := mkNet {
  sent : list Request;
  answers : list Request → option Response;
  delays : list Request → N;
  clock : Z;
  client_builds : bool }.

Definition send (r : Request) (n : Net) : option Response * Net :=
  let sent' := sent n ++ [r] in
  (answers n sent', mkNet sent' (answers n) (delays n) (clock n + Z.of_N (delays n sent')) (client_builds n)).

Definition sleep (d : Z) (n : Net) : Net :=
  mkNet (sent n) (answers n) (delays n) (clock n + d + Z.of_N (delays n (sent n))) (client_builds n).

(** Code that may panic, and a loop cut short. *)
Inductive Outcome (A : Type) := Done (r : result A ClientError) | Panicked | Running.
Arguments Done {A}.
Arguments Panicked {A}.
Arguments Running {A}.

Definition Io (A : Type) : Type := Net → Outcome A * Net.

Definition io_ret {A} (r : result A ClientError) : Io A := λ n, (Done r, n).
Definition io_bind {A B} (m : Io A) (k : A → Io B) : Io B := λ n,
  match m n with
  | (Done (Ok a), n') => k a n'
  | (Done (Err e), n') => (Done (Err e), n')
  | (Panicked, n') => (Panicked, n')
  | (Running, n') => (Running, n')
  end.
Notation "'do!' x := m 'in' k" := (io_bind m (λ x, k))
  (at level 100, x name, m at level 60, k at level 200).

Module Oidc.

Definition MAX_RESPONSE_BYTES : Z := 64 * 1024.
Definition DEVICE_GRANT : bytes := "urn:ietf:params:oauth:grant-type:device_code".
Definition SCOPE : bytes := "openid sovereign-config offline_access".

Record DeviceFlowClient := mkClient {
  client_id : bytes; device_endpoint : option Url; token_endpoint : Url }.

Record DeviceAuthorization := mkAuthorization {
  device_code : Secret; user_code : bytes; verification_uri : bytes;
  verification_uri_complete : option bytes; interval : Z; expires_at : Z }.

Record TokenSet := mkTokenSet {
  access_token : Secret; refresh_token : option Secret; token_expires_in : option Z }.

Record Discovery := mkDiscovery {
  d_device_authorization_endpoint : option bytes; d_token_endpoint : bytes }.

Record DeviceResponse := mkDeviceResponse {
  dr_device_code : bytes; dr_user_code : bytes; dr_verification_uri : bytes;
  dr_verification_uri_complete : option bytes; dr_expires_in : Z; dr_interval : option Z }.

Record TokenResponse := mkTokenResponse {
  tr_access_token : bytes; tr_refresh_token : option bytes; tr_expires_in : option Z }.

Record OAuthError := mkOAuthError { error : bytes }.

(** The derived deserializers, and [Url::join]. *)
Class OidcCrates := {
  url_join : Url → bytes → option Url;
  discovery_from_slice : bytes → option Discovery;
  device_from_slice : bytes → option DeviceResponse;
  token_from_slice : bytes → option TokenResponse;
  oauth_error_from_slice : bytes → option OAuthError }.

Definition DISCOVERY_PATH : bytes := ".well-known/openid-configuration".

(** A relative reference without an authority resolves within the origin. *)
Class OidcLaws `{OidcCrates} : Prop :=
  join_origin base u : url_join base DISCOVERY_PATH = Some u → u_origin u = u_origin base.

Definition invalid : ClientError := mkClientError InvalidRequest "OIDC configuration is invalid".
Definition unavailable : ClientError :=
  mkClientError Unavailable "authentication service is unavailable".

Definition success (r : Response) : bool := (200 <=? status r)%Z && (status r <? 300)%Z.
Definition client_error (r : Response) : bool := (400 <=? status r)%Z && (status r <? 500)%Z.

Definition require_success (r : Response) : result Response ClientError :=
  if success r then Ok r else Err unavailable.

Definition decode {A} (from_slice : bytes → option A) (r : Response) : result A ClientError :=
  if match announced_length r with Some n => (MAX_RESPONSE_BYTES <? n)%Z | None => false end
  then Err unavailable
  else
    let? b := ok_or (body r) unavailable in
    if (MAX_RESPONSE_BYTES <? Z.of_nat (length b))%Z then Err unavailable
    else ok_or (from_slice b) unavailable.

(** [send().await.map_err(|_| unavailable())?] *)
Definition sending (r : Request) : Io Response := λ n,
  let '(answer, n') := send r n in (Done (ok_or answer unavailable), n').

Section client.
Context `{UrlCrates} `{OidcCrates}.

Definition authentication_error (r : Response) (message : bytes) : ClientError :=
  if client_error r
     && match decode oauth_error_from_slice r with
        | Ok e => bool_decide (error e = "invalid_grant") || bool_decide (error e = "invalid_client")
        | Err _ => false
        end
  then mkClientError Unauthenticated message else unavailable.

(** An endpoint discovery may name: of the issuer's origin and bare. *)
Definition endpoint_refused (issuer_origin : bytes) (endpoint : Url) : bool :=
  negb (bool_decide (u_origin endpoint = issuer_origin))
  || negb (is_empty (u_username endpoint))
  || bool_decide (is_Some (u_password endpoint))
  || bool_decide (is_Some (u_fragment endpoint)).

Definition secure (issuer : Url) : bool :=
  let loopback_http := bool_decide (u_scheme issuer = "http")
    && match u_host_str issuer with Some host => Ip.is_loopback host | None => false end in
  negb (negb (bool_decide (u_scheme issuer = "https")) && negb loopback_http).

Definition discover (issuer client_id : bytes) : Io DeviceFlowClient :=
  do! issuer := io_ret (ok_or (url_parse issuer) invalid) in
  if negb (secure issuer) then io_ret (Err invalid)
  else
  do! discovery_url := io_ret (ok_or (url_join issuer DISCOVERY_PATH) invalid) in
  do! _ := (λ n, (Done (if client_builds n then Ok tt else Err unavailable), n)) in
  do! response := sending (Get discovery_url) in
  do! discovery := io_ret (let? r := require_success response in decode discovery_from_slice r) in
  do! device_endpoint := io_ret
    (match d_device_authorization_endpoint discovery with
     | None => Ok None
     | Some endpoint => let? u := ok_or (url_parse endpoint) invalid in Ok (Some u)
     end) in
  do! token_endpoint := io_ret (ok_or (url_parse (d_token_endpoint discovery)) invalid) in
  if existsb (endpoint_refused (u_origin issuer))
       (match device_endpoint with Some u => [u] | None => [] end ++ [token_endpoint])
  then io_ret (Err invalid)
  else io_ret (Ok (mkClient client_id device_endpoint token_endpoint)).

(** [Instant + Duration] panics past what a [timespec] holds, and
    [Duration + Duration] past its own seconds. *)
Definition instant_add (t d : Z) : option Z := if (t + d <? 2 ^ 63 * NANOS)%Z then Some (t + d)%Z else None.
Definition duration_add (a b : Z) : option Z := if (a + b <? 2 ^ 64 * NANOS)%Z then Some (a + b)%Z else None.

Definition begin (self : DeviceFlowClient) : Io DeviceAuthorization :=
  do! device_endpoint := io_ret (ok_or (device_endpoint self) invalid) in
  do! response := sending (Post device_endpoint [("client_id", client_id self); ("scope", SCOPE)]) in
  do! response := io_ret (let? r := require_success response in decode device_from_slice r) in
  if is_empty (dr_device_code response) || is_empty (dr_user_code response)
     || is_empty (dr_verification_uri response) || (dr_expires_in response =? 0)%Z
  then io_ret (Err unavailable)
  else λ n,
    match instant_add (clock n) (dr_expires_in response * NANOS) with
    | None => (Panicked, n)
    | Some expires_at =>
        (Done (Ok (mkAuthorization (mkSecret (dr_device_code response)) (dr_user_code response)
                     (dr_verification_uri response) (dr_verification_uri_complete response)
                     (Z.max (default 5%Z (dr_interval response)) 1 * NANOS) expires_at)), n)
    end.

Definition tokens (r : TokenResponse) : TokenSet :=
  mkTokenSet (mkSecret (tr_access_token r)) (option_map mkSecret (tr_refresh_token r))
    (option_map (λ s, s * NANOS)%Z (tr_expires_in r)).

Definition expired : ClientError := mkClientError Unauthenticated "device login expired".
Definition denied : ClientError := mkClientError Unauthenticated "device login denied".

(** A successful answer of the token endpoint. *)
Definition granted (r : Response) : result TokenSet ClientError :=
  let? response := decode token_from_slice r in
  if is_empty (tr_access_token response) then Err unavailable else Ok (tokens response).

(** What one poll's error answer means: [None] to go on with a new interval. *)
Definition poll_error (interval : Z) (e : OAuthError) : option (Outcome TokenSet) * Z :=
  if bool_decide (error e = "authorization_pending") then (None, interval)
  else if bool_decide (error e = "slow_down") then
    match duration_add interval (5 * NANOS) with
    | Some interval' => (None, interval')
    | None => (Some Panicked, interval)
    end
  else if bool_decide (error e = "access_denied") then (Some (Done (Err denied)), interval)
  else if bool_decide (error e = "expired_token") then (Some (Done (Err expired)), interval)
  else (Some (Done (Err unavailable)), interval).

(** The loop of [poll]; [fuel] bounds its rounds. *)
Fixpoint poll_from (self : DeviceFlowClient) (authorization : DeviceAuthorization) (fuel : nat)
    (interval : Z) : Io TokenSet := λ n,
  match fuel with
  | O => (Running, n)
  | S fuel' =>
      match instant_add (clock n) interval with
      | None => (Panicked, n)
      | Some wake =>
          if (expires_at authorization <=? wake)%Z then (Done (Err expired), n)
          else
            (do! response := sending
               (Post (token_endpoint self)
                  [("grant_type", DEVICE_GRANT);
                   ("device_code", expose_secret (device_code authorization));
                   ("client_id", client_id self)]) in
             if success response then io_ret (granted response)
             else
               do! e := io_ret (decode oauth_error_from_slice response) in
               match poll_error interval e with
               | (Some outcome, _) => λ n, (outcome, n)
               | (None, interval') => poll_from self authorization fuel' interval'
               end) (sleep interval n)
      end
  end.

Definition poll (self : DeviceFlowClient) (authorization : DeviceAuthorization) (fuel : nat) : Io TokenSet :=
  poll_from self authorization fuel (interval authorization).

Definition refresh (self : DeviceFlowClient) (refresh_token : Secret) : Io TokenSet :=
  do! response := sending
    (Post (token_endpoint self)
       [("grant_type", "refresh_token"); ("refresh_token", expose_secret refresh_token);
        ("client_id", client_id self)]) in
  if negb (success response) then io_ret (Err (authentication_error response "login has expired"))
  else io_ret (granted response).

Definition client_credentials (self : DeviceFlowClient) (authentication : Secret) : Io TokenSet :=
  do! response := sending
    (Post (token_endpoint self)
       [("grant_type", "client_credentials"); ("scope", "sovereign-config");
        ("client_id", client_id self); ("client_secret", expose_secret authentication)]) in
  if negb (success response)
  then io_ret (Err (authentication_error response "managed authentication failed"))
  else
    do! response := io_ret (decode token_from_slice response) in
    if is_empty (tr_access_token response) || bool_decide (is_Some (tr_refresh_token response))
    then io_ret (Err unavailable)
    else io_ret (Ok (mkTokenSet (mkSecret (tr_access_token response)) None
                       (option_map (λ s, s * NANOS)%Z (tr_expires_in response)))).

(** ** Who is asked *)

(** Every request satisfies [P], and so does what is returned [Q]. *)
Definition asks {A} (P : Request → Prop) (m : Io A) (Q : A → Prop) : Prop := ∀ n,
  (∃ l, sent (m n).2 = sent n ++ l ∧ Forall P l) ∧ ∀ a, (m n).1 = Done (Ok a) → Q a.

Lemma asks_ret {A} P (r : result A ClientError) (Q : A → Prop) :
  (∀ a, r = Ok a → Q a) → asks P (io_ret r) Q.
Proof. intros HQ n. split; [exists []; by rewrite app_nil_r|]. intros a [= ->]. auto. Qed.

Lemma asks_outcome {A} P (o : Net → Outcome A) (Q : A → Prop) :
  (∀ n a, o n = Done (Ok a) → Q a) → asks P (λ n, (o n, n)) Q.
Proof. intros HQ n. split; [exists []; by rewrite app_nil_r|]. intros a. apply HQ. Qed.

Lemma asks_sending (P : Request → Prop) r : P r → asks P (sending r) (λ _, True).
Proof. intros Hr n. split; [exists [r]; split; [done|by constructor]|done]. Qed.

Lemma asks_bind {A B} P (m : Io A) (k : A → Io B) (Q : A → Prop) (R : B → Prop) :
  asks P m Q → (∀ a, Q a → asks P (k a) R) → asks P (io_bind m k) R.
Proof.
  intros Hm Hk n. unfold io_bind. destruct (Hm n) as [(l & E & Hl) HQ].
  destruct (m n) as [[[a|e]| |] n1]; cbn [fst snd] in *;
    try (split; [exists l; by rewrite E|intros ? [=]]).
  destruct (Hk a (HQ a eq_refl) n1) as [(l' & E' & Hl') HR]. split; [|done].
  exists (l ++ l'). rewrite E', E, <- app_assoc. split; [done|]. by apply Forall_app.
Qed.

Lemma asks_mono {A} (P P' : Request → Prop) (m : Io A) (Q Q' : A → Prop) :
  asks P m Q → (∀ r, P r → P' r) → (∀ a, Q a → Q' a) → asks P' m Q'.
Proof.
  intros Hm HP HQ n. destruct (Hm n) as [(l & E & Hl) Ha]. split; [|auto].
  exists l. split; [done|]. by eapply Forall_impl.
Qed.

(** A URL of the issuer's origin, which is secure. *)
Definition of_issuer (issuer : bytes) (v : Url) : Prop :=
  ∃ u, url_parse issuer = Some u ∧ secure u = true ∧ u_origin v = u_origin u.

Definition endpoints_of (issuer : bytes) (c : DeviceFlowClient) : Prop :=
  of_issuer issuer (token_endpoint c) ∧ ∀ d, device_endpoint c = Some d → of_issuer issuer d.

Lemma discover_asks `{!OidcLaws} issuer cid :
  asks (λ r, of_issuer issuer (request_url r)) (discover issuer cid)
    (λ c, endpoints_of issuer c ∧ client_id c = cid).
Proof.
  unfold discover. eapply asks_bind; [apply (asks_ret _ _ (λ u, url_parse issuer = Some u))|].
  { intros u. by destruct (url_parse issuer); intros; simplify_eq/=. }
  intros u Hu. destruct (secure u) eqn:Hs; [|by apply asks_ret].
  eapply asks_bind; [apply (asks_ret _ _ (λ v, u_origin v = u_origin u))|].
  { intros v. destruct (url_join u DISCOVERY_PATH) eqn:Ej; intros; simplify_eq/=. by apply join_origin. }
  intros v Hv. eapply asks_bind; [by apply (asks_outcome _ _ (λ _, True))|]. intros _ _.
  eapply asks_bind; [apply asks_sending; by exists u|]. intros response _.
  eapply asks_bind; [by apply (asks_ret _ _ (λ _, True))|]. intros discovery _.
  eapply asks_bind; [by apply (asks_ret _ _ (λ _, True))|]. intros device _.
  eapply asks_bind; [by apply (asks_ret _ _ (λ _, True))|]. intros token _.
  destruct (existsb _ _) eqn:Ee; apply asks_ret; [done|]. intros c [= <-]. split; [|done].
  assert (∀ w, w ∈ (match device with Some u => [u] | None => [] end) ++ [token] → u_origin w = u_origin u) as Hw.
  { intros w Hw%list_elem_of_In. destruct (endpoint_refused (u_origin u) w) eqn:Er.
    - exfalso. apply not_true_iff_false in Ee. apply Ee. apply existsb_exists. eauto.
    - unfold endpoint_refused in Er. repeat (apply orb_false_iff in Er as [Er _]).
      by apply negb_false_iff, bool_decide_eq_true in Er. }
  split; [exists u; split; [done|]; split; [done|]; apply Hw, elem_of_app; right; by left|].
  intros d [= ->]. exists u. split; [done|]. split; [done|]. apply Hw, elem_of_app. left. by left.
Qed.

(** Grants are asked of the token endpoint, once. *)
Lemma granted_token r t : granted r = Ok t → expose_secret (access_token t) ≠ [].
Proof.
  unfold granted. intros (x & _ & E)%and_then_ok. destruct (is_empty (tr_access_token x)) eqn:Ee; [done|].
  injection E as <-. cbn. by destruct (tr_access_token x).
Qed.

Lemma client_credentials_asks c secret :
  asks (λ r, request_url r = token_endpoint c) (client_credentials c secret)
    (λ t, expose_secret (access_token t) ≠ [] ∧ refresh_token t = None).
Proof.
  unfold client_credentials. eapply asks_bind; [by apply asks_sending|]. intros r _.
  destruct (negb (success r)); [by apply asks_ret|].
  eapply asks_bind; [by apply (asks_ret _ _ (λ _, True))|]. intros t _.
  destruct (is_empty (tr_access_token t)) eqn:Ee; [by apply asks_ret|].
  destruct (bool_decide _); apply asks_ret; [done|]. intros s [= <-]. split; [|done]. cbn.
  by destruct (tr_access_token t).
Qed.

Lemma refresh_asks c secret :
  asks (λ r, request_url r = token_endpoint c) (refresh c secret)
    (λ t, expose_secret (access_token t) ≠ []).
Proof.
  unfold refresh. eapply asks_bind; [by apply asks_sending|]. intros r _.
  destruct (negb (success r)); apply asks_ret; [done|]. apply granted_token.
Qed.

Lemma begin_asks c :
  asks (λ r, device_endpoint c = Some (request_url r)) (begin c)
    (λ a, 0 < interval a)%Z.
Proof.
  unfold begin. eapply asks_bind; [apply (asks_ret _ _ (λ d, device_endpoint c = Some d))|].
  { intros d. by destruct (device_endpoint c); intros; simplify_eq/=. }
  intros d Hd. eapply asks_bind; [by apply asks_sending|]. intros r _.
  eapply asks_bind; [by apply (asks_ret _ _ (λ _, True))|]. intros x _.
  destruct (_ || _); [by apply asks_ret|]. intros n. destruct (instant_add _ _); cbn [fst snd].
  - split; [exists []; by rewrite app_nil_r|]. intros a [= <-]. cbn [interval]. unfold NANOS. lia.
  - split; [exists []; by rewrite app_nil_r|]. done.
Qed.

(** ** Polling ends *)

Definition poll_request (c : DeviceFlowClient) (a : DeviceAuthorization) : Request :=
  Post (token_endpoint c)
    [("grant_type", DEVICE_GRANT); ("device_code", expose_secret (device_code a)); ("client_id", client_id c)].

(** Polls made from [n] on, at least [i] apart: the requests, the time they took
    and what was returned. *)
Definition polled (c : DeviceFlowClient) (a : DeviceAuthorization) (i : Z) (n : Net)
    (r : Outcome TokenSet * Net) : Prop :=
  r.1 ≠ Running
  ∧ ∃ k, sent r.2 = sent n ++ repeat (poll_request c a) k
      ∧ (Z.of_nat k * i ≤ Z.max 0 (expires_at a - clock n))%Z
      ∧ (clock n + Z.of_nat k * i ≤ clock r.2)%Z.

Lemma poll_error_interval i e i' : poll_error i e = (None, i') → (i ≤ i')%Z.
Proof.
  unfold poll_error, duration_add. repeat case_bool_decide; try done; [by intros [= <-]|].
  destruct (_ <? _)%Z; [|done]. intros [= <-]. unfold NANOS. lia.
Qed.

Lemma polled_end c a i n n' o : (0 < i)%Z →
  o ≠ Running → sent n' = sent n ++ [poll_request c a] → (clock n + i ≤ clock n')%Z →
  (clock n + i < expires_at a)%Z → polled c a i n (o, n').
Proof. intros Hi Ho E Hc He. split; [done|]. exists 1. cbn [fst snd repeat]. split; [done|]. lia. Qed.

Lemma poll_from_polled c a fuel : ∀ i n, (0 < i)%Z → (0 < fuel) →
  (expires_at a - clock n ≤ Z.of_nat fuel * i)%Z →
  polled c a i n (poll_from c a fuel i n).
Proof.
  induction fuel as [|fuel IH]; intros i n Hi Hf Hfuel; [lia|]. cbn [poll_from].
  assert (∀ o, o ≠ Running → polled c a i n (o, n)) as Hhere.
  { intros o Ho. split; [done|]. exists 0. cbn [fst snd repeat]. rewrite app_nil_r. split; [done|]. lia. }
  destruct (instant_add (clock n) i) as [wake|] eqn:Ew; [|by apply Hhere].
  unfold instant_add in Ew. destruct (_ <? _)%Z; [|done]. injection Ew as <-.
  destruct (expires_at a <=? clock n + i)%Z eqn:Ee; [by apply Hhere|]. apply Z.leb_gt in Ee.
  unfold io_bind at 1, sending, send. cbn [sent clock answers sleep]. fold (poll_request c a).
  set (n1 := mkNet _ _ _ _ _). assert (sent n1 = sent n ++ [poll_request c a]) as E1 by done.
  assert (clock n + i ≤ clock n1)%Z as Ec1 by (cbn; lia).
  destruct (answers n _) as [r|]; cbn [ok_or]; [|by apply polled_end].
  destruct (success r); [apply polled_end; done|].
  unfold io_bind, io_ret. destruct (decode oauth_error_from_slice r) as [e|e]; [|by apply polled_end].
  destruct (poll_error i e) as [[o|] i'] eqn:Ep.
  { apply polled_end; try done. revert Ep. unfold poll_error, duration_add.
    repeat case_bool_decide; try done; try (by intros [= <- <-]). by destruct (_ <? _)%Z; intros [= <- <-]. }
  apply poll_error_interval in Ep. destruct (IH i' n1) as (Hr & k & Ek & Hk & Hck); [lia|nia|nia|].
  split; [done|]. exists (S k). rewrite Ek, E1, <- app_assoc. split; [done|]. nia.
Qed.

(** A device login ends: whatever the identity provider answers and however
    long it takes, polling has ended after as many rounds as the interval fits
    into the time the login is valid for; it has polled no more often than that,
    each time the token endpoint with this login's code, and never faster than
    the interval; and a token it returns is not empty. *)
Theorem device_login_ends c a fuel n :
  (0 < interval a)%Z →
  (expires_at a - clock n < Z.of_nat fuel * interval a)%Z → 0 < fuel →
  polled c a (interval a) n (poll c a fuel n)
  ∧ ∀ t, (poll c a fuel n).1 = Done (Ok t) → expose_secret (access_token t) ≠ [].
Proof.
  intros Hi Hfuel Hf. split; [apply poll_from_polled; [done|done|lia]|]. unfold poll.
  clear Hi Hfuel Hf. generalize (interval a) as i. revert n. induction fuel as [|fuel IH]; intros n i t; [done|].
  cbn [poll_from]. destruct (instant_add _ _); [|done]. destruct (_ <=? _)%Z; [done|].
  unfold io_bind at 1. destruct (sending _ _) as [[[r|e]| |] n1]; try done.
  destruct (success r); [intros [= E]; by eapply granted_token|].
  unfold io_bind, io_ret. destruct (decode oauth_error_from_slice r) as [e|e]; [|done].
  destruct (poll_error i e) as [[o|] i'] eqn:Ep; [|apply IH]. cbn. intros ->. revert Ep.
  unfold poll_error. repeat case_bool_decide; try done. by destruct (duration_add _ _).
Qed.

End client.

(** *** A provider that keeps the caller waiting twice *)

Definition sample_url : Url := mkUrl "https" (Some "id.test") [] None "/t" None None "https://id.test" "https://id.test/t".

#[local] Instance sample_oidc : OidcCrates := {|
  url_join u _ := Some u;
  discovery_from_slice _ := None;
  device_from_slice b := Some (mkDeviceResponse "d" "u" "https://id.test/v" None (2 ^ 63) None);
  token_from_slice b := if bool_decide (b = "token") then Some (mkTokenResponse "t" (Some "r") None) else None;
  oauth_error_from_slice b := Some (mkOAuthError b) |}.

Definition sample_answers (requests : list Request) : option Response :=
  match length requests with
  | 1 => Some (mkHttpResponse 400 None (Some "authorization_pending"))
  | 2 => Some (mkHttpResponse 400 None (Some "slow_down"))
  | _ => Some (mkHttpResponse 200 (Some 5%Z) (Some "token"))
  end.

Definition sample_net : Net := mkNet [] sample_answers (λ _, 7%N) 0 true.
Definition sample_client : DeviceFlowClient := mkClient "cli" (Some sample_url) sample_url.
Definition sample_login : DeviceAuthorization :=
  mkAuthorization (mkSecret "d") "u" "https://id.test/v" None (5 * NANOS) (60 * NANOS).

Lemma device_login_ends_witness :
  polled sample_client sample_login (5 * NANOS) sample_net (poll sample_client sample_login 13 sample_net)
  ∧ (poll sample_client sample_login 13 sample_net).1
    = Done (Ok (mkTokenSet (mkSecret "t") (Some (mkSecret "r")) None)).
Proof.
  split; [|vm_compute; reflexivity].
  apply (device_login_ends sample_client sample_login 13 sample_net); vm_compute; try reflexivity. lia.
Defined.

(** A provider may name a lifetime no instant holds: the sum panics instead of
    ending in an error. *)
Example unbounded_lifetime_panics :
  (begin sample_client (mkNet [] (λ _, Some (mkHttpResponse 200 None (Some []))) (λ _, 0%N) 0 true)).1 = Panicked.
Proof. vm_compute. reflexivity. Qed.

End Oidc.
