(* ===== verification/PrivateFiles.v ===== *)
(** * Private files

    Models [crates/sovereign-config-native/src/storage.rs]: files only their
    owner may read, replaced as a whole.  Each system call is a step of a
    [Flow], so that other processes run and this one may stop between any two;
    a schedule of faults says which calls fail. *)

From stdpp Require Import strings.
From S2P Require Import Prelude Bytes ConfigPath Flow.

Local Open Scope bytes_scope.

(** ** The file system *)

(** What [symlink_metadata] and [is_dir] tell apart: a link dangles or leads to
    a directory or to something else. *)
Inductive FileType := Regular | Directory | Link (target : option bool) | Special.
#[global] Instance FileType_eq_dec : EqDecision FileType.
Proof. solve_decision. Defined.

Record Node := mkNode { file_type : FileType; uid : Z; mode : Z; content : bytes }.
#[global] Instance Node_eq_dec : EqDecision Node.
Proof. solve_decision. Defined.

(** An absolute path is its components. *)
Abbreviation FsPath := (list bytes).

(** The next calls' faults: [Some k] fails a call, a write after [k] bytes and a
    recursive creation after [k] directories. *)
Record Fs := mkFs { nodes : gmap FsPath Node; faults : list (option nat) }.

(** [geteuid], the [umask] and [std::process::id]. *)
Record Process := mkProcess { euid : Z; umask : Z; pid : Z }.

Module Private.

Definition at_ (fs : Fs) (p : FsPath) : option Node := nodes fs !! p.

Definition syscall {A} (failed : nat → Fs → A * Fs) (run : Fs → A * Fs) : Flow Fs A := act (λ fs,
  match faults fs with
  | [] => run fs
  | None :: l => run (mkFs (nodes fs) l)
  | Some k :: l => failed k (mkFs (nodes fs) l)
  end).

(** A call that has no effect when it fails. *)
Definition call {A} (run : Fs → result A unit * Fs) : Flow Fs (result A unit) :=
  syscall (λ _ fs, (Err tt, fs)) run.

Definition parent (p : FsPath) : option FsPath :=
  match p with [] => None | _ => Some (removelast p) end.

Definition file_stem (name : bytes) : bytes :=
  match rsplit_once "."%char name with
  | Some (before, _) => if is_empty before then name else before
  | None => name
  end.

Definition with_extension (p : FsPath) (extension : bytes) : FsPath :=
  match last p with
  | None => p
  | Some name => removelast p ++ [file_stem name ++ "." ++ extension]
  end.

Inductive Stat := Missing | StatFailed | Found (metadata : Node).

Definition symlink_metadata (p : FsPath) : Flow Fs Stat :=
  syscall (λ _ fs, (StatFailed, fs))
    (λ fs, (match at_ fs p with Some n => Found n | None => Missing end, fs)).

Definition required_metadata (p : FsPath) : Flow Fs (result Node unit) :=
  await stat := symlink_metadata p in
  Ret (match stat with Found n => Ok n | _ => Err tt end).

Definition is_dir (n : Node) : bool :=
  match file_type n with Directory | Link (Some true) => true | _ => false end.

Definition exists_ (p : FsPath) : Flow Fs bool :=
  syscall (λ _ fs, (false, fs))
    (λ fs, (match at_ fs p with
            | Some n => negb (bool_decide (file_type n = Link None))
            | None => false
            end, fs)).

(** Opening and reading at most [limit] bytes. *)
Definition read_file (p : FsPath) (limit : nat) : Flow Fs (result bytes unit) :=
  call (λ fs, (match at_ fs p with
               | Some n => if is_dir n then Err tt else Ok (take limit (content n))
               | None => Err tt
               end, fs)).

Section process.
Context (self : Process).

Definition masked (m : Z) : Z := Z.land m (Z.lnot (umask self)).

(** [mkdir] of each of the paths in turn; one already there must be a directory. *)
Fixpoint mkdirs (l : list FsPath) (limit : option nat) (fs : Fs) : result unit unit * Fs :=
  match l with
  | [] => (Ok tt, fs)
  | p :: l' =>
      if bool_decide (limit = Some 0) then (Err tt, fs)
      else
        let limit' := option_map pred limit in
        match at_ fs p with
        | Some n => if is_dir n then mkdirs l' limit' fs else (Err tt, fs)
        | None =>
            mkdirs l' limit'
              (mkFs (<[p := mkNode Directory (euid self) (masked 511) []]> (nodes fs)) (faults fs))
        end
  end.

(** The path and what leads to it, outermost first, without the root. *)
Definition prefixes (p : FsPath) : list FsPath := List.map (λ n, take (S n) p) (seq 0 (length p)).

Definition create_dir_all (p : FsPath) : Flow Fs (result unit unit) :=
  syscall (λ k fs, (Err tt, (mkdirs (prefixes p) (Some k) fs).2)) (mkdirs (prefixes p) None).

Definition set_permissions (p : FsPath) (m : Z) : Flow Fs (result unit unit) :=
  call (λ fs,
    match at_ fs p with
    | Some n =>
        match file_type n with
        | Link None => (Err tt, fs)
        | Link (Some _) => (Ok tt, fs)
        | _ => (Ok tt, mkFs (<[p := mkNode (file_type n) (uid n) m (content n)]> (nodes fs)) (faults fs))
        end
    | None => (Err tt, fs)
    end).

(** [OpenOptions] with [create_new]. *)
Definition create_new (p : FsPath) (m : Z) : Flow Fs (result unit unit) :=
  call (λ fs,
    match at_ fs p with
    | Some _ => (Err tt, fs)
    | None => (Ok tt, mkFs (<[p := mkNode Regular (euid self) (masked m) []]> (nodes fs)) (faults fs))
    end).

(** Appending to a file that is open; one removed meanwhile is written unseen. *)
Definition appended (p : FsPath) (value : bytes) (fs : Fs) : Fs :=
  match at_ fs p with
  | Some n => mkFs (<[p := mkNode (file_type n) (uid n) (mode n) (content n ++ value)]> (nodes fs)) (faults fs)
  | None => fs
  end.

Definition write_all (p : FsPath) (value : bytes) : Flow Fs (result unit unit) :=
  syscall (λ k fs, (Err tt, appended p (take k value) fs)) (λ fs, (Ok tt, appended p value fs)).

Definition sync_all : Flow Fs (result unit unit) := call (λ fs, (Ok tt, fs)).

Definition remove_file (p : FsPath) : Flow Fs (result unit unit) :=
  call (λ fs,
    match at_ fs p with
    | Some n => if bool_decide (file_type n = Directory) then (Err tt, fs)
                else (Ok tt, mkFs (delete p (nodes fs)) (faults fs))
    | None => (Err tt, fs)
    end).

(** Renaming a file over what is there, unless that is a directory. *)
Definition rename (from to : FsPath) : Flow Fs (result unit unit) :=
  call (λ fs,
    match at_ fs from with
    | None => (Err tt, fs)
    | Some n =>
        if match at_ fs to with Some t => bool_decide (file_type t = Directory) | None => false end
        then (Err tt, fs)
        else (Ok tt, mkFs (<[to := n]> (delete from (nodes fs))) (faults fs))
    end).

Definition sync_directory (p : FsPath) : Flow Fs (result unit unit) :=
  let! _ := call (λ fs, (match at_ fs p with Some _ => Ok tt | None => Err tt end, fs)) in sync_all.

(** ** storage.rs *)

Definition validate_private_file (metadata : Node) : result unit unit :=
  if bool_decide (file_type metadata = Regular) && (uid metadata =? euid self)%Z
     && (Z.land (mode metadata) 511 =? 384)%Z
  then Ok tt else Err tt.

Definition validate_private_directory (metadata : Node) : result unit unit :=
  if bool_decide (file_type metadata = Directory) && (uid metadata =? euid self)%Z
     && (Z.land (mode metadata) 511 =? 448)%Z
  then Ok tt else Err tt.

Definition validate_parent (p : FsPath) : Flow Fs (result unit unit) :=
  let! parent := Ret (ok_or (parent p) tt) in
  let! metadata := required_metadata parent in
  Ret (validate_private_directory metadata).

Definition ensure_private_directory (p : FsPath) : Flow Fs (result unit unit) :=
  await present := exists_ p in
  let! _ := (if present then Ret (Ok tt)
             else let! _ := create_dir_all p in set_permissions p 448) in
  let! metadata := required_metadata p in
  Ret (validate_private_directory metadata).

Definition read_private (p : FsPath) (maximum_bytes : nat) : Flow Fs (result (option bytes) unit) :=
  await stat := symlink_metadata p in
  match stat with
  | Missing => Ret (Ok None)
  | StatFailed => Ret (Err tt)
  | Found metadata =>
      let! _ := validate_parent p in
      let! _ := Ret (validate_private_file metadata) in
      if maximum_bytes <? length (content metadata) then Ret (Err tt)
      else
        let! value := read_file p (maximum_bytes + 1) in
        if maximum_bytes <? length value then Ret (Err tt) else Ret (Ok (Some value))
  end.

Definition temporary (p : FsPath) : FsPath := with_extension p ("tmp-" ++ show_Z (pid self)).

Definition write_private (p : FsPath) (value : bytes) : Flow Fs (result unit unit) :=
  let! directory := Ret (ok_or (parent p) tt) in
  let! _ := ensure_private_directory directory in
  await stat := symlink_metadata p in
  let! _ := Ret (match stat with Found metadata => validate_private_file metadata | _ => Ok tt end) in
  let! _ := create_new (temporary p) 384 in
  await written := (let! _ := write_all (temporary p) value in sync_all) in
  match written with
  | Err _ => await _ := remove_file (temporary p) in Ret (Err tt)
  | Ok _ =>
      await renamed := rename (temporary p) p in
      match renamed with
      | Err _ => await _ := remove_file (temporary p) in Ret (Err tt)
      | Ok _ => sync_directory directory
      end
  end.

Definition remove_private (p : FsPath) : Flow Fs (result unit unit) :=
  await stat := symlink_metadata p in
  match stat with
  | Missing => Ret (Ok tt)
  | StatFailed => Ret (Err tt)
  | Found metadata =>
      let! _ := validate_parent p in
      let! _ := Ret (validate_private_file metadata) in
      let! _ := remove_file p in
      let! directory := Ret (ok_or (parent p) tt) in
      sync_directory directory
  end.

(** ** What a write leaves *)

(** What every file written here is: its owner's alone, with the whole value. *)
Definition private_node (value : bytes) : Node := mkNode Regular (euid self) (masked 384) value.

(** Steps that leave two paths alone. *)
Definition spares (p t : FsPath) (s s' : Fs) : Prop := at_ s' p = at_ s p ∧ at_ s' t = at_ s t.

Lemma spares_nodes p t s s' : nodes s' = nodes s → spares p t s s'.
Proof. unfold spares, at_. by intros ->. Qed.

Lemma syscall_steps {A} (G : relation Fs) (failed : nat → Fs → A * Fs) run :
  (∀ s s' k, nodes s' = nodes s → G s (failed k s').2) → (∀ s s', nodes s' = nodes s → G s (run s').2) →
  all_steps G (syscall failed run).
Proof.
  intros Hf Hr. apply all_steps_act. intros s. destruct (faults s) as [|[k|] l]; [by apply Hr|by apply Hf|by apply Hr].
Qed.

Lemma call_steps {A} p t (run : Fs → result A unit * Fs) :
  (∀ s, spares p t s (run s).2) → all_steps (spares p t) (call run).
Proof.
  intros Hr. apply syscall_steps; intros s s'; [intros _ E; by apply spares_nodes|].
  intros E. destruct (Hr s') as [H1 H2]. unfold spares, at_ in *. by rewrite H1, H2, E.
Qed.

Lemma stat_steps p t q : all_steps (spares p t) (symlink_metadata q).
Proof. apply syscall_steps; intros; by apply spares_nodes. Qed.

Lemma required_steps p t q : all_steps (spares p t) (required_metadata q).
Proof. apply all_steps_bind; [apply stat_steps|done]. Qed.

Lemma mkdirs_spares p t l : ∀ limit s, p ∉ l → t ∉ l → spares p t s (mkdirs l limit s).2.
Proof.
  induction l as [|q l IH]; intros limit s Hp Ht; [done|].
  apply not_elem_of_cons in Hp as [Hpq Hp], Ht as [Htq Ht]. cbn [mkdirs].
  case_bool_decide; [done|]. destruct (at_ s q) as [n|]; [destruct (is_dir n); [by apply IH|done]|].
  destruct (IH (option_map pred limit)
    (mkFs (<[q := mkNode Directory (euid self) (masked 511) []]> (nodes s)) (faults s))) as [H1 H2]; [done..|].
  split; rewrite ?H1, ?H2; unfold at_; cbn; by apply lookup_insert_ne.
Qed.

Lemma prefixes_short d q : q ∈ prefixes d → length q ≤ length d.
Proof. unfold prefixes. intros (n & <- & _)%list_elem_of_In%in_map_iff. rewrite length_take. lia. Qed.

Lemma ensure_spares p t d : p ∉ d :: prefixes d → t ∉ d :: prefixes d →
  all_steps (spares p t) (ensure_private_directory d).
Proof.
  intros [Hpd Hp']%not_elem_of_cons [Htd Ht']%not_elem_of_cons.
  apply all_steps_bind; [apply syscall_steps; intros; by apply spares_nodes|].
  intros present. apply all_steps_try; [destruct present; [done|]|].
  - apply all_steps_try.
    + assert (∀ s s' limit, nodes s' = nodes s → spares p t s (mkdirs (prefixes d) limit s').2) as Hm.
      { intros s s' limit E. destruct (mkdirs_spares p t (prefixes d) limit s' Hp' Ht') as [H1 H2].
        unfold spares. rewrite H1, H2. by apply spares_nodes. }
      apply syscall_steps; intros; by apply Hm.
    + intros _. apply call_steps. intros s. destruct (at_ s d) as [n|]; [|done].
      assert (∀ n', spares p t s (mkFs (<[d := n']> (nodes s)) (faults s))) as Hs.
      { intros n'. split; by apply lookup_insert_ne. }
      by destruct (file_type n) as [| |[]|]; try apply Hs.
  - intros _. apply all_steps_try; [apply required_steps|done].
Qed.

Lemma ensure_steps p t d : length d < length p → length d < length t →
  all_steps (spares p t) (ensure_private_directory d).
Proof.
  intros Hp Ht. apply ensure_spares; intros [->|H%prefixes_short]%elem_of_cons; lia.
Qed.

(** Undisturbed but by others who spare [t] and keep [W]. *)
Section rely.
Context (env : relation Fs) (p t : FsPath) (W : Fs → Prop).
Hypothesis W_nodes : ∀ s s', at_ s' p = at_ s p → W s → W s'.
Hypothesis rely : ∀ s s', env s s' → (W s → W s') ∧ at_ s' t = at_ s t.

Lemma wpi_steps {A} (f : Flow Fs A) : ∀ s, all_steps (spares p t) f → W s →
  wpi env W f (λ _ s', W s' ∧ at_ s' t = at_ s t) s.
Proof.
  induction f as [a|B step k IH]; intros s Hf HW; [done|]. destruct Hf as [Hs Hk]. cbn [wpi].
  intros s1 [H1 E1]%rely. destruct (Hs s1) as [Hp Ht]. assert (W (step s1).2) as HW2 by (eapply W_nodes; [exact Hp|auto]).
  split; [done|]. eapply wpi_mono; [by apply IH|]. intros a s' [? E]. split; [done|]. by rewrite E, Ht.
Qed.

(** A call followed by what its failure and its success lead to. *)
Lemma wpi_call {A B} (failed : nat → Fs → A * Fs) run (k : A → Flow Fs B) Q s :
  W s →
  (∀ i s1, W s1 → at_ s1 t = at_ s t → W (failed i s1).2 ∧ wpi env W (k (failed i s1).1) Q (failed i s1).2) →
  (∀ s1, W s1 → at_ s1 t = at_ s t → W (run s1).2 ∧ wpi env W (k (run s1).1) Q (run s1).2) →
  wpi env W (flow_bind (syscall failed run) k) Q s.
Proof.
  intros HW Hf Hr s1 [H1 E1]%rely. specialize (H1 HW).
  assert (∀ l, W (mkFs (nodes s1) l)) as HWl by (intros l; by apply (W_nodes s1)).
  destruct (faults s1) as [|[i|] l]; cbn [fst snd]; [apply Hr|apply Hf|apply Hr]; auto.
Qed.
End rely.

Lemma removelast_length (p : FsPath) : length (removelast p) = pred (length p).
Proof. destruct p as [|x p _] using rev_ind; [done|]. rewrite removelast_last, length_app. simpl. lia. Qed.

Lemma temporary_length p : p ≠ [] → length (temporary p) = length p.
Proof.
  intros Hp. unfold temporary, with_extension. destruct p as [|x p _] using rev_ind; [done|].
  rewrite last_snoc, removelast_last, !length_app. done.
Qed.

(** A write against others who spare its temporary file, where [W] speaks of
    [p] alone and holds of the whole value. *)
Section write.
Context (env : relation Fs) (p : FsPath) (value : bytes) (W : Fs → Prop).
Abbreviation t := (temporary p).
Hypothesis W_nodes : ∀ s s', at_ s' p = at_ s p → W s → W s'.
Hypothesis W_value : ∀ s, at_ s p = Some (private_node value) → W s.
Hypothesis rely : ∀ s s', env s s' → (W s → W s') ∧ at_ s' t = at_ s t.
Hypothesis other : t ≠ p.

Lemma W_insert n s : W s → W (mkFs (<[t := n]> (nodes s)) (faults s)).
Proof. apply W_nodes. unfold at_. cbn. by apply lookup_insert_ne. Qed.

Lemma W_delete s : W s → W (mkFs (delete t (nodes s)) (faults s)).
Proof. apply W_nodes. unfold at_. cbn. by apply lookup_delete_ne. Qed.

Lemma remove_wpi s (k : result unit unit → Flow Fs (result unit unit)) :
  W s → (∀ r, k r = Ret (Err tt)) → wpi env W (flow_bind (remove_file t) k) (λ _ _, True) s.
Proof.
  intros HW Hk. apply (wpi_call env p t W W_nodes rely); [done|intros i s5 HW5 _; by rewrite Hk|].
  intros s5 HW5 _. cbv beta. destruct (at_ s5 t) as [n|]; [case_bool_decide|]; cbn [fst snd]; rewrite Hk;
    split; try done. by apply W_delete.
Qed.

(** From the value written to the end. *)
Lemma replace_wpi d s : W s → at_ s t = Some (private_node value) →
  wpi env W
    (await renamed := rename t p in
     match renamed with
     | Err _ => await _ := remove_file t in Ret (Err tt)
     | Ok _ => sync_directory d
     end) (λ _ _, True) s.
Proof.
  intros HW E. apply (wpi_call env p t W W_nodes rely); [done|intros; cbn [fst snd]; split; [done|by apply remove_wpi]|].
  intros s6 HW7 E6. cbv beta. rewrite E6, E.
  destruct (match at_ s6 p with Some _ => _ | None => false end); [split; [done|by apply remove_wpi]|].
  cbn [fst snd]. assert (W (mkFs (<[p := private_node value]> (delete t (nodes s6))) (faults s6))) as HW8
    by (apply W_value; unfold at_; cbn [nodes]; apply lookup_insert_eq).
  split; [done|]. eapply wpi_mono; [eapply (wpi_steps env p t W); [done|done| |done]|done].
  apply all_steps_try; [apply call_steps; done|]. intros _. by apply call_steps.
Qed.

(** From the temporary file created to the end. *)
Lemma fill_wpi d s : W s → at_ s t = Some (private_node []) →
  wpi env W
    (await written := (let! _ := write_all t value in sync_all) in
     match written with
     | Err _ => await _ := remove_file t in Ret (Err tt)
     | Ok _ =>
         await renamed := rename t p in
         match renamed with
         | Err _ => await _ := remove_file t in Ret (Err tt)
         | Ok _ => sync_directory d
         end
     end) (λ _ _, True) s.
Proof.
  intros HW E. rewrite flow_bind_assoc_wpi. unfold write_all, flow_try at 1.
  assert (∀ v s4, at_ s4 t = at_ s t → appended t v s4
    = mkFs (<[t := private_node v]> (nodes s4)) (faults s4)) as Happ.
  { intros v s4 E4. unfold appended. rewrite E4, E. done. }
  apply (wpi_call env p t W W_nodes rely); [done| |].
  - intros k s4 HW4 E4. cbn [fst snd]. rewrite Happ by done. split; [by apply W_insert|].
    cbn [wpi]. apply remove_wpi; [by apply W_insert|done].
  - intros s4 HW4 E4. cbn [fst snd]. rewrite Happ by done. split; [by apply W_insert|].
    rewrite <- (flow_bind_assoc_wpi env). apply (wpi_call env p t W W_nodes rely).
    + by apply W_insert.
    + intros; cbn [fst snd]; split; [done|by apply remove_wpi].
    + intros s5 HW5 E5. cbn [fst snd]. split; [done|]. apply replace_wpi; [done|]. rewrite E5.
      unfold at_. cbn [nodes]. apply lookup_insert_eq.
Qed.

Lemma write_private_wpi s : p ≠ [] → W s → wpi env W (write_private p value) (λ _ _, True) s.
Proof.
  intros Hp HW. unfold write_private.
  pose proof (removelast_length p) as Hd. pose proof (temporary_length p Hp) as Ht.
  assert (0 < length p) as Hlp by (destruct p; simpl; [done|lia]).
  assert (parent p = Some (removelast p)) as -> by (by destruct p). cbn [ok_or].
  rewrite wpi_try. cbn [wpi]. rewrite wpi_try.
  eapply wpi_mono; [eapply (wpi_steps env p t W); [done|done|apply ensure_steps; lia|done]|].
  intros [[]|] s1 [HW1 _]; [|done]. rewrite flow_bind_assoc_wpi.
  eapply wpi_mono; [eapply (wpi_steps env p t W); [done|done|apply stat_steps|done]|].
  intros stat s2 [HW2 _]. rewrite wpi_try. cbn [wpi].
  destruct (match stat with Found m => validate_private_file m | _ => Ok tt end); [|done].
  apply (wpi_call env p t W W_nodes rely); [done|intros; split; done|].
  intros s3 HW3 _. cbv beta. destruct (at_ s3 t) as [x|] eqn:E3; [done|]. cbn [fst snd].
  split; [by apply W_insert|]. apply fill_wpi; [by apply W_insert|].
  unfold at_. cbn [nodes]. apply lookup_insert_eq.
Qed.
End write.

(** C23: a file is replaced as a whole: wherever a write is interrupted, and
    whichever of its calls fail, what is found in its place is what was there or
    the new value complete, readable by its owner alone, or else what others who
    spare its temporary file put there meanwhile ([others], nothing at all if
    they remove it); where others leave the file alone, nothing else. *)
Theorem private_writes_are_whole env (others : option Node → Prop) p value fs fs' :
  (∀ s s', env s s' →
     at_ s' (temporary p) = at_ s (temporary p) ∧ (at_ s' p = at_ s p ∨ others (at_ s' p))) →
  p ≠ [] → temporary p ≠ p →
  reaches env (write_private p value) fs fs' →
  at_ fs' p = at_ fs p ∨ at_ fs' p = Some (private_node value) ∨ others (at_ fs' p).
Proof.
  intros Henv Hp Ht Hr.
  set (W := λ s, at_ s p = at_ fs p ∨ at_ s p = Some (private_node value) ∨ others (at_ s p)).
  assert (∀ s s', W s → env s s' → W s') as Hst.
  { unfold W. intros s s' ? [_ [->|?]]%Henv; auto. }
  apply (wpi_reaches env W (write_private p value) (λ _ _, True) fs fs' Hst); [by left| |done].
  apply write_private_wpi; try done; [..|by left].
  - unfold W. by intros s s' ->.
  - unfold W. intros s ->. auto.
  - intros s s' He. split; [intros; by eapply Hst|]. by apply Henv.
Qed.

(** ** What undisturbed reads and writes return *)

#[local] Instance spares_preorder p t : PreOrder (spares p t).
Proof.
  unfold spares. split; [done|]. intros a b c [H1 H2] [H3 H4]. split; congruence.
Qed.

Lemma run_syscall {A} (failed : nat → Fs → A * Fs) f s :
  ∃ s', nodes s' = nodes s ∧ (run (syscall failed f) s = f s' ∨ ∃ k, run (syscall failed f) s = failed k s')
      ∧ (faults s = [] → s' = s ∧ run (syscall failed f) s = f s).
Proof.
  unfold syscall, act. cbn [run]. destruct (faults s) as [|[k|] l].
  - exists s. split; [done|]. destruct (f s). by split; [left|].
  - exists (mkFs (nodes s) l). split; [done|]. split; [right; exists k; by destruct (failed k _)|done].
  - exists (mkFs (nodes s) l). split; [done|]. split; [left; by destruct (f _)|done].
Qed.

Definition is_private_file (n : Node) : Prop :=
  file_type n = Regular ∧ uid n = euid self ∧ Z.land (mode n) 511 = 384%Z.

Definition is_private_directory (n : Node) : Prop :=
  file_type n = Directory ∧ uid n = euid self ∧ Z.land (mode n) 511 = 448%Z.

Lemma validate_private_file_spec n : validate_private_file n = Ok tt ↔ is_private_file n.
Proof.
  unfold validate_private_file, is_private_file.
  case_bool_decide; destruct (Z.eqb_spec (uid n) (euid self)), (Z.eqb_spec (Z.land (mode n) 511) 384); naive_solver.
Qed.

Lemma validate_private_directory_spec n : validate_private_directory n = Ok tt ↔ is_private_directory n.
Proof.
  unfold validate_private_directory, is_private_directory.
  case_bool_decide; destruct (Z.eqb_spec (uid n) (euid self)), (Z.eqb_spec (Z.land (mode n) 511) 448); naive_solver.
Qed.

(** A file in a directory, both their owner's alone. *)
Definition guarded (fs : Fs) (p : FsPath) (v : bytes) : Prop :=
  (∃ n, at_ fs p = Some n ∧ is_private_file n ∧ content n = v)
  ∧ ∃ d, parent p = Some d ∧ ∃ n, at_ fs d = Some n ∧ is_private_directory n.

Lemma run_stat q s :
  ∃ s', nodes s' = nodes s ∧ (run (symlink_metadata q) s).2 = s'
    ∧ (faults s = [] → s' = s)
    ∧ ((run (symlink_metadata q) s).1 = match at_ s q with Some n => Found n | None => Missing end
       ∨ (faults s ≠ [] ∧ (run (symlink_metadata q) s).1 = StatFailed)).
Proof.
  unfold symlink_metadata.
  destruct (run_syscall (λ _ fs, (StatFailed, fs))
    (λ fs, (match at_ fs q with Some n => Found n | None => Missing end, fs)) s) as (s' & E & H & H0).
  exists s'. split; [done|]. unfold at_ in *. destruct H as [H|[k H]]; rewrite H in *; cbn [fst snd] in *.
  - split; [done|]. split; [by intros [-> _]%H0|]. left. by rewrite E.
  - split; [done|]. split; [by intros [-> _]%H0|]. right. split; [|done]. intros Hf. apply H0 in Hf as [_ Hx]. cbn in Hx. destruct (nodes s !! q); simplify_eq.
Qed.

Lemma run_required q s n s' : run (required_metadata q) s = (Ok n, s') → nodes s' = nodes s ∧ at_ s q = Some n.
Proof.
  unfold required_metadata. rewrite run_bind. destruct (run_stat q s) as (s1 & E & E2 & _ & H).
  destruct (run (symlink_metadata q) s) as [st s2]. cbn [fst snd run] in *. subst s2.
  destruct H as [->|[_ ->]]; [|done]. destruct (at_ s q); intros [= <- <-]. done.
Qed.

Lemma run_validate_parent p s s' : run (validate_parent p) s = (Ok tt, s') →
  nodes s' = nodes s ∧ ∃ d, parent p = Some d ∧ ∃ n, at_ s d = Some n ∧ is_private_directory n.
Proof.
  unfold validate_parent, flow_try. rewrite run_bind. cbn [run fst snd].
  destruct (parent p) as [d|]; [|done]. cbn [ok_or]. rewrite run_bind.
  destruct (run (required_metadata d) s) as [[n|] s1] eqn:Er; [|done]. apply run_required in Er as [E1 E2].
  cbn [fst snd run]. intros [= Hv <-]. apply validate_private_directory_spec in Hv.
  split; [done|]. exists d. split; [done|]. by exists n.
Qed.

(** Only files of this kind are read, and no more of them than is asked. *)
Lemma read_private_guarded p maximum s v s' :
  run (read_private p maximum) s = (Ok (Some v), s') → guarded s p v ∧ length v ≤ maximum.
Proof.
  unfold read_private. rewrite run_bind. destruct (run_stat p s) as (s1 & E1 & E2 & _ & H).
  destruct (run (symlink_metadata p) s) as [st s2]. cbn [fst snd] in *. subst s2.
  destruct H as [->|[_ ->]]; [|done]. destruct (at_ s p) as [n|] eqn:En; [|done].
  unfold flow_try at 1. rewrite run_bind. destruct (run (validate_parent p) s1) as [[[]|] s2] eqn:Ev; [|done].
  apply run_validate_parent in Ev as (E3 & d & Hd & m & Hm & Hp). cbn [fst snd].
  unfold flow_try at 1. rewrite run_bind. cbn [run fst snd].
  destruct (validate_private_file n) as [[]|] eqn:Hv; [|done]. apply validate_private_file_spec in Hv.
  destruct (maximum <? length (content n)) eqn:El; [done|]. apply Nat.ltb_ge in El.
  unfold flow_try. rewrite run_bind. unfold read_file, call.
  destruct (run_syscall (λ (_ : nat) fs, (Err tt : result bytes unit, fs)) (λ fs,
    (match at_ fs p with Some n => if is_dir n then Err tt else Ok (take (maximum + 1) (content n)) | None => Err tt end,
     fs)) s2) as (s3 & E4 & H & _).
  assert (at_ s3 p = Some n) as En3 by (unfold at_ in *; congruence). cbv beta in H. rewrite En3 in H.
  destruct H as [->|[k ->]]; [|done]. destruct (is_dir n); [done|]. cbn [fst snd].
  destruct (maximum <? length (take (maximum + 1) (content n))); [done|]. intros [= <- _].
  rewrite take_ge by lia. split; [|done]. split; [eauto|]. exists d. split; [done|]. exists m.
  split; [|done]. unfold at_ in *. by rewrite <- E1.
Qed.

(** Nothing fails where no call does. *)
Lemma read_private_reads p maximum s v : faults s = [] → guarded s p v → length v ≤ maximum →
  run (read_private p maximum) s = (Ok (Some v), s).
Proof.
  intros Hf [(n & En & Hn & <-) (d & Hd & m & Em & Hm)] Hl.
  assert (∀ A (failed : nat → Fs → A * Fs) f, run (syscall failed f) s = f s) as Hrun.
  { intros A failed f. destruct (run_syscall failed f s) as (s' & _ & _ & H). by apply H. }
  assert (∀ q, run (symlink_metadata q) s = (match at_ s q with Some n => Found n | None => Missing end, s)) as Hstat
    by (intros q; unfold symlink_metadata; by rewrite Hrun).
  assert (run (validate_parent p) s = (Ok tt, s)) as Hpar.
  { unfold validate_parent, required_metadata, flow_try. rewrite Hd. rewrite !run_bind. cbn [ok_or run fst snd].
    rewrite !run_bind, Hstat, Em. cbn [run fst snd]. by rewrite (proj2 (validate_private_directory_spec m)). }
  unfold read_private, flow_try. rewrite run_bind, Hstat, En. cbn [fst snd]. rewrite run_bind, Hpar. cbn [fst snd].
  rewrite run_bind. cbn [run fst snd]. rewrite (proj2 (validate_private_file_spec n)) by done.
  rewrite (proj2 (Nat.ltb_ge _ _)) by done. rewrite run_bind. unfold read_file, call. rewrite Hrun, En.
  assert (is_dir n = false) as -> by (unfold is_dir; by destruct Hn as [-> _]). cbn [fst snd].
  rewrite take_ge by lia. by rewrite (proj2 (Nat.ltb_ge _ _)) by done.
Qed.

(** A write that succeeds leaves the value, guarded. *)
Lemma run_call {A} (f : Fs → result A unit * Fs) s a s' : run (call f) s = (Ok a, s') →
  ∃ s1, nodes s1 = nodes s ∧ f s1 = (Ok a, s').
Proof. unfold call. destruct (run_syscall (λ (_ : nat) fs, (Err tt, fs)) f s) as (s1 & E & [->|[k ->]] & _); [eauto|done]. Qed.

Lemma run_try {A B} (f : Flow Fs (result A unit)) (k : A → Flow Fs (result B unit)) s b s' :
  run (flow_try f k) s = (Ok b, s') → ∃ a s1, run f s = (Ok a, s1) ∧ run (k a) s1 = (Ok b, s').
Proof. unfold flow_try. rewrite run_bind. destruct (run f s) as [[a|] s1]; [eauto|done]. Qed.

Lemma run_write t v s s' : run (write_all t v) s = (Ok tt, s') →
  ∃ s1, nodes s1 = nodes s ∧ s' = appended t v s1.
Proof.
  unfold write_all.
  destruct (run_syscall (λ k fs, (Err tt : result unit unit, appended t (take k v) fs))
    (λ fs, (Ok tt, appended t v fs)) s) as (s1 & E & [->|[k ->]] & _); [|done].
  intros [= <-]. eauto.
Qed.

Lemma run_replace t p d s s' :
  run (await renamed := rename t p in
       match renamed with
       | Err _ => await _ := remove_file t in Ret (Err tt)
       | Ok _ => sync_directory d
       end) s = (Ok tt, s') →
  ∃ n, at_ s t = Some n ∧ nodes s' = <[p := n]> (delete t (nodes s)).
Proof.
  rewrite run_bind. destruct (run (rename t p) s) as [[[]|] s1] eqn:Er; cbn [fst snd].
  2:{ rewrite run_bind. by destruct (run (remove_file t) s1). }
  intros Hs. apply run_call in Er as (s2 & E2 & Hr). unfold at_ in *.
  destruct (nodes s2 !! t) as [n|] eqn:En; [|done]. destruct (match _ with Some _ => _ | None => _ end); [done|].
  injection Hr as <-. exists n. rewrite <- E2. split; [done|].
  apply run_try in Hs as (a & s3 & H1 & H2). apply run_call in H1 as (s4 & E4 & H1).
  apply run_call in H2 as (s5 & E5 & [= <-]). injection H1 as _ <-. by rewrite E5, E4.
Qed.

Lemma write_private_guards p value s s' :
  (Z.land (masked 384) 511 = 384)%Z → p ≠ [] → temporary p ≠ p →
  run (write_private p value) s = (Ok tt, s') → guarded s' p value.
Proof.
  intros Hm Hp Htp Hr. unfold write_private in Hr.
  assert (parent p = Some (removelast p)) as Hpar by (by destruct p). rewrite Hpar in Hr.
  set (d := removelast p) in *. set (t := temporary p) in *.
  pose proof (removelast_length p) as Hd. pose proof (temporary_length p Hp) as Ht. fold d t in Hd, Ht.
  assert (0 < length p) as Hlp by (destruct p; simpl; [done|lia]).
  assert (d ≠ p ∧ d ≠ t) as [Hdp Hdt] by (split; intros E; rewrite E in Hd; lia).
  apply run_try in Hr as (? & ? & [= <- <-] & Hr). apply run_try in Hr as ([] & s1 & He & Hr).
  assert (∃ n, at_ s1 d = Some n ∧ is_private_directory n) as (n & En & Hn).
  { unfold ensure_private_directory in He. rewrite run_bind in He.
    apply run_try in He as (? & s2 & _ & He). apply run_try in He as (n & s3 & He & Hv).
    apply run_required in He as [E3 En]. injection Hv as Hv <-. exists n. apply validate_private_directory_spec in Hv.
    split; [|done]. unfold at_ in *. by rewrite E3. }
  rewrite run_bind in Hr. destruct (run_stat p s1) as (s2 & E2 & E2' & _). rewrite E2' in Hr.
  apply run_try in Hr as (? & s3 & [= _ <-] & Hr). apply run_try in Hr as ([] & s3 & Hc & Hr).
  apply run_call in Hc as (s4 & E4 & Hc). destruct (at_ s4 t) eqn:Et; [done|]. injection Hc as <-.
  rewrite run_bind in Hr.
  destruct (run (let! _ := write_all t value in sync_all) _) as [[[]|] s5] eqn:Ew; cbn [fst snd] in Hr.
  2:{ rewrite run_bind in Hr. by destruct (run (remove_file t) s5). }
  apply run_try in Ew as ([] & s6 & Hw & Hs). apply run_call in Hs as (s7 & E7 & [= <-]).
  apply run_write in Hw as (s8 & E8 & ->). unfold appended, at_ in *. rewrite E8 in *. cbn [nodes] in *.
  rewrite lookup_insert_eq in *. cbn [nodes file_type uid mode content app] in *.
  apply run_replace in Hr as (y & Hx' & Es). unfold at_ in Hx'. rewrite E7 in Hx', Es.
  rewrite lookup_insert_eq in Hx'. injection Hx' as <-. split.
  - eexists. unfold at_. rewrite Es, lookup_insert_eq. done.
  - exists d. split; [done|]. exists n. split; [|done]. unfold at_. rewrite Es.
    rewrite lookup_insert_ne by done. rewrite lookup_delete_ne by done. rewrite !lookup_insert_ne by done. congruence.
Qed.

(** Reading back what was written. *)
Lemma written_is_read p value maximum s s' :
  (Z.land (masked 384) 511 = 384)%Z → p ≠ [] → temporary p ≠ p → length value ≤ maximum →
  run (write_private p value) s = (Ok tt, s') → faults s' = [] →
  run (read_private p maximum) s' = (Ok (Some value), s').
Proof. intros Hm Hp Ht Hl Hw Hf. apply read_private_reads; [done| |done]. by eapply write_private_guards. Qed.

Lemma remove_private_removes p s s' : run (remove_private p) s = (Ok tt, s') → at_ s' p = None.
Proof.
  unfold remove_private. rewrite run_bind. destruct (run_stat p s) as (s1 & E1 & E1' & _ & H). rewrite E1'.
  destruct H as [->|[_ ->]]; [|done]. destruct (at_ s p) as [n|] eqn:En.
  - intros (? & s2 & _ & Hr)%run_try. apply run_try in Hr as (? & ? & [= _ <-] & Hr).
    apply run_try in Hr as ([] & s3 & Hc & Hr). apply run_call in Hc as (s4 & E4 & Hc).
    destruct (at_ s4 p); [|done]. case_bool_decide; [done|]. injection Hc as <-.
    apply run_try in Hr as (? & ? & [= _ <-] & Hr).
    apply run_try in Hr as (? & s5 & H1 & H2). apply run_call in H1 as (s6 & E6 & H1).
    apply run_call in H2 as (s7 & E7 & [= <-]). injection H1 as _ <-. unfold at_. rewrite E7, E6. apply lookup_delete_eq.
  - intros [= <-]. unfold at_ in *. by rewrite E1.
Qed.

(** Undisturbed, a write leaves what was there or the whole value, and a removal
    what was there or nothing. *)
Lemma write_private_outcome p value s : p ≠ [] → temporary p ≠ p →
  let s' := (run (write_private p value) s).2 in
  at_ s' p = at_ s p ∨ at_ s' p = Some (private_node value).
Proof.
  intros Hp Ht. set (W := λ s0, at_ s0 p = at_ s p ∨ at_ s0 p = Some (private_node value)).
  apply (wpi_reaches eq W (write_private p value) (λ _ _, True) s); [by intros ? ? ? <-|by left| |by apply reaches_run].
  apply write_private_wpi; try done; [..|by left].
  - unfold W. by intros s0 s1 ->.
  - unfold W. by right.
  - by intros s0 s1 <-.
Qed.

Definition kept_or_gone (p : FsPath) (s s' : Fs) : Prop := at_ s' p = at_ s p ∨ at_ s' p = None.

#[local] Instance kept_or_gone_preorder p : PreOrder (kept_or_gone p).
Proof.
  unfold kept_or_gone. split; [by left|]. intros a b c [H1|H1] [H2|H2]; rewrite H2, ?H1; auto.
Qed.

Lemma remove_private_outcome p s : kept_or_gone p s (run (remove_private p) s).2.
Proof.
  assert (∀ a b, nodes b = nodes a → kept_or_gone p a b) as Hn by (intros a b E; left; unfold at_; by rewrite E).
  assert (∀ q, all_steps (kept_or_gone p) (symlink_metadata q)) as Hstat by (intros q; apply syscall_steps; intros; by apply Hn).
  apply run_steps; [apply _|]. apply all_steps_bind; [done|]. intros [| |n]; [done..|].
  apply all_steps_try; [|intros _; apply all_steps_try; [done|]; intros _; apply all_steps_try].
  - apply all_steps_try; [done|]. intros d. apply all_steps_try; [by apply all_steps_bind|done].
  - apply syscall_steps; intros a b; [intros _; by apply Hn|]. intros E. unfold kept_or_gone, at_ in *. rewrite E.
    destruct (nodes a !! p) eqn:Ea; [|left; cbn; by rewrite E].
    case_bool_decide; cbn; [left; by rewrite E|right; apply lookup_delete_eq].
  - intros _. apply all_steps_try; [done|]. intros d. apply all_steps_try; [|intros _];
      (apply syscall_steps; intros; by apply Hn).
Qed.

(** Neither a write nor a removal touches what is elsewhere. *)
Definition apart (q p : FsPath) : Prop :=
  q ≠ p ∧ q ≠ temporary p ∧ q ∉ removelast p :: prefixes (removelast p).

Lemma spared {A} (f : Flow Fs A) q s : all_steps (spares q q) f → at_ (run f s).2 q = at_ s q.
Proof. intros Hf. by apply (run_steps (spares q q) f s Hf). Qed.

Lemma remove_file_spares q p : q ≠ p → all_steps (spares q q) (remove_file p).
Proof.
  intros Hq. apply call_steps. intros s. destruct (at_ s p) as [n|]; [|done]. case_bool_decide; [done|].
  split; by apply lookup_delete_ne.
Qed.

Lemma sync_spares q p : all_steps (spares q q) (sync_directory p).
Proof. apply all_steps_try; [|intros _]; by apply call_steps. Qed.

Lemma remove_private_spares q p : q ≠ p → all_steps (spares q q) (remove_private p).
Proof.
  intros Hq. apply all_steps_bind; [apply stat_steps|]. intros [| |n]; [done..|].
  apply all_steps_try; [|intros _; apply all_steps_try; [done|]; intros _; apply all_steps_try].
  - apply all_steps_try; [done|]. intros d. by apply all_steps_try; [apply required_steps|].
  - by apply remove_file_spares.
  - intros _. apply all_steps_try; [done|]. intros d. apply sync_spares.
Qed.

Lemma appended_spares q p v s s' : q ≠ p → nodes s' = nodes s → spares q q s (appended p v s').
Proof.
  intros Hq E. unfold appended, spares. destruct (at_ s' p); [|by apply spares_nodes].
  unfold at_. cbn. rewrite lookup_insert_ne, E by done. done.
Qed.

Lemma write_private_spares q p value : apart q p → all_steps (spares q q) (write_private p value).
Proof.
  intros (Hp & Ht & Hd).
  assert (∀ r : result unit unit, all_steps (spares q q) (await _ := remove_file (temporary p) in Ret r)) as Hrm.
  { intros r. by apply all_steps_bind; [apply remove_file_spares|]. }
  unfold write_private. destruct (decide (p = [])) as [->|Hne]; [done|].
  assert (parent p = Some (removelast p)) as -> by (by destruct p).
  unfold flow_try at 1. cbn [ok_or flow_bind]. apply all_steps_try; [by apply ensure_spares|]. intros _.
  apply all_steps_bind; [apply stat_steps|]. intros stat. apply all_steps_try; [done|]. intros _.
  apply all_steps_try; [|intros _; apply all_steps_bind; [apply all_steps_try|intros [|]; [|done]]].
  - apply call_steps. intros s. destruct (at_ s _); [done|]. split; by apply lookup_insert_ne.
  - apply syscall_steps; intros; by apply appended_spares.
  - intros _. by apply call_steps.
  - apply all_steps_bind; [|intros [|]; [apply sync_spares|done]].
    apply call_steps. intros s. destruct (at_ s (temporary p)); [|done].
    destruct (match at_ s p with Some _ => _ | None => false end); [done|].
    split; unfold at_; cbn; by rewrite lookup_insert_ne, lookup_delete_ne.
Qed.

(** Reading changes nothing, and what it answers it answers where no call fails. *)
Definition calm (fs : Fs) : Fs := mkFs (nodes fs) [].

Definition unchanged (s s' : Fs) : Prop := nodes s' = nodes s.

#[export] Instance unchanged_preorder : PreOrder unchanged.
Proof. unfold unchanged. split; [done|]. intros ???. congruence. Qed.

Lemma read_private_steps p maximum : all_steps unchanged (read_private p maximum).
Proof.
  assert (∀ q, all_steps unchanged (symlink_metadata q)) as Hstat by (intros q; by apply syscall_steps).
  apply all_steps_bind; [done|]. intros [| |n]; [done..|].
  apply all_steps_try; [|intros _; apply all_steps_try; [done|]; intros _].
  - apply all_steps_try; [done|]. intros d. apply all_steps_try; [by apply all_steps_bind|done].
  - destruct (_ <? _); [done|]. apply all_steps_try; [by apply syscall_steps|]. intros v. by destruct (_ <? _).
Qed.

Lemma read_private_calm p maximum s r s' : run (read_private p maximum) s = (Ok r, s') →
  nodes s' = nodes s ∧ run (read_private p maximum) (calm s) = (Ok r, calm s).
Proof.
  intros Hr. split.
  { pose proof (run_steps unchanged (read_private p maximum) s (read_private_steps p maximum)) as H. by rewrite Hr in H. }
  destruct r as [v|].
  - apply read_private_guarded in Hr as [Hg Hl]. by apply read_private_reads.
  - unfold read_private in *. rewrite run_bind in *. destruct (run_stat p s) as (s1 & _ & E1 & _ & H). rewrite E1 in Hr.
    destruct (run_stat p (calm s)) as (s2 & _ & E2 & Hc & H2). rewrite E2, Hc by done.
    destruct H2 as [->|[? _]]; [|done]. change (at_ (calm s) p) with (at_ s p).
    destruct H as [Hx|[_ Hx]]; rewrite Hx in Hr; [|done]. destruct (at_ s p); [exfalso|done].
    apply run_try in Hr as (? & ? & _ & Hr). apply run_try in Hr as (? & ? & _ & Hr).
    destruct (_ <? _); [done|]. apply run_try in Hr as (? & ? & _ & Hr). by destruct (_ <? _).
Qed.
End process.

(** *** A write into a new directory, cut short while it writes *)

Definition sample_process : Process := mkProcess 1000 18 7.
Definition sample_path : FsPath := ["home"; "state"; "config.toml"].
Definition sample_fs : Fs := mkFs {[ ["home"] := mkNode Directory 1000 493 [] ]} [None; None; None; None; None; None; Some 2].
Definition sample_write : result unit unit * Fs := run (write_private sample_process sample_path "value") sample_fs.

Lemma private_writes_are_whole_witness :
  at_ sample_write.2 sample_path = at_ sample_fs sample_path
  ∨ at_ sample_write.2 sample_path = Some (private_node sample_process "value") ∨ False.
Proof.
  apply (private_writes_are_whole sample_process eq (λ _, False) sample_path "value" sample_fs).
  - intros s s' ->. auto.
  - done.
  - by vm_compute.
  - apply reaches_run. by intros s.
Defined.

Example cut_short_write :
  (sample_write.1, at_ sample_write.2 sample_path, at_ sample_write.2 ["home"; "state"; "config.tmp-7"])
  = (Err tt, None, None)
  ∧ (run (write_private sample_process sample_path "value") (mkFs (nodes sample_fs) [])).1 = Ok tt.
Proof. vm_compute. by split. Qed.

End Private.
