(* ===== verification/Profiles.v ===== *)
(** * Profiles and refresh credentials

    Models [crates/sovereign-config-native/src/profiles.rs] and
    [credentials.rs]: the named connections and the refresh credentials a
    command line keeps in private files.  [toml] is a class of operations with
    its round trip as a law. *)

From stdpp Require Import strings.
From S2P Require Import Prelude Bytes ConfigPath Core Auth Encryption AuditEvent Rpc Database AuditTrail ValuePaths ConnectionUrl Flow PrivateFiles.

Local Open Scope bytes_scope.

Import Private.

(** ** Paths of the environment *)

(** [PathBuf::from]: the components of an absolute path; repeated separators and
    single dots name nothing. *)
Definition components (text : bytes) : FsPath :=
  List.filter (λ c, negb (is_empty c) && negb (bool_decide (c = "."))) (split "/"%char text).

Definition is_absolute (text : bytes) : bool := starts_with text "/".

(** [env::var_os] of a variable and of [HOME], and where below each. *)
Definition default_path (variable home : option bytes) (below below_home : FsPath) (e : ClientError)
  : result FsPath ClientError :=
  match (v ← variable; if is_empty v then None else Some v) with
  | Some v => if is_absolute v then Ok (components v ++ below) else Err e
  | None => let? home := ok_or (h ← home; if is_absolute h then Some h else None) e in
            Ok (components home ++ below_home)
  end.

(** Failing as the store does, where a private file fails. *)
Definition or_else {A} (e : ClientError) (f : Flow Fs (result A unit)) : Flow Fs (result A ClientError) :=
  await r := f in Ret (map_err r (λ _, e)).

(** ** credentials.rs *)

Module Credentials.

Definition MAX_CREDENTIAL_BYTES : nat := 16 * 1024.

Definition unavailable : ClientError := mkClientError Core.Unavailable "credential storage is unavailable".

Definition NUL : bytes := ["000"%char].

(** What the file's name is the digest of. *)
Definition scope_input (connection : Connection.ConnectionUrl) : bytes :=
  "v1" ++ NUL ++ Connection.endpoint connection ++ NUL ++ Connection.issuer connection ++ NUL
  ++ Connection.client_id connection.

Section store.
Context `{Crypto} (self : Process).

Definition new (directory : FsPath) (connection : Connection.ConnectionUrl) : FsPath :=
  directory ++ [flat_map Trail.hex_byte (sha256 (scope_input connection))].

Definition line_break (c : ascii) : bool := bool_decide (c = "010"%char) || bool_decide (c = "013"%char).

Definition load (path : FsPath) : Flow Fs (result (option Secret) ClientError) :=
  let! value := or_else unavailable (read_private self path MAX_CREDENTIAL_BYTES) in
  Ret (match value with
       | None => Ok None
       | Some value =>
           if negb (from_utf8_ok value) then Err unavailable
           else if is_empty value || existsb line_break value then Err unavailable
           else Ok (Some (mkSecret value))
       end).

Definition store (path : FsPath) (credential : Secret) : Flow Fs (result unit ClientError) :=
  or_else unavailable (write_private self path (expose_secret credential)).

Definition delete (path : FsPath) : Flow Fs (result unit ClientError) :=
  or_else unavailable (remove_private self path).

Definition default_credential_directory (xdg_state_home home : option bytes) : result FsPath ClientError :=
  default_path xdg_state_home home ["sovereign-config"; "credentials"]
    [".local"; "state"; "sovereign-config"; "credentials"] unavailable.

(** A digest's input tells identities apart. *)
Lemma scope_input_inj a b :
  "000"%char ∉ Connection.endpoint a → "000"%char ∉ Connection.issuer a →
  "000"%char ∉ Connection.endpoint b → "000"%char ∉ Connection.issuer b →
  scope_input a = scope_input b →
  Connection.endpoint a = Connection.endpoint b ∧ Connection.issuer a = Connection.issuer b
  ∧ Connection.client_id a = Connection.client_id b.
Proof.
  unfold scope_input, NUL. intros Ha Ha' Hb Hb' E. cbn [app] in E. injection E as E.
  apply Connection.app_first_inj in E as [? E]; [|done..].
  apply Connection.app_first_inj in E as [? E]; done.
Qed.

Definition loadable (credential : Secret) : Prop :=
  from_utf8_ok (expose_secret credential) = true ∧ expose_secret credential ≠ []
  ∧ existsb line_break (expose_secret credential) = false
  ∧ length (expose_secret credential) ≤ MAX_CREDENTIAL_BYTES.

Lemma stored_guarded path credential fs fs' :
  (Z.land (masked self 384) 511 = 384)%Z → path ≠ [] → temporary self path ≠ path →
  run (store path credential) fs = (Ok tt, fs') → guarded self fs' path (expose_secret credential).
Proof.
  intros Hm Hp Ht. unfold store, or_else. rewrite run_bind.
  destruct (run (write_private self path (expose_secret credential)) fs) as [[[]|] s] eqn:E; [|done].
  intros [= <-]. by eapply write_private_guards.
Qed.

(** What is stored is loaded again, if loading accepts it at all: the bounds
    loading checks are not checked by storing. *)
Lemma stored_credential_loads path credential fs fs' :
  (Z.land (masked self 384) 511 = 384)%Z → path ≠ [] → temporary self path ≠ path →
  run (store path credential) fs = (Ok tt, fs') →
  (loadable credential → faults fs' = [] → run (load path) fs' = (Ok (Some credential), fs'))
  ∧ (MAX_CREDENTIAL_BYTES < length (expose_secret credential) → (run (load path) fs').1 = Err unavailable).
Proof.
  intros Hm Hp Ht Hs%stored_guarded; [|done..]. unfold load, or_else, flow_try. rewrite !run_bind. cbn [run fst snd]. split.
  - intros (Hu & Hne & Hb & Hl) Hf. rewrite (read_private_reads self path _ fs' _ Hf Hs Hl). cbn [fst snd map_err].
    rewrite Hu, Hb. by destruct credential as [[|c s]].
  - intros Hl. destruct (run (read_private self path MAX_CREDENTIAL_BYTES) fs') as [[[v|]|] s] eqn:Er; cbn; [exfalso..|done].
    + apply read_private_guarded in Er as [[(n & En & _ & <-) _] Hv].
      destruct Hs as [(n' & En' & _ & E) _]. assert (n' = n) as -> by congruence. rewrite E in Hv. lia.
    + apply read_private_calm in Er as [_ Er]. unfold read_private in Er. rewrite run_bind in Er.
      destruct Hs as [(n & En & _) _]. destruct (run_stat path (calm fs')) as (s2 & _ & E2 & _ & [Hx|[? _]]); [|done].
      rewrite Hx in Er. change (at_ (calm fs') path) with (at_ fs' path) in Er. rewrite En in Er.
      apply run_try in Er as (? & ? & _ & Er). apply run_try in Er as (? & ? & _ & Er).
      destruct (_ <? _); [done|]. apply run_try in Er as (? & ? & _ & Er). by destruct (_ <? _).
Qed.
End store.
End Credentials.

(** ** profiles.rs *)

Record StoredConfig := mkStoredConfig {
  format_version : Z; default_profile : bytes; profiles : gmap bytes bytes }.

#[global] Instance StoredConfig_eq_dec : EqDecision StoredConfig.
Proof. solve_decision. Defined.

Class TomlCrate := {
  toml_from_str : bytes → option StoredConfig;
  toml_to_string : StoredConfig → option bytes }.

(** What is written is text and reads back. *)
Class TomlLaws `{TomlCrate} : Prop :=
  toml_round_trip c t : toml_to_string c = Some t → toml_from_str t = Some c ∧ from_utf8_ok t = true.

Module Profiles.

Definition CONFIG_FORMAT_VERSION : Z := 1.
Definition MAX_CONFIG_BYTES : nat := 1024 * 1024.

Record ListedProfile := mkListedProfile {
  lp_name : bytes; is_default : bool; lp_endpoint : bytes; lp_root : bytes; redacted_url : bytes }.

Definition not_found : ClientError := mkClientError Core.InvalidRequest "profile was not found".
Definition unavailable : ClientError := mkClientError Core.Unavailable "profile configuration is unavailable".
Definition invalid_name : ClientError := mkClientError Core.InvalidRequest "profile name is invalid".
Definition already_exists : ClientError := mkClientError Core.InvalidRequest "profile already exists".

Definition name_head (c : ascii) : bool := is_ascii_lowercase c || is_ascii_digit c.

Definition validate_name (name : bytes) : result unit ClientError :=
  if (1 <=? length name) && (length name <=? 63)
     && match name with c :: _ => name_head c | [] => false end
     && forallb (λ c, name_head c || bool_decide (c = "-"%char)) name
  then Ok tt else Err invalid_name.

Section profiles.
Context `{UrlCrates} `{TomlCrate} (self : Process) (path : FsPath).

(** The four conditions of [load]. *)
Definition accepted (config : StoredConfig) : bool :=
  (format_version config =? CONFIG_FORMAT_VERSION)%Z
  && negb (bool_decide (profiles config = ∅))
  && bool_decide (is_Some (profiles config !! default_profile config))
  && negb (existsb (λ nv, negb (is_ok (validate_name nv.1))) (entries (profiles config))).

Definition decode (value : bytes) : result StoredConfig ClientError :=
  if negb (from_utf8_ok value) then Err unavailable
  else
    let? config := ok_or (toml_from_str value) unavailable in
    if negb (accepted config) then Err unavailable else Ok config.

Definition load : Flow Fs (result (option StoredConfig) ClientError) :=
  let! value := or_else unavailable (read_private self path MAX_CONFIG_BYTES) in
  Ret (match value with
       | None => Ok None
       | Some value => let? config := decode value in Ok (Some config)
       end).

Definition store (config : StoredConfig) : Flow Fs (result unit ClientError) :=
  let! encoded := Ret (ok_or (toml_to_string config) unavailable) in
  or_else unavailable (write_private self path encoded).

Definition required : Flow Fs (result StoredConfig ClientError) :=
  let! config := load in Ret (ok_or config not_found).

(** What each change makes of a configuration. *)
Definition added (name : bytes) (connection : Connection.ConnectionUrl) (config : option StoredConfig)
  : result StoredConfig ClientError :=
  let config := default (mkStoredConfig CONFIG_FORMAT_VERSION name ∅) config in
  if bool_decide (is_Some (profiles config !! name)) then Err already_exists
  else Ok (mkStoredConfig (format_version config) (default_profile config)
             (<[name := expose_secret (Connection.canonical connection)]> (profiles config))).

Definition updated (name : bytes) (connection : Connection.ConnectionUrl) (config : StoredConfig)
  : result StoredConfig ClientError :=
  let? _ := ok_or (profiles config !! name) not_found in
  Ok (mkStoredConfig (format_version config) (default_profile config)
        (<[name := expose_secret (Connection.canonical connection)]> (profiles config))).

Definition defaulted (name : bytes) (config : StoredConfig) : result StoredConfig ClientError :=
  if negb (bool_decide (is_Some (profiles config !! name))) then Err not_found
  else Ok (mkStoredConfig (format_version config) name (profiles config)).

Definition add (name : bytes) (connection : Connection.ConnectionUrl) : Flow Fs (result unit ClientError) :=
  let! _ := Ret (validate_name name) in
  let! config := load in
  let! config := Ret (added name connection config) in
  store config.

Definition update (name : bytes) (connection : Connection.ConnectionUrl) : Flow Fs (result unit ClientError) :=
  let! _ := Ret (validate_name name) in
  let! config := required in
  let! config := Ret (updated name connection config) in
  store config.

Definition set_default (name : bytes) : Flow Fs (result unit ClientError) :=
  let! _ := Ret (validate_name name) in
  let! config := required in
  let! config := Ret (defaulted name config) in
  store config.

(** The profile of a configuration a name selects. *)
Definition selected (name : option bytes) (config : StoredConfig)
  : result Connection.ConnectionUrl ClientError :=
  let? url := ok_or (profiles config !! default (default_profile config) name) not_found in
  map_err (Connection.parse url) (λ _, unavailable).

Definition connection (name : option bytes) : Flow Fs (result Connection.ConnectionUrl ClientError) :=
  let! _ := Ret (match name with Some name => validate_name name | None => Ok tt end) in
  let! config := required in
  Ret (selected name config).

Definition redacted (name : bytes) : Flow Fs (result bytes ClientError) :=
  let! c := connection (Some name) in Ret (Ok (Connection.redacted c)).

Definition listed (config : StoredConfig) : result (list ListedProfile) ClientError :=
  mapM (M:=λ A, result A ClientError) (λ nv : bytes * bytes,
    let? c := map_err (Connection.parse nv.2) (λ _, unavailable) in
    Ok (mkListedProfile nv.1 (bool_decide (nv.1 = default_profile config)) (Connection.endpoint c)
          (Path.as_str (Connection.cu_root c)) (Connection.redacted c))) (entries (profiles config)).

Definition list_ : Flow Fs (result (list ListedProfile) ClientError) :=
  let! config := load in
  Ret (match config with None => Ok [] | Some config => listed config end).

Definition same_human (connection candidate : Connection.ConnectionUrl) : bool :=
  bool_decide (Connection.client_authentication candidate = None)
  && bool_decide (Connection.endpoint candidate = Connection.endpoint connection)
  && bool_decide (Connection.issuer candidate = Connection.issuer connection)
  && bool_decide (Connection.client_id candidate = Connection.client_id connection).

Fixpoint other_human (excluded_name : bytes) (connection : Connection.ConnectionUrl)
    (l : list (bytes * bytes)) : result bool ClientError :=
  match l with
  | [] => Ok false
  | (name, url) :: l' =>
      if bool_decide (name = excluded_name) then other_human excluded_name connection l'
      else
        let? candidate := map_err (Connection.parse url) (λ _, unavailable) in
        if same_human connection candidate then Ok true else other_human excluded_name connection l'
  end.

Definition contains_other_human_identity (excluded_name : bytes) (connection : Connection.ConnectionUrl)
  : Flow Fs (result bool ClientError) :=
  let! config := required in
  Ret (other_human excluded_name connection (entries (profiles config))).

Definition default_profile_path (xdg_config_home home : option bytes) : result FsPath ClientError :=
  default_path xdg_config_home home ["sovereign-config"; "config.toml"]
    [".config"; "sovereign-config"; "config.toml"] unavailable.

(** ** What the store holds *)

Implicit Types (fs : Fs) (c : StoredConfig).

(** A parsed URL is the text it was parsed from. *)
Lemma parse_canonical text u : Connection.parse text = Ok u →
  Connection.parse (expose_secret (Connection.canonical u)) = Ok u.
Proof.
  intros E. assert (expose_secret (Connection.canonical u) = text) as ->; [|done]. revert E.
  unfold Connection.parse. intros E. repeat (apply and_then_ok in E as (? & ? & E)). injection E as <-. cbn.
  unfold Connection.check in *. by repeat case_bool_decide; simplify_eq/=.
Qed.

(** What loading answers where no call fails. *)
Definition view (fs : Fs) : result (option StoredConfig) ClientError := (run load (calm fs)).1.

Lemma run_or_else {A} e (f : Flow Fs (result A unit)) fs a fs' :
  run (or_else e f) fs = (Ok a, fs') → run f fs = (Ok a, fs').
Proof.
  unfold or_else. rewrite run_bind. destruct (run f fs) as [[x|] s]; cbn; [by intros [= -> ->]|done].
Qed.

Lemma run_tried {A B} (f : Flow Fs (result A ClientError)) (k : A → Flow Fs (result B ClientError)) s b s' :
  run (flow_try f k) s = (Ok b, s') → ∃ a s1, run f s = (Ok a, s1) ∧ run (k a) s1 = (Ok b, s').
Proof. unfold flow_try. rewrite run_bind. destruct (run f s) as [[a|] s1]; [eauto|done]. Qed.

Lemma view_read fs v : run (read_private self path MAX_CONFIG_BYTES) (calm fs) = (Ok v, calm fs) →
  view fs = match v with None => Ok None | Some value => let? config := decode value in Ok (Some config) end.
Proof. intros E. unfold view, load, or_else, flow_try. rewrite !run_bind, E. done. Qed.

Lemma run_load fs o fs' : run load fs = (Ok o, fs') → nodes fs' = nodes fs ∧ view fs = Ok o.
Proof.
  unfold load at 1. intros (v & s1 & Hr%run_or_else & [= Hv <-])%run_tried.
  apply read_private_calm in Hr as [E Hr]. split; [done|]. by rewrite (view_read _ _ Hr).
Qed.

Lemma view_accepted fs c : view fs = Ok (Some c) → accepted c = true.
Proof.
  unfold view, load, flow_try. rewrite run_bind. destruct (run (or_else _ _) _) as [[[v|]|] s]; cbn; try done.
  destruct (decode v) as [c'|] eqn:Ed; cbn; [|done]. intros [= ->]. revert Ed. unfold decode.
  destruct (from_utf8_ok v); [|done]. destruct (toml_from_str v) as [c0|]; cbn; [|done].
  destruct (accepted c0) eqn:Ea; cbn; [|done]. by intros [= <-].
Qed.

Lemma accepted_spec c : accepted c = true ↔
  format_version c = CONFIG_FORMAT_VERSION ∧ is_Some (profiles c !! default_profile c)
  ∧ ∀ n v, profiles c !! n = Some v → validate_name n = Ok tt.
Proof.
  unfold accepted. rewrite !andb_true_iff, Z.eqb_eq, !negb_true_iff, bool_decide_eq_true, bool_decide_eq_false.
  rewrite <- not_true_iff_false, existsb_exists. split.
  - intros (((Hv & _) & Hd) & Hn). split; [done|]. split; [done|]. intros n v Hnv.
    destruct (validate_name n) as [[]|] eqn:E; [done|]. exfalso. apply Hn. exists (n, v).
    rewrite <- list_elem_of_In, elem_of_entries. cbn. by rewrite E.
  - intros (Hv & Hd & Hn). split; [split; [split; [done|]|done]|].
    + intros E. rewrite E in Hd. by destruct Hd.
    + intros ([n v] & Hin & Hb). rewrite <- list_elem_of_In, elem_of_entries in Hin. cbn in Hb. by rewrite (Hn n v) in Hb.
Qed.

(** A change: what it makes of a configuration, and the code that makes it. *)
Inductive Change :=
| Add (name : bytes) (connection : Connection.ConnectionUrl)
| Update (name : bytes) (connection : Connection.ConnectionUrl)
| SetDefault (name : bytes).

Definition change_name (ch : Change) : bytes := match ch with Add n _ | Update n _ | SetDefault n => n end.

Definition changed (ch : Change) (o : option StoredConfig) : result StoredConfig ClientError :=
  match ch with
  | Add n u => added n u o
  | Update n u => and_then (ok_or o not_found) (updated n u)
  | SetDefault n => and_then (ok_or o not_found) (defaulted n)
  end.

Definition perform (ch : Change) : Flow Fs (result unit ClientError) :=
  match ch with Add n u => add n u | Update n u => update n u | SetDefault n => set_default n end.

Lemma insert_accepted c n u : accepted c = true → validate_name n = Ok tt →
  accepted (mkStoredConfig (format_version c) (default_profile c) (<[n := u]> (profiles c))) = true.
Proof.
  rewrite !accepted_spec. cbn. intros (Hv & Hd & Hall) Hn. split; [done|]. split.
  - destruct (decide (n = default_profile c)) as [->|]; [by rewrite lookup_insert_eq|by rewrite lookup_insert_ne].
  - intros m v. destruct (decide (n = m)) as [->|]; [done|]. rewrite lookup_insert_ne by done. apply Hall.
Qed.

Lemma changed_accepted ch o c : (∀ c0, o = Some c0 → accepted c0 = true) →
  validate_name (change_name ch) = Ok tt → changed ch o = Ok c → accepted c = true.
Proof.
  intros Ho Hn. destruct ch as [n u|n u|n]; cbn in *.
  - unfold added. destruct o as [c0|]; cbn [default from_option]; case_bool_decide; intros [= <-].
    + by apply insert_accepted; [apply Ho|].
    + apply accepted_spec. cbn. split; [done|]. rewrite lookup_insert_eq. split; [done|].
      intros m v. destruct (decide (n = m)) as [->|]; [done|]. by rewrite lookup_insert_ne.
  - destruct o as [c0|]; cbn; [|done]. unfold updated. destruct (profiles c0 !! n); cbn; [|done].
    intros [= <-]. by apply insert_accepted; [apply Ho|].
  - destruct o as [c0|]; cbn; [|done]. unfold defaulted. case_bool_decide as Hd; cbn; [|done]. intros [= <-].
    specialize (Ho _ eq_refl). revert Ho. rewrite !accepted_spec. cbn. naive_solver.
Qed.

(** A change loads, makes of the configuration what it should, and stores that. *)
Lemma perform_parts ch fs fs' : run (perform ch) fs = (Ok tt, fs') →
  ∃ o c fs1, view fs = Ok o ∧ validate_name (change_name ch) = Ok tt ∧ changed ch o = Ok c
    ∧ run (store c) fs1 = (Ok tt, fs').
Proof.
  assert (∀ s c s', run required s = (Ok c, s') → view s = Ok (Some c)) as Hreq.
  { intros s c s' (o & s1 & Hl & [= Ho _])%run_tried. apply run_load in Hl as [_ ->]. by destruct o; simplify_eq/=. }
  destruct ch as [n u|n u|n]; cbn [perform]; intros ([] & s1 & [= Hn <-] & Hr)%run_tried;
    apply run_tried in Hr as (o & s2 & Hl & Hr); apply run_tried in Hr as (c & s3 & [= Hc <-] & Hr).
  - apply run_load in Hl as [_ Hl]. eauto 10.
  - apply Hreq in Hl. exists (Some o), c, s2. done.
  - apply Hreq in Hl. exists (Some o), c, s2. done.
Qed.

(** A change of the profiles that reports success has been made: the store
    held a configuration, absent at first, of which the change makes the one now
    stored, whole and readable by its owner alone; loading it answers it, as
    long as it is not longer than loading allows; and selecting the name that
    was added or updated answers the very connection it was given, and the
    default is the name it was set to. *)
Theorem profile_changes_are_kept `{!TomlLaws} ch fs fs' :
  (Z.land (masked self 384) 511 = 384)%Z → path ≠ [] → temporary self path ≠ path →
  (∀ n u, ch = Add n u ∨ ch = Update n u → ∃ text, Connection.parse text = Ok u) →
  run (perform ch) fs = (Ok tt, fs') →
  ∃ o c t, view fs = Ok o ∧ changed ch o = Ok c ∧ toml_to_string c = Some t
    ∧ guarded self fs' path t
    ∧ (length t ≤ MAX_CONFIG_BYTES → view fs' = Ok (Some c))
    ∧ match ch with
      | Add n u | Update n u => selected (Some n) c = Ok u
      | SetDefault n => selected None c = selected (Some n) c
      end.
Proof.
  intros Hm Hp Ht Hu (o & c & fs1 & Hv & Hn & Hc & Hs)%perform_parts.
  apply run_tried in Hs as (t & s2 & [= Et <-] & Hs%run_or_else).
  assert (toml_to_string c = Some t) as Et' by (by destruct (toml_to_string c); simplify_eq/=).
  apply write_private_guards in Hs; [|done..]. destruct (toml_round_trip c t Et') as [Hfrom Hutf].
  assert (accepted c = true) as Ha.
  { eapply changed_accepted; [|done|done]. intros c0 ->. by eapply view_accepted. }
  exists o, c, t. split; [done|]. split; [done|]. split; [done|]. split; [done|]. split.
  - intros Hl. rewrite (view_read fs' (Some t)) by (by apply read_private_reads).
    unfold decode. rewrite Hutf, Hfrom. cbn. by rewrite Ha.
  - assert (∀ n u, ch = Add n u ∨ ch = Update n u → profiles c !! n = Some (expose_secret (Connection.canonical u)) →
      selected (Some n) c = Ok u) as Hsel.
    { intros n u He Hl. unfold selected. change (default (default_profile c) (Some n)) with n. rewrite Hl. cbn [ok_or and_then].
      destruct (Hu n u He) as [text Hpt]. by rewrite (parse_canonical text u Hpt). }
    destruct ch as [n u|n u|n]; cbn [changed] in Hc.
    + apply Hsel; [by left|]. unfold added in Hc. case_bool_decide; [done|]. injection Hc as <-. apply lookup_insert_eq.
    + apply Hsel; [by right|]. destruct o as [c0|]; [|done]. cbn in Hc. unfold updated in Hc.
      destruct (profiles c0 !! n); cbn in Hc; [|done]. injection Hc as <-. apply lookup_insert_eq.
    + destruct o as [c0|]; [|done]. cbn in Hc. unfold defaulted in Hc. case_bool_decide; [|done]. by injection Hc as <-.
Qed.

End profiles.

(** *** Adding the first profile *)

Import SampleUrl.

Definition sample_connection : Connection.ConnectionUrl :=
  match sample_managed with
  | Ok u => u
  | Err _ => Connection.mkConnectionUrl (mkSecret []) [] (mkPath []) [] [] None
  end.

Definition sample_config : StoredConfig :=
  mkStoredConfig 1 "work" {[ ("work" : bytes) := expose_secret (Connection.canonical sample_connection) ]}.

#[local] Instance sample_toml : TomlCrate := {|
  toml_from_str t := if bool_decide (t = "work") then Some sample_config else None;
  toml_to_string c := if bool_decide (c = sample_config) then Some ("work" : bytes) else None |}.

#[local] Instance sample_toml_laws : TomlLaws.
Proof. intros c t. cbn. case_bool_decide; [|done]. by intros [= <-]; subst. Qed.

Definition sample_add : result unit ClientError * Fs :=
  run (perform sample_process sample_path (Add "work" sample_connection)) (calm sample_fs).

Lemma profile_changes_are_kept_witness :
  view sample_process sample_path sample_add.2 = Ok (Some sample_config)
  ∧ selected None sample_config = Ok sample_connection.
Proof.
  assert (sample_add.1 = Ok tt) as Hr by (vm_compute; reflexivity).
  destruct sample_add as [r fs'] eqn:E. cbn [fst] in Hr. subst r.
  destruct (profile_changes_are_kept sample_process sample_path (Add "work" sample_connection) (calm sample_fs) fs')
    as (o & c & t & Hv & Hc & Et & _ & Hl & Hs).
  - by vm_compute.
  - done.
  - by vm_compute.
  - intros n u [[= <- <-]|[=]]. exists (expose_secret (Connection.canonical sample_connection)). vm_compute. reflexivity.
  - exact E.
  - assert (c = sample_config) as ->.
    { unfold toml_to_string, sample_toml in Et. case_bool_decide; [done|discriminate Et]. }
    assert (t = "work") as -> by (unfold toml_to_string, sample_toml in Et; case_bool_decide; [by injection Et|discriminate Et]).
    split; [|exact Hs]. apply Hl. apply Nat.leb_le. vm_compute. reflexivity.
Defined.

End Profiles.
