(* ===== verification/Provider.v ===== *)
(** * The application provider

    Models [crates/sovereign-config-provider/src]: the tree an application's
    configuration is nested into ([mapping.rs]), the provider that connects by a
    managed URL and loads that tree over a session ([lib.rs], [token.rs]), its
    errors ([error.rs]) and the source of a layered configuration
    ([config_source.rs]).  The environment and the file system are functions. *)

From stdpp Require Import strings.
From S2P Require Import Prelude Bytes ConfigPath Core PlainText Json Encryption ConnectionUrl Flow Session LayerReader Oidc.

Local Open Scope bytes_scope.

Module Provider.

(** ** error.rs *)

Inductive ProviderError :=
| MalformedUrl | UnsupportedCredential | AuthenticationFailed | ProviderPermissionDenied
| ProviderIncompatible | ProviderInvalidRequest | ProviderNotFound | ProviderUnavailable
| InvalidConversion | ProviderInternal.

Definition from_client_error (error : ClientError) : ProviderError :=
  match kind error with
  | Unauthenticated => AuthenticationFailed
  | PermissionDenied => ProviderPermissionDenied
  | IncompatibleProtocol | VersionNotServed => ProviderIncompatible
  | InvalidRequest | Conflict => ProviderInvalidRequest
  | NotFound => ProviderNotFound
  | Unavailable => ProviderUnavailable
  | Internal => ProviderInternal
  end.

(** ** mapping.rs *)

(** A [BTreeMap] is its entries in byte order of their keys. *)
Inductive Tree := Leaf (text : bytes) | Node (children : list (bytes * Tree)).

Abbreviation Children := (list (bytes * Tree)).

Fixpoint get (k : bytes) (o : Children) : option Tree :=
  match o with
  | [] => None
  | (k', v) :: o' => match cmp_bytes k k' with Lt => None | Eq => Some v | Gt => get k o' end
  end.

Fixpoint put (k : bytes) (v : Tree) (o : Children) : option Tree * Children :=
  match o with
  | [] => (None, [(k, v)])
  | (k', v') :: o' =>
      match cmp_bytes k k' with
      | Lt => (None, (k, v) :: o)
      | Eq => (Some v', (k', v) :: o')
      | Gt => let '(old, r) := put k v o' in (old, (k', v') :: r)
      end
  end.

Fixpoint insert (object : Children) (segments : list bytes) (value : bytes) : result Children ProviderError :=
  match segments with
  | [] => Err InvalidConversion
  | segment :: remaining =>
      match remaining with
      | [] =>
          match put segment (Leaf value) object with
          | (Some _, _) => Err InvalidConversion
          | (None, object') => Ok object'
          end
      | _ =>
          match default (Node []) (get segment object) with
          | Leaf _ => Err InvalidConversion
          | Node child =>
              let? child' := insert child remaining value in
              Ok (put segment (Node child') object).2
          end
      end
  end.

Definition relative_segments (root path_ : ConfigPath) : result (list bytes) ProviderError :=
  if bool_decide (Path.fold root = "/")
  then Ok (split "/"%char (trim_start_matches "/"%char (Path.fold path_)))
  else
    let? relative :=
      ok_or (suffix ← strip_prefix (Path.fold root) (Path.fold path_); strip_prefix "/" suffix)
        InvalidConversion in
    Ok (split "/"%char relative).

(** A [BTreeMap<ConfigPath, _>] compares paths by their folds: a map from them. *)
Definition leaf_text (value : SubTreeValue) (revealed : gmap bytes RevealedSecret)
  : result bytes ProviderError :=
  match stv_value value with
  | ContentPlain plain => Ok (expose_plain plain)
  | ContentSecret _ =>
      let? secret := ok_or (revealed !! Path.fold (stv_path value)) InvalidConversion in
      Ok (expose_revealed secret)
  end.

Definition build_step (root : ConfigPath) (revealed : gmap bytes RevealedSecret)
    (state : Children * option bytes) (value : SubTreeValue)
  : result (Children * option bytes) ProviderError :=
  let '(object, exact) := state in
  if bool_decide (Path.as_str (stv_path value) = "/") || negb (Path.is_at_or_below (stv_path value) root)
  then Err InvalidConversion
  else
    let? text := leaf_text value revealed in
    if Path.eq (stv_path value) root then
      match exact with Some _ => Err InvalidConversion | None => Ok (object, Some text) end
    else
      let? segments := relative_segments root (stv_path value) in
      let? object' := insert object segments text in
      Ok (object', exact).

Definition build_tree (root : ConfigPath) (values : list SubTreeValue)
    (revealed : gmap bytes RevealedSecret) : result Tree ProviderError :=
  let? state := fold_result (build_step root revealed) ([], None) values in
  match state with
  | (object, Some text) => if is_empty object then Ok (Leaf text) else Err InvalidConversion
  | (object, None) => Ok (Node object)
  end.

(** [serde_json::Value]: the part of it trees become. *)
Inductive Value := VString (s : bytes) | VObject (entries : list (bytes * Value)).

Fixpoint tree_to_json (tree_ : Tree) : Value :=
  match tree_ with
  | Leaf text => VString text
  | Node children => VObject (List.map (λ kv, (kv.1, tree_to_json kv.2)) children)
  end.

(** ** What a load does *)

Section provider.
Context {W T : Type} `{Handshake W} `{UrlCrates} `{Oidc.OidcCrates}.
Context (speaking : Protocol.ProtocolVersion → T).
(** [TonicChannel::connect], and a transport's two reads. *)
Context (open_channel : bytes → option W).
Context (get_subtree : T → ConfigPath → Secret → W → result ValueSubTree ClientError * W).
Context (reveal_secret : T → ConfigPath → Secret → W → result RevealedSecret ClientError * W).

Record ManagedTokenProvider := mkTokenProvider {
  tp_issuer : bytes; tp_client_id : bytes; tp_authentication : Secret }.

(** [ManagedTokenProvider::access_token] *)
Definition access_token (self : ManagedTokenProvider) : Io (option Secret) :=
  do! client := Oidc.discover (tp_issuer self) (tp_client_id self) in
  do! tokens := Oidc.client_credentials client (tp_authentication self) in
  io_ret (Ok (Some (Oidc.access_token tokens))).

Record Provider := mkProvider {
  session : Sessions.Session W T; token : ManagedTokenProvider; root : ConfigPath }.

Definition connect (url : bytes) : result Provider ProviderError :=
  let? connection := map_err (Connection.parse url) (λ _, MalformedUrl) in
  let? authentication := ok_or (Connection.client_authentication connection) UnsupportedCredential in
  let? channel := ok_or (open_channel (Connection.endpoint connection)) ProviderUnavailable in
  match run (Sessions.open speaking) channel with
  | (Ok st, channel) =>
      Ok (mkProvider (Sessions.mkSession channel st)
            (mkTokenProvider (Connection.issuer connection) (Connection.client_id connection) authentication)
            (Connection.cu_root connection))
  | (Err e, _) => Err (from_client_error e)
  end.

(** The reveals of one read, in the order of the subtree. *)
Fixpoint reveal_all (t : T) (token : Secret) (values : list SubTreeValue)
    (revealed : gmap bytes RevealedSecret)
  : Flow (Sessions.Session W T) (result (gmap bytes RevealedSecret) ClientError) :=
  match values with
  | [] => Ret (Ok revealed)
  | value :: values' =>
      match stv_value value with
      | ContentPlain _ => reveal_all t token values' revealed
      | ContentSecret _ =>
          let! secret := act (Sessions.over (reveal_secret t (stv_path value) token)) in
          reveal_all t token values' (<[Path.fold (stv_path value) := secret]> revealed)
      end
  end.

(** The one operation [load_tree] hands the session. *)
Definition read_tree (root : ConfigPath) (token : Secret) (t : T)
  : Flow (Sessions.Session W T) (result (ValueSubTree * gmap bytes RevealedSecret) ClientError) :=
  let! subtree := act (Sessions.over (get_subtree t root token)) in
  let! revealed := reveal_all t token (vst_values subtree) ∅ in
  Ret (Ok (subtree, revealed)).

(** [load_tree] once a token was acquired. *)
Definition load_with (root : ConfigPath) (token : Secret)
  : Flow (Sessions.Session W T) (result Tree ProviderError) :=
  await r := Sessions.call speaking (read_tree root token) in
  Ret (match r with
       | Ok (subtree, revealed) => build_tree root (vst_values subtree) revealed
       | Err e => Err (from_client_error e)
       end).

(** [load_tree]; [None] where acquiring the token panics. *)
Definition load_tree (self : Provider) (net : Net)
  : option (result Tree ProviderError) * Net * Provider :=
  match access_token (token self) net with
  | (Done (Ok (Some t)), net) =>
      let '(r, s) := run (load_with (root self) t) (session self) in
      (Some r, net, mkProvider s (token self) (root self))
  | (Done (Ok None), net) => (Some (Err AuthenticationFailed), net, self)
  | (Done (Err e), net) => (Some (Err (from_client_error e)), net, self)
  | (Panicked, net) | (Running, net) => (None, net, self)
  end.
End provider.

(** ** config_source.rs *)

Definition URL_FILE_VAR : bytes := "SOVEREIGN_CONFIG_ACCESS_URL_FILE".
Definition URL_VAR : bytes := "SOVEREIGN_CONFIG_ACCESS_URL".

Inductive ConfigError := Message (text : bytes) | Foreign (e : ProviderError).

(** [std::env::var]: absent, not Unicode, or the value. *)
Inductive EnvVar := NotPresent | NotUnicode | Present (value : bytes).

Inductive Connection_ := FromUrl (url : bytes) | DefaultEnvironment.

Definition backquoted (s : bytes) : bytes := "`" ++ s ++ "`".

Definition optional_env (env : bytes → EnvVar) (variable : bytes) : result (option bytes) ConfigError :=
  match env variable with
  | Present value => Ok (Some value)
  | NotPresent => Ok None
  | NotUnicode => Err (Message (backquoted variable ++ " is not valid UTF-8"))
  end.

(** [read_file] answers the contents or the error's text. *)
Definition resolve_connection_url (url_file : option bytes) (url : result (option bytes) ConfigError)
    (read_file : bytes → result bytes bytes) : result bytes ConfigError :=
  match url_file with
  | Some path =>
      let path := trim path in
      if is_empty path
      then Err (Message (backquoted URL_FILE_VAR ++ " is set but empty; unset it or point it at a file containing the connection URL"))
      else
        let? contents := map_err (read_file path) (λ error,
          Message (backquoted URL_FILE_VAR ++ " points to a file that could not be read: " ++ error)) in
        let value := trim contents in
        if is_empty value
        then Err (Message ("the file referenced by " ++ backquoted URL_FILE_VAR ++ " is empty"))
        else Ok value
  | None =>
      let? url := url in
      match url with
      | Some url =>
          let value := trim url in
          if is_empty value then Err (Message (backquoted URL_VAR ++ " is set but empty")) else Ok value
      | None =>
          Err (Message ("no managed connection URL configured: set " ++ backquoted URL_FILE_VAR
            ++ " to a file containing the URL, or set " ++ backquoted URL_VAR ++ " to the URL itself"))
      end
  end.

Definition resolve_default_environment (env : bytes → EnvVar) (read_file : bytes → result bytes bytes)
  : result bytes ConfigError :=
  let? url_file := optional_env env URL_FILE_VAR in
  resolve_connection_url url_file (optional_env env URL_VAR) read_file.

Definition resolve_url (self : Connection_) (env : bytes → EnvVar) (read_file : bytes → result bytes bytes)
  : result bytes ConfigError :=
  match self with FromUrl url => Ok url | DefaultEnvironment => resolve_default_environment env read_file end.

(** [config::Value]s of kind string and table. *)
Inductive ConfigValue := ConfigString (s : bytes) | ConfigTable (t : list (bytes * ConfigValue)).

Fixpoint tree_to_value (tree_ : Tree) : ConfigValue :=
  match tree_ with
  | Leaf text => ConfigString text
  | Node children => ConfigTable (List.map (λ kv, (kv.1, tree_to_value kv.2)) children)
  end.

(** [load_blocking] is a parameter: a thread that connects and loads. *)
Definition collect (self : Connection_) (env : bytes → EnvVar) (read_file : bytes → result bytes bytes)
    (load_blocking : bytes → result Tree ProviderError) : result (list (bytes * ConfigValue)) ConfigError :=
  let? url := resolve_url self env read_file in
  let? tree_ := map_err (load_blocking url) Foreign in
  match tree_ with
  | Node children => Ok (List.map (λ kv, (kv.1, tree_to_value kv.2)) children)
  | Leaf _ => Err (Message "Sovereign Config connection root is not a configuration table")
  end.

(** ** Nesting is the core's rendering of the folded values *)

Import Json.

Fixpoint node_of (t : Tree) : JsonNode :=
  match t with
  | Leaf text => JString text
  | Node o => JObject (List.map (λ kv, (kv.1, node_of kv.2)) o)
  end.

Abbreviation nodes_of o := (List.map (λ kv, (kv.1, node_of kv.2)) o).

Definition low (k : bytes) : Prop := to_ascii_lowercase k = k.

(** Every key is its own fold. *)
Inductive Low : Tree → Prop :=
| Low_leaf s : Low (Leaf s)
| Low_node o : Forall (λ kv, low kv.1 ∧ Low kv.2) o → Low (Node o).

Lemma Low_children o : Low (Node o) ↔ Forall (λ kv, low kv.1 ∧ Low kv.2) o.
Proof. split; [by inversion 1|by constructor]. Qed.

Lemma key_cmp_low a b : low a → low b → key_cmp a b = cmp_bytes a b.
Proof. unfold low, key_cmp. intros Ha Hb. change (List.map lower_byte) with to_ascii_lowercase. by rewrite Ha, Hb. Qed.

Lemma get_node k o : low k → Low (Node o) → bt_get k (nodes_of o) = option_map node_of (get k o).
Proof.
  intros Hk Ho%Low_children. induction Ho as [|[k' v] o [Hk' _] _ IH]; [done|]. cbn in *.
  rewrite key_cmp_low by done. by destruct (cmp_bytes k k').
Qed.

Lemma put_node k v o : low k → Low (Node o) →
  bt_insert k (node_of v) (nodes_of o) = (option_map node_of (put k v o).1, nodes_of (put k v o).2).
Proof.
  intros Hk Ho%Low_children. induction Ho as [|[k' v'] o [Hk' _] _ IH]; [done|]. cbn in *.
  rewrite key_cmp_low by done. destruct (cmp_bytes k k'); [done..|]. rewrite IH. by destruct (put k v o).
Qed.

Lemma put_low k v o : low k → Low v → Low (Node o) → Low (Node (put k v o).2).
Proof.
  intros Hk Hv Ho. apply Low_children. apply Low_children in Ho. induction Ho as [|[k' v'] o H' Ho IH]; cbn.
  - by repeat constructor.
  - destruct (cmp_bytes k k'); cbn; [constructor; [split; [apply H'|done]|done]|constructor; [done|by constructor]|].
    destruct (put k v o). cbn in *. by constructor.
Qed.

Lemma get_low k o v : Low (Node o) → get k o = Some v → Low v.
Proof.
  intros Ho%Low_children. induction Ho as [|[k' v'] o [_ H'] Ho IH]; [done|]. cbn.
  destruct (cmp_bytes k k'); [by intros [= <-]|done|done].
Qed.

Lemma insert_cons o seg seg2 rest value :
  insert o (seg :: seg2 :: rest) value =
  match default (Node []) (get seg o) with
  | Leaf _ => Err InvalidConversion
  | Node child => let? child' := insert child (seg2 :: rest) value in Ok (put seg (Node child') o).2
  end.
Proof. done. Qed.

Lemma insert_node value segs : ∀ o, Forall low segs → Low (Node o) →
  match insert o segs value with
  | Ok o' => insert_json_value (nodes_of o) segs value = Ok (nodes_of o') ∧ Low (Node o')
  | Err e => e = InvalidConversion ∧ insert_json_value (nodes_of o) segs value = Err invalid_subtree
  end.
Proof.
  induction segs as [|seg segs IH]; intros o Hs Ho; [done|]. apply Forall_cons in Hs as [Hseg Hs].
  destruct segs as [|seg2 segs].
  - cbn. change (JString value) with (node_of (Leaf value)). rewrite put_node by done.
    pose proof (put_low seg (Leaf value) o Hseg (Low_leaf _) Ho) as Hl.
    destruct (put seg (Leaf value) o) as [[old|] o']; cbn; done.
  - rewrite insert_cons, insert_json_value_cons, get_node by done.
    assert (∀ child, Low (Node child) →
      match (let? child' := insert child (seg2 :: segs) value in Ok (put seg (Node child') o).2) with
      | Ok o' =>
          match insert_json_value (nodes_of child) (seg2 :: segs) value with
          | Ok child' => Ok (bt_insert seg (JObject child') (nodes_of o)).2
          | Err e => Err e
          end = Ok (nodes_of o') ∧ Low (Node o')
      | Err e => e = InvalidConversion ∧
          match insert_json_value (nodes_of child) (seg2 :: segs) value with
          | Ok child' => Ok (bt_insert seg (JObject child') (nodes_of o)).2
          | Err e => Err e
          end = Err invalid_subtree
      end) as Hchild.
    { intros child Hc. specialize (IH child Hs Hc). destruct (insert child _ value) as [child'|e]; cbn [and_then].
      - destruct IH as [-> Hl]. change (JObject (nodes_of child')) with (node_of (Node child')).
        rewrite put_node by done. split; [done|]. by apply put_low.
      - destruct IH as [-> ->]. done. }
    destruct (get seg o) as [[text|child]|] eqn:Eg; cbn; [done| |].
    + apply Hchild. by eapply get_low.
    + apply (Hchild []). by constructor.
Qed.

Definition folded (p : ConfigPath) : ConfigPath := mkPath (Path.fold p).

Lemma fold_folded p : Path.fold (folded p) = Path.fold p.
Proof. apply to_ascii_lowercase_idem. Qed.

Lemma low_split c s : lower_byte c = c → low s → Forall low (split c s).
Proof.
  intros Hc. unfold low. induction s as [|x s IH]; cbn [split]; intros Hs; [by repeat constructor|].
  cbn in Hs. injection Hs as Hx Hs. specialize (IH Hs).
  destruct (bool_decide _); [by constructor|]. destruct (split c s) as [|h l]; cbn in *.
  - constructor; [|done]. cbn. by rewrite Hx.
  - apply Forall_cons in IH as [Hh Hl]. constructor; [|done]. change (lower_byte x :: to_ascii_lowercase h = x :: h). by rewrite Hx, Hh.
Qed.

Lemma low_trim c s : low s → low (trim_start_matches c s).
Proof.
  unfold low. induction s as [|x s IH]; [done|]. cbn. intros Hs. injection Hs as Hx Hs.
  destruct (bool_decide _); [by apply IH|]. change (lower_byte x :: to_ascii_lowercase s = x :: s). by f_equal.
Qed.

Lemma low_drop n s : low s → low (drop n s).
Proof. unfold low. intros Hs. by rewrite to_ascii_lowercase_drop, Hs. Qed.

Lemma relative_segments_json root p :
  match relative_segments root p with
  | Ok segs => json_segments (folded root) (folded p) = Ok segs ∧ Forall low segs
  | Err e => e = InvalidConversion ∧ json_segments (folded root) (folded p) = Err invalid_subtree
  end.
Proof.
  unfold relative_segments, json_segments, folded, Path.as_str. cbn [path].
  assert (low (Path.fold p)) as Hp by apply to_ascii_lowercase_idem.
  set (R := Path.fold root). set (P := Path.fold p) in *. case_bool_decide.
  { split; [done|]. apply low_split; [done|]. by apply low_trim. }
  destruct (strip_prefix R P) as [suffix|] eqn:E1; cbn [mbind option_bind].
  - apply strip_prefix_spec in E1. destruct (strip_prefix "/" suffix) as [rel|] eqn:E2; cbn [ok_or and_then].
    + apply strip_prefix_spec in E2. subst suffix. rewrite E1, take_app_length, length_app, lookup_app_r, Nat.sub_diag by lia.
      rewrite (proj2 (Nat.ltb_lt _ _)) by (cbn; lia).
      rewrite (proj2 (eq_ignore_ascii_case_spec R R)) by done. cbn [app lookup list_lookup]. rewrite bool_decide_eq_true_2 by done.
      cbn [andb]. rewrite <- drop_drop, drop_app_length. split; [done|]. apply low_split; [done|].
      change rel with (drop 1 ("/" ++ rel)). rewrite <- (drop_app_length R ("/" ++ rel)), <- E1. by apply low_drop, low_drop.
    + split; [done|]. rewrite E1. rewrite lookup_app_r, Nat.sub_diag by lia.
      destruct (bool_decide (_ = Some "/"%char)) eqn:Eb; [|by rewrite andb_false_r].
      exfalso. apply bool_decide_eq_true in Eb. destruct suffix as [|c s]; [done|]. injection Eb as ->.
      by rewrite (proj2 (strip_prefix_spec "/" ("/"%char :: s) s)) in E2.
  - cbn [ok_or and_then]. split; [done|]. destruct (_ && _) eqn:Eb; [|done]. exfalso.
    apply andb_true_iff in Eb as [[_ Eb]%andb_true_iff _]. apply eq_ignore_ascii_case_spec in Eb.
    assert (to_ascii_lowercase R = R) as HR by apply to_ascii_lowercase_idem.
    rewrite to_ascii_lowercase_take, Hp, HR in Eb.
    assert (strip_prefix R P = Some (drop (length R) P)) as Hx by (apply strip_prefix_spec; by rewrite <- Eb at 1; rewrite take_drop).
    congruence.
Qed.

(** A value under its folded path with its text in the open. *)
Definition open_value (p : ConfigPath) (text : bytes) : SubTreeValue :=
  mkSubTreeValue (folded p) (ContentPlain (mkPlainValue text)).

Lemma is_at_or_below_folded p r : Path.is_at_or_below (folded p) (folded r) = Path.is_at_or_below p r.
Proof. apply eq_true_iff_eq. rewrite !Path.is_at_or_below_spec. by rewrite !fold_folded. Qed.

Lemma eq_folded p r : Path.eq (folded p) (folded r) = Path.eq p r.
Proof. apply eq_true_iff_eq. rewrite !Path.eq_spec. unfold equiv, Path.path_equiv. by rewrite !fold_folded. Qed.

Lemma build_step_json root revealed o ex v text :
  leaf_text v revealed = Ok text → Low (Node o) →
  match build_step root revealed (o, ex) v with
  | Ok (o', ex') => render_step (folded root) (nodes_of o, ex) (open_value (stv_path v) text) = Ok (nodes_of o', ex')
                    ∧ Low (Node o')
  | Err e => e = InvalidConversion
             ∧ render_step (folded root) (nodes_of o, ex) (open_value (stv_path v) text) = Err invalid_subtree
  end.
Proof.
  intros Ht Ho. unfold build_step, render_step. rewrite Ht. cbn [stv_path stv_value open_value and_then display_text expose_plain].
  rewrite is_at_or_below_folded, eq_folded.
  assert (bool_decide (Path.as_str (folded (stv_path v)) = "/") = bool_decide (Path.as_str (stv_path v) = "/")) as ->.
  { apply bool_decide_ext. unfold Path.as_str, folded. cbn [path]. apply Path.fold_root_iff. }
  destruct (_ || _); [done|]. destruct (Path.eq (stv_path v) root); [by destruct ex|].
  pose proof (relative_segments_json root (stv_path v)) as Hr.
  destruct (relative_segments root (stv_path v)) as [segs|e]; destruct Hr as [Hr Hl]; [|subst e; by rewrite Hl].
  rewrite Hr. cbn [and_then]. pose proof (insert_node text segs o Hl Ho) as Hi.
  destruct (insert o segs text) as [o'|e]; destruct Hi as [Hi Hlo]; [by rewrite Hi|subst e; by rewrite Hlo].
Qed.

Lemma build_steps_json root revealed values texts : ∀ o ex,
  Forall2 (λ v text, leaf_text v revealed = Ok text) values texts → Low (Node o) →
  match fold_result (build_step root revealed) (o, ex) values with
  | Ok (o', ex') =>
      fold_result (render_step (folded root)) (nodes_of o, ex) (zip_with (λ v, open_value (stv_path v)) values texts)
      = Ok (nodes_of o', ex') ∧ Low (Node o')
  | Err e => e = InvalidConversion ∧
      fold_result (render_step (folded root)) (nodes_of o, ex) (zip_with (λ v, open_value (stv_path v)) values texts)
      = Err invalid_subtree
  end.
Proof.
  intros o ex Hv. revert o ex. induction Hv as [|v text values texts Ht _ IH]; intros o ex Ho; [done|]. cbn [zip_with fold_result].
  pose proof (build_step_json root revealed o ex v text Ht Ho) as Hs.
  destruct (build_step root revealed (o, ex) v) as [[o' ex']|e]; destruct Hs as [Hs Hl]; [|subst e; by rewrite Hl].
  rewrite Hs. by apply IH.
Qed.

(** Nesting values agrees with rendering them, texts in the open and paths
    folded. *)
Lemma build_tree_renders root values revealed texts :
  Forall2 (λ v text, leaf_text v revealed = Ok text) values texts →
  match build_tree root values revealed with
  | Ok t => render_node (folded root) (zip_with (λ v, open_value (stv_path v)) values texts) = Ok (node_of t) ∧ Low t
  | Err e => e = InvalidConversion
             ∧ render_node (folded root) (zip_with (λ v, open_value (stv_path v)) values texts) = Err invalid_subtree
  end.
Proof.
  intros Hv. unfold build_tree, render_node.
  pose proof (build_steps_json root revealed values texts [] None Hv (Low_node [] (List.Forall_nil _))) as Hs.
  destruct (fold_result (build_step _ _) _ values) as [[o ex]|e]; cbn [and_then]; destruct Hs as [Hs Hl];
    [|subst e; cbn [List.map] in Hl; by rewrite Hl].
  cbn [List.map] in Hs. rewrite Hs. destruct ex as [text|]; [|done].
  destruct o; cbn; [split; [done|constructor]|done].
Qed.

(** ** A tree is its leaves *)

Fixpoint tree_leaves (t : Tree) : list (list bytes * bytes) :=
  match t with
  | Leaf text => [([], text)]
  | Node o => flat_map (λ kv, List.map (λ l, (kv.1 :: l.1, l.2)) (tree_leaves kv.2)) o
  end.

(** The leaves under their absolute segments. *)
Definition tree_items (root : ConfigPath) (t : Tree) : list (list bytes * bytes) :=
  List.map (λ l, (key root ++ l.1, l.2)) (tree_leaves t).

Lemma Tree_nested_ind (P : Tree → Prop) :
  (∀ s, P (Leaf s)) → (∀ o, Forall (λ kv, P kv.2) o → P (Node o)) → ∀ t, P t.
Proof.
  intros Hs Ho. fix IH 1. intros [s|o]; [apply Hs|]. apply Ho.
  induction o as [|[k n] o IHo]; constructor; [apply IH|apply IHo].
Qed.

Lemma leaves_node t : Low t → leaves (node_of t) = tree_leaves t.
Proof.
  induction t as [s|o IH] using Tree_nested_ind; intros Hl; [done|]. apply Low_children in Hl.
  cbn [node_of]. rewrite leaves_object. cbn [tree_leaves].
  induction o as [|[k v] o IHo]; [done|]. apply Forall_cons in IH as [IHv IH], Hl as [[Hk Hv] Hl]. cbn.
  rewrite IHo by done. f_equal. cbn [fst snd] in *. rewrite IHv by done. apply List.map_ext. intros l.
  change (List.map lower_byte k) with (to_ascii_lowercase k). unfold low in Hk. by rewrite Hk.
Qed.

Import Layers.

Definition stored_item (e : StoredValue) : list bytes * bytes := (key (sv_path e), sv_text e).

(** Nesting stored values keeps every one of them, where it was and as it is;
    it is refused only of values that no tree can hold. *)
Lemma build_tree_exact root es revealed_ :
  Path.Canonical (path root) → Forall (λ e, Path.Canonical (path (sv_path e))) es →
  Forall (λ e, sv_secret e = true → revealed_ !! Path.fold (sv_path e) = Some (revealed e)) es →
  match build_tree root (List.map masked es) revealed_ with
  | Ok t => tree_items root t ≡ₚ List.map stored_item es
  | Err e => e = InvalidConversion
             ∧ ¬ (Forall (λ e, path (sv_path e) ≠ "/" ∧ Path.is_at_or_below (sv_path e) root = true) es
                  ∧ ForallOrdPairs no_conflict (List.map (λ e, key (sv_path e)) es))
  end.
Proof.
  intros Hroot Hes Hrev.
  assert (Forall2 (λ v text, leaf_text v revealed_ = Ok text) (List.map masked es) (List.map sv_text es)) as H2.
  { clear Hes. induction Hrev as [|e es He _ IH]; [constructor|]. cbn. constructor; [|done]. unfold leaf_text, masked. cbn.
    destruct (sv_secret e); cbn; [|done]. by rewrite He. }
  pose proof (build_tree_renders root _ _ _ H2) as Hb.
  assert (zip_with (λ v, open_value (stv_path v)) (List.map masked es) (List.map sv_text es)
          = List.map (λ e, open_value (sv_path e) (sv_text e)) es) as Hz by (clear; induction es; cbn; congruence).
  rewrite Hz in Hb. set (vs := List.map (λ e, open_value (sv_path e) (sv_text e)) es) in *.
  assert (Path.Canonical (path (folded root))) as Hr' by (by apply Path.Canonical_lower).
  assert (Forall (λ v, Path.Canonical (path (stv_path v))) vs) as Hvs.
  { unfold vs. apply Forall_map_iff. eapply Forall_impl; [exact Hes|]. intros e He. by apply Path.Canonical_lower. }
  pose proof (render_is_exact (folded root) vs Hr' Hvs) as Hex.
  assert (∀ p, key (folded p) = key p) as Hkey by (intros p; unfold key; by rewrite fold_folded).
  destruct (build_tree root (List.map masked es) revealed_) as [t|e].
  - destruct Hb as [Hb Hl]. rewrite Hb in Hex. destruct Hex as (_ & _ & Hp & _).
    unfold doc_items in Hp. rewrite leaves_node, Hkey in Hp by done. unfold tree_items. rewrite Hp.
    unfold vs. rewrite List.map_map. apply reflexive_eq, List.map_ext. intros e. unfold item, stored_item. cbn.
    by rewrite Hkey.
  - destruct Hb as [-> Hb]. rewrite Hb in Hex. destruct Hex as [_ Hex]. split; [done|]. intros [H1 Hc]. apply Hex.
    unfold Representable, vs. split.
    + apply Forall_map_iff. eapply Forall_impl; [exact H1|]. intros e [He Hbelow]. unfold in_range. cbn [stv_path open_value].
      rewrite is_at_or_below_folded. split; [|done]. unfold folded. cbn [path]. by rewrite Path.fold_root_iff.
    + rewrite List.map_map. erewrite List.map_ext; [exact Hc|]. intros e. cbn. by rewrite Hkey.
Qed.

(** ** What a load returns *)

(** What the service promises a provider, on every transport: answers are about
    the tree, which neither reads nor handshakes change; its paths are canonical
    and none lies at or above another. *)
Class LoadLaws {W T : Type} `{Handshake W, TreeView W}
    (get_subtree : T → ConfigPath → Secret → W → result ValueSubTree ClientError * W)
    (reveal_secret : T → ConfigPath → Secret → W → result RevealedSecret ClientError * W) : Prop := {
  load_subtree_law t p tok w :
    tree (get_subtree t p tok w).2 = tree w
    ∧ ∀ sub, (get_subtree t p tok w).1 = Ok sub →
        vst_values sub = List.map masked (List.filter (λ e, Path.is_at_or_below (sv_path e) p) (tree w));
  load_reveal_law t p tok w :
    tree (reveal_secret t p tok w).2 = tree w
    ∧ ∀ v, (reveal_secret t p tok w).1 = Ok v →
        ∃ e, e ∈ tree w ∧ Path.fold (sv_path e) = Path.fold p ∧ v = revealed e;
  load_handshake_law vs w : tree (served_versions vs w).2 = tree w;
  load_legacy_law w : tree (legacy_version w).2 = tree w;
  load_canonical w e : e ∈ tree w → Path.Canonical (path (sv_path e)) ∧ path (sv_path e) ≠ "/";
  load_distinct w : NoDup (List.map (λ e, Path.fold (sv_path e)) (tree w));
  load_separate w : ForallOrdPairs no_conflict (List.map (λ e, key (sv_path e)) (tree w)) }.

Section load.
Context {W T : Type} `{Handshake W, TreeView W} (speaking : Protocol.ProtocolVersion → T).
Context {get_subtree : T → ConfigPath → Secret → W → result ValueSubTree ClientError * W}.
Context {reveal_secret : T → ConfigPath → Secret → W → result RevealedSecret ClientError * W}.
Context `{!LoadLaws get_subtree reveal_secret}.
Implicit Types s : Sessions.Session W T.
Abbreviation tree_of s := (tree (Sessions.connection s)).

Lemma load_distinct_value (w : W) a b : a ∈ tree w → b ∈ tree w →
  Path.fold (sv_path a) = Path.fold (sv_path b) → a = b.
Proof.
  intros Ha Hb E. apply list_elem_of_lookup in Ha as [i Hi], Hb as [j Hj].
  assert (i = j) as ->; [|congruence].
  eapply (NoDup_lookup (List.map (λ e, Path.fold (sv_path e)) (tree w))); [apply load_distinct|..].
  - apply list_lookup_fmap_Some. by exists a.
  - apply list_lookup_fmap_Some. by exists b.
Qed.

(** What was revealed is stored. *)
Definition right (l : list StoredValue) (m : gmap bytes RevealedSecret) : Prop :=
  ∀ k v, m !! k = Some v → ∃ e, e ∈ l ∧ Path.fold (sv_path e) = k ∧ v = revealed e.

Lemma reveal_all_run t tok es : ∀ m s r s',
  Forall (λ e, e ∈ tree_of s) es → right (tree_of s) m →
  run (reveal_all reveal_secret t tok (List.map masked es) m) s = (r, s') →
  tree_of s' = tree_of s
  ∧ ∀ m', r = Ok m' → right (tree_of s) m'
      ∧ (∀ k, is_Some (m !! k) → is_Some (m' !! k))
      ∧ Forall (λ e, sv_secret e = true → is_Some (m' !! Path.fold (sv_path e))) es.
Proof.
  induction es as [|e es IH]; intros m s r s' Hes Hm; cbn [List.map reveal_all].
  { intros [= <- <-]. split; [done|]. intros m' [= <-]. done. }
  apply Forall_cons in Hes as [He Hes]. cbn [stv_value stv_path masked]. destruct (sv_secret e) eqn:Es.
  - unfold flow_try. rewrite run_bind. cbn [run act Sessions.over fst snd].
    destruct (load_reveal_law t (sv_path e) tok (Sessions.connection s)) as [Ht Hv].
    destruct (reveal_secret t (sv_path e) tok (Sessions.connection s)) as [[v|err] w]; cbn [fst snd] in *.
    + intros (Ht' & Hr)%IH; cbn [Sessions.connection] in *.
      2:{ by rewrite Ht. }
      2:{ rewrite Ht. intros k v'. destruct (decide (Path.fold (sv_path e) = k)) as [<-|Hk].
          - rewrite lookup_insert_eq. intros [= <-]. apply Hv. done.
          - rewrite lookup_insert_ne by done. apply Hm. }
      rewrite Ht in *. split; [done|]. intros m' Em. destruct (Hr m' Em) as (H1 & H2 & H3).
      split; [done|]. split.
      * intros k Hk. apply H2. destruct (decide (Path.fold (sv_path e) = k)) as [<-|Hk'];
          [by rewrite lookup_insert_eq|by rewrite lookup_insert_ne].
      * constructor; [|done]. intros _. apply H2. by rewrite lookup_insert_eq.
    + intros [= <- <-]. done.
  - intros (Ht' & Hr)%IH; [|done..]. split; [done|]. intros m' Em. destruct (Hr m' Em) as (H1 & H2 & H3).
    split; [done|]. split; [done|]. constructor; [|done]. by rewrite Es.
Qed.

(** What one read of the tree answers. *)
Definition good (l : list StoredValue) (root : ConfigPath)
    (r : result (ValueSubTree * gmap bytes RevealedSecret) ClientError) : Prop :=
  ∀ sub m, r = Ok (sub, m) →
    let es := List.filter (λ e, Path.is_at_or_below (sv_path e) root) l in
    vst_values sub = List.map masked es
    ∧ Forall (λ e, sv_secret e = true → m !! Path.fold (sv_path e) = Some (revealed e)) es.

Lemma read_tree_run root tok t s :
  let r := run (read_tree get_subtree reveal_secret root tok t) s in
  tree_of r.2 = tree_of s ∧ good (tree_of s) root r.1.
Proof.
  unfold read_tree, flow_try. rewrite run_bind. cbn [run act Sessions.over fst snd].
  destruct (load_subtree_law t root tok (Sessions.connection s)) as [Ht Hsub].
  destruct (get_subtree t root tok (Sessions.connection s)) as [[sub|e] w]; cbn [fst snd run] in *; [|done].
  specialize (Hsub sub eq_refl). rewrite run_bind, Hsub.
  set (es := List.filter (λ e, Path.is_at_or_below (sv_path e) root) (tree_of s)) in *.
  assert (Forall (λ e, e ∈ tree_of s) es) as Hes.
  { apply Forall_forall. intros e [He _]%list_elem_of_In%filter_In. by apply list_elem_of_In. }
  set (s1 := Sessions.mkSession w (Sessions.state s)). destruct (run (reveal_all _ _ _ _ _) s1) as [r s2] eqn:Er.
  apply reveal_all_run in Er as [Ht' Hr]; [|cbn; by rewrite Ht|done].
  cbn [fst snd]. change (tree_of s1) with (tree w) in *. rewrite Ht in *. split; [by destruct r|].
  intros sub' m. destruct r as [m'|]; cbn; [|done]. intros [= <- <-]. destruct (Hr m' eq_refl) as (H1 & _ & H3).
  split; [done|]. apply Forall_forall. intros e He Es. rewrite Forall_forall in H3, Hes.
  destruct (H3 e He Es) as [v Hv]. rewrite Hv. destruct (H1 _ _ Hv) as (e' & He' & Hf & ->).
  by rewrite (load_distinct_value (Sessions.connection s) e' e); [|done|apply Hes|].
Qed.

(** A call keeps what its operation and the handshake keep. *)
Lemma call_run {R} (operation : T → Flow (Sessions.Session W T) (result R ClientError))
    (P : list StoredValue → result R ClientError → Prop) s :
  (∀ t s, tree_of (run (operation t) s).2 = tree_of s ∧ P (tree_of s) (run (operation t) s).1) →
  (∀ e l, P l (Err e)) →
  let r := run (Sessions.call speaking operation) s in tree_of r.2 = tree_of s ∧ P (tree_of s) r.1.
Proof.
  intros Hop He. unfold Sessions.call. rewrite run_bind. cbn [run act Sessions.take_transport fst snd].
  rewrite run_bind. destruct (Hop (Sessions.transport (Sessions.state s)) s) as [Ht HP].
  destruct (run (operation _) s) as [[a|e] s1]; cbn [fst snd run] in *; [done|].
  destruct (bool_decide _); [|done]. unfold flow_try. rewrite run_bind.
  assert (tree_of (run (Sessions.renegotiate speaking) s1).2 = tree_of s1) as Hn.
  { assert (PreOrder (λ a b : Sessions.Session W T, tree_of b = tree_of a)) by (split; [done|intros ???; congruence]).
    apply (run_steps (λ a b : Sessions.Session W T, tree_of b = tree_of a)).
    apply all_steps_try; [|intros status; by split].
    apply Sessions.negotiate_steps; intros; cbn; [apply load_handshake_law|apply load_legacy_law]. }
  destruct (run (Sessions.renegotiate speaking) s1) as [[t|e'] s2]; cbn [fst snd run] in *;
    [|split; [congruence|done]].
  destruct (Hop t s2) as [Ht2 HP2]. rewrite Hn, Ht in *. done.
Qed.

(** C24: loading returns exactly the configuration stored at or below the
    connection's root, every value under its folded path with its real text,
    secrets revealed and plain ones as stored; it never fails to nest what is
    stored, so any error is one of a call's; and it changes nothing, also where
    the session negotiates again on the way. *)
Theorem load_returns_the_stored_tree root tok s :
  Path.Canonical (path root) →
  let r := run (load_with speaking get_subtree reveal_secret root tok) s in
  tree_of r.2 = tree_of s
  ∧ match r.1 with
    | Ok t => tree_items root t
              ≡ₚ List.map stored_item (List.filter (λ e, Path.is_at_or_below (sv_path e) root) (tree_of s))
    | Err e => ∃ error, e = from_client_error error ∧ e ≠ InvalidConversion
    end.
Proof.
  intros Hroot. unfold load_with. rewrite run_bind. cbn [run fst snd].
  destruct (call_run (read_tree get_subtree reveal_secret root tok) (λ l r, good l root r) s) as [Ht Hg];
    [apply read_tree_run|done|].
  split; [done|]. destruct (run (Sessions.call _ _) s).1 as [[sub m]|e].
  - destruct (Hg sub m eq_refl) as [-> Hm]. set (es := List.filter _ _) in *.
    assert (∀ e, e ∈ es → e ∈ tree_of s ∧ Path.is_at_or_below (sv_path e) root = true) as Hes.
    { intros e [He Hb]%list_elem_of_In%filter_In. split; [by apply list_elem_of_In|done]. }
    pose proof (build_tree_exact root es m Hroot) as Hb.
    destruct (build_tree root (List.map masked es) m) as [t|e].
    + apply Hb; [|done]. apply Forall_forall. intros e [He _]%Hes. by apply load_canonical in He as [? _].
    + exfalso. destruct Hb as [_ Hb]; [|done|].
      { apply Forall_forall. intros x [Hx _]%Hes. by apply load_canonical in Hx as [? _]. }
      apply Hb. split.
      * apply Forall_forall. intros x [Hx ?]%Hes. by apply load_canonical in Hx as [_ ?].
      * unfold es. apply FOP_map. eapply FOP_sublist; [apply filter_sublist|]. rewrite <- FOP_map. apply load_separate.
  - exists e. split; [done|]. unfold from_client_error. by destruct (kind e).
Qed.
End load.

(** A managed credential goes to its issuer and nowhere else: every request
    made to acquire a token is to a URL of the issuer's own origin, which is
    reached over TLS or on this machine, whatever the issuer's discovery
    document says; and a token acquired is not empty. *)
Theorem credentials_stay_with_the_issuer `{UrlCrates, Oidc.OidcCrates, !Oidc.OidcLaws} self net :
  let r := access_token self net in
  (∃ l, sent r.2 = sent net ++ l ∧ Forall (λ q, Oidc.of_issuer (tp_issuer self) (request_url q)) l)
  ∧ ∀ o, r.1 = Done (Ok o) → ∃ t, o = Some t ∧ expose_secret t ≠ [].
Proof.
  assert (Oidc.asks (λ q, Oidc.of_issuer (tp_issuer self) (request_url q)) (access_token self)
    (λ o, ∃ t, o = Some t ∧ expose_secret t ≠ [])) as H2; [|apply H2].
  eapply Oidc.asks_bind; [apply Oidc.discover_asks|]. intros c [[Hc _] _].
  eapply Oidc.asks_bind; [eapply Oidc.asks_mono; [apply Oidc.client_credentials_asks|by intros q ->|done]|].
  intros t [Ht _]. apply Oidc.asks_ret. intros o [= <-]. eauto.
Qed.

(** *** A provider of a small tree, and the issuer it asks *)

Definition sample_tree : list StoredValue :=
  [mkStoredValue (mkPath "/Apps/api/Database/password") "pw" true;
   mkStoredValue (mkPath "/Apps/api/feature") "on" false;
   mkStoredValue (mkPath "/Apps/other") "x" false].

#[local] Instance sample_view : TreeView unit := λ _, sample_tree.
#[local] Instance sample_handshake : Handshake unit := {|
  served_versions _ s := (Ok [Sessions.undated "v5"], s);
  legacy_version s := (Err (map_rpc_status RpcUnimplemented), s) |}.

Definition sample_get (_ : unit) (p : ConfigPath) (_ : Secret) (w : unit) : result ValueSubTree ClientError * unit :=
  (Ok (mkValueSubTree (List.map masked (List.filter (λ e, Path.is_at_or_below (sv_path e) p) sample_tree))), w).

Definition sample_reveal (_ : unit) (p : ConfigPath) (_ : Secret) (w : unit) : result RevealedSecret ClientError * unit :=
  (match List.find (λ e, bool_decide (Path.fold (sv_path e) = Path.fold p)) sample_tree with
   | Some e => Ok (revealed e)
   | None => Err (map_rpc_status RpcNotFound)
   end, w).

#[local] Instance sample_load_laws : LoadLaws sample_get sample_reveal.
Proof.
  split; try done.
  - intros t p tok w. split; [done|]. by intros sub [= <-].
  - intros t p tok w. split; [done|]. unfold sample_reveal. intros v.
    destruct (List.find _ sample_tree) as [e|] eqn:E; [|done]. intros [= <-].
    apply find_some in E as [He Ee%bool_decide_eq_true]. exists e. split; [by apply list_elem_of_In|done].
  - intros w. apply Forall_forall. repeat constructor; try (apply Path.canonical_check; vm_compute; reflexivity); done.
  - intros w. apply (bool_decide_unpack _). vm_compute. exact I.
  - intros w. repeat constructor; intros [H|H]; apply (bool_decide_pack _) in H; by vm_compute in H.
Qed.

Definition sample_session : Sessions.Session unit unit :=
  Sessions.mkSession tt (Sessions.mkSessionState Protocol.V5 None tt).

Definition sample_root : ConfigPath := mkPath "/apps/api".
Definition sample_load : result Tree ProviderError * Sessions.Session unit unit :=
  run (load_with (λ _, tt) sample_get sample_reveal sample_root (mkSecret "t")) sample_session.

Lemma load_returns_the_stored_tree_witness :
  match sample_load.1 with
  | Ok t => tree_items sample_root t ≡ₚ
      [(["apps"; "api"; "database"; "password"], "pw"); (["apps"; "api"; "feature"], "on")]
  | Err _ => False
  end.
Proof.
  assert (is_ok sample_load.1 = true) as Hok by (vm_compute; reflexivity).
  assert (Path.Canonical (path sample_root)) as Hroot by (apply Path.canonical_check; vm_compute; reflexivity).
  destruct (load_returns_the_stored_tree (λ _, tt) sample_root (mkSecret "t") sample_session Hroot) as [_ Hl].
  change (run _ sample_session) with sample_load in Hl. destruct sample_load.1 as [t|e]; [|discriminate Hok].
  exact Hl.
Defined.

Example sample_nested : sample_load.1
  = Ok (Node [("database", Node [("password", Leaf "pw")]); ("feature", Leaf "on")]).
Proof. vm_compute. reflexivity. Qed.

Import SampleUrl.

#[local] Instance sample_oidc : Oidc.OidcCrates := {|
  Oidc.url_join u _ := Some u;
  Oidc.discovery_from_slice b := Some (Oidc.mkDiscovery None b);
  Oidc.device_from_slice _ := None;
  Oidc.token_from_slice b := Some (Oidc.mkTokenResponse b None (Some 300%Z));
  Oidc.oauth_error_from_slice b := Some (Oidc.mkOAuthError b) |}.

#[local] Instance sample_oidc_laws : Oidc.OidcLaws.
Proof. intros base u [= <-]. done. Qed.

Definition sample_provider : ManagedTokenProvider :=
  mkTokenProvider "https://id.test/o/" "client" (mkSecret "credential").

(** Discovery that names an endpoint of the issuer, and one that does not. *)
Definition sample_net (endpoint : bytes) : Net :=
  mkNet [] (λ l, Some (mkHttpResponse 200 None (Some (if length l =? 1 then endpoint else "token")))) (λ _, 0%N) 0 true.

Lemma credentials_stay_with_the_issuer_witness :
  ∃ l, sent (access_token sample_provider (sample_net "https://id.test/t")).2 = l
    ∧ Forall (λ q, Oidc.of_issuer "https://id.test/o/" (request_url q)) l.
Proof.
  destruct (credentials_stay_with_the_issuer sample_provider (sample_net "https://id.test/t")) as [(l & E & Hl) _].
  exists l. split; [exact E|exact Hl].
Defined.

Example elsewhere_is_refused :
  (access_token sample_provider (sample_net "https://id.test/t")).1 = Done (Ok (Some (mkSecret "token")))
  ∧ (access_token sample_provider (sample_net "https://other.test/t")).1 = Done (Err Oidc.invalid)
  ∧ length (sent (access_token sample_provider (sample_net "https://other.test/t")).2) = 1.
Proof. vm_compute. by repeat split. Qed.
End Provider.
