(* ===== verification/Client.v ===== *)
(** * The client's operations

    Models the second half of [crates/sovereign-config-client/src/lib.rs]: the
    transport traits as classes of calls that carry a bearer token, and
    [Client], whose every operation acquires a token and makes one call. *)

From stdpp Require Import strings.
From S2P Require Import Prelude Bytes ConfigPath Core Managed Auth Encryption AuditEvent Rpc Database ConnectionUrl AuditQuery LayerReader.

Local Open Scope bytes_scope.

(** ** What managed connections are reported as *)

Record ManagedConnectionMetadata := mkConnectionMetadata {
  cm_connection_id : Managed.ConnectionId; cm_display_name : Managed.DisplayName; cm_root : ConfigPath;
  cm_state : Managed.ManagedConnectionState; cm_permissions : Managed.ManagedPermissions;
  cm_created_at : Stamps.Timestamp; cm_updated_at : Stamps.Timestamp }.

(** With the one-time URL; [RevealedConnectionUrl] wraps a connection. *)
Record ProvisionedManagedConnection := mkProvisionedManaged {
  pm_metadata : ManagedConnectionMetadata; pm_connection_url : Connection.ConnectionUrl }.

Record AuthenticationStatus := mkAuthenticationStatus { authenticated : bool }.

(** ** The transport's calls *)

(** [Transport], and of [ValueTransport] what the reader does not use. *)
Class ValueCalls (S : Type) := {
  get_identity : Secret → S → result AuthenticationStatus ClientError * S;
  list_values : ConfigPath → Secret → S → result ValueListing ClientError * S;
  put_value : ConfigPath → PlainValue → Secret → S → result PutMetadata ClientError * S;
  put_secret : ConfigPath → SecretInput → Secret → S → result PutMetadata ClientError * S;
  replace_subtree : ConfigPath → list SubTreeMutationValue → Secret → S → result ReplaceMetadata ClientError * S;
  delete_values : ConfigPath → bool → Secret → S → result DeleteMetadata ClientError * S;
  add_value_path : ConfigPath → ConfigPath → Secret → S → result AddPathMetadata ClientError * S;
  list_value_paths : ConfigPath → Secret → S → result ValuePaths ClientError * S }.

Class ManagedCalls (S : Type) := {
  list_managed_connections : Secret → S → result (list ManagedConnectionMetadata) ClientError * S;
  create_managed_connection : Managed.DisplayName → ConfigPath → Managed.ManagedPermissions → Secret → S →
    result ProvisionedManagedConnection ClientError * S;
  rotate_managed_connection : Managed.ConnectionId → Secret → S → result ProvisionedManagedConnection ClientError * S;
  revoke_managed_connection : Managed.ConnectionId → Secret → S → result unit ClientError * S }.

Module Client.

Import Layers.

Definition authentication_required : ClientError := mkClientError Core.Unauthenticated "authentication required".

(** [audit_not_available] and [audit_actor_filter_not_available], for the
    transports of versions without them. *)
Definition audit_not_available (version : Protocol.ProtocolVersion) : ClientError :=
  mkClientError Core.IncompatibleProtocol
    ("the audit trail is not available on protocol " ++ Protocol.as_str version).

Definition audit_actor_filter_not_available (version : Protocol.ProtocolVersion) : ClientError :=
  mkClientError Core.IncompatibleProtocol
    ("filtering the audit trail by actor is not available on protocol " ++ Protocol.as_str version).

Section client.
Context {S : Type} `{ValueTransport S} `{InvalidatableToken S} `{ValueCalls S} `{ManagedCalls S}.

Definition required_token : Call Secret := λ s,
  match access_token s with
  | (Ok (Some t), s') => (Ok t, s')
  | (Ok None, s') => (Err authentication_required, s')
  | (Err e, s') => (Err e, s')
  end.

Definition authentication_status : Call AuthenticationStatus := try required_token get_identity.

Definition client_list_values (path : ConfigPath) : Call ValueListing := try required_token (list_values path).
Definition client_get_subtree (path : ConfigPath) : Call ValueSubTree := try required_token (get_subtree path).
Definition client_put_value (path : ConfigPath) (value : PlainValue) : Call PutMetadata :=
  try required_token (put_value path value).
Definition client_put_secret (path : ConfigPath) (value : SecretInput) : Call PutMetadata :=
  try required_token (put_secret path value).
Definition client_replace_subtree (path : ConfigPath) (values : list SubTreeMutationValue) : Call ReplaceMetadata :=
  try required_token (replace_subtree path values).
Definition client_delete_values (path : ConfigPath) (recurse : bool) : Call DeleteMetadata :=
  try required_token (delete_values path recurse).
Definition client_reveal_secret (path : ConfigPath) : Call RevealedSecret := try required_token (reveal_secret path).
Definition client_add_value_path (source new_path : ConfigPath) : Call AddPathMetadata :=
  try required_token (add_value_path source new_path).
Definition client_list_value_paths (path : ConfigPath) : Call ValuePaths := try required_token (list_value_paths path).

Definition client_list_managed : Call (list ManagedConnectionMetadata) := try required_token list_managed_connections.
Definition client_create_managed (name : Managed.DisplayName) (root : ConfigPath)
    (permissions : Managed.ManagedPermissions) : Call ProvisionedManagedConnection :=
  try required_token (create_managed_connection name root permissions).
Definition client_rotate_managed (id : Managed.ConnectionId) : Call ProvisionedManagedConnection :=
  try required_token (rotate_managed_connection id).
Definition client_revoke_managed (id : Managed.ConnectionId) : Call unit :=
  try required_token (revoke_managed_connection id).

(** Revealing what a read masked, value by value; the first refusal ends it. *)
Fixpoint reveal_subtree (values : list SubTreeValue) : Call (list SubTreeValue) :=
  match values with
  | [] => λ s, (Ok [], s)
  | value :: values' =>
      try (match stv_value value with
           | ContentPlain _ => λ s, (Ok value, s)
           | ContentSecret _ =>
               try (client_reveal_secret (stv_path value)) (λ revealed s,
                 (Ok (mkSubTreeValue (stv_path value) (ContentPlain (mkPlainValue (expose_revealed revealed)))), s))
           end) (λ here, try (reveal_subtree values') (λ there s, (Ok (here :: there), s)))
  end.
End client.

(** ** What a revealed read shows *)

Section revealed.
Context {S : Type} `{ReaderLaws S}.
Implicit Types s : S.

Lemma try_run {A B} (m : Call A) (k : A → Call B) s b s' :
  try m k s = (Ok b, s') → ∃ a s1, m s = (Ok a, s1) ∧ k a s1 = (Ok b, s').
Proof. unfold try. destruct (m s) as [[a|] s1]; [eauto|done]. Qed.

Lemma required_token_keeps s r s' : required_token s = (r, s') → tree s' = tree s.
Proof.
  unfold required_token. destruct (access_token s) as [[[t|]|e] s1] eqn:E; intros [= <- <-]; by eapply access_token_law.
Qed.

(** A value in the open. *)
Definition opened (e : StoredValue) : SubTreeValue :=
  mkSubTreeValue (sv_path e) (ContentPlain (mkPlainValue (sv_text e))).

Lemma get_subtree_shows p s sub s' : client_get_subtree p s = (Ok sub, s') →
  tree s' = tree s
  ∧ vst_values sub = List.map masked (List.filter (λ e, Path.is_at_or_below (sv_path e) p) (tree s)).
Proof.
  intros (t & s1 & Ht%required_token_keeps & Hg)%try_run. apply get_subtree_law in Hg as [E Hg]. rewrite Ht in *.
  split; [done|]. by apply Hg.
Qed.

Lemma reveal_shows e s v s' : e ∈ tree s → client_reveal_secret (sv_path e) s = (Ok v, s') →
  tree s' = tree s ∧ v = revealed e.
Proof.
  intros He (t & s1 & Ht%required_token_keeps & Hr)%try_run. apply reveal_law in Hr as [E Hr]. rewrite Ht in *.
  split; [done|]. destruct (Hr v eq_refl) as (e' & He' & Hf & ->). by rewrite (distinct_value s e' e).
Qed.

Lemma reveal_subtree_shows es : ∀ s vs s', Forall (λ e, e ∈ tree s) es →
  reveal_subtree (List.map masked es) s = (Ok vs, s') → tree s' = tree s ∧ vs = List.map opened es.
Proof.
  induction es as [|e es IH]; intros s vs s' Hes; [by intros [= <- <-]|]. apply Forall_cons in Hes as [He Hes].
  cbn [List.map reveal_subtree]. intros (here & s1 & Hh & Hr)%try_run. apply try_run in Hr as (there & s2 & Hr & [= <- <-]).
  assert (tree s1 = tree s ∧ here = opened e) as [E1 ->].
  { revert Hh. cbn [stv_value stv_path masked]. unfold opened. destruct (sv_secret e) eqn:Es.
    - intros (v & s3 & Hv & [= <- <-])%try_run. by apply reveal_shows in Hv as [? ->].
    - intros [= <- <-]. split; [done|]. unfold masked. by rewrite Es. }
  apply IH in Hr as [E2 ->]; [|by rewrite E1]. by rewrite E2, E1.
Qed.
End revealed.
End Client.
