(* ===== verification/Cli.v ===== *)
(** * The command line

    Models [crates/sovereign-config-cli/src]: confinement of paths and the
    acquisition of tokens ([session.rs]), the choice of a connection
    ([connection.rs]), the value commands ([values.rs]) and [render.rs], which
    replaces the process by a command with configuration as its environment.
    What a command prints is its answer. *)

From stdpp Require Import strings.
From S2P Require Import Prelude Bytes ConfigPath Core PlainText Json Managed Auth Encryption AuditEvent Rpc Database AuditTrail ValuePaths ConnectionUrl Flow AuditQuery LayerReader Oidc BrokerSignature PrivateFiles Profiles Client.

Local Open Scope bytes_scope.

Module Cli.

Import Layers Client.

(** An error of the client, or one this program words itself. *)
Inductive CliError := FromClient (e : ClientError) | Bail (message : bytes).

(** ** session.rs *)

Inductive Scope := Exact | Tree.
#[global] Instance Scope_eq_dec : EqDecision Scope.
Proof. solve_decision. Defined.

Definition operation_path (connection : Connection.ConnectionUrl) (path_ : bytes) (scope : Scope)
  : result ConfigPath CliError :=
  let? path_ :=
    match scope with
    | Tree => map_err (Path.parse_selection path_) (λ _, Bail "path must name a configuration subtree")
    | Exact => map_err (Path.parse_operation path_) (λ _, Bail "path must name a configuration value")
    end in
  let root := Path.as_str (Connection.cu_root connection) in
  let fold := Path.fold path_ in
  if negb (bool_decide (root = "/")) && negb (bool_decide (fold = root))
     && negb (match strip_prefix root fold with Some suffix => starts_with suffix "/" | None => false end)
  then Err (Bail "path is outside the selected profile root")
  else Ok path_.

(** The machine a command runs on: its files and its network. *)
Record Host := mkHost { host_fs : Fs; host_net : Net }.

Section tokens.
Context `{UrlCrates} `{Oidc.OidcCrates} `{Crypto} (self : Process).
(** [XDG_STATE_HOME] and [HOME]. *)
Context (xdg_state_home home : option bytes).

Definition HostIo (A : Type) : Type := Host → Outcome A * Host.

Definition on_net {A} (m : Io A) : HostIo A := λ h,
  let '(o, n) := m (host_net h) in (o, mkHost (host_fs h) n).

Definition on_fs {A} (f : Flow Fs (result A ClientError)) : HostIo A := λ h,
  let '(r, fs) := run f (host_fs h) in (Done r, mkHost fs (host_net h)).

Definition host_ret {A} (r : result A ClientError) : HostIo A := λ h, (Done r, h).

Definition host_bind {A B} (m : HostIo A) (k : A → HostIo B) : HostIo B := λ h,
  match m h with
  | (Done (Ok a), h') => k a h'
  | (Done (Err e), h') => (Done (Err e), h')
  | (Panicked, h') => (Panicked, h')
  | (Running, h') => (Running, h')
  end.

Notation "'host!' x := m 'in' k" := (host_bind m (λ x, k))
  (at level 100, x name, m at level 60, k at level 200).

Definition credential_store (connection : Connection.ConnectionUrl) : result FsPath ClientError :=
  let? directory := Credentials.default_credential_directory xdg_state_home home in
  Ok (Credentials.new directory connection).

Definition discover (connection : Connection.ConnectionUrl) : HostIo Oidc.DeviceFlowClient :=
  on_net (Oidc.discover (Connection.issuer connection) (Connection.client_id connection)).

(** [oidc.refresh], dropping the credential the issuer refuses. *)
Definition refreshed (store : FsPath) (oidc : Oidc.DeviceFlowClient) (refresh : Secret)
  : HostIo Oidc.TokenSet := λ h,
  match on_net (Oidc.refresh oidc refresh) h with
  | (Done (Err error), h') =>
      if bool_decide (kind error = Core.Unauthenticated)
      then (host! _ := on_fs (Credentials.delete self store) in host_ret (Err error)) h'
      else (Done (Err error), h')
  | r => r
  end.

Definition maybe_access_token (connection : Connection.ConnectionUrl) : HostIo (option Secret) :=
  match Connection.client_authentication connection with
  | Some authentication =>
      host! oidc := discover connection in
      host! tokens := on_net (Oidc.client_credentials oidc authentication) in
      host_ret (Ok (Some (Oidc.access_token tokens)))
  | None =>
      host! store := host_ret (credential_store connection) in
      host! stored := on_fs (Credentials.load self store) in
      match stored with
      | None => host_ret (Ok None)
      | Some refresh =>
          host! oidc := discover connection in
          host! tokens := refreshed store oidc refresh in
          host! _ := match Oidc.refresh_token tokens with
                     | Some rotated => on_fs (Credentials.store self store rotated)
                     | None => host_ret (Ok tt)
                     end in
          host_ret (Ok (Some (Oidc.access_token tokens)))
      end
  end.

(** [login] of a profile that is not managed, with fuel for its polling: the
    credential stored, or [None] where the provider issued none. *)
Definition login (connection : Connection.ConnectionUrl) (fuel : nat) : HostIo (option Secret) :=
  host! store := host_ret (credential_store connection) in
  host! oidc := discover connection in
  host! authorization := on_net (Oidc.begin oidc) in
  host! tokens := on_net (Oidc.poll oidc authorization fuel) in
  match Oidc.refresh_token tokens with
  | None => host_ret (Ok None)
  | Some refresh =>
      host! _ := on_fs (Credentials.store self store refresh) in
      host_ret (Ok (Some refresh))
  end.

(** The command; [None] where it panics or its polling is cut short. *)
Definition login_command (connection : Connection.ConnectionUrl) (fuel : nat) (h : Host)
  : option (result bytes CliError) * Host :=
  if bool_decide (is_Some (Connection.client_authentication connection))
  then (Some (Err (Bail "profile uses managed authentication")), h)
  else match login connection fuel h with
       | (Done (Ok (Some _)), h') => (Some (Ok "Logged in"), h')
       | (Done (Ok None), h') =>
           (Some (Err (Bail "identity provider did not issue a refresh credential")), h')
       | (Done (Err e), h') => (Some (Err (FromClient e)), h')
       | (Panicked, h') | (Running, h') => (None, h')
       end.

Definition logout (connection : Connection.ConnectionUrl) (h : Host) : result unit CliError * Host :=
  if bool_decide (is_Some (Connection.client_authentication connection))
  then (Err (Bail "profile uses managed authentication"), h)
  else match credential_store connection with
       | Err e => (Err (FromClient e), h)
       | Ok store =>
           let '(r, fs) := run (Credentials.delete self store) (host_fs h) in
           (map_err r FromClient, mkHost fs (host_net h))
       end.
End tokens.

(** ** connection.rs *)

Definition URL_VARIABLE : bytes := "SOVEREIGN_CONFIG_URL".
Definition MAX_CONNECTION_URL_BYTES : nat := 16 * 1024.

Section resolve.
Context `{UrlCrates} `{TomlCrate} (self : Process).

Definition strip_suffix (c : ascii) (s : bytes) : bytes :=
  match rev s with d :: r => if bool_decide (d = c) then rev r else s | [] => s end.

Definition connection_url_invalid : bytes := "connection URL is invalid".

Definition parse_url_text (value : bytes) : result Connection.ConnectionUrl CliError :=
  let value := strip_suffix "013"%char (strip_suffix "010"%char value) in
  if existsb Credentials.line_break value then Err (Bail connection_url_invalid)
  else map_err (Connection.parse value) (λ _, Bail connection_url_invalid).

(** Opening and reading at most so many bytes of a file as text; [None] is any
    failure of that. *)
Definition from_file (read_text : nat → option bytes) (display : bytes) : result Connection.ConnectionUrl CliError :=
  let? contents := ok_or (read_text (MAX_CONNECTION_URL_BYTES + 1))
    (Bail ("connection URL file " ++ display ++ " is unreadable")) in
  if MAX_CONNECTION_URL_BYTES <? length contents
  then Err (Bail ("connection URL file " ++ display ++ " is larger than "
              ++ show_nat MAX_CONNECTION_URL_BYTES ++ " bytes"))
  else map_err (parse_url_text contents)
         (λ _, Bail ("connection URL file " ++ display ++ " is not a connection URL")).

(** The stored profile of a name, or the default one. *)
Definition from_profiles (profile_path : result FsPath ClientError) (name : option bytes) (fs : Fs)
  : result Connection.ConnectionUrl CliError * Fs :=
  match profile_path with
  | Err e => (Err (FromClient e), fs)
  | Ok p => let '(r, fs') := run (Profiles.connection self p name) fs in (map_err r FromClient, fs')
  end.

(** [variable] is [SOVEREIGN_CONFIG_URL]: absent, not Unicode, or text. *)
Definition resolve (profile_path : result FsPath ClientError) (profile : option bytes)
    (url_file : option ((nat → option bytes) * bytes)) (variable : option (option bytes)) (fs : Fs)
  : result Connection.ConnectionUrl CliError * Fs :=
  match profile, url_file, variable with
  | Some name, _, _ => from_profiles profile_path (Some name) fs
  | None, Some (read_text, display), _ => (from_file read_text display, fs)
  | None, None, Some value =>
      (match value with
       | None => Err (Bail (URL_VARIABLE ++ " is not valid UTF-8"))
       | Some value => map_err (parse_url_text value) (λ _, Bail (URL_VARIABLE ++ " is not a valid URL"))
       end, fs)
  | None, None, None => from_profiles profile_path None fs
  end.
End resolve.

(** ** values.rs *)

Inductive OutputFormat := Plain | Json.

Section values.
Context {S : Type} `{ValueTransport S} `{InvalidatableToken S} `{ValueCalls S}.
Context (to_string_pretty : Json.JsonNode → option bytes) (from_str : bytes → option Json.RawJson).

(** A command on an operational client: its output or why there is none. *)
Definition Command : Type := S → result bytes CliError * S.

Definition client {A} (m : Call A) (k : A → Command) : Command := λ s,
  match m s with
  | (Ok a, s') => k a s'
  | (Err e, s') => (Err (FromClient e), s')
  end.

Definition output (r : result bytes ClientError) : Command := λ s, (map_err r FromClient, s).

(** Validation that needs no client comes first. *)
Definition checked {A} (r : result A CliError) (k : A → Command) : Command := λ s,
  match r with Ok a => k a s | Err e => (Err e, s) end.

Definition is_secret (value : SubTreeValue) : bool :=
  match stv_value value with ContentSecret _ => true | ContentPlain _ => false end.

Definition get_exact (connection : Connection.ConnectionUrl) (path_ : bytes) (reveal : bool)
    (format : OutputFormat) : Command :=
  checked (operation_path connection path_ Exact) (λ path_,
    client (client_get_subtree path_) (λ subtree,
      match List.find (λ value, Path.eq (stv_path value) path_) (vst_values subtree) with
      | None => λ s, (Err (Bail "configuration value not found"), s)
      | Some found =>
          client (if reveal && is_secret found
                  then try (client_reveal_secret (stv_path found)) (λ secret s, (Ok (expose_revealed secret), s))
                  else λ s, (Ok (display_text (stv_value found)), s)) (λ text,
            output (match format with
                    | Plain => Ok text
                    | Json => Json.render_subtree_json to_string_pretty path_
                                [mkSubTreeValue path_ (ContentPlain (mkPlainValue text))]
                    end))
      end)).

Definition get_tree (connection : Connection.ConnectionUrl) (path_ : bytes) (reveal : bool)
    (format : OutputFormat) : Command :=
  checked (operation_path connection path_ Tree) (λ path_,
    client (client_get_subtree path_) (λ subtree,
      client (if reveal then reveal_subtree (vst_values subtree) else λ s, (Ok (vst_values subtree), s)) (λ values,
        output (match format with
                | Plain => Plain.render_subtree_plain path_ values
                | Json => Json.render_subtree_json to_string_pretty path_ values
                end)))).

Definition get (connection : Connection.ConnectionUrl) (path_ : bytes) (tree reveal : bool)
    (format : OutputFormat) : Command :=
  if tree then get_tree connection path_ reveal format else get_exact connection path_ reveal format.

Definition scope_of (tree : bool) : Scope := if tree then Tree else Exact.

Definition line (text : bytes) : result bytes ClientError := Ok (text ++ [newline]).

(** Standard input is text, or unreadable. *)
Definition set (connection : Connection.ConnectionUrl) (path_ : bytes) (secret tree : bool)
    (stdin : option bytes) : Command :=
  checked (operation_path connection path_ (scope_of tree)) (λ path_,
    checked (ok_or stdin (Bail (if secret then "secret input is unavailable"
                                else "configuration input is unavailable"))) (λ content,
      if tree then
        client (λ s, (Json.parse_subtree_json from_str path_ content, s)) (λ values,
          client (client_replace_subtree path_ values) (λ _, output (line "Subtree replaced")))
      else if secret then
        client (client_put_secret path_ (mkSecretInput content)) (λ _, output (line "Secret stored"))
      else
        client (client_put_value path_ (mkPlainValue content)) (λ _, output (line "Value stored")))).

(** [terminal]: whether standard input is one, and the line read from it. *)
Definition confirm_deletion (terminal : option (option bytes)) : result unit CliError :=
  match terminal with
  | None => Err (Bail "deletion requires --yes when standard input is not a terminal")
  | Some None => Err (Bail "deletion confirmation is unavailable")
  | Some (Some confirmation) =>
      if bool_decide (collect (rev (drop_while char_is_whitespace (rev (chars confirmation)))) = "delete")
      then Ok tt else Err (Bail "deletion cancelled")
  end.

Definition delete (connection : Connection.ConnectionUrl) (path_ : bytes) (tree yes : bool)
    (terminal : option (option bytes)) : Command :=
  checked (operation_path connection path_ (scope_of tree)) (λ path_,
    checked (if yes then Ok tt else confirm_deletion terminal) (λ _,
      client (client_delete_values path_ tree) (λ _,
        output (line (if tree then "Subtree deleted" else "Value deleted"))))).

Definition fold_parent (fold : bytes) : option bytes :=
  if bool_decide (fold = "/") then None
  else
    parts ← rsplit_once "/"%char fold;
    Some (if is_empty parts.1 then "/" else parts.1).

(** One listed entry: its path, whether it is a namespace, and its text. *)
Definition Entry : Type := ConfigPath * bool * bytes.

Definition entry_le (a b : Entry) : bool :=
  match Path.cmp a.1.1 b.1.1 with
  | Lt => true
  | Gt => false
  | Eq => negb a.1.2 || b.1.2
  end.

Definition direct_children (path_ : ConfigPath) (listing : ValueListing) : list bytes :=
  let selected := Path.fold path_ in
  let values := List.map (λ value, (lv_path value, false, Path.as_str (lv_path value))) (vl_values listing) in
  let namespaces :=
    List.map (λ namespace, (namespace, true, Path.as_str namespace ++ "/"))
      (List.filter (λ namespace, bool_decide (fold_parent (Path.fold namespace) = Some selected)) (vl_paths listing)) in
  List.map snd (sort_by entry_le (values ++ namespaces)).

(** [serde_json::to_string_pretty] of a list of strings, which cannot fail. *)
Context (strings_to_json : list bytes → bytes).

Definition list (connection : Connection.ConnectionUrl) (path_ : bytes) (aliases : bool)
    (format : OutputFormat) : Command :=
  checked (operation_path connection path_ (if aliases then Exact else Tree)) (λ path_,
    client (if aliases
            then try (client_list_value_paths path_) (λ paths s, (Ok (List.map Path.as_str (vp_paths paths)), s))
            else try (client_list_values path_) (λ listing s, (Ok (direct_children path_ listing), s))) (λ entries,
      match format with
      | Plain => output (Ok (flat_map (λ entry, entry ++ [newline]) entries))
      | Json => output (line (strings_to_json entries))
      end)).

Definition alias (connection : Connection.ConnectionUrl) (source_path new_path : bytes) : Command :=
  checked (operation_path connection source_path Exact) (λ source,
    checked (operation_path connection new_path Exact) (λ new_path,
      client (client_add_value_path source new_path) (λ _, output (line "Path added")))).
End values.

(** ** render.rs *)

(** What replaces the process: a program, its arguments and its environment. *)
Record Exec := mkExec { program : bytes; arguments : Datatypes.list bytes; environment : gmap bytes bytes }.

Definition variable_name (leaf : bytes) : result bytes CliError :=
  if negb (is_empty leaf)
     && negb (match leaf with c :: _ => is_ascii_digit c | [] => false end)
     && forallb (λ c, is_ascii_alphanumeric c || bool_decide (c = "_"%char)) leaf
  then Ok leaf
  else Err (Bail ("configuration leaf " ++ Signature.quote leaf
         ++ " cannot be an environment variable name; rename it using only letters, digits and '_', and not starting with a digit")).

Definition exec (inherited : gmap bytes bytes) (values : gmap bytes RevealedSecret) (command : Datatypes.list bytes)
  : result Exec CliError :=
  match command with
  | [] => Err (Bail "a command to run is required after --")
  | program :: arguments =>
      let? variables := mapM (M:=λ A, result A CliError) (λ nv : bytes * RevealedSecret,
        let? name := variable_name nv.1 in Ok (name, expose_revealed nv.2)) (entries values) in
      Ok (mkExec program arguments
            (foldl (λ env nv, <[nv.1 := nv.2]> env) (base.delete URL_VARIABLE inherited) variables))
  end.

Definition layers (connection : Connection.ConnectionUrl) (paths : Datatypes.list bytes)
  : result (Datatypes.list ConfigPath) CliError :=
  if is_empty paths then Ok [Connection.cu_root connection]
  else mapM (M:=λ A, result A CliError) (λ path_, operation_path connection path_ Tree) paths.

Section render.
Context {S : Type} `{ValueTransport S} `{InvalidatableToken S}.

Definition reader : LayerReader := mkReader Fail AsStored.

Fixpoint read_layers (values : gmap bytes RevealedSecret) (l : Datatypes.list ConfigPath)
  : S → result (gmap bytes RevealedSecret) CliError * S :=
  match l with
  | [] => λ s, (Ok values, s)
  | layer :: l' => λ s,
      match read reader layer s with
      | (Err e, s') => (Err (FromClient e), s')
      | (Ok read, s') =>
          if is_empty read
          then (Err (Bail ("layer " ++ Path.as_str layer ++ " contributed no configuration; check the path exists and holds values directly beneath it")), s')
          else read_layers (foldl (λ m nv, <[nv.1 := nv.2]> m) values read) l' s'
      end
  end.

(** The replacement this ends in, unless it fails first. *)
Definition render (connection : Connection.ConnectionUrl) (inherited : gmap bytes bytes)
    (paths command : Datatypes.list bytes) (s : S) : result Exec CliError * S :=
  match layers connection paths with
  | Err e => (Err e, s)
  | Ok layers =>
      match read_layers ∅ layers s with
      | (Err e, s') => (Err e, s')
      | (Ok values, s') => (exec inherited values command, s')
      end
  end.
End render.

(** ** Paths stay within the profile's root *)

(** A connection's root is its own fold. *)
Definition rooted (connection : Connection.ConnectionUrl) : Prop :=
  Path.fold (Connection.cu_root connection) = path (Connection.cu_root connection).

Lemma operation_path_confined connection text scope q : rooted connection →
  operation_path connection text scope = Ok q ↔
  (match scope with Tree => Path.parse_selection text | Exact => Path.parse_operation text end = Ok q)
  ∧ Path.is_at_or_below q (Connection.cu_root connection) = true.
Proof.
  intros Hr. assert (∀ q0, (negb (bool_decide (Path.as_str (Connection.cu_root connection) = "/"))
      && negb (bool_decide (Path.fold q0 = Path.as_str (Connection.cu_root connection)))
      && negb (match strip_prefix (Path.as_str (Connection.cu_root connection)) (Path.fold q0) with
               | Some suffix => starts_with suffix "/" | None => false end)) = false
      ↔ Path.is_at_or_below q0 (Connection.cu_root connection) = true) as Hc.
  { intros q0. rewrite Path.is_at_or_below_spec, Hr. unfold Path.AtOrBelow, Path.as_str.
    set (R := path (Connection.cu_root connection)). rewrite !andb_false_iff, !negb_false_iff, !bool_decide_eq_true.
    assert (match strip_prefix R (Path.fold q0) with Some suffix => starts_with suffix "/" | None => false end = true
            ↔ ∃ rest, Path.fold q0 = R ++ "/" ++ rest) as ->; [|naive_solver].
    split.
    - destruct (strip_prefix R (Path.fold q0)) as [suffix|] eqn:E; [|done].
      intros [rest ->]%starts_with_spec. apply strip_prefix_spec in E. eauto.
    - intros [rest E]. rewrite (proj2 (strip_prefix_spec R _ ("/" ++ rest)) E). apply starts_with_app. }
  unfold operation_path.
  assert (∀ (r : result ConfigPath PathError) m,
    (let? path_ := map_err r (λ _, Bail m) in
     if negb (bool_decide (Path.as_str (Connection.cu_root connection) = "/"))
        && negb (bool_decide (Path.fold path_ = Path.as_str (Connection.cu_root connection)))
        && negb (match strip_prefix (Path.as_str (Connection.cu_root connection)) (Path.fold path_) with
                 | Some suffix => starts_with suffix "/" | None => false end)
     then Err (Bail "path is outside the selected profile root") else Ok path_) = Ok q
    ↔ r = Ok q ∧ Path.is_at_or_below q (Connection.cu_root connection) = true) as Hgo.
  { intros r m. destruct r as [q0|e]; cbn [map_err and_then]; [|naive_solver].
    destruct (_ && _) eqn:E; [|apply Hc in E; naive_solver].
    split; [done|]. intros [[= ->] Hb%Hc]. congruence. }
  destruct scope; apply Hgo.
Qed.

(** ** The environment a command is run with *)

Lemma foldl_insert_lookup {A} (l : Datatypes.list (bytes * A)) : ∀ (b : gmap bytes A) n v, NoDup (List.map fst l) →
  foldl (λ m nv, <[nv.1 := nv.2]> m) b l !! n = Some v ↔
  (n, v) ∈ l ∨ (n ∉ List.map fst l ∧ b !! n = Some v).
Proof.
  induction l as [|[k w] l IH]; intros b n v Hd; cbn.
  { split; [intros; right; split; [apply not_elem_of_nil|done]|]. intros [?%not_elem_of_nil|[_ ?]]; done. }
  apply NoDup_cons in Hd as [Hk Hd]. rewrite IH by done. rewrite elem_of_cons, not_elem_of_cons.
  destruct (decide (k = n)) as [->|Hn].
  - rewrite lookup_insert_eq. split.
    + intros [?|[_ [= ->]]]; [by left; right|by left; left].
    + intros [[[= ->]|?]|[[? _] _]]; [by right|by left|done].
  - rewrite lookup_insert_ne by done. split.
    + intros [?|[? ?]]; [by left; right|right; split; [split; [done|done]|done]].
    + intros [[[= -> ->]|?]|[[_ ?] ?]]; [done|by left|by right].
Qed.

Lemma entries_names {A} (m : gmap bytes A) : NoDup (List.map fst (entries m)).
Proof.
  unfold entries. assert (∀ l l' : Datatypes.list (bytes * A), l ≡ₚ l' → NoDup (List.map fst l) → NoDup (List.map fst l')) as Hp.
  { intros l l' Hl. by rewrite (Permutation_map fst Hl). }
  eapply Hp; [symmetry; apply sort_by_perm|]. apply NoDup_fst_map_to_list.
Qed.

Lemma exec_environment inherited values command e : exec inherited values command = Ok e →
  command = program e :: arguments e
  ∧ ∀ n v, environment e !! n = Some v ↔
      values !! n = Some (mkRevealedSecret v)
      ∨ (values !! n = None ∧ n ≠ URL_VARIABLE ∧ inherited !! n = Some v).
Proof.
  unfold exec. destruct command as [|prog args]; [done|].
  set (f := λ nv : bytes * RevealedSecret, let? name := variable_name nv.1 in Ok (name, expose_revealed nv.2)).
  assert (∀ l vars, mapM (M:=λ A, result A CliError) f l = Ok vars →
    vars = List.map (λ nv, (nv.1, expose_revealed nv.2)) l) as Hvars.
  { induction l as [|[n s] l IH]; intros vars; [by intros [= <-]|]. cbn.
    assert (f (n, s) = Ok (n, expose_revealed s) ∨ ∃ e, f (n, s) = Err e) as [->|[e' ->]]; [|cbn|done].
    { unfold f. cbn [fst snd]. unfold variable_name. destruct (_ && _); cbn; eauto. }
    destruct (mapM (M:=λ A, result A CliError) f l) as [vs|] eqn:E; cbn; [|done]. intros [= <-]. by rewrite (IH vs eq_refl). }
  destruct (mapM (M:=λ A, result A CliError) f (entries values)) as [vars|] eqn:E; cbn [and_then]; [|done]. intros [= <-]. split; [done|].
  cbn [environment]. apply Hvars in E as ->. clear f Hvars. intros n v.
  assert (List.map fst (List.map (λ nv : bytes * RevealedSecret, (nv.1, expose_revealed nv.2)) (entries values))
          = List.map fst (entries values)) as Hfst by (rewrite List.map_map; by apply List.map_ext).
  rewrite foldl_insert_lookup by (rewrite Hfst; apply entries_names). rewrite Hfst.
  assert (n ∉ List.map fst (entries values) ↔ values !! n = None) as ->.
  { rewrite eq_None_not_Some. apply not_iff_compat. rewrite list_elem_of_In, in_map_iff. split.
    - intros ([n' s] & <- & Hin). rewrite <- list_elem_of_In, elem_of_entries in Hin. by exists s.
    - intros [s Hs]. exists (n, s). by rewrite <- list_elem_of_In, elem_of_entries. }
  rewrite list_elem_of_In, in_map_iff.
  assert ((∃ x : bytes * RevealedSecret, (x.1, expose_revealed x.2) = (n, v) ∧ In x (entries values))
          ↔ values !! n = Some (mkRevealedSecret v)) as ->.
  { split.
    - intros ([n' s] & [= <- <-] & Hin). rewrite <- list_elem_of_In, elem_of_entries in Hin. by destruct s.
    - intros Hs. exists (n, mkRevealedSecret v). by rewrite <- list_elem_of_In, elem_of_entries. }
  rewrite lookup_delete_Some. naive_solver.
Qed.

Section environment.
Context {S : Type} `{ReaderLaws S}.
Implicit Types s : S.

Lemma read_layers_fetch l : ∀ values s m s', read_layers values l s = (Ok m, s') →
  fetch_from reader values l s = (Ok m, s')
  ∧ Forall (λ layer, layer_values AsStored (tree s) layer ≠ []) l.
Proof.
  induction l as [|layer l IH]; intros values s m s'; [by intros [= <- <-]|]. cbn [read_layers fetch_from]. unfold try.
  destruct (read reader layer s) as [[vs|] s1] eqn:Er; [|done]. apply read_run in Er as (E & _ & Hf).
  specialize (Hf eq_refl). cbn [naming reader] in Hf. destruct vs as [|v vs]; [done|]. cbn [is_empty].
  intros [Hr Hl]%IH. split; [exact Hr|]. constructor; [by rewrite <- Hf|]. by rewrite E in Hl.
Qed.

(** [render] runs its command only with the whole of the configuration it
    was asked for: every layer lies at or below the profile's root and has values
    directly beneath it, and the command's environment is exactly those values
    under their names as stored, a later layer over an earlier one, over what
    was inherited, less the variable that carries the credential. *)
Theorem rendered_environment_is_complete connection inherited paths command s e s' :
  rooted connection →
  render connection inherited paths command s = (Ok e, s') →
  ∃ ls, layers connection paths = Ok ls
    ∧ Forall (λ l, Path.is_at_or_below l (Connection.cu_root connection) = true
                   ∧ layer_values AsStored (tree s) l ≠ []) ls
    ∧ tree s' = tree s ∧ command = program e :: arguments e
    ∧ ∀ n v, environment e !! n = Some v ↔
        (∃ before layer after, ls = before ++ layer :: after
           ∧ (n, mkRevealedSecret v) ∈ layer_values AsStored (tree s) layer
           ∧ Forall (λ l, n ∉ List.map fst (layer_values AsStored (tree s) l)) after)
        ∨ (Forall (λ l, n ∉ List.map fst (layer_values AsStored (tree s) l)) ls
           ∧ n ≠ URL_VARIABLE ∧ inherited !! n = Some v).
Proof.
  intros Hroot. unfold render. destruct (layers connection paths) as [ls|] eqn:El; [|done].
  destruct (read_layers ∅ ls s) as [[m|] s1] eqn:Er; [|done]. intros [= He <-]. exists ls. split; [done|].
  apply read_layers_fetch in Er as [Hf Hne]. pose proof (fetch_lookup reader ls s m s1 Hf eq_refl) as Hl.
  apply fetch_run in Hf as (Ht & vss & Em & Hvss). apply exec_environment in He as [Hc He].
  assert (Forall (λ l, Path.is_at_or_below l (Connection.cu_root connection) = true) ls) as Hin.
  { clear -El Hroot. revert El. unfold layers. destruct (is_empty paths).
    - intros [= <-]. constructor; [|constructor]. apply Path.is_at_or_below_spec, Path.AtOrBelow_refl.
    - revert ls. induction paths as [|p ps IH]; intros ls; cbn; [by intros [= <-]|].
      destruct (operation_path connection p Tree) as [q|] eqn:Eq; cbn; [|done].
      destruct (mapM (M:=λ A, result A CliError) _ ps) as [qs|]; cbn; [|done]. intros [= <-]. constructor; [|by apply IH].
      by apply operation_path_confined in Eq as [_ ?]. }
  split; [apply Forall_and; split; [exact Hin|exact Hne]|].
  split; [done|]. split; [done|]. intros n v. rewrite He, Hl. cbn [naming reader].
  assert (m !! n = None ↔ Forall (λ l, n ∉ List.map fst (layer_values AsStored (tree s) l)) ls) as ->; [|done].
  rewrite eq_None_not_Some, Forall_forall. split.
  - intros Hno l Hls (nv & En & Hv)%list_elem_of_In%in_map_iff. apply Hno.
    destruct nv as [n' w]. cbn in En. subst n'. rewrite Em.
    assert (vss = List.map (layer_values AsStored (tree s)) ls) as ->.
    { clear -Hvss. induction Hvss as [|l vs ls vss [_ Hf] _ IH]; [done|]. cbn. rewrite <- IH. f_equal. by apply Hf. }
    assert (n ∈ List.map fst (concat (List.map (layer_values AsStored (tree s)) ls))) as Hmem.
    { apply list_elem_of_In, in_map_iff. exists (n, w). split; [done|]. apply in_concat.
      exists (layer_values AsStored (tree s) l). split; [|done]. apply in_map. by apply list_elem_of_In. }
    clear -Hmem. rewrite <- not_eq_None_Some. intros Hnone. 
    destruct (merge_covers (concat (List.map (layer_values AsStored (tree s)) ls)) ∅ n Hmem) as [x Hx]. congruence.
  - intros Hno [w Hw]. apply Hl in Hw as (b & l & a & -> & Hv & _). apply (Hno l); [set_solver|].
    apply list_elem_of_In, in_map_iff. exists (n, w). split; [done|]. by apply list_elem_of_In.
Qed.
End environment.

(** ** What [get] prints *)

Section get.
Context {S : Type} `{ReaderLaws S}.
Implicit Types s : S.

(** One value, in the open when it is plain or to be revealed. *)
Lemma get_exact_prints to_string_pretty connection text reveal s out s' :
  get_exact to_string_pretty connection text reveal Plain s = (Ok out, s') →
  ∃ e q, operation_path connection text Exact = Ok q ∧ e ∈ tree s ∧ Path.fold (sv_path e) = Path.fold q
    ∧ tree s' = tree s
    ∧ out = if reveal || negb (sv_secret e) then sv_text e else MASKED_SECRET_TEXT.
Proof.
  unfold get_exact, checked. destruct (operation_path connection text Exact) as [q|] eqn:Eq; [|done].
  unfold client at 1. destruct (client_get_subtree q s) as [[sub|] s1] eqn:Eg; [|done].
  apply get_subtree_shows in Eg as [Et Hsub]. destruct (List.find _ (vst_values sub)) as [found|] eqn:Ef; [|done].
  apply find_some in Ef as [Hin Heq%Path.eq_spec]. rewrite Hsub in Hin.
  apply in_map_iff in Hin as (e & <- & [He%list_elem_of_In _]%filter_In).
  intros Hr. exists e, q. split; [done|]. split; [done|]. split; [exact Heq|]. revert Hr. unfold client, is_secret.
  cbn [masked stv_value stv_path]. destruct (sv_secret e) eqn:Es; [destruct reveal; cbn [andb orb negb]|].
  - unfold try. destruct (client_reveal_secret (sv_path e) s1) as [[v|] s2] eqn:Er; [|done].
    apply reveal_shows in Er as [E2 ->]; [|by rewrite Et]. intros [= <- <-]. by rewrite E2, Et.
  - intros [= <- <-]. done.
  - rewrite andb_false_r. intros [= <- <-]. by rewrite orb_true_r.
Qed.
End get.

(** ** What becomes of a login *)

Section login.
Context `{UrlCrates} `{Oidc.OidcCrates} `{Crypto} (self : Process).
Context (xdg_state_home home : option bytes).

(** The issuer refused a credential as the last thing it was asked. *)
Definition refused (h : Host) : Prop :=
  ∃ oidc refresh e n, Oidc.refresh oidc refresh n = (Done (Err e), host_net h) ∧ kind e = Core.Unauthenticated.

(** It granted a token and issued a new credential with it. *)
Definition rotated_to (rotated : Secret) (h : Host) : Prop :=
  ∃ oidc refresh tokens n, Oidc.refresh oidc refresh n = (Done (Ok tokens), host_net h)
    ∧ Oidc.refresh_token tokens = Some rotated.

#[local] Existing Instance Private.unchanged_preorder.

Lemma load_nodes p fs : nodes (run (Credentials.load self p) fs).2 = nodes fs.
Proof.
  pose proof (run_steps Private.unchanged (Credentials.load self p) fs) as Hs. apply Hs.
  apply all_steps_try; [apply all_steps_bind; [apply Private.read_private_steps|done]|done].
Qed.

Lemma host_bind_inv {A B} (m : HostIo A) (k : A → HostIo B) h o h' : host_bind m k h = (o, h') →
  (∃ a h1, m h = (Done (Ok a), h1) ∧ k a h1 = (o, h'))
  ∨ (m h).2 = h' ∧ (∀ a, (m h).1 ≠ Done (Ok a)) ∧ ∀ b, o ≠ Done (Ok b).
Proof. unfold host_bind. destruct (m h) as [[[a|]| |] h1]; intros E; [eauto| | |]; by injection E as <- <-; right. Qed.

Definition keeps_files {A} (m : HostIo A) : Prop := ∀ h, host_fs (m h).2 = host_fs h.

Lemma on_net_keeps {A} (m : Io A) : keeps_files (on_net m).
Proof. intros h. unfold on_net. by destruct (m _). Qed.

Lemma bind_keeps {A B} (m : HostIo A) (k : A → HostIo B) :
  keeps_files m → (∀ a, keeps_files (k a)) → keeps_files (host_bind m k).
Proof.
  intros Hm Hk h. specialize (Hm h). unfold host_bind. destruct (m h) as [[[a|]| |] h1]; try done. by rewrite Hk.
Qed.

(** Storing a credential keeps the stored one or replaces it whole. *)
Lemma store_outcome store rotated fs : store ≠ [] → Private.temporary self store ≠ store →
  let fs' := (run (Credentials.store self store rotated) fs).2 in
  Private.at_ fs' store = Private.at_ fs store
  ∨ Private.at_ fs' store = Some (Private.private_node self (expose_secret rotated)).
Proof.
  intros Hs Ht. unfold Credentials.store, or_else. rewrite run_bind.
  pose proof (Private.write_private_outcome self store (expose_secret rotated) fs Hs Ht) as Hw.
  by destruct (run (Private.write_private _ _ _) fs).
Qed.
Definition is_token {A} (o : Outcome A) : Prop := ∃ a, o = Done (Ok a).

Lemma loading_keeps store h :
  Private.at_ (host_fs (on_fs (Credentials.load self store) h).2) store = Private.at_ (host_fs h) store.
Proof.
  pose proof (load_nodes store (host_fs h)) as Hn. unfold on_fs, Private.at_.
  destruct (run _ _). cbn in *. by rewrite Hn.
Qed.

(** What refreshing makes of the stored credential. *)
Lemma refreshed_outcome store oidc refresh h o h' : refreshed self store oidc refresh h = (o, h') →
  (Private.at_ (host_fs h') store = Private.at_ (host_fs h) store
   ∨ (Private.at_ (host_fs h') store = None ∧ refused h' ∧ ¬ is_token o))
  ∧ ∀ tokens, o = Done (Ok tokens) → host_fs h' = host_fs h ∧
      ∃ n, Oidc.refresh oidc refresh n = (Done (Ok tokens), host_net h').
Proof.
  unfold refreshed, on_net, is_token. destruct (Oidc.refresh oidc refresh (host_net h)) as [[[t|e]| |] n] eqn:Er.
  2:{ case_bool_decide as Hk; [|by intros [= <- <-]; split; [left|]]. unfold host_bind, on_fs, Credentials.delete, or_else.
      rewrite run_bind. cbn [host_fs host_net].
      destruct (Private.remove_private_outcome self store (host_fs h)) as [Hr|Hr];
        destruct (run (Private.remove_private self store) (host_fs h)) as [[[]|] fs]; intros [= <- <-]; cbn in *;
        (split; [|done]); first [by left|right; split; [done|]; split; [|by intros [? ?]]];
        exists oidc, refresh, e, (host_net h); done. }
  all: intros [= <- <-]; (split; [by left|done || intros ? [= <-]]).
  split; [done|by eexists].
Qed.

(** A stored login outlives every failure but its refusal: acquiring a token
    leaves the stored credential as it is, or removes it, returning no token,
    after the issuer refused it as unauthenticated, or replaces it whole by the
    one the issuer rotated it to; a connection that carries its own client
    authentication touches no file at all. *)
Theorem logins_end_only_when_refused connection store h o h' :
  credential_store xdg_state_home home connection = Ok store → Private.temporary self store ≠ store →
  maybe_access_token self xdg_state_home home connection h = (o, h') →
  match Connection.client_authentication connection with
  | Some _ => host_fs h' = host_fs h
  | None =>
      Private.at_ (host_fs h') store = Private.at_ (host_fs h) store
      ∨ (Private.at_ (host_fs h') store = None ∧ refused h' ∧ ¬ is_token o)
      ∨ ∃ rotated, rotated_to rotated h'
          ∧ Private.at_ (host_fs h') store = Some (Private.private_node self (expose_secret rotated))
  end.
Proof.
  intros Hs Ht. assert (store ≠ []) as Hne.
  { unfold credential_store in Hs. destruct (Credentials.default_credential_directory _ _); [|done].
    injection Hs as <-. unfold Credentials.new. by intros [? ?]%app_eq_nil. }
  unfold maybe_access_token. destruct (Connection.client_authentication connection) as [a|].
  { intros E. change h' with (o, h').2. rewrite <- E. by repeat (apply bind_keeps; [apply on_net_keeps|intros ?]). }
  rewrite Hs. intros [(? & h0 & [= <- <-] & E)|[_ Ho]]%host_bind_inv; [|by destruct Ho as [Ho _], (Ho store)].
  pose proof (loading_keeps store h) as Hl.
  apply host_bind_inv in E as [(c & h1 & E1 & E)|[E1 _]]; [rewrite E1 in Hl|rewrite E1 in Hl; by left].
  destruct c as [refresh|]; [|injection E as _ <-; by left]. cbn [snd] in Hl.
  pose proof (on_net_keeps (Oidc.discover (Connection.issuer connection) (Connection.client_id connection)) h1) as Hd.
  apply host_bind_inv in E as [(oidc & h2 & E2 & E)|[E2 _]]; unfold discover in E2; rewrite E2 in Hd;
    [cbn [snd] in Hd; rewrite <- Hl, <- Hd|left; by rewrite Hd].
  apply host_bind_inv in E as [(tokens & h3 & E3 & E)|(E3 & _ & Ho)].
  - apply refreshed_outcome in E3 as [_ Hok]. destruct (Hok _ eq_refl) as [<- [n En]].
    destruct (Oidc.refresh_token tokens) as [rotated|] eqn:Erot.
    + assert (host_fs h' = (run (Credentials.store self store rotated) (host_fs h3)).2 ∧ host_net h' = host_net h3)
        as [Hf Hn].
      { apply host_bind_inv in E as [([] & h4 & E4 & [= _ <-])|[E4 _]]; unfold on_fs in E4;
          destruct (run _ _) in *; [injection E4 as _ <-|rewrite <- E4]; done. }
      destruct (store_outcome store rotated (host_fs h3) Hne Ht) as [Ho|Ho]; rewrite Hf; [by left|].
      right; right. exists rotated. split; [|done]. exists oidc, refresh, tokens, n. by rewrite Hn.
    + injection E as _ <-. by left.
  - destruct (refreshed self store oidc refresh h2) as [o3 h3] eqn:E3'. cbn in E3. subst h3.
    apply refreshed_outcome in E3' as [[?|(? & ? & ?)] _]; [by left|]. right; left. split_and!; [done..|].
    intros [t ->]. by destruct (Ho t).
Qed.
End login.

(** *** Two layers over an inherited environment *)

#[local] Existing Instance Layers.sample_transport.
#[local] Existing Instance Layers.sample_tokens.
#[local] Existing Instance Layers.sample_view.
#[local] Existing Instance Layers.sample_laws.

Definition sample_ci : Connection.ConnectionUrl :=
  Connection.mkConnectionUrl (mkSecret []) [] (mkPath "/ci") [] [] None.

Definition sample_inherited : gmap bytes bytes :=
  {[ ("PATH" : bytes) := "/bin" : bytes; ("url" : bytes) := "old" : bytes; URL_VARIABLE := "credential" : bytes ]}.

Definition sample_render : result Exec CliError * nat :=
  render sample_ci sample_inherited ["/ci/Global"; "/ci/repo"] ["compose"; "up"] 0.

Lemma rendered_environment_is_complete_witness :
  match sample_render.1 with
  | Ok e => environment e !! ("url" : bytes) = Some ("https://u" : bytes)
            ∧ environment e !! URL_VARIABLE ≠ Some ("credential" : bytes)
            ∧ environment e !! ("PATH" : bytes) = Some ("/bin" : bytes)
  | Err _ => False
  end.
Proof.
  assert (is_ok sample_render.1 = true) as Hok by (vm_compute; reflexivity).
  destruct sample_render as [[e|x] n] eqn:E; [|discriminate Hok]. cbn [fst].
  destruct (rendered_environment_is_complete sample_ci sample_inherited _ _ 0 e n eq_refl E)
    as (ls & El & _ & _ & _ & He).
  assert (ls = [mkPath "/ci/Global"; mkPath "/ci/repo"]) as -> by (vm_compute in El; congruence).
  split; [|split].
  - apply He. left. exists [], (mkPath "/ci/Global"), [mkPath "/ci/repo"]. split; [reflexivity|].
    split; [|constructor; [|constructor]]; apply (bool_decide_unpack _); vm_compute; exact I.
  - intros Hx. apply He in Hx as [(b & l & a & Hb & Hv & _)|(_ & Hne & _)]; [|by apply Hne].
    assert (l ∈ [mkPath "/ci/Global"; mkPath "/ci/repo"]) as Hl by (rewrite Hb; apply elem_of_app; right; by left).
    apply elem_of_cons in Hl as [->|[->|?%not_elem_of_nil]%elem_of_cons]; [..|done];
      apply (bool_decide_pack _) in Hv; vm_compute in Hv; exact Hv.
  - apply He. right. split; [|split; [vm_compute; congruence|vm_compute; reflexivity]].
    repeat constructor; apply (bool_decide_unpack _); vm_compute; exact I.
Defined.
(** *** A stored login the issuer refuses *)

#[local] Existing Instance SampleUrl.sample_crates.

#[local] Instance sample_issuer : Oidc.OidcCrates := {|
  Oidc.url_join base path := url_parse (u_origin base ++ "/" ++ path);
  Oidc.discovery_from_slice _ := Some (Oidc.mkDiscovery None "https://id.test/token");
  Oidc.device_from_slice _ := None;
  Oidc.token_from_slice _ := None;
  Oidc.oauth_error_from_slice b := Some (Oidc.mkOAuthError b) |}.

Definition sample_profile : Connection.ConnectionUrl :=
  Connection.mkConnectionUrl (mkSecret []) "https://api.test" (mkPath "/") "https://id.test" "cli" None.

Definition sample_store : FsPath :=
  match credential_store (Some "/s") None sample_profile with Ok p => p | Err _ => [] end.

Definition sample_host : Host := mkHost
  (mkFs {[ removelast sample_store := mkNode Directory 1000 448 [];
           sample_store := Private.private_node (mkProcess 1000 18 7) "stored" ]} [])
  (mkNet [] (λ asked, Some (match asked with
                            | [_] => mkHttpResponse 200 None (Some [])
                            | _ => mkHttpResponse 400 None (Some "invalid_grant")
                            end)) (λ _, 0%N) 0 true).

Definition sample_refusal : Outcome (option Secret) * Host :=
  maybe_access_token (mkProcess 1000 18 7) (Some "/s") None sample_profile sample_host.

Lemma logins_end_only_when_refused_witness :
  Private.at_ (host_fs sample_host) sample_store ≠ None
  ∧ Private.at_ (host_fs sample_refusal.2) sample_store = None ∧ refused sample_refusal.2.
Proof.
  assert (Private.at_ (host_fs sample_host) sample_store ≠ None) as Hs by (vm_compute; congruence).
  assert (Private.at_ (host_fs sample_refusal.2) sample_store = None) as Hn by (vm_compute; reflexivity).
  split; [exact Hs|]. split; [exact Hn|].
  destruct (logins_end_only_when_refused (mkProcess 1000 18 7) (Some "/s") None sample_profile sample_store
              sample_host sample_refusal.1 sample_refusal.2) as [Hk|[(_ & Hr & _)|(r & _ & Hk)]].
  - vm_compute. reflexivity.
  - vm_compute. congruence.
  - vm_compute. reflexivity.
  - exfalso. apply Hs. rewrite <- Hk. exact Hn.
  - exact Hr.
  - exfalso. rewrite Hn in Hk. discriminate Hk.
Defined.

End Cli.
