(* ===== verification/CliProfile.v ===== *)
(** * Managing profiles from the command line

    Models [crates/sovereign-config-cli/src/profile.rs]: reading a connection URL
    from standard input, adding, updating and listing profiles and choosing the
    default, over the profile and credential stores of [Profiles].  What a
    command prints is returned, with what it printed before it failed. *)

From stdpp Require Import strings.
From S2P Require Import Prelude Bytes ConfigPath Core PlainText Json Encryption ConnectionUrl Flow ValuePaths LayerReader Oidc PrivateFiles Profiles Client Cli.

Local Open Scope bytes_scope.

Module CliProfile.

Import Cli.

Definition MAX_CONNECTION_URL_BYTES : nat := 16 * 1024.

(** Standard input: a line read at the hidden prompt of a terminal, or what
    reading at most so many bytes as text gives; [None] is any failure of that. *)
Inductive Stdin := Terminal (line : option bytes) | Piped (read : nat → option bytes).

Inductive ProfileCommand :=
| AddProfile (name : bytes)
| ListProfiles (format : OutputFormat)
| UpdateProfile (name : bytes)
| DefaultProfile (name : bytes).

Definition same_human_authentication_identity (first second : Connection.ConnectionUrl) : bool :=
  bool_decide (Connection.client_authentication second = None)
  && bool_decide (Connection.endpoint first = Connection.endpoint second)
  && bool_decide (Connection.issuer first = Connection.issuer second)
  && bool_decide (Connection.client_id first = Connection.client_id second).

(** [{name:width$}] *)
Definition padded (width : nat) (name : bytes) : bytes := name ++ replicate (width - length name) " "%char.

Definition profile_line (width : nat) (profile : Profiles.ListedProfile) : bytes :=
  (if Profiles.is_default profile then "*" else " ") ++ " " ++ padded width (Profiles.lp_name profile) ++ "  "
  ++ Profiles.lp_endpoint profile
  ++ (if bool_decide (Profiles.lp_root profile = "/") then [] else Profiles.lp_root profile) ++ [newline].

Section profiles.
Context `{UrlCrates} `{TomlCrate} `{Crypto} (self : Process) (profiles : FsPath).
Context (xdg_state_home home : option bytes).
(** [serde_json::to_string_pretty] of the listed profiles, which cannot fail. *)
Context (profiles_to_json : Datatypes.list Profiles.ListedProfile → bytes).

Definition list_profiles (l : Datatypes.list Profiles.ListedProfile) (format : OutputFormat) : bytes :=
  match format with
  | Plain =>
      let width := List.list_max (List.map (λ profile, length (Profiles.lp_name profile)) l) in
      flat_map (profile_line width) l
  | Cli.Json => profiles_to_json l ++ [newline]
  end.

(** The connection that was read, if any, and what was printed to ask for it. *)
Definition read_connection (stdin : Stdin) (current : option bytes) (empty_is_unchanged : bool)
  : result (option Connection.ConnectionUrl) CliError * bytes :=
  let invalid := Bail connection_url_invalid in
  let input :=
    match stdin with
    | Terminal line => ok_or line (Bail "profile input is unavailable")
    | Piped read =>
        let? value := ok_or (read (MAX_CONNECTION_URL_BYTES + 1)) (Bail "profile input is unavailable") in
        if MAX_CONNECTION_URL_BYTES <? length value then Err invalid
        else
          let value := strip_suffix "013"%char (strip_suffix "010"%char value) in
          if existsb Credentials.line_break value then Err invalid else Ok value
    end in
  (let? value := input in
   if is_empty value && empty_is_unchanged then Ok None
   else let? connection := map_err (Connection.parse value) (λ _, invalid) in Ok (Some connection),
   match stdin, current with
   | Terminal _, Some current => "Current URL: " ++ current ++ [newline]
   | _, _ => []
   end).

Definition from_client {A} (f : Flow Fs (result A ClientError)) : Flow Fs (result A CliError) :=
  await r := f in Ret (map_err r FromClient).

(** The credential of an identity no profile will have any more. *)
Definition forget (name : bytes) (current connection : Connection.ConnectionUrl) : Flow Fs (result unit CliError) :=
  if bool_decide (Connection.client_authentication current = None)
     && negb (same_human_authentication_identity current connection)
  then
    let! other := from_client (Profiles.contains_other_human_identity self profiles name current) in
    if other then Ret (Ok tt)
    else
      let! store := Ret (map_err (credential_store xdg_state_home home current) FromClient) in
      from_client (Credentials.delete self store)
  else Ret (Ok tt).

Definition updating (name : bytes) (current : Connection.ConnectionUrl)
    (input : result (option Connection.ConnectionUrl) CliError) : Flow Fs (result bytes CliError) :=
  let! connection := Ret input in
  match connection with
  | None => Ret (Ok ("Profile unchanged" ++ [newline]))
  | Some connection =>
      let! _ := forget name current connection in
      let! _ := from_client (Profiles.update self profiles name connection) in
      Ret (Ok ("Profile updated" ++ [newline]))
  end.

Definition manage_profile (command : ProfileCommand) (stdin : Stdin) : Flow Fs (result bytes CliError * bytes) :=
  match command with
  | AddProfile name =>
      let '(input, shown) := read_connection stdin None false in
      await r :=
        (let! connection := Ret (let? c := input in ok_or c (Bail "connection URL is required")) in
         let! _ := from_client (Profiles.add self profiles name connection) in
         Ret (Ok ("Profile added" ++ [newline]))) in
      Ret (r, shown)
  | UpdateProfile name =>
      await current := from_client (Profiles.connection self profiles (Some name)) in
      match current with
      | Err e => Ret (Err e, [])
      | Ok current =>
          let '(input, shown) := read_connection stdin (Some (Connection.redacted current)) true in
          await r := updating name current input in
          Ret (r, shown)
      end
  | DefaultProfile name =>
      await r :=
        (let! _ := from_client (Profiles.set_default self profiles name) in
         Ret (Ok ("Default profile updated" ++ [newline]))) in
      Ret (r, [])
  | ListProfiles format =>
      await r :=
        (let! l := from_client (Profiles.list_ self profiles) in Ret (Ok (list_profiles l format))) in
      Ret (r, [])
  end.

(** ** Which logins a change of the profiles ends *)

Abbreviation spares q := (Private.spares q q).
Abbreviation store_of := (credential_store xdg_state_home home).

(** Who a human profile signs in as. *)
Definition identity (c : Connection.ConnectionUrl) : bytes * bytes * bytes :=
  (Connection.endpoint c, Connection.issuer c, Connection.client_id c).

Lemma from_client_steps {A} G (f : Flow Fs (result A ClientError)) : all_steps G f → all_steps G (from_client f).
Proof. intros Hf. by apply all_steps_bind. Qed.

Lemma or_else_steps {A} G e (f : Flow Fs (result A unit)) : all_steps G f → all_steps G (or_else e f).
Proof. intros Hf. by apply all_steps_bind. Qed.

Lemma load_spares q : all_steps (spares q) (Profiles.load self profiles).
Proof.
  apply all_steps_try; [|done]. apply or_else_steps.
  eapply all_steps_mono; [|apply Private.read_private_steps]. intros s s'. apply Private.spares_nodes.
Qed.

Lemma required_spares q : all_steps (spares q) (Profiles.required self profiles).
Proof. apply all_steps_try; [apply load_spares|done]. Qed.

Lemma connection_spares q name : all_steps (spares q) (Profiles.connection self profiles name).
Proof. apply all_steps_try; [done|]. intros _. apply all_steps_try; [apply required_spares|done]. Qed.

Lemma other_spares q name c : all_steps (spares q) (Profiles.contains_other_human_identity self profiles name c).
Proof. apply all_steps_try; [apply required_spares|done]. Qed.

Lemma store_spares q config : Private.apart self q profiles → all_steps (spares q) (Profiles.store self profiles config).
Proof. intros Hq. apply all_steps_try; [done|]. intros t. by apply or_else_steps, Private.write_private_spares. Qed.

Lemma perform_spares q ch : Private.apart self q profiles → all_steps (spares q) (Profiles.perform self profiles ch).
Proof.
  intros Hq. destruct ch as [n u|n u|n]; cbn [Profiles.perform];
    (apply all_steps_try; [done|]; intros _; apply all_steps_try; [apply load_spares || apply required_spares|]; intros o;
     apply all_steps_try; [done|]; intros c; by apply store_spares).
Qed.

Lemma delete_spares q p : q ≠ p → all_steps (spares q) (Credentials.delete self p).
Proof. intros Hq. by apply or_else_steps, Private.remove_private_spares. Qed.

Lemma other_human_found excluded connection other url c l b :
  (other, url) ∈ l → other ≠ excluded → Connection.parse url = Ok c →
  Profiles.same_human connection c = true → Profiles.other_human excluded connection l = Ok b → b = true.
Proof.
  induction l as [|[n u] l IH]; intros Hin Hne Hp Hs; [by apply not_elem_of_nil in Hin|]. cbn [Profiles.other_human].
  apply elem_of_cons in Hin as [[= <- <-]|Hin].
  - rewrite bool_decide_eq_false_2 by done. rewrite Hp. cbn. rewrite Hs. congruence.
  - case_bool_decide; [by apply IH|]. destruct (Connection.parse u) as [a|]; cbn; [|done].
    destruct (Profiles.same_human connection a); [by intros [= ->]|by apply IH].
Qed.

Lemma view_nodes fs fs' : nodes fs' = nodes fs → Profiles.view self profiles fs' = Profiles.view self profiles fs.
Proof. intros E. unfold Profiles.view, Private.calm. by rewrite E. Qed.

Lemma run_from_client {A} (f : Flow Fs (result A ClientError)) fs a fs' :
  run (from_client f) fs = (Ok a, fs') → run f fs = (Ok a, fs').
Proof. unfold from_client. rewrite run_bind. destruct (run f fs) as [[]]; cbn; [by intros [= -> ->]|done]. Qed.

Lemma run_profiles_required fs config fs' : run (Profiles.required self profiles) fs = (Ok config, fs') →
  nodes fs' = nodes fs ∧ Profiles.view self profiles fs = Ok (Some config).
Proof.
  intros (o & s1 & [E ->]%Profiles.run_load & Ho)%Profiles.run_tried. cbn in Ho. injection Ho as Ho <-.
  destruct o as [o|]; [|done]. injection Ho as ->. done.
Qed.

(** What forgetting an identity found the other profiles to be. *)
Lemma run_other fs name c b fs' config : Profiles.view self profiles fs = Ok (Some config) →
  run (Profiles.contains_other_human_identity self profiles name c) fs = (Ok b, fs') →
  Profiles.other_human name c (entries (Profiles.profiles config)) = Ok b.
Proof.
  intros Hv (config' & s1 & [_ Hv']%run_profiles_required & Hb)%Profiles.run_tried. rewrite Hv in Hv'. injection Hv' as <-.
  cbn [run] in Hb. by injection Hb.
Qed.

Section kept.
Context (fs : Fs) (config : StoredConfig) (other url : bytes) (c : Connection.ConnectionUrl) (q : FsPath).
Hypothesis seen : Profiles.view self profiles fs = Ok (Some config).
Hypothesis held : Profiles.profiles config !! other = Some url.
Hypothesis parsed : Connection.parse url = Ok c.
Hypothesis human : Connection.client_authentication c = None.

Lemma forget_keeps name current connection fs1 : name ≠ other → nodes fs1 = nodes fs →
  (store_of current = Ok q → identity current = identity c) →
  Private.at_ (run (forget name current connection) fs1).2 q = Private.at_ fs1 q.
Proof.
  intros Hne Hfs Hid. unfold forget. destruct (_ && _); [|done]. unfold flow_try at 1. rewrite run_bind.
  pose proof (Private.spared _ q fs1 (from_client_steps _ _ (other_spares q name current))) as Hk.
  destruct (run (from_client _) fs1) as [[b|] fs2] eqn:Eo; [|done]. cbn [snd] in Hk.
  apply run_from_client, (run_other _ _ _ _ _ config) in Eo; [|by rewrite (view_nodes fs)].
  destruct b; [done|]. unfold flow_try. cbn [flow_bind].
  destruct (store_of current) as [p|] eqn:Es; [|done]. cbn [map_err].
  destruct (decide (p = q)) as [->|Hp]; [exfalso|rewrite <- Hk; by apply Private.spared, from_client_steps, delete_spares].
  specialize (Hid eq_refl). injection Hid as ? ? ?.
  apply (other_human_found name current other url c) in Eo; [done|by apply elem_of_entries|done..|].
  unfold Profiles.same_human. by rewrite !bool_decide_eq_true_2.
Qed.

Lemma updating_keeps name current input fs1 : name ≠ other → nodes fs1 = nodes fs →
  Private.apart self q profiles → (store_of current = Ok q → identity current = identity c) →
  Private.at_ (run (updating name current input) fs1).2 q = Private.at_ fs1 q.
Proof.
  intros Hne Hfs Hq Hid. unfold updating, flow_try at 1. destruct input as [[connection|]|]; cbn [flow_bind]; [|done..].
  unfold flow_try at 1. rewrite run_bind. pose proof (forget_keeps name current connection fs1 Hne Hfs Hid) as Hk.
  destruct (run (forget _ _ _) fs1) as [[[]|] fs2]; [|done]. cbn [fst snd] in *. rewrite <- Hk.
  apply Private.spared, all_steps_try; [|done]. by apply from_client_steps, (perform_spares q (Profiles.Update name connection)).
Qed.
End kept.

(** The credential of the identity a profile stops being is gone. *)
Lemma updating_forgets name current connection p fs1 config fs2 text :
  Profiles.view self profiles fs1 = Ok (Some config) →
  Connection.client_authentication current = None → same_human_authentication_identity current connection = false →
  Profiles.other_human name current (entries (Profiles.profiles config)) = Ok false →
  store_of current = Ok p → Private.apart self p profiles →
  run (updating name current (Ok (Some connection))) fs1 = (Ok text, fs2) → Private.at_ fs2 p = None.
Proof.
  intros Hv Hh Hs Ho Hp Hap. unfold updating, flow_try at 1. cbn [flow_bind].
  assert (∀ A B (f : Flow Fs (result A CliError)) (k : A → Flow Fs (result B CliError)) s b s',
    run (flow_try f k) s = (Ok b, s') → ∃ a s1, run f s = (Ok a, s1) ∧ run (k a) s1 = (Ok b, s')) as Htry.
  { intros A B f k s b s'. unfold flow_try. rewrite run_bind. destruct (run f s) as [[a|] s1]; [eauto|done]. }
  intros ([] & s1 & Hf & Hr)%Htry. apply Htry in Hr as ([] & s2 & Hu & [= _ <-]).
  assert (Private.at_ s1 p = None) as Hn; [|rewrite <- Hn; change s2 with (Ok (A:=unit) (E:=CliError) tt, s2).2; rewrite <- Hu;
    by apply Private.spared, from_client_steps, (perform_spares p (Profiles.Update name connection))].
  revert Hf. unfold forget. rewrite bool_decide_eq_true_2, Hs by done. cbn [andb negb].
  intros (b & s3 & Hb%run_from_client & Hd)%Htry. apply (run_other _ _ _ _ _ config) in Hb; [|done].
  rewrite Ho in Hb. injection Hb as <-. rewrite Hp in Hd. apply Htry in Hd as (p' & s4 & [= <- <-] & Hd).
  apply run_from_client, Profiles.run_or_else, Private.remove_private_removes in Hd. done.
Qed.

Lemma run_connection name fs config current fs' : Profiles.view self profiles fs = Ok (Some config) →
  run (Profiles.connection self profiles (Some name)) fs = (Ok current, fs') →
  nodes fs' = nodes fs ∧ Profiles.selected (Some name) config = Ok current.
Proof.
  intros Hv (? & s1 & [= _ <-] & (config' & s2 & [E Hv']%run_profiles_required & Hs)%Profiles.run_tried)%Profiles.run_tried.
  rewrite Hv in Hv'. injection Hv' as <-. cbn [run] in Hs. by injection Hs as -> <-.
Qed.

(** Changing profiles ends no other login and abandons none of its own:
    whatever fails, the stored credential of every human profile but the one
    being updated is as it was; and once an update reports success, the
    credential of the identity the profile had is gone, unless the new URL or
    another profile still signs in as that identity. *)
Theorem profile_changes_mind_logins command stdin fs o fs' config :
  Profiles.view self profiles fs = Ok (Some config) →
  run (manage_profile command stdin) fs = (o, fs') →
  (∀ other url c q,
     Profiles.profiles config !! other = Some url → Connection.parse url = Ok c →
     Connection.client_authentication c = None → command ≠ UpdateProfile other →
     store_of c = Ok q → Private.apart self q profiles →
     (∀ name current, Profiles.selected (Some name) config = Ok current →
        store_of current = Ok q → identity current = identity c) →
     Private.at_ fs' q = Private.at_ fs q)
  ∧ (∀ name current connection p text,
     command = UpdateProfile name → Profiles.selected (Some name) config = Ok current →
     Connection.client_authentication current = None →
     (read_connection stdin (Some (Connection.redacted current)) true).1 = Ok (Some connection) →
     same_human_authentication_identity current connection = false →
     Profiles.other_human name current (entries (Profiles.profiles config)) = Ok false →
     store_of current = Ok p → Private.apart self p profiles →
     o.1 = Ok text → Private.at_ fs' p = None).
Proof.
  intros Hv Hr. split.
  - intros other url c q Hother Hparse Hh Hne Hq Hap Hid. change fs' with (o, fs').2. rewrite <- Hr.
    destruct command as [name|format|name|name]; cbn [manage_profile].
    + destruct (read_connection _ _ _) as [input shown]. apply Private.spared, all_steps_bind; [|done].
      apply all_steps_try; [done|]. intros u. apply all_steps_try; [|done].
      by apply from_client_steps, (perform_spares q (Profiles.Add name u)).
    + apply Private.spared, all_steps_bind; [|done]. apply all_steps_try; [|done].
      apply from_client_steps, all_steps_try; [apply load_spares|done].
    + rewrite run_bind.
      pose proof (Private.spared _ q fs (from_client_steps _ _ (connection_spares q (Some name)))) as Hk.
      destruct (run (from_client _) fs) as [[current|] fs1] eqn:Ec; [|done]. cbn [fst snd] in *. rewrite <- Hk.
      apply run_from_client, (run_connection _ _ config) in Ec as [En Es]; [|done].
      destruct (read_connection _ _ _) as [input shown]. rewrite run_bind.
      assert (name ≠ other) as Hn by congruence.
      pose proof (updating_keeps fs config other url c q Hv Hother Hparse Hh name current input fs1 Hn En Hap (Hid _ _ Es)).
      by destruct (run (updating _ _ _) fs1).
    + apply Private.spared, all_steps_bind; [|done]. apply all_steps_try; [|done].
      by apply from_client_steps, (perform_spares q (Profiles.SetDefault name)).
  - intros name current connection p text -> Hsel Hh Hin Hs Ho Hp Hap Ht. revert Hr. cbn [manage_profile].
    rewrite run_bind. destruct (run (from_client _) fs) as [[current'|] fs1] eqn:Ec; [|by intros [= <- _]].
    cbn [fst snd]. apply run_from_client, (run_connection _ _ config) in Ec as [En Es]; [|done].
    rewrite Hsel in Es. injection Es as <-. destruct (read_connection _ _ _) as [input shown]. cbn in Hin. subst input.
    rewrite run_bind. destruct (run (updating _ _ _) fs1) as [r fs2] eqn:Eu. intros [= <- <-]. cbn in Ht. subst r.
    eapply updating_forgets; [|done..|exact Eu]. by rewrite (view_nodes fs).
Qed.
End profiles.

(** *** One of two human profiles moves to another endpoint *)

#[local] Existing Instance SampleUrl.sample_crates.

Definition sample_text (host : bytes) : bytes :=
  Connection.serialize ("https://" ++ host ++ ".test") (mkPath "/") "https://id.test/" "cli" None.

Definition sample_url (host : bytes) : Connection.ConnectionUrl :=
  match Connection.parse (sample_text host) with Ok u => u | Err _ => Connection.mkConnectionUrl (mkSecret []) [] (mkPath []) [] [] None end.

Definition sample_two : StoredConfig :=
  mkStoredConfig 1 "a" {[ ("a" : bytes) := sample_text "a"; ("b" : bytes) := sample_text "b" ]}.

#[local] Instance sample_toml : TomlCrate := {|
  toml_from_str t := Some sample_two;
  toml_to_string c := Some ("after" : bytes) |}.

Definition sample_self : Process := mkProcess 1000 18 7.
Definition sample_profiles : FsPath := ["h"; "config.toml"].
Definition sample_login (host : bytes) : FsPath :=
  match credential_store (Some "/s") None (sample_url host) with Ok p => p | Err _ => [] end.

Definition sample_fs : Fs :=
  let directory := mkNode Directory 1000 448 [] in
  mkFs (<[ ["h"] := directory ]> (<[ sample_profiles := Private.private_node sample_self "before" ]>
       (<[ removelast (sample_login "a") := directory ]>
       (<[ sample_login "a" := Private.private_node sample_self "login-a" ]>
       {[ sample_login "b" := Private.private_node sample_self "login-b" ]})))) [].

Definition sample_update : (result bytes CliError * bytes) * Fs :=
  run (manage_profile sample_self sample_profiles (Some "/s") None (λ _, []) (UpdateProfile "a")
         (Piped (λ _, Some (sample_text "c")))) sample_fs.

Lemma sample_identities name current : Profiles.selected (Some name) sample_two = Ok current →
  credential_store (Some "/s") None current = Ok (sample_login "b") → identity current = identity (sample_url "b").
Proof.
  assert (Profiles.selected (Some ("a" : bytes)) sample_two = Ok (sample_url "a")) as Ea by (vm_compute; reflexivity).
  assert (Profiles.selected (Some ("b" : bytes)) sample_two = Ok (sample_url "b")) as Eb by (vm_compute; reflexivity).
  assert (bool_decide (credential_store (Some "/s") None (sample_url "a") = Ok (sample_login "b")) = false) as Hn
    by (vm_compute; reflexivity).
  intros Hs Hc. destruct (decide (name = "a")) as [->|Ha].
  - rewrite Ea in Hs. injection Hs as <-. by apply bool_decide_eq_false in Hn.
  - destruct (decide (name = "b")) as [->|Hb]; [rewrite Eb in Hs; by injection Hs as <-|exfalso].
    revert Hs. unfold Profiles.selected, sample_two. cbn [Profiles.profiles default from_option].
    rewrite lookup_insert_ne by (intros E; by apply Ha). rewrite lookup_singleton_ne by (intros E; by apply Hb). discriminate.
Qed.

Lemma profile_changes_mind_logins_witness :
  Private.at_ sample_update.2 (sample_login "b") = Some (Private.private_node sample_self "login-b")
  ∧ Private.at_ sample_fs (sample_login "a") ≠ None ∧ Private.at_ sample_update.2 (sample_login "a") = None.
Proof.
  destruct (profile_changes_mind_logins sample_self sample_profiles (Some "/s") None (λ _, []) (UpdateProfile "a")
    (Piped (λ _, Some (sample_text "c"))) sample_fs sample_update.1 sample_update.2 sample_two) as [Hkept Hgone].
  - vm_compute. reflexivity.
  - exact (surjective_pairing sample_update).
  - split; [|split].
    + assert (Private.at_ sample_fs (sample_login "b") = Some (Private.private_node sample_self "login-b")) as <-
        by (vm_compute; reflexivity).
      apply (Hkept "b" (sample_text "b") (sample_url "b") (sample_login "b")).
      * vm_compute. reflexivity.
      * vm_compute. reflexivity.
      * vm_compute. reflexivity.
      * congruence.
      * vm_compute. reflexivity.
      * apply (bool_decide_unpack _). vm_compute. exact I.
      * apply sample_identities.
    + vm_compute. congruence.
    + apply (Hgone "a" (sample_url "a") (sample_url "c") (sample_login "a") ("Profile updated" ++ [newline]));
        [reflexivity|vm_compute; reflexivity..| |vm_compute; reflexivity].
      apply (bool_decide_unpack _). vm_compute. exact I.
Defined.
End CliProfile.
