(* ===== verification/JsonValue.v ===== *)
(** * JSON values

    [serde_json::Value] as the crates that build and take apart messages use it.
    An object is its entries; no two share a key, and nothing here depends on
    their order. *)

From stdpp Require Import strings.
From S2P Require Import Prelude Bytes.

Local Open Scope bytes_scope.

Inductive Value :=
| VNull
| VBool (b : bool)
| VNumber (n : Z)
| VOtherNumber (text : bytes)
| VString (s : bytes)
| VArray (l : list Value)
| VObject (entries : list (bytes * Value)).

(** [Value::get], [as_str] and [as_array] *)
Fixpoint entry (key : bytes) (entries : list (bytes * Value)) : option Value :=
  match entries with
  | [] => None
  | (k, v) :: entries' => if bool_decide (k = key) then Some v else entry key entries'
  end.
Definition get (key : bytes) (v : Value) : option Value :=
  match v with VObject entries => entry key entries | _ => None end.
Definition as_str (v : Value) : option bytes := match v with VString s => Some s | _ => None end.
Definition as_array (v : Value) : option (list Value) := match v with VArray l => Some l | _ => None end.

(** [Map::insert] *)
Fixpoint map_insert (key : bytes) (value : Value) (entries : list (bytes * Value)) : list (bytes * Value) :=
  match entries with
  | [] => [(key, value)]
  | (k, v) :: entries' => if bool_decide (k = key) then (k, value) :: entries' else (k, v) :: map_insert key value entries'
  end.

Lemma entry_map_insert key k v entries :
  entry k (map_insert key v entries) = if bool_decide (k = key) then Some v else entry k entries.
Proof.
  induction entries as [|[k' v'] entries IH]; cbn; [by repeat case_bool_decide; subst|].
  repeat case_bool_decide; subst; cbn; repeat case_bool_decide; subst; try done;
    rewrite IH; by repeat case_bool_decide.
Qed.
