(* ===== verification/Mcp.v ===== *)
(** * The tool server

    Models [crates/sovereign-config-mcp/src]: the JSON-RPC envelope
    ([protocol.rs]), the tools, their declared schemas and how a call's arguments
    become a validated call ([tools.rs]), the failures a caller may see
    ([errors.rs]), the administration boundary as a class ([backend.rs]) and the
    server that reads lines, runs calls against it and writes messages
    ([server.rs]). *)

From stdpp Require Import strings.
From S2P Require Import Prelude Bytes ConfigPath Core PlainText Json Managed Auth Encryption AuditEvent Rpc Database ConnectionUrl AuditQuery LayerReader Client JsonValue.

Local Open Scope bytes_scope.

Module Mcp.

(** ** protocol.rs *)

Definition PARSE_ERROR : Z := -32700.
Definition INVALID_REQUEST : Z := -32600.
Definition METHOD_NOT_FOUND : Z := -32601.
Definition INVALID_PARAMS : Z := -32602.

Inductive Incoming :=
| Request (id : Value) (method : bytes) (params : Value)
| Notification (method : bytes)
| Invalid (id : option Value) (code : Z).

(** [serde_json::from_str] *)
Definition parse_incoming (from_str : bytes → option Value) (line : bytes) : Incoming :=
  match from_str line with
  | None => Invalid None PARSE_ERROR
  | Some (VObject _ as object) =>
      let id := get "id" object in
      let params := default VNull (get "params" object) in
      match get "method" object ≫= as_str with
      | None => Invalid id INVALID_REQUEST
      | Some method =>
          match id with
          | Some id => Request id method params
          | None => Notification method
          end
      end
  | Some _ => Invalid None INVALID_REQUEST
  end.

Definition success (id result : Value) : Value :=
  VObject [("jsonrpc" : bytes, VString "2.0"); ("id" : bytes, id); ("result" : bytes, result)].

Definition error (id : Value) (code : Z) (message : bytes) : Value :=
  VObject [("jsonrpc" : bytes, VString "2.0"); ("id" : bytes, id);
           ("error" : bytes, VObject [("code" : bytes, VNumber code); ("message" : bytes, VString message)])].

Definition notification (method : bytes) (params : Value) : Value :=
  VObject [("jsonrpc" : bytes, VString "2.0"); ("method" : bytes, VString method); ("params" : bytes, params)].

(** ** errors.rs *)

Record ToolFailure := mkToolFailure { code : bytes; message : bytes }.
#[global] Instance ToolFailure_eq_dec : EqDecision ToolFailure.
Proof. solve_decision. Defined.

Definition from_client (e : ClientError) : ToolFailure :=
  mkToolFailure
    (match kind e with
     | Core.Unauthenticated => "unauthenticated"
     | Core.PermissionDenied => "permission_denied"
     | Core.IncompatibleProtocol => "incompatible_protocol"
     | Core.VersionNotServed => "version_not_served"
     | Core.InvalidRequest => "invalid_request"
     | Core.NotFound => "not_found"
     | Core.Conflict => "conflict"
     | Core.Unavailable => "unavailable"
     | Core.Internal => "internal"
     end) (Core.message e).

(** ** tools.rs *)

Definition MAX_VALUE_BYTES : Z := Z.shiftl 1 20.
Definition MAX_PERMISSIONS : Z := 16.

Inductive ToolCall :=
| Status
| Login
| Logout
| Get (path : ConfigPath) (reveal : bool)
| List (path : ConfigPath)
| PutValue (path : ConfigPath) (value : PlainValue)
| PutSecret (path : ConfigPath) (value : SecretInput)
| ReplaceSubtree (path : ConfigPath) (values : list SubTreeMutationValue)
| Delete (path : ConfigPath) (recurse : bool)
| RevealSecret (path : ConfigPath)
| AliasAdd (source_path new_path : ConfigPath)
| AliasList (path : ConfigPath)
| ListConnections
| CreateConnection (display_name : Managed.DisplayName) (root : ConfigPath) (permissions : Managed.ManagedPermissions)
| RotateConnection (connection_id : Managed.ConnectionId)
| RevokeConnection (connection_id : Managed.ConnectionId).

Definition INVALID : bytes := "invalid_request".
Definition invalid (message : bytes) : ToolFailure := mkToolFailure INVALID message.
Definition unknown_tool : ToolFailure := mkToolFailure "unknown_tool" "unknown tool".

Definition require_str (arguments : Value) (key : bytes) : result bytes ToolFailure :=
  ok_or (get key arguments ≫= as_str) (invalid "a required string argument is missing or not a string").

Definition optional_bool (arguments : Value) (key : bytes) : result bool ToolFailure :=
  match get key arguments with
  | None | Some VNull => Ok false
  | Some (VBool value) => Ok value
  | Some _ => Err (invalid "a boolean argument has the wrong type")
  end.

Definition bounded (value : bytes) : result bytes ToolFailure :=
  if (MAX_VALUE_BYTES <? Z.of_nat (length value))%Z
  then Err (invalid "value exceeds the maximum accepted size") else Ok value.

Definition operation_at (arguments : Value) (key : bytes) : result ConfigPath ToolFailure :=
  let? text := require_str arguments key in
  map_err (Path.parse_operation text) (λ _, invalid "path must name a configuration value").

Definition selection_at (arguments : Value) (key : bytes) : result ConfigPath ToolFailure :=
  let? text := require_str arguments key in
  map_err (Path.parse_selection text) (λ _, invalid "path must name a configuration subtree").

Definition operation_path (arguments : Value) : result ConfigPath ToolFailure := operation_at arguments "path".
Definition selection_path (arguments : Value) : result ConfigPath ToolFailure := selection_at arguments "path".

Definition connection_id (arguments : Value) : result Managed.ConnectionId ToolFailure :=
  let? text := require_str arguments "connection_id" in
  map_err (Managed.connection_id_parse text) (λ _, invalid "connection_id is not a valid connection identifier").

Definition parse_permission (entry : Value) : result Managed.ManagedPermission ToolFailure :=
  let? name := ok_or (as_str entry) (invalid "each permission must be a string") in
  map_err (Managed.permission_parse name) (λ _, invalid "an unknown permission name was requested").

Definition parse_permissions (arguments : Value) : result Managed.ManagedPermissions ToolFailure :=
  match get "permissions" arguments ≫= as_array with
  | None => Err (invalid "permissions must be an array of permission names")
  | Some entries =>
      if (MAX_PERMISSIONS <? Z.of_nat (length entries))%Z
      then Err (invalid "too many permissions were requested")
      else
        let? parsed := mapM (M:=λ A, result A ToolFailure) parse_permission entries in
        map_err (Managed.new parsed) (λ _, invalid "the requested permission set is invalid")
  end.

(** [from_str] is the strict reader of a subtree's document. *)
Definition parse_call (from_str : bytes → option Json.RawJson) (name : bytes) (arguments : Value)
  : result ToolCall ToolFailure :=
  let? arguments :=
    match arguments with
    | VNull => Ok (VObject [])
    | VObject _ => Ok arguments
    | _ => Err (invalid "tool arguments must be a JSON object")
    end in
  if bool_decide (name = "status") then Ok Status
  else if bool_decide (name = "login") then Ok Login
  else if bool_decide (name = "logout") then Ok Logout
  else if bool_decide (name = "get") then
    let? path := selection_path arguments in
    let? reveal := optional_bool arguments "reveal" in
    Ok (Get path reveal)
  else if bool_decide (name = "list") then
    let? path := selection_path arguments in Ok (List path)
  else if bool_decide (name = "put_value") then
    let? path := operation_path arguments in
    let? text := require_str arguments "value" in
    let? value := bounded text in
    Ok (PutValue path (mkPlainValue value))
  else if bool_decide (name = "put_secret") then
    let? path := operation_path arguments in
    let? text := require_str arguments "value" in
    let? value := bounded text in
    Ok (PutSecret path (mkSecretInput value))
  else if bool_decide (name = "replace_subtree") then
    let? path := selection_path arguments in
    let? text := require_str arguments "json" in
    let? json := bounded text in
    let? values := map_err (Json.parse_subtree_json from_str path json)
      (λ _, invalid "json is not a valid configuration subtree document") in
    Ok (ReplaceSubtree path values)
  else if bool_decide (name = "delete") then
    let? recurse := optional_bool arguments "recurse" in
    let? path := (if recurse then selection_path arguments else operation_path arguments) in
    Ok (Delete path recurse)
  else if bool_decide (name = "reveal_secret") then
    let? path := operation_path arguments in Ok (RevealSecret path)
  else if bool_decide (name = "alias_add") then
    let? source_path := operation_at arguments "source_path" in
    let? new_path := operation_at arguments "new_path" in
    Ok (AliasAdd source_path new_path)
  else if bool_decide (name = "alias_list") then
    let? path := operation_path arguments in Ok (AliasList path)
  else if bool_decide (name = "list_connections") then Ok ListConnections
  else if bool_decide (name = "create_connection") then
    let? text := require_str arguments "display_name" in
    let? display_name := map_err (Managed.display_name_parse text)
      (λ _, invalid "display_name is not a valid connection name") in
    let? root := selection_at arguments "root" in
    let? permissions := parse_permissions arguments in
    Ok (CreateConnection display_name root permissions)
  else if bool_decide (name = "rotate_connection") then
    let? id := connection_id arguments in Ok (RotateConnection id)
  else if bool_decide (name = "revoke_connection") then
    let? id := connection_id arguments in Ok (RevokeConnection id)
  else Err unknown_tool.

(** *** The catalogue *)

Definition text (s : bytes) : Value := VString s.

Definition tool_with (name description : bytes) (properties : list (bytes * Value)) (required : list bytes) : Value :=
  let schema := VObject [("type" : bytes, text "object"); ("properties" : bytes, VObject properties);
                         ("required" : bytes, VArray (List.map text required));
                         ("additionalProperties" : bytes, VBool false)] in
  VObject [("name" : bytes, text name); ("description" : bytes, text description); ("inputSchema" : bytes, schema)].

Definition tool (name description : bytes) : Value := tool_with name description [] [].

Definition typed (type description : bytes) : Value :=
  VObject [("type" : bytes, text type); ("description" : bytes, text description)].

Definition value_tools (path_property : Value) : list Value := [
  tool "status" "Report the service version and whether the current profile is authenticated. Takes no arguments.";
  tool "login" "Begin an explicit device-authorization login. Surfaces the verification URL and user code as a log notification, then polls the provider to completion and stores the refresh credential. Takes no arguments.";
  tool "logout" "Delete the stored refresh credential for the current profile. Takes no arguments.";
  tool_with "get" "Read the configuration value or subtree at an absolute path, rendered as JSON. Secrets are masked unless 'reveal' is true, in which case each secret is revealed through an explicit authorized reveal."
    [("path" : bytes, path_property);
     ("reveal" : bytes, typed "boolean" "Reveal secret values via explicit authorized reveals (default false).")] ["path"];
  tool_with "list" "List the readable values and child paths directly beneath an absolute path."
    [("path" : bytes, path_property)] ["path"];
  tool_with "put_value" "Create or replace one exact plain configuration value."
    [("path" : bytes, path_property); ("value" : bytes, typed "string" "Plain value to store.")] ["path"; "value"];
  tool_with "put_secret" "Create or replace one exact secret configuration value. The value is never echoed back."
    [("path" : bytes, path_property); ("value" : bytes, typed "string" "Secret value to store.")] ["path"; "value"];
  tool_with "replace_subtree" "Atomically replace every value at or below an absolute path from a strict JSON document (JSON merge)."
    [("path" : bytes, path_property); ("json" : bytes, typed "string" "Strict JSON subtree document.")] ["path"; "json"];
  tool_with "delete" "Permanently delete one exact value, or an entire subtree when 'recurse' is true."
    [("path" : bytes, path_property);
     ("recurse" : bytes, typed "boolean" "Delete the whole subtree at the path (default false).")] ["path"];
  tool_with "reveal_secret" "Reveal the plaintext of one exact secret value through an explicit authorized reveal."
    [("path" : bytes, path_property)] ["path"];
  tool_with "alias_add" "Expose an existing configuration value at an additional canonical path. The source value and the new alias path resolve to the same value thereafter."
    [("source_path" : bytes, typed "string" "Absolute path of the existing value to alias, beginning with '/'.");
     ("new_path" : bytes, typed "string" "Absolute path of the new alias to create, beginning with '/'.")]
    ["source_path"; "new_path"];
  tool_with "alias_list" "List every canonical path resolving to the same value as an exact configuration path, including the path itself."
    [("path" : bytes, path_property)] ["path"] ].

Definition connection_tools : list Value := [
  tool "list_connections" "List metadata for managed application connections rooted in manageable paths. Takes no arguments.";
  tool_with "create_connection" "Create one managed application connection with the given permissions (grants) on its root path, returning its one-time connection URL."
    [("display_name" : bytes, typed "string" "Human-readable connection name.");
     ("root" : bytes, typed "string" "Absolute root path the connection is scoped to.");
     ("permissions" : bytes, VObject [("type" : bytes, text "array");
        ("description" : bytes, text "Permission (grant) names to delegate to the connection.");
        ("items" : bytes, VObject [("type" : bytes, text "string")]); ("maxItems" : bytes, VNumber MAX_PERMISSIONS)])]
    ["display_name"; "root"; "permissions"];
  tool_with "rotate_connection" "Rotate one managed connection's credential, returning a new one-time connection URL."
    [("connection_id" : bytes, typed "string" "Identifier of the connection to rotate.")] ["connection_id"];
  tool_with "revoke_connection" "Permanently revoke one managed connection. Returns no credential."
    [("connection_id" : bytes, typed "string" "Identifier of the connection to revoke.")] ["connection_id"] ].

Definition catalogue : Value :=
  VArray (value_tools (typed "string" "Absolute configuration path beginning with '/'.") ++ connection_tools).

(** *** What a validated call carries *)

Definition tools : list Value := match catalogue with VArray l => l | _ => [] end.
Definition tool_name (t : Value) : option bytes := get "name" t ≫= as_str.
Definition required_keys (t : Value) : list bytes :=
  omap as_str (default [] (schema ← get "inputSchema" t; get "required" schema ≫= as_array)).

(** The arguments the catalogue declares a tool to require. *)
Definition declared (name : bytes) : option (list bytes) :=
  option_map required_keys (List.find (λ t, bool_decide (tool_name t = Some name)) tools).

Definition operation (p : ConfigPath) : Prop := ∃ t, Path.parse_operation t = Ok p.
Definition selection (p : ConfigPath) : Prop := ∃ t, Path.parse_selection t = Ok p.
Definition small (value : bytes) : Prop := (Z.of_nat (length value) ≤ 1048576)%Z.

Definition canonical_call (call : ToolCall) : Prop :=
  match call with
  | Status | Login | Logout | ListConnections => True
  | Get p _ | List p => selection p
  | PutValue p v => operation p ∧ small (expose_plain v)
  | PutSecret p v => operation p ∧ small (expose_input v)
  | ReplaceSubtree p values => selection p ∧
      ∃ from_str json, small json ∧ Json.parse_subtree_json from_str p json = Ok values
  | Delete p recurse => if recurse then selection p else operation p
  | RevealSecret p | AliasList p => operation p
  | AliasAdd p q => operation p ∧ operation q
  | CreateConnection name root permissions =>
      (∃ t, Managed.display_name_parse t = Ok name) ∧ selection root ∧ Managed.permission_set permissions ≠ ∅
  | RotateConnection id | RevokeConnection id => ∃ t, Managed.connection_id_parse t = Ok id
  end.

(** Every way a call is rejected. *)
Definition rejections : list ToolFailure := unknown_tool :: List.map invalid [
  "tool arguments must be a JSON object"; "a required string argument is missing or not a string";
  "a boolean argument has the wrong type"; "value exceeds the maximum accepted size";
  "path must name a configuration value"; "path must name a configuration subtree";
  "json is not a valid configuration subtree document"; "display_name is not a valid connection name";
  "connection_id is not a valid connection identifier"; "permissions must be an array of permission names";
  "too many permissions were requested"; "each permission must be a string";
  "an unknown permission name was requested"; "the requested permission set is invalid"].

(** What was accepted satisfies [P], and what was rejected was so without a word
    about it. *)
Definition checks {A} (P : A → Prop) (r : result A ToolFailure) : Prop :=
  match r with Ok a => P a | Err f => f ∈ rejections end.

Lemma checks_bind {A C} (P : A → Prop) (Q : C → Prop) (m : result A ToolFailure) (k : A → result C ToolFailure) :
  checks P m → (∀ a, P a → checks Q (k a)) → checks Q (and_then m k).
Proof. destruct m; cbn; auto. Qed.

Ltac rejected := apply (bool_decide_unpack _); vm_compute; exact I.

Lemma require_str_checks arguments key : checks (λ _, is_Some (get key arguments)) (require_str arguments key).
Proof. unfold require_str. destruct (get key arguments) as [v|]; [destruct v|]; cbn; first [by eexists|rejected]. Qed.

Lemma optional_bool_checks arguments key : checks (λ _, True) (optional_bool arguments key).
Proof. unfold optional_bool. destruct (get key arguments) as [[]|]; cbn; first [exact I|rejected]. Qed.

Lemma bounded_checks t : checks small (bounded t).
Proof.
  unfold bounded, small. change MAX_VALUE_BYTES with 1048576%Z. destruct (Z.ltb_spec 1048576 (Z.of_nat (length t)));
    cbn; [rejected|lia].
Qed.

Lemma operation_at_checks arguments key :
  checks (λ p, operation p ∧ is_Some (get key arguments)) (operation_at arguments key).
Proof.
  eapply checks_bind; [apply require_str_checks|]. intros t Ht.
  destruct (Path.parse_operation t) eqn:E; cbn; [split; [by exists t|done]|rejected].
Qed.

Lemma selection_at_checks arguments key :
  checks (λ p, selection p ∧ is_Some (get key arguments)) (selection_at arguments key).
Proof.
  eapply checks_bind; [apply require_str_checks|]. intros t Ht.
  destruct (Path.parse_selection t) eqn:E; cbn; [split; [by exists t|done]|rejected].
Qed.

Lemma connection_id_checks arguments :
  checks (λ id, (∃ t, Managed.connection_id_parse t = Ok id) ∧ is_Some (get "connection_id" arguments))
    (connection_id arguments).
Proof.
  eapply checks_bind; [apply require_str_checks|]. intros t Ht.
  destruct (Managed.connection_id_parse t) eqn:E; cbn; [split; [by exists t|done]|rejected].
Qed.

Lemma mapM_checks {A C} (f : A → result C ToolFailure) l :
  (∀ a, checks (λ _, True) (f a)) → checks (λ _, True) (mapM (M:=λ X, result X ToolFailure) f l).
Proof.
  intros Hf. induction l as [|a l IH]; [done|]. cbn. specialize (Hf a).
  destruct (f a); cbn in *; [|done]. by destruct (mapM _ l).
Qed.

Lemma parse_permissions_checks arguments :
  checks (λ s, Managed.permission_set s ≠ ∅ ∧ is_Some (get "permissions" arguments)) (parse_permissions arguments).
Proof.
  unfold parse_permissions. destruct (get "permissions" arguments) as [[| | | | |l|]|]; cbn [mbind option_bind as_array checks]; try rejected.
  destruct (_ <? _)%Z; [cbn; rejected|]. eapply checks_bind; [apply mapM_checks|].
  - intros e. unfold parse_permission. destruct (as_str e); cbn; [|rejected].
    destruct (Managed.permission_parse _); cbn; [done|rejected].
  - intros parsed _. unfold Managed.new. case_bool_decide; cbn; [rejected|]. split; [done|by eexists].
Qed.

(** The arguments a call is read from. *)
Definition given (arguments : Value) : Value := match arguments with VNull => VObject [] | _ => arguments end.

(** An accepted call of a declared tool. *)
Definition accepted (name : bytes) (arguments : Value) (call : ToolCall) : Prop :=
  canonical_call call ∧ ∃ keys, declared name = Some keys ∧ Forall (λ key, is_Some (get key arguments)) keys.

Lemma parsed_checks {A} (r : result A ClientError) m : invalid m ∈ rejections →
  checks (λ a, r = Ok a) (map_err r (λ _, invalid m)).
Proof. by destruct r. Qed.

Create HintDb checks.
#[local] Hint Resolve require_str_checks optional_bool_checks bounded_checks operation_at_checks selection_at_checks
  connection_id_checks parse_permissions_checks : checks.

(** Reads off one argument after another; what is left is the call itself. *)
Ltac arguments_checked :=
  repeat (eapply checks_bind; [first [solve [eauto with checks]|apply parsed_checks; rejected]|cbn beta; intros ? ?]);
  cbn [checks]; split; [cbn|eexists; split; [vm_compute; reflexivity|repeat constructor]]; intuition eauto.

(** A tool call reaches the backend only if it names a tool of the catalogue
    and carries every argument declared required there, and then in canonical
    form: parsed paths of the right kind, values of at most a mebibyte, valid
    names, identifiers and non-empty permissions; and a call that is rejected is
    so in one of fifteen fixed ways, none of which repeats any of its input. *)
Theorem calls_are_validated_and_never_echoed from_str name arguments :
  match parse_call from_str name arguments with
  | Ok call => accepted name (given arguments) call
  | Err failure => failure ∈ rejections
  end.
Proof.
  change (checks (accepted name (given arguments)) (parse_call from_str name arguments)). unfold parse_call.
  apply (checks_bind (λ a, a = given arguments)).
  { destruct arguments; cbn; first [done|rejected]. }
  intros a ->. unfold operation_path, selection_path.
  repeat (case_bool_decide as Hname; [subst name; clear -arguments|clear Hname]); [..|cbn; rejected].
  all: try (arguments_checked; fail).
  eapply checks_bind; [eauto with checks|]. intros [] _; arguments_checked.
Qed.
End Mcp.

(** ** backend.rs *)

Record LoginPrompt := mkLoginPrompt {
  lp_verification_uri : bytes; lp_user_code : bytes; lp_verification_uri_complete : option bytes }.

Record ServiceReport := mkServiceReport {
  sr_application_version : bytes; sr_protocol_version : Protocol.ProtocolVersion; sr_deprecation_date : option bytes }.

(** A login that ran: the prompts received while it was waiting, those it sent
    as it completed, and how it ended.  It keeps its end of the channel open
    until then. *)
Record LoginRun := mkLoginRun {
  delivered : list LoginPrompt; late : list LoginPrompt; outcome : result unit ClientError }.

Class Backend (B : Type) := {
  service_status : B → result ServiceReport ClientError * B;
  backend_authentication_status : B → result AuthenticationStatus ClientError * B;
  backend_login : B → LoginRun * B;
  backend_logout : B → result unit ClientError * B;
  backend_get_subtree : ConfigPath → B → result ValueSubTree ClientError * B;
  backend_list_values : ConfigPath → B → result ValueListing ClientError * B;
  backend_put_value : ConfigPath → PlainValue → B → result PutMetadata ClientError * B;
  backend_put_secret : ConfigPath → SecretInput → B → result PutMetadata ClientError * B;
  backend_replace_subtree : ConfigPath → list SubTreeMutationValue → B → result ReplaceMetadata ClientError * B;
  backend_delete_values : ConfigPath → bool → B → result DeleteMetadata ClientError * B;
  backend_reveal_secret : ConfigPath → B → result RevealedSecret ClientError * B;
  backend_add_value_path : ConfigPath → ConfigPath → B → result AddPathMetadata ClientError * B;
  backend_list_value_paths : ConfigPath → B → result ValuePaths ClientError * B;
  list_connections : B → result (list ManagedConnectionMetadata) ClientError * B;
  create_connection : Managed.DisplayName → ConfigPath → Managed.ManagedPermissions → B →
    result ProvisionedManagedConnection ClientError * B;
  rotate_connection : Managed.ConnectionId → B → result ProvisionedManagedConnection ClientError * B;
  revoke_connection : Managed.ConnectionId → B → result unit ClientError * B }.

(** ** server.rs *)

Module Server.

Import Mcp.

Definition DEFAULT_PROTOCOL_VERSION : bytes := "2025-06-18".

Section server.
Context {B : Type} `{Backend B}.
(** [serde_json]: reading a line, the strict reader of a document, and the
    pretty and plain texts of a value. *)
Context (from_str : bytes → option Value) (document : bytes → option Json.RawJson).
Context (to_string_pretty : Value → option bytes) (node_to_string_pretty : Json.JsonNode → option bytes).
Context (to_string : Value → bytes) (server_version : bytes).
(** Whether the output stream takes its n-th message. *)
Context (accepts : nat → bool).

(** The backend, the messages written and how many were tried. *)
Record State := mkState { backend : B; written : list Value; tried : nat }.

Definition send (m : Value) (s : State) : result unit unit * State :=
  if accepts (tried s)
  then (Ok tt, mkState (backend s) (written s ++ [m]) (S (tried s)))
  else (Err tt, mkState (backend s) (written s) (S (tried s))).

Definition to_pretty (value : Value) : bytes := default (to_string value) (to_string_pretty value).

Definition tool_ok (t : bytes) : Value :=
  VObject [("content" : bytes, VArray [VObject [("type" : bytes, text "text"); ("text" : bytes, text t)]]);
           ("isError" : bytes, VBool false)].

Definition tool_error (failure : ToolFailure) : Value :=
  VObject [("content" : bytes, VArray [VObject [("type" : bytes, text "text");
              ("text" : bytes, text (code failure ++ ": " ++ message failure))]]);
           ("isError" : bytes, VBool true);
           ("structuredContent" : bytes, VObject [("error" : bytes, VObject [("code" : bytes, text (code failure));
              ("message" : bytes, text (message failure))])])].

Definition login_notification (prompt : LoginPrompt) : Value :=
  notification "notifications/message"
    (VObject [("level" : bytes, text "info"); ("logger" : bytes, text "sovereign-config-mcp");
       ("data" : bytes, VObject [
          ("message" : bytes, text "Complete the device login to continue.");
          ("verification_uri" : bytes, text (lp_verification_uri prompt));
          ("user_code" : bytes, text (lp_user_code prompt));
          ("verification_uri_complete" : bytes, default VNull (option_map text (lp_verification_uri_complete prompt)))])]).

Definition classification (content : ValueContent) : bytes :=
  match content with ContentPlain _ => "plain" | ContentSecret _ => "secret" end.

Definition render_listing (listing : ValueListing) : bytes :=
  to_pretty (VObject [
    ("values" : bytes, VArray (List.map (λ value, VObject [
       ("path" : bytes, text (Path.as_str (lv_path value)));
       ("classification" : bytes, text (classification (lv_value value)));
       ("value" : bytes, text (display_text (lv_value value)))]) (vl_values listing)));
    ("paths" : bytes, VArray (List.map (λ p, text (Path.as_str p)) (vl_paths listing)))]).

Definition render_value_paths (paths : ValuePaths) : bytes :=
  to_pretty (VObject [("paths" : bytes, VArray (List.map (λ p, text (Path.as_str p)) (vp_paths paths)))]).

Definition connection_json (metadata : ManagedConnectionMetadata) : Value :=
  VObject [("connection_id" : bytes, text (Managed.id_str (cm_connection_id metadata)));
           ("display_name" : bytes, text (Managed.name_str (cm_display_name metadata)));
           ("root" : bytes, text (Path.as_str (cm_root metadata)));
           ("state" : bytes, text (Managed.state_as_str (cm_state metadata)));
           ("permissions" : bytes, VArray (List.map text (Managed.grant_tokens (cm_permissions metadata))));
           ("created_at" : bytes, VNumber (Stamps.seconds (cm_created_at metadata)));
           ("updated_at" : bytes, VNumber (Stamps.seconds (cm_updated_at metadata)))].

Definition provisioned_text (action : bytes) (provisioned : ProvisionedManagedConnection) : bytes :=
  action ++ [newline] ++ to_pretty (connection_json (pm_metadata provisioned)) ++ [newline]
  ++ "connection_url: " ++ expose_secret (Connection.canonical (pm_connection_url provisioned)).

(** A tool's text or failure. *)
Definition Tool : Type := State → result bytes ToolFailure * State.

Definition done (t : bytes) : Tool := λ s, (Ok t, s).

(** [self.backend.call().await?] *)
Definition on_backend {A} (m : B → result A ClientError * B) (k : A → Tool) : Tool := λ s,
  match m (backend s) with
  | (Ok a, b) => k a (mkState b (written s) (tried s))
  | (Err e, b) => (Err (from_client e), mkState b (written s) (tried s))
  end.

Fixpoint reveal_subtree (values : list SubTreeValue) (k : list SubTreeValue → Tool) : Tool :=
  match values with
  | [] => k []
  | value :: values' =>
      match stv_value value with
      | ContentPlain _ => reveal_subtree values' (λ rest, k (value :: rest))
      | ContentSecret _ =>
          on_backend (backend_reveal_secret (stv_path value)) (λ revealed,
            reveal_subtree values' (λ rest,
              k (mkSubTreeValue (stv_path value) (ContentPlain (mkPlainValue (expose_revealed revealed))) :: rest)))
      end
  end.

Definition render_get (path : ConfigPath) (subtree : ValueSubTree) (reveal : bool) : Tool :=
  let render values : Tool := λ s,
    (map_err (Json.render_subtree_json node_to_string_pretty path values) from_client, s) in
  if reveal then reveal_subtree (vst_values subtree) render else render (vst_values subtree).

Definition status : Tool :=
  on_backend service_status (λ service,
  on_backend backend_authentication_status (λ authentication,
    let retirement := match sr_deprecation_date service with
                      | Some date => [newline] ++ "Protocol retirement announced: not before " ++ date
                      | None => []
                      end in
    done ("Service " ++ sr_application_version service ++ " (protocol "
          ++ Protocol.as_str (sr_protocol_version service) ++ ")" ++ retirement ++ [newline]
          ++ "Authentication: " ++ (if authenticated authentication then "logged in" else "logged out")))).

(** Sends what it can: a message the stream does not take is let go. *)
Fixpoint announce (prompts : list LoginPrompt) (s : State) : State :=
  match prompts with
  | [] => s
  | prompt :: prompts' => announce prompts' (send (login_notification prompt) s).2
  end.

Definition login : Tool := λ s,
  let '(run, b) := backend_login (backend s) in
  let s := announce (delivered run) (mkState b (written s) (tried s)) in
  match outcome run with
  | Err e => (Err (from_client e), s)
  | Ok _ =>
      let s := announce (late run) s in
      (Ok (match last (delivered run ++ late run) with
           | Some prompt => "Logged in. If prompted, visit " ++ lp_verification_uri prompt ++ " and enter code "
                            ++ lp_user_code prompt ++ "."
           | None => "Logged in"
           end), s)
  end.

Definition execute (call : ToolCall) : Tool :=
  match call with
  | Status => status
  | Login => login
  | Logout => on_backend backend_logout (λ _, done "Logged out")
  | Get path reveal => on_backend (backend_get_subtree path) (λ subtree, render_get path subtree reveal)
  | List path => on_backend (backend_list_values path) (λ listing, done (render_listing listing))
  | PutValue path value => on_backend (backend_put_value path value) (λ _, done "Value stored")
  | PutSecret path value => on_backend (backend_put_secret path value) (λ _, done "Secret stored")
  | ReplaceSubtree path values => on_backend (backend_replace_subtree path values) (λ metadata,
      done ("Subtree replaced (" ++ show_Z (value_count metadata) ++ " values)"))
  | Delete path recurse => on_backend (backend_delete_values path recurse) (λ metadata,
      done (if recurse then "Subtree deleted (" ++ show_Z (deleted_count metadata) ++ " values)"
            else "Value deleted"))
  | RevealSecret path => on_backend (backend_reveal_secret path) (λ revealed, done (expose_revealed revealed))
  | AliasAdd source_path new_path => on_backend (backend_add_value_path source_path new_path) (λ _,
      done ("Alias created at " ++ Path.as_str new_path))
  | AliasList path => on_backend (backend_list_value_paths path) (λ paths, done (render_value_paths paths))
  | ListConnections => on_backend list_connections (λ connections,
      done (to_pretty (VArray (List.map connection_json connections))))
  | CreateConnection display_name root permissions =>
      on_backend (create_connection display_name root permissions) (λ provisioned,
        done (provisioned_text "Connection created" provisioned))
  | RotateConnection connection_id => on_backend (rotate_connection connection_id) (λ provisioned,
      done (provisioned_text "Connection rotated" provisioned))
  | RevokeConnection connection_id => on_backend (revoke_connection connection_id) (λ _, done "Connection revoked")
  end.

Definition initialize_result (params : Value) : Value :=
  let protocol_version :=
    default DEFAULT_PROTOCOL_VERSION
      (version ← get "protocolVersion" params ≫= as_str; if is_empty version then None else Some version) in
  VObject [("protocolVersion" : bytes, text protocol_version);
           ("capabilities" : bytes, VObject [("tools" : bytes, VObject []); ("logging" : bytes, VObject [])]);
           ("serverInfo" : bytes, VObject [("name" : bytes, text "sovereign-config-mcp");
                                           ("version" : bytes, text server_version)])].

Definition handle_tools_call (id params : Value) : State → result unit unit * State := λ s,
  match get "name" params ≫= as_str with
  | None => send (error id INVALID_PARAMS "tools/call requires a string name") s
  | Some name =>
      let arguments := default (VObject []) (get "arguments" params) in
      let '(result, s) := match parse_call document name arguments with
                          | Ok call => execute call s
                          | Err failure => (Err failure, s)
                          end in
      send (success id (match result with Ok t => tool_ok t | Err failure => tool_error failure end)) s
  end.

Definition handle_request (id : Value) (method : bytes) (params : Value) : State → result unit unit * State :=
  if bool_decide (method = "initialize") then send (success id (initialize_result params))
  else if bool_decide (method = "tools/list") then send (success id (VObject [("tools" : bytes, catalogue)]))
  else if bool_decide (method = "ping") then send (success id (VObject []))
  else if bool_decide (method = "tools/call") then handle_tools_call id params
  else send (error id METHOD_NOT_FOUND "method not found").

Definition handle_line (line : bytes) : State → result unit unit * State :=
  match parse_incoming from_str line with
  | Request id method params => handle_request id method params
  | Notification _ => λ s, (Ok tt, s)
  | Invalid (Some id) code => send (error id code "invalid request")
  | Invalid None _ => λ s, (Ok tt, s)
  end.

(** The lines of the input, one that cannot be read as [None]. *)
Fixpoint run (lines : list (option bytes)) (s : State) : result unit unit * State :=
  match lines with
  | [] => (Ok tt, s)
  | None :: _ => (Err tt, s)
  | Some line :: lines' =>
      if is_empty (trim line) then run lines' s
      else match handle_line line s with
           | (Ok _, s') => run lines' s'
           | (Err e, s') => (Err e, s')
           end
  end.

(** ** Who is answered *)

(** The identifiers of the answers a line is owed. *)
Definition owed (line : option bytes) : list Value :=
  match line with
  | None => []
  | Some line =>
      if is_empty (trim line) then []
      else match parse_incoming from_str line with
           | Request id _ _ => [id]
           | Notification _ => []
           | Invalid id _ => match id with Some id => [id] | None => [] end
           end
  end.

(** An answer carries an identifier and either a result or an error; anything
    else written is a log message without one. *)
Definition answer (m : Value) : Prop :=
  get "jsonrpc" m = Some (VString "2.0")
  ∧ ((is_Some (get "result" m) ∧ get "error" m = None) ∨ (is_Some (get "error" m) ∧ get "result" m = None)).
Definition log (m : Value) : Prop :=
  get "jsonrpc" m = Some (VString "2.0") ∧ get "method" m = Some (VString "notifications/message").
Definition well_formed (m : Value) : Prop :=
  match get "id" m with Some _ => answer m | None => log m end.

(** What was written between two states: well formed, and answering [ids]. *)
Definition wrote (ids : list Value) (s s' : State) : Prop :=
  ∃ ms, written s' = written s ++ ms ∧ omap (get "id") ms = ids ∧ Forall well_formed ms.

Lemma wrote_refl s : wrote [] s s.
Proof. exists []. by rewrite app_nil_r. Qed.

Lemma wrote_trans ids ids' s1 s2 s3 : wrote ids s1 s2 → wrote ids' s2 s3 → wrote (ids ++ ids') s1 s3.
Proof.
  intros (m1 & E1 & <- & F1) (m2 & E2 & <- & F2). exists (m1 ++ m2).
  rewrite E2, E1, app_assoc, omap_app. split; [done|]. split; [done|]. by apply Forall_app.
Qed.

Lemma wrote_same s s' : written s' = written s → wrote [] s s'.
Proof. intros E. exists []. by rewrite app_nil_r. Qed.

Lemma send_wrote m s : well_formed m →
  (send m s).1 = Ok tt ∧ wrote (omap (get "id") [m]) s (send m s).2
  ∨ (send m s).1 = Err tt ∧ accepts (tried s) = false ∧ wrote [] s (send m s).2.
Proof.
  intros Hm. unfold send. destruct (accepts (tried s)); cbn [fst snd]; [left|right].
  - split; [done|]. exists [m]. split; [done|]. split; [done|by constructor].
  - split; [done|]. split; [done|]. by apply wrote_same.
Qed.

Lemma announce_wrote prompts s : wrote [] s (announce prompts s).
Proof.
  revert s. induction prompts as [|p prompts IH]; intros s; [apply wrote_refl|]. cbn [announce].
  apply (wrote_trans [] []  _ (send (login_notification p) s).2); [|apply IH].
  destruct (send_wrote (login_notification p) s) as [[_ H']|(_ & _ & H')]; [done|exact H'|exact H'].
Qed.

(** Nothing a tool does answers anyone. *)
Definition quiet (t : Tool) : Prop := ∀ s, wrote [] s (t s).2.

Lemma done_quiet t : quiet (done t).
Proof. intros s. apply wrote_refl. Qed.

Lemma on_backend_quiet {A} (m : B → result A ClientError * B) k : (∀ a, quiet (k a)) → quiet (on_backend m k).
Proof.
  intros Hk s. unfold on_backend. destruct (m (backend s)) as [[a|e] b]; [|by apply wrote_same].
  eapply (wrote_trans [] []); [|apply Hk]. by apply wrote_same.
Qed.

Lemma reveal_subtree_quiet values : ∀ k, (∀ vs, quiet (k vs)) → quiet (reveal_subtree values k).
Proof.
  induction values as [|v values IH]; intros k Hk; [apply Hk|]. cbn [reveal_subtree].
  destruct (stv_value v); [by apply IH|]. apply on_backend_quiet. intros r. by apply IH.
Qed.

Lemma login_quiet : quiet login.
Proof.
  intros s. unfold login. destruct (backend_login (backend s)) as [r b].
  apply (wrote_trans [] [] s (mkState b (written s) (tried s))); [by apply wrote_same|].
  destruct (outcome r); cbn [snd]; [|apply announce_wrote].
  eapply (wrote_trans [] []); apply announce_wrote.
Qed.

Lemma execute_quiet call : quiet (execute call).
Proof.
  destruct call; cbn [execute]; try (apply on_backend_quiet; intros ?; apply done_quiet); [..|apply on_backend_quiet].
  - apply on_backend_quiet. intros service. apply on_backend_quiet. intros a. apply done_quiet.
  - apply login_quiet.
  - intros subtree. unfold render_get. destruct reveal; [apply reveal_subtree_quiet; intros vs|]; intros s; apply wrote_refl.
Qed.

(** One step of the loop: it answers what is owed, or the stream refused. *)
Definition settled (ids : list Value) (s : State) (r : result unit unit * State) : Prop :=
  (r.1 = Ok tt ∧ wrote ids s r.2) ∨ (r.1 = Err tt ∧ (∃ n, accepts n = false) ∧ wrote [] s r.2).

Lemma send_settled id m s : get "id" m = Some id → answer m → settled [id] s (send m s).
Proof.
  intros Hid Ha. assert (well_formed m) as Hm by (unfold well_formed; by rewrite Hid).
  destruct (send_wrote m s Hm) as [[Hr Hw]|(Hr & Hn & Hw)]; [left|right; eauto].
  cbn [omap list_omap] in Hw. by rewrite Hid in Hw.
Qed.

Lemma success_settled id v s : settled [id] s (send (success id v) s).
Proof. apply send_settled; [done|]. split; [done|]. left. split; [by eexists|done]. Qed.

Lemma error_settled id c m s : settled [id] s (send (error id c m) s).
Proof. apply send_settled; [done|]. split; [done|]. right. split; [by eexists|done]. Qed.

Lemma handle_request_settled id method params s : settled [id] s (handle_request id method params s).
Proof.
  unfold handle_request. repeat case_bool_decide; try apply success_settled; try apply error_settled.
  unfold handle_tools_call. destruct (get "name" params ≫= as_str) as [name|]; [|apply error_settled].
  destruct (match parse_call document name _ with Ok _ => _ | Err _ => _ end) as [r s1] eqn:E.
  assert (wrote [] s s1) as Hw.
  { change s1 with (r, s1).2. rewrite <- E. destruct (parse_call document name _); [apply execute_quiet|apply wrote_refl]. }
  destruct (success_settled id (match r with Ok t => tool_ok t | Err f => tool_error f end) s1) as [[Hr Hs]|(Hr & Hn & Hs)].
  - left. split; [done|]. by apply (wrote_trans [] [id] s s1).
  - right. split; [done|]. split; [done|]. by apply (wrote_trans [] [] s s1).
Qed.

Lemma handle_line_settled line s : is_empty (trim line) = false → settled (owed (Some line)) s (handle_line line s).
Proof.
  intros Hl. unfold handle_line, owed. rewrite Hl.
  destruct (parse_incoming from_str line) as [id method params|method|[id|] c].
  - apply handle_request_settled.
  - left. split; [done|apply wrote_refl].
  - apply error_settled.
  - left. split; [done|apply wrote_refl].
Qed.

(** C25: every request is answered exactly once and in order, under its own
    identifier, with a result or an error, and nothing else is: not a
    notification, not a blank or a malformed line that carries no identifier, nor
    what a tool does while it runs, which can write log messages alone.  Should
    the stream refuse a message or a line be unreadable, what was answered is
    still a prefix of what is owed; otherwise all of it is answered. *)
Theorem every_request_is_answered_once lines s r s' : run lines s = (r, s') →
  ∃ ms, written s' = written s ++ ms ∧ Forall well_formed ms
    ∧ omap (get "id") ms `prefix_of` flat_map owed lines
    ∧ (r = Ok tt → omap (get "id") ms = flat_map owed lines)
    ∧ ((∀ n, accepts n = true) → Forall is_Some lines → r = Ok tt).
Proof.
  revert s. induction lines as [|[line|] lines IH]; intros s.
  - intros [= <- <-]. exists []. rewrite app_nil_r. repeat split; try done; constructor.
  - cbn [run]. destruct (is_empty (trim line)) eqn:Eb.
    { intros (ms & Ew & Hf & Hp & Hok & Hall)%IH. exists ms. cbn [flat_map owed]. rewrite Eb.
      repeat (split; [done|]). intros Ha [_ Hl]%Forall_cons. by apply Hall. }
    intros Hr. destruct (handle_line_settled line s Eb) as [[Er Hw]|(Er & [n Hn] & Hw)];
      destruct (handle_line line s) as [[[]|[]] s1]; try done; cbn [snd] in Hw.
    + apply IH in Hr as (ms2 & Ew2 & Hf2 & Hp & Hok & Hall). destruct Hw as (ms1 & Ew1 & Ei & Hf1).
      exists (ms1 ++ ms2). cbn [flat_map]. rewrite omap_app, Ei, Ew2, Ew1, app_assoc. split; [done|].
      split; [by apply Forall_app|]. split; [by apply prefix_app|]. split; [intros E; by rewrite Hok|].
      intros Ha [_ Hl]%Forall_cons. by apply Hall.
    + injection Hr as <- <-. destruct Hw as (ms & Ew & Ei & Hf). exists ms. rewrite Ei.
      split; [done|]. split; [done|]. split; [apply prefix_nil|]. split; [done|]. intros Ha. by rewrite Ha in Hn.
  - intros [= <- <-]. exists []. rewrite app_nil_r. split; [done|]. split; [done|]. split; [apply prefix_nil|].
    split; [done|]. intros _ [[? ?] _]%Forall_cons. done.
Qed.
End server.

(** *** A login, a notification and a malformed request *)

Definition sample_refusal : ClientError := mkClientError Core.Unavailable "down".

#[local] Instance sample_backend : Backend unit := {|
  service_status b := (Err sample_refusal, b);
  backend_authentication_status b := (Err sample_refusal, b);
  backend_login b := (mkLoginRun [mkLoginPrompt "https://id.test" "ABCD" None] [] (Ok tt), b);
  backend_logout b := (Ok tt, b);
  backend_get_subtree _ b := (Err sample_refusal, b);
  backend_list_values _ b := (Err sample_refusal, b);
  backend_put_value _ _ b := (Err sample_refusal, b);
  backend_put_secret _ _ b := (Err sample_refusal, b);
  backend_replace_subtree _ _ b := (Err sample_refusal, b);
  backend_delete_values _ _ b := (Err sample_refusal, b);
  backend_reveal_secret _ b := (Err sample_refusal, b);
  backend_add_value_path _ _ b := (Err sample_refusal, b);
  backend_list_value_paths _ b := (Err sample_refusal, b);
  list_connections b := (Err sample_refusal, b);
  create_connection _ _ _ b := (Err sample_refusal, b);
  rotate_connection _ b := (Err sample_refusal, b);
  revoke_connection _ b := (Err sample_refusal, b) |}.

Definition sample_from_str (line : bytes) : option Value :=
  if bool_decide (line = "login") then
    Some (VObject [("id" : bytes, VNumber 1); ("method" : bytes, VString "tools/call");
                   ("params" : bytes, VObject [("name" : bytes, VString "login")])])
  else if bool_decide (line = "initialized") then
    Some (VObject [("method" : bytes, VString "notifications/initialized")])
  else if bool_decide (line = "methodless") then Some (VObject [("id" : bytes, VNumber 7)])
  else None.

Definition sample_run : result unit unit * @State unit :=
  run sample_from_str (λ _, None) (λ _, None) (λ _, None) (λ _, []) "1.0" (λ _, true)
    [Some ("login" : bytes); Some ("initialized" : bytes); Some (" " : bytes); Some ("?" : bytes); Some ("methodless" : bytes)]
    (mkState tt [] 0).

Lemma every_request_is_answered_once_witness :
  length (written sample_run.2) = 3 ∧ omap (get "id") (written sample_run.2) = [VNumber 1; VNumber 7].
Proof.
  split; [vm_compute; reflexivity|].
  destruct (every_request_is_answered_once sample_from_str (λ _, None) (λ _, None) (λ _, None) (λ _, []) "1.0" (λ _, true)
    [Some ("login" : bytes); Some ("initialized" : bytes); Some (" " : bytes); Some ("?" : bytes); Some ("methodless" : bytes)]
    (mkState tt [] 0) sample_run.1 sample_run.2 (surjective_pairing sample_run)) as (ms & Ew & _ & _ & Hok & Hall).
  cbn [written app] in Ew. rewrite Ew, Hok; [vm_compute; reflexivity|].
  apply Hall; [reflexivity|]. repeat constructor; by eexists.
Defined.

(** The schemas declare no further arguments; a call that has some is accepted. *)
Example further_arguments_are_let_through :
  parse_call (λ _, None) "logout" (VObject [("unexpected" : bytes, VNumber 1)]) = Ok Logout.
Proof. reflexivity. Qed.

(** A revision of the protocol the server does not know is agreed to. *)
Example any_revision_is_agreed_to :
  get "protocolVersion" (initialize_result "1.0" (VObject [("protocolVersion" : bytes, VString "1999-01-01")]))
  = Some (VString "1999-01-01").
Proof. reflexivity. Qed.
End Server.
