(* ===== verification/Authentik.v ===== *)
(** * The production identity provider

    Models [crates/sovereign-config-authentik/src]: the settings checked at
    startup ([config.rs]), the administration client with its classification of
    every failure ([client.rs]), the replacement password ([password.rs]) and the
    provider ([provider.rs]).  The identity server, its URLs and the derived JSON
    decoders are parameters; what its API documents is the class [ServerLaws]. *)

From stdpp Require Import strings.
From S2P Require Import Prelude Bytes ConfigPath Core PlainText Encryption Managed Auth AuditEvent Rpc Database ConnectionUrl Identity ManagedStore ManagedService AuditQuery AuditPages JsonValue.

Local Open Scope bytes_scope.

Module Authentik.

Import Identity.

(** ** config.rs *)

Record AuthentikConfig := mkConfig {
  cf_api_origin : Url; cf_api_token : Secret; cf_client_id : bytes; cf_grants_attribute : bytes;
  cf_managed_group : bytes; cf_timeout : Z }.

Definition validated_client_id (value : bytes) : result bytes bytes :=
  if negb (admits_client_id value)
  then Err "the managed accounts' OAuth client id is not one a connection URL admits" else Ok value.

Definition client_id_for (client_id audience : bytes) : result bytes bytes :=
  let? client_id := validated_client_id client_id in
  if negb (bool_decide (client_id = audience))
  then Err "with Authentik, the access URLs' OAuth client id must be the token audience: a token minted through any other client carries that client's id as its audience"
  else Ok client_id.

Definition validated_grants_attribute (value : bytes) : result bytes bytes :=
  if is_empty value || (64 <? length value)
     || negb (forallb (λ c, is_ascii_lowercase c || is_ascii_digit c || bool_decide (c = "_"%char)) value)
  then Err "SOVEREIGN_CONFIG_MANAGER_GRANTS_ATTRIBUTE is not a permitted attribute name" else Ok value.

Definition validated_group_name (value : bytes) : result bytes bytes :=
  if is_empty value || negb (bool_decide (trim value = value)) || (100 <? length (chars value))
     || existsb char_is_control (chars value)
  then Err "SOVEREIGN_CONFIG_MANAGER_GROUP is not a permitted group name" else Ok value.

Definition issuer_api_origin `{UrlCrates} (issuer : Url) : result Url bytes :=
  ok_or (url_parse (u_origin issuer)) "SOVEREIGN_CONFIG_OIDC_ISSUER origin is not a permitted API origin".

Definition config_new `{UrlCrates} (issuer : Url) (api_token : Secret)
    (client_id audience grants_attribute managed_group : bytes) (timeout : Z) : result AuthentikConfig bytes :=
  let? api_origin := issuer_api_origin issuer in
  let? client_id := client_id_for client_id audience in
  let? grants_attribute := validated_grants_attribute grants_attribute in
  let? managed_group := validated_group_name managed_group in
  Ok (mkConfig api_origin api_token client_id grants_attribute managed_group timeout).

(** ** password.rs *)

Definition APP_PASSWORD_CHARS : nat := 48.
Definition ALPHABET : bytes := "ABCDEFGHIJKLMNOPQRSTUVWXYZabcdefghijklmnopqrstuvwxyz0123456789".

(** The loop, over the buffers the random source will fill: [None] is a failing
    source. *)
Fixpoint draw (value : bytes) (source : list (option bytes)) : option bytes * list (option bytes) :=
  if (APP_PASSWORD_CHARS <=? length value)%nat then (Some value, source)
  else match source with
       | Some buffer :: source' => draw (foldl (Names.push_byte ALPHABET APP_PASSWORD_CHARS) value buffer) source'
       | None :: source' => (None, source')
       | [] => (None, [])
       end.

Definition generate_app_password (source : list (option bytes)) : option Secret * list (option bytes) :=
  let '(r, source') := draw [] source in (option_map mkSecret r, source').

(** ** client.rs *)

Definition MAX_ADMIN_RESPONSE_BYTES : Z := 256 * 1024.
Definition MAX_EXTERNAL_IDENTIFIER_CHARS : nat := 128.
Definition SERVICE_ACCOUNT_ROUTE : bytes := "/api/v3/core/users/service_account/".
Definition USERS_ROUTE : bytes := "/api/v3/core/users/".
Definition GROUPS_ROUTE : bytes := "/api/v3/core/groups/".
Definition TOKENS_ROUTE : bytes := "/api/v3/core/tokens/".

Definition user_route (user_id : Z) : bytes := "/api/v3/core/users/" ++ show_Z user_id ++ "/".
Definition set_key_route (identifier : bytes) : bytes := "/api/v3/core/tokens/" ++ identifier ++ "/set_key/".

Inductive Method := GET | POST | PATCH | DELETE.
#[global] Instance Method_eq_dec : EqDecision Method.
Proof. solve_decision. Defined.

(** What an endpoint is: the URL of a path on the origin, and a query. *)
Record Endpoint := mkEndpoint { ep_url : Url; ep_path : bytes; ep_query : list (bytes * bytes) }.

Record Request := mkRequest {
  rq_method : Method; rq_endpoint : Endpoint; rq_token : Secret; rq_body : option Value }.

(** The predicates of [reqwest::Error]. *)
Record SendError := mkSendError {
  is_timeout : bool; is_connect : bool; is_builder : bool; is_request : bool; is_redirect : bool }.

(** How sending ends: with an error, or an answer whose body arrives in chunks,
    each of which may fail, by a timeout or not. *)
Inductive Exchange :=
| Failed (e : SendError)
| Answered (status : Z) (content_length : option Z) (chunks : list (result bytes bool)).

Record AuthentikAdminClient := mkClient { api_origin : Url; api_token : Secret }.

Record CreatedServiceAccount := mkCreated { ca_user_id : Z; ca_user_uid : bytes; ca_app_password : Secret }.

(** The answers the methods decode. *)
Record ServiceAccountResponse := mkServiceAccount {
  sa_username : bytes; sa_user_uid : bytes; sa_user_pk : Z; sa_token : bytes }.
Record GroupRecord := mkGroup { gr_pk : bytes; gr_name : bytes }.
Record UserRecord := mkUser { ur_pk : Z; ur_username : bytes }.
Record TokenRecord := mkToken { tr_identifier : bytes }.

Class AuthentikCrates := {
  url_join : Url → bytes → option Url;
  service_account_from_slice : bytes → option ServiceAccountResponse;
  groups_from_slice : bytes → option (list GroupRecord);
  users_from_slice : bytes → option (list UserRecord);
  tokens_from_slice : bytes → option (list TokenRecord) }.

(** [reqwest]'s end of a call. *)
Class Http (W : Type) := http : Request → W → Exchange * W.

Definition loopback_host (host : bytes) : bool :=
  Ip.is_loopback (rev (drop_while (λ c, bool_decide (c ∈ ["["; "]"]%char)) (rev
                       (drop_while (λ c, bool_decide (c ∈ ["["; "]"]%char)) host)))).

Definition client_new (api_origin : Url) (api_token : Secret) (client_builds : bool) : result AuthentikAdminClient bytes :=
  let loopback_http := bool_decide (u_scheme api_origin = "http")
    && match u_host_str api_origin with Some host => loopback_host host | None => false end in
  if negb (bool_decide (u_scheme api_origin = "https") || loopback_http)
     || bool_decide (u_host_str api_origin = None)
     || negb (is_empty (u_username api_origin))
     || bool_decide (is_Some (u_password api_origin))
     || negb (bool_decide (u_path api_origin = "/"))
     || bool_decide (is_Some (u_query api_origin))
     || bool_decide (is_Some (u_fragment api_origin))
  then Err "managed connection API origin is not permitted"
  else if negb client_builds then Err "unable to build managed connection API client"
  else Ok (mkClient api_origin api_token).

Definition classify_transport (e : SendError) : ProviderError :=
  if is_timeout e then Ambiguous
  else if is_connect e || is_builder e || is_request e then Unavailable
  else if is_redirect e then Invalid
  else Ambiguous.

Definition classify_status (status : Z) : ProviderError :=
  if (status =? 404)%Z then NotFound
  else if (400 <=? status)%Z && (status <? 500)%Z then Rejected
  else if (300 <=? status)%Z && (status <? 400)%Z then Invalid
  else Ambiguous.

Definition is_success (status : Z) : bool := (200 <=? status)%Z && (status <? 300)%Z.

Fixpoint read_chunks (body : bytes) (chunks : list (result bytes bool)) : result bytes ProviderError :=
  match chunks with
  | [] => Ok body
  | Err timed_out :: _ => Err (if (timed_out : bool) then Ambiguous else Invalid)
  | Ok chunk :: chunks' =>
      if (MAX_ADMIN_RESPONSE_BYTES <? Z.of_nat (length body) + Z.of_nat (length chunk))%Z then Err Invalid
      else read_chunks (body ++ chunk) chunks'
  end.

Definition expect_success (status : Z) (content_length : option Z) (chunks : list (result bytes bool))
  : result bytes ProviderError :=
  if negb (is_success status) then Err (classify_status status)
  else if match content_length with Some n => (MAX_ADMIN_RESPONSE_BYTES <? n)%Z | None => false end
  then Err Invalid
  else read_chunks [] chunks.

Section client.
Context {W : Type} `{AuthentikCrates} `{Http W}.
Context (self : AuthentikAdminClient).

Definition Admin (A : Type) : Type := W → result A ProviderError * W.

Definition admin_ret {A} (r : result A ProviderError) : Admin A := λ w, (r, w).
Definition admin_try {A B} (m : Admin A) (k : A → Admin B) : Admin B := λ w,
  match m w with
  | (Ok a, w') => k a w'
  | (Err e, w') => (Err e, w')
  end.
Notation "'ask!' x := m 'in' k" := (admin_try m (λ x, k))
  (at level 100, x name, m at level 60, k at level 200).

Definition call (method : Method) (endpoint : Endpoint) (body : option Value) : Admin bytes := λ w,
  let '(exchange, w') := http (mkRequest method endpoint (api_token self) body) w in
  (match exchange with
   | Answered status content_length chunks => expect_success status content_length chunks
   | Failed e => Err (classify_transport e)
   end, w').

Definition endpoint_with (path : bytes) (query : list (bytes * bytes)) : Admin Endpoint :=
  admin_ret (let? url := ok_or (url_join (api_origin self) path) Invalid in Ok (mkEndpoint url path query)).

Definition endpoint (path : bytes) : Admin Endpoint := endpoint_with path [].

Definition create_body (username : bytes) : Value :=
  VObject [("name" : bytes, VString username); ("create_group" : bytes, VBool false); ("expiring" : bytes, VBool false)].

Definition create_service_account (username : bytes) : Admin CreatedServiceAccount :=
  ask! url := endpoint SERVICE_ACCOUNT_ROUTE in
  ask! body := call POST url (Some (create_body username)) in
  admin_ret
    (let? decoded := ok_or (service_account_from_slice body) Invalid in
     if negb (bool_decide (sa_username decoded = username))
        || is_empty (sa_token decoded)
        || existsb is_ascii_control (sa_token decoded)
        || contains_byte ":"%char (sa_token decoded)
        || is_empty (sa_user_uid decoded)
        || (MAX_EXTERNAL_IDENTIFIER_CHARS <? length (sa_user_uid decoded))%nat
     then Err Invalid
     else Ok (mkCreated (sa_user_pk decoded) (sa_user_uid decoded) (mkSecret (sa_token decoded)))).

Definition attributes_of (connection_id grants_attribute root : bytes) (permissions : list bytes) : Value :=
  let grants := VArray [VObject [("prefix" : bytes, VString root);
                                 ("permissions" : bytes, VArray (List.map VString permissions))]] in
  VObject (map_insert grants_attribute grants
          (map_insert "sovereign_config_managed" (VString connection_id)
          (map_insert "goauthentik.io/user/token-expires" (VBool false)
          (map_insert "goauthentik.io/user/service-account" (VBool true) [])))).

Definition set_managed_attributes (user_id : Z) (connection_id display_name grants_attribute root : bytes)
    (permissions : list bytes) : Admin unit :=
  ask! url := endpoint (user_route user_id) in
  ask! _ := call PATCH url (Some (VObject [("name" : bytes, VString display_name);
    ("attributes" : bytes, attributes_of connection_id grants_attribute root permissions)])) in
  admin_ret (Ok tt).

(** The one record that matches, if it is the only one. *)
Definition only {A} (matching : list A) : result (option A) ProviderError :=
  match matching with [] => Ok None | [a] => Ok (Some a) | _ => Err Invalid end.

Definition find_group_by_name (name : bytes) : Admin (option bytes) :=
  ask! url := endpoint_with GROUPS_ROUTE [("name" : bytes, name)] in
  ask! body := call GET url None in
  admin_ret
    (let? decoded := ok_or (groups_from_slice body) Invalid in
     let matching := List.filter (λ record,
       bool_decide (gr_name record = name) && negb (is_empty (gr_pk record))
       && (length (gr_pk record) <=? MAX_EXTERNAL_IDENTIFIER_CHARS)%nat) decoded in
     let? found := only matching in Ok (option_map gr_pk found)).

Definition add_user_to_group (user_id : Z) (group_id : bytes) : Admin unit :=
  ask! url := endpoint (user_route user_id) in
  ask! _ := call PATCH url (Some (VObject [("groups" : bytes, VArray [VString group_id])])) in
  admin_ret (Ok tt).

Definition rename_user (user_id : Z) (name : bytes) : Admin unit :=
  ask! url := endpoint (user_route user_id) in
  ask! _ := call PATCH url (Some (VObject [("name" : bytes, VString name)])) in
  admin_ret (Ok tt).

Definition find_user_by_username (username : bytes) : Admin (option Z) :=
  ask! url := endpoint_with USERS_ROUTE [("username" : bytes, username)] in
  ask! body := call GET url None in
  admin_ret
    (let? decoded := ok_or (users_from_slice body) Invalid in
     let? found := only (List.filter (λ record, bool_decide (ur_username record = username)) decoded) in
     Ok (option_map ur_pk found)).

Definition identifier_byte (c : ascii) : bool :=
  is_ascii_alphanumeric c || bool_decide (c ∈ ["-"; "_"; "."]%char).

Definition find_app_password_identifiers (username : bytes) : Admin (list bytes) :=
  ask! url := endpoint_with TOKENS_ROUTE [("user__username" : bytes, username); ("intent" : bytes, "app_password" : bytes)] in
  ask! body := call GET url None in
  admin_ret
    (let? decoded := ok_or (tokens_from_slice body) Invalid in
     let identifiers := List.map tr_identifier decoded in
     if existsb (λ identifier, is_empty identifier
          || (MAX_EXTERNAL_IDENTIFIER_CHARS <? length identifier)%nat
          || negb (forallb identifier_byte identifier)) identifiers
     then Err Invalid else Ok identifiers).

Definition set_credential_secret (identifier : bytes) (replacement : Secret) : Admin unit :=
  ask! url := endpoint (set_key_route identifier) in
  ask! _ := call POST url (Some (VObject [("key" : bytes, VString (expose_secret replacement))])) in
  admin_ret (Ok tt).

Definition delete_user (user_id : Z) : Admin unit :=
  ask! url := endpoint (user_route user_id) in
  ask! _ := call DELETE url None in
  admin_ret (Ok tt).
End client.

(** ** provider.rs *)

Record AuthentikProvider := mkProvider {
  client : AuthentikAdminClient; ap_client_id : bytes; grants_attribute : bytes; managed_group : bytes }.

Definition provider_new (config : AuthentikConfig) (client_builds : bool) : result AuthentikProvider bytes :=
  let? client := client_new (cf_api_origin config) (cf_api_token config) client_builds in
  Ok (mkProvider client (cf_client_id config) (cf_grants_attribute config) (cf_managed_group config)).

Definition user_id (account : AccountId) : result Z ProviderError :=
  ok_or (Audit.parse_i64 (account_str account)) Rejected.

Definition account_id (user_id : Z) : result AccountId ProviderError :=
  map_err (account_id_parse (show_Z user_id)) (λ _, Invalid).

(** The identity server and the random source. *)
Record World (W : Type) := mkWorld { server : W; entropy : list (option bytes) }.
Arguments mkWorld {W}.
Arguments server {W}.
Arguments entropy {W}.

Section provider.
Context {W : Type} `{AuthentikCrates} `{Http W}.
Context (self : AuthentikProvider).

Definition credential_of (app_password : Secret) : result ClientCredential ProviderError :=
  map_err (client_credential_new (ap_client_id self) app_password) (λ _, Invalid).

(** A call of the client, its answer made into the provider's. *)
Definition asking {A B} (m : Admin A) (k : A → result B ProviderError) (p : World W) : result B ProviderError * World W :=
  let '(r, w) := m (server p) in (and_then r k, mkWorld w (entropy p)).

(** The same for a call about an account. *)
Definition on_user {A} (account : AccountId) (m : Z → Admin A) (p : World W) : result A ProviderError * World W :=
  match user_id account with
  | Err e => (Err e, p)
  | Ok id => asking (m id) Ok p
  end.

Definition authentik_provider : ManagedIdentityProvider (World W) := {|
  create_account username :=
    asking (create_service_account (client self) username) (λ created,
      let? account := account_id (ca_user_id created) in
      let? credential := credential_of (ca_app_password created) in
      Ok (mkProvisioned account (ca_user_uid created) credential));
  grant account g :=
    on_user account (λ id, set_managed_attributes (client self) id (ag_connection_id g) (ag_display_name g)
      (grants_attribute self) (ag_root g) (ag_permissions g));
  assign_browse_group account :=
    on_user account (λ id, admin_try (find_group_by_name (client self) (managed_group self)) (λ found,
      admin_try (admin_ret (ok_or found NotFound)) (λ group_id, add_user_to_group (client self) id group_id)));
  rename_account account display_name := on_user account (λ id, rename_user (client self) id display_name);
  find_account username :=
    asking (find_user_by_username (client self) username) (λ found,
      match found with
      | None => Ok None
      | Some id => let? account := account_id id in Ok (Some account)
      end);
  find_credentials username :=
    asking (find_app_password_identifiers (client self) username) (λ identifiers,
      mapM (M:=λ A, result A ProviderError) (λ identifier, map_err (credential_id_parse identifier) (λ _, Invalid)) identifiers);
  replace_credential c p :=
    match generate_app_password (entropy p) with
    | (None, source) => (Err Unavailable, mkWorld (server p) source)
    | (Some replacement, source) =>
        asking (set_credential_secret (client self) (credential_str c) replacement) (λ _, credential_of replacement)
          (mkWorld (server p) source)
    end;
  delete_account account := on_user account (λ id, delete_user (client self) id) |}.
End provider.

(** ** What the server documents *)

(** The body of an answer that arrives whole. *)
Definition whole (chunks : list (result bytes bool)) : option bytes :=
  option_map (λ parts, flat_map id parts) (mapM (M:=option) (λ chunk, match chunk with Ok b => Some b | Err _ => None end) chunks).

(** The grant the scope mapping signs into an account's tokens. *)
Definition string_at (key : bytes) (v : Value) : option bytes := get key v ≫= as_str.
Definition array_at (key : bytes) (v : Value) : option (list Value) := get key v ≫= as_array.

Definition granted_by (attribute : bytes) (attributes : Value) : option (bytes * bytes * list bytes) :=
  match string_at "sovereign_config_managed" attributes, array_at attribute attributes with
  | Some connection, Some [g] =>
      match string_at "prefix" g, array_at "permissions" g with
      | Some root, Some permissions => Some (connection, root, omap as_str permissions)
      | _, _ => None
      end
  | _, _ => None
  end.

Definition patched (attribute : bytes) (body : Value) (v : AccountView) : AccountView :=
  match get "attributes" body with
  | Some attributes => mkView (av_username v) (granted_by attribute attributes)
  | None => v
  end.

Section laws.
Context {W : Type} `{AuthentikCrates} `{Http W} `{ProviderView W}.
Implicit Types (w : W) (r : Request) (x : Exchange).

(** Nothing the contract speaks of changed. *)
Definition untouched (w w' : W) : Prop := accounts w' = accounts w ∧ landing w' = landing w.

Definition succeeded (x : Exchange) : Prop := ∃ st len chunks, x = Answered st len chunks ∧ is_success st = true.
Definition answered (x : Exchange) (body : bytes) : Prop :=
  ∃ st len chunks, x = Answered st len chunks ∧ is_success st = true ∧ whole chunks = Some body.

Definition to (r : Request) (m : Method) (path : bytes) : Prop := rq_method r = m ∧ ep_path (rq_endpoint r) = path.

Class ServerLaws (attribute : bytes) : Prop := {
  names_unique w a b v v' : sound w → accounts w !! a = Some v → accounts w !! b = Some v' →
    av_username v = av_username v' → a = b;
  landing_is_unnamed w u : sound w → u ∈ landing w → ¬ named w u;
  sight_kept r w x w' : sound w → http r w = (x, w') → keeps_sight w w';
  reads_touch_nothing r w x w' : sound w → rq_method r = GET → http r w = (x, w') → untouched w w';
  refusals_touch_nothing r w st len chunks w' : sound w → http r w = (Answered st len chunks, w') →
    (400 ≤ st < 500)%Z → untouched w w';
  undelivered r w e w' : sound w → http r w = (Failed e, w') → is_connect e = true ∨ is_builder e = true →
    is_timeout e = false → untouched w w';
  creating r w x w' body u : sound w → to r POST SERVICE_ACCOUNT_ROUTE → rq_body r = Some body →
    get "name" body = Some (VString u) → http r w = (x, w') →
    (accounts w' = accounts w ∨ ∃ a, adds_account w w' u a)
    ∧ landing w ⊆ landing w' ∧ landing w' ⊆ landing w ∪ {[u]}
    ∧ ∀ b d, answered x b → service_account_from_slice b = Some d → sa_username d = u →
        (Stamps.i64_min ≤ sa_user_pk d ≤ Stamps.i64_max)%Z
        ∧ adds_account w w' u (show_Z (sa_user_pk d)) ∧ landing w' = landing w ∧ visible w' (show_Z (sa_user_pk d));
  setting_keys r w x w' id : sound w → to r POST (set_key_route id) → http r w = (x, w') → untouched w w';
  patching r w x w' id body : sound w → to r PATCH (user_route id) → rq_body r = Some body → http r w = (x, w') →
    landing w' = landing w
    ∧ (accounts w' = alter (patched attribute body) (show_Z id) (accounts w)
       ∨ (¬ succeeded x ∧ accounts w' = accounts w));
  deleting r w x w' id : sound w → to r DELETE (user_route id) → http r w = (x, w') →
    landing w' = landing w
    ∧ (accounts w' = delete (show_Z id) (accounts w) ∨ (¬ succeeded x ∧ accounts w' = accounts w))
    ∧ (∀ len chunks, x = Answered 404 len chunks → visible w (show_Z id) → accounts w' !! show_Z id = None);
  listing_users r w x w' u b records : sound w → to r GET USERS_ROUTE →
    ep_query (rq_endpoint r) = [("username" : bytes, u)] → http r w = (x, w') → answered x b →
    users_from_slice b = Some records →
    (∀ a v, accounts w !! a = Some v → av_username v = u →
       ∃ record, record ∈ records ∧ show_Z (ur_pk record) = a ∧ ur_username record = u)
    ∧ ∀ record, record ∈ records → ur_username record = u →
        (Stamps.i64_min ≤ ur_pk record ≤ Stamps.i64_max)%Z ∧ visible w' (show_Z (ur_pk record))
        ∧ av_username <$> accounts w !! show_Z (ur_pk record) = Some u;
  listing_tokens r w x w' u b : sound w → to r GET TOKENS_ROUTE →
    ep_query (rq_endpoint r) = [("user__username" : bytes, u); ("intent" : bytes, "app_password" : bytes)] →
    http r w = (x, w') → answered x b → tokens_from_slice b = Some [] → ¬ named w u }.

(** An exchange that broke after the connection was made: the server may have
    done what it was asked before the reply was lost. *)
Definition broken_exchange w w' : Prop := ∃ r e, http r w = (Failed e, w')
  ∧ is_request e = true ∧ is_timeout e = false ∧ is_connect e = false ∧ is_builder e = false.
End laws.

(** ** The contract is kept *)

Section contract.
Context {W : Type} `{AuthentikCrates} `{Http W} `{ProviderView W}.
Context (self : AuthentikProvider).
Context `{!ServerLaws (grants_attribute self)}.
Implicit Types (w : W) (p : World W).

#[local] Instance world_view : ProviderView (World W) := {|
  accounts p := accounts (server p);
  landing p := landing (server p);
  visible p := visible (server p);
  sound p := sound (server p) |}.

#[local] Instance this_provider : ManagedIdentityProvider (World W) := authentik_provider self.

(** An identifier as this implementation issues them. *)
Definition issued (a : AccountId) : Prop :=
  ∃ n, (Stamps.i64_min ≤ n ≤ Stamps.i64_max)%Z ∧ account_str a = show_Z n.

Lemma untouched_refl w : untouched w w.
Proof. done. Qed.

Lemma untouched_trans w1 w2 w3 : untouched w1 w2 → untouched w2 w3 → untouched w1 w3.
Proof. unfold untouched. intros [-> ->] [-> ->]. done. Qed.

Lemma whole_read chunks : ∀ body b, read_chunks body chunks = Ok b → ∃ rest, whole chunks = Some rest ∧ b = body ++ rest.
Proof.
  induction chunks as [|[chunk|t] chunks IH]; intros body b; cbn [read_chunks].
  - intros [= <-]. exists []. by rewrite app_nil_r.
  - destruct (_ <? _)%Z; [done|]. intros (rest & Hw & ->)%IH. exists (chunk ++ rest). rewrite app_assoc. split; [|done].
    unfold whole in *. cbn. destruct (mapM _ chunks); cbn in *; [|done]. by injection Hw as <-.
  - done.
Qed.

Lemma read_chunks_failed chunks : ∀ body e, read_chunks body chunks = Err e → e = Ambiguous ∨ e = Invalid.
Proof.
  induction chunks as [|[c|[]] chunks IH]; intros body e; cbn [read_chunks]; [done| |by intros [= <-]; auto..].
  destruct (_ <? _)%Z; [by intros [= <-]; right|apply IH].
Qed.

(** What a call's outcome says of the exchange. *)
Lemma call_outcome m ep b w r w' : call (client self) m ep b w = (r, w') →
  ∃ x, http (mkRequest m ep (api_token (client self)) b) w = (x, w')
    ∧ match r with
      | Ok body => answered x body
      | Err NotFound => ∃ len chunks, x = Answered 404 len chunks
      | Err Rejected => ∃ st len chunks, x = Answered st len chunks ∧ (400 ≤ st < 500)%Z
      | Err Unavailable => ∃ e, x = Failed e ∧ is_timeout e = false ∧ is_connect e || is_builder e || is_request e = true
      | Err _ => True
      end.
Proof.
  unfold call. destruct (http _ w) as [x w1]. intros [= <- <-]. exists x. split; [done|].
  destruct x as [e|st len chunks].
  - unfold classify_transport. destruct (is_timeout e) eqn:Et; [done|].
    destruct (_ || _) eqn:Ec; [by exists e|]. by destruct (is_redirect e).
  - unfold expect_success. destruct (is_success st) eqn:Es; cbn [negb].
    + destruct (match len with Some n => _ | None => false end); [done|].
      destruct (read_chunks [] chunks) as [body|e] eqn:Er.
      * apply whole_read in Er as (rest & Hw & ->). by exists st, len, chunks.
      * by apply read_chunks_failed in Er as [->| ->].
    + unfold classify_status. destruct (Z.eqb_spec st 404) as [->|]; [by exists len, chunks|].
      destruct ((400 <=? st)%Z && (st <? 500)%Z) eqn:E4; [|by destruct ((300 <=? st)%Z && (st <? 400)%Z)]. exists st, len, chunks. split; [done|].
      apply andb_true_iff in E4 as [?%Z.leb_le ?%Z.ltb_lt]. done.
Qed.

(** A definitive failure touched nothing, or it is a broken exchange. *)
Definition unapplied e w w' : Prop := untouched w w' ∨ (e = Unavailable ∧ broken_exchange w w').

Lemma call_failed m ep b w e w' : sound w → call (client self) m ep b w = (Err e, w') →
  may_have_created e = false → unapplied e w w'.
Proof.
  intros Hs (x & Hx & Hr)%call_outcome. destruct e; cbn; try done; intros _.
  - destruct Hr as (len & chunks & ->). left. eapply refusals_touch_nothing; [done|done|lia].
  - destruct Hr as (st & len & chunks & -> & ?). left. by eapply refusals_touch_nothing.
  - destruct Hr as (e & -> & Ht & Hc). destruct (is_connect e || is_builder e) eqn:Ecb.
    + left. eapply undelivered; [done|done| |done]. by apply orb_true_iff.
    + right. split; [done|]. apply orb_false_iff in Ecb as [? ?]. eexists _, e. by split.
Qed.

Lemma try_inv {A B} (m : Admin A) (k : A → Admin B) w r w' : admin_try m k w = (r, w') →
  (∃ e, m w = (Err e, w') ∧ r = Err e) ∨ ∃ a w1, m w = (Ok a, w1) ∧ k a w1 = (r, w').
Proof. unfold admin_try. destruct (m w) as [[a|e] w1]; [eauto 10|]. intros [= <- <-]. eauto. Qed.

Lemma endpoint_inv {A} path query (k : Endpoint → Admin A) w r w' :
  admin_try (endpoint_with (client self) path query) k w = (r, w') →
  (r = Err Invalid ∧ w' = w) ∨ ∃ url, k (mkEndpoint url path query) w = (r, w').
Proof.
  unfold endpoint_with, admin_ret. intros [(e & E & ->)|(a & w1 & E & Hk)]%try_inv;
    destruct (url_join _ path) as [url|]; cbn in E; simplify_eq/=; eauto.
Qed.

(** One request to an endpoint, and what is made of its answer. *)
Lemma request_inv {A} m path query body (k : bytes → result A ProviderError) w r w' : sound w →
  admin_try (endpoint_with (client self) path query) (λ url,
    admin_try (call (client self) m url body) (λ b, admin_ret (k b))) w = (r, w') →
  (r = Err Invalid ∧ w' = w)
  ∨ (∃ url x e, http (mkRequest m (mkEndpoint url path query) (api_token (client self)) body) w = (x, w')
       ∧ r = Err e ∧ (may_have_created e = false → unapplied e w w')
       ∧ (e = NotFound → ∃ len chunks, x = Answered 404 len chunks))
  ∨ ∃ url x b, http (mkRequest m (mkEndpoint url path query) (api_token (client self)) body) w = (x, w')
       ∧ answered x b ∧ r = k b.
Proof.
  intros Hs [?|(url & [(e & E & ->)|(b & w1 & E & [= <- <-])]%try_inv)]%endpoint_inv; [by left|right; left|right; right].
  - pose proof (call_failed _ _ _ _ _ _ Hs E) as Hu. apply call_outcome in E as (x & Hx & Hr).
    exists url, x, e. repeat (split; [done|]). by intros ->.
  - apply call_outcome in E as (x & Hx & Hr). eauto 10.
Qed.

Lemma answered_succeeded x b : answered x b → succeeded x.
Proof. intros (st & len & chunks & -> & ? & _). by exists st, len, chunks. Qed.

Lemma keeps_sight_refl w : sound w → keeps_sight w w.
Proof. by split. Qed.

Lemma to_request m url path query token body : to (mkRequest m (mkEndpoint url path query) token body) m path.
Proof. done. Qed.

(** *** Creating *)

Lemma create_service_account_law u w r w' : sound w → create_service_account (client self) u w = (r, w') →
  keeps_sight w w'
  ∧ match r with
    | Ok c => (Stamps.i64_min ≤ ca_user_id c ≤ Stamps.i64_max)%Z
              ∧ adds_account w w' u (show_Z (ca_user_id c)) ∧ landing w' = landing w ∧ visible w' (show_Z (ca_user_id c))
    | Err e => (accounts w' = accounts w ∨ ∃ a, adds_account w w' u a)
               ∧ landing w ⊆ landing w' ∧ landing w' ⊆ landing w ∪ {[u]}
               ∧ (may_have_created e = false → unapplied e w w')
    end.
Proof.
  intros Hs E. apply (request_inv POST SERVICE_ACCOUNT_ROUTE [] _ _ _ _ _ Hs) in E as [[-> ->]|[(url & x & e & Hx & -> & Hu & _)|(url & x & b & Hx & Hb & ->)]].
  - split; [by apply keeps_sight_refl|]. cbn. split; [by left|]. split_and!; [done|set_solver|done].
  - split; [by eapply sight_kept|].
    destruct (creating _ w x w' (create_body u) u Hs (to_request _ _ _ _ _ _) eq_refl eq_refl Hx) as (Ha & Hl & Hl' & _).
    done.
  - split; [by eapply sight_kept|].
    destruct (creating _ w x w' (create_body u) u Hs (to_request _ _ _ _ _ _) eq_refl eq_refl Hx) as (Ha & Hl & Hl' & Hd).
    destruct (service_account_from_slice b) as [d|] eqn:Ed; cbn [ok_or and_then]; [|by repeat split].
    case_bool_decide as Hu; cbn [negb orb]; [|by repeat split].
    destruct (is_empty _ || _ || _ || _ || _); [by repeat split|]. cbn [ca_user_id]. by eapply Hd.
Qed.

Lemma account_id_inv n a : account_id n = Ok a → account_str a = show_Z n.
Proof.
  unfold account_id, account_id_parse, bounded. destruct (_ || _); cbn; [done|]. by intros [= <-].
Qed.

Lemma account_id_failed n e : account_id n = Err e → e = Invalid.
Proof. unfold account_id. destruct (account_id_parse _); cbn; [done|]. by intros [= <-]. Qed.

Lemma credential_of_failed s e : credential_of self s = Err e → e = Invalid.
Proof. unfold credential_of. destruct (client_credential_new _ _); cbn; [done|]. by intros [= <-]. Qed.

(** What a create does: what the contract says, or what it says of an ambiguous
    one although it is reported as undelivered, and then the exchange broke. *)
Definition created_or_lost u p r p' : Prop :=
  create_law u p r p'
  ∨ (r = Err Unavailable ∧ broken_exchange (server p) (server p') ∧ create_law u p (Err Ambiguous) p').

Lemma create_keeps u p r p' : sound p → create_account u p = (r, p') →
  created_or_lost u p r p' ∧ ∀ acc, r = Ok acc → issued (account acc).
Proof.
  intros Hs. cbn [create_account this_provider authentik_provider]. unfold asking.
  destruct (create_service_account _ _ _) as [r0 w'] eqn:E. apply create_service_account_law in E as [Hk Hr]; [|done].
  intros [= <- <-]. unfold created_or_lost, create_law. destruct r0 as [c|e]; cbn [and_then].
  - destruct Hr as (Hn & Ha & Hl & Hv). destruct (account_id (ca_user_id c)) as [a|e] eqn:Ea; cbn [and_then].
    + destruct (credential_of self (ca_app_password c)) as [cr|e] eqn:Ec; cbn [and_then].
      * split; [left; split; [done|]; cbn; by rewrite (account_id_inv _ _ Ea)|].
        intros acc [= <-]. exists (ca_user_id c). split; [done|by apply account_id_inv].
      * apply credential_of_failed in Ec as ->. split; [left; split; [done|]|done]. cbn. split; [right; by eexists|].
        rewrite Hl. set_solver.
    + apply account_id_failed in Ea as ->. split; [left; split; [done|]|done]. cbn. split; [right; by eexists|].
      rewrite Hl. set_solver.
  - split; [|done]. destruct Hr as (Ha & Hl & Hl' & Hu). destruct (may_have_created e) eqn:Em; [by left|].
    destruct (Hu eq_refl) as [Hun|[-> Hb]]; [by left|]. right. by split_and!.
Qed.

(** *** The other operations *)

Lemma user_id_issued a : issued a → ∃ n, user_id a = Ok n ∧ account_str a = show_Z n.
Proof. intros (n & Hn & E). exists n. unfold user_id. by rewrite E, (Paging.parse_i64_show n Hn). Qed.

(** A patch of one user, whatever comes of it. *)
Lemma patch_law id body w r w' : sound w →
  admin_try (endpoint (client self) (user_route id)) (λ url,
    admin_try (call (client self) PATCH url (Some body)) (λ _, admin_ret (Ok tt))) w = (r, w') →
  keeps_sight w w' ∧ landing w' = landing w
  ∧ (accounts w' = alter (patched (grants_attribute self) body) (show_Z id) (accounts w)
     ∨ (is_ok r = false ∧ accounts w' = accounts w)).
Proof.
  intros Hs E. apply (request_inv PATCH (user_route id) [] (Some body) (λ _, Ok tt) _ _ _ Hs) in E
    as [[-> ->]|[(url & x & e & Hx & -> & _)|(url & x & b & Hx & Hb%answered_succeeded & ->)]].
  - split; [by apply keeps_sight_refl|]. auto.
  - destruct (patching _ w x w' id body Hs (to_request _ _ _ _ _ _) eq_refl Hx) as [Hl [Ha|[_ Ha]]];
      (split; [by eapply sight_kept|]); auto.
  - destruct (patching _ w x w' id body Hs (to_request _ _ _ _ _ _) eq_refl Hx) as [Hl [Ha|[Hn _]]]; [|done].
    split; [by eapply sight_kept|]. auto.
Qed.

(** A patch that names no attributes. *)
Lemma patch_same id body w r w' : sound w → get "attributes" body = None →
  admin_try (endpoint (client self) (user_route id)) (λ url,
    admin_try (call (client self) PATCH url (Some body)) (λ _, admin_ret (Ok tt))) w = (r, w') → same_accounts w w'.
Proof.
  intros Hs Hb (Hk & Hl & Ha)%patch_law; [|done]. split; [done|]. split; [|done]. destruct Ha as [->|[_ ->]]; [|done].
  apply map_eq. intros a. destruct (decide (a = show_Z id)) as [->|]; [rewrite lookup_alter_eq|by rewrite lookup_alter_ne].
  destruct (accounts w !! show_Z id) as [v|]; [|done]. cbn. unfold patched. by rewrite Hb.
Qed.

Lemma attributes_grant connection root permissions : grants_attribute self ≠ "sovereign_config_managed" →
  granted_by (grants_attribute self) (attributes_of connection (grants_attribute self) root permissions)
  = Some (connection, root, permissions).
Proof.
  intros Hne. unfold granted_by, attributes_of, string_at, array_at, get. rewrite !entry_map_insert.
  rewrite (bool_decide_eq_false_2 ("sovereign_config_managed" = _)), !bool_decide_eq_true_2 by congruence. cbn.
  do 2 f_equal. induction permissions as [|q l IH]; [done|]. cbn. by rewrite IH.
Qed.

Lemma grant_keeps a g p r p' : grants_attribute self ≠ "sovereign_config_managed" → issued a → sound p →
  grant a g p = (r, p') → grant_law a g p r p'.
Proof.
  intros Hne Ha Hs. cbn [grant this_provider authentik_provider]. unfold on_user, asking.
  destruct (user_id_issued a Ha) as (n & -> & Ea). destruct (set_managed_attributes _ _ _ _ _ _ _ _) as [r0 w'] eqn:E.
  intros [= <- <-]. apply patch_law in E as (Hk & Hl & Hc); [|done]. split; [done|]. split; [done|]. rewrite Ea.
  assert (is_ok (and_then r0 (A:=unit) Ok) = is_ok r0) as -> by (by destruct r0).
  cbn [accounts world_view server]. destruct Hc as [->|Hc]; [left|by right].
  apply map_eq. intros b. destruct (decide (b = show_Z n)) as [->|]; [|by rewrite !lookup_alter_ne].
  rewrite !lookup_alter_eq. cbn. destruct (accounts (server p) !! show_Z n) as [v|]; [|done]. cbn.
  unfold patched. cbn [get entry]. rewrite bool_decide_eq_false_2, bool_decide_eq_true_2 by done.
  unfold with_grant, granted. by rewrite attributes_grant.
Qed.

Lemma on_user_same {A} a (m : Z → Admin A) p r p' : sound p →
  (∀ n w r w', sound w → m n w = (r, w') → same_accounts w w') → on_user a m p = (r, p') → same_accounts p p'.
Proof.
  intros Hs Hm. unfold on_user, asking. destruct (user_id a) as [n|e].
  - destruct (m n (server p)) as [r0 w'] eqn:E. intros [= <- <-]. by apply Hm in E.
  - intros [= <- <-]. by repeat split.
Qed.

Lemma rename_keeps a n p r p' : sound p → rename_account a n p = (r, p') → same_accounts p p'.
Proof. intros Hs. apply on_user_same; [done|]. intros id w r0 w' Hw. by apply patch_same. Qed.

Lemma same_accounts_trans w1 w2 w3 : same_accounts w1 w2 → same_accounts w2 w3 → same_accounts w1 w3.
Proof.
  intros ([_ Hv] & Ha & Hl) ([Hs Hv'] & Ha' & Hl'). split; [split; auto|]. split; congruence.
Qed.

(** A lookup, whatever comes of it. *)
Lemma lookup_law {A} path query (k : bytes → result A ProviderError) w r w' : sound w →
  admin_try (endpoint_with (client self) path query) (λ url,
    admin_try (call (client self) GET url None) (λ b, admin_ret (k b))) w = (r, w') →
  same_accounts w w'
  ∧ ∀ a, r = Ok a → ∃ q x b, to q GET path ∧ ep_query (rq_endpoint q) = query ∧ http q w = (x, w')
                             ∧ answered x b ∧ k b = Ok a.
Proof.
  intros Hs E. apply (request_inv GET path query None k _ _ _ Hs) in E
    as [[-> ->]|[(url & x & e & Hx & -> & _)|(url & x & b & Hx & Hb & ->)]].
  - by repeat split.
  - split; [|done]. split; [by eapply sight_kept|]. by eapply reads_touch_nothing; [..|exact Hx].
  - split; [split; [by eapply sight_kept|]; by eapply reads_touch_nothing; [..|exact Hx]|].
    intros a Ha. eexists _, x, b. split; [apply to_request|]. by repeat (split; [done|]).
Qed.

Lemma assign_keeps a p r p' : sound p → assign_browse_group a p = (r, p') → same_accounts p p'.
Proof.
  intros Hs. apply on_user_same; [done|]. intros id w r0 w' Hw [(e & E & ->)|(found & w1 & E & Hr)]%try_inv.
  { by apply lookup_law in E as [? _]. }
  apply lookup_law in E as [Hsame _]; [|done]. apply try_inv in Hr as [(e & [= _ <-] & ->)|(g & w2 & [= _ <-] & Hr)]; [done|].
  apply same_accounts_trans with w1; [done|]. apply (patch_same id _ w1) in Hr; [done|apply Hsame|done].
Qed.

Lemma only_spec {A} (l : list A) : match only l with Ok None => l = [] | Ok (Some a) => l = [a] | Err e => e = Invalid end.
Proof. by destruct l as [|a [|]]. Qed.

Lemma find_account_keeps u p r p' : sound p → find_account u p = (r, p') →
  find_account_law u p r p' ∧ ∀ a, r = Ok (Some a) → issued a.
Proof.
  intros Hs. cbn [find_account this_provider authentik_provider]. unfold asking.
  destruct (find_user_by_username _ _ _) as [r0 w'] eqn:E. apply lookup_law in E as [Hk Hr]; [|done]. intros [= <- <-].
  unfold find_account_law. destruct r0 as [found|e]; cbn [and_then]; [|done].
  destruct (Hr found eq_refl) as (q & x & b & Hq & Hquery & Hx & Hb & Hd).
  destruct (users_from_slice b) as [records|] eqn:Er; cbn in Hd; [|done].
  destruct (listing_users q (server p) x w' u b records Hs Hq Hquery Hx Hb Er) as [Hall Hex].
  pose proof (only_spec (List.filter (λ record, bool_decide (ur_username record = u)) records)) as Ho.
  assert (∀ record, record ∈ List.filter (λ record, bool_decide (ur_username record = u)) records
    ↔ record ∈ records ∧ ur_username record = u) as Hin.
  { intros record. rewrite !list_elem_of_In, filter_In, bool_decide_eq_true. done. }
  destruct (only _) as [[record|]|]; cbn in Hd; simplify_eq/=.
  - assert (record ∈ records ∧ ur_username record = u) as [Hr1 Hr2] by (apply Hin; rewrite Ho; by left).
    destruct (Hex record Hr1 Hr2) as (Hn & Hv & Ha).
    destruct (account_id (ur_pk record)) as [a|] eqn:Ea; cbn; [|by split].
    rewrite (account_id_inv _ _ Ea). split; [done|]. intros a' [= <-]. exists (ur_pk record).
    split; [done|by apply account_id_inv].
  - split; [|done]. split; [done|]. intros (a & v & Ha & Hv). destruct (Hall a v Ha Hv) as (record & H1' & _ & H2').
    assert (record ∈ @nil UserRecord) as Hnil by (rewrite <- Ho; by apply Hin). by apply not_elem_of_nil in Hnil.
Qed.

Lemma find_credentials_keeps u p r p' : sound p → find_credentials u p = (r, p') → find_credentials_law u p r p'.
Proof.
  intros Hs. cbn [find_credentials this_provider authentik_provider]. unfold asking.
  destruct (find_app_password_identifiers _ _ _) as [r0 w'] eqn:E. apply lookup_law in E as [Hk Hr]; [|done].
  intros [= <- <-]. split; [done|]. destruct r0 as [ids|e]; cbn [and_then]; [|done]. intros Hm.
  destruct (Hr ids eq_refl) as (q & x & b & Hq & Hquery & Hx & Hb & Hd).
  destruct (tokens_from_slice b) as [records|] eqn:Er; cbn in Hd; [|done]. destruct (existsb _ _); [done|]. injection Hd as <-.
  destruct records as [|record records]; [exact (listing_tokens q (server p) x w' u b Hs Hq Hquery Hx Hb Er)|]. exfalso. revert Hm. cbn.
  destruct (credential_id_parse _); cbn; [|done]. by destruct (mapM _ _).
Qed.

Lemma replace_keeps c p r p' : sound p → replace_credential c p = (r, p') → same_accounts p p'.
Proof.
  intros Hs. cbn [replace_credential this_provider authentik_provider].
  destruct (generate_app_password (entropy p)) as [[replacement|] source]; [|intros [= <- <-]; by repeat split].
  unfold asking. cbn [server]. destruct (set_credential_secret _ _ _ _) as [r0 w'] eqn:E. intros [= <- <-].
  apply (request_inv POST (set_key_route (credential_str c)) [] _ (λ _, Ok tt) _ _ _ Hs) in E
    as [[-> ->]|[(url & x & e & Hx & _)|(url & x & b & Hx & _)]]; [by repeat split|..];
    (split; [exact (sight_kept _ (server p) x w' Hs Hx)|];
     exact (setting_keys _ (server p) x w' _ Hs (to_request _ _ _ _ _ _) Hx)).
Qed.

Lemma delete_keeps a p r p' : issued a → sound p → delete_account a p = (r, p') → delete_law a p r p'.
Proof.
  intros Ha Hs. cbn [delete_account this_provider authentik_provider]. unfold on_user, asking.
  destruct (user_id_issued a Ha) as (n & -> & Ea). destruct (delete_user _ _ _) as [r0 w'] eqn:E. intros [= <- <-].
  unfold delete_law. rewrite Ea. cbn [accounts landing visible world_view server].
  apply (request_inv DELETE (user_route n) [] None (λ _, Ok tt) _ _ _ Hs) in E
    as [[-> ->]|[(url & x & e & Hx & -> & _ & He)|(url & x & b & Hx & Hb%answered_succeeded & ->)]].
  - split; [by split|]. split; [done|]. split; [by right|done].
  - destruct (deleting _ (server p) x w' n Hs (to_request _ _ _ _ _ _) Hx) as (Hl & Hc & Hn).
    split; [exact (sight_kept _ (server p) x w' Hs Hx)|]. split; [done|]. split; [destruct Hc as [?|[_ ?]]; auto|].
    cbn. intros [= ->]. destruct (He eq_refl) as (len & chunks & ->). by apply (Hn len chunks).
  - destruct (deleting _ (server p) x w' n Hs (to_request _ _ _ _ _ _) Hx) as (Hl & Hc & Hn).
    split; [exact (sight_kept _ (server p) x w' Hs Hx)|]. split; [done|]. split; [|done]. destruct Hc as [?|[? _]]; [by left|done].
Qed.

End contract.

(** *** A server with room for one account *)

Module Sample.

Definition answer (status : Z) (body : bytes) : Exchange := Answered status None [Ok body].

Definition one_http (r : Request) (w : option bytes) : Exchange * option bytes :=
  let path := ep_path (rq_endpoint r) in
  match rq_method r with
  | POST =>
      if bool_decide (path = SERVICE_ACCOUNT_ROUTE) then
        match match rq_body r with Some body => string_at "name" body | None => None end, w with
        | Some (c :: u), None => (answer 201 (c :: u), Some (c :: u))
        | _, _ => (answer 400 [], w)
        end
      else (answer 404 [], w)
  | PATCH => (answer 403 [], w)
  | DELETE =>
      if bool_decide (path = user_route 1 ∧ is_Some w) then (answer 204 [], None) else (answer 404 [], w)
  | GET =>
      if bool_decide (path = USERS_ROUTE ∨ path = TOKENS_ROUTE)
      then (answer 200 (match ep_query (rq_endpoint r), w with
                        | (_, u) :: _, Some u' => if bool_decide (u = u') then u else []
                        | _, _ => []
                        end), w)
      else (answer 404 [], w)
  end.

#[local] Instance one_server : Http (option bytes) := one_http.

#[local] Instance one_crates : AuthentikCrates := {|
  url_join base path := Some base;
  service_account_from_slice b := Some (mkServiceAccount b "uid" 1 "token");
  groups_from_slice _ := None;
  users_from_slice b := Some (if is_empty b then [] else [mkUser 1 b]);
  tokens_from_slice b := Some (if is_empty b then [] else [mkToken "key"]) |}.

#[local] Instance one_view : ProviderView (option bytes) := {|
  accounts w := match w with Some u => {[ ("1" : bytes) := mkView u None ]} | None => ∅ end;
  landing _ := ∅;
  visible _ _ := True;
  sound w := w ≠ Some [] |}.

Definition sample_origin : Url := mkUrl "https" (Some "id.test") [] None "/" None None "https://id.test" "https://id.test/".
Definition sample_provider : AuthentikProvider :=
  mkProvider (mkClient sample_origin (mkSecret "token")) "sovereign-config" "grants" "Connections".

Lemma one_laws attribute : ServerLaws (W:=option bytes) attribute.
Proof.
  split.
  - intros [u|] a b v v' _; cbn; [|by rewrite lookup_empty].
    intros [<- <-]%lookup_singleton_Some [<- <-]%lookup_singleton_Some. done.
  - intros w u _ Hu. cbn in Hu. set_solver.
  - intros r w x w' Hs. cbn. unfold http, one_server, one_http. intros E. split; [|done].
    repeat (case_match || case_bool_decide); simplify_eq; done.
  - intros r w x w' _ Hm. unfold http, one_server, one_http. rewrite Hm. intros E. case_bool_decide; simplify_eq; done.
  - intros r w st len chunks w' _. unfold http, one_server, one_http, answer. intros E Hst.
    repeat (case_match || case_bool_decide); simplify_eq; done || lia.
  - intros r w e w' _. unfold http, one_server, one_http, answer. intros E.
    repeat (case_match || case_bool_decide); simplify_eq.
  - intros r w x w' body u Hs [Hm Hp] Hb Hu. unfold http, one_server, one_http, answer.
    rewrite Hm, Hp, Hb, bool_decide_eq_true_2 by done. unfold string_at. rewrite Hu. cbn [mbind option_bind as_str].
    destruct u as [|c u], w as [u'|]; intros [= <- <-]; cbn [accounts landing one_view];
      (split; [|split; [done|split; [set_solver|]]]); try (by left); try (intros b d (? & ? & ? & [= <- <- <-] & ? & _); done).
    + right. exists "1". by split.
    + intros b d (? & ? & ? & [= <- <- <-] & _ & [= <-]) [= <-] _. cbn [sa_user_pk].
      split; [by vm_compute|]. split; [by split|done].
  - intros r w x w' id _ [Hm Hp]. unfold http, one_server, one_http. rewrite Hm, Hp.
    rewrite bool_decide_eq_false_2 by done. by intros [= <- <-].
  - intros r w x w' id body _ [Hm Hp] _. unfold http, one_server, one_http, answer. rewrite Hm. intros [= <- <-].
    split; [done|]. right. split; [|done]. by intros (? & ? & ? & [= <- <- <-] & ?).
  - intros r w x w' id _ [Hm Hp]. unfold http, one_server, one_http, answer. rewrite Hm, Hp.
    case_bool_decide as Hd; intros [= <- <-].
    + destruct Hd as [Hd [u ->]]. assert (show_Z id = "1") as ->.
      { unfold user_route in Hd. apply app_inv_head in Hd. by apply (app_inv_tail "/") in Hd. }
      split; [done|]. split; [|done]. left. cbn. by rewrite delete_singleton_eq.
    + assert (accounts w !! show_Z id = None) as Hn.
      { destruct w as [u|]; [|done]. cbn. apply lookup_singleton_None. intros E. apply Hd.
        split; [by unfold user_route; rewrite <- E|by eexists]. }
      split; [done|]. split; [left; by rewrite delete_id|done].
  - intros r w x w' u b records Hs [Hm Hp] Hq. unfold http, one_server, one_http, answer. rewrite Hm, Hp, Hq.
    rewrite bool_decide_eq_true_2 by auto. intros [= <- <-] (? & ? & ? & [= <- <- <-] & _ & [= <-]) [= <-].
    destruct w as [u'|]; cbn [accounts one_view]; [|split; [intros a v; by rewrite lookup_empty|intros record ?%not_elem_of_nil; done]].
    case_bool_decide as Hu; [subst u'|].
    + destruct u as [|c u]; [by destruct Hs|]. cbn. rewrite app_nil_r. split.
      * intros a v [<- <-]%lookup_singleton_Some _. exists (mkUser 1 (c :: u)). split; [by left|]. done.
      * intros record [->|?%not_elem_of_nil]%elem_of_cons _; [|done]. split; [by vm_compute|]. split; [done|].
        change (show_Z 1) with ("1" : bytes). by rewrite lookup_singleton_eq.
    + split; [|intros record ?%not_elem_of_nil; done]. intros a v [<- <-]%lookup_singleton_Some Hv. by destruct Hu.
  - intros r w x w' u b Hs [Hm Hp] Hq. unfold http, one_server, one_http, answer. rewrite Hm, Hp, Hq.
    rewrite bool_decide_eq_true_2 by auto. intros [= <- <-] (? & ? & ? & [= <- <- <-] & _ & [= <-]).
    intros [= Ht] (a & v & Ha & Hv). destruct w as [u'|]; cbn in Ha; [|by rewrite lookup_empty in Ha].
    apply lookup_singleton_Some in Ha as [<- <-]. cbn in Hv. subst u'. rewrite bool_decide_eq_true_2 in Ht by done.
    cbn in Ht. rewrite app_nil_r in Ht. destruct u; [by destruct Hs|done].
Qed.

#[local] Existing Instance world_view.
#[local] Instance sample_calls : ManagedIdentityProvider (World (option bytes)) := authentik_provider sample_provider.

Definition sample_created := create_account "svc" (mkWorld (None : option bytes) []).
Definition sample_deleted := delete_account (mkAccountId "1") sample_created.2.


(** The same server behind a connection that breaks before the reply: the error
    [reqwest] raises is one of the request's. *)
Definition broken : SendError := mkSendError false false false true false.
Definition lossy (r : Request) (w : option bytes) : Exchange * option bytes := (Failed broken, (one_http r w).2).

(** The account was created, and the failure reported says it was not. *)
Example lost_reply_is_taken_for_unsent :
  let p := mkWorld (None : option bytes) [] in
  let '(r, p') := @create_account _ (@authentik_provider (option bytes) one_crates lossy sample_provider) "svc" p in
  r = Err Unavailable ∧ definitely_not_applied Unavailable = true ∧ server p' = Some ("svc" : bytes).
Proof. vm_compute. auto. Qed.

(** An identifier that was never issued is taken for one that was. *)
Example foreign_identifiers_are_accepted : user_id (mkAccountId "+007") = user_id (mkAccountId "7").
Proof. vm_compute. reflexivity. Qed.

End Sample.
End Authentik.
