(* ===== verification/ServerConfig.v ===== *)
(** * The server's settings

    Models [crates/sovereign-config-server/src/config.rs], which reads and checks
    the environment before anything is served, and the step of [main.rs] that
    makes of it what the managed connection service builds URLs from.  The
    environment, the files and the socket addresses are the class [BrokerHost];
    an error is its text. *)

From stdpp Require Import strings.
From S2P Require Import Prelude Bytes ConfigPath Core Encryption Identity ConnectionUrl AuditQuery BrokerSignature BrokerConfig ManagedService Authentik.

Local Open Scope bytes_scope.

Module Deployment.

Import Identity.

Definition JWKS_TIMEOUT : Z := 3.
Definition MANAGER_TIMEOUT : Z := 5.
Definition MANAGER_CLIENT_ID : bytes := "SOVEREIGN_CONFIG_MANAGER_CLIENT_ID".
Definition SECONDS_PER_HOUR : Z := 60 * 60.
Definition SECONDS_PER_DAY : Z := 24 * SECONDS_PER_HOUR.
Definition AUDIT_PAGE_SIZE : bytes := "SOVEREIGN_CONFIG_AUDIT_PAGE_SIZE".
Definition AUDIT_PAGE_SIZE_DEFAULT : Z := 100.
Definition AUDIT_PAGE_SIZE_MAXIMUM : Z := 1000.
Definition CLIENT_TELEMETRY_ENDPOINT : bytes := "SOVEREIGN_CONFIG_CLIENT_TELEMETRY_ENDPOINT".

(** Durations are in seconds. *)
Record AuditConfig := mkAudit { retention : Z; coalesce_window : Z; page_size : Z }.
Record ManagedConnectionConfig := mkManaged {
  public_origin : bytes; issuer : bytes; provider : Authentik.AuthentikConfig }.
Record WebConfig := mkWeb {
  web_issuer : bytes; web_client_id : bytes; dist_dir : option bytes;
  client_telemetry_endpoint : option bytes }.
Record AcceptedIdentity := mkAccepted { ai_issuer : bytes; ai_audience : bytes }.
Record AuthenticationConfig := mkAuthentication {
  accepted_identities : list AcceptedIdentity; auth_timeout : Z }.
(** The cipher is the key it is built from. *)
Record Config (A : Type) := mkConfig {
  database_url : bytes; grpc_addr : A; metrics_addr : A; authentication : AuthenticationConfig;
  web : WebConfig; managed : ManagedConnectionConfig; audit : AuditConfig; value_cipher : bytes }.
Arguments mkConfig {A}.
Arguments database_url {A}.
Arguments grpc_addr {A}.
Arguments metrics_addr {A}.
Arguments authentication {A}.
Arguments web {A}.
Arguments managed {A}.
Arguments audit {A}.
Arguments value_cipher {A}.

(** [value.parse::<u32>()] *)
Definition parse_u32 (s : bytes) : option Z :=
  n ← Signature.parse_u64 s; if (n <? 2 ^ 32)%Z then Some n else None.

(** [value.map(str::trim).filter(|value| !value.is_empty())] *)
Definition present (value : option bytes) : option bytes :=
  v ← value; let v := trim v in if is_empty v then None else Some v.

Definition bounded_setting (name : bytes) (value : option bytes) (default_ maximum : Z) : result Z bytes :=
  match present value with
  | None => Ok default_
  | Some value =>
      match parse_u32 value with
      | Some parsed =>
          if (1 <=? parsed)%Z && (parsed <=? maximum)%Z then Ok parsed
          else Err (name ++ " must be a whole number from 1 to " ++ show_Z maximum)
      | None => Err (name ++ " must be a whole number from 1 to " ++ show_Z maximum)
      end
  end.

Definition audit_page_size (value : option bytes) : result Z bytes :=
  bounded_setting AUDIT_PAGE_SIZE value AUDIT_PAGE_SIZE_DEFAULT AUDIT_PAGE_SIZE_MAXIMUM.

Definition key_error_text (e : Cipher.KeyError) : bytes :=
  match e with
  | Cipher.NotBase64 => "must be standard base64"
  | Cipher.WrongLength actual => "must decode to 32 bytes, but decoded to " ++ show_nat actual
  end.

Definition manager_client_id (explicit : option bytes) (audience : bytes) : result bytes bytes :=
  let? _ :=
    match present explicit with
    | None => Ok tt
    | Some client_id =>
        if negb (admits_client_id client_id)
        then Err (MANAGER_CLIENT_ID ++ " is not a client id a connection URL can carry")
        else if negb (bool_decide (client_id = audience))
        then Err (MANAGER_CLIENT_ID ++ " must equal SOVEREIGN_CONFIG_OIDC_AUDIENCE with Authentik, whose tokens carry the client id they were minted through as their audience; leave it unset")
        else Ok tt
    end in
  if negb (admits_client_id audience)
  then Err "SOVEREIGN_CONFIG_OIDC_AUDIENCE is not a client id a connection URL can carry; with Authentik it is also the client id access URLs name, so it must be the application's client id"
  else Ok audience.

Definition validate_issuer_url (raw : bytes) (url : Url) : result unit bytes :=
  if negb (bool_decide (u_scheme url = "https"))
     || bool_decide (u_host_str url = None)
     || negb (is_empty (u_username url))
     || bool_decide (is_Some (u_password url))
     || bool_decide (is_Some (u_query url))
     || bool_decide (is_Some (u_fragment url))
     || negb (starts_with (u_path url) "/application/o/")
     || negb (ends_with (u_path url) "/")
  then Err "SOVEREIGN_CONFIG_OIDC_ISSUER is not a permitted issuer URL"
  else if negb (bool_decide (u_as_str url = raw))
  then Err ("SOVEREIGN_CONFIG_OIDC_ISSUER must be in canonical form (expected " ++ u_as_str url ++ ")")
  else Ok tt.

Section config.
Context {A : Type} `{EqDecision A} `{BrokerHost A} `{UrlCrates} `{Crypto}.

Definition required_env (name : bytes) : result bytes bytes :=
  match env_get name with
  | Some value =>
      if negb (is_empty (trim value)) then Ok value
      else Err ("required configuration " ++ name ++ " is missing or empty")
  | None => Err ("required configuration " ++ name ++ " is missing or empty")
  end.

Definition required_identifier (name : bytes) : result bytes bytes :=
  let? value := required_env name in
  if existsb is_ascii_whitespace value
  then Err ("required configuration " ++ name ++ " must not contain whitespace") else Ok value.

Definition required_secret (name : bytes) : result bytes bytes :=
  let from_file :=
    let file_name := name ++ "_FILE" in
    let? path := required_env file_name in
    let? value := ok_or (read_to_string path) ("unable to read " ++ file_name) in
    if is_empty (trim value) then Err (file_name ++ " points to an empty secret file")
    else Ok (trim value) in
  match env_get name with
  | Some value => if negb (is_empty (trim value)) then Ok value else from_file
  | None => from_file
  end.

Definition optional_bounded (name : bytes) (default_ maximum : Z) : result Z bytes :=
  bounded_setting name (env_get name) default_ maximum.

Definition value_cipher_from_env : result bytes bytes :=
  let name := "SOVEREIGN_CONFIG_VALUE_ENCRYPTION_KEY" : bytes in
  let? encoded := required_secret name in
  map_err (Cipher.decode_key encoded) (λ e, name ++ " " ++ key_error_text e).

Definition validated_public_origin (value : bytes) : result bytes bytes :=
  let? url := ok_or (url_parse value) ("SOVEREIGN_CONFIG_PUBLIC_ORIGIN must be a valid URL" : bytes) in
  let loopback_http := bool_decide (u_scheme url = "http")
    && match u_host_str url with Some host => Authentik.loopback_host host | None => false end in
  if negb (bool_decide (u_scheme url = "https") || loopback_http)
     || bool_decide (u_host_str url = None)
     || negb (is_empty (u_username url))
     || bool_decide (is_Some (u_password url))
     || negb (bool_decide (u_path url = "/"))
     || bool_decide (is_Some (u_query url))
     || bool_decide (is_Some (u_fragment url))
  then Err "SOVEREIGN_CONFIG_PUBLIC_ORIGIN is not a permitted canonical origin"
  else
    let canonical := u_origin url in
    if negb (bool_decide (trim_end_matches "/"%char value = canonical))
    then Err "SOVEREIGN_CONFIG_PUBLIC_ORIGIN is not a permitted canonical origin"
    else Ok canonical.

Definition validated_client_telemetry_endpoint (value : option bytes) (public_origin : bytes)
  : result (option bytes) bytes :=
  match present value with
  | None => Ok None
  | Some value =>
      let? url := ok_or (url_parse value) (CLIENT_TELEMETRY_ENDPOINT ++ " must be a valid URL") in
      if negb (bool_decide (u_path url = "/"))
         || negb (is_empty (u_username url))
         || bool_decide (is_Some (u_password url))
         || bool_decide (is_Some (u_query url))
         || bool_decide (is_Some (u_fragment url))
         || negb (bool_decide (u_origin url = public_origin))
         || negb (bool_decide (trim_end_matches "/"%char value = public_origin))
      then Err (CLIENT_TELEMETRY_ENDPOINT ++ " must be this deployment's public origin")
      else Ok (Some public_origin)
  end.

Definition socket_setting (name : bytes) : result A bytes :=
  let? text := required_env name in
  ok_or (parse_socket_addr text) (name ++ " must be a socket address").

Definition from_env : result (Config A) bytes :=
  let? database_url := required_secret "SOVEREIGN_CONFIG_DATABASE_URL" in
  let? grpc_addr := socket_setting "SOVEREIGN_CONFIG_GRPC_ADDR" in
  let? metrics_addr := socket_setting "SOVEREIGN_CONFIG_METRICS_ADDR" in
  if bool_decide (grpc_addr = metrics_addr)
  then Err "gRPC and metrics listeners must use different addresses"
  else
    let? issuer := required_env "SOVEREIGN_CONFIG_OIDC_ISSUER" in
    let? issuer_url := ok_or (url_parse issuer) ("SOVEREIGN_CONFIG_OIDC_ISSUER must be a valid URL" : bytes) in
    let? _ := validate_issuer_url issuer issuer_url in
    let? audience := required_identifier "SOVEREIGN_CONFIG_OIDC_AUDIENCE" in
    let? origin := required_env "SOVEREIGN_CONFIG_PUBLIC_ORIGIN" in
    let? public_origin := validated_public_origin origin in
    let dist_dir :=
      value ← env_get "SOVEREIGN_CONFIG_DIST_DIR"; if is_empty (trim value) then None else Some value in
    let? client_telemetry_endpoint :=
      validated_client_telemetry_endpoint (env_get CLIENT_TELEMETRY_ENDPOINT) public_origin in
    let? manager_client_id := manager_client_id (env_get MANAGER_CLIENT_ID) audience in
    let? token := required_secret "SOVEREIGN_CONFIG_MANAGER_API_TOKEN" in
    let? attribute := required_env "SOVEREIGN_CONFIG_MANAGER_GRANTS_ATTRIBUTE" in
    let? group := required_env "SOVEREIGN_CONFIG_MANAGER_GROUP" in
    let? provider := Authentik.config_new issuer_url (mkSecret token) manager_client_id audience
                       attribute group MANAGER_TIMEOUT in
    let? value_cipher := value_cipher_from_env in
    let? days := optional_bounded "SOVEREIGN_CONFIG_AUDIT_RETENTION_DAYS" 365 3650 in
    let? hours := optional_bounded "SOVEREIGN_CONFIG_AUDIT_COALESCE_WINDOW_HOURS" 24 168 in
    let? page_size := audit_page_size (env_get AUDIT_PAGE_SIZE) in
    Ok (mkConfig database_url grpc_addr metrics_addr
          (mkAuthentication [mkAccepted issuer audience] JWKS_TIMEOUT)
          (mkWeb issuer audience dist_dir client_telemetry_endpoint)
          (mkManaged public_origin issuer provider)
          (mkAudit (days * SECONDS_PER_DAY) (hours * SECONDS_PER_HOUR) page_size)
          value_cipher).
End config.

(** ** main.rs: what the managed connection service is built from *)

(** [client_builds] is whether [reqwest] builds a client. *)
Definition managed_dependencies (m : ManagedConnectionConfig) (client_builds : bool)
  : result (Authentik.AuthentikProvider * Service.ManagedSettings) bytes :=
  let rotation_lease := (Authentik.cf_timeout (provider m) * 6)%Z in
  let? p := Authentik.provider_new (provider m) client_builds in
  Ok (p, Service.mkSettings (public_origin m) (issuer m) (rotation_lease * 1000000000)%Z).

(** ** An accepted configuration can mint URLs *)

(** What the URL standard and the encodings document of a URL put together from
    parts they do not rewrite: an origin reads back as itself, and followed by
    a path of plain segments and a form-encoded fragment it keeps those; base64
    for URLs has no padding, and no text for no bytes. *)
Class UrlAssembly `{UrlCrates} : Prop := {
  origin_reads_back text u :
    url_parse text = Some u → u_scheme u = "https" ∨ u_scheme u = "http" → u_host_str u ≠ None →
    ∃ s, url_parse (u_origin u)
         = Some (mkUrl (u_scheme u) (u_host_str u) [] None "/" None None (u_origin u) s);
  assembled_reads_back text u p l :
    url_parse text = Some u → u_scheme u = "https" ∨ u_scheme u = "http" → u_host_str u ≠ None →
    Path.Canonical p → to_ascii_lowercase p = p →
    ∃ s, url_parse (u_origin u ++ p ++ "#" ++ form_serialize l)
         = Some (mkUrl (u_scheme u) (u_host_str u) [] None p None (Some (form_serialize l)) (u_origin u) s);
  b64url_unpadded b : "="%char ∉ b64url_encode b;
  b64url_empty : b64url_encode [] = [] }.

(** Credentials a connection URL can carry. *)
Definition Carried (username password : bytes) : Prop :=
  username ≠ [] ∧ password ≠ [] ∧ ":"%char ∉ username
  ∧ from_utf8_ok (username ++ ":" ++ password) = true
  ∧ existsb is_ascii_control (username ++ ":" ++ password) = false.

Lemma trim_end_idem c s : trim_end_matches c (trim_end_matches c s) = trim_end_matches c s.
Proof.
  unfold trim_end_matches. rewrite rev_involutive. f_equal. generalize (rev s). intros l.
  induction l as [|d l IH]; [done|]. simpl. case_bool_decide as E; [done|]. simpl. by rewrite bool_decide_eq_false_2.
Qed.

Section minting.
Context {A : Type} `{EqDecision A} `{BrokerHost A} `{!UrlCrates} `{!UrlLaws} `{!UrlAssembly} `{Crypto}.

Lemma authentication_carried username password : Carried username password →
  Connection.parse_client_authentication (b64url_encode (username ++ ":" ++ password))
  = Ok (mkSecret (b64std_encode (username ++ ":" ++ password))).
Proof.
  intros (Hu & Hp & Hc & H8 & Hctl). set (text := username ++ ":" ++ password) in *.
  unfold Connection.parse_client_authentication.
  assert (b64url_encode text ≠ []) as Hne.
  { intros E. rewrite <- b64url_empty in E. apply (f_equal b64url_decode) in E. rewrite !b64url_round_trip in E.
    injection E as E. unfold text in E. destruct username; done. }
  assert (is_empty (b64url_encode text) = false) as -> by by destruct (b64url_encode text).
  unfold contains_byte. rewrite bool_decide_eq_false_2 by apply b64url_unpadded. simpl.
  rewrite b64url_round_trip. cbn. rewrite bool_decide_eq_true_2 by done. cbn. rewrite H8. cbn.
  assert (split_once ":"%char text = Some (username, password)) as -> by by apply split_once_spec.
  cbn. rewrite Hctl. by destruct username, password.
Qed.

(** The URL with these parts parses, whatever parsed origin it starts with. *)
Lemma serialized_parses text u (root : ConfigPath) iss client username password :
  url_parse text = Some u → u_scheme u = "https" ∨ u_scheme u = "http" →
  Connection.valid_secure_origin u = true →
  Connection.canonical_issuer iss = Ok iss → admits_client_id client = true →
  Path.Canonical (path root) → Carried username password →
  ∃ c, Connection.parse (Connection.serialize (u_origin u) root iss client
                           (Some (b64url_encode (username ++ ":" ++ password)))) = Ok c.
Proof.
  intros Hu Hsch Hs Hi Hcl Hr Hc. pose proof (Connection.secure_host _ Hs) as Hh.
  apply Path.Canonical_lower in Hr. fold (Path.fold root) in Hr.
  assert (to_ascii_lowercase (Path.fold root) = Path.fold root) as Hl by apply to_ascii_lowercase_idem.
  set (secret := b64url_encode (username ++ ":" ++ password)).
  assert (bool_decide (Some secret = Some "*") = false) as Hstar
    by (apply bool_decide_eq_false_2; intros [= E]; by apply Connection.encoded_not_star in E).
  unfold Connection.parse. unfold Connection.serialize at 1. rewrite Hstar, app_nil_r.
  match goal with |- context [form_serialize ?l] =>
    destruct (assembled_reads_back _ _ _ l Hu Hsch Hh Hr Hl) as (s' & ->) end. cbn [ok_or and_then].
  unfold Connection.validate_endpoint. unfold Connection.valid_secure_origin in Hs |- *.
  cbn [u_host_str u_scheme u_username u_password u_query u_path u_fragment u_origin]. rewrite Hs. cbn [negb is_empty orb].
  rewrite !bool_decide_eq_false_2 by (by intros []). cbn [orb and_then].
  unfold Connection.parse_root. assert (Path.parse (Path.fold root) = Ok (mkPath (Path.fold root))) as ->.
  { by apply Path.parse_spec. }
  cbn [map_err and_then ok_or]. rewrite form_round_trip.
  match goal with |- context [fold_result Connection.field Connection.no_fields ?l] =>
    assert (fold_result Connection.field Connection.no_fields l
            = Ok (Connection.mkFields (Some Connection.FORMAT_VERSION) (Some iss) (Some client) (Some secret)))
      as -> by reflexivity end.
  cbn [and_then Connection.f_version Connection.f_issuer Connection.f_client_id Connection.f_client_secret ok_or].
  unfold Connection.check. rewrite (bool_decide_eq_true_2 (Some _ = _)) by done. cbn [and_then]. rewrite Hi. cbn [and_then].
  assert (negb (is_empty client) && forallb Connection.client_id_byte client = true) as -> by exact Hcl.
  cbn [and_then]. unfold secret at 1. rewrite authentication_carried by done.
  cbn [and_then]. rewrite bool_decide_eq_true_2; [by eexists|].
  unfold Connection.serialize. unfold Path.fold at 1. cbn [path]. by rewrite Hl.
Qed.

(** A secure origin without brackets around its host, a canonical issuer and an
    admitted client make a URL for every root and credential. *)
Lemma managed_succeeds text u (root : ConfigPath) iss client username password :
  url_parse text = Some u → Connection.valid_secure_origin u = true →
  trim_end_matches "/"%char (u_origin u) = u_origin u →
  Connection.canonical_issuer iss = Ok iss → admits_client_id client = true →
  Path.Canonical (path root) → Carried username (expose_secret password) →
  ∃ c, Connection.managed (u_origin u) root iss client username password = Ok c.
Proof.
  intros Hu Hs Ht Hi Hcl Hr Hc.
  assert (u_scheme u = "https" ∨ u_scheme u = "http") as Hsch.
  { destruct (decide (u_scheme u = "https")), (decide (u_scheme u = "http")); auto.
    unfold Connection.valid_secure_origin in Hs. rewrite (bool_decide_eq_false_2 (u_scheme u = "https")) in Hs by done.
    rewrite (bool_decide_eq_false_2 (u_scheme u = "http")), andb_false_r in Hs by done. done. }
  destruct (origin_reads_back _ _ Hu Hsch (Connection.secure_host _ Hs)) as (s & Eo).
  unfold Connection.managed. rewrite Eo. cbn [ok_or and_then u_path u_fragment u_origin].
  unfold Connection.validate_endpoint, Connection.check. unfold Connection.valid_secure_origin in Hs |- *.
  cbn [u_host_str u_scheme u_username u_password u_query u_path u_fragment u_origin]. rewrite Hs, Ht.
  rewrite !bool_decide_eq_true_2 by done. cbn [negb is_empty orb andb and_then].
  rewrite !bool_decide_eq_false_2 by (by intros []). cbn [orb and_then].
  unfold contains_byte. rewrite (bool_decide_eq_false_2 (_ ∈ username)) by (by destruct Hc as (_ & _ & ? & _)). cbn [negb and_then].
  rewrite (bool_decide_eq_true_2 (u_origin u = u_origin u)) by done. cbn [and_then].
  by eapply serialized_parses.
Qed.

(** *** What each accepted setting is *)

Lemma bounded_setting_bounds name value d m n :
  (1 ≤ d ≤ m)%Z → bounded_setting name value d m = Ok n → (1 ≤ n ≤ m)%Z.
Proof.
  intros Hd. unfold bounded_setting. destruct (present value); [|by intros [= <-]].
  destruct (parse_u32 _); [|done]. destruct (_ && _) eqn:E; [|done]. intros [= <-].
  apply andb_true_iff in E as [?%Z.leb_le ?%Z.leb_le]. done.
Qed.

Lemma accepted_origin value o : validated_public_origin value = Ok o →
  ∃ u, url_parse value = Some u ∧ o = u_origin u ∧ trim_end_matches "/"%char o = o
    ∧ (Connection.valid_secure_origin u = true
       ∨ u_scheme u = "http" ∧ ∃ host, u_host_str u = Some host ∧ Authentik.loopback_host host = true).
Proof.
  unfold validated_public_origin. intros (u & Hu%ok_or_ok & Hr)%and_then_ok.
  destruct (_ || _) eqn:E in Hr; [done|]. destruct (negb _) eqn:Et in Hr; [done|]. injection Hr as <-.
  apply negb_false_iff, bool_decide_eq_true in Et.
  repeat (apply orb_false_iff in E as [E ?]). apply negb_false_iff in E. bool_prop. exists u. split; [done|]. split; [done|].
  split; [by rewrite <- Et, trim_end_idem|].
  unfold Connection.valid_secure_origin. rewrite (bool_decide_eq_true_2 (u_host_str u ≠ None)) by done.
  apply orb_true_iff in E as [E|E]; bool_prop.
  - left. by rewrite bool_decide_eq_true_2.
  - right. destruct (u_host_str u) as [h|]; [|done]. eauto.
Qed.

Lemma accepted_issuer raw url : url_parse raw = Some url → validate_issuer_url raw url = Ok tt →
  Connection.canonical_issuer raw = Ok raw.
Proof.
  unfold validate_issuer_url, Connection.canonical_issuer. intros Hu Hr.
  destruct (_ || _) eqn:E in Hr; [done|]. destruct (negb _) eqn:Ea in Hr; [done|].
  apply negb_false_iff, bool_decide_eq_true in Ea. repeat (apply orb_false_iff in E as [E ?]). bool_prop.
  rewrite Hu. cbn [ok_or and_then]. unfold Connection.valid_secure_origin.
  rewrite (bool_decide_eq_true_2 (u_host_str url ≠ None)), (bool_decide_eq_true_2 (u_scheme url = "https")) by done.
  assert (∀ A (o : option A), ¬ is_Some o → o = None) as Hn by (intros ? [] Ho; [by destruct Ho|done]).
  rewrite (Hn _ (u_password url)), (Hn _ (u_query url)), (Hn _ (u_fragment url)) by done.
  rewrite (bool_decide_eq_true_2 (u_as_str url = raw)), Ea by done.
  by destruct (is_empty (u_username url)), (ends_with (u_path url) "/").
Qed.

Lemma accepted_client explicit audience c : manager_client_id explicit audience = Ok c →
  c = audience ∧ admits_client_id audience = true.
Proof.
  unfold manager_client_id. intros (_ & _ & Hr)%and_then_ok.
  destruct (admits_client_id audience); [|done]. by injection Hr as <-.
Qed.

Lemma accepted_telemetry value o e : validated_client_telemetry_endpoint value o = Ok e → e = None ∨ e = Some o.
Proof.
  unfold validated_client_telemetry_endpoint. destruct (present value); [|intros [= <-]; by left].
  intros (u & _ & Hr)%and_then_ok. destruct (_ || _) in Hr; [done|]. injection Hr as <-. by right.
Qed.

(** Every field of an accepted configuration that a later step relies on. *)
Lemma from_env_fields (c : Config A) : from_env = Ok c →
  grpc_addr c ≠ metrics_addr c
  ∧ (∃ url, url_parse (issuer (managed c)) = Some url ∧ validate_issuer_url (issuer (managed c)) url = Ok tt)
  ∧ (∃ value, validated_public_origin value = Ok (public_origin (managed c)))
  ∧ admits_client_id (web_client_id (web c)) = true
  ∧ Authentik.cf_client_id (provider (managed c)) = web_client_id (web c)
  ∧ accepted_identities (authentication c) = [mkAccepted (issuer (managed c)) (web_client_id (web c))]
  ∧ (client_telemetry_endpoint (web c) = None
     ∨ client_telemetry_endpoint (web c) = Some (public_origin (managed c)))
  ∧ length (value_cipher c) = Cipher.KEY_LEN
  ∧ (SECONDS_PER_DAY ≤ retention (audit c) ≤ 3650 * SECONDS_PER_DAY)%Z
  ∧ (SECONDS_PER_HOUR ≤ coalesce_window (audit c) ≤ 168 * SECONDS_PER_HOUR)%Z
  ∧ (1 ≤ page_size (audit c) ≤ AUDIT_PAGE_SIZE_MAXIMUM)%Z
  ∧ Authentik.cf_timeout (provider (managed c)) = MANAGER_TIMEOUT.
Proof.
  unfold from_env. intros (db & _ & Hr)%and_then_ok. apply and_then_ok in Hr as (g & _ & Hr).
  apply and_then_ok in Hr as (m & _ & Hr). case_bool_decide as Hgm; [done|].
  apply and_then_ok in Hr as (iss & _ & Hr). apply and_then_ok in Hr as (url & Hurl%ok_or_ok & Hr).
  apply and_then_ok in Hr as ([] & Hiss & Hr). apply and_then_ok in Hr as (aud & _ & Hr).
  apply and_then_ok in Hr as (ov & _ & Hr). apply and_then_ok in Hr as (o & Ho & Hr).
  apply and_then_ok in Hr as (tel & Htel%accepted_telemetry & Hr).
  apply and_then_ok in Hr as (mc & [-> Hadm]%accepted_client & Hr).
  apply and_then_ok in Hr as (tok & _ & Hr). apply and_then_ok in Hr as (att & _ & Hr).
  apply and_then_ok in Hr as (grp & _ & Hr). apply and_then_ok in Hr as (p & Hp & Hr).
  apply and_then_ok in Hr as (key & Hkey & Hr). apply and_then_ok in Hr as (days & Hd & Hr).
  apply and_then_ok in Hr as (hours & Hh & Hr). apply and_then_ok in Hr as (size & Hs & [= <-]).
  cbn [grpc_addr metrics_addr managed issuer public_origin web web_client_id provider authentication
       accepted_identities client_telemetry_endpoint value_cipher audit retention coalesce_window page_size].
  apply bounded_setting_bounds in Hd, Hh, Hs; [|done..].
  assert (Authentik.cf_client_id p = aud ∧ Authentik.cf_timeout p = MANAGER_TIMEOUT) as [Hc Ht].
  { unfold Authentik.config_new in Hp. apply and_then_ok in Hp as (? & _ & Hp).
    apply and_then_ok in Hp as (cl & Hcl & Hp). apply and_then_ok in Hp as (? & _ & Hp).
    apply and_then_ok in Hp as (? & _ & [= <-]). split; [|done].
    unfold Authentik.client_id_for in Hcl. apply and_then_ok in Hcl as (cl' & _ & Hcl).
    case_bool_decide; simplify_eq/=; done. }
  assert (length key = Cipher.KEY_LEN) as Hl.
  { unfold value_cipher_from_env in Hkey. apply and_then_ok in Hkey as (enc & _ & Hkey%map_err_ok).
    unfold Cipher.decode_key in Hkey. destruct (b64_decode _); [|done].
    destruct (_ =? _)%nat eqn:El in Hkey; [|done]. injection Hkey as <-. by apply Nat.eqb_eq. }
  unfold SECONDS_PER_DAY, SECONDS_PER_HOUR, AUDIT_PAGE_SIZE_MAXIMUM in *.
  split_and!; eauto; lia.
Qed.

(** An origin that says https is one: no authority and scheme spell it otherwise. *)
Lemma https_origin text u : url_parse text = Some u → u_host_str u ≠ None →
  starts_with (u_origin u) "https://" = true → u_scheme u = "https".
Proof.
  intros Hu Hh (r & Hr)%starts_with_spec. destruct (origin_shape _ _ Hu Hh) as (a & E & Hs & _).
  rewrite E in Hr. change ("https://" ++ r) with ("https:" ++ "/"%char :: ("/" ++ r)) in Hr.
  change (u_scheme u ++ "://" ++ a) with (u_scheme u ++ ":" ++ "/"%char :: ("/" ++ a)) in Hr.
  rewrite (assoc_L (++)) in Hr. apply Connection.app_first_inj in Hr as [Hr _]; [|set_solver..].
  change "https:" with (("https" : bytes) ++ ":") in Hr. by apply app_inj_2 in Hr as [? _].
Qed.

(** C28: Settings the server starts with are settings it can keep its promises
    under.  The issuer tokens are accepted from and the one URLs name are the
    same, the client URLs name is the accepted audience, and browsers are told
    no telemetry endpoint but this origin; the key has the cipher's length, the
    audit settings are within their bounds and a rotation's lease outlasts six
    provider calls.  Over https, every connection the managed service can be
    asked to hand out has a URL, so that none fails after the identity provider
    has been changed. *)
Theorem accepted_settings_are_usable (c : Config A) client_builds p settings :
  from_env = Ok c → managed_dependencies (managed c) client_builds = Ok (p, settings) →
  grpc_addr c ≠ metrics_addr c
  ∧ accepted_identities (authentication c)
    = [mkAccepted (Service.issuer settings) (Authentik.cf_client_id (provider (managed c)))]
  ∧ (client_telemetry_endpoint (web c) = None
     ∨ client_telemetry_endpoint (web c) = Some (Service.public_origin settings))
  ∧ length (value_cipher c) = Cipher.KEY_LEN
  ∧ (SECONDS_PER_DAY ≤ retention (audit c) ≤ 3650 * SECONDS_PER_DAY)%Z
  ∧ (SECONDS_PER_HOUR ≤ coalesce_window (audit c) ≤ 168 * SECONDS_PER_HOUR)%Z
  ∧ (1 ≤ page_size (audit c) ≤ 1000)%Z
  ∧ Service.rotation_lease settings = (6 * MANAGER_TIMEOUT * 10 ^ 9)%Z
  ∧ (starts_with (Service.public_origin settings) "https://" = true →
     ∀ root credential username,
       Path.Canonical (path root) →
       client_id credential = Authentik.cf_client_id (provider (managed c)) →
       Carried username (expose_secret (secret credential)) →
       ∃ url, Service.managed_url settings root credential username = Ok url).
Proof.
  intros Hc Hm. apply from_env_fields in Hc as (Hgm & (url & Hurl & Hiss) & (v & Ho) & Hadm & Hcl & Hid & Htel & Hk & Hr & Hw & Hp & Ht).
  unfold managed_dependencies in Hm. apply and_then_ok in Hm as (p' & _ & [= <- <-]).
  unfold AUDIT_PAGE_SIZE_MAXIMUM in Hp.   cbn [Service.issuer Service.public_origin Service.rotation_lease]. rewrite Hcl, Ht. split_and!; try done; try lia.
  intros Hs root cred username Hroot Hcc Hcar. apply accepted_origin in Ho as (u & Hu & Eo & Htr & Hsec).
  rewrite Eo in Hs, Htr. assert (Connection.valid_secure_origin u = true) as Hv.
  { destruct Hsec as [?|(Hh & host & Ehost & _)]; [done|].
    apply (https_origin v) in Hs; [|done|by rewrite Ehost]. by rewrite Hh in Hs. }
  edestruct (managed_succeeds _ _ root (issuer (managed c)) (client_id cred) username (secret cred) Hu Hv Htr) as [w Ew];
    [by eapply accepted_issuer|by rewrite Hcc|done..|].
  exists w. unfold Service.managed_url. cbn [Service.issuer Service.public_origin]. by rewrite Eo, Ew.
Qed.
End minting.

(** ** A sample deployment *)

Module Sample.

Definition sample_env (name : bytes) : option bytes :=
  snd <$> List.find (λ p, bool_decide (p.1 = name))
    [("SOVEREIGN_CONFIG_DATABASE_URL" : bytes, "postgres://db" : bytes);
     ("SOVEREIGN_CONFIG_GRPC_ADDR" : bytes, "0.0.0.0:1" : bytes);
     ("SOVEREIGN_CONFIG_METRICS_ADDR" : bytes, "0.0.0.0:2" : bytes);
     ("SOVEREIGN_CONFIG_OIDC_ISSUER" : bytes, "https://auth.example.test/application/o/sc/" : bytes);
     ("SOVEREIGN_CONFIG_OIDC_AUDIENCE" : bytes, "sovereign-config" : bytes);
     ("SOVEREIGN_CONFIG_PUBLIC_ORIGIN" : bytes, "https://config.example.test/" : bytes);
     ("SOVEREIGN_CONFIG_MANAGER_API_TOKEN_FILE" : bytes, "/run/token" : bytes);
     ("SOVEREIGN_CONFIG_MANAGER_GRANTS_ATTRIBUTE" : bytes, "grants" : bytes);
     ("SOVEREIGN_CONFIG_MANAGER_GROUP" : bytes, "managed" : bytes);
     ("SOVEREIGN_CONFIG_VALUE_ENCRYPTION_KEY" : bytes, b64_encode (replicate 32 "k"%char));
     ("SOVEREIGN_CONFIG_AUDIT_RETENTION_DAYS" : bytes, " 7 " : bytes)].

Instance sample_host : BrokerHost bytes := {|
  env_get := sample_env;
  read_to_string p := if bool_decide (p = "/run/token") then Some "token" else None;
  parse_socket_addr := Some |}.

Definition with_setting (name value : bytes) : BrokerHost bytes := {|
  env_get n := if bool_decide (n = name) then Some value else sample_env n;
  read_to_string := read_to_string;
  parse_socket_addr := Some |}.

Import SampleUrl.

(** What the sample splitter reads of a text, and that it reads it back. *)
Lemma split_url_parts text u : split_url text = Some u →
  ∃ authority, u_host_str u = Some authority ∧ forallb is_ascii_alphanumeric (u_scheme u) = true
    ∧ "#"%char ∉ authority ∧ "/"%char ∉ authority ∧ u_origin u = u_scheme u ++ "://" ++ authority.
Proof.
  unfold split_url. intros Hu. repeat destruct_match_in Hu; try done; bool_prop; unfold contains_byte in *; bool_prop;
    (eexists; split; [done|]); by split_and!.
Qed.

Lemma alphanumeric_free c s : is_ascii_alphanumeric c = false → forallb is_ascii_alphanumeric s = true → c ∉ s.
Proof. intros Hc Hs%forallb_Forall Hin. rewrite Forall_forall in Hs. apply Hs in Hin. by rewrite Hc in Hin. Qed.

Lemma split_url_assembled scheme authority r f :
  forallb is_ascii_alphanumeric scheme = true → "#"%char ∉ authority → "/"%char ∉ authority → "#"%char ∉ r →
  let text := scheme ++ "://" ++ authority ++ "/" ++ r ++ "#" ++ f in
  split_url text = Some (mkUrl scheme (Some authority) [] None ("/" ++ r) None (Some f) (scheme ++ "://" ++ authority) text).
Proof.
  intros Hs Ha Ha' Hr text. unfold split_url.
  assert (split_once ":"%char text = Some (scheme, "//" ++ authority ++ "/" ++ r ++ "#" ++ f)) as ->.
  { apply split_once_spec. split; [done|]. by apply alphanumeric_free. }
  rewrite Hs. cbn [negb strip_prefix app]. rewrite !bool_decide_eq_true_2 by done.
  assert (split_once "#"%char (authority ++ "/"%char :: r ++ "#"%char :: f) = Some (authority ++ "/"%char :: r, f)) as ->.
  { apply split_once_spec. split; [by rewrite <- (assoc_L (++))|]. set_solver. }
  assert (split_once "/"%char (authority ++ "/"%char :: r) = Some (authority, r)) as -> by by apply split_once_spec.
  unfold contains_byte. by rewrite !bool_decide_eq_false_2.
Qed.

Lemma split_url_origin scheme authority :
  forallb is_ascii_alphanumeric scheme = true → "#"%char ∉ authority → "/"%char ∉ authority →
  let text := scheme ++ "://" ++ authority in
  split_url text = Some (mkUrl scheme (Some authority) [] None "/" None None text text).
Proof.
  intros Hs Ha Ha' text. unfold split_url.
  assert (split_once ":"%char text = Some (scheme, "//" ++ authority)) as ->.
  { apply split_once_spec. split; [done|]. by apply alphanumeric_free. }
  rewrite Hs. cbn [negb strip_prefix app]. rewrite !bool_decide_eq_true_2 by done.
  assert (∀ c, c ∉ authority → split_once c authority = None) as Hn.
  { intros c Hc. destruct (split_once c authority) as [[a b]|] eqn:E; [|done].
    apply split_once_spec in E as [-> _]. set_solver. }
  rewrite !Hn by done. unfold contains_byte. by rewrite !bool_decide_eq_false_2.
Qed.

#[local] Instance sample_assembly : UrlAssembly.
Proof.
  split.
  - intros text u Hu _ _. apply split_url_parts in Hu as (a & -> & Hs & Ha & Ha' & Eo). exists (u_origin u).
    rewrite Eo. by apply split_url_origin.
  - intros text u p l Hu _ _ Hp _. apply split_url_parts in Hu as (a & -> & Hs & Ha & Ha' & Eo).
    pose proof (Connection.Canonical_hash_free _ Hp) as Hf. apply Connection.Canonical_slash in Hp as [r ->].
    eexists. rewrite Eo, <- !(assoc_L (++)). apply (split_url_assembled (u_scheme u) a r (form_serialize l)); [done..|set_solver].
  - intros b. change (b64url_encode b) with (flat_map (hex false) b). induction b as [|c b IH]; [set_solver|].
    cbn [flat_map]. rewrite elem_of_app. intros [H|?]; [|done]. revert H.
    destruct c as [[] [] [] [] [] [] [] []]; apply (bool_decide_unpack _); vm_compute; exact I.
  - done.
Qed.

Definition sample_config : Config bytes :=
  match from_env with Ok c => c | Err _ => mkConfig [] [] [] (mkAuthentication [] 0) (mkWeb [] [] None None)
    (mkManaged [] [] (Authentik.mkConfig (mkUrl [] None [] None [] None None [] []) (mkSecret []) [] [] [] 0)) (mkAudit 0 0 0) [] end.

Lemma accepted_settings_are_usable_witness : ∃ p settings,
  managed_dependencies (managed sample_config) true = Ok (p, settings)
  ∧ ∃ url, Service.managed_url settings (mkPath "/apps/api")
             (mkCredential "sovereign-config" (mkSecret "pw")) "sc-managed-x" = Ok url.
Proof.
  assert (from_env = Ok sample_config) as Hc by (vm_compute; reflexivity).
  destruct (managed_dependencies (managed sample_config) true) as [[p settings]|] eqn:Em; [|by vm_compute in Em].
  exists p, settings. split; [done|].
  assert (match managed_dependencies (managed sample_config) true with
          | Ok (_, settings) => starts_with (Service.public_origin settings) "https://"
          | Err _ => false
          end = true) as Hs by (vm_compute; reflexivity).
  rewrite Em in Hs.
  destruct (accepted_settings_are_usable sample_config true p settings Hc Em) as (_ & _ & _ & _ & _ & _ & _ & _ & Hmint).
  apply Hmint; [exact Hs|apply Path.canonical_check; by vm_compute|by vm_compute|].
  split; [discriminate|]. split; [discriminate|]. split; [|split; vm_compute; reflexivity].
  apply (bool_decide_unpack _). vm_compute. exact I.
Defined.

(** An origin whose host is a bracketed loopback address passes the check here
    and not the one of the URL that is built from it. *)
Example bracketed_loopback_mints_nothing :
  validated_public_origin "http://[::1]" = Ok "http://[::1]"
  ∧ Connection.managed "http://[::1]" (mkPath "/apps/api") "https://auth.example.test/application/o/sc/"
      "sovereign-config" "sc-managed-x" (mkSecret "pw") = Err Connection.connection_url_error.
Proof. by vm_compute. Qed.

(** Settings that are refused. *)
Example refused_settings :
  (@from_env bytes _ (with_setting AUDIT_PAGE_SIZE "0") _ _)
    = Err "SOVEREIGN_CONFIG_AUDIT_PAGE_SIZE must be a whole number from 1 to 1000"
  ∧ (@from_env bytes _ (with_setting CLIENT_TELEMETRY_ENDPOINT "https://elsewhere.test/") _ _)
    = Err "SOVEREIGN_CONFIG_CLIENT_TELEMETRY_ENDPOINT must be this deployment's public origin"
  ∧ (@from_env bytes _ (with_setting "SOVEREIGN_CONFIG_METRICS_ADDR" "0.0.0.0:1") _ _)
    = Err "gRPC and metrics listeners must use different addresses".
Proof. by vm_compute. Qed.
End Sample.

End Deployment.
