(* ===== verification/WebAssets.v ===== *)
(** * Serving the web application

    Models [crates/sovereign-config-server/src/web.rs]: the layer in front of the
    services that answers requests for files, from the bundle embedded in the
    binary, the document that configures the page, and the installers of a
    configured directory.  The bundle, the guess of a content type, the writer of
    JSON and the check of a header's value are the class [WebCrates]. *)

From stdpp Require Import gmap strings.
From S2P Require Import Prelude Bytes ConfigPath Encryption ValuePaths JsonValue ServerConfig.

Local Open Scope bytes_scope.

Class WebCrates := {
  asset : bytes → option bytes;          (* [Assets::get], the file's data *)
  mime : bytes → bytes;                  (* [mime_guess::from_path(..).first_or_octet_stream()] *)
  json_text : Value → bytes;             (* [serde_json::to_string], or [{}] *)
  header_text : bytes → bool }.          (* whether [HeaderValue::from_str] accepts *)

Module Web.

(** ** The catalog of installers *)

(** An entry of a directory, where it could be read: its name, where that is
    UTF-8, whether it is a regular file, and its content, where that is read. *)
Record DirEntry := mkEntry { de_name : option bytes; de_is_file : bool; de_content : option bytes }.

Notation DistCatalog := (gmap bytes bytes).

(** [Path::extension] of a file name: what follows the last dot, unless nothing
    comes before it or the name is the parent directory's. *)
Definition extension (name : bytes) : option bytes :=
  if bool_decide (name = "..") then None
  else match rsplit_once "."%char name with
       | Some (before, after) => if is_empty before then None else Some after
       | None => None
       end.

Definition has_extension (name extension_ : bytes) : bool :=
  match extension name with Some found => eq_ignore_ascii_case found extension_ | None => false end.

Definition is_installer_artifact (name : bytes) : bool :=
  starts_with name "install-" && (has_extension name "sh" || ends_with name ".sh.sha256").

Definition dist_content_type (name : bytes) : bytes :=
  if has_extension name "sh" then "application/x-shellscript; charset=utf-8"
  else if has_extension name "sha256" then "text/plain; charset=utf-8"
  else if has_extension name "json" then "application/json; charset=utf-8"
  else "application/octet-stream".

Record InstallerManifestEntry := mkInstaller { im_file : bytes; im_checksum : option bytes; im_size : nat }.

Definition manifest_entries (files : DistCatalog) : list InstallerManifestEntry :=
  List.map (λ '(name, content),
         let checksum := name ++ ".sha256" in
         mkInstaller name (if bool_decide (is_Some (files !! checksum)) then Some checksum else None) (length content))
    (List.filter (λ '(name, _), starts_with name "install-" && has_extension name "sh") (entries files)).

(** The derived serialization, an absent checksum left out. *)
Definition installer_json (e : InstallerManifestEntry) : Value :=
  VObject ([("file" : bytes, VString (im_file e))]
           ++ match im_checksum e with Some c => [("checksum" : bytes, VString c)] | None => [] end
           ++ [("size" : bytes, VNumber (Z.of_nat (im_size e)))]).

Section web.
Context `{WebCrates} `{Crypto}.

Definition render_manifest (files : DistCatalog) : bytes :=
  json_text (VObject [("installers" : bytes, VArray (List.map installer_json (manifest_entries files)))]).

Definition load_file (files : DistCatalog) (e : DirEntry) : DistCatalog :=
  match de_name e, de_content e with
  | Some name, Some content => if de_is_file e && is_installer_artifact name then <[name := content]> files else files
  | _, _ => files
  end.

(** [read_dir] is [None] for a directory that cannot be read, and an entry that
    fails is left out. *)
Definition load_dist_catalog (read_dir : bytes → option (list (option DirEntry))) (dir : option bytes) : DistCatalog :=
  let files := match dir ≫= read_dir with
               | Some es => foldl load_file ∅ (omap id es)
               | None => ∅
               end in
  <["manifest.json" := render_manifest files]> files.

(** ** The layer *)

Record WebAssets := mkWeb {
  app_config : bytes; content_security_policy : bytes; dist : DistCatalog }.

Definition app_config_script (config : Deployment.WebConfig) (application_version : bytes) : bytes :=
  let document :=
    [("issuer" : bytes, VString (Deployment.web_issuer config));
     ("clientId" : bytes, VString (Deployment.web_client_id config))] in
  let document :=
    match Deployment.client_telemetry_endpoint config with
    | Some endpoint =>
        map_insert "telemetry" (VObject [("endpoint" : bytes, VString endpoint);
                                         ("serviceVersion" : bytes, VString application_version)]) document
    | None => document
    end in
  "globalThis.SOVEREIGN_CONFIG=" ++ json_text (VObject document) ++ ";".

(** [windows(..).position(..)] *)
Fixpoint position (needle haystack : bytes) : option nat :=
  if starts_with haystack needle then Some 0
  else match haystack with [] => None | _ :: rest => S <$> position needle rest end.

Definition DQ : bytes := [ascii_of_N 34].

(** [None] is a panic at startup. *)
Definition inline_module_hash (index : bytes) : option bytes :=
  let start_marker := "<script type=" ++ DQ ++ "module" ++ DQ ++ ">" in
  let end_marker := "</script>" : bytes in
  start ← (λ p, p + length start_marker)%nat <$> position start_marker index;
  size ← position end_marker (drop start index);
  Some (b64_encode (sha256 (take size (drop start index)))).

Definition security_policy (loader_hash : bytes) : bytes :=
  "default-src 'self'; connect-src 'self' https:; img-src 'self'; style-src 'self'; script-src 'self' 'wasm-unsafe-eval' 'sha256-"
  ++ loader_hash ++ "'; object-src 'none'; base-uri 'none'; frame-ancestors 'none'".

Definition new (read_dir : bytes → option (list (option DirEntry))) (config : Deployment.WebConfig)
    (application_version : bytes) : option WebAssets :=
  index ← asset "index.html";
  loader_hash ← inline_module_hash index;
  let dist := load_dist_catalog read_dir (Deployment.dist_dir config) in
  let policy := security_policy loader_hash in
  if header_text policy then Some (mkWeb (app_config_script config application_version) policy dist) else None.

(** ** Requests and responses *)

Inductive Method := GET | HEAD | OtherMethod (name : bytes).
#[global] Instance Method_eq_dec : EqDecision Method.
Proof. solve_decision. Defined.

Record Request (B : Type) := mkRequest { rq_method : Method; rq_path : bytes; rq_rest : B }.
Arguments mkRequest {B}.
Arguments rq_method {B}.
Arguments rq_path {B}.
Arguments rq_rest {B}.
Record Response := mkResponse { status : Z; headers : gmap bytes bytes; body : bytes }.

Definition content_type_value (content_type : bytes) : bytes :=
  if header_text content_type then content_type else "application/octet-stream".

Definition IMMUTABLE : bytes := "public, max-age=31536000, immutable".

Definition asset_response (content content_type : bytes) (immutable head : bool) (policy : bytes) : Response :=
  mkResponse 200
    (<["x-content-type-options" : bytes := "nosniff" : bytes]>
       (<["content-security-policy" : bytes := policy]>
          (<["cache-control" : bytes := if immutable then IMMUTABLE else "no-store"]>
             (<["content-type" : bytes := content_type_value content_type]> ∅))))
    (if head then [] else content).

Definition download_response (content content_type name : bytes) (head : bool) (policy : bytes) : Response :=
  let headers := <["content-type" : bytes := content_type_value content_type]> ∅ in
  let disposition := "attachment; filename=" ++ DQ ++ name ++ DQ in
  let headers := if has_extension name "sh" && header_text disposition
                 then <["content-disposition" : bytes := disposition]> headers else headers in
  mkResponse 200
    (<["x-content-type-options" : bytes := "nosniff" : bytes]>
       (<["content-security-policy" : bytes := policy]>
          (<["cache-control" : bytes := if has_extension name "json" then "no-store" else IMMUTABLE]> headers)))
    (if head then [] else content).

Definition not_found : Response := mkResponse 404 ∅ [].

Definition hidden (requested : bytes) : bool :=
  existsb (λ segment, starts_with segment ".") (split "/"%char requested).

(** Which file of the bundle a path asks for. *)
Definition requested_asset (path : bytes) : bytes :=
  if is_empty path || negb (contains_byte "."%char path) then "index.html" else path.

(** The answer to a request for the file at a path, its leading slashes trimmed. *)
Definition answer (self : WebAssets) (path : bytes) (head : bool) : Response :=
  if bool_decide (path = "app-config.js")
  then asset_response (app_config self) "text/javascript; charset=utf-8" false head (content_security_policy self)
  else match strip_prefix "dist/" path with
       | Some name =>
           match dist self !! name with
           | Some content => download_response content (dist_content_type name) name head (content_security_policy self)
           | None => not_found
           end
       | None =>
           let requested := requested_asset path in
           match (if hidden requested then None else asset requested) with
           | Some data => asset_response data (mime requested) (negb (bool_decide (requested = "index.html"))) head
                            (content_security_policy self)
           | None => not_found
           end
       end.

(** [inner] is the service behind the layer. *)
Definition call {B R} (self : WebAssets) (inner : Request B → R) (request : Request B) : R + Response :=
  if negb (bool_decide (rq_method request = GET)) && negb (bool_decide (rq_method request = HEAD))
  then inl (inner request)
  else
    let head := bool_decide (rq_method request = HEAD) in
    let path := trim_start_matches "/"%char (rq_path request) in
    inr (answer self path head).
End web.

Arguments mkRequest {B}.
Arguments rq_method {B}.
Arguments rq_path {B}.
Arguments rq_rest {B}.

(** ** What is served *)

(** The files of a directory that are published, by name. *)
Definition Published (read_dir : bytes → option (list (option DirEntry))) (dir : option bytes) (name content : bytes) : Prop :=
  ∃ d es e, dir = Some d ∧ read_dir d = Some es ∧ Some e ∈ es ∧ de_name e = Some name ∧ de_content e = Some content
    ∧ de_is_file e = true ∧ is_installer_artifact name = true.

Lemma load_file_lookup files e name content : load_file files e !! name = Some content →
  files !! name = Some content
  ∨ de_name e = Some name ∧ de_content e = Some content ∧ de_is_file e = true ∧ is_installer_artifact name = true.
Proof.
  unfold load_file. destruct (de_name e) as [n|]; [|by left]. destruct (de_content e) as [c|]; [|by left].
  destruct (_ && _) eqn:E; [|by left]. apply andb_true_iff in E as [? ?].
  rewrite lookup_insert. case_decide; [|by left]. subst. intros [= ->]. by right.
Qed.

Lemma load_files_lookup es : ∀ files name content, foldl load_file files es !! name = Some content →
  files !! name = Some content
  ∨ ∃ e, e ∈ es ∧ de_name e = Some name ∧ de_content e = Some content ∧ de_is_file e = true ∧ is_installer_artifact name = true.
Proof.
  induction es as [|e es IH]; intros files name content; cbn [foldl]; [by left|].
  intros [[?|?]%load_file_lookup|(e' & ? & ?)]%IH; [by left|right; exists e; split; [left|done]|].
  right. exists e'. split; [by right|done].
Qed.

Section served.
Context `{WebCrates} `{Crypto}.
Context (read_dir : bytes → option (list (option DirEntry))).

(** The files of the catalog before its manifest. *)
Definition loaded (dir : option bytes) : DistCatalog :=
  match dir ≫= read_dir with Some es => foldl load_file ∅ (omap id es) | None => ∅ end.

Lemma loaded_published dir name content : loaded dir !! name = Some content → Published read_dir dir name content.
Proof.
  unfold loaded. destruct dir as [d|]; cbn; [|by rewrite lookup_empty].
  destruct (read_dir d) as [es|] eqn:E; [|by rewrite lookup_empty].
  intros [Hl|(e & He & ?)]%load_files_lookup; [by rewrite lookup_empty in Hl|].
  apply list_elem_of_omap in He as ([e'|] & ? & [= ->]). by exists d, es, e.
Qed.

Lemma manifest_is_no_installer : is_installer_artifact "manifest.json" = false.
Proof. by vm_compute. Qed.

Lemma catalog_lookup dir name :
  load_dist_catalog read_dir dir !! name
  = if bool_decide (name = "manifest.json") then Some (render_manifest (loaded dir)) else loaded dir !! name.
Proof. unfold load_dist_catalog. fold (loaded dir). rewrite lookup_insert. by repeat case_decide; case_bool_decide; subst. Qed.

Lemma manifest_entry dir e : e ∈ manifest_entries (loaded dir) →
  (∃ content, loaded dir !! im_file e = Some content ∧ length content = im_size e ∧ has_extension (im_file e) "sh" = true)
  ∧ ∀ c, im_checksum e = Some c → c = im_file e ++ ".sha256" ∧ is_Some (loaded dir !! c).
Proof.
  unfold manifest_entries. rewrite list_elem_of_In, in_map_iff. intros ([name content] & <- & Hin).
  apply filter_In in Hin as [Hin [_ Hx]%andb_true_iff]. rewrite <- list_elem_of_In in Hin.
  apply elem_of_entries in Hin. cbn. split; [by exists content|].
  intros c. case_bool_decide as Hc; [|done]. by intros [= <-].
Qed.

(** What a built layer answers about the catalog and where its policy is from. *)
Lemma new_parts config version self : new read_dir config version = Some self →
  dist self = load_dist_catalog read_dir (Deployment.dist_dir config)
  ∧ app_config self = app_config_script config version.
Proof.
  unfold new. destruct (asset "index.html") as [index|]; [|done]. cbn.
  destruct (inline_module_hash index) as [h|]; [|done]. cbn. destruct (header_text _); [|done]. by intros [= <-].
Qed.

(** Where a body may come from. *)
Inductive Source (config : Deployment.WebConfig) (version path : bytes) : bytes → Prop :=
| FromConfig : path = "app-config.js" → Source config version path (app_config_script config version)
| FromManifest : path = "dist/manifest.json" →
    Source config version path (render_manifest (loaded (Deployment.dist_dir config)))
| FromInstaller name content : path = "dist/" ++ name → Published read_dir (Deployment.dist_dir config) name content →
    Source config version path content
| FromBundle file content : asset file = Some content → hidden file = false →
    file = path ∨ file = "index.html" → Source config version path content.

(** Every answer of a file carries the policy and forbids sniffing. *)
Definition Guarded (self : WebAssets) (r : Response) : Prop :=
  status r = 200%Z ∧ headers r !! ("content-security-policy" : bytes) = Some (content_security_policy self)
  ∧ headers r !! ("x-content-type-options" : bytes) = Some ("nosniff" : bytes).

Lemma head_answer self path :
  status (answer self path true) = status (answer self path false)
  ∧ headers (answer self path true) = headers (answer self path false) ∧ body (answer self path true) = [].
Proof.
  unfold answer. case_bool_decide; [done|]. destruct (strip_prefix _ _) as [name|].
  - by destruct (dist self !! name).
  - by destruct (if hidden _ then None else _).
Qed.

Lemma download_guarded self content content_type name head :
  Guarded self (download_response content content_type name head (content_security_policy self)).
Proof.
  unfold download_response. split; [done|]. cbn [headers].
  by rewrite lookup_insert_ne, !lookup_insert_eq by done.
Qed.

Lemma served_source config version self path : new read_dir config version = Some self →
  answer self path false = not_found
  ∨ Guarded self (answer self path false) ∧ Source config version path (body (answer self path false)).
Proof.
  intros [Hd Ha]%new_parts. unfold answer. case_bool_decide as Hp.
  { right. split; [split_and!; done|]. cbn. rewrite Ha. by constructor. }
  destruct (strip_prefix "dist/" path) as [name|] eqn:E.
  - apply strip_prefix_spec in E. rewrite Hd, catalog_lookup. case_bool_decide as Hm.
    { right. split; [apply download_guarded|apply FromManifest; by rewrite E, Hm]. }
    destruct (loaded _ !! name) as [content|] eqn:El; [|by left]. right.
    split; [apply download_guarded|by eapply FromInstaller; [|apply loaded_published]].
  - destruct (hidden (requested_asset path)) eqn:Eh; [by left|]. destruct (asset _) as [data|] eqn:Ea; [|by left].
    right. split; [done|]. cbn. eapply FromBundle; [done..|]. unfold requested_asset in *.
    destruct (_ || _); auto.
Qed.

(** A file of the catalog is what its address answers. *)
Lemma dist_answer config version self name content :
  new read_dir config version = Some self → loaded (Deployment.dist_dir config) !! name = Some content →
  status (answer self ("dist/" ++ name) false) = 200%Z ∧ body (answer self ("dist/" ++ name) false) = content.
Proof.
  intros [Hd _]%new_parts Hl.
  assert (name ≠ "manifest.json") as Hm.
  { intros ->. apply loaded_published in Hl as (? & ? & ? & Hl). destruct Hl as (_ & _ & _ & _ & _ & _ & Hl).
    by rewrite manifest_is_no_installer in Hl. }
  unfold answer. rewrite bool_decide_eq_false_2 by done.
  assert (strip_prefix "dist/" ("dist/" ++ name) = Some name) as -> by by apply strip_prefix_spec.
  by rewrite Hd, catalog_lookup, bool_decide_eq_false_2, Hl.
Qed.

(** C29: The layer in front of the services serves published files and nothing
    else.  A request that does not ask for a file reaches the services as it
    is.  A request that does is answered here: by nothing, or, under the security
    policy, by the page's configuration, a file of the bundle with no hidden
    segment, or an installer of the configured directory; HEAD is answered as
    GET is, without the body.  What the manifest lists is served at the address
    it names, with the size it says, and so is the checksum it links. *)
Theorem only_published_files_are_served config version self {B R} (inner : Request B → R) method path rest :
  new read_dir config version = Some self →
  (method ≠ GET → method ≠ HEAD →
   call self inner (mkRequest method path rest) = inl (inner (mkRequest method path rest)))
  ∧ (method = GET ∨ method = HEAD →
     ∃ r g, call self inner (mkRequest method path rest) = inr r ∧ call self inner (mkRequest GET path rest) = inr g
       ∧ status r = status g ∧ headers r = headers g ∧ (method = HEAD → body r = [])
       ∧ (g = not_found ∨ Guarded self g ∧ Source config version (trim_start_matches "/"%char path) (body g)))
  ∧ (∀ e, e ∈ manifest_entries (loaded (Deployment.dist_dir config)) →
       (∃ r, call self inner (mkRequest GET ("/dist/" ++ im_file e) rest) = inr r
          ∧ status r = 200%Z ∧ length (body r) = im_size e)
       ∧ ∀ c, im_checksum e = Some c →
           ∃ r, call self inner (mkRequest GET ("/dist/" ++ c) rest) = inr r ∧ status r = 200%Z).
Proof.
  intros Hn. split; [|split].
  - intros Hg Hh. unfold call. cbn. by rewrite !bool_decide_eq_false_2.
  - intros Hm. set (p := trim_start_matches "/"%char path).
    exists (answer self p (bool_decide (method = HEAD))), (answer self p false).
    pose proof (head_answer self p) as (Hs & Hh & Hb). pose proof (served_source _ _ _ p Hn).
    destruct Hm as [-> | ->]; cbn [bool_decide]; by split_and!.
  - intros e He. destruct (manifest_entry _ _ He) as [(content & Hl & Hs & _) Hc]. split.
    + destruct (dist_answer _ _ _ _ _ Hn Hl) as [? Hb].
      exists (answer self ("dist/" ++ im_file e) false). by rewrite Hb.
    + intros c [-> [content' Hl']]%Hc. exists (answer self ("dist/" ++ im_file e ++ ".sha256") false).
      split; [done|]. by apply (dist_answer _ _ _ _ _ Hn Hl').
Qed.
End served.

(** ** A sample site *)

Module Sample.

Definition index : bytes := "<script type=" ++ DQ ++ "module" ++ DQ ++ ">go()</script>".

Instance sample_web : WebCrates := {|
  asset f := if bool_decide (f = "index.html") then Some index
             else if bool_decide (f = ".trunk-profile") then Some "release" else None;
  mime _ := "text/html";
  json_text _ := "{}";
  header_text _ := true |}.

Definition sample_dir (d : bytes) : option (list (option DirEntry)) :=
  if bool_decide (d = "/srv") then
    Some [Some (mkEntry (Some "install-sc.sh") true (Some "#!/bin/sh")); None;
          Some (mkEntry (Some "install-sc.sh.sha256") true (Some "00"));
          Some (mkEntry (Some "server.key") true (Some "secret")); Some (mkEntry (Some "install-d.sh") false None)]
  else None.

Definition sample_settings : Deployment.WebConfig := Deployment.mkWeb "https://auth" "sc" (Some "/srv") None.

Definition sample_site : WebAssets := default (mkWeb [] [] ∅) (new sample_dir sample_settings "1").

Lemma only_published_files_are_served_witness :
  manifest_entries (loaded sample_dir (Deployment.dist_dir sample_settings)) = [mkInstaller "install-sc.sh" (Some "install-sc.sh.sha256") 9]
  ∧ ∃ r, call sample_site (R:=unit) (λ _, tt) (mkRequest GET "/dist/install-sc.sh" tt) = inr r ∧ length (body r) = 9%nat.
Proof.
  pose (e := mkInstaller "install-sc.sh" (Some "install-sc.sh.sha256" : option bytes) 9).
  assert (manifest_entries (loaded sample_dir (Deployment.dist_dir sample_settings)) = [e]) as Em by (vm_compute; reflexivity).
  split; [exact Em|].
  assert (new sample_dir sample_settings "1" = Some sample_site) as Hn by (vm_compute; reflexivity).
  destruct (only_published_files_are_served sample_dir sample_settings "1" sample_site (R:=unit) (λ _, tt) GET "/" tt Hn)
    as (_ & _ & Hl).
  destruct (Hl e) as [(r & Hr & _ & Hs) _]; [rewrite Em; left|]. exists r. split; [exact Hr|exact Hs].
Defined.

Example hidden_and_stray_files_are_not_served :
  List.map (λ p, match call sample_site (R:=unit) (λ _, tt) (mkRequest GET p tt) with inr r => status r | inl _ => 0%Z end)
    ["/"; "/connections"; "/.trunk-profile"; "/dist/server.key"; "/dist/../server.key"; "//app-config.js"]
  = [200; 200; 404; 404; 404; 200]%Z.
Proof. by vm_compute. Qed.
End Sample.

End Web.
