(* ===== verification/TelemetryConfig.v ===== *)
(** * The telemetry settings

    Models [crates/sovereign-config-telemetry/src/config.rs]: the [OTEL_]
    variables, taken as one snapshot and validated as one set before anything
    starts.  [url] is the class [UrlCrates]; reading an [f64] is written out as
    far as the check of a ratio needs it. *)

From stdpp Require Import gmap strings.
From S2P Require Import Prelude Bytes ConfigPath ConnectionUrl ValuePaths AuditQuery BrokerSignature.

Local Open Scope bytes_scope.

(** ** [str::parse::<f64>] and the interval from 0 to 1 *)

Module Float.

(** What a text is as a number, before it is rounded: a special value, or
    [mantissa * 10 ^ exponent] with a sign. *)
Inductive Decimal :=
| Special
| Finite (negative : bool) (mantissa exponent : Z).

Fixpoint read_mantissa (acc count : Z) (s : bytes) : Z * Z * bytes :=
  match s with
  | c :: s' => if is_ascii_digit c then read_mantissa (acc * 10 + (code c - 48)) (count + 1) s' else (acc, count, s)
  | [] => (acc, count, s)
  end.

Definition read_sign (s : bytes) : bool * bytes :=
  match s with
  | "-"%char :: s' => (true, s')
  | "+"%char :: s' => (false, s')
  | _ => (false, s)
  end.

Definition read_exponent (s : bytes) : option Z :=
  match s with
  | [] => Some 0%Z
  | c :: s' =>
      if bool_decide (lower_byte c = "e"%char) then
        let '(negative, s') := read_sign s' in
        let '(e, count, rest) := read_mantissa 0 0 s' in
        if (0 <? count)%Z && is_empty rest then Some (if (negative : bool) then - e else e)%Z else None
      else None
  end.

Definition parse (s : bytes) : option Decimal :=
  let '(negative, s) := read_sign s in
  if existsb (eq_ignore_ascii_case s) ["inf"; "infinity"; "nan"] then Some Special
  else
    let '(whole, n, rest) := read_mantissa 0 0 s in
    let '(mantissa, k, m, rest) :=
      match rest with
      | "."%char :: rest' => let '(all, k, rest'') := read_mantissa whole 0 rest' in (all, k, (n + k)%Z, rest'')
      | _ => (whole, 0%Z, n, rest)
      end in
    if (m =? 0)%Z then None
    else e ← read_exponent rest; Some (Finite negative mantissa (e - k)).

(** [m * 10 ^ e <= a / b] *)
Definition at_most (m e a b : Z) : bool :=
  if (0 <=? e)%Z then (m * 10 ^ e * b <=? a)%Z else (m * b <=? a * 10 ^ (- e))%Z.

(** Whether the nearest [f64], ties to even, lies from 0 to 1.  Of the numbers
    above 1 those up to half a unit in its last place round to it, and of the
    negative ones those down to half the smallest round to zero. *)
Definition in_unit (d : Decimal) : bool :=
  match d with
  | Special => false
  | Finite false m e => at_most m e (2 ^ 53 + 1) (2 ^ 53)
  | Finite true m e => at_most m e 1 (2 ^ 1075)
  end.

Example units :
  List.map (λ s, match parse s with Some d => Some (in_unit d) | None => None end)
    ["0"; "1"; ".5"; "1."; "1e0"; "-0"; "1.0000000000000001"; "1.1"; "-1e-400"; "inf"; "NaN"; "."; "e5"; "1e"; "0x1"; ""; "+.5E-1"]
  = [Some true; Some true; Some true; Some true; Some true; Some true; Some true; Some false; Some true; Some false;
     Some false; None; None; None; None; None; Some true].
Proof. vm_compute. reflexivity. Qed.

End Float.

Module Otel.

Definition OTEL_SDK_DISABLED : bytes := "OTEL_SDK_DISABLED".
Definition OTEL_SERVICE_NAME : bytes := "OTEL_SERVICE_NAME".
Definition OTEL_RESOURCE_ATTRIBUTES : bytes := "OTEL_RESOURCE_ATTRIBUTES".
Definition OTEL_EXPORTER_OTLP_ENDPOINT : bytes := "OTEL_EXPORTER_OTLP_ENDPOINT".
Definition OTEL_EXPORTER_OTLP_PROTOCOL : bytes := "OTEL_EXPORTER_OTLP_PROTOCOL".
Definition OTEL_PROPAGATORS : bytes := "OTEL_PROPAGATORS".
Definition OTEL_TRACES_SAMPLER : bytes := "OTEL_TRACES_SAMPLER".
Definition OTEL_TRACES_SAMPLER_ARG : bytes := "OTEL_TRACES_SAMPLER_ARG".
Definition HTTP_PROTOBUF : bytes := "http/protobuf".

(** The names the semantic conventions give the two required attributes. *)
Definition SERVICE_NAME : bytes := "service.name".
Definition DEPLOYMENT_ENVIRONMENT_NAME : bytes := "deployment.environment.name".

Definition SAMPLERS : list bytes :=
  ["always_on"; "always_off"; "parentbased_always_on"; "parentbased_always_off"; "parentbased_traceidratio"].

Definition WHOLE_NUMBERS : list bytes :=
  ["OTEL_BSP_MAX_QUEUE_SIZE"; "OTEL_BSP_SCHEDULE_DELAY"; "OTEL_BSP_EXPORT_TIMEOUT"; "OTEL_BSP_MAX_EXPORT_BATCH_SIZE";
   "OTEL_BLRP_MAX_QUEUE_SIZE"; "OTEL_BLRP_SCHEDULE_DELAY"; "OTEL_BLRP_EXPORT_TIMEOUT"; "OTEL_BLRP_MAX_EXPORT_BATCH_SIZE";
   "OTEL_METRIC_EXPORT_INTERVAL"; "OTEL_METRIC_EXPORT_TIMEOUT"; "OTEL_EXPORTER_OTLP_TIMEOUT";
   "OTEL_EXPORTER_OTLP_TRACES_TIMEOUT"; "OTEL_EXPORTER_OTLP_METRICS_TIMEOUT"; "OTEL_EXPORTER_OTLP_LOGS_TIMEOUT"].

Record ConfigError := mkError { variable : bytes; problem : bytes }.

Notation OtelEnv := (gmap bytes bytes).

(** The variables of the process: names with what is not UTF-8 replaced, values
    where they are UTF-8. *)
Fixpoint from_process_into (variables : OtelEnv) (vars : list (bytes * option bytes)) : result OtelEnv ConfigError :=
  match vars with
  | [] => Ok variables
  | (name, value) :: vars' =>
      if negb (starts_with name "OTEL_") then from_process_into variables vars'
      else match value with
           | None => Err (mkError name "is not valid UTF-8")
           | Some value => from_process_into (if is_empty value then variables else <[name := value]> variables) vars'
           end
  end.
Definition from_process : list (bytes * option bytes) → result OtelEnv ConfigError := from_process_into ∅.

Definition from_pairs (pairs : list (bytes * bytes)) : OtelEnv :=
  foldl (λ env p, <[p.1 := p.2]> env) ∅
    (List.filter (λ p, starts_with p.1 "OTEL_" && negb (is_empty p.2)) pairs).

Definition get (env : OtelEnv) (name : bytes) : option bytes :=
  v ← env !! name; if is_empty v then None else Some v.

Inductive Signal := Traces | Metrics | Logs.
#[global] Instance Signal_eq_dec : EqDecision Signal.
Proof. solve_decision. Defined.

Definition ALL : list Signal := [Traces; Metrics; Logs].

Definition exporter_variable (s : Signal) : bytes :=
  match s with Traces => "OTEL_TRACES_EXPORTER" | Metrics => "OTEL_METRICS_EXPORTER" | Logs => "OTEL_LOGS_EXPORTER" end.
Definition endpoint_variable (s : Signal) : bytes :=
  match s with
  | Traces => "OTEL_EXPORTER_OTLP_TRACES_ENDPOINT"
  | Metrics => "OTEL_EXPORTER_OTLP_METRICS_ENDPOINT"
  | Logs => "OTEL_EXPORTER_OTLP_LOGS_ENDPOINT"
  end.
Definition protocol_variable (s : Signal) : bytes :=
  match s with
  | Traces => "OTEL_EXPORTER_OTLP_TRACES_PROTOCOL"
  | Metrics => "OTEL_EXPORTER_OTLP_METRICS_PROTOCOL"
  | Logs => "OTEL_EXPORTER_OTLP_LOGS_PROTOCOL"
  end.

Inductive Off := NoVariables | Disabled | NothingExported.

Record Exported := mkExported { logs : bool; metrics : bool; traces : bool }.

Definition any (e : Exported) : bool := logs e || metrics e || traces e.

Definition names (e : Exported) : bytes :=
  join "," (omap (λ '(on, name), if (on : bool) then Some name else None)
              [(logs e, "logs" : bytes); (metrics e, "metrics" : bytes); (traces e, "traces" : bytes)]).

Inductive Plan :=
| PlanOff (why : Off)
| Export (attributes : list (bytes * bytes)) (signals : Exported).

Section validate.
Context `{UrlCrates}.
Context (env : OtelEnv).

Definition setting (name : bytes) : option bytes := trim <$> get env name.

Definition sdk_disabled : result bool ConfigError :=
  match setting OTEL_SDK_DISABLED with
  | None => Ok false
  | Some value =>
      if eq_ignore_ascii_case value "true" then Ok true
      else if eq_ignore_ascii_case value "false" then Ok false
      else Err (mkError OTEL_SDK_DISABLED "must be true or false")
  end.

Definition exports (signal : Signal) : result bool ConfigError :=
  match setting (exporter_variable signal) with
  | None => Ok true
  | Some value =>
      if bool_decide (value = "otlp") then Ok true
      else if bool_decide (value = "none") then Ok false
      else Err (mkError (exporter_variable signal) "must be otlp or none")
  end.

Fixpoint exporting_of (signals : list Signal) : result (list Signal) ConfigError :=
  match signals with
  | [] => Ok []
  | s :: signals' =>
      let? on := exports s in
      let? rest := exporting_of signals' in
      Ok (if (on : bool) then s :: rest else rest)
  end.

(** A loop that checks one name after the other. *)
Fixpoint each {A} (check : A → result unit ConfigError) (l : list A) : result unit ConfigError :=
  match l with
  | [] => Ok tt
  | x :: l' => let? _ := check x in each check l'
  end.

Definition validate_protocols : result unit ConfigError :=
  each (λ name,
    match setting name with
    | None => Ok tt
    | Some value =>
        if bool_decide (value = HTTP_PROTOBUF) then Ok tt
        else if bool_decide (value = "grpc")
        then Err (mkError name "selects grpc, which this server is not built with; use http/protobuf")
        else Err (mkError name "must be http/protobuf or grpc")
    end) (OTEL_EXPORTER_OTLP_PROTOCOL :: List.map protocol_variable ALL).

Definition is_collector_url (value : bytes) : bool :=
  match url_parse (trim value) with
  | Some url => (bool_decide (u_scheme url = "http") || bool_decide (u_scheme url = "https"))
                && bool_decide (u_host_str url ≠ None)
  | None => false
  end.

Definition validate_endpoints (exporting : list Signal) : result unit ConfigError :=
  let? _ := each (λ name,
    match get env name with
    | Some value => if is_collector_url value then Ok tt else Err (mkError name "must be an absolute http or https URL")
    | None => Ok tt
    end) (OTEL_EXPORTER_OTLP_ENDPOINT :: List.map endpoint_variable ALL) in
  each (λ signal,
    if bool_decide (get env OTEL_EXPORTER_OTLP_ENDPOINT = None) && bool_decide (get env (endpoint_variable signal) = None)
    then Err (mkError OTEL_EXPORTER_OTLP_ENDPOINT "must be set while any signal exports over OTLP (set that signal's OTEL_*_EXPORTER to none to silence it)")
    else Ok tt) exporting.

Definition validate_propagators : result unit ConfigError :=
  match setting OTEL_PROPAGATORS with
  | None => Ok tt
  | Some value =>
      if bool_decide (value = "tracecontext") then Ok tt
      else Err (mkError OTEL_PROPAGATORS "must be tracecontext (W3C trace context is the only propagator)")
  end.

Definition validate_sampler : result unit ConfigError :=
  let? _ :=
    match setting OTEL_TRACES_SAMPLER with
    | Some sampler =>
        if bool_decide (sampler ∈ SAMPLERS) then Ok tt
        else Err (mkError OTEL_TRACES_SAMPLER "must be always_on, always_off or a parentbased_* sampler (traceidratio lets a caller choose, through its trace id, whether its request is recorded)")
    | None => Ok tt
    end in
  match setting OTEL_TRACES_SAMPLER_ARG with
  | Some argument =>
      match Float.parse argument with
      | Some ratio => if Float.in_unit ratio then Ok tt else Err (mkError OTEL_TRACES_SAMPLER_ARG "must be a number from 0 to 1")
      | None => Err (mkError OTEL_TRACES_SAMPLER_ARG "must be a number from 0 to 1")
      end
  | None => Ok tt
  end.

Definition validate_numbers : result unit ConfigError :=
  each (λ name,
    match setting name with
    | Some value => match Signature.parse_u64 value with Some _ => Ok tt | None => Err (mkError name "must be a whole number") end
    | None => Ok tt
    end) WHOLE_NUMBERS.

(** [str::split_terminator]: a last piece that is empty is not one. *)
Definition split_terminator (c : ascii) (s : bytes) : list bytes :=
  let pieces := split c s in
  match last pieces with Some [] => removelast pieces | _ => pieces end.

Definition attribute_entry (entry : bytes) : result (bytes * bytes) ConfigError :=
  ok_or (kv ← split_once "="%char entry;
         let key := trim kv.1 in if is_empty key then None else Some (key, trim kv.2))
    (mkError OTEL_RESOURCE_ATTRIBUTES "must be a comma-separated list of key=value pairs").

Fixpoint attribute_entries (attributes : gmap bytes bytes) (l : list bytes) : result (gmap bytes bytes) ConfigError :=
  match l with
  | [] => Ok attributes
  | e :: l' => let? kv := attribute_entry e in attribute_entries (<[kv.1 := kv.2]> attributes) l'
  end.

Definition lacks (attributes : gmap bytes bytes) (name : bytes) : bool :=
  match attributes !! name with Some v => is_empty v | None => true end.

Definition resource_attributes : result (list (bytes * bytes)) ConfigError :=
  let? attributes :=
    match get env OTEL_RESOURCE_ATTRIBUTES with
    | Some l => attribute_entries ∅ (split_terminator ","%char l)
    | None => Ok ∅
    end in
  let attributes :=
    match setting OTEL_SERVICE_NAME with Some name => <[SERVICE_NAME := name]> attributes | None => attributes end in
  if lacks attributes SERVICE_NAME
  then Err (mkError OTEL_SERVICE_NAME "must be set while telemetry is on")
  else if lacks attributes DEPLOYMENT_ENVIRONMENT_NAME
  then Err (mkError OTEL_RESOURCE_ATTRIBUTES "must carry deployment.environment.name while telemetry is on")
  else Ok (entries attributes).

Definition validate : result Plan ConfigError :=
  if bool_decide (env = ∅) then Ok (PlanOff NoVariables)
  else
    let? disabled := sdk_disabled in
    if (disabled : bool) then Ok (PlanOff Disabled)
    else
      let? exporting := exporting_of ALL in
      let? _ := validate_protocols in
      let? _ := validate_endpoints exporting in
      let? _ := validate_propagators in
      let? _ := validate_sampler in
      let? _ := validate_numbers in
      if is_empty exporting then Ok (PlanOff NothingExported)
      else
        let? attributes := resource_attributes in
        Ok (Export attributes (mkExported (bool_decide (Logs ∈ exporting)) (bool_decide (Metrics ∈ exporting))
                                 (bool_decide (Traces ∈ exporting)))).
End validate.

(** ** What a validated set is *)

Definition exported (s : Signal) (signals : Exported) : bool :=
  match s with Traces => traces signals | Metrics => metrics signals | Logs => logs signals end.

(** The names and the texts an error can be made of. *)
Definition VARIABLES : list bytes :=
  [OTEL_SDK_DISABLED; OTEL_SERVICE_NAME; OTEL_RESOURCE_ATTRIBUTES; OTEL_EXPORTER_OTLP_ENDPOINT; OTEL_EXPORTER_OTLP_PROTOCOL;
   OTEL_PROPAGATORS; OTEL_TRACES_SAMPLER; OTEL_TRACES_SAMPLER_ARG]
  ++ List.map exporter_variable ALL ++ List.map endpoint_variable ALL ++ List.map protocol_variable ALL ++ WHOLE_NUMBERS.

Definition PROBLEMS : list bytes :=
  ["must be true or false"; "must be otlp or none";
   "selects grpc, which this server is not built with; use http/protobuf"; "must be http/protobuf or grpc";
   "must be an absolute http or https URL";
   "must be set while any signal exports over OTLP (set that signal's OTEL_*_EXPORTER to none to silence it)";
   "must be tracecontext (W3C trace context is the only propagator)";
   "must be always_on, always_off or a parentbased_* sampler (traceidratio lets a caller choose, through its trace id, whether its request is recorded)";
   "must be a number from 0 to 1"; "must be a whole number"; "must be a comma-separated list of key=value pairs";
   "must be set while telemetry is on"; "must carry deployment.environment.name while telemetry is on"].

Definition Bounded {A} (r : result A ConfigError) : Prop :=
  match r with Ok _ => True | Err e => variable e ∈ VARIABLES ∧ problem e ∈ PROBLEMS end.

Lemma bounded_then {A B} (r : result A ConfigError) (k : A → result B ConfigError) :
  Bounded r → (∀ a, r = Ok a → Bounded (k a)) → Bounded (and_then r k).
Proof. destruct r; cbn; auto. Qed.

Lemma each_ok {A} (check : A → result unit ConfigError) l : each check l = Ok tt ↔ ∀ x, x ∈ l → check x = Ok tt.
Proof.
  induction l as [|x l IH]; cbn; [split; [intros _ ? Hx; by apply elem_of_nil in Hx|done]|].
  destruct (check x) as [[]|e] eqn:E; cbn.
  - rewrite IH. split; [|intros Hc y ?; apply Hc; by right].
    intros Hc y [->|?]%elem_of_cons; [done|by apply Hc].
  - split; [done|]. intros Hc. by rewrite Hc in E by left.
Qed.

Lemma each_bounded {A} (check : A → result unit ConfigError) l :
  (∀ x, x ∈ l → Bounded (check x)) → Bounded (each check l).
Proof.
  induction l as [|x l IH]; intros Hb; [done|]. cbn. apply bounded_then; [apply Hb; by left|].
  intros _ _. apply IH. intros y ?. apply Hb. by right.
Qed.

(** An error that is written out is one of the listed ones. *)
Ltac listed := split; apply (bool_decide_unpack _); vm_compute; exact I.
(** The same under the names a loop runs over. *)
Ltac listed_in Hin :=
  repeat (apply elem_of_cons in Hin as [->|Hin]; [listed|]); by apply elem_of_nil in Hin.

Section validated.
Context `{UrlCrates}.
Context (env : OtelEnv).

Lemma exports_spec s on : exports env s = Ok on →
  (on = true ↔ setting env (exporter_variable s) ≠ Some "none").
Proof.
  unfold exports. destruct (setting env _) as [v|]; [|intros [= <-]; by split].
  case_bool_decide as E1; [intros [= <-]; subst; by split|].
  case_bool_decide as E2; [intros [= <-]; subst; by split|done].
Qed.

Lemma exporting_spec l : ∀ exporting, exporting_of env l = Ok exporting →
  ∀ s, s ∈ exporting ↔ s ∈ l ∧ setting env (exporter_variable s) ≠ Some "none".
Proof.
  induction l as [|x l IH]; cbn; [intros ? [= <-] s; split; [intros Hs; by apply elem_of_nil in Hs|by intros [? _]]|].
  intros exporting (on & Hon & Hr)%and_then_ok s. apply and_then_ok in Hr as (rest & Hrest & [= <-]).
  apply exports_spec in Hon. specialize (IH _ Hrest s).
  destruct on; rewrite ?elem_of_cons, IH; [|split; [intros [? ?]; auto|]].
  - split; [intros [->|[? ?]]; [split; [by left|by apply Hon]|auto]|]. intros [[->|?] ?]; auto.
  - intros [[->|?] Hn]; [|done]. by apply Hon in Hn.
Qed.

Lemma exporting_bounded l : Bounded (exporting_of env l).
Proof.
  induction l as [|s l IH]; [done|]. cbn. apply bounded_then; [|intros ? _; by apply bounded_then].
  unfold exports. destruct (setting env _); [|done]. repeat case_bool_decide; try done. destruct s; listed.
Qed.

Lemma endpoints_spec exporting s : validate_endpoints env exporting = Ok tt → s ∈ exporting →
  ∃ name v, name ∈ [OTEL_EXPORTER_OTLP_ENDPOINT; endpoint_variable s] ∧ get env name = Some v ∧ is_collector_url v = true.
Proof.
  unfold validate_endpoints. intros ([] & Hc & Hr)%and_then_ok Hs. cbn beta in Hr. rewrite each_ok in Hc. rewrite each_ok in Hr.
  assert (∀ name v, name ∈ [OTEL_EXPORTER_OTLP_ENDPOINT; endpoint_variable s] → get env name = Some v →
            is_collector_url v = true) as Hu.
  { intros name v Hin Hg. specialize (Hc name). rewrite Hg in Hc. destruct (is_collector_url v); [done|].
    assert (name ∈ OTEL_EXPORTER_OTLP_ENDPOINT :: List.map endpoint_variable ALL) as Hin'; [|by apply Hc in Hin'].
    apply elem_of_cons in Hin as [->|Hin]; [by left|]. apply list_elem_of_singleton in Hin as ->.
    apply elem_of_cons. right. apply list_elem_of_In, in_map, list_elem_of_In. destruct s; unfold ALL; repeat constructor. }
  specialize (Hr s Hs). cbn beta in Hr.
  destruct (get env OTEL_EXPORTER_OTLP_ENDPOINT) as [v|] eqn:Eg.
  - exists OTEL_EXPORTER_OTLP_ENDPOINT, v. split; [by left|]. split; [done|]. eapply Hu; [by left|done].
  - rewrite (bool_decide_eq_true_2 (None = None)) in Hr by done.
    destruct (get env (endpoint_variable s)) as [v|] eqn:Es; [|done].
    assert (endpoint_variable s ∈ [OTEL_EXPORTER_OTLP_ENDPOINT; endpoint_variable s]) as Hin by (right; left).
    exists (endpoint_variable s), v. split; [exact Hin|]. split; [done|]. by eapply Hu.
Qed.

Lemma protocols_spec s p : validate_protocols env = Ok tt → setting env (protocol_variable s) = Some p → p = HTTP_PROTOBUF.
Proof.
  unfold validate_protocols. rewrite each_ok. intros Hc Hs.
  specialize (Hc (protocol_variable s)). rewrite Hs in Hc. case_bool_decide; [done|].
  assert (protocol_variable s ∈ OTEL_EXPORTER_OTLP_PROTOCOL :: List.map protocol_variable ALL) as Hin.
  { apply elem_of_cons. right. apply list_elem_of_In, in_map, list_elem_of_In. destruct s; unfold ALL; repeat constructor. }
  apply Hc in Hin. by case_bool_decide.
Qed.

Lemma sampler_spec v : validate_sampler env = Ok tt → setting env OTEL_TRACES_SAMPLER = Some v → v ∈ SAMPLERS.
Proof.
  unfold validate_sampler. intros ([] & Hs & _)%and_then_ok E. rewrite E in Hs. by case_bool_decide.
Qed.

Lemma attributes_spec attributes : resource_attributes env = Ok attributes →
  (∃ v, (SERVICE_NAME, v) ∈ attributes ∧ v ≠ []) ∧ (∃ v, (DEPLOYMENT_ENVIRONMENT_NAME, v) ∈ attributes ∧ v ≠ [])
  ∧ ∀ v, setting env OTEL_SERVICE_NAME = Some v → (SERVICE_NAME, v) ∈ attributes.
Proof.
  unfold resource_attributes. intros (m0 & _ & Hr)%and_then_ok.
  set (m := match setting env OTEL_SERVICE_NAME with Some _ => _ | None => _ end) in Hr.
  assert (∀ n, lacks m n = false → ∃ v, (n, v) ∈ entries m ∧ v ≠ []) as Hl.
  { intros n. unfold lacks. destruct (m !! n) as [v|] eqn:E; [|done]. intros Hv.
    exists v. rewrite elem_of_entries. split; [done|]. by destruct v. }
  destruct (lacks m SERVICE_NAME) eqn:E1; [done|]. destruct (lacks m DEPLOYMENT_ENVIRONMENT_NAME) eqn:E2; [done|].
  injection Hr as <-. split; [by apply Hl|]. split; [by apply Hl|].
  intros v Hv. apply elem_of_entries. unfold m. by rewrite Hv, lookup_insert_eq.
Qed.

Lemma attributes_bounded : Bounded (resource_attributes env).
Proof.
  unfold resource_attributes. apply bounded_then.
  - destruct (get env _) as [l|]; [|done]. generalize (∅ : gmap bytes bytes).
    induction (split_terminator ","%char l) as [|e l' IH]; intros m; [done|]. cbn.
    apply bounded_then; [|intros ? _; apply IH]. unfold attribute_entry.
    destruct (split_once _ e) as [kv|]; cbn; [|listed]. destruct (is_empty (trim kv.1)); cbn; [listed|done].
  - intros m _. destruct (lacks _ SERVICE_NAME); [listed|]. destruct (lacks _ DEPLOYMENT_ENVIRONMENT_NAME); [listed|done].
Qed.

(** What the checks between the signals and the identity can say. *)
Lemma checks_bounded exporting :
  Bounded (validate_protocols env) ∧ Bounded (validate_endpoints env exporting) ∧ Bounded (validate_propagators env)
  ∧ Bounded (validate_sampler env) ∧ Bounded (validate_numbers env).
Proof.
  split_and!.
  - apply each_bounded. intros name Hin. destruct (setting env name); [|done].
    repeat case_bool_decide; [done| |]; listed_in Hin.
  - apply bounded_then.
    + apply each_bounded. intros name Hin. destruct (get env name); [|done]. destruct (is_collector_url _); [done|].
      listed_in Hin.
    + intros _ _. apply each_bounded. intros s _. destruct (_ && _); [listed|done].
  - unfold validate_propagators. destruct (setting env _); [|done]. case_bool_decide; [done|listed].
  - apply bounded_then.
    + destruct (setting env _); [|done]. case_bool_decide; [done|listed].
    + intros _ _. destruct (setting env _); [|done]. destruct (Float.parse _); [|listed].
      destruct (Float.in_unit _); [done|listed].
  - apply each_bounded. intros name Hin. destruct (setting env name); [|done].
    destruct (Signature.parse_u64 _); [done|]. listed_in Hin.
Qed.
End validated.

Lemma sdk_bounded `{UrlCrates} env : Bounded (sdk_disabled env).
Proof.
  unfold sdk_disabled. destruct (setting env _); [|done]. destruct (eq_ignore_ascii_case _ _); [done|].
  destruct (eq_ignore_ascii_case _ _); [done|listed].
Qed.

(** The telemetry variables are used as one validated set or not at all.
    Telemetry is off without any of them, when the set disables it and when
    every signal is silenced.  Otherwise it exports exactly the signals that are
    not silenced, each to an http or https endpoint the set names, over the one
    protocol, with a sampler a caller cannot steer, under a service and an
    environment that have names.  Anything else is refused, and an error is
    made of fixed names and fixed texts: no value of a variable is in it. *)
Theorem telemetry_is_validated_as_one_set `{UrlCrates} (env : OtelEnv) :
  match validate env with
  | Ok (PlanOff NoVariables) => env = ∅
  | Ok (PlanOff Disabled) =>
      ∃ v, setting env OTEL_SDK_DISABLED = Some v ∧ eq_ignore_ascii_case v "true" = true
  | Ok (PlanOff NothingExported) => ∀ s, setting env (exporter_variable s) = Some "none"
  | Ok (Export attributes signals) =>
      any signals = true
      ∧ (∀ s, exported s signals = true ↔ setting env (exporter_variable s) ≠ Some "none")
      ∧ (∀ s, exported s signals = true →
           ∃ name v, name ∈ [OTEL_EXPORTER_OTLP_ENDPOINT; endpoint_variable s] ∧ get env name = Some v
             ∧ is_collector_url v = true)
      ∧ (∀ s p, setting env (protocol_variable s) = Some p → p = HTTP_PROTOBUF)
      ∧ (∀ v, setting env OTEL_TRACES_SAMPLER = Some v → v ∈ SAMPLERS)
      ∧ (∃ v, (SERVICE_NAME, v) ∈ attributes ∧ v ≠ [])
      ∧ (∃ v, (DEPLOYMENT_ENVIRONMENT_NAME, v) ∈ attributes ∧ v ≠ [])
      ∧ (∀ v, setting env OTEL_SERVICE_NAME = Some v → (SERVICE_NAME, v) ∈ attributes)
  | Err e => variable e ∈ VARIABLES ∧ problem e ∈ PROBLEMS
  end.
Proof.
  assert (Bounded (validate env)) as Hb.
  { unfold validate. case_bool_decide; [done|]. apply bounded_then; [apply sdk_bounded|intros off _]. destruct off; [done|].
    apply bounded_then; [apply exporting_bounded|intros exporting _].
    pose proof (checks_bounded env exporting) as (? & ? & ? & ? & ?).
    do 5 (apply bounded_then; [done|intros [] _]). destruct (is_empty exporting); [done|].
    by apply bounded_then; [apply attributes_bounded|]. }
  destruct (validate env) as [plan|e] eqn:Ev; [clear Hb|exact Hb].
  unfold validate in Ev. case_bool_decide as He; [by injection Ev as <-|].
  apply and_then_ok in Ev as (off & Hoff & Ev). destruct off.
  { injection Ev as <-. unfold sdk_disabled in Hoff. destruct (setting env _) as [v|]; [|done]. exists v. split; [done|].
    destruct (eq_ignore_ascii_case v "true"); [done|]. by destruct (eq_ignore_ascii_case v "false"). }
  apply and_then_ok in Ev as (exporting & Hx & Ev). pose proof (exporting_spec _ _ _ Hx) as Hs.
  assert (∀ s, s ∈ ALL) as Hall by (intros []; unfold ALL; repeat constructor).
  apply and_then_ok in Ev as ([] & Hproto & Ev). apply and_then_ok in Ev as ([] & Hend & Ev).
  apply and_then_ok in Ev as (_ & _ & Ev). apply and_then_ok in Ev as ([] & Hsam & Ev).
  apply and_then_ok in Ev as (_ & _ & Ev). destruct exporting as [|x l].
  { injection Ev as <-. intros s. specialize (Hs s). destruct (decide (setting env (exporter_variable s) = Some "none")) as [|Hn]; [done|].
    destruct Hs as [_ Hs]. exfalso. eapply not_elem_of_nil, Hs. split; [apply Hall|done]. }
  apply and_then_ok in Ev as (attributes & Ha & [= <-]).
  assert (∀ s, exported s (mkExported (bool_decide (Logs ∈ x :: l)) (bool_decide (Metrics ∈ x :: l)) (bool_decide (Traces ∈ x :: l)))
               = bool_decide (s ∈ x :: l)) as Hexp by by intros [].
  apply attributes_spec in Ha as (? & ? & ?). split; [|split; [|split; [|split_and!; try done]]].
  - specialize (Hexp x). rewrite (bool_decide_eq_true_2 (x ∈ _)) in Hexp by left. unfold any.
    destruct x; cbn [exported traces metrics logs] in Hexp |- *; rewrite Hexp; by rewrite ?orb_true_r.
  - intros s. rewrite Hexp, bool_decide_eq_true, (Hs s). split; [by intros [_ ?]|]. by split.
  - intros s. rewrite Hexp, bool_decide_eq_true. by apply endpoints_spec.
  - intros s p. by apply protocols_spec.
  - intros v. by apply sampler_spec.
Qed.

(** A snapshot holds only variables of the family that have a value. *)
Lemma from_process_holds vars : ∀ env0 env, from_process_into env0 vars = Ok env →
  map_Forall (λ name v, starts_with name "OTEL_" = true ∧ v ≠ []) env0 →
  map_Forall (λ name v, starts_with name "OTEL_" = true ∧ v ≠ []) env.
Proof.
  induction vars as [|[name value] vars IH]; cbn; intros env0 env Hr H0; [by injection Hr as <-|].
  destruct (starts_with name "OTEL_") eqn:E; cbn in Hr; [|by eapply IH].
  destruct value as [[|c v]|]; [by eapply IH| |done]. eapply IH; [done|]. apply map_Forall_insert_2; [by split|done].
Qed.

Module Sample.
Import SampleUrl.

Definition sample : OtelEnv := from_pairs
  [("OTEL_EXPORTER_OTLP_ENDPOINT" : bytes, "https://collector.example.test" : bytes); ("PATH" : bytes, "/bin" : bytes);
   ("OTEL_RESOURCE_ATTRIBUTES" : bytes, "deployment.environment.name=prod, service.name = old," : bytes);
   ("OTEL_SERVICE_NAME" : bytes, "sovereign-config" : bytes); ("OTEL_LOGS_EXPORTER" : bytes, " none " : bytes);
   ("OTEL_TRACES_SAMPLER_ARG" : bytes, "0.25" : bytes)].

Example sample_plan :
  validate sample
  = Ok (Export [(DEPLOYMENT_ENVIRONMENT_NAME, "prod" : bytes); (SERVICE_NAME, "sovereign-config" : bytes)] (mkExported false true true))
  ∧ validate (<["OTEL_TRACES_SAMPLER" := ("traceidratio" : bytes)]> sample)
    = Err (mkError OTEL_TRACES_SAMPLER "must be always_on, always_off or a parentbased_* sampler (traceidratio lets a caller choose, through its trace id, whether its request is recorded)")
  ∧ validate (<["OTEL_SDK_DISABLED" := ("TRUE" : bytes)]> (<["OTEL_TRACES_SAMPLER" := ("nonsense" : bytes)]> sample)) = Ok (PlanOff Disabled)
  ∧ validate (from_pairs [("OTEL_EXPORTER_OTLP_ENDPOINT" : bytes, [])]) = Ok (PlanOff NoVariables).
Proof. by vm_compute. Qed.
End Sample.

End Otel.
