(* ===== verification/Float64.v ===== *)
(** * Numbers of the browser

    Rust's [f64], which is also the number of JavaScript, as the standard
    library's [spec_float] with 53 bits of precision, and the conversions between
    it and integers the web application uses. *)

From Stdlib Require Import SpecFloat.
From S2P Require Import Prelude.

Module F64.

Definition of_Z (n : Z) : spec_float := binary_normalize 53 1024 n 0 false.
Definition zero : spec_float := S754_zero false.

Definition add (a b : spec_float) : spec_float := SFadd 53 1024 a b.
Definition sub (a b : spec_float) : spec_float := SFsub 53 1024 a b.
Definition mul (a b : spec_float) : spec_float := SFmul 53 1024 a b.
Definition div (a b : spec_float) : spec_float := SFdiv 53 1024 a b.
Definition ltb (a b : spec_float) : bool := SFltb a b.
Definition leb (a b : spec_float) : bool := SFleb a b.

Definition is_finite (x : spec_float) : bool :=
  match x with S754_finite _ _ _ | S754_zero _ => true | _ => false end.
Definition is_nan (x : spec_float) : bool := match x with S754_nan => true | _ => false end.

(** [min] and [max] answer the other number when one is none. *)
Definition min (a b : spec_float) : spec_float := if is_nan a then b else if is_nan b then a else if ltb b a then b else a.
Definition max (a b : spec_float) : spec_float := if is_nan a then b else if is_nan b then a else if ltb a b then b else a.

(** [clamp] to the unit interval. *)
Definition unit_clamp (x : spec_float) : spec_float :=
  if ltb x zero then zero else if ltb (of_Z 1) x then of_Z 1 else x.

(** [floor], [ceil], [trunc] and [round] of a finite number, as integers. *)
Definition floor (x : spec_float) : Z :=
  match x with
  | S754_finite s m e =>
      let n := if s then Z.neg m else Z.pos m in
      if (0 <=? e)%Z then (n * 2 ^ e)%Z else (n / 2 ^ (- e))%Z
  | _ => 0
  end.
Definition ceil (x : spec_float) : Z := (- floor (SFopp x))%Z.
Definition trunc (x : spec_float) : Z := if ltb x zero then ceil x else floor x.
Definition round (x : spec_float) : Z :=
  match x with
  | S754_finite s m e =>
      let n := if (0 <=? e)%Z then (Z.pos m * 2 ^ e)%Z else ((Z.pos m + 2 ^ (- e - 1)) / 2 ^ (- e))%Z in
      if s then (- n)%Z else n
  | _ => 0
  end.

(** A cast to an integer type saturates, and takes what is no number for 0. *)
Definition cast (to_int : spec_float → Z) (lo hi : Z) (x : spec_float) : Z :=
  match x with
  | S754_nan => 0
  | S754_infinity s => if s then lo else hi
  | _ => Z.max lo (Z.min hi (to_int x))
  end.

Definition u64_max : Z := 18446744073709551615.
Definition u32_max : Z := 4294967295.
Definition i64_min : Z := -9223372036854775808.
Definition i64_max : Z := 9223372036854775807.
Definition i32_min : Z := -2147483648.
Definition i32_max : Z := 2147483647.

End F64.
