(* ===== verification/WebTree.v ===== *)
(** * The configuration tree of the web application

    Models [crates/sovereign-config-web/src/tree.rs]: the namespaces a set of
    values implies, the rows the sidebar shows them as, the guides drawn beside
    them, and the loads that compete to fill it.  What the browser shows is the
    list of rows [render_tree] builds. *)

From stdpp Require Import gmap strings.
From S2P Require Import Prelude Bytes ConfigPath Core ValuePaths.

Local Open Scope bytes_scope.

Module Tree.

(** ** Namespaces *)

Record TreeNode := mkNode {
  tn_path : ConfigPath; display : bytes; depth : nat; has_values : bool; has_connection : bool }.

Definition path_segments (path : bytes) : list bytes :=
  List.filter (λ segment, negb (is_empty segment)) (split "/"%char path).

Definition parent_of (path : ConfigPath) : ConfigPath :=
  default Path.root
    ('(parent, _) ← rsplit_once "/"%char (Path.fold path);
     if is_empty parent then None else match Path.parse parent with Ok p => Some p | Err _ => None end).

Definition parent_forms (path : ConfigPath) : bytes * bytes :=
  match rsplit_once "/"%char (Path.fold path) with
  | Some (parent, _) =>
      if is_empty parent then ("/", "/") else (parent, take (length parent) (Path.as_str path))
  | None => ("/", "/")
  end.

(** The loop over the indices of the fold's segments; an index past the display
    form's segments is a panic. *)
Fixpoint label_prefixes (labels : gmap bytes bytes) (fold_prefix display_prefix : bytes)
    (fold_segments display_segments : list bytes) : option (gmap bytes bytes) :=
  match fold_segments with
  | [] => Some labels
  | f :: fold_segments' =>
      match display_segments with
      | [] => None
      | d :: display_segments' =>
          let fold_prefix := fold_prefix ++ "/" ++ f in
          let display_prefix := display_prefix ++ "/" ++ d in
          let labels := match labels !! fold_prefix with
                        | Some _ => labels
                        | None => <[fold_prefix := display_prefix]> labels
                        end in
          label_prefixes labels fold_prefix display_prefix fold_segments' display_segments'
      end
  end.

Definition label_path (labels : gmap bytes bytes) (path : ConfigPath) : option (gmap bytes bytes) :=
  let '(fold_parent, display_parent) := parent_forms path in
  if bool_decide (fold_parent = "/") then Some labels
  else label_prefixes labels [] [] (path_segments fold_parent) (path_segments display_parent).

Fixpoint label_paths (labels : gmap bytes bytes) (paths : list ConfigPath) : option (gmap bytes bytes) :=
  match paths with
  | [] => Some labels
  | p :: paths' => labels ← label_path labels p; label_paths labels paths'
  end.

Definition by_fold (a b : ConfigPath) : bool := bytes_leb (Path.fold a) (Path.fold b).

Definition namespace_labels (value_paths : list ConfigPath) : option (gmap bytes bytes) :=
  label_paths {[ "/" := "/" ]} (sort_by by_fold value_paths).

Definition value_parents_of (value_paths : list ConfigPath) : gset bytes :=
  list_to_set (List.map (λ path, Path.as_str (parent_of path)) value_paths).

(** The order of lists of segments. *)
Fixpoint segments_leb (a b : list bytes) : bool :=
  match a, b with
  | [], _ => true
  | _ :: _, [] => false
  | x :: a', y :: b' =>
      match cmp_bytes x y with Lt => true | Gt => false | Eq => segments_leb a' b' end
  end.

Definition last_label (display : bytes) : bytes :=
  match rsplit_once "/"%char display with
  | Some (_, segment) => if is_empty segment then "/" else segment
  | None => if is_empty display then "/" else display
  end.

Definition tree_node (labels : gmap bytes bytes) (value_parents connection_roots : gset bytes) (fold : bytes) : option TreeNode :=
  match Path.parse fold with
  | Err _ => None
  | Ok path =>
      Some (mkNode path (last_label (default fold (labels !! fold))) (length (path_segments fold))
              (bool_decide (Path.as_str path ∈ value_parents)) (bool_decide (Path.as_str path ∈ connection_roots)))
  end.

Definition build_tree (labels : gmap bytes bytes) (value_parents connection_roots : gset bytes) : list TreeNode :=
  omap (tree_node labels value_parents connection_roots)
    (sort_by (λ a b, segments_leb (path_segments a) (path_segments b)) (List.map fst (entries labels))).

(** ** Guides *)

Inductive TreeGuide := Blank | Trunk | Branch | Corner.
#[global] Instance TreeGuide_eq_dec : EqDecision TreeGuide.
Proof. solve_decision. Defined.

Definition class (g : TreeGuide) : bytes :=
  match g with
  | Blank => "tree-guide" | Trunk => "tree-guide trunk" | Branch => "tree-guide branch" | Corner => "tree-guide corner"
  end.

Fixpoint take_while {A} (f : A → bool) (l : list A) : list A :=
  match l with x :: l' => if f x then x :: take_while f l' else [] | [] => [] end.

(** [is_last_sibling], of a node and the nodes after it. *)
Definition is_last_sibling (node : TreeNode) (after : list TreeNode) : bool :=
  negb (existsb (λ n, bool_decide (depth n = depth node)) (take_while (λ n, (depth node <=? depth n)%nat) after)).

(** The row of a node: levels 1 up to its depth, from what is known of the nodes
    open at each; [ancestors.get(level).copied().unwrap_or(true)]. *)
Definition guide_row (ancestors : list bool) (node : TreeNode) (last : bool) : list TreeGuide :=
  List.map (λ level, if default true (ancestors !! level) then Blank else Trunk) (seq 1 (depth node - 1))
  ++ (if (0 <? depth node)%nat then [if last then Corner else Branch] else []).

Fixpoint guides_from (ancestors : list bool) (nodes : list TreeNode) : list (list TreeGuide) :=
  match nodes with
  | [] => []
  | node :: after =>
      let ancestors := take (depth node) ancestors in
      let last := is_last_sibling node after in
      guide_row ancestors node last :: guides_from (ancestors ++ [last]) after
  end.

Definition tree_guides (nodes : list TreeNode) : list (list TreeGuide) := guides_from [] nodes.

(** ** What is rendered *)

Record Row := mkRow {
  row_id : bytes; row_class : bytes; aria_level : bytes; aria_selected : bool; data_path : bytes;
  aria_expanded : bool; row_guides : list bytes; key : bool; row_label : bytes; tabindex : bool }.

Definition build_tree_node (node : TreeNode) (index : nat) (selected has_children : bool) (guides : list TreeGuide)
    (tab : bool) : Row :=
  mkRow ("tree-node-" ++ show_nat index)
    ("tree-node" ++ (if has_values node then " has-values" else []) ++ (if selected then " selected" else []))
    (show_nat (depth node + 1)) selected (Path.as_str (tn_path node)) has_children (List.map class guides)
    (has_connection node) (display node) tab.

Fixpoint find_index {A} (f : A → bool) (l : list A) : option nat :=
  match l with x :: l' => if f x then Some 0 else S <$> find_index f l' | [] => None end.

Definition selected_index (selected : option ConfigPath) (nodes : list TreeNode) : option nat :=
  find_index (λ node, match selected with Some p => Path.eq p (tn_path node) | None => false end) nodes.

Definition has_children (nodes : list TreeNode) (index : nat) (node : TreeNode) : bool :=
  match nodes !! S index with Some next => (depth node <? depth next)%nat | None => false end.

(** [guides[index]] past the end would be a panic: [None]. *)
Definition render_row (nodes : list TreeNode) (sel focus : option nat) (guides : list (list TreeGuide)) (index : nat)
    (node : TreeNode) : option Row :=
  g ← guides !! index;
  Some (build_tree_node node index (bool_decide (sel = Some index)) (has_children nodes index node) g
          (bool_decide (focus = Some index))).

Definition focus_index (sel : option nat) (nodes : list TreeNode) : option nat :=
  match sel with Some i => Some i | None => if is_empty nodes then None else Some 0 end.

Definition render_tree (selected : option ConfigPath) (nodes : list TreeNode) : option (list Row) :=
  let sel := selected_index selected nodes in
  let focus := focus_index sel nodes in
  let guides := tree_guides nodes in
  mapM (λ '(index, node), render_row nodes sel focus guides index node) (zip (seq 0 (length nodes)) nodes).

(** [focus_tree_node]: which node takes the tab stop. *)
Definition focus_tree_node (count index : nat) : option nat :=
  if (count =? 0)%nat then None else Some (Nat.min index (count - 1)).

Inductive Key := Enter | Space | ArrowDown | ArrowUp | Home | End_ | OtherKey (name : bytes).

(** What a key does at a node: navigate to its path or move the tab stop. *)
Inductive KeyAction := Navigate (path : ConfigPath) | Focus (index : option nat) | Ignored.


Definition key_down (count index : nat) (path : ConfigPath) (key : Key) : KeyAction :=
  match key with
  | Enter | Space => Navigate path
  | ArrowDown => Focus (focus_tree_node count (index + 1))
  | ArrowUp => Focus (focus_tree_node count (index - 1))
  | Home => Focus (focus_tree_node count 0)
  | End_ => Focus (focus_tree_node count count)   (* [usize::MAX], clamped as any index past the end *)
  | OtherKey _ => Ignored
  end.

(** ** Segments *)

(** The text of a list of segments, nothing for none. *)
Definition slashes (segs : list bytes) : bytes := flat_map (λ s, "/" ++ s) segs.

Lemma slashes_render segs : segs ≠ [] → slashes segs = Path.render segs.
Proof.
  intros Hne. destruct segs as [|s segs]; [done|]. unfold Path.render, slashes. clear Hne. revert s.
  induction segs as [|t segs IH]; intros s; [cbn; by rewrite app_nil_r|].
  rewrite join_cons. cbn [flat_map] in IH |- *. rewrite (IH t), <- !(assoc_L (++)). done.
Qed.

Lemma filter_segments l : Forall Path.Segment l → List.filter (λ segment, negb (is_empty segment)) l = l.
Proof. induction 1 as [|x l [Hx _] _ IH]; [done|]. cbn. rewrite IH. by destruct x. Qed.

Lemma path_segments_render segs : Forall Path.Segment segs → path_segments (Path.render segs) = segs.
Proof.
  intros Hs. unfold path_segments, Path.render. cbn [app split]. rewrite bool_decide_eq_true_2 by done.
  destruct segs as [|s segs]; [done|]. rewrite Path.split_relative by done.
  exact (filter_segments _ Hs).
Qed.

Lemma rsplit_render segs s : Path.Segment s →
  rsplit_once "/"%char (Path.render (segs ++ [s])) = Some (slashes segs, s).
Proof.
  intros Hs. apply rsplit_once_spec. split; [|by apply Path.Segment_no_slash].
  rewrite Path.render_snoc. case_bool_decide as E; [by subst|]. by rewrite slashes_render.
Qed.

(** The parent of a path in its fold's segments. *)
Definition parent_segments (p : ConfigPath) : list bytes := removelast (Path.segments (Path.fold p)).

Lemma fold_segments p : Path.Canonical (path p) →
  ∃ segs, Forall Path.Segment segs ∧ Path.fold p = Path.render segs ∧ Path.segments (Path.fold p) = segs
    ∧ Forall (λ s, to_ascii_lowercase s = s) segs.
Proof.
  intros (segs & Hs & E). exists (List.map to_ascii_lowercase segs). unfold Path.fold.
  rewrite E, Path.lower_render, Path.segments_render by auto with sovereign. split_and!; auto with sovereign.
  apply Forall_fmap, Forall_true. intros s. apply to_ascii_lowercase_idem.
Qed.

Lemma slashes_empty segs : is_empty (slashes segs) = bool_decide (segs = []).
Proof. by destruct segs. Qed.

Lemma parse_render segs : Forall Path.Segment segs → Forall (λ s, to_ascii_lowercase s = s) segs →
  Path.parse (Path.render segs) = Ok (mkPath (Path.render segs)).
Proof.
  intros Hs Hl. apply Path.parse_spec. split; [done|]. split; [by exists segs|]. by apply Path.render_lower_segments.
Qed.

Lemma removelast_Forall {A} (P : A → Prop) l : Forall P l → Forall P (removelast l).
Proof. induction 1 as [|x [|y l] ? ? IH]; cbn in *; constructor; auto. Qed.

Lemma parent_of_spec p : Path.Canonical (path p) → parent_of p = mkPath (Path.render (parent_segments p)).
Proof.
  intros Hp. destruct (fold_segments _ Hp) as (segs & Hs & Ef & Eseg & Hl). unfold parent_of, parent_segments.
  rewrite Eseg, Ef. destruct segs as [|s l _] using rev_ind; [done|]. rewrite removelast_last.
  apply Forall_app in Hs as [Hs [Hx _]%Forall_cons]. apply Forall_app in Hl as [Hl _].
  rewrite rsplit_render by done. cbn. rewrite slashes_empty. case_bool_decide as E; [by subst|].
  by rewrite slashes_render, parse_render.
Qed.

Lemma take_slashes (a : list bytes) : ∀ b, List.map length a = List.map length b → length (slashes a) = length (slashes b).
Proof.
  induction a as [|x a IH]; intros [|y b] E; try done. injection E as E1 E2.
  change (length ("/" ++ x ++ slashes a) = length ("/" ++ y ++ slashes b)). rewrite !length_app, (IH b) by done. lia.
Qed.

Lemma parent_forms_spec p : Path.Canonical (path p) →
  (parent_segments p = [] → parent_forms p = ("/", "/"))
  ∧ (parent_segments p ≠ [] → parent_forms p
       = (Path.render (parent_segments p), Path.render (removelast (Path.segments (path p))))).
Proof.
  intros Hp. pose proof Hp as (segs & Hs & E). unfold parent_segments, parent_forms, Path.fold, Path.as_str.
  rewrite E, Path.lower_render, !Path.segments_render by auto with sovereign.
  destruct segs as [|s l _] using rev_ind; [done|]. rewrite map_app. cbn [List.map]. rewrite !removelast_last.
  apply Forall_app in Hs as [Hs [Hx _]%Forall_cons]. rewrite rsplit_render by auto with sovereign.
  rewrite slashes_empty. split.
  - intros ->. done.
  - intros Hne. rewrite bool_decide_eq_false_2 by done. rewrite slashes_render by done. f_equal.
    assert (l ≠ []) as Hl by by destruct l. rewrite Path.render_snoc, bool_decide_eq_false_2 by done.
    rewrite <- (slashes_render (List.map _ l)), <- slashes_render by done.
    rewrite (take_slashes _ l), take_app_length; [done|]. rewrite map_map. apply map_ext.
    intros ?. apply length_to_ascii_lowercase.
Qed.

(** ** The labels *)

(** Labels spell their keys, up to case. *)
Definition Spelled (labels : gmap bytes bytes) : Prop := ∀ k d, labels !! k = Some d → to_ascii_lowercase d = k.

Lemma slashes_snoc l s : slashes (l ++ [s]) = slashes l ++ "/" ++ s.
Proof. unfold slashes. by rewrite flat_map_app; cbn; rewrite app_nil_r. Qed.

Lemma lower_slashes l : to_ascii_lowercase (slashes l) = slashes (List.map to_ascii_lowercase l).
Proof.
  induction l as [|s l IH]; [done|]. change (slashes (s :: l)) with ("/" ++ s ++ slashes l).
  rewrite !to_ascii_lowercase_app, IH. done.
Qed.

Lemma label_prefixes_spec fs : ∀ ds labels done_f done_d, length fs = length ds →
  ∃ labels', label_prefixes labels (slashes done_f) (slashes done_d) fs ds = Some labels'
  ∧ labels ⊆ labels'
  ∧ (∀ k, is_Some (labels' !! k) ↔ is_Some (labels !! k) ∨ ∃ pre suf, pre ≠ [] ∧ fs = pre ++ suf ∧ k = slashes (done_f ++ pre))
  ∧ (Spelled labels → List.map to_ascii_lowercase done_d = done_f → List.map to_ascii_lowercase ds = fs → Spelled labels').
Proof.
  induction fs as [|f fs IH]; intros [|d ds] labels done_f done_d Hlen; try done.
  { exists labels. cbn. split_and!; [done|done| |by auto]. intros k. split; [by left|].
    intros [?|(pre & suf & Hne & E & _)]; [done|]. by destruct pre. }
  cbn [label_prefixes]. rewrite <- !slashes_snoc.
  set (key := slashes (done_f ++ [f])). set (text := slashes (done_d ++ [d])).
  set (labels1 := match labels !! key with Some _ => labels | None => <[key := text]> labels end).
  destruct (IH ds labels1 (done_f ++ [f]) (done_d ++ [d]) ltac:(by injection Hlen)) as (labels' & E' & Hsub & Hdom & Hsp).
  assert (labels ⊆ labels1) as Hsub1.
  { unfold labels1. destruct (labels !! key) eqn:E; [done|]. by apply insert_subseteq. }
  assert (∀ k, is_Some (labels1 !! k) ↔ is_Some (labels !! k) ∨ k = key) as Hdom1.
  { intros k. unfold labels1. destruct (labels !! key) eqn:E.
    - split; [by left|]. intros [?| ->]; [done|by rewrite E].
    - rewrite lookup_insert_is_Some. destruct (decide (key = k)); naive_solver. }
  exists labels'. split_and!; [exact E'|by trans labels1| |].
  - intros k. rewrite Hdom, Hdom1. split.
    + intros [[?| ->]|(pre & suf & ? & -> & ->)]; [by left|right; by exists [f], fs|].
      right. exists (f :: pre), suf. by rewrite <- (assoc_L (++)).
    + intros [?|(pre & suf & Hne & E & ->)]; [auto|]. destruct pre as [|x pre]; [done|]. injection E as <- ->.
      destruct (decide (pre = [])) as [->|Hp]; [by left; right|]. right. exists pre, suf.
      by rewrite <- (assoc_L (++)).
  - intros Hs Hd Hds. injection Hds as Hf Hds. apply Hsp; [|by rewrite map_app, Hd; cbn; rewrite Hf|done].
    unfold labels1. destruct (labels !! key) eqn:E; [done|]. intros k t.
    destruct (decide (key = k)) as [<-|]; [rewrite lookup_insert_eq|by rewrite lookup_insert_ne; [apply Hs|]].
    intros [= <-]. unfold text, key. rewrite lower_slashes, map_app, Hd. cbn. by rewrite Hf.
Qed.

(** The namespaces above a path, as the text of their segments. *)
Definition Above (k : bytes) (p : ConfigPath) : Prop :=
  ∃ pre suf, Path.segments (Path.fold p) = pre ++ suf ∧ suf ≠ [] ∧ k = Path.render pre.

Lemma above_parent p k : k ≠ "/" → Path.Canonical (path p) →
  (Above k p ↔ ∃ pre suf, pre ≠ [] ∧ parent_segments p = pre ++ suf ∧ k = slashes pre).
Proof.
  intros Hk Hp. unfold parent_segments, Above. destruct (fold_segments _ Hp) as (segs & _ & _ & -> & _). split.
  - intros (pre & suf & -> & Hne & ->). assert (pre ≠ []) as Hpre by by intros ->.
    exists pre, (removelast suf). rewrite removelast_app by done. by rewrite slashes_render.
  - intros (pre & suf & Hpre & E & ->). destruct segs as [|s l _] using rev_ind; [by destruct pre|].
    rewrite removelast_last in E. subst. exists pre, (suf ++ [s]). rewrite slashes_render by done.
    split; [by rewrite (assoc_L (++))|]. split; [by destruct suf|done].
Qed.

Lemma label_path_spec labels p : Path.Canonical (path p) → is_Some (labels !! ("/" : bytes)) →
  ∃ labels', label_path labels p = Some labels' ∧ labels ⊆ labels'
  ∧ (∀ k, is_Some (labels' !! k) ↔ is_Some (labels !! k) ∨ k ≠ "/" ∧ Above k p)
  ∧ (Spelled labels → Spelled labels').
Proof.
  intros Hp Hroot. unfold label_path. pose proof (parent_forms_spec p Hp) as [He Hf].
  destruct (fold_segments _ Hp) as (segs & Hs & Ef & Eseg & Hl).
  destruct (decide (parent_segments p = [])) as [Hn|Hn].
  - rewrite (He Hn). cbn. exists labels. split_and!; [done|done| |done]. intros k. split; [by left|].
    intros [?|[Hk Ha%above_parent]]; [done| |done..]. destruct Ha as (pre & suf & Hpre & E & _). rewrite Hn in E. by destruct pre.
  - rewrite (Hf Hn). pose proof Hp as (dsegs & Hd & Ed).
    assert (List.map to_ascii_lowercase dsegs = segs) as Hds.
    { rewrite <- Eseg. unfold Path.fold. rewrite Path.segments_lower, Ed, Path.segments_render by done. done. }
    assert (Forall Path.Segment (parent_segments p)) as Hps by (unfold parent_segments; rewrite Eseg; by apply removelast_Forall).
    rewrite bool_decide_eq_false_2 by by apply Path.render_not_root.
    rewrite Ed, Path.segments_render, !path_segments_render by (done || by apply removelast_Forall).
    assert (List.map to_ascii_lowercase (removelast dsegs) = parent_segments p) as Hpd.
    { unfold parent_segments. rewrite Eseg, <- Hds. destruct dsegs as [|x l _] using rev_ind; [done|].
      by rewrite map_app; cbn; rewrite !removelast_last. }
    destruct (label_prefixes_spec (parent_segments p) (removelast dsegs) labels [] []) as (labels' & E & Hsub & Hdom & Hsp).
    { by rewrite <- Hpd, length_map. }
    cbn [slashes flat_map] in E. exists labels'. split_and!; [done|done| |by intros ?; apply Hsp].
    intros k. rewrite Hdom. destruct (decide (k = "/")) as [->|Hk].
    + split; by left.
    + rewrite above_parent by done. split; (intros [?|?]; [by left|right]); naive_solver.
Qed.

Lemma label_paths_spec ps : ∀ labels, Forall (λ p, Path.Canonical (path p)) ps → is_Some (labels !! ("/" : bytes)) →
  ∃ labels', label_paths labels ps = Some labels' ∧ labels ⊆ labels'
  ∧ (∀ k, is_Some (labels' !! k) ↔ is_Some (labels !! k) ∨ k ≠ "/" ∧ ∃ p, p ∈ ps ∧ Above k p)
  ∧ (Spelled labels → Spelled labels').
Proof.
  induction ps as [|p ps IH]; intros labels Hps Hroot.
  { exists labels. split_and!; [done|done| |done]. intros k. split; [by left|].
    intros [?|(_ & p & Hp & _)]; [done|by apply not_elem_of_nil in Hp]. }
  apply Forall_cons in Hps as [Hp Hps]. cbn. destruct (label_path_spec labels p Hp Hroot) as (l1 & -> & Hs1 & Hd1 & Hp1). cbn.
  destruct (IH l1 Hps) as (l2 & -> & Hs2 & Hd2 & Hp2); [apply Hd1; by left|].
  exists l2. split_and!; [done|by trans l1| |by auto]. intros k. rewrite Hd2, Hd1. setoid_rewrite elem_of_cons. naive_solver.
Qed.

(** The labels of a set of values are its root and the namespaces above them,
    each spelled as one of the values spells it. *)
Lemma namespace_labels_spec ps : Forall (λ p, Path.Canonical (path p)) ps →
  ∃ labels, namespace_labels ps = Some labels ∧ Spelled labels
    ∧ ∀ k, is_Some (labels !! k) ↔ k = "/" ∨ ∃ p, p ∈ ps ∧ Above k p.
Proof.
  intros Hps. unfold namespace_labels.
  destruct (label_paths_spec (sort_by by_fold ps) {[ ("/" : bytes) := ("/" : bytes) ]}) as (labels & -> & _ & Hd & Hs).
  { by rewrite sort_by_perm. } { by rewrite lookup_singleton_eq. }
  exists labels. split_and!; [done| |].
  - apply Hs. intros k d [<- <-]%lookup_singleton_Some. done.
  - intros k. rewrite Hd. setoid_rewrite (elem_of_sort_by by_fold). rewrite lookup_singleton_is_Some.
    destruct (decide (k = "/")) as [->|]; naive_solver.
Qed.

(** ** The order of the rows *)

Lemma segments_leb_refl a : segments_leb a a = true.
Proof. induction a as [|x a IH]; [done|]. cbn. by replace (cmp_bytes x x) with Eq by (symmetry; by apply cmp_bytes_eq). Qed.

Lemma tree_leb_total a : ∀ b, segments_leb a b = false → segments_leb b a = true.
Proof.
  induction a as [|x a IH]; intros [|y b]; try done. cbn. rewrite (cmp_bytes_antisym y x).
  destruct (cmp_bytes x y); cbn; auto.
Qed.

Lemma cmp_bytes_lt_trans a b c : cmp_bytes a b = Lt → cmp_bytes b c = Lt → cmp_bytes a c = Lt.
Proof.
  revert b c. induction a as [|x a IH]; intros [|y b] [|z c]; cbn; try done.
  destruct (Z.compare_spec (code x) (code y)), (Z.compare_spec (code y) (code z)),
    (Z.compare_spec (code x) (code z)); try done; try lia. apply IH.
Qed.

Lemma tree_leb_trans a : ∀ b c, segments_leb a b = true → segments_leb b c = true → segments_leb a c = true.
Proof.
  induction a as [|x a IH]; intros [|y b] [|z c]; try done. cbn.
  destruct (cmp_bytes x y) eqn:E1; try done.
  - apply cmp_bytes_eq in E1 as ->. destruct (cmp_bytes y z); try done. apply IH.
  - destruct (cmp_bytes y z) eqn:E2; try done.
    + apply cmp_bytes_eq in E2 as ->. by rewrite E1.
    + by rewrite (cmp_bytes_lt_trans _ _ _ E1 E2).
Qed.

Lemma segments_leb_antisym a : ∀ b, segments_leb a b = true → segments_leb b a = true → a = b.
Proof.
  induction a as [|x a IH]; intros [|y b]; try done. cbn. rewrite (cmp_bytes_antisym y x).
  destruct (cmp_bytes x y) eqn:E; cbn; try done. intros. apply cmp_bytes_eq in E as ->. f_equal. by apply IH.
Qed.

Lemma segments_leb_prefix a b : segments_leb a (a ++ b) = true.
Proof.
  induction a as [|x a IH]; [done|]. cbn. by replace (cmp_bytes x x) with Eq by (symmetry; by apply cmp_bytes_eq).
Qed.

(** What lies between a namespace and a child of it is below the namespace. *)
Lemma between_prefix a : ∀ s x, segments_leb a x = true → segments_leb x (a ++ [s]) = true → a `prefix_of` x.
Proof.
  induction a as [|y a IH]; intros s x; [intros; apply prefix_nil|]. destruct x as [|z x]; [done|]. cbn.
  rewrite (cmp_bytes_antisym z y). destruct (cmp_bytes y z) eqn:E; cbn; try done.
  apply cmp_bytes_eq in E as ->. intros H1 H2. apply prefix_cons. by eapply IH.
Qed.

(** Each row is the parent of the next or a row below that parent: what makes a
    list of lists of segments a preorder of the tree they span. *)
Definition Stepwise (l : list (list bytes)) : Prop :=
  head l = Some [] ∧ ∀ i x y, l !! i = Some x → l !! S i = Some y → ∃ a s, y = a ++ [s] ∧ a `prefix_of` x.

Lemma sorted_lookup {A} (R : A → A → Prop) l i j x y :
  StronglySorted R l → l !! i = Some x → l !! j = Some y → i < j → R x y.
Proof.
  intros Hs. revert i j. induction Hs as [|z l Hs IH Hz]; intros i j Hi Hj Hij; [by rewrite lookup_nil in Hi|].
  destruct j as [|j]; [lia|]. cbn in Hj. destruct i as [|i]; [|apply (IH i j); auto; lia].
  injection Hi as <-. rewrite Forall_forall in Hz. apply Hz. by eapply list_elem_of_lookup_2.
Qed.

Lemma sorted_stepwise (l : list (list bytes)) :
  StronglySorted (λ a b, segments_leb a b = true) l → NoDup l → [] ∈ l →
  (∀ a s, a ++ [s] ∈ l → a ∈ l) → Stepwise l.
Proof.
  intros Hs Hnd Hnil Hpre. split.
  - apply list_elem_of_lookup_1 in Hnil as [[|i] Hi]; [by destruct l|].
    destruct l as [|x l]; [done|]. pose proof (sorted_lookup _ _ 0 (S i) x [] Hs eq_refl Hi ltac:(lia)) as Hle.
    by destruct x.
  - intros i x y Hx Hy.
    assert (y ≠ []) as Hne.
    { intros ->. assert (segments_leb x [] = true) as Hle
        by exact (sorted_lookup _ _ _ _ _ _ Hs Hx Hy (Nat.lt_succ_diag_r i)).
      destruct x; [|done]. pose proof (NoDup_lookup _ _ _ _ Hnd Hx Hy). lia. }
    destruct y as [|s a _] using rev_ind; [done|]. exists a, s. split; [done|].
    assert (a ∈ l) as Ha by (eapply Hpre, list_elem_of_lookup_2, Hy).
    apply list_elem_of_lookup_1 in Ha as [j Hj].
    assert (j < S i) as Hji.
    { destruct (decide (j < S i)); [done|]. exfalso. destruct (decide (j = S i)) as [->|].
      - rewrite Hj in Hy. injection Hy as Hy. apply (f_equal length) in Hy. rewrite length_app in Hy. cbn in Hy. lia.
      - assert (segments_leb (a ++ [s]) a = true) as Hle
          by exact (sorted_lookup _ _ _ _ _ _ Hs Hy Hj ltac:(lia)).
        pose proof (segments_leb_antisym _ _ Hle (segments_leb_prefix a [s])) as E.
        apply (f_equal length) in E. rewrite length_app in E. cbn in E. lia. }
    apply (between_prefix a s).
    + destruct (decide (j = i)) as [->|]; [rewrite Hj in Hx; injection Hx as ->; apply segments_leb_refl|].
      exact (sorted_lookup _ _ _ _ _ _ Hs Hj Hx ltac:(lia)).
    + exact (sorted_lookup _ _ _ _ _ _ Hs Hx Hy (Nat.lt_succ_diag_r i)).
Qed.

(** ** The built tree *)

Lemma lower_app_inv d a c : to_ascii_lowercase d = a ++ c →
  ∃ d1 d2, d = d1 ++ d2 ∧ to_ascii_lowercase d1 = a ∧ to_ascii_lowercase d2 = c.
Proof.
  intros E. exists (take (length a) d), (drop (length a) d).
  rewrite take_drop, to_ascii_lowercase_take, to_ascii_lowercase_drop, E, take_app_length, drop_app_length. done.
Qed.

Lemma lower_slash_free d : "/"%char ∉ to_ascii_lowercase d → "/"%char ∉ d.
Proof.
  intros Hn Hin. apply Hn. unfold to_ascii_lowercase. rewrite list_elem_of_In, in_map_iff. exists "/"%char.
  split; [done|]. by apply list_elem_of_In.
Qed.

Lemma last_label_spec d segs : Forall Path.Segment segs → to_ascii_lowercase d = Path.render segs →
  to_ascii_lowercase (last_label d) = default "/" (last segs).
Proof.
  intros Hs E. destruct segs as [|s l _] using rev_ind.
  - assert (d = "/") as ->; [|done]. destruct d as [|c [|c' d]]; try done. injection E as E.
    apply (proj1 (lower_byte_slash c)) in E. by subst.
  - rewrite last_snoc. cbn [default]. apply Forall_app in Hs as [_ [Hs _]%Forall_cons].
    pose proof (rsplit_render l s Hs) as [E' Hf]%rsplit_once_spec. rewrite E' in E.
    apply lower_app_inv in E as (d1 & d2 & -> & _ & E2). destruct d2 as [|c d2]; [done|]. injection E2 as Ec E2. change (to_ascii_lowercase d2 = s) in E2.
    apply (proj1 (lower_byte_slash c)) in Ec as ->. unfold last_label.
    rewrite rsplit_once_some by (apply lower_slash_free; by rewrite E2).
    destruct d2 as [|x d2]; [by destruct Hs as [Hne _]; destruct Hne|]. exact E2.
Qed.

(** The row of a namespace, by its segments. *)
Definition tree_row (labels : gmap bytes bytes) (value_parents connection_roots : gset bytes) (segs : list bytes) : TreeNode :=
  mkNode (mkPath (Path.render segs)) (last_label (default (Path.render segs) (labels !! Path.render segs))) (length segs)
    (bool_decide (Path.render segs ∈ value_parents)) (bool_decide (Path.render segs ∈ connection_roots)).

Definition Folded (segs : list bytes) : Prop := Forall Path.Segment segs ∧ Forall (λ s, to_ascii_lowercase s = s) segs.

Lemma tree_node_row labels vp cr segs : Folded segs →
  tree_node labels vp cr (Path.render segs) = Some (tree_row labels vp cr segs).
Proof. intros [Hs Hl]. unfold tree_node. rewrite parse_render, path_segments_render by done. done. Qed.

Lemma tree_nodes_rows labels vp cr l : Forall Folded l →
  omap (tree_node labels vp cr) (List.map Path.render l) = List.map (tree_row labels vp cr) l.
Proof.
  induction 1 as [|segs l Hs _ IH]; [done|]. cbn -[tree_node tree_row Path.render]. by rewrite tree_node_row, IH.
Qed.

Lemma Above_folded k p : Path.Canonical (path p) → Above k p → ∃ segs, k = Path.render segs ∧ Folded segs.
Proof.
  intros Hp (pre & suf & E & _ & ->). destruct (fold_segments _ Hp) as (segs & Hs & _ & Es & Hl).
  rewrite Es in E. subst. apply Forall_app in Hs as [? _]. apply Forall_app in Hl as [? _]. by exists pre.
Qed.

(** The rows, by the segments of their namespaces. *)
Lemma build_tree_rows ps labels vp cr : Forall (λ p, Path.Canonical (path p)) ps →
  (∀ k, is_Some (labels !! k) ↔ k = "/" ∨ ∃ p, p ∈ ps ∧ Above k p) →
  ∃ l, build_tree labels vp cr = List.map (tree_row labels vp cr) l ∧ Forall Folded l ∧ NoDup l
    ∧ StronglySorted (λ a b, segments_leb a b = true) l ∧ ∀ segs, Folded segs → segs ∈ l ↔ is_Some (labels !! Path.render segs).
Proof.
  intros Hps Hdom. unfold build_tree.
  set (ordered := sort_by _ (List.map fst (entries labels))).
  assert (∀ k, k ∈ ordered ↔ is_Some (labels !! k)) as Hin.
  { intros k. unfold ordered. rewrite elem_of_sort_by, list_elem_of_In, in_map_iff. split.
    - intros ([k' v] & <- & Hi). apply list_elem_of_In, elem_of_entries in Hi. by exists v.
    - intros [v Hv]. exists (k, v). split; [done|]. by apply list_elem_of_In, elem_of_entries. }
  assert (∀ k, k ∈ ordered → ∃ segs, k = Path.render segs ∧ Folded segs) as Hseg.
  { intros k Hk%Hin%Hdom. destruct Hk as [->|(p & Hp & Ha)]; [exists []; split; [done|by split; constructor]|].
    rewrite Forall_forall in Hps. by eapply Above_folded; [apply Hps|]. }
  assert (∀ l0, (∀ k, k ∈ l0 → ∃ segs, k = Path.render segs ∧ Folded segs) →
          ∃ l, l0 = List.map Path.render l ∧ List.map path_segments l0 = l ∧ Forall Folded l) as Hmap.
  { induction l0 as [|k l0 IH]; intros Hk; [by exists []|].
    destruct (Hk k ltac:(left)) as (segs & -> & Hf). destruct IH as (l & -> & El & Hl); [intros ? ?; apply Hk; by right|].
    exists (segs :: l). cbn [List.map]. rewrite path_segments_render, El by apply Hf. split_and!; [done|done|by constructor]. }
  destruct (Hmap ordered Hseg) as (l & El & Esegs & Hf). exists l. rewrite El, tree_nodes_rows by done.
  split; [done|]. split; [done|]. split; [|split].
  - apply (NoDup_fmap_1 Path.render). change (NoDup (List.map Path.render l)). rewrite <- El. unfold ordered.
    rewrite sort_by_perm. unfold entries. change (NoDup (fst <$> sort_by (λ a b : bytes * bytes, bytes_leb a.1 b.1) (map_to_list labels))).
    rewrite sort_by_perm. apply NoDup_fst_map_to_list.
  - rewrite <- Esegs. unfold ordered.
    assert (StronglySorted (λ a b, segments_leb (path_segments a) (path_segments b) = true) ordered) as Hs.
    { apply sort_by_sorted; [intros ? ?; apply tree_leb_total|intros ? ? ?; apply tree_leb_trans]. }
    fold ordered. clear -Hs. induction Hs as [|k l' _ IH Hk]; constructor; [done|]. by apply Forall_fmap.
  - intros segs Hsegs. rewrite <- Hin, El, list_elem_of_In, list_elem_of_In, in_map_iff. split; [by exists segs|].
    intros (segs' & E & Hi). apply list_elem_of_In in Hi. rewrite Forall_forall in Hf. pose proof (Hf _ Hi) as [? _].
    apply Path.render_inj in E; [|done|apply Hsegs]. by subst; apply list_elem_of_In.
Qed.

(** Sorted, the namespaces of values are in preorder. *)
Lemma rows_stepwise (ps : list ConfigPath) (labels : gmap bytes bytes) l : Forall (λ p, Path.Canonical (path p)) ps →
  (∀ k, is_Some (labels !! k) ↔ k = "/" ∨ ∃ p, p ∈ ps ∧ Above k p) →
  Forall Folded l → NoDup l → StronglySorted (λ a b, segments_leb a b = true) l →
  (∀ segs, Folded segs → segs ∈ l ↔ is_Some (labels !! Path.render segs)) → Stepwise l.
Proof.
  intros Hps Hdom Hf Hnd Hs Hin. rewrite Forall_forall in Hf. apply sorted_stepwise; [done..| |].
  - apply Hin; [by split; constructor|]. apply Hdom. by left.
  - intros a s Hi. pose proof (Hf _ Hi) as [Hsegs Hlow]. apply Forall_app in Hsegs as [Ha Hx]. apply Forall_app in Hlow as [Hb _].
    apply Hin in Hi; [|by apply Hf]. apply Hin; [done|]. apply Hdom in Hi. apply Hdom.
    destruct (decide (a = [])) as [->|Hne]; [by left|]. right.
    destruct Hi as [Hr|(p & Hp & pre & suf & Es & Hsuf & Er)].
    { exfalso. by apply (Path.render_not_root (a ++ [s])) in Hr; [|by destruct a|by apply Forall_app]. }
    exists p. split; [done|]. exists a, (s :: suf). split; [|done]. rewrite Es.
    assert (a ++ [s] = pre) as <-; [|by rewrite <- (assoc_L (++))].
    apply Path.render_inj; [by apply Forall_app| |done]. rewrite Forall_forall in Hps.
    destruct (fold_segments _ (Hps _ Hp)) as (segs & Hs' & _ & Es' & _). rewrite Es' in Es. subst. by apply Forall_app in Hs' as [? _].
Qed.

Lemma value_parents_spec ps k : k ∈ value_parents_of ps ↔ ∃ p, p ∈ ps ∧ path (parent_of p) = k.
Proof.
  unfold value_parents_of. rewrite elem_of_list_to_set, list_elem_of_In, in_map_iff. unfold Path.as_str.
  setoid_rewrite <- list_elem_of_In. naive_solver.
Qed.

(** C39: The sidebar shows every namespace of the values it is built from, and
    no other: the root and each proper ancestor of a value, once, labelled with
    its last segment, at its depth, marked as holding values exactly when some
    value's parent is that namespace and as connected exactly when a connection
    is rooted there.  The rows are in preorder: each is a child of the row
    before it or of one of that row's ancestors.  Nothing is indexed out of
    bounds on the way. *)
Theorem tree_shows_the_namespaces (ps : list ConfigPath) (roots : gset bytes) : Forall (λ p, Path.Canonical (path p)) ps →
  ∃ labels, namespace_labels ps = Some labels
  ∧ let nodes := build_tree labels (value_parents_of ps) roots in
    (∀ q, q ∈ List.map (λ n, path (tn_path n)) nodes ↔ q = "/" ∨ ∃ p, p ∈ ps ∧ Above q p)
    ∧ NoDup (List.map (λ n, path (tn_path n)) nodes)
    ∧ (∀ n, n ∈ nodes →
         depth n = length (Path.segments (path (tn_path n)))
         ∧ to_ascii_lowercase (display n) = default "/" (last (Path.segments (path (tn_path n))))
         ∧ (has_values n = true ↔ ∃ p, p ∈ ps ∧ parent_of p = tn_path n)
         ∧ (has_connection n = true ↔ path (tn_path n) ∈ roots))
    ∧ Stepwise (List.map (λ n, Path.segments (path (tn_path n))) nodes).
Proof.
  intros Hps. destruct (namespace_labels_spec ps Hps) as (labels & E & Hsp & Hdom). exists labels. split; [done|].
  destruct (build_tree_rows ps labels (value_parents_of ps) roots Hps Hdom) as (l & -> & Hf & Hnd & Hs & Hin).
  cbn zeta. rewrite !map_map. cbn [tn_path path tree_row].
  assert (List.map (λ x, Path.segments (Path.render x)) l = l) as Hseg.
  { clear -Hf. induction Hf as [|x l [Hx _] _ IH]; [done|]. cbn [List.map]. by rewrite Path.segments_render, IH. }
  rewrite Hseg. rewrite Forall_forall in Hf. split_and!.
  - intros q. rewrite <- Hdom, list_elem_of_In, in_map_iff. split.
    + intros (segs & <- & Hi%list_elem_of_In). apply Hin; auto.
    + intros Hq. pose proof Hq as Hq'. apply Hdom in Hq'. assert (∃ segs, q = Path.render segs ∧ Folded segs) as (segs & -> & Hfs).
      { destruct Hq' as [->|(p & Hp & Ha)]; [exists []; split; [done|by split; constructor]|].
        rewrite Forall_forall in Hps. by eapply Above_folded; [apply Hps|]. }
      exists segs. split; [done|]. apply list_elem_of_In. by apply Hin.
  - assert (NoDup (List.map path_segments (List.map Path.render l))) as Hn.
    { rewrite map_map. clear -Hf Hnd. replace (List.map _ l) with l; [done|].
      induction l as [|x l IH]; [done|]. cbn [List.map]. apply NoDup_cons in Hnd as [_ Hnd].
      rewrite path_segments_render by (apply Hf; left). rewrite <- IH; [done| |done]. intros ? ?. apply Hf. by right. }
    by eapply NoDup_fmap_1.
  - intros n (segs & <- & Hi%list_elem_of_In)%list_elem_of_In%in_map_iff. destruct (Hf _ Hi) as [Hsegs Hlow].
    cbn [tree_row tn_path path depth display has_values has_connection]. rewrite Path.segments_render by done.
    split_and!; [done| | |by rewrite bool_decide_eq_true].
    + apply last_label_spec; [done|]. apply Hin in Hi as [d Hd]; [|done]. rewrite Hd. cbn. by apply Hsp.
    + rewrite bool_decide_eq_true, value_parents_spec. split; intros (p & Hp & Ep); exists p; (split; [done|]).
      * destruct (parent_of p). cbn in Ep. by subst.
      * by rewrite Ep.
  - rewrite <- Forall_forall in Hf. by eapply rows_stepwise.
Qed.

(** ** The guides *)

(** After row [i] comes a node at level [l] before any shallower one: at the level
    of the row a sibling of it, at a level above one of its ancestor there. *)
Definition ToCome (nodes : list TreeNode) (i l : nat) : Prop :=
  ∃ j n, i < j ∧ nodes !! j = Some n ∧ depth n = l ∧ ∀ k m, i < k → k < j → nodes !! k = Some m → l < depth m.

(** Depths that start at zero and grow by at most one: rows in preorder. *)
Fixpoint Steps (bound : nat) (nodes : list TreeNode) : Prop :=
  match nodes with [] => True | n :: after => depth n ≤ bound ∧ Steps (S (depth n)) after end.

(** Whether a node at a level is to come, by the code's scan. *)
Definition open_at (l : nat) (after : list TreeNode) : bool :=
  existsb (λ n, bool_decide (depth n = l)) (take_while (λ n, (l <=? depth n)%nat) after).

Lemma open_at_spec l after : open_at l after = true ↔
  ∃ j n, after !! j = Some n ∧ depth n = l ∧ ∀ k m, k < j → after !! k = Some m → l < depth m.
Proof.
  induction after as [|n after IH]; cbn; [split; [done|by intros (j & ? & ? & _)]|].
  unfold open_at. cbn [take_while]. destruct (l <=? depth n)%nat eqn:E; [apply Nat.leb_le in E|apply Nat.leb_gt in E]; cbn.
  - case_bool_decide as Ed; cbn.
    + split; [|done]. intros _. exists 0, n. split_and!; [done..|]. lia.
    + fold (open_at l after). rewrite IH. split.
      * intros (j & m & Hj & Hd & Hk). exists (S j), m. split_and!; [done..|]. intros [|k] m' Hlt Hm; [injection Hm as <-; lia|].
        apply (Hk k m'); [lia|done].
      * intros ([|j] & m & Hj & Hd & Hk); [injection Hj as <-; done|]. exists j, m. split_and!; [done..|].
        intros k m' ? ?. apply (Hk (S k) m'); [lia|done].
  - split; [done|]. intros ([|j] & m & Hj & Hd & Hk); [injection Hj as <-; lia|].
    specialize (Hk 0 n ltac:(lia) eq_refl). lia.
Qed.

(** The row of a node, level by level, from what is to come. *)
Definition cell (after : list TreeNode) (d l : nat) : TreeGuide :=
  if open_at l after then (if bool_decide (l = d) then Branch else Trunk)
  else (if bool_decide (l = d) then Corner else Blank).

Lemma guide_row_cells ancestors node after :
  (∀ l, l < depth node → ancestors !! l = Some (negb (open_at l after))) →
  guide_row ancestors node (negb (open_at (depth node) after)) = List.map (cell after (depth node)) (seq 1 (depth node)).
Proof.
  intros Ha. unfold guide_row. destruct (depth node) as [|d]; [done|].
  change (0 <? S d)%nat with true. cbn iota. replace (S d - 1) with d by lia. rewrite seq_S, map_app. f_equal.
  - apply map_ext_in. intros l Hl%in_seq. rewrite Ha by lia. unfold cell. cbn.
    destruct (open_at l after); cbn; by rewrite bool_decide_eq_false_2 by lia.
  - cbn. unfold cell. rewrite bool_decide_eq_true_2 by done. by destruct (open_at (S d) after).
Qed.

Fixpoint cells_of (nodes : list TreeNode) : list (list TreeGuide) :=
  match nodes with
  | [] => []
  | n :: after => List.map (cell after (depth n)) (seq 1 (depth n)) :: cells_of after
  end.

Lemma cells_of_lookup nodes : ∀ i, cells_of nodes !! i
  = (λ n, List.map (cell (drop (S i) nodes) (depth n)) (seq 1 (depth n))) <$> nodes !! i.
Proof. induction nodes as [|n nodes IH]; intros [|i]; try done. cbn. by rewrite IH. Qed.

Lemma guides_from_cells nodes : ∀ ancestors, Steps (length ancestors) nodes →
  (∀ l, l < length ancestors → ancestors !! l = Some (negb (open_at l nodes))) →
  guides_from ancestors nodes = cells_of nodes.
Proof.
  induction nodes as [|n after IH]; intros ancestors Hsteps Ha; [done|]. destruct Hsteps as [Hd Hsteps].
  assert (∀ l, l < depth n → open_at l (n :: after) = open_at l after) as Hopen.
  { intros l Hl. unfold open_at. cbn [take_while]. rewrite (proj2 (Nat.leb_le l (depth n))) by lia. cbn.
    by rewrite bool_decide_eq_false_2 by lia. }
  cbn [guides_from cells_of]. unfold is_last_sibling. fold (open_at (depth n) after).
  rewrite guide_row_cells.
  2:{ intros l Hl. rewrite lookup_take_lt by lia. rewrite Ha by lia. by rewrite Hopen. }
  f_equal. apply IH.
  - rewrite length_app, length_take. cbn. replace (Nat.min _ _ + 1) with (S (depth n)) by lia. done.
  - rewrite length_app, length_take. cbn. intros l Hl. destruct (decide (l = depth n)) as [->|Hne].
    + rewrite lookup_app_r by (rewrite length_take; lia). rewrite length_take.
      replace (depth n - _) with 0 by lia. done.
    + rewrite lookup_app_l by (rewrite length_take; lia). rewrite lookup_take_lt by lia.
      rewrite Ha by lia. by rewrite Hopen by lia.
Qed.

Lemma tree_guides_cells nodes : Steps 0 nodes → tree_guides nodes = cells_of nodes.
Proof. intros Hs. apply guides_from_cells; [done|]. intros l Hl. cbn in Hl. lia. Qed.

Lemma guides_length nodes : ∀ ancestors, length (guides_from ancestors nodes) = length nodes.
Proof. induction nodes as [|n nodes IH]; intros ancestors; [done|]. cbn. by rewrite IH. Qed.

Lemma open_to_come nodes i l : open_at l (drop (S i) nodes) = true ↔ ToCome nodes i l.
Proof.
  rewrite open_at_spec. unfold ToCome. split.
  - intros (j & n & Hj & Hd & Hk). rewrite lookup_drop in Hj. exists (S i + j), n. split_and!; [lia|done|done|].
    intros k m ? ? Hm. apply (Hk (k - S i) m); [lia|]. rewrite lookup_drop. by replace (S i + (k - S i)) with k by lia.
  - intros (j & n & Hij & Hj & Hd & Hk). exists (j - S i), n. rewrite lookup_drop.
    replace (S i + (j - S i)) with j by lia. split_and!; [done|done|]. intros k m ? Hm. rewrite lookup_drop in Hm.
    apply (Hk (S i + k) m); [lia..|done].
Qed.

Lemma find_index_lt {A} (f : A → bool) l i : find_index f l = Some i → i < length l.
Proof.
  revert i. induction l as [|x l IH]; intros i; [done|]. cbn. destruct (f x); [intros [= <-]; lia|].
  destruct (find_index f l); [|done]. intros [= <-]. specialize (IH _ eq_refl). lia.
Qed.

Lemma focus_index_spec selected nodes : nodes ≠ [] →
  ∃ f, focus_index (selected_index selected nodes) nodes = Some f ∧ f < length nodes.
Proof.
  intros Hne. unfold focus_index. destruct (selected_index selected nodes) as [f|] eqn:E.
  - exists f. split; [done|]. by eapply find_index_lt.
  - destruct nodes; [done|]. exists 0. cbn. split; [done|lia].
Qed.

Lemma render_tree_rows selected nodes :
  ∃ rows, render_tree selected nodes = Some rows ∧ length rows = length nodes
  ∧ ∀ i n, nodes !! i = Some n → ∃ g, tree_guides nodes !! i = Some g
      ∧ rows !! i = Some (build_tree_node n i (bool_decide (selected_index selected nodes = Some i)) (has_children nodes i n) g
                            (bool_decide (focus_index (selected_index selected nodes) nodes = Some i))).
Proof.
  unfold render_tree. set (sel := selected_index selected nodes). set (focus := focus_index sel nodes).
  set (f := λ '(index, node), render_row nodes sel focus (tree_guides nodes) index node).
  assert (∀ i, i < length nodes → ∃ g, tree_guides nodes !! i = Some g) as Hg.
  { intros i Hi. apply lookup_lt_is_Some_2. unfold tree_guides. by rewrite guides_length. }
  assert (Forall (λ x, is_Some (f x)) (zip (seq 0 (length nodes)) nodes)) as Hall.
  { apply Forall_lookup. intros i [j n] (? & ? & [= <- <-] & Hj & Hn)%lookup_zip_with_Some.
    apply lookup_seq in Hj as [-> Hi]. destruct (Hg i Hi) as [g E]. unfold f, render_row. cbn [Nat.add]. rewrite E. by eexists. }
  apply mapM_is_Some_2 in Hall as [rows Hr]. exists rows. split; [exact Hr|].
  apply mapM_Some in Hr. split.
  { apply Forall2_length in Hr. rewrite <- Hr, length_zip_with, length_seq. lia. }
  intros i n Hi. pose proof (lookup_lt_Some _ _ _ Hi) as Hlt. destruct (Hg i Hlt) as [g E]. exists g. split; [done|].
  assert (zip (seq 0 (length nodes)) nodes !! i = Some (i, n)) as Hz.
  { apply lookup_zip_with_Some. exists i, n. split_and!; [done| |done]. by apply lookup_seq. }
  destruct (Forall2_lookup_l _ _ _ _ _ Hr Hz) as (row & Hrow & Ef). rewrite Hrow. unfold f, render_row in Ef. by rewrite E in Ef.
Qed.

Lemma steps_of nodes : ∀ bound, (∀ n, head nodes = Some n → depth n ≤ bound) →
  (∀ i x y, nodes !! i = Some x → nodes !! S i = Some y → depth y ≤ S (depth x)) → Steps bound nodes.
Proof.
  induction nodes as [|n nodes IH]; intros bound Hh Hs; [done|]. split; [by apply Hh|]. apply IH.
  - intros y Hy. apply (Hs 0 n y); [done|]. by destruct nodes.
  - intros i x y. apply (Hs (S i)).
Qed.

Lemma built_steps ps labels vp cr : Forall (λ p, Path.Canonical (path p)) ps → namespace_labels ps = Some labels →
  Steps 0 (build_tree labels vp cr) ∧ build_tree labels vp cr ≠ [].
Proof.
  intros Hps E. destruct (namespace_labels_spec ps Hps) as (labels' & E' & _ & Hdom). rewrite E in E'. injection E' as <-.
  destruct (build_tree_rows ps labels vp cr Hps Hdom) as (l & -> & Hf & Hnd & Hs & Hin).
  pose proof (rows_stepwise ps labels l Hps Hdom Hf Hnd Hs Hin) as [Hh Hstep]. split.
  - apply steps_of.
    + destruct l as [|x l]; [done|]. injection Hh as ->. intros n [= <-]. done.
    + intros i x y Hx Hy. apply list_lookup_fmap_Some in Hx as (a & -> & Ha). apply list_lookup_fmap_Some in Hy as (b & -> & Hb).
      destruct (Hstep _ _ _ Ha Hb) as (a' & s & -> & [suf ->]). cbn. rewrite !length_app. cbn. lia.
  - by destruct l.
Qed.

(** What is drawn beside the rows of a built tree is the tree: at each
    level of a row there is a trunk while a node at that level is still to come
    under the same ancestor and nothing when none is, ending in a branch or, for
    the last of its siblings, a corner.  Every row is rendered, and exactly one
    is in the tab order. *)
Theorem guides_draw_the_tree ps labels vp cr selected :
  Forall (λ p, Path.Canonical (path p)) ps → namespace_labels ps = Some labels →
  let nodes := build_tree labels vp cr in
  (∀ i n, nodes !! i = Some n →
     ∃ row, tree_guides nodes !! i = Some row ∧ length row = depth n
       ∧ ∀ l, 1 ≤ l → l ≤ depth n →
           (ToCome nodes i l → row !! (l - 1) = Some (if bool_decide (l = depth n) then Branch else Trunk))
           ∧ (¬ ToCome nodes i l → row !! (l - 1) = Some (if bool_decide (l = depth n) then Corner else Blank)))
  ∧ ∃ rows, render_tree selected nodes = Some rows ∧ length rows = length nodes
      ∧ ∃ f, f < length rows ∧ ∀ i row, rows !! i = Some row → (tabindex row = true ↔ i = f).
Proof.
  intros Hps E nodes. destruct (built_steps ps labels vp cr Hps E) as [Hsteps Hne]. fold nodes in Hsteps, Hne. split.
  - intros i n Hi. rewrite tree_guides_cells, cells_of_lookup, Hi by done. cbn [fmap option_fmap option_map].
    eexists. split; [done|]. rewrite length_map, length_seq. split; [done|]. intros l Hl Hd.
    change (List.map ?f ?x) with (f <$> x).
    rewrite list_lookup_fmap, lookup_seq_lt by lia. cbn [fmap option_fmap option_map]. replace (1 + (l - 1)) with l by lia.
    unfold cell. rewrite <- (open_to_come nodes i l). by destruct (open_at l (drop (S i) nodes)).
  - destruct (render_tree_rows selected nodes) as (rows & Hr & Hlen & Hrows).
    destruct (focus_index_spec selected nodes Hne) as (f & Hf & Hlt).
    exists rows. split; [done|]. split; [done|]. exists f. split; [by rewrite Hlen|]. intros i row Hrow.
    pose proof (lookup_lt_Some _ _ _ Hrow) as Hi. rewrite Hlen in Hi. apply lookup_lt_is_Some_2 in Hi as [n Hn].
    destruct (Hrows i n Hn) as (g & _ & E'). rewrite Hrow in E'. injection E' as ->. cbn. rewrite Hf.
    rewrite bool_decide_eq_true. split; congruence.
Qed.

(** ** Loads *)

(** What a load fills: [TREE_LOAD_GENERATION], [CONNECTIONS] (their roots),
    [TREE_NODES], and the two lines of text that say how it went. *)
Record Loaded := mkLoaded {
  generation : Z; connections : list ConfigPath; nodes : list TreeNode; tree_state : bytes; connection_count : bytes }.

Definition select_roots (cs : list ConfigPath) : gset bytes := list_to_set (List.map Path.as_str cs).

Definition tree_summary (count : nat) : bytes := show_nat count ++ " path" ++ (if (count =? 1)%nat then [] else "s").

(** The text [render_path_connections] leaves beside the value table: it counts the
    connections at the selected path, and is let be off the Configuration view. *)
Definition path_connection_count (selected : option ConfigPath) (cs : list ConfigPath) (before : bytes) : bytes :=
  match selected with
  | None => before
  | Some path =>
      let count := length (List.filter (λ c, Path.eq c path) cs) in
      show_nat count ++ " connection" ++ (if (count =? 1)%nat then [] else "s")
  end.

(** A load up to its first await: the generation it will compare, unless it ends
    there.  [configured] is whether [app_config] answers. *)
Definition start_load (s : Loaded) (selected : option ConfigPath) (logged_in configured : bool) : Loaded * option Z :=
  let g := ((generation s + 1) mod 2 ^ 64)%Z in
  if negb logged_in then (mkLoaded g [] [] "Log in to browse" (path_connection_count selected [] (connection_count s)), None)
  else if negb configured then (mkLoaded g (connections s) (nodes s) "Tree unavailable" (connection_count s), None)
  else (mkLoaded g (connections s) (nodes s) (if is_empty (nodes s) then "Loading" else tree_state s) (connection_count s), Some g).

(** What the two reads of the tree make of their answers: the values of the whole
    tree, or else the namespaces of a listing. *)
Definition tree_model (subtree listing : option (list ConfigPath)) : option (gmap bytes bytes * gset bytes) :=
  match subtree with
  | Some paths => labels ← namespace_labels paths; Some (labels, value_parents_of paths)
  | None =>
      paths ← listing;
      Some (<[("/" : bytes) := ("/" : bytes)]> (foldl (λ m p, <[Path.fold p := Path.as_str p]> m) ∅ paths), ∅)
  end.

(** A load after its last await, with what the reads answered. *)
Definition finish_load (s : Loaded) (selected : option ConfigPath) (g : Z) (listed : option (list ConfigPath)) (model : option (gmap bytes bytes * gset bytes)) : Loaded :=
  if negb (generation s =? g)%Z then s
  else
    let cs := default (connections s) listed in
    let count := if bool_decide (listed = None) then "Access URLs unavailable"
                 else path_connection_count selected cs (connection_count s) in
    match model with
    | None => mkLoaded (generation s) cs (nodes s) "Tree unavailable" count
    | Some (labels, value_parents) =>
        let built := build_tree labels value_parents (select_roots cs) in
        mkLoaded (generation s) cs built (tree_summary (length built)) count
    end.

(** Loads in flight: those started and not finished, oldest first. *)
Inductive LoadStep : Loaded * list Z → Loaded * list Z → Prop :=
| Starts s fl selected logged_in configured s' g : start_load s selected logged_in configured = (s', Some g) →
    LoadStep (s, fl) (s', fl ++ [g])
| EndsAtOnce s fl selected logged_in configured s' : start_load s selected logged_in configured = (s', None) → LoadStep (s, fl) (s', fl)
| Finishes s fl1 g fl2 selected listed model : LoadStep (s, fl1 ++ g :: fl2) (finish_load s selected g listed model, fl1 ++ fl2).

(** Fewer than 2^64 loads: a generation is not met again. *)
Definition InFlight (s : Loaded) (fl : list Z) : Prop :=
  NoDup fl ∧ ∀ g, g ∈ fl → (0 ≤ g ≤ generation s)%Z.

(** A step from a state whose generation has room keeps the loads in flight apart. *)
Lemma load_step_in_flight s fl s' fl' : LoadStep (s, fl) (s', fl') → (0 ≤ generation s < 2 ^ 64 - 1)%Z → InFlight s fl →
  InFlight s' fl' ∧ (generation s ≤ generation s' ≤ generation s + 1)%Z.
Proof.
  intros Hstep Hg [Hnd Hle].
  assert (∀ sel l c s1 o, start_load s sel l c = (s1, o) → generation s1 = (generation s + 1)%Z) as Hstart.
  { unfold start_load. rewrite Z.mod_small by lia. intros sel [] [] s1 o; cbn; by intros [= <- <-]. }
  inversion Hstep as [? ? sel l c ? g Es|? ? sel l c ? Es|? fl1 g fl2 sel listed model]; subst.
  - pose proof (Hstart _ _ _ _ _ Es) as Eg. assert (g = (generation s + 1)%Z) as ->.
    { unfold start_load in Es. rewrite Z.mod_small in Es by lia. destruct l, c; cbn in Es; congruence. }
    split; [|lia]. split.
    + apply NoDup_app. split; [done|]. split; [|apply NoDup_singleton]. intros x Hx Hx'.
      apply list_elem_of_singleton in Hx' as ->. apply Hle in Hx. lia.
    + intros x [Hx|Hx]%elem_of_app; [apply Hle in Hx; lia|]. apply list_elem_of_singleton in Hx as ->. lia.
  - pose proof (Hstart _ _ _ _ _ Es) as Eg. split; [|lia]. split; [done|]. intros x Hx%Hle. lia.
  - assert (generation (finish_load s sel g listed model) = generation s) as Eg.
    { unfold finish_load. destruct (negb _); [done|]. by destruct model as [[]|]. }
    rewrite Eg. split; [|lia]. split.
    + rewrite <- Permutation_middle in Hnd. by apply NoDup_cons in Hnd as [_ ?].
    + rewrite Eg. intros x Hx. apply Hle. set_solver.
Qed.

(** A load that another has overtaken changes nothing when it ends. *)
Lemma overtaken_load_changes_nothing s selected g listed model : generation s ≠ g → finish_load s selected g listed model = s.
Proof. intros Hg. unfold finish_load. by rewrite (proj2 (Z.eqb_neq _ _) Hg). Qed.

(** Samples. *)
Module Sample.

Definition sample_paths : list ConfigPath := List.map mkPath ["/Apps/api/url"; "/apps/web-ui/url"; "/apps/web/url"; "/zeta"].

Definition sample_labels : gmap bytes bytes := default ∅ (namespace_labels sample_paths).

Lemma sample_canonical : Forall (λ p, Path.Canonical (path p)) sample_paths.
Proof. repeat constructor; apply Path.canonical_check; by vm_compute. Qed.

Definition sample_nodes : list TreeNode := build_tree sample_labels (value_parents_of sample_paths) {[ "/apps" : bytes ]}.

Example sample_rows :
  List.map (λ n, (path (tn_path n), display n, has_values n, has_connection n)) sample_nodes
  = [("/", "/", true, false); ("/apps", "Apps", false, true); ("/apps/api", "api", true, false);
     ("/apps/web", "web", true, false); ("/apps/web-ui", "web-ui", true, false)].
Proof. by vm_compute. Qed.

Lemma tree_shows_the_namespaces_witness :
  ∃ labels, namespace_labels sample_paths = Some labels
  ∧ NoDup (List.map (λ n, path (tn_path n)) (build_tree labels (value_parents_of sample_paths) ∅)).
Proof.
  destruct (tree_shows_the_namespaces sample_paths ∅ sample_canonical) as (labels & E & _ & H & _). by exists labels.
Defined.

Lemma guides_draw_the_tree_witness :
  List.map (λ row, List.map class row) (tree_guides sample_nodes)
  = [[]; ["tree-guide corner"]; ["tree-guide"; "tree-guide branch"]; ["tree-guide"; "tree-guide branch"];
     ["tree-guide"; "tree-guide corner"]]
  ∧ ∃ rows, render_tree (Some (mkPath "/apps/web")) sample_nodes = Some rows ∧ length rows = length sample_nodes.
Proof.
  split; [vm_compute; reflexivity|].
  assert (namespace_labels sample_paths = Some sample_labels) as E by (vm_compute; reflexivity).
  destruct (guides_draw_the_tree sample_paths sample_labels (value_parents_of sample_paths) {[ "/apps" : bytes ]}
              (Some (mkPath "/apps/web")) sample_canonical E) as (_ & rows & Hr & Hl & _).
  exists rows. split; [exact Hr|exact Hl].
Defined.
End Sample.

End Tree.
