(* ===== verification/WebRoute.v ===== *)
(** * Navigation in the web application

    Models [crates/sovereign-config-web/src/route.rs], with the [popstate]
    listener of [lib.rs] and the listeners of the unsaved-edit dialog: the
    addresses of the views, what counts as an unsaved edit, and the guard that
    asks before an edit is left, and the end of [start], where the page goes to
    the address a login began at.  The browser is its history of addresses, of
    which only the path matters here, and the contents of its editors. *)

From stdpp Require Import strings.
From S2P Require Import Prelude Bytes ConfigPath.

Local Open Scope bytes_scope.

Module Nav.

(** ** Addresses *)

Inductive Route :=
| Configuration (path : ConfigPath)
| Connections
| Downloads
| Audit (path : option ConfigPath).
#[global] Instance Route_eq_dec : EqDecision Route.
Proof. solve_decision. Defined.

Definition parsed (relative : bytes) : option ConfigPath :=
  match Path.parse_operation ("/" ++ relative) with Ok p => Some p | Err _ => None end.

Definition route_from_path (path : bytes) : Route :=
  if bool_decide (path = "/configuration") || bool_decide (path = "/configuration/") then Configuration Path.root
  else if bool_decide (path = "/connections") || bool_decide (path = "/connections/") then Connections
  else if bool_decide (path = "/downloads") || bool_decide (path = "/downloads/") then Downloads
  else if bool_decide (path = "/audit") || bool_decide (path = "/audit/") then Audit None
  else match strip_prefix "/audit/" path with
       | Some relative => Audit (parsed relative)
       | None =>
           match (relative ← strip_prefix "/configuration/" path; parsed relative) with
           | Some p => Configuration p
           | None => Configuration Path.root
           end
       end.

Definition route_url (route : Route) : bytes :=
  match route with
  | Configuration path => if bool_decide (Path.as_str path = "/") then "/configuration/" else "/configuration" ++ Path.as_str path
  | Connections => "/connections/"
  | Downloads => "/downloads"
  | Audit None => "/audit/"
  | Audit (Some path) => "/audit" ++ Path.as_str path
  end.

(** ** Unsaved edits *)

(** A field that records what was loaded into it, if it does. *)
Record Field := mkField { loaded : option bytes; value : bytes }.

(** The editors of the configuration view; an element may be missing. *)
Record Editors := mkEditors {
  new_row_hidden : bool; new_name : option bytes; new_content : option bytes; new_secret : option bytes;
  json_content : option Field; row_textareas : option (list Field); row_inputs : list Field }.

Definition filled (v : option bytes) : bool := match v with Some v => negb (is_empty v) | None => false end.

Definition edited (f : Field) : bool :=
  match loaded f with Some l => negb (bool_decide (value f = l)) | None => false end.

Definition has_unsaved_edits (e : Editors) : bool :=
  if negb (new_row_hidden e) && (filled (new_name e) || filled (new_content e) || filled (new_secret e)) then true
  else if match json_content e with Some f => edited f | None => false end then true
  else match row_textareas e with
       | None => false
       | Some areas => if existsb edited areas then true else existsb edited (row_inputs e)
       end.

(** ** The browser *)

(** The entries behind the current one, the current one, and those ahead, nearest
    first. *)
Record History := mkHistory { behind : list bytes; here : bytes; ahead : list bytes }.

Definition push_state (h : History) (url : bytes) : History := mkHistory (here h :: behind h) url [].
Definition replace_state (h : History) (url : bytes) : History := mkHistory (behind h) url (ahead h).

Definition go_back (h : History) : option History :=
  match behind h with [] => None | u :: rest => Some (mkHistory rest u (here h :: ahead h)) end.
Definition go_forward (h : History) : option History :=
  match ahead h with [] => None | u :: rest => Some (mkHistory (here h :: behind h) u rest) end.

(** [PENDING_NAVIGATION], [PENDING_FROM_HISTORY] and [CURRENT_URL], the view that
    is shown, and the editors. *)
Record App := mkApp {
  history : History; pending : option Route; pending_from_history : bool; current_url : bytes; shown : Route;
  editors : Editors }.

Definition render_route (s : App) (route : Route) : App :=
  let url := route_url route in
  let rewrites := match route with Configuration _ | Audit _ => negb (bool_decide (here (history s) = url)) | _ => false end in
  mkApp (if rewrites then replace_state (history s) url else history s)
    (pending s) (pending_from_history s) url route (editors s).

Definition navigate_with (s : App) (route : Route) (replace : bool) : App :=
  let url := route_url route in
  let h := if replace then replace_state (history s) url else push_state (history s) url in
  render_route (mkApp h (pending s) (pending_from_history s) (current_url s) (shown s) (editors s)) route.

Definition open_unsaved_dialog (s : App) (route : Route) (from_history : bool) : App :=
  mkApp (history s) (Some route) from_history (current_url s) (shown s) (editors s).

Definition guarded_navigate (s : App) (route : Route) : App :=
  if has_unsaved_edits (editors s) then open_unsaved_dialog s route false else navigate_with s route false.

Definition keep_editing (s : App) : App :=
  mkApp (history s) None false (current_url s) (shown s) (editors s).

Definition discard_changes (s : App) : App :=
  let s' := mkApp (history s) None false (current_url s) (shown s) (editors s) in
  match pending s with
  | Some route => navigate_with s' route (pending_from_history s)
  | None => s'
  end.

Definition restore_current_url (s : App) : App :=
  if is_empty (current_url s) then s
  else mkApp (push_state (history s) (current_url s)) (pending s) (pending_from_history s) (current_url s) (shown s) (editors s).

(** The [popstate] listener, after the history has moved. *)
Definition on_popstate (s : App) : App :=
  if has_unsaved_edits (editors s)
  then let target := route_from_path (here (history s)) in
       open_unsaved_dialog (restore_current_url s) target true
  else render_route s (route_from_path (here (history s))).

Definition moved (s : App) (h : History) : App :=
  mkApp h (pending s) (pending_from_history s) (current_url s) (shown s) (editors s).

(** Where [finish_login] returns to, by what [begin_login] stored. *)
Definition login_return (stored : option bytes) : bytes :=
  match stored with None => "/" | Some path => route_url (route_from_path path) end.

(** [start] once the configuration is there: after a login that was finished,
    with what it had stored, or without one. *)
Definition page_loaded (s : App) (finished : option (option bytes)) : App :=
  let s' := match finished with
            | Some stored => moved s (replace_state (history s) (login_return stored))
            | None => s
            end in
  render_route s' (route_from_path (here (history s'))).

(** What happens to the page. *)
Inductive Event :=
| Link (route : Route)       (* every link, node and command that changes the view *)
| Back | Forward             (* the browser's own *)
| KeepEditing | DiscardChanges
| Loaded (finished : option (option bytes))
| Fill (e : Editors).        (* typing, and loads that refill the editors *)

Definition on_event (s : App) (e : Event) : App :=
  match e with
  | Link route => guarded_navigate s route
  | Back => match go_back (history s) with Some h => on_popstate (moved s h) | None => s end
  | Forward => match go_forward (history s) with Some h => on_popstate (moved s h) | None => s end
  | KeepEditing => keep_editing s
  | DiscardChanges => discard_changes s
  | Loaded finished => page_loaded s finished
  | Fill e => mkApp (history s) (pending s) (pending_from_history s) (current_url s) (shown s) e
  end.

(** The page as it starts on an address. *)
Definition start (path : bytes) (e : Editors) : App :=
  let route := route_from_path path in
  render_route (mkApp (mkHistory [] path []) None false [] route e) route.

(** ** Theorems *)

(** Routes an address can name. *)
Definition Named (route : Route) : Prop :=
  match route with
  | Configuration p => Path.Canonical (path p)
  | Audit (Some p) => Path.Canonical (path p) ∧ path p ≠ "/"
  | _ => True
  end.

Lemma parsed_named relative p : parsed relative = Some p → Path.Canonical (path p) ∧ path p ≠ "/".
Proof.
  unfold parsed. destruct (Path.parse_operation _) as [q|] eqn:E; [|done]. intros [= <-].
  apply Path.parse_operation_spec in E as (-> & segs & Hne & Hs & E). cbn [path]. rewrite E. split; [by exists segs|].
  by apply Path.render_not_root.
Qed.

Lemma parsed_path p : Path.Canonical (path p) → path p ≠ "/" → ∃ r, path p = "/" ++ r ∧ r ≠ [] ∧ parsed r = Some p.
Proof.
  intros (segs & Hs & E) Hne. destruct (decide (segs = [])) as [->|Hsegs]; [done|].
  exists (join "/" segs). split; [done|]. split; [by apply Path.join_not_nil|]. unfold parsed.
  assert (Path.parse_operation ("/" ++ join "/" segs) = Ok (mkPath (Path.render segs))) as ->.
  { apply Path.parse_operation_spec. split; [done|]. by exists segs. }
  destruct p. cbn in E. by subst.
Qed.

Lemma strip_audit r : strip_prefix "/audit/" ("/audit/" ++ r) = Some r.
Proof. by apply strip_prefix_spec. Qed.
Lemma strip_configuration r : strip_prefix "/configuration/" ("/configuration/" ++ r) = Some r.
Proof. by apply strip_prefix_spec. Qed.

Lemma named_round_trip route : Named route → route_from_path (route_url route) = route.
Proof.
  destruct route as [p| | |[p|]]; cbn [Named route_url]; try done.
  - intros Hp. unfold Path.as_str. case_bool_decide as E; [destruct p; cbn in E; by subst|].
    destruct (parsed_path p Hp E) as (r & -> & Hne & Hr). unfold route_from_path.
    change ("/configuration" ++ "/" ++ r) with ("/configuration/" ++ r).
    rewrite strip_configuration. destruct r as [|c r]; [done|]. cbn [mbind option_bind]. by rewrite Hr.
  - intros [Hp E]. unfold Path.as_str. destruct (parsed_path p Hp E) as (r & -> & Hne & Hr). unfold route_from_path.
    change ("/audit" ++ "/" ++ r) with ("/audit/" ++ r). rewrite strip_audit. destruct r as [|c r]; [done|]. by rewrite Hr.
Qed.

Lemma route_from_path_named s : Named (route_from_path s).
Proof.
  assert (Path.Canonical "/") as Hroot by by exists [].
  unfold route_from_path. repeat (destruct (_ || _); [done|]).
  destruct (strip_prefix "/audit/" s) as [r|].
  - cbn. destruct (parsed r) eqn:E; [|done]. by apply parsed_named in E.
  - destruct (_ ≫= parsed) as [p|] eqn:E; [|done]. destruct (strip_prefix _ s); [|done]. by apply parsed_named in E as [? _].
Qed.

(** The address, the address kept and the view agree, and a dialog that is open
    because of the browser's buttons has somewhere to go. *)
Definition Consistent (s : App) : Prop :=
  route_from_path (here (history s)) = shown s ∧ current_url s = route_url (shown s) ∧ Named (shown s)
  ∧ (∀ r, pending s = Some r → Named r).

Definition NamedEvent (e : Event) : Prop := match e with Link r => Named r | _ => True end.

Lemma route_url_nonempty r : is_empty (route_url r) = false.
Proof. destruct r as [p| | |[p|]]; cbn; try done. by case_bool_decide. Qed.

Lemma render_consistent s route : Named route → (route_from_path (here (history s)) = route) →
  (∀ r, pending s = Some r → Named r) → Consistent (render_route s route).
Proof.
  intros Hn Hh Hp. unfold render_route. split_and!; cbn; [|done|done|done].
  destruct (match route with Configuration _ => _ | _ => _ end); cbn; [by apply named_round_trip|done].
Qed.

Lemma navigate_consistent s route replace : Named route → (∀ r, pending s = Some r → Named r) →
  Consistent (navigate_with s route replace).
Proof.
  intros Hn Hp. apply render_consistent; [done| |done]. by destruct replace; cbn; apply named_round_trip.
Qed.

Lemma popstate_consistent s h : Consistent s → Consistent (on_popstate (moved s h)).
Proof.
  intros (Hh & Hc & Hn & Hp). unfold on_popstate. cbn [editors moved history].
  destruct (has_unsaved_edits _).
  - unfold restore_current_url. cbn. rewrite Hc, route_url_nonempty. split_and!; cbn; [by apply named_round_trip|done|done|].
    intros r [= <-]. apply route_from_path_named.
  - apply render_consistent; [apply route_from_path_named|done|done].
Qed.

Lemma event_consistent s e : NamedEvent e → Consistent s → Consistent (on_event s e).
Proof.
  intros He Hs. pose proof Hs as (Hh & Hc & Hn & Hp). destruct e as [route| | | | |finished|e]; cbn [on_event].
  - unfold guarded_navigate. destruct (has_unsaved_edits _); [|by apply navigate_consistent].
    split_and!; cbn; [done|done|done|]. by intros r [= <-].
  - destruct (go_back _); [by apply popstate_consistent|done].
  - destruct (go_forward _); [by apply popstate_consistent|done].
  - by split_and!.
  - unfold discard_changes. destruct (pending s) as [r|] eqn:E; [|by split_and!].
    apply navigate_consistent; [by apply Hp|done].
  - apply render_consistent; [apply route_from_path_named|done|by destruct finished].
  - by split_and!.
Qed.

(** Loading without a login shows what was shown. *)
Lemma page_loaded_shown s finished : Consistent s →
  shown (page_loaded s finished)
  = match finished with Some stored => route_from_path (login_return stored) | None => shown s end.
Proof. intros (Hh & _). by destruct finished. Qed.

Lemma start_consistent path e : Consistent (start path e).
Proof. apply render_consistent; [apply route_from_path_named|done|done]. Qed.

(** C31: The page keeps its word about where it is and about edits.  However it
    is started and whatever happens, the address it shows names the view it
    shows; a view with an unsaved edit is left by nothing but discarding and the
    end of a login: links, Back and Forward only raise the question, of the view
    that was asked for; discarding answers it with a change, to that view; the
    end of a login goes, unasked, to where the login began; and a clean page
    goes where it is told at once.  (Leaving the document altogether, by closing
    or reloading it or for a login, is asked about by the browser.) *)
Theorem unsaved_edits_are_left_only_on_purpose path0 e0 events : Forall NamedEvent events →
  let s := foldl on_event (start path0 e0) events in
  route_from_path (here (history s)) = shown s
  ∧ (has_unsaved_edits (editors s) = true →
     (∀ route, shown (on_event s (Link route)) = shown s ∧ pending (on_event s (Link route)) = Some route)
     ∧ (∀ e h, (e = Back ∧ go_back (history s) = Some h) ∨ (e = Forward ∧ go_forward (history s) = Some h) →
          shown (on_event s e) = shown s ∧ route_from_path (here (history (on_event s e))) = shown s
          ∧ pending (on_event s e) = Some (route_from_path (here h)))
     ∧ shown (on_event s KeepEditing) = shown s ∧ editors (on_event s KeepEditing) = editors s
     ∧ ∀ e, shown (on_event s e) ≠ shown s → e = DiscardChanges ∨ ∃ stored, e = Loaded (Some stored))
  ∧ (shown (on_event s DiscardChanges) = default (shown s) (pending s) ∧ pending (on_event s DiscardChanges) = None)
  ∧ (∀ finished, shown (on_event s (Loaded finished))
       = match finished with Some stored => route_from_path (login_return stored) | None => shown s end)
  ∧ (has_unsaved_edits (editors s) = false →
     ∀ route, Named route → shown (on_event s (Link route)) = route ∧ here (history (on_event s (Link route))) = route_url route).
Proof.
  intros Hev s. assert (Consistent s) as Hs.
  { unfold s. generalize (start_consistent path0 e0). generalize (start path0 e0). clear s.
    induction Hev as [|e events He _ IH]; intros s0 H0; [done|]. cbn. apply IH. by apply event_consistent. }
  pose proof Hs as (Hh & Hc & Hn & Hp). split; [done|]. split; [|split; [|split]].
  - intros Hu.
    assert (∀ h, on_popstate (moved s h) = open_unsaved_dialog (restore_current_url (moved s h)) (route_from_path (here h)) true) as Hpop
      by (intros h; unfold on_popstate; cbn [editors moved history]; by rewrite Hu).
    assert (∀ h, restore_current_url (moved s h) = moved s (push_state h (route_url (shown s)))) as Hback
      by (intros h; unfold restore_current_url, moved; cbn [current_url]; rewrite Hc, route_url_nonempty; done).
    assert (∀ route, on_event s (Link route) = open_unsaved_dialog s route false) as Hlink
      by (intros route; cbn; unfold guarded_navigate; by rewrite Hu).
    split_and!; [by intros route; rewrite Hlink| |done|done|].
    + intros e h He. assert (on_event s e = on_popstate (moved s h)) as -> by (by destruct He as [[-> E]|[-> E]]; cbn; rewrite E).
      rewrite Hpop, Hback. cbn. split_and!; [done|by apply named_round_trip|done].
    + intros [route| | | | |finished|e] Hne; rewrite ?Hlink in Hne; cbn [on_event] in Hne; try (by left); try (by destruct Hne).
      * destruct (go_back _); [rewrite Hpop, Hback in Hne|]; by destruct Hne.
      * destruct (go_forward _); [rewrite Hpop, Hback in Hne|]; by destruct Hne.
      * rewrite page_loaded_shown in Hne by done. destruct finished as [stored|]; [eauto|by destruct Hne].
  - cbn. unfold discard_changes. by destruct (pending s).
  - intros finished. by apply page_loaded_shown.
  - intros Hu route Hr. cbn. unfold guarded_navigate. rewrite Hu. unfold navigate_with, render_route. cbn.
    split; [done|]. by destruct (match route with Configuration _ => _ | _ => _ end).
Qed.

Module Sample.
Definition clean : Editors := mkEditors true None None None None (Some [mkField (Some "v") "v"]) [].
Definition dirty : Editors := mkEditors true None None None None (Some [mkField (Some "v") "edited"]) [].

Definition visit : list Event := [Link Connections; Link (Configuration (mkPath "/Apps/api")); Fill dirty; Back].

Lemma unsaved_edits_are_left_only_on_purpose_witness :
  let s := foldl on_event (start "/" clean) visit in
  shown s = Configuration (mkPath "/Apps/api") ∧ pending s = Some Connections ∧ shown (on_event s DiscardChanges) = Connections.
Proof.
  assert (Forall NamedEvent visit) as Hv.
  { repeat constructor. apply Path.canonical_check. by vm_compute. }
  destruct (unsaved_edits_are_left_only_on_purpose "/" clean visit Hv) as (_ & _ & [Hd _] & _).
  split; [vm_compute; reflexivity|]. split; [vm_compute; reflexivity|]. rewrite Hd. vm_compute. reflexivity.
Defined.

(** The end of a login moves the page on although something was typed while the
    code was exchanged. *)
Example login_leaves_what_was_typed :
  let s := foldl on_event (start "/auth/callback" clean) [Fill dirty; Loaded (Some (Some ("/audit/" : bytes)))] in
  has_unsaved_edits (editors s) = true ∧ shown s = Audit None ∧ pending s = None.
Proof. by vm_compute. Qed.

(** The entry a discarded pop overwrites is the one the guard pushed, so that the
    entry popped to stays behind it: the next Back shows the same view. *)
Example back_after_a_discarded_pop_stays :
  let s := foldl on_event (start "/" clean) (visit ++ [DiscardChanges; Fill clean]) in
  shown s = Connections ∧ shown (on_event s Back) = Connections
  ∧ shown (on_event (on_event s Back) Back) = Configuration Path.root.
Proof. by vm_compute. Qed.

(** An address that names no value's history is the whole trail's. *)
Example addresses :
  List.map route_from_path ["/audit/a//b"; "/configuration/a/B"; "/auth/callback"; "/downloads"; "/configuration/a b"]
  = [Audit None; Configuration (mkPath "/a/B"); Configuration Path.root; Downloads; Configuration Path.root].
Proof. by vm_compute. Qed.
End Sample.

End Nav.
