(* ===== verification/WebWire.v ===== *)
(** * gRPC-Web in the browser

    Models the calls of [crates/sovereign-config-web/src/transport/mod.rs]: how a
    message becomes the body of a request and how an answer's frames, headers
    and trailers become a reply or an error.  The browser's [usize] has 32 bits,
    so the arithmetic on offsets wraps at 2^32 and a slice whose end lies before
    its start is a panic. *)

From stdpp Require Import strings.
From S2P Require Import Prelude Bytes ConfigPath Core Encryption AuditQuery BrokerSignature Session Dispatch.

Local Open Scope bytes_scope.

Module GrpcWeb.

Definition USIZE : Z := 2 ^ 32.

Definition browser_error : ClientError := mkClientError Internal "browser operation failed".

(** [u32::to_be_bytes] and [u32::from_be_bytes]. *)
Definition to_be_bytes (n : Z) : bytes :=
  [byte (n / 2 ^ 24 mod 256); byte (n / 2 ^ 16 mod 256); byte (n / 2 ^ 8 mod 256); byte (n mod 256)].
Definition from_be_bytes (a b c d : ascii) : Z := code a * 2 ^ 24 + code b * 2 ^ 16 + code c * 2 ^ 8 + code d.

(** A frame: its flags, the length of what it carries, and that. *)
Definition frame (flags : Z) (content : bytes) : bytes :=
  byte flags :: to_be_bytes (Z.of_nat (length content)) ++ content.

(** ** The request *)

(** The body a message is sent in. *)
Definition framed (encoded : bytes) : result bytes ClientError :=
  if (Z.of_nat (length encoded) <? 2 ^ 32)%Z then Ok (frame 0 encoded) else Err browser_error.

Definition request_headers (traceparent : option bytes) (bearer : option Secret) : list (bytes * bytes) :=
  [("content-type" : bytes, "application/grpc-web+proto" : bytes); ("x-grpc-web" : bytes, "1" : bytes)]
  ++ match traceparent with Some t => [("traceparent" : bytes, t)] | None => [] end
  ++ match bearer with Some b => [("authorization" : bytes, "Bearer " ++ expose_secret b)] | None => [] end.

(** ** The answer *)

(** [str::lines] *)
Definition strip_cr (line : bytes) : bytes :=
  match rev line with c :: rest => if bool_decide (c = ascii_of_N 13) then rev rest else line | [] => line end.
Definition lines (text : bytes) : list bytes :=
  let pieces := split (ascii_of_N 10) text in
  List.map strip_cr (match last pieces with Some [] => removelast pieces | _ => pieces end).

Definition parse_u16 (s : bytes) : option Z :=
  n ← Signature.parse_u64 s; if (n <? 2 ^ 16)%Z then Some n else None.

Fixpoint find_map {A B} (f : A → option B) (l : list A) : option B :=
  match l with x :: l' => match f x with Some b => Some b | None => find_map f l' end | [] => None end.

Definition trailer_status (trailers : bytes) : option Z :=
  find_map (λ line, value ← strip_prefix "grpc-status:" line; parse_u16 (trim value)) (lines trailers).
Definition trailer_kind (trailers : bytes) : option bytes :=
  find_map (λ line, trim <$> strip_prefix (Dispatch.ERROR_KIND_METADATA ++ ":") line) (lines trailers).

Definition grpc_status_code (status : Z) : RpcCode :=
  if (status =? 3)%Z then RpcInvalidArgument
  else if (status =? 5)%Z then RpcNotFound
  else if (status =? 6)%Z then RpcAlreadyExists
  else if (status =? 7)%Z then RpcPermissionDenied
  else if (status =? 9)%Z then RpcFailedPrecondition
  else if (status =? 10)%Z || (status =? 14)%Z then RpcUnavailable
  else if (status =? 12)%Z then RpcUnimplemented
  else if (status =? 16)%Z then RpcUnauthenticated
  else RpcOther.

(** What the frames have said so far. *)
Record Frames := mkFrames { payload : option bytes; status : option Z; kind_ : option bytes }.

Definition no_frames : Frames := mkFrames None None None.

Definition take_frame (acc : Frames) (flags : Z) (content : bytes) : Frames :=
  if (Z.land flags 128 =? 0)%Z then mkFrames (Some content) (status acc) (kind_ acc)
  else if from_utf8_ok content then mkFrames (payload acc) (trailer_status content) (trailer_kind content)
  else acc.

(** How the loop over the frames ends: with a panic, with a frame that runs past
    the end, or with what the frames said. *)
Inductive Scan := Panics | Overruns | Scanned (f : Frames).

(** A round that goes on does so at least five bytes further. *)
Fixpoint scan (fuel : nat) (answer : bytes) (offset : Z) (acc : Frames) : Scan :=
  match fuel with
  | O => Scanned acc
  | S fuel' =>
      match drop (Z.to_nat offset) answer with
      | flags :: a :: b :: c :: d :: _ =>
          let size := from_be_bytes a b c d in
          let offset := (offset + 5)%Z in
          let end_ := ((offset + size) mod USIZE)%Z in
          if (Z.of_nat (length answer) <? end_)%Z then Overruns
          else if (end_ <? offset)%Z then Panics
          else
            let content := take (Z.to_nat (end_ - offset)) (drop (Z.to_nat offset) answer) in
            scan fuel' answer end_ (take_frame acc (code flags) content)
      | _ => Scanned acc
      end
  end.

Definition or_else {A} (o o' : option A) : option A := match o with Some a => Some a | None => o' end.

(** [None] is a panic; [decode] is the decoder of the reply's message. *)
Definition decode_grpc_web_answer {R} (decode : bytes → option R) (answer : bytes) (header_status : option Z)
    (header_kind : option bytes) : option (result R ClientError * option Z) :=
  match scan (S (length answer)) answer 0 no_frames with
  | Panics => None
  | Overruns => Some (Err (map_rpc_status RpcOther), None)
  | Scanned f =>
      match or_else (status f) header_status with
      | None => Some (Err (map_rpc_status RpcOther), None)
      | Some st =>
          let outcome :=
            if (st =? 0)%Z
            then ok_or (payload f ≫= decode) (map_rpc_status RpcOther)
            else if bool_decide (or_else (kind_ f) header_kind = Some Dispatch.VERSION_NOT_SERVED_KIND)
                 then Err (map_rpc_status RpcVersionNotServed)
                 else Err (map_rpc_status (grpc_status_code st)) in
          Some (outcome, Some st)
      end
  end.

(** ** Theorems *)

Lemma code_byte n : (0 ≤ n < 256)%Z → code (byte n) = n.
Proof. intros Hn. unfold code, byte. rewrite N_ascii_embedding by lia. lia. Qed.

Lemma code_range c : (0 ≤ code c < 256)%Z.
Proof. unfold code. pose proof (N_ascii_bounded c). lia. Qed.

Lemma be_round_trip n : (0 ≤ n < 2 ^ 32)%Z →
  from_be_bytes (byte (n / 2 ^ 24 mod 256)) (byte (n / 2 ^ 16 mod 256)) (byte (n / 2 ^ 8 mod 256)) (byte (n mod 256)) = n.
Proof.
  intros Hn. unfold from_be_bytes. rewrite !code_byte by (apply Z.mod_pos_bound; lia).
  Z.to_euclidean_division_equations. lia.
Qed.

Lemma frame_length flags content : length (frame flags content) = (5 + length content)%nat.
Proof. unfold frame. cbn [length]. by rewrite length_app. Qed.

(** Every round goes at least five bytes further, so that any two amounts of fuel
    above what is left of the answer end the same way: the loop ends. *)
Lemma frames_fuel fuel fuel' answer offset acc : (0 ≤ offset)%Z →
  length (drop (Z.to_nat offset) answer) < fuel → length (drop (Z.to_nat offset) answer) < fuel' →
  scan fuel answer offset acc = scan fuel' answer offset acc.
Proof.
  revert fuel' offset acc. induction fuel as [|fuel IH]; intros [|fuel'] offset acc Ho H1 H2; [lia..|]. cbn [scan].
  destruct (drop (Z.to_nat offset) answer) as [|f [|a [|b [|c [|d rest]]]]] eqn:E; try done.
  destruct (_ <? _)%Z; [done|]. destruct (_ <? _)%Z eqn:Hp; [done|]. apply Z.ltb_ge in Hp.
  assert (length (drop (Z.to_nat ((offset + 5 + from_be_bytes a b c d) mod USIZE)) answer) < length (f :: a :: b :: c :: d :: rest)) as Hl.
  { rewrite <- E, !length_drop. apply (f_equal length) in E. rewrite length_drop in E. cbn [length] in E. lia. }
  apply IH; lia.
Qed.

(** The loop at the start of a frame that fits. *)
Lemma scan_frame fuel answer pre flags content rest acc :
  (0 ≤ flags < 256)%Z → answer = pre ++ frame flags content ++ rest → (Z.of_nat (length answer) < USIZE)%Z →
  scan (S fuel) answer (Z.of_nat (length pre)) acc
  = scan fuel answer (Z.of_nat (length (pre ++ frame flags content))) (take_frame acc flags content).
Proof.
  intros Hf Ea Hlen.
  assert (length answer = length pre + (5 + (length content + length rest)))%nat as Hl.
  { rewrite Ea, !length_app, frame_length. lia. }
  unfold USIZE in *. rewrite Hl in Hlen. cbn [scan]. rewrite Nat2Z.id.
  assert (drop (length pre) answer = frame flags content ++ rest) as Ed by (rewrite Ea; apply drop_app_length).
  rewrite Ed. unfold frame at 1. cbn [app to_be_bytes]. rewrite be_round_trip by lia. unfold USIZE.
  rewrite Z.mod_small by lia. rewrite Hl.
  rewrite (proj2 (Z.ltb_ge _ _)) by lia. rewrite (proj2 (Z.ltb_ge _ _)) by lia. rewrite code_byte by done.
  replace (Z.of_nat (length pre) + 5 + Z.of_nat (length content))%Z with (Z.of_nat (length (pre ++ frame flags content)))
    by (rewrite length_app, frame_length; lia).
  do 2 f_equal.
  replace (Z.to_nat (Z.of_nat (length pre) + 5)) with (length pre + 5)%nat by lia. rewrite <- drop_drop.
  rewrite Ed. unfold frame at 2. cbn [app to_be_bytes drop].
  replace (Z.to_nat _) with (length content); [by rewrite drop_0, take_app_length|].
  rewrite length_app, frame_length. lia.
Qed.

(** The loop at a frame that is cut short. *)
Lemma scan_cut fuel answer pre flags content n acc :
  (0 ≤ flags < 256)%Z → answer = pre ++ take n (frame flags content) →
  (Z.of_nat (length (pre ++ frame flags content)) < USIZE)%Z → n < length (frame flags content) →
  scan (S fuel) answer (Z.of_nat (length pre)) acc = (if (n <? 5)%nat then Scanned acc else Overruns).
Proof.
  intros Hf -> Hlen Hn. cbn [scan]. rewrite Nat2Z.id, drop_app_length.
  assert (length (frame flags content) = 5 + length content)%nat as Hl.
  { apply frame_length. }
  rewrite length_app, Hl in Hlen. rewrite Hl in Hn. unfold USIZE in *.
  do 5 (destruct n as [|n]; [done|]). unfold frame. cbn [take app to_be_bytes].
  match goal with |- context [length (pre ++ ?l)] =>
    assert (length (pre ++ l) < length pre + 5 + length content)%nat as Hcut
      by (rewrite length_app; cbn [length]; rewrite length_take; lia) end.
  rewrite be_round_trip by lia. unfold USIZE. rewrite (Z.mod_small (_ + Z.of_nat (length content))) by lia. by rewrite (proj2 (Z.ltb_lt _ _)) by lia.
Qed.

Lemma take_app_cases {A} n (a b : list A) : take n (a ++ b) = if (n <? length a)%nat then take n a else a ++ take (n - length a) b.
Proof.
  destruct (n <? length a)%nat eqn:E; [apply Nat.ltb_lt in E|apply Nat.ltb_ge in E].
  - by rewrite take_app_le by lia.
  - by rewrite take_app_ge by lia.
Qed.

(** What a status reports, with the message that came with it and the marker. *)
Definition reported {R} (decode : bytes → option R) (message : option bytes) (st : Z) (kind : option bytes)
  : result R ClientError :=
  if (st =? 0)%Z then ok_or (message ≫= decode) (map_rpc_status RpcOther)
  else Err (map_rpc_status (if bool_decide (kind = Some Dispatch.VERSION_NOT_SERVED_KIND)
                            then RpcVersionNotServed else grpc_status_code st)).

Lemma decode_scanned {R} (decode : bytes → option R) answer header_status header_kind f :
  scan (S (length answer)) answer 0 no_frames = Scanned f →
  decode_grpc_web_answer decode answer header_status header_kind
  = Some (match or_else (status f) header_status with
          | None => (Err (map_rpc_status RpcOther), None)
          | Some st => (reported decode (payload f) st (or_else (kind_ f) header_kind), Some st)
          end).
Proof.
  intros E. unfold decode_grpc_web_answer, reported. rewrite E. destruct (or_else _ _) as [st|]; [|done].
  destruct (st =? 0)%Z; [done|]. by case_bool_decide.
Qed.

(** The loop past the message frame. *)
Lemma scan_message fuel message rest :
  (Z.of_nat (length (frame 0 message ++ rest)) < USIZE)%Z →
  scan (S fuel) (frame 0 message ++ rest) 0 no_frames
  = scan fuel (frame 0 message ++ rest) (Z.of_nat (length (frame 0 message))) (mkFrames (Some message) None None).
Proof.
  intros Ha. change 0%Z with (Z.of_nat (length ([] : bytes))) at 3.
  by rewrite (scan_frame _ (frame 0 message ++ rest) [] 0 message rest).
Qed.

(** The loop over an answer that ends before its trailers do. *)
Lemma scan_short message trailers n :
  let answer := frame 0 message ++ frame 128 trailers in
  (Z.of_nat (length answer) < USIZE)%Z → n < length answer →
  scan (S (length (take n answer))) (take n answer) 0 no_frames
  = if (n <? 5)%nat then Scanned no_frames
    else if (n <? 5 + length message)%nat then Overruns
    else if (n <? 10 + length message)%nat then Scanned (mkFrames (Some message) None None)
    else Overruns.
Proof.
  intros answer Hans Hn. unfold answer in *. rewrite length_app, !frame_length in Hans, Hn.
  rewrite take_app_cases, frame_length. destruct (n <? 5 + length message)%nat eqn:En.
  - apply Nat.ltb_lt in En. change 0%Z with (Z.of_nat (length ([] : bytes))).
    rewrite (scan_cut _ _ [] 0 message n) by (done || (cbn [app]; rewrite ?frame_length; unfold USIZE in *; lia)).
    by destruct (n <? 5)%nat.
  - apply Nat.ltb_ge in En. set (m := (n - (5 + length message))%nat).
    assert (length (take m (frame 128 trailers)) = m) as Hm by (rewrite length_take, frame_length; lia).
    rewrite scan_message by (rewrite length_app, Hm, frame_length; unfold USIZE in *; lia).
    assert (∃ k, length (frame 0 message ++ take m (frame 128 trailers)) = S k) as [k ->]
      by (rewrite length_app, frame_length; by eexists).
    rewrite (scan_cut _ _ (frame 0 message) 128 trailers m)
      by (done || (rewrite ?length_app, ?frame_length; unfold USIZE in *; lia)).
    rewrite (proj2 (Nat.ltb_ge n 5)) by lia.
    destruct (m <? 5)%nat eqn:E5, (n <? 10 + length message)%nat eqn:E10; try done; exfalso;
      rewrite ?Nat.ltb_lt, ?Nat.ltb_ge in *; lia.
Qed.

(** C30: a reply survives its journey, and no part of one passes for it unless the
    headers already report success.  An answer of a message frame and a trailer
    frame is read as the reply the trailers report, whatever the headers say: the
    decoded message for status zero, the retirement of the version when the
    marker says so, and otherwise the error of the status.  Cut short within a
    frame, behind its five bytes of flags and length, it is an error; cut before
    or within those, it is what the headers report: an error without a status
    there, or the error of theirs.  Only with status zero there, and cut behind
    the message, is the message taken although the trailers are missing. *)
Theorem replies_are_read_whole {R} (decode : bytes → option R) message trailers header_status header_kind :
  (Z.of_nat (length message + length trailers) + 10 < USIZE)%Z → from_utf8_ok trailers = true →
  let answer := frame 0 message ++ frame 128 trailers in
  (∀ st, trailer_status trailers = Some st →
     decode_grpc_web_answer decode answer header_status header_kind
     = Some (reported decode (Some message) st (or_else (trailer_kind trailers) header_kind), Some st))
  ∧ ∀ n, n < length answer →
     decode_grpc_web_answer decode (take n answer) header_status header_kind
     = Some (if (n <? 5)%nat || ((5 + length message <=? n)%nat && (n <? 10 + length message)%nat) then
               match header_status with
               | None => (Err (map_rpc_status RpcOther), None)
               | Some st => (reported decode (if (n <? 5)%nat then None else Some message) st header_kind, Some st)
               end
             else (Err (map_rpc_status RpcOther), None)).
Proof.
  intros Hlen Hutf answer.
  assert (Z.of_nat (length answer) < USIZE)%Z as Hans by (unfold answer; rewrite length_app, !frame_length; lia).
  split.
  - intros st Hst.
    assert (scan (S (length answer)) answer 0 no_frames = Scanned (mkFrames (Some message) (Some st) (trailer_kind trailers))) as E.
    { assert (∃ k, length answer = S (S k)) as [k ->] by (exists (length answer - 2); unfold answer; rewrite length_app, !frame_length; lia).
      unfold answer in *. rewrite scan_message by done.
      rewrite (scan_frame _ _ (frame 0 message) 128 trailers []) by (done || by rewrite app_nil_r).
      cbn [scan]. rewrite Nat2Z.id, drop_ge by lia. unfold take_frame. change (Z.land 128 128 =? 0)%Z with false.
      cbn iota. by rewrite Hutf, Hst. }
    by rewrite (decode_scanned _ _ _ _ _ E).
  - intros n Hn. pose proof (scan_short message trailers n Hans Hn) as E. fold answer in E.
    destruct (n <? 5)%nat eqn:E5; cbn [orb]; [by rewrite (decode_scanned _ _ _ _ _ E)|].
    destruct (n <? 5 + length message)%nat eqn:Em.
    + apply Nat.ltb_lt in Em. rewrite (proj2 (Nat.leb_gt _ _)) by lia. cbn [andb].
      unfold decode_grpc_web_answer. by rewrite E.
    + apply Nat.ltb_ge in Em. rewrite (proj2 (Nat.leb_le _ _)) by lia. cbn [andb].
      destruct (n <? 10 + length message)%nat; [by rewrite (decode_scanned _ _ _ _ _ E)|].
      unfold decode_grpc_web_answer. by rewrite E.
Qed.

Module Sample.
Definition ok_trailers : bytes := "grpc-status:0".

Lemma replies_are_read_whole_witness :
  decode_grpc_web_answer Some (frame 0 "hello" ++ frame 128 ok_trailers) None None = Some (Ok ("hello" : bytes), Some 0%Z)
  ∧ decode_grpc_web_answer Some (take 9 (frame 0 "hello" ++ frame 128 ok_trailers)) None None = Some (Err (map_rpc_status RpcOther), None).
Proof.
  destruct (replies_are_read_whole Some "hello" ok_trailers None None) as [H1 H2]; [vm_compute; reflexivity|vm_compute; reflexivity|].
  split; [exact (H1 0%Z eq_refl)|]. refine (H2 9 _). vm_compute. lia.
Defined.

(** A refusal whose trailers are lost, under headers that report success. *)
Example lost_trailers_under_a_zero_header :
  let answer := frame 0 "hello" ++ frame 128 "grpc-status:7" in
  decode_grpc_web_answer Some answer (Some 0%Z) None = Some (Err (map_rpc_status RpcPermissionDenied), Some 7%Z)
  ∧ decode_grpc_web_answer Some (take 10 answer) (Some 0%Z) None = Some (Ok ("hello" : bytes), Some 0%Z).
Proof. by vm_compute. Qed.

Definition CRLF : bytes := [ascii_of_N 13; ascii_of_N 10].

(** A retired version is told from other errors by its marker. *)
Example retired :
  decode_grpc_web_answer (R:=bytes) Some
    (frame 128 ("grpc-status:12" ++ CRLF ++ "sovereign-config-error-kind: version-not-served" ++ CRLF)) None None
  = Some (Err (map_rpc_status RpcVersionNotServed), Some 12%Z)
  ∧ decode_grpc_web_answer (R:=bytes) Some [] (Some 14%Z) None = Some (Err (map_rpc_status RpcUnavailable), Some 14%Z).
Proof. by vm_compute. Qed.

(** A frame that claims almost 2^32 bytes wraps the end of its slice around to
    before its start: a panic of the page, not an error. *)
Example huge_frame_panics :
  decode_grpc_web_answer (R:=bytes) Some (frame 0 [] ++ byte 0 :: repeat (byte 255) 4 ++ "answer") None None = None.
Proof. by vm_compute. Qed.
End Sample.

End GrpcWeb.
