(* ===== verification/WebSession.v ===== *)
(** * The session of the web application

    Models [crates/sovereign-config-web/src/session.rs] and the token provider of
    [transport/mod.rs]: the login with a code and its proof key, the tokens held
    in memory, the refresh token that survives a reload, and what ends them.
    Code between two awaits runs alone; at each await any other task of the page
    may run; a response and its JSON are taken at one await.  The network is a log
    of the requests sent with an arbitrary function that answers them, and the
    session's storage is a record of the keys this code alone uses, a time in it
    kept as the number it reads back as.  The storage takes every key or none
    ([writable]); that a full storage takes some keys of a write and not others,
    each of which the source ignores by itself, is not modelled. *)

From Stdlib Require Import SpecFloat.
From stdpp Require Import strings.
From S2P Require Import Prelude Float64 Bytes ConfigPath Core Encryption Flow Session ConnectionUrl JsonValue WebRoute.

Local Open Scope bytes_scope.

Module Login.

(** ** The page *)

Record MemoryTokens := mkTokens {
  access_token : Secret; refresh_token : Secret; access_expires_at_ms : spec_float;
  refresh_expires_at_ms : spec_float; token_endpoint : bytes }.

Record AppConfig := mkConfig { issuer : bytes; client_id : bytes; telemetry : bool }.

(** The keys of the session's storage. *)
Record Storage := mkStorage {
  pkce_state : option bytes; pkce_verifier : option bytes; return_path : option bytes;
  stored_refresh : option bytes; stored_endpoint : option bytes; stored_expires : option spec_float;
  identity_name : option bytes }.

Record Fetch := mkFetch { f_url : bytes; f_method : bytes; f_form : list (bytes * bytes) }.

(** What is read of a response: its status, and of its JSON the texts that are not
    empty and the lifetime. *)
Record Json := mkJson { js_text : bytes → option bytes; js_expires_in : option spec_float }.
Record Response := mkResponse { rs_status : Z; rs_json : option Json }.

(** [storage] is [None] where there is none to use; [writable] is whether it takes
    items; [location] is the path of the address; [href] is where the browser was
    sent. *)
Record Page := mkPage {
  storage : option Storage; writable : bool; tokens : option MemoryTokens; now : spec_float; sent : list Fetch;
  origin : bytes; location : bytes; search : list (bytes * bytes); href : option (bytes * list (bytes * bytes));
  entropy : list bytes }.

Definition browser_error : ClientError := mkClientError Internal "browser operation failed".
Definition oidc_error : ClientError := mkClientError Unavailable "identity provider is unavailable".
Definition state_mismatch : ClientError := mkClientError Unauthenticated "login response did not match this browser".
Definition login_rejected : ClientError := mkClientError Unauthenticated "login was rejected".
Definition login_expired : ClientError := mkClientError Unauthenticated "login has expired".

Definition REFRESH_LIFETIME_MS : spec_float := F64.of_Z (8 * 60 * 60 * 1000).
Definition expires_in (json : Json) : spec_float :=
  let v := match js_expires_in json with
           | Some v => if F64.is_finite v && SFltb (S754_zero false) v then v else F64.of_Z 300
           | None => F64.of_Z 300
           end in
  if SFltb v (F64.of_Z 300) then v else F64.of_Z 300.

(** ** Code that runs alone *)

Definition Sync (A : Type) : Type := Page → result A ClientError * Page.
Definition ret {A} (a : A) : Sync A := λ p, (Ok a, p).
Definition fail {A} (e : ClientError) : Sync A := λ p, (Err e, p).
Definition bind {A B} (x : Sync A) (k : A → Sync B) : Sync B :=
  λ p, let '(r, p') := x p in match r with Ok a => k a p' | Err e => (Err e, p') end.
Definition lift {A} (r : result A ClientError) : Sync A := λ p, (r, p).

Notation "'sync' x <- a ; b" := (bind a (λ x, b)) (at level 100, x pattern, a at level 99, right associativity).

Definition with_storage (p : Page) (st : option Storage) : Page :=
  mkPage st (writable p) (tokens p) (now p) (sent p) (origin p) (location p) (search p) (href p) (entropy p).
Definition with_tokens (p : Page) (t : option MemoryTokens) : Page :=
  mkPage (storage p) (writable p) t (now p) (sent p) (origin p) (location p) (search p) (href p) (entropy p).

Definition session_storage : Sync Storage := λ p, (ok_or (storage p) browser_error, p).

(** [set_item], whose failure is an error where [required] and else is let be. *)
Definition set_items (f : Storage → Storage) (required : bool) : Sync unit := λ p,
  match storage p with
  | None => if required then (Err browser_error, p) else (Ok tt, p)
  | Some st =>
      if writable p then (Ok tt, with_storage p (Some (f st)))
      else if required then (Err browser_error, p) else (Ok tt, p)
  end.

(** [remove_item] *)
Definition remove_items (f : Storage → Storage) : Sync unit := λ p,
  (Ok tt, match storage p with Some st => with_storage p (Some (f st)) | None => p end).

Definition set_tokens (t : option MemoryTokens) : Sync unit := λ p, (Ok tt, with_tokens p t).
Definition read_now : Sync spec_float := λ p, (Ok (now p), p).

(** Sends a request; what was sent so far is what its answer depends on. *)
Definition send (f : Fetch) : Sync (list Fetch) := λ p,
  let log := sent p ++ [f] in
  (Ok log, mkPage (storage p) (writable p) (tokens p) (now p) log (origin p) (location p) (search p) (href p) (entropy p)).

Definition random_bytes : Sync bytes := λ p,
  match entropy p with
  | r :: rest => (Ok r, mkPage (storage p) (writable p) (tokens p) (now p) (sent p) (origin p) (location p) (search p) (href p) rest)
  | [] => (Err browser_error, p)
  end.

Definition with_pkce (st : Storage) (s v r : option bytes) : Storage :=
  mkStorage s v r (stored_refresh st) (stored_endpoint st) (stored_expires st) (identity_name st).
Definition with_refresh (st : Storage) (t e : option bytes) (x : option spec_float) : Storage :=
  mkStorage (pkce_state st) (pkce_verifier st) (return_path st) t e x (identity_name st).
Definition with_name (st : Storage) (n : option bytes) : Storage :=
  mkStorage (pkce_state st) (pkce_verifier st) (return_path st) (stored_refresh st) (stored_endpoint st) (stored_expires st) n.

Definition persist_refresh_token (t : MemoryTokens) : Sync unit :=
  set_items (λ st, with_refresh st (Some (expose_secret (refresh_token t))) (Some (token_endpoint t)) (Some (refresh_expires_at_ms t))) false.

Definition clear_persisted_refresh_token : Sync unit :=
  remove_items (λ st, with_name (with_refresh st None None None) None).

Definition clear_browser_session : Sync unit :=
  sync _ <- set_tokens None; clear_persisted_refresh_token.

Definition store_identity_name (name : option bytes) : Sync unit :=
  match name with
  | Some n => set_items (λ st, with_name st (Some n)) false
  | None => remove_items (λ st, with_name st None)
  end.

Definition logged_in (p : Page) : bool := match tokens p with Some _ => true | None => false end.

(** [restore_tokens], which reads the clock and the storage and may fill the slot. *)
Definition restore_tokens : Sync unit := λ p,
  match storage p with
  | None => (Ok tt, p)
  | Some st =>
      match stored_refresh st, stored_endpoint st, stored_expires st with
      | Some t, Some e, Some x =>
          if SFleb x (now p) then clear_persisted_refresh_token p
          else set_tokens (Some (mkTokens (mkSecret []) (mkSecret t) (S754_zero false) x e)) p
      | _, _, _ => (Ok tt, p)
      end
  end.

(** Runs code alone up to an await, then goes on. *)
Definition pause {A B} (x : Sync A) (k : A → @Flow Page (result B ClientError)) : @Flow Page (result B ClientError) :=
  Act x (λ r, match r with Ok a => k a | Err e => Ret (Err e) end).
Definition done_ {A} (x : Sync A) : @Flow Page (result A ClientError) := Act x Ret.

(** Without anything else running. *)
Lemma run_await {A B} (x : Sync A) (k : A → @Flow Page (result B ClientError)) p :
  run (pause x k) p = match x p with (Ok a, p') => run (k a) p' | (Err e, p') => (Err e, p') end.
Proof. unfold pause. cbn. by destruct (x p) as [[] p']. Qed.

Lemma run_done {A} (x : Sync A) p : run (done_ x) p = x p.
Proof. unfold done_. cbn. by destruct (x p). Qed.

Section login.
Context `{UrlCrates} `{Crypto}.
(** [serde_json::from_slice], and the network's answer to what was sent last. *)
Context (claims_from_slice : bytes → option Value) (net : list Fetch → result Response ClientError).

Definition identity_display_name (id_token : bytes) : option bytes :=
  payload ← split "."%char id_token !! 1;
  decoded ← b64url_decode payload;
  claims ← claims_from_slice decoded;
  (fix first (names : list bytes) := match names with
     | [] => None
     | n :: names' =>
         match (v ← get n claims; t ← as_str v; let t := trim t in if is_empty t then None else Some t) with
         | Some t => Some t
         | None => first names'
         end
     end) ["name"; "preferred_username"; "email"].

Definition identity_name_from_token_response (json : Json) : option bytes :=
  token ← js_text json "id_token"; identity_display_name token.

Definition ok (r : Response) : bool := (200 <=? rs_status r)%Z && (rs_status r <? 300)%Z.
Definition json_of (r : Response) : result Json ClientError := ok_or (rs_json r) oidc_error.
Definition text_of (json : Json) (name : bytes) : result bytes ClientError := ok_or (js_text json name) oidc_error.

(** ** Discovery *)

Definition require_issuer_origin (issuer endpoint : bytes) : result unit ClientError :=
  let? i := ok_or (url_parse issuer) oidc_error in
  let? e := ok_or (url_parse endpoint) oidc_error in
  if bool_decide (u_origin i = u_origin e) then Ok tt else Err oidc_error.

Definition discovery_request (issuer : bytes) : Fetch :=
  mkFetch (issuer ++ ".well-known/openid-configuration") "GET" [].

(** The two endpoints, from the answer. *)
Definition discovered (issuer : bytes) (log : list Fetch) : result (bytes * bytes) ClientError :=
  let? response := net log in
  if negb (ok response) then Err oidc_error
  else
    let? json := json_of response in
    let? authorization_endpoint := text_of json "authorization_endpoint" in
    let? token_endpoint := text_of json "token_endpoint" in
    let? _ := require_issuer_origin issuer authorization_endpoint in
    let? _ := require_issuer_origin issuer token_endpoint in
    Ok (authorization_endpoint, token_endpoint).

(** ** Beginning a login *)

Definition login_scope (telemetry : bool) : bytes :=
  if telemetry then "openid profile email sovereign-config offline_access telemetry:write"
  else "openid profile email sovereign-config offline_access".

Definition redirect_uri (p : Page) : bytes := origin p ++ "/auth/callback".

Definition random_urlsafe : Sync bytes := sync r <- random_bytes; ret (b64url_encode r).

Definition begin_after (config : AppConfig) (endpoints : bytes * bytes) : Sync unit :=
  sync verifier <- random_urlsafe;
  sync state <- random_urlsafe;
  let challenge := b64url_encode (sha256 verifier) in
  sync _ <- (λ p, set_items (λ st, with_pkce st (Some state) (Some verifier)
              (Some (Nav.route_url (Nav.route_from_path (location p))))) true p);
  sync url <- lift (ok_or (url_parse endpoints.1) oidc_error);
  λ p, (Ok tt,
        mkPage (storage p) (writable p) (tokens p) (now p) (sent p) (origin p) (location p) (search p)
          (Some (u_as_str url,
                 [("response_type" : bytes, "code" : bytes); ("client_id" : bytes, client_id config);
                  ("redirect_uri" : bytes, redirect_uri p); ("scope" : bytes, login_scope (telemetry config));
                  ("state" : bytes, state); ("code_challenge" : bytes, challenge);
                  ("code_challenge_method" : bytes, "S256" : bytes)]))
          (entropy p)).

Definition begin_login (config : AppConfig) : @Flow Page (result unit ClientError) :=
  pause (send (discovery_request (issuer config))) (λ log,
  pause (lift (discovered (issuer config) log)) (λ endpoints,
  done_ (begin_after config endpoints))).

(** ** Finishing a login *)

(** [UrlSearchParams::get] *)
Definition param (name : bytes) (ps : list (bytes * bytes)) : option bytes :=
  snd <$> List.find (λ p, bool_decide (p.1 = name)) ps.

(** Up to the first await: the code, the verifier and where to return to. *)
Definition claim_login (config : AppConfig) : Sync (bytes * bytes * bytes * list Fetch) :=
  sync code <- (λ p, (ok_or (param "code" (search p)) oidc_error, p));
  sync received_state <- (λ p, (ok_or (param "state" (search p)) oidc_error, p));
  sync st <- session_storage;
  sync expected_state <- lift (ok_or (pkce_state st) oidc_error);
  sync verifier <- lift (ok_or (pkce_verifier st) oidc_error);
  let return_to := match return_path st with
                   | Some path => Nav.route_url (Nav.route_from_path path)
                   | None => "/"
                   end in
  sync _ <- remove_items (λ st, with_pkce st None None None);
  if negb (bool_decide (received_state = expected_state)) then fail state_mismatch
  else
    sync log <- send (discovery_request (issuer config));
    ret (code, verifier, return_to, log).

Definition redeem_request (config : AppConfig) (endpoint redirect code verifier : bytes) : Fetch :=
  mkFetch endpoint "POST"
    [("grant_type" : bytes, "authorization_code" : bytes); ("client_id" : bytes, client_id config);
     ("redirect_uri" : bytes, redirect); ("code" : bytes, code); ("code_verifier" : bytes, verifier)].

Definition keep_login (endpoint return_to : bytes) (log : list Fetch) : Sync unit :=
  sync response <- lift (net log);
  if negb (ok response) then fail login_rejected
  else
    sync json <- lift (json_of response);
    sync access <- lift (text_of json "access_token");
    sync refresh <- lift (text_of json "refresh_token");
    sync _ <- store_identity_name (identity_name_from_token_response json);
    sync now <- read_now;
    let tokens := mkTokens (mkSecret access) (mkSecret refresh) (F64.add now (F64.mul (expires_in json) (F64.of_Z 1000)))
                    (F64.add now REFRESH_LIFETIME_MS) endpoint in
    sync _ <- persist_refresh_token tokens;
    sync _ <- set_tokens (Some tokens);
    λ p, (Ok tt, mkPage (storage p) (writable p) (Login.tokens p) (Login.now p) (sent p) (origin p) return_to [] (href p) (entropy p)).

Definition finish_login (config : AppConfig) : @Flow Page (result unit ClientError) :=
  pause (claim_login config) (λ '(code, verifier, return_to, log),
  pause (sync endpoints <- lift (discovered (issuer config) log);
         sync log <- (λ p, send (redeem_request config endpoints.2 (redirect_uri p) code verifier) p);
         ret (endpoints.2, log)) (λ '(endpoint, log),
  done_ (keep_login endpoint return_to log))).

(** ** Tokens for calls *)

Definition refresh_request (client_id : bytes) (current : MemoryTokens) : Fetch :=
  mkFetch (token_endpoint current) "POST"
    [("grant_type" : bytes, "refresh_token" : bytes); ("client_id" : bytes, client_id);
     ("refresh_token" : bytes, expose_secret (refresh_token current))].

Definition classify_refresh_error (status : Z) (oauth_error : option bytes) : ClientError :=
  if (status =? 400)%Z && bool_decide (oauth_error = Some "invalid_grant") then login_expired else oidc_error.

Definition refreshed (current : MemoryTokens) (log : list Fetch) : Sync MemoryTokens :=
  sync response <- lift (net log);
  if negb (ok response)
  then fail (classify_refresh_error (rs_status response) (json ← rs_json response; js_text json "error"))
  else
    sync json <- lift (json_of response);
    sync access <- lift (text_of json "access_token");
    sync refresh <- lift (text_of json "refresh_token");
    sync _ <- match identity_name_from_token_response json with
            | Some name => store_identity_name (Some name)
            | None => ret tt
            end;
    sync now <- read_now;
    ret (mkTokens (mkSecret access) (mkSecret refresh) (F64.add now (F64.mul (expires_in json) (F64.of_Z 1000)))
           (refresh_expires_at_ms current) (token_endpoint current)).

(** [MemoryAuthentication::access_token] up to its await: an answer, or the tokens
    it took out of their slot to refresh. *)
Definition take_tokens (client_id : bytes) : Sync (option Secret + MemoryTokens * list Fetch) :=
  λ p, match tokens p with
       | None => (Ok (inl None), p)
       | Some t =>
           let p := with_tokens p None in
           if SFltb (now p) (access_expires_at_ms t) then (Ok (inl (Some (access_token t))), with_tokens p (Some t))
           else if SFleb (refresh_expires_at_ms t) (now p)
           then (Ok (inl None), (clear_persisted_refresh_token p).2)
           else bind (send (refresh_request client_id t)) (λ log, ret (inr (t, log))) p
       end.

(** And after it. *)
Definition put_tokens (t : MemoryTokens) (log : list Fetch) : Sync (option Secret) :=
  λ p, match refreshed t log p with
       | (Ok t', p) => bind (persist_refresh_token t') (λ _, bind (set_tokens (Some t')) (λ _, ret (Some (access_token t')))) p
       | (Err e, p) =>
           if bool_decide (kind e = Unavailable) then (Err e, with_tokens p (Some t))
           else (Err e, (clear_persisted_refresh_token p).2)
       end.

Definition call_token (client_id : bytes) : @Flow Page (result (option Secret) ClientError) :=
  pause (take_tokens client_id) (λ r,
    match r with
    | inl answer => Ret (Ok answer)
    | inr (t, log) => done_ (put_tokens t log)
    end).
End login.

(** ** Theorems *)

(** Nothing of a session is left in the storage. *)
Definition Erased (p : Page) : Prop :=
  ∀ st, storage p = Some st →
    stored_refresh st = None ∧ stored_endpoint st = None ∧ stored_expires st = None ∧ identity_name st = None.

(** The storage holds what a reload needs of these tokens. *)
Definition Persisted (p : Page) (t : MemoryTokens) : Prop :=
  ∀ st, storage p = Some st →
    stored_refresh st = Some (expose_secret (refresh_token t)) ∧ stored_endpoint st = Some (token_endpoint t)
    ∧ stored_expires st = Some (refresh_expires_at_ms t).

Lemma sync_bind_ok {A B} (x : Sync A) (k : A → Sync B) p b p' : bind x k p = (Ok b, p') →
  ∃ a p1, x p = (Ok a, p1) ∧ k a p1 = (Ok b, p').
Proof. unfold bind. destruct (x p) as [[a|e] p1]; [|done]. eauto. Qed.

Lemma sync_bind_err {A B} (x : Sync A) (k : A → Sync B) p e p' : bind x k p = (Err e, p') →
  x p = (Err e, p') ∨ ∃ a p1, x p = (Ok a, p1) ∧ k a p1 = (Err e, p').
Proof. unfold bind. destruct (x p) as [[a|e'] p1]; [|intros [= -> ->]; by left]. eauto. Qed.

Lemma clear_persisted_erases p : Erased (clear_persisted_refresh_token p).2.
Proof. intros st. unfold clear_persisted_refresh_token, remove_items. cbn. destruct (storage p) eqn:E; [by intros [= <-]|congruence]. Qed.

Lemma clear_persisted_keeps p : tokens (clear_persisted_refresh_token p).2 = tokens p ∧ sent (clear_persisted_refresh_token p).2 = sent p.
Proof. unfold clear_persisted_refresh_token, remove_items. cbn. by destruct (storage p). Qed.

Lemma store_name_keeps name p r p' : store_identity_name name p = (r, p') →
  r = Ok tt ∧ tokens p' = tokens p ∧ sent p' = sent p ∧ writable p' = writable p ∧ now p' = now p.
Proof.
  unfold store_identity_name, set_items, remove_items. destruct name; destruct (storage p); try destruct (writable p) eqn:E;
    intros [= <- <-]; split_and!; try done; by rewrite E.
Qed.

Lemma persist_keeps t p r p' : persist_refresh_token t p = (r, p') →
  r = Ok tt ∧ tokens p' = tokens p ∧ sent p' = sent p ∧ (writable p = true → Persisted p' t).
Proof.
  unfold persist_refresh_token, set_items, Persisted. destruct (storage p) as [st|] eqn:E.
  - destruct (writable p) eqn:Ew; intros [= <- <-]; (split; [done|]); split_and!; try done. intros _ st' [= <-]. done.
  - intros [= <- <-]. split_and!; try done. intros _ st' Hst. by rewrite E in Hst.
Qed.

Section theorems.
Context `{UrlCrates} `{Crypto}.
Context (claims_from_slice : bytes → option Value) (net : list Fetch → result Response ClientError).

Lemma discovered_origin issuer log endpoints : discovered net issuer log = Ok endpoints →
  ∃ i e, url_parse issuer = Some i ∧ url_parse endpoints.2 = Some e ∧ u_origin i = u_origin e.
Proof.
  unfold discovered. intros (response & _ & Hr)%and_then_ok. destruct (negb _); [done|].
  apply and_then_ok in Hr as (json & _ & Hr). apply and_then_ok in Hr as (a & _ & Hr).
  apply and_then_ok in Hr as (t & _ & Hr). apply and_then_ok in Hr as (_ & _ & Hr).
  apply and_then_ok in Hr as ([] & Ho & [= <-]). unfold require_issuer_origin in Ho.
  apply and_then_ok in Ho as (i & Hi%ok_or_ok & Ho). apply and_then_ok in Ho as (e & He%ok_or_ok & Ho).
  case_bool_decide; [|done]. by exists i, e.
Qed.

(** What the claim of a login did, whether it succeeded or not. *)
Lemma claim_spec config p :
  (∃ st code x v return_to, storage p = Some st ∧ param "code" (search p) = Some code ∧ param "state" (search p) = Some x
     ∧ pkce_state st = Some x ∧ pkce_verifier st = Some v
     ∧ ∃ p', claim_login config p = (Ok (code, v, return_to, sent p ++ [discovery_request (issuer config)]), p')
       ∧ storage p' = Some (with_pkce st None None None) ∧ sent p' = sent p ++ [discovery_request (issuer config)]
       ∧ tokens p' = tokens p ∧ writable p' = writable p ∧ origin p' = origin p)
  ∨ ∃ e p', claim_login config p = (Err e, p') ∧ sent p' = sent p ∧ tokens p' = tokens p.
Proof.
  unfold claim_login, bind, lift, session_storage, remove_items.
  destruct (param "code" (search p)) as [code|] eqn:Ec; cbn [ok_or]; [|right; by eexists _, _].
  destruct (param "state" (search p)) as [x|] eqn:Ex; cbn [ok_or]; [|right; by eexists _, _].
  destruct (storage p) as [st|] eqn:Est; cbn [ok_or]; [|right; by eexists _, _].
  destruct (pkce_state st) as [x'|] eqn:Es; cbn [ok_or]; [|right; by eexists _, _].
  destruct (pkce_verifier st) as [v|] eqn:Ev; cbn [ok_or]; [|right; by eexists _, _].
  case_bool_decide as E; cbn [negb]; [|right; by eexists _, _]. subst x'. left.
  exists st, code, x, v, (match return_path st with Some path => Nav.route_url (Nav.route_from_path path) | None => "/" end).
  split_and!; try done. eexists. split; [done|]. by split_and!.
Qed.

Lemma keep_login_ok endpoint return_to log p p' : keep_login claims_from_slice net endpoint return_to log p = (Ok tt, p') →
  sent p' = sent p ∧ ∃ t, tokens p' = Some t ∧ token_endpoint t = endpoint ∧ (writable p = true → Persisted p' t).
Proof.
  unfold keep_login. intros Hr. apply sync_bind_ok in Hr as (response & p1 & [= _ <-] & Hr). destruct (negb _); [done|].
  apply sync_bind_ok in Hr as (json & p1 & [= _ <-] & Hr). apply sync_bind_ok in Hr as (access & p1 & [= _ <-] & Hr).
  apply sync_bind_ok in Hr as (refresh & p1 & [= _ <-] & Hr). apply sync_bind_ok in Hr as ([] & p1 & Hn & Hr).
  apply store_name_keeps in Hn as (_ & _ & Hs1 & Hw1 & _). apply sync_bind_ok in Hr as (now' & p2 & [= _ <-] & Hr).
  apply sync_bind_ok in Hr as ([] & p2 & Hp & Hr). apply persist_keeps in Hp as (_ & _ & Hs2 & Hpers).
  apply sync_bind_ok in Hr as ([] & p3 & [= <-] & Hr). injection Hr as <-. cbn. split; [congruence|].
  eexists. split; [done|]. split; [done|]. rewrite <- Hw1. exact Hpers.
Qed.

Lemma keep_login_sends_nothing endpoint return_to log p :
  sent (keep_login claims_from_slice net endpoint return_to log p).2 = sent p
  ∧ (∀ st, storage p = Some st → pkce_state st = None →
       ∀ st', storage (keep_login claims_from_slice net endpoint return_to log p).2 = Some st' → pkce_state st' = None).
Proof.
  unfold keep_login, bind, lift, fail, store_identity_name, persist_refresh_token, set_items, set_tokens, remove_items, read_now.
  destruct (net log) as [response|]; cbn; [|split; [done|]; intros; congruence]. destruct (ok response); cbn; [|split; [done|]; intros; congruence].
  destruct (json_of response) as [json|]; cbn; [|split; [done|]; intros; congruence].
  destruct (text_of json "access_token"); cbn; [|split; [done|]; intros; congruence].
  destruct (text_of json "refresh_token"); cbn; [|split; [done|]; intros; congruence].
  destruct (identity_name_from_token_response _ json); destruct (storage p) eqn:Es; destruct (writable p) eqn:Ew; cbn;
    rewrite ?Es, ?Ew; cbn; rewrite ?Es, ?Ew; cbn; (split; [done|]); intros st0 Hst Hnone st'; rewrite ?Es; congruence || (intros [= <-]; cbn; congruence).
Qed.

(** A login's run, by its three parts. *)
Lemma finish_login_run config p :
  run (finish_login claims_from_slice net config) p
  = match claim_login config p with
    | (Err e, p1) => (Err e, p1)
    | (Ok (code, v, return_to, log), p1) =>
        match discovered net (issuer config) log with
        | Err e => (Err e, p1)
        | Ok endpoints =>
            let '(log, p2) := send (redeem_request config endpoints.2 (redirect_uri p1) code v) p1 in
            keep_login claims_from_slice net endpoints.2 return_to (sent p2) p2
        end
    end.
Proof.
  unfold finish_login. rewrite run_await. destruct (claim_login config p) as [[[[[code v] return_to] log]|e] p1]; [|done].
  rewrite run_await. unfold bind, lift, send, ret. destruct (discovered net (issuer config) log) as [endpoints|e]; [|done].
  by rewrite run_done.
Qed.

(** C27: A login is finished by the browser that began it, once.  When finishing
    one succeeds, the answer carried the state this browser had stored, and the
    one code in it was redeemed with the proof key stored with that state, at an
    endpoint of the configured issuer, for the tokens now held and kept.  An
    answer that carries another state sends nothing and changes no token.  Once
    anything was sent the stored state is gone, so the same answer again sends
    nothing. *)
Theorem logins_finish_where_they_began config p r p' : run (finish_login claims_from_slice net config) p = (r, p') →
  (r = Ok tt →
     ∃ st code x v endpoint, storage p = Some st
       ∧ param "state" (search p) = Some x ∧ pkce_state st = Some x ∧ pkce_verifier st = Some v ∧ param "code" (search p) = Some code
       ∧ sent p' = sent p ++ [discovery_request (issuer config); redeem_request config endpoint (redirect_uri p) code v]
       ∧ (∃ i e, url_parse (issuer config) = Some i ∧ url_parse endpoint = Some e ∧ u_origin i = u_origin e)
       ∧ ∃ t, tokens p' = Some t ∧ token_endpoint t = endpoint ∧ (writable p = true → Persisted p' t))
  ∧ ((∀ st, storage p = Some st → pkce_state st = None ∨ param "state" (search p) ≠ pkce_state st) →
     r ≠ Ok tt ∧ sent p' = sent p ∧ tokens p' = tokens p)
  ∧ (sent p' ≠ sent p → ∀ st, storage p' = Some st → pkce_state st = None).
Proof.
  rewrite finish_login_run. pose proof (claim_spec config p) as
    [(st & code & x & v & return_to & Est & Ec & Ex & Es & Ev & p1 & -> & Est1 & Hs1 & Ht1 & Hw1 & Ho1)|(e & p1 & -> & Hs1 & Ht1)].
  2:{ intros [= <- <-]. split_and!; [done|by intros _|]. intros Hne. by rewrite Hs1 in Hne. }
  assert (∀ st0, storage p1 = Some st0 → pkce_state st0 = None) as Hnone by (rewrite Est1; by intros ? [= <-]).
  destruct (discovered net (issuer config) _) as [endpoints|e] eqn:Ed.
  2:{ intros [= <- <-]. split_and!; [done| |by intros _]. intros Hmis. by destruct (Hmis _ Est) as [?|?]; congruence. }
  unfold send. cbn [sent]. set (p2 := mkPage _ _ _ _ _ _ _ _ _ _). intros Hk.
  destruct (keep_login_sends_nothing endpoints.2 return_to (sent p2) p2) as [Hsent Hclear].
  change (sent p1 ++ _) with (sent p2) in Hk. rewrite Hk in Hsent, Hclear. cbn [snd] in Hsent, Hclear.
  split_and!.
  - intros ->. apply keep_login_ok in Hk as (Hs & t & Ht & He & Hp). exists st, code, x, v, endpoints.2.
    split_and!; try done.
    + rewrite Hs. unfold p2. cbn [sent]. rewrite Hs1, <- (assoc_L (++)). unfold redirect_uri. by rewrite Ho1.
    + by eapply discovered_origin.
    + exists t. split_and!; [done|done|]. intros Hw. apply Hp. unfold p2. cbn. by rewrite Hw1.
  - intros Hmis. destruct (Hmis _ Est) as [?|?]; congruence.
  - intros _ st' Hst'. destruct (storage p2) as [st2|] eqn:E2; [by eapply Hclear; [|by apply Hnone|]|].
    unfold p2 in E2. cbn in E2. congruence.
Qed.

(** *** Tokens *)

Lemma store_name_ok name p : ∃ p1, store_identity_name name p = (Ok tt, p1) ∧ tokens p1 = tokens p ∧ sent p1 = sent p ∧ writable p1 = writable p.
Proof. destruct (store_identity_name name p) as [r p1] eqn:E. apply store_name_keeps in E as (-> & ? & ? & ? & _). by exists p1. Qed.

(** What refreshing does to the page it runs on: fail and leave it, or answer. *)
Lemma refreshed_spec t log p :
  (∃ t' p1, refreshed claims_from_slice net t log p = (Ok t', p1) ∧ sent p1 = sent p ∧ writable p1 = writable p
     ∧ refresh_expires_at_ms t' = refresh_expires_at_ms t ∧ token_endpoint t' = token_endpoint t)
  ∨ ∃ e, refreshed claims_from_slice net t log p = (Err e, p).
Proof.
  unfold refreshed, bind, lift, fail, read_now, ret.
  destruct (net log) as [response|]; [|right; by eexists]. destruct (negb (ok response)); [right; by eexists|].
  destruct (json_of response) as [json|]; [|right; by eexists]. destruct (text_of json "access_token") as [a|]; [|right; by eexists].
  destruct (text_of json "refresh_token") as [f|]; [|right; by eexists]. left.
  destruct (identity_name_from_token_response _ json) as [name|]; [|by eexists _, _].
  destruct (store_name_ok (Some name) p) as (p1 & -> & ? & ? & ?). by eexists _, _.
Qed.

(** C26: A session lasts until it expires or is refused.  With tokens in hand, a
    call goes out with the access token while that lasts; then the refresh token
    is sent once, to the endpoint it came from, and what comes back replaces
    both, in memory and for the next reload, without extending the session.  If
    the provider cannot be reached the session is as it was; refused or past
    its end, it is gone from memory and from the storage. *)
Theorem sessions_last_until_refused client p t r p' : tokens p = Some t →
  run (call_token claims_from_slice net client) p = (r, p') →
  if SFltb (now p) (access_expires_at_ms t) then r = Ok (Some (access_token t)) ∧ tokens p' = Some t ∧ storage p' = storage p ∧ sent p' = sent p
  else if SFleb (refresh_expires_at_ms t) (now p) then r = Ok None ∧ tokens p' = None ∧ Erased p' ∧ sent p' = sent p
  else sent p' = sent p ++ [refresh_request client t] ∧
       match r with
       | Ok answer => ∃ t', answer = Some (access_token t') ∧ tokens p' = Some t'
           ∧ refresh_expires_at_ms t' = refresh_expires_at_ms t ∧ token_endpoint t' = token_endpoint t
           ∧ (writable p = true → Persisted p' t')
       | Err e => if bool_decide (kind e = Unavailable) then tokens p' = Some t ∧ storage p' = storage p
                  else tokens p' = None ∧ Erased p'
       end.
Proof.
  intros Ht. unfold call_token. rewrite run_await. unfold take_tokens. rewrite Ht.
  change (now (with_tokens p None)) with (now p).
  destruct (SFltb _ _); [intros [= <- <-]; done|].
  destruct (SFleb _ _).
  { pose proof (clear_persisted_keeps (with_tokens p None)) as [E1 E2]. pose proof (clear_persisted_erases (with_tokens p None)) as E3.
    destruct (clear_persisted_refresh_token (with_tokens p None)) as [u q]. intros [= <- <-]. by split_and!. }
  unfold bind, send, ret. cbn [sent with_tokens]. set (p1 := mkPage _ _ _ _ _ _ _ _ _ _). rewrite run_done.
  set (log := sent p ++ [refresh_request client t]). unfold put_tokens.
  destruct (refreshed_spec t log p1) as [(t' & p2 & -> & Hs & Hw & Hx & He)|(e & ->)].
  - unfold bind. destruct (persist_refresh_token t' p2) as [r3 p3] eqn:Ep. apply persist_keeps in Ep as (-> & _ & Hs3 & Hpers).
    change (sent p1) with log in Hs. cbn. intros [= <- <-]. cbn. split; [congruence|]. exists t'. split_and!; try done. intros Hwp. apply Hpers. by rewrite Hw.
  - destruct (clear_persisted_keeps p1) as [Hct Hcs]. pose proof (clear_persisted_erases p1) as He.
    case_bool_decide as Ek; intros [= <- <-]; (split; [done|]).
    + by rewrite bool_decide_eq_true_2.
    + rewrite bool_decide_eq_false_2 by done. by split.
Qed.
End theorems.

(** Beginning a login stores what finishing it needs: the state that was sent and
    the verifier whose hash was sent as the challenge. *)
Lemma begin_login_stores `{UrlCrates} `{Crypto} net config p p' :
  run (begin_login net config) p = (Ok tt, p') →
  ∃ st state verifier where_to parameters, storage p' = Some st ∧ pkce_state st = Some state ∧ pkce_verifier st = Some verifier
    ∧ href p' = Some (where_to, parameters)
    ∧ param "state" parameters = Some state ∧ param "code_challenge" parameters = Some (b64url_encode (sha256 verifier))
    ∧ sent p' = sent p ++ [discovery_request (issuer config)] ∧ tokens p' = tokens p.
Proof.
  unfold begin_login. rewrite run_await. unfold send. rewrite run_await. unfold lift at 1.
  destruct (discovered net (issuer config) _) as [endpoints|]; [|done]. rewrite run_done. intros Hr.
  apply sync_bind_ok in Hr as (verifier & p1 & Hv & Hr). apply sync_bind_ok in Hr as (state & p2 & Hs & Hr).
  assert (∀ b q q', random_urlsafe q = (Ok b, q') → sent q' = sent q ∧ tokens q' = tokens q) as Hrandom.
  { intros b q q' (r & q1 & Hq & [= _ <-])%sync_bind_ok. unfold random_bytes in Hq. destruct (entropy q); [done|]. by injection Hq as _ <-. }
  apply Hrandom in Hv as [Hv1 Hv2]. apply Hrandom in Hs as [Hs1 Hs2].
  apply sync_bind_ok in Hr as ([] & p3 & Hset & Hr). unfold set_items in Hset.
  destruct (storage p2) as [st|]; [|done]. destruct (writable p2); [|done]. injection Hset as <-.
  apply sync_bind_ok in Hr as (url & p4 & [= _ <-] & [= <-]). cbn in *.
  by eexists _, state, verifier, _, _; split_and!; [..|rewrite Hs1, Hv1|rewrite Hs2, Hv2].
Qed.

(** ** A page *)

Module Sample.
#[local] Existing Instance SampleUrl.sample_crates.

Definition config : AppConfig := mkConfig "https://id.example/" "web" false.

Definition discovery : Json := mkJson (λ n,
  if bool_decide (n = "authorization_endpoint") then Some ("https://id.example/authorize" : bytes)
  else if bool_decide (n = "token_endpoint") then Some ("https://id.example/token" : bytes) else None) None.
Definition granted : Json := mkJson (λ n,
  if bool_decide (n = "access_token") then Some ("a1" : bytes)
  else if bool_decide (n = "refresh_token") then Some ("r1" : bytes) else None) None.

(** Discovery is answered with the endpoints, the token endpoint grants. *)
Definition net (log : list Fetch) : result Response ClientError :=
  match last log with
  | Some f => Ok (mkResponse 200 (Some (if bool_decide (f_method f = "GET") then discovery else granted)))
  | None => Err oidc_error
  end.
Definition refusing (log : list Fetch) : result Response ClientError :=
  Ok (mkResponse 400 (Some (mkJson (λ n, if bool_decide (n = "error") then Some ("invalid_grant" : bytes) else None) None))).

Definition clock : spec_float := F64.of_Z 1000.
Definition empty_storage : Storage := mkStorage None None None None None None None.
Definition fresh : Page :=
  mkPage (Some empty_storage) true None clock [] "https://config.example" "/configuration/payments" [] None ["seed"; "salt"].

(** The page as the provider sends the browser back to it. *)
Definition returned (answer : bytes) (p : Page) : Page :=
  mkPage (storage p) (writable p) (tokens p) (now p) [] (origin p) "/auth/callback"
    [("code" : bytes, "c0" : bytes); ("state" : bytes, answer)] None (entropy p).

Definition begun : Page := (run (begin_login net config) fresh).2.
Definition the_state : bytes := default [] (storage begun ≫= pkce_state).

Definition held : MemoryTokens := mkTokens (mkSecret "a0") (mkSecret "r0") (F64.of_Z 500) (F64.of_Z 9000) "https://id.example/token".
Definition holding : Page :=
  mkPage (Some (with_refresh empty_storage (Some ("r0" : bytes)) (Some ("https://id.example/token" : bytes)) (Some (F64.of_Z 9000))))
    true (Some held) clock [] "https://config.example" "/" [] None [].

Example login_succeeds :
  let '(r, p) := run (finish_login (λ _, None) net config) (returned the_state begun) in
  (r, location p, access_token <$> tokens p, storage p ≫= stored_refresh)
  = (Ok tt, "/configuration/payments" : bytes, Some (mkSecret "a1"), Some ("r1" : bytes)).
Proof. vm_compute. reflexivity. Qed.

Example another_state_is_refused :
  let '(r, p) := run (finish_login (λ _, None) net config) (returned "other" begun) in
  (r, sent p, tokens p) = (Err state_mismatch, [], None).
Proof. vm_compute. reflexivity. Qed.

Lemma logins_finish_where_they_began_witness :
  (∃ st code x v endpoint, storage (returned the_state begun) = Some st
     ∧ param "state" (search (returned the_state begun)) = Some x ∧ pkce_state st = Some x ∧ pkce_verifier st = Some v
     ∧ param "code" (search (returned the_state begun)) = Some code
     ∧ sent (run (finish_login (λ _, None) net config) (returned the_state begun)).2
       = sent (returned the_state begun) ++ [discovery_request (issuer config);
            redeem_request config endpoint (redirect_uri (returned the_state begun)) code v]
     ∧ (∃ i e, url_parse (issuer config) = Some i ∧ url_parse endpoint = Some e ∧ u_origin i = u_origin e)
     ∧ ∃ t, tokens (run (finish_login (λ _, None) net config) (returned the_state begun)).2 = Some t ∧ token_endpoint t = endpoint
        ∧ (writable (returned the_state begun) = true → Persisted (run (finish_login (λ _, None) net config) (returned the_state begun)).2 t)).
Proof.
  destruct (logins_finish_where_they_began (λ _, None) net config (returned the_state begun)
              (run (finish_login (λ _, None) net config) (returned the_state begun)).1
              (run (finish_login (λ _, None) net config) (returned the_state begun)).2) as [H _]; [apply surjective_pairing|].
  apply H. vm_compute. reflexivity.
Defined.

Lemma sessions_last_until_refused_witness :
  match run (call_token (λ _, None) refusing "web") holding with
  | (Ok _, _) => False
  | (Err e, p) => if bool_decide (kind e = Unavailable) then tokens p = Some held ∧ storage p = storage holding
                  else tokens p = None ∧ Erased p
  end.
Proof.
  pose proof (sessions_last_until_refused (λ _, None) refusing "web" holding held
                (run (call_token (λ _, None) refusing "web") holding).1
                (run (call_token (λ _, None) refusing "web") holding).2 eq_refl (surjective_pairing _)) as H.
  exact (proj2 H).
Defined.

(** A call's refresh is put back into the slot whatever happened meanwhile: a
    logout between its two halves clears memory and storage, and the second half
    fills both again. *)
Example logout_during_refresh_is_undone :
  match take_tokens "web" holding with
  | (Ok (inr (t, log)), p) =>
      let p := (clear_browser_session p).2 in
      let q := (put_tokens (λ _, None) net t log p).2 in
      (logged_in p, storage p ≫= stored_refresh, logged_in q, storage q ≫= stored_refresh)
      = (false, None, true, Some ("r1" : bytes))
  | _ => False
  end.
Proof. vm_compute. reflexivity. Qed.

(** A second call made while the first one refreshes finds the slot empty: it goes
    out without a token although the session is good. *)
Example concurrent_calls_go_out_without_a_token :
  match take_tokens "web" holding with
  | (Ok (inr (t, log)), p) =>
      (logged_in p, (take_tokens "web" p).1, access_token <$> tokens (put_tokens (λ _, None) net t log p).2)
      = (false, Ok (inl None), Some (mkSecret "a1"))
  | _ => False
  end.
Proof. vm_compute. reflexivity. Qed.
End Sample.
End Login.
