(* ===== verification/WebAudit.v ===== *)
(** * The audit trail view of the web application

    Models [crates/sovereign-config-web/src/audit.rs], with the wire between it
    and the service: the requests and responses of [transport/v5.rs] and
    [transport/audit_wire.rs], and the shim of [server/src/audit/v5.rs] and
    [shim.rs].  The filter form becomes a query as the service would accept it;
    the feed decides which page to fetch and which reply may still be drawn; the
    view is the rows, the texts and the requests in flight.  A task started with
    [spawn_local] is polled before the next event; replies arrive in any order.
    The rows of a page are drawn all or, where the document cannot take them,
    none: that it fails between two rows of one page is not modelled. *)

From Stdlib Require Import SpecFloat.
From stdpp Require Import strings.
From S2P Require Import Prelude Float64 Bytes ConfigPath Core Rpc Database AuditQuery AuditPages Values AuditSample WebRoute.

Local Open Scope bytes_scope.

Module View.
Import Vocabulary.

(** ** core: the query as a client holds it *)

Record AuditQuery := mkAuditQuery {
  path_filter : option bytes; element_path : option ConfigPath; text_filter : option bytes;
  from : option Stamps.Timestamp; until : option Stamps.Timestamp; protocol_version : option bytes;
  kinds : list AuditEventKind; page_size : Z; cursor : option bytes; actor_filter : option bytes }.

Definition default_query : AuditQuery := mkAuditQuery None None None None None None [] 0 None None.

(** [PartialEq], under which paths are equal when their folds are. *)
Definition path_eqb (a b : option ConfigPath) : bool :=
  match a, b with Some p, Some q => Path.eq p q | None, None => true | _, _ => false end.
Definition query_eqb (a b : AuditQuery) : bool :=
  bool_decide (path_filter a = path_filter b) && path_eqb (element_path a) (element_path b)
  && bool_decide (text_filter a = text_filter b) && bool_decide (from a = from b) && bool_decide (until a = until b)
  && bool_decide (protocol_version a = protocol_version b) && bool_decide (kinds a = kinds b)
  && (page_size a =? page_size b)%Z && bool_decide (cursor a = cursor b) && bool_decide (actor_filter a = actor_filter b).

(** ** The filter form *)

Definition MAX_PATH_FILTER_CHARACTERS : nat := 512.
Definition MAX_TEXT_FILTER_CHARACTERS : nat := 256.
Definition MAX_PROTOCOL_VERSION_CHARACTERS : nat := 32.

Inductive KindGroup := Changes | SecretReveals | AccessUrls | Reads.
#[global] Instance KindGroup_eq_dec : EqDecision KindGroup.
Proof. solve_decision. Defined.

Definition ALL : list KindGroup := [Changes; SecretReveals; AccessUrls; Reads].

Definition checkbox_id (g : KindGroup) : bytes :=
  match g with
  | Changes => "audit-kind-changes" | SecretReveals => "audit-kind-secrets"
  | AccessUrls => "audit-kind-connections" | Reads => "audit-kind-reads"
  end.

Definition group_kinds (g : KindGroup) : list AuditEventKind :=
  match g with
  | Changes => [ValueCreated; ValueUpdated; ValueDeleted; ValuePathAdded; SubtreeReplaced; SubtreeDeleted]
  | SecretReveals => [SecretRevealed]
  | AccessUrls => [ConnectionCreated; ConnectionRotated; ConnectionRevoked]
  | Reads => [SubtreeRead; ValuesListed]
  end.

Definition shown_by_default (g : KindGroup) (element : bool) : bool := element || negb (bool_decide (g = Reads)).

Record FilterInput := mkInput {
  i_path : bytes; i_text : bytes; i_actor : bytes; i_from : option Stamps.Timestamp; i_until : option Stamps.Timestamp;
  i_protocol_version : bytes; i_groups : list KindGroup }.

Record FilterError := mkFilterError { fe_field : bytes; fe_message : bytes }.

Definition long_text (text : bytes) : bool :=
  (MAX_TEXT_FILTER_CHARACTERS <? length (chars text))%nat || contains_byte "000"%char text.

Definition after (a b : Stamps.Timestamp) : bool :=
  (Stamps.seconds b <? Stamps.seconds a)%Z
  || (Stamps.seconds a =? Stamps.seconds b)%Z && (Stamps.nanos b <? Stamps.nanos a)%Z.

Definition when (b : bool) (e : FilterError) : list FilterError := if b then [e] else [].

Definition build_query (input : FilterInput) (element : option ConfigPath) : result AuditQuery (list FilterError) :=
  let path := trim (i_path input) in
  let path_filter := if negb (is_some element) && negb (is_empty path) then Some path else None in
  let text := trim (i_text input) in
  let actor := trim (i_actor input) in
  let version := trim (i_protocol_version input) in
  let errors :=
    when (match path_filter with
          | Some path => (MAX_PATH_FILTER_CHARACTERS <? length path)%nat || negb (forallb Audit.path_character path)
          | None => false
          end) (mkFilterError "audit-path-filter" "use only letters, digits, _, - and /, at most 512 of them")
    ++ when (long_text text) (mkFilterError "audit-text-filter" "enter at most 256 characters")
    ++ when (long_text actor) (mkFilterError "audit-actor-filter" "enter at most 256 characters")
    ++ when ((MAX_PROTOCOL_VERSION_CHARACTERS <? length version)%nat
             || negb (forallb (λ c, is_ascii_lowercase c || is_ascii_digit c) version))
         (mkFilterError "audit-protocol" "enter a version label such as v4")
    ++ when (match i_from input, i_until input with Some f, Some u => after f u | _, _ => false end)
         (mkFilterError "audit-until" "choose a time after the start of the range")
    ++ when (is_empty (i_groups input)) (mkFilterError "audit-kinds" "choose at least one kind of event") in
  if negb (is_empty errors) then Err errors
  else
    let kinds := if forallb (λ g, bool_decide (g ∈ i_groups input)) ALL then []
                 else flat_map group_kinds (List.filter (λ g, bool_decide (g ∈ i_groups input)) ALL) in
    Ok (mkAuditQuery path_filter element (Audit.non_empty text) (i_from input) (i_until input) (Audit.non_empty version)
          kinds 0 None (Audit.non_empty actor)).

(** *** The instants of the form *)

Definition timestamp_from_millis (milliseconds : spec_float) : option Stamps.Timestamp :=
  match milliseconds with
  | S754_infinity _ | S754_nan => None
  | _ =>
      let quotient := F64.div milliseconds (F64.of_Z 1000) in
      let seconds := F64.of_Z (F64.floor quotient) in
      let rest := F64.sub milliseconds (F64.mul seconds (F64.of_Z 1000)) in
      Some (Stamps.mkTimestamp (F64.cast F64.trunc F64.i64_min F64.i64_max seconds)
              (F64.cast F64.round F64.i32_min F64.i32_max (F64.mul rest (F64.of_Z 1000000))))
  end.

Definition end_of_minute (at_ : Stamps.Timestamp) : Stamps.Timestamp :=
  Stamps.mkTimestamp (Stamps.seconds at_ - Stamps.seconds at_ mod 60 + 59) 999999999.

(** ** The wire *)

Record QueryAuditTrailRequest := mkRequest {
  rq_path_filter : bytes; rq_element_path : bytes; rq_text_filter : bytes;
  rq_from : option Stamps.Timestamp; rq_until : option Stamps.Timestamp; rq_protocol_version : bytes;
  rq_kinds : list Z; rq_page_size : Z; rq_cursor : bytes; rq_actor_filter : bytes }.

Record WireEvent := mkWireEvent {
  we_id : Z; we_kind : Z; we_path : bytes; we_occurred_at : option Stamps.Timestamp;
  we_first_occurred_at : option Stamps.Timestamp; we_event_count : Z; we_actor_subject : bytes;
  we_actor_name : option bytes; we_protocol_version : bytes; we_old_value : option bytes; we_new_value : option bytes;
  we_narrative : bytes }.

Record QueryAuditTrailResponse := mkResponse {
  rs_events : list WireEvent; rs_next_cursor : bytes; rs_total_count : option Z; rs_match_count : option Z }.

(** The tags of the enumeration in the protocol definition; 0 is unspecified. *)
Definition wire_kind (k : AuditEventKind) : Z :=
  match k with
  | ValueCreated => 1 | ValueUpdated => 2 | ValueDeleted => 3 | ValuePathAdded => 4 | SubtreeReplaced => 5
  | SubtreeDeleted => 6 | SecretRevealed => 7 | SubtreeRead => 8 | ValuesListed => 9 | ConnectionCreated => 10
  | ConnectionRotated => 11 | ConnectionRevoked => 12
  end.

(** [Wire::try_from(tag)] and the kind it names. *)
Definition kind_of_tag (tag : Z) : option AuditEventKind :=
  List.find (λ k, (wire_kind k =? tag)%Z) Vocabulary.ALL.

Definition browser_error : ClientError := mkClientError Core.Internal "browser operation failed".

(** The dialer's request, and the service's reading of it. *)
Definition audit_request (query : AuditQuery) : QueryAuditTrailRequest :=
  mkRequest (default [] (path_filter query)) (default [] (Path.as_str <$> element_path query))
    (default [] (text_filter query)) (from query) (until query) (default [] (protocol_version query))
    (List.map wire_kind (kinds query)) (page_size query) (default [] (cursor query)) (default [] (actor_filter query)).

Definition trail_query (message : QueryAuditTrailRequest) : Audit.TrailQuery :=
  Audit.mkQuery (rq_path_filter message) (rq_element_path message) (rq_text_filter message) (rq_from message)
    (rq_until message) (rq_protocol_version message) (mapM kind_of_tag (rq_kinds message)) (rq_page_size message)
    (rq_cursor message) (rq_actor_filter message) true.

(** The service's event, and the dialer's reading of it. *)
Definition event (entry : AuditEntry) : WireEvent :=
  mkWireEvent (e_id entry) (wire_kind (e_kind entry)) (Path.as_str (e_path entry)) (Some (e_occurred_at entry))
    (Some (e_first_occurred_at entry)) (e_event_count entry) (e_actor_subject entry) (e_actor_name entry)
    (e_protocol_version entry) (e_old_value entry) (e_new_value entry) (e_narrative entry).

Definition proto_timestamp (value : option Stamps.Timestamp) : result Stamps.Timestamp ClientError :=
  let? t := ok_or value browser_error in
  let? _ := Stamps.to_system_time t in Ok t.

Definition audit_entry (event : WireEvent) : result AuditEntry ClientError :=
  let? kind := ok_or (kind_of_tag (we_kind event)) browser_error in
  let? path := map_err (Path.parse_selection (we_path event)) (λ _, browser_error) in
  let? occurred_at := proto_timestamp (we_occurred_at event) in
  let? first_occurred_at := proto_timestamp (we_first_occurred_at event) in
  Ok (mkEntry (we_id event) kind path occurred_at first_occurred_at (we_event_count event) (we_actor_subject event)
        (we_actor_name event) (we_protocol_version event) (we_old_value event) (we_new_value event) (we_narrative event)).

Definition audit_counts (total matching : option Z) : result (option AuditCounts) ClientError :=
  match total, matching with
  | None, None => Ok None
  | Some total, Some matching => if (matching <=? total)%Z then Ok (Some (mkCounts total matching)) else Err browser_error
  | _, _ => Err browser_error
  end.

Definition response_of (page : AuditPage) : QueryAuditTrailResponse :=
  mkResponse (List.map event (events page)) (default [] (next_cursor page)) (total <$> counts page) (matching <$> counts page).

Definition page_of (response : QueryAuditTrailResponse) : result AuditPage ClientError :=
  let? events := map_result audit_entry (rs_events response) in
  let? counts := audit_counts (rs_total_count response) (rs_match_count response) in
  Ok (mkPage events (Audit.non_empty (rs_next_cursor response)) counts).

(** A call of the service as version 5 of the protocol has it. *)
Definition query_audit_trail `{QueryCrates} (self : Audit.AuditTrailService) (context : Rpc.CallContext)
    (message : QueryAuditTrailRequest) : M Status QueryAuditTrailResponse :=
  page ← Audit.query_audit_trail self context (trail_query message); mret (response_of page).

(** ** The feed *)

Inductive FeedState := Idle | Loading | Failed | Ended.
#[global] Instance FeedState_eq_dec : EqDecision FeedState.
Proof. solve_decision. Defined.

#[global] Instance AuditQuery_eq_dec : EqDecision AuditQuery.
Proof. solve_decision. Defined.

Record PageRequest := mkPageRequest { pr_generation : Z; pr_query : AuditQuery }.
#[global] Instance PageRequest_eq_dec : EqDecision PageRequest.
Proof. solve_decision. Defined.

Definition is_first_page (r : PageRequest) : bool := negb (is_some (cursor (pr_query r))).

Inductive PageOutcome := PageLoaded (next : option bytes) (counts : option AuditCounts) | PageFailed.

Record AuditFeed := mkFeed {
  generation : Z; active : bool; query : AuditQuery; feed_cursor : option bytes; feed_state : FeedState;
  feed_counts : option AuditCounts }.

Definition new_feed : AuditFeed := mkFeed 0 false default_query None Idle None.

Definition with_cursor (q : AuditQuery) (c : option bytes) : AuditQuery :=
  mkAuditQuery (path_filter q) (element_path q) (text_filter q) (from q) (until q) (protocol_version q) (kinds q)
    (page_size q) c (actor_filter q).

Definition request (f : AuditFeed) : PageRequest := mkPageRequest (generation f) (with_cursor (query f) (feed_cursor f)).

Definition with_state (f : AuditFeed) (st : FeedState) : AuditFeed :=
  mkFeed (generation f) (active f) (query f) (feed_cursor f) st (feed_counts f).

Definition wrapping_succ (n : Z) : Z := ((n + 1) mod 2 ^ 64)%Z.

Definition restart (f : AuditFeed) (q : AuditQuery) : AuditFeed * PageRequest :=
  let f := mkFeed (wrapping_succ (generation f)) true q None Loading None in (f, request f).

Definition advance (f : AuditFeed) : option (AuditFeed * PageRequest) :=
  if active f && bool_decide (feed_state f = Idle) && is_some (feed_cursor f)
  then let f := with_state f Loading in Some (f, request f) else None.

Definition retry (f : AuditFeed) : option (AuditFeed * PageRequest) :=
  if active f && bool_decide (feed_state f = Failed)
  then let f := with_state f Loading in Some (f, request f) else None.

Definition is_current (f : AuditFeed) (g : Z) : bool :=
  active f && (g =? generation f)%Z && bool_decide (feed_state f = Loading).

Definition settle (f : AuditFeed) (g : Z) (outcome : PageOutcome) : AuditFeed * bool :=
  if negb (is_current f g) then (f, false)
  else match outcome with
       | PageLoaded next counts =>
           (mkFeed (generation f) (active f) (query f) next (if is_some next then Idle else Ended)
              (if is_some counts then counts else feed_counts f), true)
       | PageFailed => (with_state f Failed, true)
       end.

Definition invalidate (f : AuditFeed) : AuditFeed := mkFeed (wrapping_succ (generation f)) false (query f) None Idle None.

Definition is_showing (f : AuditFeed) (q : AuditQuery) : bool :=
  active f && negb (bool_decide (feed_state f = Failed)) && query_eqb (query f) q.

Definition noun (count : Z) : bytes := if (count =? 1)%Z then "event" else "events".

Definition status_text (loaded : nat) (counts : option AuditCounts) (ended : bool) : bytes :=
  match counts with
  | Some c =>
      if (matching c =? total c)%Z then show_Z (total c) ++ " " ++ noun (total c)
      else show_Z (matching c) ++ " of " ++ show_Z (total c) ++ " " ++ noun (total c) ++ " match"
  | None =>
      if ended then show_nat loaded ++ " " ++ noun (Z.of_nat loaded)
      else show_nat loaded ++ " " ++ noun (Z.of_nat loaded) ++ " so far"
  end.

(** ** The view *)

Record Row := mkRow {
  row_event : bytes; row_when : bytes; row_actor : bytes; row_title : bytes; row_narrative : bytes; row_detail : bytes;
  row_protocol : bytes }.

Inductive ShownMode := NotYetShown | WholeTrail | ValueHistory (path : ConfigPath).

(** [page_error] is shown with the retry beside it when there is one; [armed] is
    whether the sentinel is observed; [in_flight] are the requests whose reply is
    awaited; [routed] is the view the address names. *)
Record Page := mkView {
  feed : AuditFeed; rows : list Row; empty_hidden : bool; audit_state : bytes; page_error : option bytes; armed : bool;
  validation : list FilterError; form : FilterInput; shown_mode : ShownMode; element_label : option bytes;
  path_disabled : bool; routed : Nav.Route; in_flight : list PageRequest }.

Section view.
(** [Date::to_locale_string] *)
Context (format_timestamp : Stamps.Timestamp → bytes).

Definition render_event (e : AuditEntry) : Row :=
  mkRow (show_Z (e_id e)) (format_timestamp (e_first_occurred_at e)) (default (e_actor_subject e) (e_actor_name e))
    (e_actor_subject e) (e_narrative e) (Vocabulary.as_str (e_kind e) ++ " · " ++ Path.as_str (e_path e))
    (e_protocol_version e).

Definition with_feed (v : Page) (f : AuditFeed) : Page :=
  mkView f (rows v) (empty_hidden v) (audit_state v) (page_error v) (armed v) (validation v) (form v) (shown_mode v)
    (element_label v) (path_disabled v) (routed v) (in_flight v).
Definition with_text (v : Page) (text : bytes) : Page :=
  mkView (feed v) (rows v) (empty_hidden v) text (page_error v) (armed v) (validation v) (form v) (shown_mode v)
    (element_label v) (path_disabled v) (routed v) (in_flight v).
Definition with_validation (v : Page) (errors : list FilterError) : Page :=
  mkView (feed v) (rows v) (empty_hidden v) (audit_state v) (page_error v) (armed v) errors (form v) (shown_mode v)
    (element_label v) (path_disabled v) (routed v) (in_flight v).

Definition reset_audit (v : Page) : Page :=
  mkView (invalidate (feed v)) [] true (audit_state v) None false (validation v) (form v) (shown_mode v)
    (element_label v) (path_disabled v) (routed v) (in_flight v).

(** A spawned [fetch_page] up to its await. *)
Definition fetch_page (v : Page) (r : PageRequest) : Page :=
  mkView (feed v) (rows v) (empty_hidden v) (if is_first_page r then "Loading" else "Loading more") None (armed v)
    (validation v) (form v) (shown_mode v) (element_label v) (path_disabled v) (routed v) (in_flight v ++ [r]).

Definition start_feed (v : Page) (q : AuditQuery) : Page * PageRequest :=
  let '(f, r) := restart (feed v) q in
  (mkView f [] true (audit_state v) (page_error v) false (validation v) (form v) (shown_mode v)
     (element_label v) (path_disabled v) (routed v) (in_flight v), r).

Definition form_query (v : Page) (element : option ConfigPath) : Page * option AuditQuery :=
  match build_query (form v) element with
  | Ok q => (with_validation v [], Some q)
  | Err errors => (with_text (reset_audit (with_validation v errors)) "Check the filters", None)
  end.

Definition load_audit (v : Page) : Page :=
  match routed v with
  | Nav.Audit element =>
      match form_query v element with
      | (v, Some q) => let '(v, r) := start_feed v q in fetch_page v r
      | (v, None) => v
      end
  | _ => reset_audit v
  end.

Definition apply_filters (v : Page) : Page :=
  match routed v with
  | Nav.Audit element =>
      match form_query v element with
      | (v, Some q) =>
          if is_showing (feed v) q then v else let '(v, r) := start_feed v q in fetch_page v r
      | (v, None) => v
      end
  | _ => v
  end.

(** The [input] listener. *)
Definition check_filters (v : Page) : Page :=
  match routed v with
  | Nav.Audit element =>
      with_validation v (match build_query (form v) element with Ok _ => [] | Err errors => errors end)
  | _ => v
  end.

Definition default_form (value_history : bool) : FilterInput :=
  mkInput [] [] [] None None [] (List.filter (λ g, shown_by_default g value_history) ALL).

Definition mode_eqb (a b : ShownMode) : bool :=
  match a, b with
  | NotYetShown, NotYetShown | WholeTrail, WholeTrail => true
  | ValueHistory p, ValueHistory q => Path.eq p q
  | _, _ => false
  end.

Definition render_audit_route (v : Page) (element : option ConfigPath) : Page :=
  let mode := match element with Some p => ValueHistory p | None => WholeTrail end in
  if mode_eqb (shown_mode v) mode then v
  else mkView (feed v) (rows v) (empty_hidden v) (audit_state v) (page_error v) (armed v) []
         (default_form (is_some element)) mode (Path.as_str <$> element) (is_some element) (routed v) (in_flight v).

(** [render_route], as far as this view is concerned. *)
Definition render_route (v : Page) (route : Nav.Route) : Page :=
  let v := mkView (feed v) (rows v) (empty_hidden v) (audit_state v) (page_error v) (armed v) (validation v) (form v)
             (shown_mode v) (element_label v) (path_disabled v) route (in_flight v) in
  match route with Nav.Audit element => render_audit_route v element | _ => v end.

Definition fetch_more (v : Page) (next : AuditFeed → option (AuditFeed * PageRequest)) : Page :=
  match next (feed v) with Some (f, r) => fetch_page (with_feed v f) r | None => v end.

Fixpoint remove_request (r : PageRequest) (l : list PageRequest) : option (list PageRequest) :=
  match l with
  | [] => None
  | x :: l' =>
      if bool_decide (x = r) then Some l' else cons x <$> remove_request r l'
  end.

(** The rest of [fetch_page], with the call's result; [drawable] is whether the
    document and its table are there to take the rows. *)
Definition page_arrived (v : Page) (r : PageRequest) (result : result AuditPage ClientError) (drawable : bool) : Page :=
  if negb (is_current (feed v) (pr_generation r)) then v
  else
    let result := let? page := result in if drawable then Ok page else Err browser_error in
    match result with
    | Ok page =>
        let f := (settle (feed v) (pr_generation r) (PageLoaded (next_cursor page) (counts page))).1 in
        let rows := rows v ++ List.map render_event (events page) in
        let ended := bool_decide (feed_state f = Ended) in
        mkView f rows (negb (is_empty rows)) (status_text (length rows) (feed_counts f) ended) (page_error v)
          (negb ended) (validation v) (form v) (shown_mode v) (element_label v) (path_disabled v) (routed v) (in_flight v)
    | Err e =>
        mkView (settle (feed v) (pr_generation r) PageFailed).1 (rows v) (empty_hidden v) "Error"
          (Some (Core.message e)) false (validation v) (form v) (shown_mode v) (element_label v)
          (path_disabled v) (routed v) (in_flight v)
    end.

(** What happens to the page.  A reply that nothing awaits is none. *)
Inductive Event :=
| Type_ (input : FilterInput)                (* the form's contents change, and are checked *)
| Apply                                      (* a filter settles, or the form is submitted *)
| Scrolled                                   (* the sentinel comes into view *)
| Retry
| Show (route : Nav.Route)                   (* [render_route] *)
| Load                                       (* [load_audit], once the views before it are loaded *)
| LogOut
| Reply (r : PageRequest) (result : result AuditPage ClientError) (drawable : bool).

Definition with_form (v : Page) (input : FilterInput) : Page :=
  mkView (feed v) (rows v) (empty_hidden v) (audit_state v) (page_error v) (armed v) (validation v) input (shown_mode v)
    (element_label v) (path_disabled v) (routed v) (in_flight v).
Definition with_in_flight (v : Page) (l : list PageRequest) : Page :=
  mkView (feed v) (rows v) (empty_hidden v) (audit_state v) (page_error v) (armed v) (validation v) (form v) (shown_mode v)
    (element_label v) (path_disabled v) (routed v) l.

Definition on_event (v : Page) (e : Event) : Page :=
  match e with
  | Type_ input => check_filters (with_form v input)
  | Apply => apply_filters v
  | Scrolled => fetch_more v advance
  | Retry => fetch_more v retry
  | Show route => render_route v route
  | Load => load_audit v
  | LogOut => with_text (reset_audit v) "Log in to view the audit trail"
  | Reply r result drawable =>
      match remove_request r (in_flight v) with
      | Some l => page_arrived (with_in_flight v l) r result drawable
      | None => v
      end
  end.

Definition start : Page :=
  mkView new_feed [] true [] None false [] (default_form false) NotYetShown None false (Nav.Configuration Path.root) [].

(** ** Theorems *)

(** Pages fetched one after the other for a query, each with the cursor of the one
    before it, and the cursor the last one left. *)
Inductive Linked (q : AuditQuery) : list (AuditQuery * AuditPage) → option bytes → Prop :=
| Linked_none : Linked q [] None
| Linked_next ps c p : Linked q ps c → ps = [] ∨ is_Some c →
    Linked q (ps ++ [(with_cursor q c, p)]) (next_cursor p).

Definition drawn (pages : list (AuditQuery * AuditPage)) : list AuditEntry := flat_map (λ qp, events qp.2) pages.

(** What is known of the feed, the rows and the requests in flight after some events. *)
Record Inv (es : list Event) (f : AuditFeed) (rs : list Row) (fl : list PageRequest) : Prop := {
  inv_generation : (0 ≤ generation f ≤ Z.of_nat (length es))%Z;
  inv_older : ∀ r, r ∈ fl → (0 ≤ pr_generation r ≤ generation f)%Z;
  inv_flight : List.filter (λ r, (pr_generation r =? generation f)%Z) fl
               = if active f && bool_decide (feed_state f = Loading) then [request f] else [];
  inv_pages : ∃ pages, rs = List.map render_event (drawn pages) ∧ Linked (query f) pages (feed_cursor f)
    ∧ (∀ q p, (q, p) ∈ pages → ∃ g, Reply (mkPageRequest g q) (Ok p) true ∈ es)
    ∧ (if active f then
         match feed_state f with
         | Idle => is_Some (feed_cursor f)
         | Ended => pages ≠ [] ∧ feed_cursor f = None
         | Loading | Failed => pages = [] ∨ is_Some (feed_cursor f)
         end
       else pages = []) }.

Lemma inv_neutral es e f rs fl : Inv es f rs fl → Inv (es ++ [e]) f rs fl.
Proof.
  intros [Hg Ho Hf (pages & Hr & Hl & Hp & Hs)]. split; [rewrite length_app; cbn; lia|done|done|].
  exists pages. split_and!; try done. intros q p Hin. destruct (Hp q p Hin) as [g Hg']. exists g. set_solver.
Qed.

(** The generations of requests in flight are older than the next one. *)
Lemma older_filtered fl g : (∀ r, r ∈ fl → (0 ≤ pr_generation r ≤ g)%Z) →
  List.filter (λ r, (pr_generation r =? g + 1)%Z) fl = [].
Proof.
  induction fl as [|r fl IH]; [done|]. intros Ho. cbn. rewrite (proj2 (Z.eqb_neq _ _)); [apply IH; set_solver|].
  specialize (Ho r ltac:(set_solver)). lia.
Qed.

Lemma wrapping_small n k : (0 ≤ n ≤ k)%Z → (k + 1 < 2 ^ 64)%Z → wrapping_succ n = (n + 1)%Z.
Proof. intros. unfold wrapping_succ. rewrite Z.mod_small; lia. Qed.

Lemma inv_reset es e f rs fl : (Z.of_nat (length es) + 1 < 2 ^ 64)%Z → Inv es f rs fl → Inv (es ++ [e]) (invalidate f) [] fl.
Proof.
  intros Hlen [Hg Ho Hf _]. pose proof (wrapping_small _ _ Hg Hlen) as Ew.
  split; cbn [invalidate generation active feed_state query feed_cursor andb]; rewrite ?Ew.
  - rewrite length_app; cbn; lia.
  - intros r Hr. specialize (Ho r Hr). lia.
  - by apply older_filtered.
  - exists []. split_and!; [done|constructor|set_solver|done].
Qed.

Lemma inv_start es e f rs fl q : (Z.of_nat (length es) + 1 < 2 ^ 64)%Z → Inv es f rs fl →
  Inv (es ++ [e]) (restart f q).1 [] (fl ++ [(restart f q).2]).
Proof.
  intros Hlen [Hg Ho Hf _]. pose proof (wrapping_small _ _ Hg Hlen) as Ew. unfold restart. cbn [fst snd]. rewrite Ew.
  split; cbn [generation active feed_state query feed_cursor andb].
  - rewrite length_app; cbn; lia.
  - intros r [Hr|Hr]%elem_of_app; [specialize (Ho r Hr); lia|]. apply list_elem_of_singleton in Hr as ->. cbn. lia.
  - rewrite List.filter_app, older_filtered by done. cbn. by rewrite Z.eqb_refl, bool_decide_eq_true_2.
  - exists []. split_and!; [done|constructor|set_solver|by left].
Qed.

Lemma inv_more es e f rs fl next f' r : next = advance ∨ next = retry → next f = Some (f', r) → Inv es f rs fl →
  Inv (es ++ [e]) f' rs (fl ++ [r]).
Proof.
  intros Hnext Hr HI. pose proof (inv_neutral es e _ _ _ HI) as [Hg Ho Hf (pages & Hrows & Hl & Hp & Hs)].
  assert (f' = with_state f Loading ∧ r = request f' ∧ active f = true ∧ feed_state f ≠ Loading
          ∧ (pages = [] ∨ is_Some (feed_cursor f))) as (-> & -> & Ha & Hst & Hc).
  { clear Hf. destruct Hnext as [->| ->]; unfold advance, retry in Hr; destruct (active f); cbn [andb] in Hr; try done.
    - case_bool_decide as E; cbn [andb] in Hr; [|discriminate]. rewrite E in Hs.
      destruct (feed_cursor f); [|by apply is_Some_None in Hs]. cbn [is_some] in Hr. injection Hr as <- <-.
      rewrite E. split_and!; eauto.
    - case_bool_decide as E; [|discriminate]. rewrite E in Hs. injection Hr as <- <-. rewrite E. by split_and!. }
  rewrite Ha, bool_decide_eq_false_2 in Hf by done. cbn [andb] in Hf.
  split; cbn [with_state generation active feed_state query feed_cursor].
  - done.
  - intros r [Hr'|Hr']%elem_of_app; [by apply Ho|]. apply list_elem_of_singleton in Hr' as ->. cbn. lia.
  - rewrite List.filter_app, Hf. cbn. rewrite Z.eqb_refl, Ha, bool_decide_eq_true_2 by done. done.
  - exists pages. rewrite Ha. by split_and!.
Qed.

Lemma remove_permutation r l l' : remove_request r l = Some l' → l ≡ₚ r :: l'.
Proof.
  revert l'. induction l as [|y l IH]; [done|]. intros l'. cbn. case_bool_decide as E; [intros [= <-]; by subst|].
  destruct (remove_request r l) as [l1|]; [|done]. intros [= <-]. rewrite (IH l1 eq_refl). constructor.
Qed.

Lemma filter_permutation {A} (P : A → bool) l l' : l ≡ₚ l' → List.filter P l ≡ₚ List.filter P l'.
Proof.
  induction 1 as [|x l l' _ IH|x y l|l l1 l2 _ IH1 _ IH2]; cbn; [done| | |by etrans].
  - destruct (P x); [by constructor|done].
  - destruct (P x), (P y); try done. constructor.
Qed.

(** A request in flight of the feed's generation is the one it awaits. *)
Lemma inv_removed es f rs fl r fl' : Inv es f rs fl → remove_request r fl = Some fl' →
  (∀ x, x ∈ fl' → (0 ≤ pr_generation x ≤ generation f)%Z)
  ∧ (if is_current f (pr_generation r)
     then r = request f ∧ List.filter (λ r, (pr_generation r =? generation f)%Z) fl' = []
     else List.filter (λ r, (pr_generation r =? generation f)%Z) fl'
          = if active f && bool_decide (feed_state f = Loading) then [request f] else []).
Proof.
  intros [Hg Ho Hf _] Hrem%remove_permutation. split; [intros x Hx; apply Ho; rewrite Hrem; set_solver|].
  apply (filter_permutation (λ r, (pr_generation r =? generation f)%Z)) in Hrem. rewrite Hf in Hrem. cbn in Hrem.
  unfold is_current. destruct (pr_generation r =? generation f)%Z; rewrite ?andb_true_r, ?andb_false_r; cbn.
  - destruct (active f && bool_decide (feed_state f = Loading)).
    + apply Permutation_singleton_l in Hrem. by injection Hrem as <- ->.
    + by apply Permutation_nil_l in Hrem.
  - destruct (active f && bool_decide (feed_state f = Loading)).
    + symmetry. by apply Permutation_singleton_l in Hrem.
    + symmetry. by apply Permutation_nil_l in Hrem.
Qed.

(** The reply a page awaits, and no other, is drawn. *)
Lemma inv_reply es r result drawable v fl' : Inv es (feed v) (rows v) (in_flight v) → remove_request r (in_flight v) = Some fl' →
  let v' := page_arrived (with_in_flight v fl') r result drawable in
  Inv (es ++ [Reply r result drawable]) (feed v') (rows v') (in_flight v').
Proof.
  intros HI Hrem v'. destruct (inv_removed _ _ _ _ _ _ HI Hrem) as [Ho' Hf'].
  destruct (inv_neutral es (Reply r result drawable) _ _ _ HI) as [Hg _ _ (pages & Hr & Hl & Hp & Hs)].
  unfold v', page_arrived. cbn [feed with_in_flight rows in_flight].
  destruct (is_current (feed v) (pr_generation r)) eqn:Ec; cbn [negb].
  2:{ split; cbn; [done|done|done|]. exists pages. by split_and!. }
  destruct Hf' as [-> Hf']. unfold is_current in Ec. apply andb_true_iff in Ec as [[Ha _]%andb_true_iff Est%bool_decide_eq_true_1].
  rewrite Ha, Est in Hs.
  assert (∀ f' rs', generation f' = generation (feed v) → active f' = true → query f' = query (feed v) → feed_state f' ≠ Loading →
    (∃ pages, rs' = List.map render_event (drawn pages) ∧ Linked (query f') pages (feed_cursor f')
      ∧ (∀ q p, (q, p) ∈ pages → ∃ g, Reply (mkPageRequest g q) (Ok p) true ∈ es ++ [Reply (request (feed v)) result drawable])
      ∧ match feed_state f' with
        | Idle => is_Some (feed_cursor f')
        | Ended => pages ≠ [] ∧ feed_cursor f' = None
        | Loading | Failed => pages = [] ∨ is_Some (feed_cursor f')
        end) → Inv (es ++ [Reply (request (feed v)) result drawable]) f' rs' fl') as Hmk.
  { intros f' rs' E1 E2 E3 E4 Hpages. split; rewrite ?E1; try done.
    - by rewrite Hf', bool_decide_eq_false_2, andb_false_r by done.
    - by rewrite E2. }
  unfold settle, is_current. cbn [pr_generation request]. rewrite Ha, Z.eqb_refl, bool_decide_eq_true_2 by done. cbn [andb negb].
  destruct (let? page := result in _) as [page|e] eqn:Eres; cbn [feed rows in_flight fst].
  - apply and_then_ok in Eres as (page0 & -> & Ed). destruct drawable; [|done]. injection Ed as <-.
    apply Hmk; cbn; [done|done|done|by destruct (next_cursor page0)|].
    exists (pages ++ [(with_cursor (query (feed v)) (feed_cursor (feed v)), page0)]). split_and!.
    + unfold drawn. rewrite Hr, flat_map_app, List.map_app. cbn. by rewrite app_nil_r.
    + by constructor.
    + intros q p [Hin|Hin]%elem_of_app; [by apply Hp|]. apply list_elem_of_singleton in Hin as [= -> ->].
      exists (generation (feed v)). set_solver.
    + destruct (next_cursor page0); [by eexists|]. split; [by destruct pages|done].
  - apply Hmk; cbn; [done|done|done|done|]. exists pages. by split_and!.
Qed.

Definition InvPage (es : list Event) (v : Page) : Prop := Inv es (feed v) (rows v) (in_flight v).

Lemma inv_load es e v element v' : (Z.of_nat (length es) + 1 < 2 ^ 64)%Z → InvPage es v →
  v' = (match form_query v element with
        | (v, Some q) => let '(v, r) := start_feed v q in fetch_page v r
        | (v, None) => v
        end) → InvPage (es ++ [e]) v'.
Proof.
  intros Hlen HI ->. unfold form_query. destruct (build_query (form v) element) as [q|errors].
  - exact (inv_start es e _ _ _ q Hlen HI).
  - exact (inv_reset es e _ _ _ Hlen HI).
Qed.

Lemma inv_step es v e : (Z.of_nat (length es) + 1 < 2 ^ 64)%Z → InvPage es v → InvPage (es ++ [e]) (on_event v e).
Proof.
  intros Hlen HI. pose proof (inv_neutral es e _ _ _ HI) as Hsame. destruct e as [input| | | |route| | |r result drawable]; cbn [on_event].
  - unfold check_filters. cbn [routed with_form]. by destruct (routed v).
  - unfold apply_filters. destruct (routed v) as [| | |element] eqn:Er; try done.
    pose proof (inv_load es Apply v element _ Hlen HI eq_refl) as Hload.
    destruct (form_query v element) as [v1 [q|]] eqn:Ef; [|exact Hload].
    destruct (is_showing (feed v1) q); [|exact Hload].
    unfold form_query in Ef. destruct (build_query (form v) element); [|done]. by injection Ef as <- <-.
  - unfold fetch_more. destruct (advance (feed v)) as [[f r]|] eqn:E; [|done].
    exact (inv_more es _ _ _ _ advance _ _ (or_introl eq_refl) E HI).
  - unfold fetch_more. destruct (retry (feed v)) as [[f r]|] eqn:E; [|done].
    exact (inv_more es _ _ _ _ retry _ _ (or_intror eq_refl) E HI).
  - unfold render_route. destruct route as [| | |element]; try done. unfold render_audit_route. by destruct (mode_eqb _ _).
  - unfold load_audit. destruct (routed v) as [| | |element]; [| | |by eapply inv_load];
      exact (inv_reset es _ _ _ _ Hlen HI).
  - exact (inv_reset es _ _ _ _ Hlen HI).
  - destruct (remove_request r (in_flight v)) as [l|] eqn:E; [|done]. by apply inv_reply.
Qed.

Lemma inv_run es : (Z.of_nat (length es) < 2 ^ 64)%Z → InvPage es (foldl on_event start es).
Proof.
  induction es as [|e es IH] using rev_ind; intros Hlen.
  - split; cbn; [lia|set_solver|done|]. exists []. split_and!; [done|constructor|set_solver|done].
  - rewrite length_app in Hlen. cbn in Hlen. rewrite foldl_app. cbn. apply inv_step; [lia|]. apply IH. lia.
Qed.

(** *** What the service answers *)

Section service.
Context `{QueryCrates} (self : Audit.AuditTrailService) (context : Rpc.CallContext).

(** A page read of the service's answer to a query, at some moment. *)
Definition answered (q : AuditQuery) (p : AuditPage) : Prop :=
  ∃ w w' response, query_audit_trail self context (audit_request q) w = (Ok response, w') ∧ page_of response = Ok p.

Lemma find_kind k k' : kind_of_tag (wire_kind k) = Some k' → k' = k.
Proof. destruct k; cbn; by intros [= <-]. Qed.

Lemma entry_survives e e' : audit_entry (event e) = Ok e' → e' = e.
Proof.
  unfold audit_entry, event. cbn. intros (k & Hk%ok_or_ok & Hr)%and_then_ok. apply find_kind in Hk as ->.
  apply and_then_ok in Hr as (p & Hp & Hr). apply and_then_ok in Hr as (t & Ht & Hr). apply and_then_ok in Hr as (t' & Ht' & [= <-]).
  assert (p = e_path e) as ->.
  { destruct (Path.parse_selection _) as [p'|] eqn:Ep; [|done]. injection Hp as <-.
    apply Path.parse_selection_spec in Ep. destruct (e_path e). naive_solver. }
  assert (∀ a b, proto_timestamp (Some a) = Ok b → b = a) as Hts.
  { intros a b. unfold proto_timestamp. cbn. intros (? & _ & [= ->])%and_then_ok. done. }
  apply Hts in Ht as ->. apply Hts in Ht' as ->. by destruct e.
Qed.

(** The service never answers an empty cursor. *)
Lemma cursor_not_empty q w page w' : Audit.query_audit_trail self context q w = (Ok page, w') → next_cursor page ≠ Some [].
Proof.
  unfold Audit.query_audit_trail. intros Hr. apply bind_ok in Hr as (valid & w1 & _ & Hr).
  apply bind_ok in Hr as (principal & w2 & _ & Hr). destruct (_ && _); [by apply ret_ok in Hr as [-> _]|].
  apply bind_ok in Hr as (rows & w3 & _ & Hr). apply bind_ok in Hr as (p & w4 & Hp & Hr).
  assert (next_cursor p ≠ Some []) as Hne.
  { apply lift_ok in Hp as [Hp _]. unfold Audit.page in Hp. apply and_then_ok in Hp as (es & _ & [= <-]). cbn [next_cursor].
    destruct (_ <? _)%nat; [|done]. destruct (last _) as [r|]; [|done]. cbn. unfold Audit.cursor_after. intros [= Hnil].
    by destruct (show_Z _). }
  destruct (_ && _); [|by apply ret_ok in Hr as [-> _]].
  apply bind_ok in Hr as (c & w5 & _ & Hr). by apply ret_ok in Hr as [-> _].
Qed.

(** What the view is given is what the service answered. *)
Lemma answer_survives q p : answered q p →
  ∃ w w' page, Audit.query_audit_trail self context (trail_query (audit_request q)) w = (Ok page, w')
    ∧ events p = events page ∧ next_cursor p = next_cursor page.
Proof.
  intros (w & w' & response & Hr & Hp). unfold query_audit_trail in Hr. apply bind_ok in Hr as (page & w1 & Hq & Hr).
  apply ret_ok in Hr as [-> _]. exists w, w1, page. split; [done|]. unfold page_of in Hp.
  apply and_then_ok in Hp as (es & Hes%map_result_ok & Hp). apply and_then_ok in Hp as (c & _ & [= <-]). cbn. split.
  - cbn in Hes. clear Hq. revert es Hes. induction (events page) as [|e l IH]; intros es Hes; [by inversion Hes|].
    inversion Hes as [|? e' ? es' He Hl]; subst. apply entry_survives in He as ->. f_equal. by apply IH.
  - apply cursor_not_empty in Hq. destruct (next_cursor page) as [[|? ?]|]; done.
Qed.

Lemma linked_scroll q ps c : Linked q ps c → (∀ x p, (x, p) ∈ ps → answered x p) → ps = [] ∨ is_Some c →
  ∀ tables es, Paging.scroll self context (trail_query (audit_request q)) (default [] c) tables es →
  ∃ tables', Paging.scroll self context (trail_query (audit_request q)) [] tables' (drawn ps ++ es).
Proof.
  induction 1 as [|ps c p Hl IH Hc]; intros Hans Hnext tables es Hs; [by exists tables|].
  destruct (answer_survives (with_cursor q c) p) as (w & w' & page & Hq & He & Hn); [apply Hans; set_solver|].
  destruct Hnext as [?|[c' Hc']]; [by destruct ps|]. rewrite Hc' in Hs, Hn.
  assert (Paging.scroll self context (trail_query (audit_request q)) (default [] c) (audit (db w) :: tables) (events page ++ es)) as Hs'
    by (by eapply Paging.scroll_next).
  edestruct IH as [tables' Ht]; [|exact Hc|exact Hs'|].
  - intros x p' Hin. apply Hans. set_solver.
  - exists tables'. unfold drawn. rewrite flat_map_app. cbn [flat_map snd]. by rewrite app_nil_r, He, <- (assoc_L (++)).
Qed.

(** C32: the list is the trail.  However the view is used, and in whatever order
    replies arrive, one page at most is awaited; the rows are the pages of the
    query on show, each fetched with the cursor of the one before it, and a reply
    to anything else changes nothing.  A failure keeps the rows, and retrying
    asks for the same page.  When the list has ended, and its replies were the
    service's, the rows are one scroll through the trail. *)
Theorem the_list_is_one_scroll es : (Z.of_nat (length es) < 2 ^ 64)%Z →
  let v := foldl on_event start es in
  let q := query (feed v) in
  length (List.filter (λ r, (pr_generation r =? generation (feed v))%Z) (in_flight v)) ≤ 1
  ∧ (∃ pages, rows v = List.map render_event (drawn pages) ∧ Linked q pages (feed_cursor (feed v))
       ∧ ∀ x p, (x, p) ∈ pages → ∃ g, Reply (mkPageRequest g x) (Ok p) true ∈ es)
  ∧ (∀ r result drawable, r ∉ in_flight v ∨ pr_generation r ≠ generation (feed v) →
       let v' := on_event v (Reply r result drawable) in
       rows v' = rows v ∧ feed v' = feed v ∧ audit_state v' = audit_state v ∧ page_error v' = page_error v)
  ∧ (active (feed v) = true → feed_state (feed v) = Failed →
       rows (on_event v Retry) = rows v
       ∧ in_flight (on_event v Retry) = in_flight v ++ [mkPageRequest (generation (feed v)) (with_cursor q (feed_cursor (feed v)))])
  ∧ (active (feed v) = true → feed_state (feed v) = Ended →
       (∀ g x p d, Reply (mkPageRequest g x) (Ok p) d ∈ es → answered x p) →
       ∃ tables entries, Paging.scroll self context (trail_query (audit_request q)) [] tables entries
         ∧ rows v = List.map render_event entries).
Proof.
  intros Hlen v q. destruct (inv_run es Hlen) as [Hg Ho Hf (pages & Hr & Hl & Hp & Hs)]. fold v in Hg, Ho, Hf, Hr, Hl, Hs.
  split_and!.
  - rewrite Hf. destruct (_ && _); cbn; lia.
  - by exists pages.
  - intros r result drawable Hor v'. unfold v'. cbn [on_event].
    destruct (remove_request r (in_flight v)) as [l|] eqn:E; [|done]. destruct Hor as [Hor|Hor].
    + exfalso. apply Hor. apply remove_permutation in E. rewrite E. set_solver.
    + unfold page_arrived, is_current. cbn [feed with_in_flight]. by rewrite (proj2 (Z.eqb_neq _ _) Hor), andb_false_r.
  - intros Ha Hst. cbn [on_event]. unfold fetch_more, retry. by rewrite Ha, Hst.
  - intros Ha Hst Hserved. rewrite Ha, Hst in Hs. destruct Hs as [Hne Hc]. fold q in Hl. rewrite Hc in Hl.
    assert (∀ x p, (x, p) ∈ pages → answered x p) as Hans.
    { intros x p Hin. destruct (Hp x p Hin) as [g Hg']. by eapply Hserved. }
    inversion Hl as [Eps|ps c p Hl' Hc' Eps Hnone]; [by subst|]. subst pages.
    destruct (answer_survives (with_cursor q c) p) as (w & w' & page & Hq & He & Hn); [apply Hans; set_solver|].
    edestruct (linked_scroll q ps c Hl') as [tables Ht].
    { intros x p' Hin. apply Hans. set_solver. }
    { exact Hc'. }
    { eapply (Paging.scroll_last self context (trail_query (audit_request q)) (default [] c)); [exact Hq|]. congruence. }
    exists tables. eexists. split; [exact Ht|]. rewrite Hr. unfold drawn. rewrite flat_map_app. cbn [flat_map snd].
    by rewrite app_nil_r, He.
Qed.
End service.
End view.

(** *** Filters *)

Section filters.
Context `{QueryCrates}.

(** The query a form describes, whether or not it would be accepted. *)
Definition described (input : FilterInput) (element : option ConfigPath) : AuditQuery :=
  mkAuditQuery (if is_some element then None else Audit.non_empty (trim (i_path input))) element
    (Audit.non_empty (trim (i_text input))) (i_from input) (i_until input) (Audit.non_empty (trim (i_protocol_version input)))
    (if forallb (λ g, bool_decide (g ∈ i_groups input)) ALL then []
     else flat_map group_kinds (List.filter (λ g, bool_decide (g ∈ i_groups input)) ALL))
    0 None (Audit.non_empty (trim (i_actor input))).

Lemma default_non_empty s : default [] (Audit.non_empty s) = s.
Proof. by destruct s. Qed.

Lemma text_judged t :
  Audit.transpose Audit.free_text_fragment (Audit.non_empty t) = if long_text t then Err Audit.invalid_query else Ok (Audit.non_empty t).
Proof.
  destruct t as [|c t]; [done|]. unfold Audit.non_empty, Audit.transpose, Audit.free_text_fragment, long_text. cbn [is_empty].
  unfold Audit.MAX_TEXT_FILTER_CHARACTERS, MAX_TEXT_FILTER_CHARACTERS. rewrite Nat.leb_antisym.
  destruct (256 <? _)%nat; [done|]. by destruct (contains_byte _ _).
Qed.

Definition bad_version (version : bytes) : bool :=
  (MAX_PROTOCOL_VERSION_CHARACTERS <? length version)%nat
  || negb (forallb (λ c, is_ascii_lowercase c || is_ascii_digit c) version).

Lemma version_judged version :
  Audit.transpose (λ version : bytes,
    if (length version <=? Audit.MAX_PROTOCOL_VERSION_CHARACTERS)%nat
       && forallb (λ c, is_ascii_lowercase c || is_ascii_digit c) version
    then Ok version else Err Audit.invalid_query) (Audit.non_empty version)
  = if bad_version version then Err Audit.invalid_query else Ok (Audit.non_empty version).
Proof.
  destruct version as [|c s]; [done|]. unfold Audit.non_empty, Audit.transpose, bad_version. cbn [is_empty].
  unfold Audit.MAX_PROTOCOL_VERSION_CHARACTERS, MAX_PROTOCOL_VERSION_CHARACTERS. rewrite Nat.leb_antisym.
  destruct (32 <? _)%nat; [done|]. by destruct (forallb _ _).
Qed.

Definition bad_path (path : bytes) : bool :=
  (MAX_PATH_FILTER_CHARACTERS <? length path)%nat || negb (forallb Audit.path_character path).

Lemma path_judged path :
  Audit.transpose (λ fragment : bytes,
    if forallb Audit.path_character fragment && (length fragment <=? Audit.MAX_PATH_FILTER_CHARACTERS)%nat
    then Ok (to_ascii_lowercase fragment) else Err Audit.invalid_query) (Audit.non_empty path)
  = if bad_path path then Err Audit.invalid_query else Ok (to_ascii_lowercase <$> Audit.non_empty path).
Proof.
  destruct path as [|c s]; [done|]. unfold Audit.non_empty, Audit.transpose, bad_path. cbn [is_empty].
  unfold Audit.MAX_PATH_FILTER_CHARACTERS, MAX_PATH_FILTER_CHARACTERS. rewrite Nat.leb_antisym.
  destruct (forallb _ _), (512 <? _)%nat; done.
Qed.

(** Instants a form can hold that the service can represent. *)
Definition Sendable (t : Stamps.Timestamp) : Prop :=
  (0 ≤ Stamps.nanos t < 1000000000)%Z ∧ Audit.representable (Stamps.seconds t * Stamps.NANOS) = true.

Definition nanoseconds (t : Stamps.Timestamp) : Z := (Stamps.seconds t * Stamps.NANOS + Stamps.nanos t)%Z.

Lemma instant_judged o : (∀ t, o = Some t → Sendable t) → Audit.transpose Audit.instant o = Ok (nanoseconds <$> o).
Proof.
  destruct o as [t|]; [|done]. intros Ht. destruct (Ht t eq_refl) as [Hn Hr]. cbn. unfold Audit.instant.
  rewrite (proj2 (Z.leb_le _ _)), (proj2 (Z.ltb_lt _ _)) by lia. cbn. by rewrite Hr.
Qed.

Lemma after_nanoseconds a b : Sendable a → Sendable b → after a b = (nanoseconds b <? nanoseconds a)%Z.
Proof.
  intros [Ha _] [Hb _]. unfold after, nanoseconds, Stamps.NANOS.
  destruct (Z.ltb_spec (Stamps.seconds b) (Stamps.seconds a)); cbn [orb]; [symmetry; apply Z.ltb_lt; lia|].
  destruct (Z.eqb_spec (Stamps.seconds a) (Stamps.seconds b)) as [->|]; cbn [andb].
  - destruct (Z.ltb_spec (Stamps.nanos b) (Stamps.nanos a)); symmetry; [apply Z.ltb_lt|apply Z.ltb_ge]; lia.
  - symmetry. apply Z.ltb_ge. lia.
Qed.

Lemma kinds_travel ks : mapM kind_of_tag (List.map wire_kind ks) = Some ks.
Proof. induction ks as [|k ks IH]; [done|]. cbn in *. rewrite IH. by destruct k. Qed.

(** The kinds the ticked groups select: none named is every kind. *)
Lemma groups_select (groups : list KindGroup) k :
  let ks := if forallb (λ g, bool_decide (g ∈ groups)) ALL then []
            else flat_map group_kinds (List.filter (λ g, bool_decide (g ∈ groups)) ALL) in
  groups ≠ [] → (ks = [] ∨ k ∈ ks) ↔ ∃ g, g ∈ groups ∧ k ∈ group_kinds g.
Proof.
  intros ks Hne. assert (∀ g, g ∈ ALL) as Hall by (intros []; set_solver).
  assert (∃ g, k ∈ group_kinds g) as [gk Hgk].
  { exists (match k with
            | SecretRevealed => SecretReveals | SubtreeRead | ValuesListed => Reads
            | ConnectionCreated | ConnectionRotated | ConnectionRevoked => AccessUrls | _ => Changes
            end).
    apply (bool_decide_unpack _). by destruct k; vm_compute. }
  assert (∀ x, x ∈ flat_map group_kinds (List.filter (λ g, bool_decide (g ∈ groups)) ALL)
            ↔ ∃ g, g ∈ groups ∧ x ∈ group_kinds g) as Hin.
  { intros x. rewrite list_elem_of_In, in_flat_map. setoid_rewrite filter_In. setoid_rewrite bool_decide_eq_true.
    setoid_rewrite <- list_elem_of_In. split; [intros (g & [_ ?] & ?); by exists g|]. intros (g & ? & ?). exists g. by split_and!. }
  unfold ks. destruct (forallb _ ALL) eqn:E.
  - rewrite forallb_forall in E. split; [|by left]. intros _. exists gk. split; [|done].
    specialize (E gk). rewrite bool_decide_eq_true, <- list_elem_of_In in E. by apply E.
  - rewrite Hin. split; [|by right]. intros [Hnil|?]; [|done]. exfalso.
    destruct groups as [|g groups']; [done|]. assert (∃ x, x ∈ group_kinds g) as [x Hx] by (destruct g; eexists; left).
    assert (x ∈ flat_map group_kinds (List.filter (λ g0, bool_decide (g0 ∈ g :: groups')) ALL)) as Hx'.
    { apply Hin. exists g. split; [left|done]. }
    rewrite Hnil in Hx'. by apply elem_of_nil in Hx'.
Qed.
Definition bad_range (from until : option Stamps.Timestamp) : bool :=
  match from, until with Some f, Some u => after f u | _, _ => false end.

(** The path fragment that is sent. *)
Definition sent_path (input : FilterInput) (element : option ConfigPath) : bytes :=
  if is_some element then [] else trim (i_path input).

(** What the service makes of the query a form describes. *)
Lemma described_judged input element :
  (∀ p, element = Some p → Path.Canonical (path p) ∧ path p ≠ "/") →
  (∀ t, i_from input = Some t ∨ i_until input = Some t → Sendable t) →
  Audit.validate (trail_query (audit_request (described input element)))
  = if bad_path (sent_path input element) || long_text (trim (i_text input)) || long_text (trim (i_actor input))
       || bad_version (trim (i_protocol_version input)) || bad_range (i_from input) (i_until input)
    then Err Audit.invalid_query
    else Ok (Audit.mkValid (to_ascii_lowercase <$> Audit.non_empty (sent_path input element)) (Audit.element_scope <$> element)
               (Audit.non_empty (trim (i_text input))) (Audit.non_empty (trim (i_actor input)))
               (nanoseconds <$> i_from input) (nanoseconds <$> i_until input)
               (Audit.non_empty (trim (i_protocol_version input)))
               (List.map Vocabulary.as_str (kinds (described input element))) None).
Proof.
  intros Hel Hts. unfold Audit.validate.
  assert (Audit.path_filter (trail_query (audit_request (described input element))) = sent_path input element) as ->.
  { cbn. unfold sent_path. destruct (is_some element); [done|]. apply default_non_empty. }
  rewrite path_judged.
  assert (Audit.transpose (λ path, map_err (let? path := Path.parse_operation path in Ok (Audit.element_scope path)) (λ _, Audit.invalid_query))
            (Audit.non_empty (Audit.element_path (trail_query (audit_request (described input element)))))
          = Ok (Audit.element_scope <$> element)) as ->.
  { cbn. destruct element as [p|]; [|done]. destruct (Hel p eq_refl) as [Hc Hr]. cbn. unfold Path.as_str.
    assert (Path.parse_operation (path p) = Ok p) as Ep.
    { destruct p as [t]. cbn in *. apply Path.parse_operation_spec. split; [done|]. destruct Hc as (segs & Hs & ->).
      exists segs. split_and!; try done. by intros ->. }
    unfold Audit.non_empty. destruct (is_empty (path p)) eqn:Ee; [by destruct (path p)|]. cbn. by rewrite Ep. }
  cbn [Audit.text_filter Audit.actor_filter Audit.protocol_version Audit.from Audit.until Audit.kinds Audit.cursor
       trail_query audit_request described rq_text_filter rq_actor_filter rq_protocol_version rq_from rq_until rq_kinds rq_cursor
       text_filter actor_filter protocol_version from until kinds cursor].
  rewrite !default_non_empty, !text_judged, version_judged, !instant_judged, kinds_travel by auto.
  assert (match nanoseconds <$> i_from input, nanoseconds <$> i_until input with Some f, Some u => (u <? f)%Z | _, _ => false end
          = bad_range (i_from input) (i_until input)) as Erange.
  { unfold bad_range. destruct (i_from input) as [a|] eqn:Ea; [|done]. destruct (i_until input) as [b|] eqn:Eb; [|done]. cbn.
    symmetry. apply after_nanoseconds; apply Hts; auto. }
  assert (is_some (to_ascii_lowercase <$> Audit.non_empty (sent_path input element)) && is_some (Audit.element_scope <$> element) = false) as Eboth.
  { unfold sent_path. destruct element; [done|]. cbn. apply andb_false_r. }
  destruct (bad_path _); [done|]. cbn [and_then orb]. rewrite Eboth. destruct (long_text (trim (i_text input))); [done|].
  destruct (long_text (trim (i_actor input))); [done|]. destruct (bad_version _); [done|]. cbn [and_then orb ok_or]. rewrite Erange.
  by destruct (bad_range _ _).
Qed.

(** The errors of a form, by what is wrong with it. *)
Definition form_errors (input : FilterInput) (element : option ConfigPath) : list FilterError :=
  when (bad_path (sent_path input element))
       (mkFilterError "audit-path-filter" "use only letters, digits, _, - and /, at most 512 of them")
  ++ when (long_text (trim (i_text input))) (mkFilterError "audit-text-filter" "enter at most 256 characters")
  ++ when (long_text (trim (i_actor input))) (mkFilterError "audit-actor-filter" "enter at most 256 characters")
  ++ when (bad_version (trim (i_protocol_version input))) (mkFilterError "audit-protocol" "enter a version label such as v4")
  ++ when (bad_range (i_from input) (i_until input)) (mkFilterError "audit-until" "choose a time after the start of the range")
  ++ when (is_empty (i_groups input)) (mkFilterError "audit-kinds" "choose at least one kind of event").

Lemma form_judged input element :
  build_query input element
  = if is_empty (form_errors input element) then Ok (described input element) else Err (form_errors input element).
Proof.
  assert ((match (if negb (is_some element) && negb (is_empty (trim (i_path input))) then Some (trim (i_path input)) else None) with
           | Some path => (MAX_PATH_FILTER_CHARACTERS <? length path)%nat || negb (forallb Audit.path_character path)
           | None => false
           end) = bad_path (sent_path input element)) as Epath.
  { unfold sent_path. destruct element; [done|]. cbn [negb is_some andb]. by destruct (trim (i_path input)) eqn:E. }
  unfold build_query. rewrite Epath. fold (bad_version (trim (i_protocol_version input))).
  change (match i_from input with Some f => match i_until input with Some u => after f u | None => false end | None => false end)
    with (bad_range (i_from input) (i_until input)).
  fold (form_errors input element). destruct (is_empty (form_errors input element)); [|done]. cbn [negb].
  unfold described. destruct element; cbn; [done|]. by destruct (trim (i_path input)).
Qed.

Lemma form_clean input element :
  is_empty (form_errors input element)
  = negb (bad_path (sent_path input element) || long_text (trim (i_text input)) || long_text (trim (i_actor input))
          || bad_version (trim (i_protocol_version input)) || bad_range (i_from input) (i_until input)) && negb (is_empty (i_groups input)).
Proof.
  unfold form_errors. destruct (bad_path _), (long_text (trim (i_text input))), (long_text (trim (i_actor input))), (bad_version _),
    (bad_range _ _), (i_groups input); done.
Qed.

(** The forms with one filter of a form each, and all kinds ticked, under the
    field that filter is reported on. *)
Definition field_forms (input : FilterInput) : list (bytes * FilterInput) :=
  [("audit-path-filter" : bytes, mkInput (i_path input) [] [] None None [] ALL);
   ("audit-text-filter" : bytes, mkInput [] (i_text input) [] None None [] ALL);
   ("audit-actor-filter" : bytes, mkInput [] [] (i_actor input) None None [] ALL);
   ("audit-protocol" : bytes, mkInput [] [] [] None None (i_protocol_version input) ALL);
   ("audit-until" : bytes, mkInput [] [] [] (i_from input) (i_until input) [] ALL)].

(** The service refuses the query a form describes. *)
Definition refused (element : option ConfigPath) (input : FilterInput) : bool :=
  negb (is_ok (Audit.validate (trail_query (audit_request (described input element))))).

Lemma field_forms_refused input element :
  (∀ p, element = Some p → Path.Canonical (path p) ∧ path p ≠ "/") →
  (∀ t, i_from input = Some t ∨ i_until input = Some t → Sendable t) →
  List.map (λ '(field, form), (field, refused element form)) (field_forms input)
  = [("audit-path-filter" : bytes, bad_path (sent_path input element)); ("audit-text-filter" : bytes, long_text (trim (i_text input)));
     ("audit-actor-filter" : bytes, long_text (trim (i_actor input))); ("audit-protocol" : bytes, bad_version (trim (i_protocol_version input)));
     ("audit-until" : bytes, bad_range (i_from input) (i_until input))].
Proof.
  intros Hel Hts.
  assert (∀ form, (∀ t, i_from form = Some t ∨ i_until form = Some t → Sendable t) → refused element form
    = (bad_path (sent_path form element) || long_text (trim (i_text form)) || long_text (trim (i_actor form))
       || bad_version (trim (i_protocol_version form)) || bad_range (i_from form) (i_until form))) as Hr.
  { intros form Hf. unfold refused. rewrite described_judged by done. by destruct (_ || bad_range _ _). }
  assert (bad_path (if is_some element then [] else trim []) = false) as E1 by (by destruct element).
  cbn [field_forms List.map]. rewrite !Hr by (cbn; auto; intros ? [?|?]; done). unfold sent_path.
  cbn [i_path i_text i_actor i_from i_until i_protocol_version]. rewrite !E1.
  change (long_text (trim [])) with false. change (bad_version (trim [])) with false. change (bad_range None None) with false.
  by rewrite !orb_false_r, ?orb_false_l.
Qed.

(** C33: the form judges a filter as the service does.  A form whose instants the
    service can represent and with some kind of event ticked is accepted exactly
    when the service accepts the query it describes, which is what is sent; the
    kinds the service then selects are those of the ticked groups.  A form that
    is refused is refused for exactly those fields whose filter alone the service
    would refuse, each reported once and in the order of the form, and for the
    kinds when none is ticked, which the service would take for all. *)
Theorem filters_are_judged_as_the_service_judges_them input element :
  (∀ p, element = Some p → Path.Canonical (path p) ∧ path p ≠ "/") →
  (∀ t, i_from input = Some t ∨ i_until input = Some t → Sendable t) →
  let judged := Audit.validate (trail_query (audit_request (described input element))) in
  ((∃ q, build_query input element = Ok q) ↔ i_groups input ≠ [] ∧ ∃ v, judged = Ok v)
  ∧ (∀ q, build_query input element = Ok q → q = described input element)
  ∧ (∀ v, i_groups input ≠ [] → judged = Ok v →
       ∀ k, (is_empty (Audit.v_kinds v) || bool_decide (Vocabulary.as_str k ∈ Audit.v_kinds v) = true)
            ↔ ∃ g, g ∈ i_groups input ∧ k ∈ group_kinds g)
  ∧ (∀ errors, build_query input element = Err errors →
       NoDup (List.map fe_field errors)
       ∧ List.map fe_field errors
         = List.map fst (List.filter (λ '(field, form), refused element form) (field_forms input))
           ++ (if is_empty (i_groups input) then ["audit-kinds" : bytes] else [])).
Proof.
  intros Hel Hts judged. unfold judged. rewrite (described_judged _ _ Hel Hts), form_judged, form_clean. split_and!.
  - destruct (_ || bad_range _ _); cbn [negb andb]; [split; [by intros [? ?]|by intros (_ & ? & ?)]|].
    destruct (i_groups input); cbn; [split; [by intros [? ?]|by intros [? _]]|]. split; intros _; [by split; [|eexists]|by eexists].
  - intros q. destruct (_ && _); [|done]. by intros [= <-].
  - intros v Hne. set (ks := kinds (described input element)). clearbody judged. destruct (_ || bad_range _ _); [done|].
    intros Hv k. assert (Audit.v_kinds v = List.map Vocabulary.as_str ks) as -> by (by injection Hv as <-). 
    pose proof (groups_select (i_groups input) k Hne) as Hsel. cbv zeta in Hsel. change (if forallb _ ALL then _ else _) with ks in Hsel. rewrite <- Hsel. clear Hsel.
    rewrite orb_true_iff, bool_decide_eq_true.
    assert (is_empty (List.map Vocabulary.as_str ks) = true ↔ ks = []) as -> by (destruct ks; naive_solver).
    assert (Vocabulary.as_str k ∈ List.map Vocabulary.as_str ks ↔ k ∈ ks) as ->; [|done].
    rewrite !list_elem_of_In, in_map_iff. split; [|by exists k]. intros (k' & E & Hin).
    assert (k' = k) as <-; [|done]. destruct k', k; done.
  - intros errors. destruct (_ && _); [done|]. intros [= <-].
    pose proof (field_forms_refused input element Hel Hts) as Hf. unfold form_errors, field_forms in *. cbn [List.map] in Hf.
    injection Hf as E1 E2 E3 E4 E5. cbn [List.filter]. rewrite E1, E2, E3, E4, E5. clear.
    destruct (bad_path _), (long_text (trim (i_text input))), (long_text (trim (i_actor input))), (bad_version _),
      (bad_range _ _), (is_empty _); (split; [apply (bool_decide_unpack _); by vm_compute|done]).
Qed.
End filters.

(** ** A view of a small trail *)

Module Sample.
Import Trails Values.Sample.

Definition format_timestamp (t : Stamps.Timestamp) : bytes := show_Z (Stamps.seconds t).

(** The service reads one event a page. *)
Definition reply (q : AuditQuery) : result AuditPage ClientError :=
  match query_audit_trail service owner (audit_request q) with_secret with
  | (Ok response, _) => page_of response
  | (Err _, _) => Err browser_error
  end.

Lemma reply_answered q p : reply q = Ok p → answered service owner q p.
Proof.
  unfold reply, answered. destruct (query_audit_trail _ _ _ _) as [[response|] w'] eqn:E; [|done]. intros Hp.
  by exists with_secret, w', response.
Qed.

Definition whole_trail : AuditQuery := described (default_form false) None.
Definition first_request : PageRequest := mkPageRequest 1 (with_cursor whole_trail None).
Definition first_cursor : option bytes := match reply (pr_query first_request) with Ok p => next_cursor p | Err _ => None end.
Definition second_request : PageRequest := mkPageRequest 1 (with_cursor whole_trail first_cursor).
Definition outage : ClientError := mkClientError Core.Unavailable "service is unavailable".

(** The view is opened and scrolled; the second page fails once. *)
Definition visit : list Event :=
  [Show (Nav.Audit None); Load; Scrolled; Reply first_request (reply (pr_query first_request)) true; Scrolled;
   Reply second_request (Err outage) true; Scrolled; Retry; Reply second_request (reply (pr_query second_request)) true].

Definition seen (n : nat) : nat * FeedState * bytes * option bytes :=
  let v := foldl (on_event format_timestamp) View.start (take n visit) in
  (length (rows v), feed_state (feed v), audit_state v, page_error v).

Example the_view_scrolls :
  [seen 2; seen 4; seen 5; seen 6; seen 7; seen 8; seen 9]
  = [(0, Loading, "Loading", None); (1, Idle, "2 events", None); (1, Loading, "Loading more", None);
     (1, Failed, "Error", Some (Core.message outage)); (1, Failed, "Error", Some (Core.message outage));
     (1, Loading, "Loading more", None); (2, Ended, "2 events", None)].
Proof. vm_compute. reflexivity. Qed.

Definition served (e : Event) : Prop :=
  match e with Reply r (Ok p) _ => answered service owner (pr_query r) p | _ => True end.

Lemma reply_served r d : served (Reply r (reply (pr_query r)) d).
Proof. cbn. destruct (reply (pr_query r)) as [p|] eqn:E; [by apply reply_answered|done]. Qed.

Lemma visit_served g x p d : Reply (mkPageRequest g x) (Ok p) d ∈ visit → answered service owner x p.
Proof.
  assert (Forall served visit) as H.
  { do 3 (apply List.Forall_cons; [exact I|]). apply List.Forall_cons; [exact (reply_served first_request true)|].
    do 4 (apply List.Forall_cons; [exact I|]). apply List.Forall_cons; [exact (reply_served second_request true)|]. constructor. }
  rewrite Forall_forall in H. exact (H (Reply (mkPageRequest g x) (Ok p) d)).
Qed.

Lemma the_list_is_one_scroll_witness :
  ∃ tables entries,
    Paging.scroll service owner (trail_query (audit_request (query (feed (foldl (on_event format_timestamp) View.start visit))))) [] tables entries
    ∧ rows (foldl (on_event format_timestamp) View.start visit) = List.map (render_event format_timestamp) entries.
Proof.
  destruct (the_list_is_one_scroll format_timestamp service owner visit) as (_ & _ & _ & _ & H); [reflexivity|].
  apply H; [vm_compute; reflexivity|vm_compute; reflexivity|exact visit_served].
Defined.

(** A filter with a fragment, an actor and a range of instants, on a value's history. *)
Definition typed : FilterInput :=
  mkInput "ignored /" " rotated  " "ops" (timestamp_from_millis (F64.of_Z 1700000000000))
    (end_of_minute <$> timestamp_from_millis (F64.of_Z 1700000000000)) "v5" [SecretReveals; Reads].

Example instants_of_the_form :
  (timestamp_from_millis (F64.of_Z 1700000000123), timestamp_from_millis (F64.of_Z (-1)), timestamp_from_millis S754_nan)
  = (Some (Stamps.mkTimestamp 1700000000 123000000), Some (Stamps.mkTimestamp (-1) 999000000), None).
Proof. vm_compute. reflexivity. Qed.

Lemma filters_are_judged_as_the_service_judges_them_witness :
  ∃ q, build_query typed (Some (mkPath "/apps/url")) = Ok q.
Proof.
  refine (proj2 (proj1 (filters_are_judged_as_the_service_judges_them typed (Some (mkPath "/apps/url")) _ _)) _).
  - intros p [= <-]. split; [apply (Path.parse_operation_canonical "/apps/url" (mkPath "/apps/url")); vm_compute; reflexivity|done].
  - intros t [H|H]; vm_compute in H; injection H as <-; (split; [vm_compute; split; [discriminate|reflexivity]|vm_compute; reflexivity]).
  - split; [discriminate|]. eexists. vm_compute. reflexivity.
Defined.

(** A year a browser's date field takes and the service does not represent. *)
Example far_years_are_refused_late :
  let input := mkInput [] [] [] (timestamp_from_millis (F64.of_Z 253402300800000)) None [] [Changes] in
  match build_query input None with Ok q => Audit.validate (trail_query (audit_request q)) = Err Audit.invalid_query | Err _ => False end.
Proof. vm_compute. reflexivity. Qed.
End Sample.
End View.
