(* ===== verification/WebTrace.v ===== *)
(** * What the web application says about itself

    Models [crates/sovereign-config-web/src/telemetry/context.rs], [span.rs] and
    [record.rs], with the calls of [telemetry/mod.rs] and [grpc_unary] of
    [transport/mod.rs], which makes them: the trace of a user action, its spans and
    log records, and their OTLP/JSON form.  An action's calls begin and end in any
    order, while telemetry is on or off; its spans are those it has when it ends. *)

From Stdlib Require Import SpecFloat.
From stdpp Require Import strings.
From S2P Require Import Prelude Float64 Bytes ConfigPath Core JsonValue Session WebWire.

Local Open Scope bytes_scope.

Module Trace.

(** ** Contexts *)

Record TraceContext := mkContext { trace_id : bytes; span_id : bytes }.
#[global] Instance TraceContext_eq_dec : EqDecision TraceContext.
Proof. solve_decision. Defined.

Definition all_zero (s : bytes) : bool := forallb (λ c, bool_decide (c = "000"%char)) s.

(** An identifier that came out all zero gets its last byte set. *)
Definition nonzero (id : bytes) : bytes := if all_zero id then removelast id ++ ["001"%char] else id.

(** From 24 random bytes, and from 8 more. *)
Definition from_random (random : bytes) : TraceContext := mkContext (nonzero (take 16 random)) (nonzero (drop 16 random)).
Definition child (c : TraceContext) (random : bytes) : TraceContext := mkContext (trace_id c) (nonzero random).

Definition hex_digit (n : Z) : ascii := byte (if (n <? 10)%Z then 48 + n else 87 + n).
Definition hex (s : bytes) : bytes := flat_map (λ c, [hex_digit (code c / 16); hex_digit (code c mod 16)]) s.

Definition traceparent (c : TraceContext) : bytes := "00-" ++ hex (trace_id c) ++ "-" ++ hex (span_id c) ++ "-01".

(** ** Records *)

Definition SERVICE_NAME : bytes := "sovereign-config-web".

Inductive Key :=
| RpcSystem | RpcSystemName | RpcService | RpcMethod | RpcResponseStatusCode | ErrorType | DurationMs | ProtocolVersion
| RpcCount.

Definition key_str (k : Key) : bytes :=
  match k with
  | RpcSystem => "rpc.system" | RpcSystemName => "rpc.system.name" | RpcService => "rpc.service" | RpcMethod => "rpc.method"
  | RpcResponseStatusCode => "rpc.response.status_code" | ErrorType => "error.type"
  | DurationMs => "sovereign_config.client.duration_ms" | ProtocolVersion => "sovereign_config.protocol.version"
  | RpcCount => "sovereign_config.client.rpc_count"
  end.

Inductive AttributeValue := Text (text : bytes) | Integer (n : Z).
Inductive Severity := Info | Warn.

Definition severity_number (s : Severity) : Z := match s with Info => 9 | Warn => 13 end.
Definition severity_text (s : Severity) : bytes := match s with Info => "INFO" | Warn => "WARN" end.

Record LogRecord := mkRecord {
  time_unix_ms : spec_float; severity : Severity; record_body : bytes; record_attributes : list (Key * AttributeValue);
  record_context : option TraceContext }.

Definition error_type (kind : ErrorKind) : bytes :=
  match kind with
  | Unauthenticated => "unauthenticated" | PermissionDenied => "permission_denied"
  | IncompatibleProtocol => "incompatible_protocol" | VersionNotServed => "version_not_served"
  | InvalidRequest => "invalid_request" | NotFound => "not_found" | Conflict => "conflict"
  | Unavailable => "unavailable" | Internal => "internal"
  end.

Definition is_some {A} (o : option A) : bool := match o with Some _ => true | None => false end.

(** [Record::rpc] *)
Definition rpc_record (time_unix_ms : spec_float) (route : bytes) (duration_ms : spec_float) (error : option ErrorKind)
    (context : option TraceContext) : LogRecord :=
  let '(service, method) := default (route, []) (split_once "/"%char (trim_start_matches "/"%char route)) in
  mkRecord time_unix_ms (if is_some error then Warn else Info)
    (if is_some error then "gRPC-Web call failed" else "gRPC-Web call completed")
    ([(RpcSystem, Text "grpc"); (RpcService, Text service); (RpcMethod, Text method);
      (DurationMs, Integer (F64.cast F64.round F64.i64_min F64.i64_max (F64.max duration_ms F64.zero)))]
     ++ match error with Some kind => [(ErrorType, Text (error_type kind))] | None => [] end)
    context.

Definition unix_nanos (unix_ms : spec_float) : bytes :=
  show_Z (F64.cast F64.round 0 F64.u64_max (F64.max unix_ms F64.zero)) ++ "000000".

Definition attribute (key : bytes) (value : AttributeValue) : Value :=
  let value := match value with
               | Text text => VObject [("stringValue" : bytes, VString text)]
               | Integer number => VObject [("intValue" : bytes, VString (show_Z number))]
               end in
  VObject [("key" : bytes, VString key); ("value" : bytes, value)].

Definition attributes_otlp (l : list (Key * AttributeValue)) : Value := VArray (List.map (λ kv, attribute (key_str kv.1) kv.2) l).

Definition record_to_otlp (r : LogRecord) : Value :=
  let nanos := unix_nanos (time_unix_ms r) in
  VObject
    ([("timeUnixNano" : bytes, VString nanos); ("observedTimeUnixNano" : bytes, VString nanos);
      ("severityNumber" : bytes, VNumber (severity_number (severity r)));
      ("severityText" : bytes, VString (severity_text (severity r)));
      ("body" : bytes, VObject [("stringValue" : bytes, VString (record_body r))]);
      ("attributes" : bytes, attributes_otlp (record_attributes r))]
     ++ match record_context r with
        | Some c => [("traceId" : bytes, VString (hex (trace_id c))); ("spanId" : bytes, VString (hex (span_id c)));
                     ("flags" : bytes, VNumber 1)]
        | None => []
        end).

(** ** Spans *)

Inductive ActionKind :=
| PageLoad | LoadDownloads | Navigate | HistoryNavigate | LogIn | ToggleJsonMode | SaveJson | CreateValue | SaveValue
| SaveSecret | RevealSecret | DeleteValue | AddPath | RefreshPathOptions | CopyCommand | CreateConnection
| RotateConnection | RevokeConnection | CopyConnectionUrl | FilterAudit | RetryAudit | NextAuditPage.

Definition action_name (k : ActionKind) : bytes :=
  match k with
  | PageLoad => "page_load" | LoadDownloads => "load_downloads" | Navigate => "navigate"
  | HistoryNavigate => "history_navigate" | LogIn => "log_in" | ToggleJsonMode => "toggle_json_mode"
  | SaveJson => "save_json" | CreateValue => "create_value" | SaveValue => "save_value" | SaveSecret => "save_secret"
  | RevealSecret => "reveal_secret" | DeleteValue => "delete_value" | AddPath => "add_path"
  | RefreshPathOptions => "refresh_path_options" | CopyCommand => "copy_command"
  | CreateConnection => "create_connection" | RotateConnection => "rotate_connection"
  | RevokeConnection => "revoke_connection" | CopyConnectionUrl => "copy_connection_url"
  | FilterAudit => "filter_audit" | RetryAudit => "retry_audit" | NextAuditPage => "next_audit_page"
  end.

Inductive SpanKind := SpanInternal | SpanClient.
Definition kind_number (k : SpanKind) : Z := match k with SpanInternal => 1 | SpanClient => 3 end.

Record Span := mkSpan {
  span_name : bytes; span_kind : SpanKind; span_context : TraceContext; span_parent : option TraceContext;
  start_unix_ms : spec_float; end_unix_ms : spec_float; span_attributes : list (Key * AttributeValue); span_failed : bool }.

(** [Span::action] *)
Definition action_span (kind : ActionKind) (context : TraceContext) (start end_ : spec_float) (calls failed_calls : Z) : Span :=
  mkSpan (action_name kind) SpanInternal context None start (F64.max end_ start) [(RpcCount, Integer calls)]
    (0 <? failed_calls)%Z.

Definition protocol_version (method : bytes) : option bytes :=
  match (rest ← strip_prefix "sovereign.config." method; split_once "."%char rest) with
  | Some (version, _) => if contains_byte "/"%char version then None else Some version
  | None => None
  end.

Definition GRPC_CODES : list bytes :=
  ["OK"; "CANCELLED"; "UNKNOWN"; "INVALID_ARGUMENT"; "DEADLINE_EXCEEDED"; "NOT_FOUND"; "ALREADY_EXISTS";
   "PERMISSION_DENIED"; "RESOURCE_EXHAUSTED"; "FAILED_PRECONDITION"; "ABORTED"; "OUT_OF_RANGE"; "UNIMPLEMENTED";
   "INTERNAL"; "UNAVAILABLE"; "DATA_LOSS"; "UNAUTHENTICATED"].
Definition grpc_code_name (code : Z) : option bytes := GRPC_CODES !! Z.to_nat code.

(** [Span::rpc] *)
Definition rpc_span (route : bytes) (context parent : TraceContext) (start end_ : spec_float) (status : option Z)
    (error : option ErrorKind) : Span :=
  let method := default route (strip_prefix "/" route) in
  let status_name := status ≫= grpc_code_name in
  let failed := is_some error || match status with Some code => negb (code =? 0)%Z | None => false end in
  let other := match error with Some kind => error_type kind | None => "_OTHER" end in
  let error_type := match status, status_name with
                    | Some code, Some name => if (code =? 0)%Z then other else name
                    | _, _ => other
                    end in
  mkSpan method SpanClient context (Some parent) start (F64.max end_ start)
    ([(RpcSystemName, Text "grpc"); (RpcMethod, Text method)]
     ++ match protocol_version method with Some version => [(ProtocolVersion, Text version)] | None => [] end
     ++ match status_name with Some name => [(RpcResponseStatusCode, Text name)] | None => [] end
     ++ (if failed then [(ErrorType, Text error_type)] else []))
    failed.

Definition span_to_otlp (s : Span) : Value :=
  VObject
    ([("traceId" : bytes, VString (hex (trace_id (span_context s)))); ("spanId" : bytes, VString (hex (span_id (span_context s))));
      ("flags" : bytes, VNumber 1); ("name" : bytes, VString (span_name s)); ("kind" : bytes, VNumber (kind_number (span_kind s)));
      ("startTimeUnixNano" : bytes, VString (unix_nanos (start_unix_ms s)));
      ("endTimeUnixNano" : bytes, VString (unix_nanos (end_unix_ms s))); ("attributes" : bytes, attributes_otlp (span_attributes s))]
     ++ match span_parent s with Some p => [("parentSpanId" : bytes, VString (hex (span_id p)))] | None => [] end
     ++ (if span_failed s then [("status" : bytes, VObject [("code" : bytes, VNumber 2)])] else [])).

(** ** Requests *)

Section requests.
(** [Value::to_string] *)
Context (json_text : Value → bytes).

Definition resource_and_scope (service_version : bytes) : Value * Value :=
  (VObject [("attributes" : bytes, VArray
     [VObject [("key" : bytes, VString "service.name"); ("value" : bytes, VObject [("stringValue" : bytes, VString SERVICE_NAME)])];
      VObject [("key" : bytes, VString "service.version"); ("value" : bytes, VObject [("stringValue" : bytes, VString service_version)])]])],
   VObject [("name" : bytes, VString SERVICE_NAME); ("version" : bytes, VString service_version)]).

Definition DQ : bytes := [byte 34].
Definition quoted (s : bytes) : bytes := DQ ++ s ++ DQ.

(** One resource and one scope around the encoded items. *)
Definition envelope (resources scopes items : bytes) (service_version : bytes) (encoded : list bytes) : bytes :=
  let '(resource, scope) := resource_and_scope service_version in
  "{" ++ quoted resources ++ ":[{" ++ quoted "resource" ++ ":" ++ json_text resource ++ "," ++ quoted scopes ++ ":[{"
  ++ quoted "scope" ++ ":" ++ json_text scope ++ "," ++ quoted items ++ ":[" ++ join "," encoded ++ "]}]}]}".

Definition logs_request : bytes → list bytes → bytes := envelope "resourceLogs" "scopeLogs" "logRecords".
Definition traces_request : bytes → list bytes → bytes := envelope "resourceSpans" "scopeSpans" "spans".
End requests.

(** ** Actions and their calls *)

Definition MAX_CALLS_PER_ACTION : nat := 64.
Definition u32_max : Z := 4294967295.

Record Action := mkAction {
  context : TraceContext; kind : ActionKind; started_unix_ms : spec_float; calls : Z; failed_calls : Z; reserved : nat;
  spans : list Span }.

Definition new_action (context : TraceContext) (kind : ActionKind) (started : spec_float) : Action :=
  mkAction context kind started 0 0 0 [].

Definition reserve_span (a : Action) : bool * Action :=
  if (reserved a <? MAX_CALLS_PER_ACTION)%nat
  then (true, mkAction (context a) (kind a) (started_unix_ms a) (calls a) (failed_calls a) (S (reserved a)) (spans a))
  else (false, a).

Definition saturating_succ (n : Z) : Z := Z.min (n + 1) u32_max.

Definition add_call (a : Action) (span : Span) (own_span : bool) : Action :=
  mkAction (context a) (kind a) (started_unix_ms a) (saturating_succ (calls a))
    (if span_failed span then saturating_succ (failed_calls a) else failed_calls a) (reserved a)
    (if own_span then spans a ++ [span] else spans a).

Definition finish (a : Action) (end_unix_ms : spec_float) : list Span :=
  if (calls a =? 0)%Z then []
  else action_span (kind a) (context a) (started_unix_ms a) end_unix_ms (calls a) (failed_calls a) :: spans a.

(** A call: its route, when it began, the context it names as the parent of what
    the server does, and whether that is a span of its own.  A call outside any
    action has none. *)
Record Call := mkCall { route : bytes; started_ms : spec_float; call_context : option TraceContext; own_span : bool }.

Definition call_traceparent (c : Call) : option bytes := traceparent <$> call_context c.

Definition begin_call (a : option Action) (route : bytes) (now : spec_float) (random : bytes) : option Action * Call :=
  match a with
  | Some a =>
      let '(granted, a) := reserve_span a in
      (Some a, mkCall route now (Some (if granted then child (context a) random else context a)) granted)
  | None => (None, mkCall route now None false)
  end.

(** Its record, and the action with its span. *)
Definition end_call (enabled : bool) (a : option Action) (c : Call) (now : spec_float) (status : option Z)
    (error : option ClientError) : option Action * option LogRecord :=
  if negb enabled then (a, None)
  else
    let kind := Core.kind <$> error in
    (match a, call_context c with
     | Some a, Some context_ =>
         Some (add_call a (rpc_span (route c) context_ (context a) (started_ms c) now status kind) (own_span c))
     | _, _ => a
     end, Some (rpc_record now (route c) (F64.sub now (started_ms c)) kind (call_context c))).

(** [end_action]: the spans that leave when the action ends. *)
Definition leaving (enabled logged_in : bool) (a : option Action) (end_ : spec_float) : list Span :=
  match a with
  | Some a => if enabled then (let spans := finish a end_ in if is_empty spans || negb logged_in then [] else spans) else []
  | None => []
  end.

(** An action under way: its open calls, and those that ended while telemetry was
    on, and while it was off. *)
Record Running := mkRunning {
  action : option Action; open_calls : list Call; ended : list (Call * option Z * option ClientError); unseen : list Call }.

Inductive Event :=
| Begins (route : bytes) (now : spec_float) (random : bytes)
| Ends (index : nat) (enabled : bool) (now : spec_float) (status : option Z) (error : option ClientError).

Definition on_event (s : Running) (e : Event) : Running :=
  match e with
  | Begins route now random =>
      let '(a, c) := begin_call (action s) route now random in mkRunning a (open_calls s ++ [c]) (ended s) (unseen s)
  | Ends index enabled now status error =>
      match open_calls s !! index with
      | Some c => mkRunning (end_call enabled (action s) c now status error).1
                    (take index (open_calls s) ++ drop (S index) (open_calls s))
                    (if enabled then ended s ++ [(c, status, error)] else ended s)
                    (if enabled then unseen s else unseen s ++ [c])
      | None => s
      end
  end.

Definition began (random : bytes) (kind : ActionKind) (now : spec_float) : Running :=
  mkRunning (Some (new_action (from_random random) kind now)) [] [] [].

(** ** A call of the transport *)

(** What [fetch] comes to: the browser refuses the request, it is not answered, or
    it is, with its [ok], its two gRPC headers and, unless it cannot be read, its
    body. *)
Inductive Fetched :=
| Refused
| Unreached
| Responded (ok : bool) (grpc_status error_kind : option bytes) (body : option bytes).

Section unary.
(** The browser, given a URL, a method, headers and a body; and the decoder of the
    reply's message. *)
Context {R : Type} (browser : bytes → bytes → list (bytes * bytes) → bytes → Fetched) (decode : bytes → option R).

(** [None] is a panic. *)
Definition grpc_unary_call (path encoded : bytes) (bearer : option Secret) (traceparent : option bytes)
    : option (result R ClientError * option Z) :=
  match GrpcWeb.framed encoded with
  | Err e => Some (Err e, None)
  | Ok body =>
      match browser path "POST" (GrpcWeb.request_headers traceparent bearer) body with
      | Refused => Some (Err GrpcWeb.browser_error, None)
      | Unreached => Some (Err (map_rpc_status RpcUnavailable), None)
      | Responded ok status kind content =>
          if negb ok then Some (Err (map_rpc_status RpcUnavailable), None)
          else match content with
               | None => Some (Err GrpcWeb.browser_error, None)
               | Some answer => GrpcWeb.decode_grpc_web_answer decode answer (status ≫= GrpcWeb.parse_u16) kind
               end
      end
  end.

(** [meanwhile] is what the action's other calls make of it before this one ends. *)
Definition grpc_unary (enabled : bool) (a : option Action) (meanwhile : option Action → option Action)
    (path encoded : bytes) (bearer : option Secret) (started : spec_float) (random : bytes) (now : spec_float)
    : option (result R ClientError * (option Action * option LogRecord)) :=
  let '(a, c) := begin_call a path started random in
  '(outcome, status) ← grpc_unary_call path encoded bearer (call_traceparent c);
  Some (outcome, end_call enabled (meanwhile a) c now status (match outcome with Ok _ => None | Err e => Some e end)).
End unary.

(** ** Theorems *)

Definition failed (status : option Z) (error : option ClientError) : bool :=
  is_some error || match status with Some code => negb (code =? 0)%Z | None => false end.

(** An identifier of so many bytes that may be sent. *)
Definition Identifier (n : nat) (id : bytes) : Prop := length id = n ∧ all_zero id = false.

Lemma nonzero_identifier n id : length id = S n → Identifier (S n) (nonzero id).
Proof.
  intros Hl. unfold nonzero, Identifier. destruct (all_zero id) eqn:E; [|done].
  assert (id ≠ []) as Hne by by destruct id. rewrite (app_removelast_last "000"%char Hne), length_app in Hl. cbn in Hl.
  rewrite length_app. cbn. split; [lia|]. unfold all_zero. rewrite forallb_app. cbn. by rewrite andb_false_r.
Qed.

Definition lower_hex (c : ascii) : bool := is_ascii_digit c || (97 <=? code c)%Z && (code c <=? 102)%Z.

Lemma hex_digit_lower n : (0 ≤ n < 16)%Z → lower_hex (hex_digit n) = true.
Proof.
  intros Hn. assert (n = 0 ∨ n = 1 ∨ n = 2 ∨ n = 3 ∨ n = 4 ∨ n = 5 ∨ n = 6 ∨ n = 7 ∨ n = 8 ∨ n = 9 ∨ n = 10 ∨ n = 11 ∨ n = 12
    ∨ n = 13 ∨ n = 14 ∨ n = 15)%Z as H by lia. by repeat destruct H as [->|H]; subst; vm_compute.
Qed.

Lemma hex_shape s : length (hex s) = 2 * length s ∧ forallb lower_hex (hex s) = true.
Proof.
  induction s as [|c s [IH1 IH2]]; [done|]. cbn [hex flat_map app length]. fold (hex s). split; [lia|].
  cbn. fold (hex s). rewrite IH2.
  assert (0 ≤ code c < 256)%Z as Hc by (unfold code; pose proof (N_ascii_bounded c); lia).
  rewrite !hex_digit_lower; [done| |]; Z.to_euclidean_division_equations; lia.
Qed.

(** What holds of an action's calls and spans at any time. *)
Record Inv (root : TraceContext) (s : Running) (a : Action) : Prop := {
  inv_action : action s = Some a;
  inv_root : context a = root;
  inv_reserved : reserved a ≤ MAX_CALLS_PER_ACTION
    ∧ length (spans a) + length (List.filter own_span (open_calls s)) ≤ reserved a;
  inv_calls : calls a = Z.min (Z.of_nat (length (ended s))) u32_max
    ∧ failed_calls a = Z.min (Z.of_nat (length (List.filter (λ c, failed c.1.2 c.2) (ended s)))) u32_max;
  inv_contexts : ∀ c, c ∈ open_calls s ∨ c ∈ unseen s ∨ (∃ st er, (c, st, er) ∈ ended s) →
    ∃ x, call_context c = Some x ∧ trace_id x = trace_id root ∧ Identifier 8 (span_id x) ∧ (own_span c = false → x = root);
  inv_children : ∀ sp, sp ∈ spans a → span_parent sp = Some root ∧ trace_id (span_context sp) = trace_id root;
  inv_ended : ∀ c st er, (c, st, er) ∈ ended s → own_span c = true →
    ∃ sp, sp ∈ spans a ∧ call_context c = Some (span_context sp) ∧ span_failed sp = failed st er }.

Definition Drawn (e : Event) : Prop := match e with Begins _ _ random => length random = 8 | Ends _ _ _ _ _ => True end.

Lemma saturating_min n : (0 ≤ n)%Z → saturating_succ (Z.min n u32_max) = Z.min (n + 1) u32_max.
Proof. unfold saturating_succ, u32_max. lia. Qed.

Lemma filter_length_snoc {A} (f : A → bool) l x :
  Z.of_nat (length (List.filter f (l ++ [x]))) = (Z.of_nat (length (List.filter f l)) + (if f x then 1 else 0))%Z.
Proof. rewrite List.filter_app, length_app. cbn. destruct (f x); cbn; lia. Qed.

Lemma trace_begin root s a route now random : Identifier 8 (span_id root) → length random = 8 → Inv root s a →
  ∃ a', Inv root (on_event s (Begins route now random)) a'.
Proof.
  intros Hid Hr [H0 H1 [H2 H2'] [H3 H3'] H4 H5 H6]. cbn [on_event]. unfold begin_call, reserve_span. rewrite H0.
  destruct (Nat.ltb_spec (reserved a) MAX_CALLS_PER_ACTION) as [Hlt|Hge]; eexists; split; cbn; try done.
  - rewrite List.filter_app, length_app. cbn. lia.
  - intros c [[Hc|Hc]%elem_of_app|Hc]; [by apply H4; left| |by apply H4; right].
    apply list_elem_of_singleton in Hc as ->. eexists. split; [done|]. cbn. rewrite H1.
    split_and!; [done|by apply nonzero_identifier|done].
  - rewrite List.filter_app, length_app. cbn. lia.
  - intros c [[Hc|Hc]%elem_of_app|Hc]; [by apply H4; left| |by apply H4; right].
    apply list_elem_of_singleton in Hc as ->. exists (context a). cbn. by rewrite H1.
Qed.

Lemma open_taken {A} i (l : list A) c : l !! i = Some c → ∀ x, x ∈ take i l ++ drop (S i) l → x ∈ l.
Proof. intros Hc x Hx. rewrite <- (take_drop_middle _ _ _ Hc). apply elem_of_app in Hx as [?|?]; set_solver. Qed.

Lemma own_taken i l c : l !! i = Some c →
  length (List.filter own_span l) = length (List.filter own_span (take i l ++ drop (S i) l)) + (if own_span c then 1 else 0).
Proof.
  intros Hc. rewrite <- (take_drop_middle _ _ _ Hc) at 1. rewrite !List.filter_app, !length_app. cbn.
  destruct (own_span c); cbn; lia.
Qed.

Lemma trace_end_unseen root s a index now status error :
  Inv root s a → ∃ a', Inv root (on_event s (Ends index false now status error)) a'.
Proof.
  intros HI. pose proof HI as [H0 H1 [H2 H2'] [H3 H3'] H4 H5 H6]. cbn [on_event].
  destruct (open_calls s !! index) as [c|] eqn:Ec; [|by exists a].
  exists a. split; cbn; try done.
  - rewrite (own_taken _ _ _ Ec) in H2'. split; [done|lia].
  - intros y [Hy|[[Hy|Hy]%elem_of_app|Hy]]; apply H4; [left; by eapply open_taken|by right; left| |by right; right].
    apply list_elem_of_singleton in Hy as ->. left. by apply list_elem_of_lookup_2 in Ec.
Qed.

Lemma trace_end root s a index now status error :
  Inv root s a → ∃ a', Inv root (on_event s (Ends index true now status error)) a'.
Proof.
  intros HI. pose proof HI as [H0 H1 [H2 H2'] [H3 H3'] H4 H5 H6]. cbn [on_event].
  destruct (open_calls s !! index) as [c|] eqn:Ec; [|by exists a].
  assert (c ∈ open_calls s) as Hin by (by apply list_elem_of_lookup_2 in Ec).
  destruct (H4 c (or_introl Hin)) as (x & Ex & Ht & _).
  unfold end_call. rewrite H0, Ex. cbn [negb fst]. eexists.
  assert (∀ k, span_failed (rpc_span (route c) x (context a) (started_ms c) now status k) = is_some k || match status with Some code => negb (code =? 0)%Z | None => false end) as Hfail by done.
  split; [done|done|..]; unfold add_call; cbn -[rpc_span take drop].
  - split; [done|]. rewrite (own_taken _ _ _ Ec) in H2'. destruct (own_span c); [rewrite length_app; cbn [length]|]; lia.
  - rewrite H3, length_app. cbn [length]. split; [rewrite saturating_min by lia; f_equal; lia|].
    rewrite filter_length_snoc, Hfail. cbn [fst snd]. replace (is_some (Core.kind <$> error)) with (is_some error) by by destruct error.
    fold (failed status error). rewrite H3'.
    destruct (failed status error); [by rewrite saturating_min by lia|f_equal; lia].
  - intros y [Hy|[Hy|(st & er & [Hy|Hy]%elem_of_app)]].
    + apply H4. left. by eapply open_taken.
    + apply H4. by right; left.
    + apply H4. right; right. by exists st, er.
    + apply list_elem_of_singleton in Hy as [= -> -> ->]. apply H4. by left.
  - intros sp. rewrite H1. destruct (own_span c); [|by apply H5].
    intros [Hsp|Hsp]%elem_of_app; [by apply H5|]. apply list_elem_of_singleton in Hsp as ->. by split.
  - intros y st er [Hy|Hy]%elem_of_app Hown.
    + destruct (H6 y st er Hy Hown) as (sp & Hsp & ?). exists sp. split; [|done]. destruct (own_span c); set_solver.
    + apply list_elem_of_singleton in Hy as [= -> -> ->]. rewrite Hown.
      eexists. split; [apply elem_of_app; right; by apply list_elem_of_singleton|]. split; [done|]. rewrite Hfail. by destruct error.
Qed.

Lemma trace_inv random kind now events : length random = 24 → Forall Drawn events →
  Identifier 16 (trace_id (from_random random)) ∧ Identifier 8 (span_id (from_random random))
  ∧ ∃ a, Inv (from_random random) (foldl on_event (began random kind now) events) a.
Proof.
  intros Hr Hev.
  assert (Identifier 16 (trace_id (from_random random)) ∧ Identifier 8 (span_id (from_random random))) as [Ht Hs].
  { split; apply nonzero_identifier; [rewrite length_take|rewrite length_drop]; lia. }
  split; [done|]. split; [done|]. revert Hev. induction events as [|e events IH] using rev_ind; intros Hev.
  - exists (new_action (from_random random) kind now).
    split; cbn; [done|done|unfold MAX_CALLS_PER_ACTION; lia|done|set_solver|set_solver|set_solver].
  - apply Forall_app in Hev as [Hev He]. apply Forall_cons in He as [He _]. rewrite foldl_app. cbn [foldl].
    destruct (IH Hev) as [a Ha].
    destruct e as [|index [] ? ? ?]; [exact (trace_begin _ _ a _ _ _ Hs He Ha)|exact (trace_end _ _ _ _ _ _ _ Ha)|].
    exact (trace_end_unseen _ _ _ _ _ _ _ Ha).
Qed.

(** C34: every trace is one tree.  However the calls of an action interleave, and
    whether telemetry is on or off when each of them ends, what is exported when
    the action ends, if telemetry is on and somebody is logged in then, is nothing,
    if no call ended while telemetry was on, or one root that counts those that
    did and says whether one of them failed, with at most 64 spans, all in its
    trace and directly under it.  Every call names, in a well-formed [traceparent]
    of that trace, a span; for those the root counts it is one that is exported:
    their own, which says how they ended, or the root.  Otherwise nothing is
    exported. *)
Theorem every_trace_is_one_tree random kind now events enabled logged_in end_ : length random = 24 → Forall Drawn events →
  let s := foldl on_event (began random kind now) events in
  let root := from_random random in
  let exported := leaving enabled logged_in (action s) end_ in
  Identifier 16 (trace_id root) ∧ Identifier 8 (span_id root)
  ∧ (enabled && logged_in = false ∨ ended s = [] → exported = [])
  ∧ (∀ c, c ∈ open_calls s ∨ c ∈ unseen s ∨ (∃ st er, (c, st, er) ∈ ended s) →
       ∃ x, call_context c = Some x ∧ Identifier 8 (span_id x)
       ∧ call_traceparent c = Some ("00-" ++ hex (trace_id root) ++ "-" ++ hex (span_id x) ++ "-01")
       ∧ length (traceparent x) = 55)
  ∧ (enabled = true → logged_in = true → ended s ≠ [] →
     ∃ top rest, exported = top :: rest ∧ span_context top = root ∧ span_parent top = None
       ∧ span_attributes top = [(RpcCount, Integer (Z.min (Z.of_nat (length (ended s))) u32_max))]
       ∧ span_failed top = existsb (λ c, failed c.1.2 c.2) (ended s)
       ∧ length rest ≤ 64
       ∧ (∀ sp, sp ∈ rest → span_parent sp = Some root ∧ trace_id (span_context sp) = trace_id root)
       ∧ ∀ c st er, (c, st, er) ∈ ended s → ∃ sp, sp ∈ top :: rest ∧ call_context c = Some (span_context sp)
           ∧ (own_span c = true → span_failed sp = failed st er)).
Proof.
  intros Hr Hev s root exported. destruct (trace_inv random kind now events Hr Hev) as (Ht & Hs & a & HI). fold s root in Ht, Hs, HI.
  destruct HI as [H0 H1 [H2 H2'] [H3 H3'] H4 H5 H6]. unfold exported, leaving. rewrite H0. split_and!; [done|done| | |].
  - intros [E|E].
    + destruct enabled; [|done]. cbn in E. by rewrite E, orb_true_r.
    + unfold finish. rewrite H3, E. by destruct enabled.
  - intros c Hc. destruct (H4 c Hc) as (x & Ex & Htr & Hid & _). exists x. split_and!; [done|done| |].
    + unfold call_traceparent. rewrite Ex. cbn. unfold traceparent. by rewrite Htr.
    + unfold traceparent. rewrite Htr, !length_app.
      destruct (hex_shape (trace_id root)) as [-> _], (hex_shape (span_id x)) as [-> _]. destruct Ht as [-> _], Hid as [-> _]. done.
  - intros -> -> Hne. assert (0 < length (ended s)) as Hlen by (destruct (ended s); [done|cbn; lia]).
    unfold finish. rewrite (proj2 (Z.eqb_neq _ _)) by (rewrite H3; unfold u32_max; lia).
    eexists _, _. split; [done|]. split_and!; [done|done|by cbn; rewrite H3| |unfold MAX_CALLS_PER_ACTION in H2; lia|done|].
    + cbn. rewrite H3'. destruct (existsb _ (ended s)) eqn:E.
      * apply existsb_exists in E as (y & Hy & Hf). apply Z.ltb_lt.
        assert (y ∈ List.filter (λ c, failed c.1.2 c.2) (ended s)) as Hin by (by apply list_elem_of_In, filter_In).
        destruct (List.filter _ (ended s)); [by apply elem_of_nil in Hin|]. cbn. unfold u32_max. lia.
      * apply Z.ltb_ge. assert (List.filter (λ c, failed c.1.2 c.2) (ended s) = []) as ->; [|done].
        clear -E. induction (ended s) as [|y l IH]; [done|]. cbn in *. apply orb_false_iff in E as [-> E]. by apply IH.
    + intros c st er Hc. destruct (own_span c) eqn:Eown.
      * destruct (H6 c st er Hc Eown) as (sp & Hsp & ? & ?). exists sp. split_and!; [by right|done|done].
      * destruct (H4 c) as (x & Ex & _ & _ & Heq); [right; right; by exists st, er|]. eexists. split; [left|]. cbn. split; [|done].
        rewrite Ex, H1. f_equal. by apply Heq.
Qed.

(** *** Texts *)

Definition FIXED : list bytes :=
  ["grpc"; "_OTHER"; "unauthenticated"; "permission_denied"; "incompatible_protocol"; "version_not_served"; "invalid_request";
   "not_found"; "conflict"; "unavailable"; "internal"] ++ GRPC_CODES.

(** A text of this build, or a part of the called route, which is one of this build. *)
Definition Compiled (route text : bytes) : Prop := text ∈ FIXED ∨ ∃ a b, route = a ++ text ++ b.
Definition Harmless (route : bytes) (l : list (Key * AttributeValue)) : Prop :=
  Forall (λ kv, match kv.2 with Text text => Compiled route text | Integer _ => True end) l.

Lemma error_type_fixed kind : error_type kind ∈ FIXED.
Proof. by destruct kind; apply (bool_decide_unpack (_ ∈ FIXED)). Qed.

Lemma code_name_fixed n name : grpc_code_name n = Some name → name ∈ FIXED.
Proof. intros H%list_elem_of_lookup_2. apply elem_of_app. by right. Qed.

Lemma trim_suffix c s : ∃ p, s = p ++ trim_start_matches c s.
Proof.
  induction s as [|x s [p IH]]; [by exists []|]. cbn. case_bool_decide; [|by exists []]. exists (x :: p). cbn. by f_equal.
Qed.

Lemma compiled_part route p text q : route = p ++ text ++ q → Compiled route text.
Proof. intros. right. by exists p, q. Qed.

Lemma compiled_all route : Compiled route route.
Proof. apply (compiled_part _ [] _ []). by rewrite app_nil_r. Qed.

Lemma grpc_fixed route : Compiled route "grpc".
Proof. left. by apply (bool_decide_unpack (_ ∈ FIXED)). Qed.

Lemma record_harmless now route d error c : Harmless route (record_attributes (rpc_record now route d error c)).
Proof.
  unfold rpc_record. destruct (trim_suffix "/"%char route) as [p E].
  assert (∀ a b, Compiled route a → Compiled route b → Harmless route
    ([(RpcSystem, Text "grpc"); (RpcService, Text a); (RpcMethod, Text b);
      (DurationMs, Integer (F64.cast F64.round F64.i64_min F64.i64_max (F64.max d F64.zero)))]
     ++ match error with Some kind => [(ErrorType, Text (error_type kind))] | None => [] end)) as HH.
  { intros a b Ha Hb. apply Forall_app. split; [repeat apply Forall_cons_2; try apply Forall_nil_2; cbn; auto using grpc_fixed|].
    destruct error; [|constructor]. apply Forall_singleton. left. apply error_type_fixed. }
  destruct (split_once _ _) as [[a b]|] eqn:Es; cbn [default from_option id record_attributes]; apply HH.
  - apply split_once_spec in Es as [Es _]. rewrite Es in E. by apply (compiled_part _ p _ ("/"%char :: b)).
  - apply split_once_spec in Es as [Es _]. rewrite Es in E. apply (compiled_part _ (p ++ a ++ ["/"%char]) _ []).
    rewrite E, app_nil_r, <- !app_assoc. done.
  - apply compiled_all.
  - by apply (compiled_part _ [] _ route).
Qed.

Lemma method_part route : ∃ p, route = p ++ default route (strip_prefix "/" route).
Proof. destruct (strip_prefix "/" route) as [r|] eqn:E; [apply strip_prefix_spec in E; by exists "/"|by exists []]. Qed.

Lemma version_part method v : protocol_version method = Some v → ∃ a b, method = a ++ v ++ b.
Proof.
  unfold protocol_version. destruct (strip_prefix _ method) as [r|] eqn:E; [|done]. cbn.
  destruct (split_once _ r) as [[u w]|] eqn:Es; [|done]. destruct (contains_byte _ _); [done|]. intros [= <-].
  apply strip_prefix_spec in E as ->. apply split_once_spec in Es as [-> _]. by eexists _, _.
Qed.

Lemma span_harmless route c parent start end_ status error :
  Harmless route (span_attributes (rpc_span route c parent start end_ status error)).
Proof.
  unfold rpc_span. cbn [span_attributes]. destruct (method_part route) as [p E].
  set (method := default route (strip_prefix "/" route)) in *. clearbody method.
  repeat (apply Forall_app; split).
  - repeat apply Forall_cons_2; try apply Forall_nil_2; [apply grpc_fixed|]. apply (compiled_part _ p _ []). by rewrite app_nil_r.
  - destruct (protocol_version method) as [v|] eqn:Ev; [|constructor]. apply version_part in Ev as (a & b & ->).
    apply Forall_singleton. apply (compiled_part _ (p ++ a) _ b). by rewrite E, <- !app_assoc.
  - destruct (status ≫= grpc_code_name) as [name|] eqn:En; [|constructor]. apply Forall_singleton. left.
    apply bind_Some in En as (n & _ & En). by apply code_name_fixed in En.
  - assert (∀ e, match e with Some kind => error_type kind | None => "_OTHER" end ∈ FIXED) as Hother.
    { intros [kind|]; [apply error_type_fixed|]. by apply (bool_decide_unpack (_ ∈ FIXED)). }
    match goal with |- Forall _ (if ?b then _ else _) => destruct b end; [|constructor]. apply Forall_singleton. left. cbn.
    destruct status as [n|]; [|apply Hother]. cbn. destruct (grpc_code_name n) as [name|] eqn:En; [|apply Hother].
    destruct (n =? 0)%Z; [apply Hother|by apply code_name_fixed in En].
Qed.

Lemma calls_harmless now route d error c :
  Harmless route (record_attributes (rpc_record now route d error c))
  ∧ record_body (rpc_record now route d error c) ∈ (["gRPC-Web call failed"; "gRPC-Web call completed"] : list bytes).
Proof.
  split; [apply record_harmless|]. unfold rpc_record. destruct (default _ _). cbn. destruct error; cbn; [by left|by right; left].
Qed.

Lemma begun_spans a path started random x :
  (begin_call a path started random).1 = Some x → ∃ y, a = Some y ∧ spans x = spans y.
Proof.
  unfold begin_call. destruct a as [y|]; [|done]. unfold reserve_span. destruct (_ <? _); cbn; intros [= <-]; by exists y.
Qed.

Lemma begun_route a path started random : route (begin_call a path started random).2 = path.
Proof. unfold begin_call. destruct a as [y|]; [|done]. by destruct (reserve_span y). Qed.

(** What telemetry is told of an outcome. *)
Definition told {R} (answer : result R ClientError * option Z) : option Z * option ErrorKind :=
  (answer.2, match answer.1 with Ok _ => None | Err e => Some (Core.kind e) end).

(** An error is known to telemetry by its kind. *)
Lemma end_call_told enabled a c now status e e' : Core.kind <$> e = Core.kind <$> e' →
  end_call enabled a c now status e = end_call enabled a c now status e'.
Proof. intros E. unfold end_call. by rewrite E. Qed.

(** C35: telemetry carries no data of the user.  Of a call of the transport a
    record is kept, while telemetry is on, and a span, if the call has one, and
    nothing else; they are made of times, numbers, identifiers, texts of this
    build and parts of the called route.  And they tell no more of the call than
    its route, its times, the status it was answered with and the kind of its
    error: two calls that differ in their message, their token, the browser's and
    the server's answer, the reply or the text of the error leave the same record
    and the same action behind, if only status and kind agree. *)
Theorem telemetry_carries_no_data {R R'} browser browser' (decode : bytes → option R) (decode' : bytes → option R')
    enabled a meanwhile path message message' bearer bearer' started random now :
  let call := grpc_unary browser decode enabled a meanwhile path message bearer started random now in
  let call' := grpc_unary browser' decode' enabled a meanwhile path message' bearer' started random now in
  let '(begun, c) := begin_call a path started random in
  (∀ outcome after record, call = Some (outcome, (after, record)) →
     (is_some record = enabled)
     ∧ (∀ r, record = Some r → Harmless path (record_attributes r)
          ∧ record_body r ∈ (["gRPC-Web call failed"; "gRPC-Web call completed"] : list bytes)
          ∧ record_context r = call_context c)
     ∧ ∀ x sp, after = Some x → sp ∈ spans x →
         (∃ y, meanwhile begun = Some y ∧ sp ∈ spans y)
         ∨ Harmless path (span_attributes sp) ∧ (∃ p, path = p ++ span_name sp) ∧ call_context c = Some (span_context sp))
  ∧ (told <$> grpc_unary_call browser decode path message bearer (call_traceparent c)
     = told <$> grpc_unary_call browser' decode' path message' bearer' (call_traceparent c) →
     snd <$> call = snd <$> call').
Proof.
  intros call call'. subst call call'. unfold grpc_unary.
  pose proof (begun_route a path started random) as Hroute.
  destruct (begin_call a path started random) as [begun c]. cbn [snd] in Hroute. split.
  - intros outcome after record Hcall. apply bind_Some in Hcall as ([o st] & _ & [= <- Hend]). revert Hend. unfold end_call.
    destruct enabled; cbn [negb]; [|intros [= <- <-]; split_and!; [done|done|intros x sp Hx Hsp; left; eauto]].
    rewrite Hroute. intros [= <- <-]. split; [done|]. split.
    + intros r [= <-]. split_and!; [apply calls_harmless..|]. unfold rpc_record. by destruct (default _ _).
    + intros x sp. destruct (meanwhile begun) as [y|]; [|done]. destruct (call_context c) as [ctx|]; [|intros [= <-]; eauto].
      intros [= <-]. cbn -[rpc_span]. destruct (own_span c); [|eauto].
      intros [H|H]%elem_of_app; [eauto|right]. apply list_elem_of_singleton in H as ->.
      split_and!; [apply span_harmless|apply method_part|done].
  - intros E. destruct (grpc_unary_call browser _ _ _ _ _) as [[o st]|], (grpc_unary_call browser' _ _ _ _ _) as [[o' st']|]; try done.
    cbn in E |- *. injection E as <- E. f_equal. apply end_call_told. by destruct o, o'; cbn in *; simplify_eq; f_equal.
Qed.

(** ** Sample *)
Module Sample.

Definition RANDOM : bytes := List.map (λ n, byte (Z.of_nat n)) (seq 0 24).
Definition at_ms (n : Z) : spec_float := F64.of_Z n.
Definition LIST : bytes := "/sovereign.config.v5.ConfigurationService/ListConfiguration".
Definition GET : bytes := "/sovereign.config.v5.ConfigurationService/GetConfiguration".

(** Three calls that overlap; the second is refused and ends first, and the third
    ends while telemetry is off. *)
Definition EVENTS : list Event :=
  [Begins LIST (at_ms 1000) (take 8 RANDOM); Begins GET (at_ms 1010) (take 8 (rev RANDOM));
   Begins GET (at_ms 1015) (take 8 (drop 4 RANDOM));
   Ends 1 true (at_ms 1020) (Some 7%Z) (Some (map_rpc_status RpcPermissionDenied)); Ends 1 false (at_ms 1030) (Some 0%Z) None;
   Ends 0 true (at_ms 1050) (Some 0%Z) None].

Definition trace : list Span :=
  leaving true true (action (foldl on_event (began RANDOM Navigate (at_ms 1000)) EVENTS)) (at_ms 1060).

Example the_trace :
  List.map (λ s, (span_name s, span_failed s, span_attributes s)) trace =
  [("navigate" : bytes, true, [(RpcCount, Integer 2)]);
   (drop 1 GET, true, [(RpcSystemName, Text "grpc"); (RpcMethod, Text (drop 1 GET)); (ProtocolVersion, Text "v5");
                       (RpcResponseStatusCode, Text "PERMISSION_DENIED"); (ErrorType, Text "PERMISSION_DENIED")]);
   (drop 1 LIST, false, [(RpcSystemName, Text "grpc"); (RpcMethod, Text (drop 1 LIST)); (ProtocolVersion, Text "v5");
                         (RpcResponseStatusCode, Text "OK")])].
Proof. vm_compute. reflexivity. Qed.

(** An all-zero identifier is not sent. *)
Example zero_is_mended : hex (nonzero (List.repeat "000"%char 8)) = "0000000000000001".
Proof. vm_compute. reflexivity. Qed.

Example nanoseconds : unix_nanos (at_ms 1720000000123) = "1720000000123000000".
Proof. vm_compute. reflexivity. Qed.

Lemma every_trace_is_one_tree_witness :
  Forall Drawn EVENTS
  ∧ let s := foldl on_event (began RANDOM Navigate (at_ms 1000)) EVENTS in
    Identifier 16 (trace_id (from_random RANDOM))
    ∧ ∃ top rest, leaving true true (action s) (at_ms 1060) = top :: rest ∧ span_context top = from_random RANDOM ∧ length rest ≤ 64.
Proof.
  assert (Forall Drawn EVENTS) as Hd by by repeat constructor. split; [exact Hd|].
  pose proof (every_trace_is_one_tree RANDOM Navigate (at_ms 1000) EVENTS true true (at_ms 1060) eq_refl Hd) as (Ht & _ & _ & _ & H).
  split; [exact Ht|]. destruct H as (top & rest & E & Etop & _ & _ & _ & Hl & _); [done|done|by intros ?%(f_equal length)|].
  exists top, rest. split; [exact E|]. split; [exact Etop|exact Hl].
Defined.

(** A browser that answers every request with the same message. *)
Definition replies (message : bytes) : bytes → bytes → list (bytes * bytes) → bytes → Fetched :=
  λ _ _ _ _, Responded true None None (Some (GrpcWeb.frame 0 message ++ GrpcWeb.frame 128 "grpc-status:0")).

(** Two reads of two values under two tokens are one to telemetry. *)
Lemma telemetry_carries_no_data_witness :
  let a := Some (new_action (from_random RANDOM) Navigate (at_ms 1000)) in
  let read value request token :=
    grpc_unary (replies value) Some true a id GET request (Some (mkSecret token)) (at_ms 1000) (take 8 RANDOM) (at_ms 1050) in
  fst <$> read "hunter2" "/prod/db/password" "token-1" = Some (Ok ("hunter2" : bytes))
  ∧ snd <$> read "hunter2" "/prod/db/password" "token-1" = snd <$> read "on" "/flag" "token-2".
Proof.
  cbv zeta. split; [vm_compute; reflexivity|].
  pose proof (telemetry_carries_no_data (replies "hunter2") (replies "on") Some Some true
    (Some (new_action (from_random RANDOM) Navigate (at_ms 1000))) id GET "/prod/db/password" "/flag"
    (Some (mkSecret "token-1")) (Some (mkSecret "token-2")) (at_ms 1000) (take 8 RANDOM) (at_ms 1050)) as H.
  cbv zeta in H. destruct (begin_call _ _ _ _) as [begun c]. apply H. vm_compute. reflexivity.
Defined.

End Sample.
End Trace.
