(* ===== verification/WebExport.v ===== *)
(** * The export of the web application's telemetry

    Models [crates/sovereign-config-web/src/telemetry/policy.rs], [buffer.rs] and
    the exporter of [telemetry/mod.rs]: what waits to be sent, when and how often
    it is sent, and what becomes of it.  Requests are answered, timers fire and
    the session changes in any order. *)

From Stdlib Require Import SpecFloat.
From stdpp Require Import strings.
From S2P Require Import Prelude Float64 Bytes ConfigPath Core JsonValue ServerConfig WebSession WebTrace.

Local Open Scope bytes_scope.

Module Exporting.

(** ** The buffer of a signal *)

Definition len (s : bytes) : Z := Z.of_nat (length s).
Definition total (l : list bytes) : Z := foldr (λ s n, (len s + n)%Z) 0%Z l.

Record Buffer := mkBuffer {
  records : list bytes; buffer_bytes : Z; max_records : nat; max_bytes : Z; buffer_dropped : Z }.

Definition new_buffer (max_records : nat) (max_bytes : Z) : Buffer := mkBuffer [] 0 max_records max_bytes 0.

(** The loop of [push]: the oldest go until both bounds hold. *)
Fixpoint drop_oldest (max_records : nat) (max_bytes : Z) (l : list bytes) (size dropped : Z) : list bytes * Z * Z :=
  match l with
  | oldest :: l' =>
      if (max_records <? length l)%nat || (max_bytes <? size)%Z
      then drop_oldest max_records max_bytes l' (size - len oldest) (dropped + 1)
      else (l, size, dropped)
  | [] => ([], size, dropped)
  end.

Definition push (b : Buffer) (record : bytes) : Buffer :=
  if (max_bytes b <? len record)%Z
  then mkBuffer (records b) (buffer_bytes b) (max_records b) (max_bytes b) (buffer_dropped b + 1)
  else
    let '(l, size, dropped) :=
      drop_oldest (max_records b) (max_bytes b) (records b ++ [record]) (buffer_bytes b + len record) (buffer_dropped b) in
    mkBuffer l size (max_records b) (max_bytes b) dropped.

(** The loop of [take_batch]: what is taken, and what stays. *)
Fixpoint take_records (max_records : nat) (max_bytes : Z) (l batch : list bytes) (size : Z) : list bytes * list bytes :=
  match l with
  | next :: l' =>
      if (length batch =? max_records)%nat || negb (is_empty batch) && (max_bytes <? size + len next)%Z
      then (batch, l)
      else take_records max_records max_bytes l' (batch ++ [next]) (size + len next)
  | [] => (batch, [])
  end.

Definition take_batch (b : Buffer) (records_ : nat) (bytes_ : Z) : list bytes * Buffer :=
  let '(batch, rest) := take_records records_ bytes_ (records b) [] 0 in
  (batch, mkBuffer rest (buffer_bytes b - total batch) (max_records b) (max_bytes b) (buffer_dropped b)).

Definition front_len (b : Buffer) : option Z := len <$> head (records b).
Definition clear_buffer (b : Buffer) : Buffer := mkBuffer [] 0 (max_records b) (max_bytes b) (buffer_dropped b).

(** ** The policy *)

Inductive Outcome := Accepted (rejected : Z) | Status (status : Z) (retry_after_seconds : option Z) | Unreachable.
Inductive Next := Done | RetryAfter (ms : Z) | RefreshThenRetry | Drop | Stop.
Inductive Transition := FirstFailure (o : Outcome) | Recovered | PartiallyRejected (n : Z) | GaveUp (o : Outcome).
Inductive Health := Working | Failing | Stopped.
#[global] Instance Health_eq_dec : EqDecision Health.
Proof. solve_decision. Defined.

Definition MAX_RETRIES : Z := 3.
Definition MAX_ABANDONED_BATCHES : Z := 3.
Definition BASE_DELAY_MS : Z := 1000.
Definition MAX_DELAY_MS : Z := 30000.
Definition MAX_RETRY_AFTER_SECONDS : Z := 60.

Record Policy := mkPolicy {
  health : Health; refreshed_after_401 : bool; retries : Z; abandoned : Z; reported_partial : bool }.

Definition new_policy : Policy := mkPolicy Working false 0 0 false.
Definition stopped (p : Policy) : bool := bool_decide (health p = Stopped).

Definition backoff (retry : Z) (jitter : spec_float) : Z :=
  let full := Z.min (Z.min (BASE_DELAY_MS * 2 ^ Z.min (Z.max (retry - 1) 0) 16) F64.u32_max) MAX_DELAY_MS in
  let factor := F64.add (F64.div (F64.of_Z 1) (F64.of_Z 2)) (F64.div (F64.unit_clamp jitter) (F64.of_Z 2)) in
  F64.cast F64.trunc 0 F64.u32_max (F64.mul (F64.of_Z full) factor).

Definition with_health (p : Policy) (h : Health) : Policy :=
  mkPolicy h (refreshed_after_401 p) (retries p) (abandoned p) (reported_partial p).

Definition fail (p : Policy) (o : Outcome) : Policy * option Transition :=
  (with_health p Failing, if bool_decide (health p = Working) then Some (FirstFailure o) else None).
Definition stop (p : Policy) (o : Outcome) : Policy * Next * option Transition :=
  (with_health p Stopped, Stop, Some (GaveUp o)).

Definition abandon (p : Policy) (o : Outcome) : Policy * Next * option Transition :=
  let p := mkPolicy (health p) (refreshed_after_401 p) 0 (abandoned p + 1) (reported_partial p) in
  if (MAX_ABANDONED_BATCHES <=? abandoned p)%Z then stop p o
  else let '(p, transition) := fail p o in (p, Drop, transition).

Definition retry (p : Policy) (o : Outcome) (retry_after_seconds : option Z) (jitter : spec_float)
  : Policy * Next * option Transition :=
  if (MAX_RETRIES <=? retries p)%Z then abandon p o
  else
    let p := mkPolicy (health p) (refreshed_after_401 p) (retries p + 1) (abandoned p) (reported_partial p) in
    let delay := match retry_after_seconds with
                 | Some seconds => (Z.min seconds MAX_RETRY_AFTER_SECONDS * 1000)%Z
                 | None => backoff (retries p) jitter
                 end in
    let '(p, transition) := fail p o in (p, RetryAfter delay, transition).

Definition retryable (status : Z) : bool := bool_decide (status ∈ ([429; 502; 503; 504] : list Z)%Z).

Definition decide_ (p : Policy) (o : Outcome) (jitter : spec_float) : Policy * Next * option Transition :=
  if stopped p then (p, Stop, None)
  else
    match o with
    | Accepted rejected =>
        let recovered := bool_decide (health p = Failing) in
        let partial := negb recovered && (0 <? rejected)%Z && negb (reported_partial p) in
        (mkPolicy Working false 0 0 (reported_partial p || partial), Done,
         if recovered then Some Recovered else if partial then Some (PartiallyRejected rejected) else None)
    | Status status retry_after_seconds =>
        if (status =? 401)%Z then
          if refreshed_after_401 p then stop p o
          else
            let '(p, transition) := fail (mkPolicy (health p) true (retries p) (abandoned p) (reported_partial p)) o in
            (p, RefreshThenRetry, transition)
        else if retryable status then retry p o retry_after_seconds jitter
        else abandon p o
    | Unreachable => retry p o None jitter
    end.

(** [send], with the answer: its status, its [Retry-After], and the number its
    partial success reports. *)
Definition rejected_items (reported : option spec_float) : Z :=
  match reported with
  | Some count => if F64.is_finite count && F64.ltb F64.zero count then F64.cast F64.trunc 0 F64.u64_max count else 0
  | None => 0
  end.
Definition outcome_of (answer : option (Z * option bytes * option spec_float)) : Outcome :=
  match answer with
  | None => Unreachable
  | Some (status, retry_after, reported) =>
      if (200 <=? status)%Z && (status <? 300)%Z then Accepted (rejected_items reported)
      else Status status (retry_after ≫= λ value, Deployment.parse_u32 (trim value))
  end.

(** ** The exporter *)

Definition MAX_BUFFERED_ITEMS : nat := 500.
Definition MAX_BUFFERED_BYTES : Z := 256 * 1024.
Definition MAX_BATCH_ITEMS : nat := 100.
Definition MAX_BATCH_BYTES : Z := 128 * 1024.
Definition MAX_UNLOAD_BATCH_BYTES : Z := 48 * 1024.
Definition FLUSH_DELAY_MS : Z := 1000.
Definition MAX_GATHER_MS : Z := 5000.
Definition TOKEN_WAIT_MS : Z := 5000.
Definition TOKEN_MARGIN_MS : spec_float := F64.of_Z 10000.

#[local] Arguments MAX_BUFFERED_ITEMS : simpl never.
#[local] Arguments MAX_BUFFERED_BYTES : simpl never.
#[local] Arguments MAX_BATCH_ITEMS : simpl never.
#[local] Arguments MAX_BATCH_BYTES : simpl never.
#[local] Arguments MAX_UNLOAD_BATCH_BYTES : simpl never.

Inductive Signal := Logs | Traces.
#[global] Instance Signal_eq_dec : EqDecision Signal.
Proof. solve_decision. Defined.

Definition ALL : list Signal := [Logs; Traces].
Definition signal_path (s : Signal) : bytes := match s with Logs => "/v1/logs" | Traces => "/v1/traces" end.

Record Exporter := mkExporter {
  endpoint : bytes; service_version : bytes; logs : Buffer; traces : Buffer; pending : option (Signal * list bytes);
  policy : Policy; flushing : bool; gathering_since_ms : spec_float; last_item_ms : spec_float; dropped : Z }.

Definition new_exporter (endpoint service_version : bytes) : Exporter :=
  mkExporter (trim_end_matches "/"%char endpoint) service_version (new_buffer MAX_BUFFERED_ITEMS MAX_BUFFERED_BYTES)
    (new_buffer MAX_BUFFERED_ITEMS MAX_BUFFERED_BYTES) None new_policy false F64.zero F64.zero 0.

Definition buffer (e : Exporter) (s : Signal) : Buffer := match s with Logs => logs e | Traces => traces e end.
Definition with_buffer (e : Exporter) (s : Signal) (b : Buffer) : Exporter :=
  mkExporter (endpoint e) (service_version e) (match s with Logs => b | Traces => logs e end)
    (match s with Logs => traces e | Traces => b end) (pending e) (policy e) (flushing e) (gathering_since_ms e)
    (last_item_ms e) (dropped e).
Definition with_pending (e : Exporter) (p : option (Signal * list bytes)) : Exporter :=
  mkExporter (endpoint e) (service_version e) (logs e) (traces e) p (policy e) (flushing e) (gathering_since_ms e)
    (last_item_ms e) (dropped e).
Definition with_policy (e : Exporter) (p : Policy) : Exporter :=
  mkExporter (endpoint e) (service_version e) (logs e) (traces e) (pending e) p (flushing e) (gathering_since_ms e)
    (last_item_ms e) (dropped e).
Definition with_flushing (e : Exporter) (b : bool) : Exporter :=
  mkExporter (endpoint e) (service_version e) (logs e) (traces e) (pending e) (policy e) b (gathering_since_ms e)
    (last_item_ms e) (dropped e).
Definition with_times (e : Exporter) (since last : spec_float) : Exporter :=
  mkExporter (endpoint e) (service_version e) (logs e) (traces e) (pending e) (policy e) (flushing e) since last (dropped e).
Definition with_dropped (e : Exporter) (n : Z) : Exporter :=
  mkExporter (endpoint e) (service_version e) (logs e) (traces e) (pending e) (policy e) (flushing e)
    (gathering_since_ms e) (last_item_ms e) n.

Definition url (e : Exporter) (s : Signal) : bytes := endpoint e ++ signal_path s.
Definition clear (e : Exporter) : Exporter :=
  with_pending (with_buffer (with_buffer e Logs (clear_buffer (logs e))) Traces (clear_buffer (traces e))) None.

Definition gather_wait_ms (now gathering_since last_item : spec_float) : option Z :=
  let quiet_at := F64.add last_item (F64.of_Z FLUSH_DELAY_MS) in
  let deadline := F64.add gathering_since (F64.of_Z MAX_GATHER_MS) in
  let wait := F64.sub (F64.min quiet_at deadline) now in
  if F64.leb (F64.of_Z 1) wait then Some (F64.cast F64.ceil 0 F64.u32_max wait) else None.

(** What a round of [flush] takes: the batch that waits to be tried again, or the
    oldest items of the first signal that has any. *)
Definition next_batch (e : Exporter) : option (Signal * list bytes * Exporter) :=
  match pending e with
  | Some (s, batch) => Some (s, batch, with_pending e None)
  | None =>
      let '(batch, b) := take_batch (logs e) MAX_BATCH_ITEMS MAX_BATCH_BYTES in
      if negb (is_empty batch) then Some (Logs, batch, with_buffer e Logs b)
      else
        let '(batch, b) := take_batch (traces e) MAX_BATCH_ITEMS MAX_BATCH_BYTES in
        if negb (is_empty batch) then Some (Traces, batch, with_buffer e Traces b) else None
  end.

(** *** What leaves with the page *)

Definition queued (s : Signal) (batches : list (Signal * list bytes)) : nat :=
  foldr (λ b n, (if bool_decide (b.1 = s) then length b.2 else 0) + n) 0 batches.
Fixpoint extend (s : Signal) (batch : list bytes) (batches : list (Signal * list bytes)) : list (Signal * list bytes) :=
  match batches with
  | (s', l) :: rest => if bool_decide (s' = s) then (s', l ++ batch) :: rest else (s', l) :: extend s batch rest
  | [] => [(s, batch)]
  end.

Definition unload_signal (st : Exporter * Z * list (Signal * list bytes)) (s : Signal)
  : Exporter * Z * list (Signal * list bytes) :=
  let '(e, budget, batches) := st in
  let already := queued s batches in
  let fits := match front_len (buffer e s) with Some n => (n <=? budget)%Z | None => false end in
  if (budget =? 0)%Z || (MAX_BATCH_ITEMS <=? already)%nat || negb fits then st
  else
    let '(batch, b) := take_batch (buffer e s) (MAX_BATCH_ITEMS - already) budget in
    (with_buffer e s b, (budget - total batch)%Z, extend s batch batches).

Definition unload_batches (e : Exporter) : Exporter * list (Signal * list bytes) :=
  let budget := MAX_UNLOAD_BATCH_BYTES in
  let st := match pending e with
            | Some (s, batch) =>
                if (total batch <=? budget)%Z then (with_pending e None, (budget - total batch)%Z, [(s, batch)])
                else (e, budget, [])
            | None => (e, budget, [])
            end in
  let '(e, _, batches) := foldl unload_signal st ALL in (e, batches).

(** ** The page *)

Record Request := mkRequest { r_url : bytes; r_headers : list (bytes * bytes); r_body : bytes; keepalive : bool }.
(** A request that was made, with what it carries. *)
Record Attempt := mkAttempt { a_signal : Signal; a_batch : list bytes; a_request : Request }.
(** A [flush] that awaits the answer to its batch, and the expiry of its token. *)
Record Sending := mkSending { sd_signal : Signal; sd_batch : list bytes; sd_expires : spec_float }.

(** Besides what the page keeps: the timers that are set for [flush] and the
    flushes under way; and of its past, what was made, answered, accepted and said. *)
Record Tab := mkTab {
  exporter : option Exporter; tokens : option Login.MemoryTokens; timers : list Z; sending : list Sending;
  console : list bytes; attempts : list Attempt; answers : list Outcome; accepted : list (Signal * list bytes);
  said : list (Signal * list bytes) }.

Definition with_exporter (t : Tab) (e : option Exporter) : Tab :=
  mkTab e (tokens t) (timers t) (sending t) (console t) (attempts t) (answers t) (accepted t) (said t).
Definition with_tab_tokens (t : Tab) (x : option Login.MemoryTokens) : Tab :=
  mkTab (exporter t) x (timers t) (sending t) (console t) (attempts t) (answers t) (accepted t) (said t).
Definition with_timers (t : Tab) (l : list Z) : Tab :=
  mkTab (exporter t) (tokens t) l (sending t) (console t) (attempts t) (answers t) (accepted t) (said t).
Definition with_sending (t : Tab) (l : list Sending) : Tab :=
  mkTab (exporter t) (tokens t) (timers t) l (console t) (attempts t) (answers t) (accepted t) (said t).
Definition warn (t : Tab) (line : bytes) : Tab :=
  mkTab (exporter t) (tokens t) (timers t) (sending t) (console t ++ [line]) (attempts t) (answers t) (accepted t) (said t).
Definition made (t : Tab) (a : Attempt) : Tab :=
  mkTab (exporter t) (tokens t) (timers t) (sending t) (console t) (attempts t ++ [a]) (answers t) (accepted t) (said t).

Definition on_exporter (f : Exporter → Exporter) (t : Tab) : Tab := with_exporter t (f <$> exporter t).

Definition logged_in (t : Tab) : bool := match tokens t with Some _ => true | None => false end.
Definition enabled (t : Tab) : bool := match exporter t with Some e => negb (stopped (policy e)) | None => false end.

Definition current_token (t : Tab) (now : spec_float) : option (Secret * spec_float) :=
  match tokens t with
  | Some x =>
      if F64.ltb (F64.add now TOKEN_MARGIN_MS) (Login.access_expires_at_ms x)
      then Some (Login.access_token x, Login.access_expires_at_ms x) else None
  | None => None
  end.

(** [f64::EPSILON] is 2^-52. *)
Definition EPSILON : spec_float := S754_finite false 4503599627370496 (-104).
Definition mark_token_stale (t : Tab) (refused_expiry : spec_float) : Tab :=
  match tokens t with
  | Some x =>
      if F64.ltb (SFabs (F64.sub (Login.access_expires_at_ms x) refused_expiry)) EPSILON
      then with_tab_tokens t (Some (Login.mkTokens (Login.access_token x) (Login.refresh_token x) F64.zero
             (Login.refresh_expires_at_ms x) (Login.token_endpoint x)))
      else t
  | None => t
  end.

Definition discard : Tab → Tab := on_exporter clear.
Definition stop_flushing : Tab → Tab := on_exporter (λ e, with_flushing e false).
Definition note_dropped (count : nat) : Tab → Tab := on_exporter (λ e, with_dropped e (dropped e + Z.of_nat count)).

(** [ok] is whether the browser takes the timer. *)
Definition schedule_flush (ok : bool) (delay_ms : Z) (t : Tab) : Tab :=
  if ok then with_timers t (timers t ++ [Z.min delay_ms F64.i32_max]) else stop_flushing t.
Definition park (ok : bool) (s : Signal) (batch : list bytes) (delay_ms : Z) (t : Tab) : Tab :=
  schedule_flush ok delay_ms (on_exporter (λ e, with_pending e (Some (s, batch))) t).

Definition describe (o : Outcome) : bytes :=
  match o with Accepted _ => "accepted" | Status status _ => "HTTP " ++ show_Z status | Unreachable => "unreachable" end.

Definition report (transition : option Transition) (url : bytes) (t : Tab) : Tab :=
  let dropped := match exporter t with Some e => dropped e | None => 0%Z end in
  let line :=
    match transition with
    | None => None
    | Some (FirstFailure (Status status _ as o)) =>
        if (status =? 401)%Z then None else Some ("client telemetry to " ++ url ++ " is failing (" ++ describe o ++ ")")
    | Some (FirstFailure o) => Some ("client telemetry to " ++ url ++ " is failing (" ++ describe o ++ ")")
    | Some Recovered => Some ("client telemetry to " ++ url ++ " has recovered")
    | Some (PartiallyRejected count) =>
        Some ("client telemetry to " ++ url ++ ": the ingest rejected " ++ show_Z count ++ " items")
    | Some (GaveUp o) =>
        Some ("client telemetry to " ++ url ++ " is off for this page (" ++ describe o ++ "); " ++ show_Z dropped
              ++ " items dropped")
    end in
  match line with Some line => warn t ("sovereign-config: " ++ line) | None => t end.

Section page.
(** [Value::to_string] *)
Context (json_text : Value → bytes).

Definition signal_request (s : Signal) (service_version : bytes) (batch : list bytes) : bytes :=
  match s with
  | Logs => Trace.logs_request json_text service_version batch
  | Traces => Trace.traces_request json_text service_version batch
  end.

Definition request (url body : bytes) (token : Secret) (keepalive : bool) : Request :=
  mkRequest url [("content-type" : bytes, "application/json" : bytes); ("authorization" : bytes, "Bearer " ++ expose_secret token)]
    body keepalive.

Definition attempt (e : Exporter) (s : Signal) (batch : list bytes) (token : Secret) (keepalive : bool) : Attempt :=
  mkAttempt s batch (request (url e s) (signal_request s (service_version e) batch) token keepalive).

Definition enqueue (ok : bool) (now : spec_float) (s : Signal) (encoded : list bytes) (t : Tab) : Tab :=
  match exporter t with
  | None => t
  | Some e =>
      let e := with_buffer e s (foldl push (buffer e s) encoded) in
      let start := negb (flushing e) in
      let e := with_times e (if start then now else gathering_since_ms e) now in
      let t := mkTab (Some (with_flushing e true)) (tokens t) (timers t) (sending t) (console t) (attempts t) (answers t)
                 (accepted t) (said t ++ [(s, encoded)]) in
      if start then schedule_flush ok FLUSH_DELAY_MS t else t
  end.

(** A round of the loop of [flush], up to its request or its end. *)
Definition flush_round (ok : bool) (now : spec_float) (t : Tab) : Tab :=
  match exporter t with
  | None => t
  | Some e =>
      if stopped (policy e) then with_exporter t (Some (with_flushing (clear e) false))
      else
        match next_batch e with
        | None => with_exporter t (Some (with_flushing e false))
        | Some (s, batch, e) =>
            let t := with_exporter t (Some e) in
            match current_token t now with
            | None =>
                if logged_in t then park ok s batch TOKEN_WAIT_MS t else stop_flushing (discard t)
            | Some (token, expires) =>
                let t := made t (attempt e s batch token false) in
                with_sending t (sending t ++ [mkSending s batch expires])
            end
        end
  end.

Definition flush (ok : bool) (now : spec_float) (t : Tab) : Tab :=
  let gathering :=
    match exporter t with
    | Some e => match pending e with
                | None => gather_wait_ms now (gathering_since_ms e) (last_item_ms e)
                | Some _ => None
                end
    | None => None
    end in
  match gathering with Some wait => schedule_flush ok wait t | None => flush_round ok now t end.

(** The rest of a round, with the answer to its request. *)
Definition answered (ok : bool) (now : spec_float) (sd : Sending) (o : Outcome) (jitter : spec_float) (t : Tab) : Tab :=
  match exporter t with
  | None => t
  | Some e =>
      let '(p, next, transition) := decide_ (policy e) o jitter in
      let t := mkTab (Some (with_policy e p)) (tokens t) (timers t) (sending t) (console t) (attempts t) (answers t ++ [o])
                 (match o with Accepted _ => accepted t ++ [(sd_signal sd, sd_batch sd)] | _ => accepted t end) (said t) in
      let t := report transition (endpoint e) t in
      match next with
      | Done => flush_round ok now t
      | Drop => flush_round ok now (note_dropped (length (sd_batch sd)) t)
      | RetryAfter delay => park ok (sd_signal sd) (sd_batch sd) delay t
      | RefreshThenRetry => park ok (sd_signal sd) (sd_batch sd) TOKEN_WAIT_MS (mark_token_stale t (sd_expires sd))
      | Stop => stop_flushing (discard (note_dropped (length (sd_batch sd)) t))
      end
  end.

Definition flush_on_exit (now : spec_float) (t : Tab) : Tab :=
  match current_token t now, exporter t with
  | Some (token, _), Some e =>
      if stopped (policy e) then t
      else
        let '(e', batches) := unload_batches e in
        foldl (λ t b, made t (attempt e b.1 b.2 token true)) (with_exporter t (Some e')) batches
  | _, _ => t
  end.

(** [emit], where [end_call] comes to it, and [end_action]. *)
Definition emit (ok : bool) (now : spec_float) (r : Trace.LogRecord) (t : Tab) : Tab :=
  if negb (enabled t) then t
  else if logged_in t then enqueue ok now Logs [json_text (Trace.record_to_otlp r)] t
  else match Trace.severity r with
       | Trace.Warn => warn t ("sovereign-config: " ++ Trace.record_body r ++ " (not sent: no session)")
       | Trace.Info => t
       end.
Definition end_action (ok : bool) (now : spec_float) (spans : list Trace.Span) (t : Tab) : Tab :=
  if negb (enabled t) || is_empty spans || negb (logged_in t) then t
  else enqueue ok now Traces (List.map (λ s, json_text (Trace.span_to_otlp s)) spans) t.

Inductive Event :=
| CallEnds (ok : bool) (now : spec_float) (record : Trace.LogRecord)
| ActionEnds (ok : bool) (now : spec_float) (spans : list Trace.Span)
| TimerFires (index : nat) (ok : bool) (now : spec_float)
| Answer (index : nat) (ok : bool) (now : spec_float) (o : Outcome) (jitter : spec_float)
| PageHides (now : spec_float)
| TokensChange (x : option Login.MemoryTokens)     (* login, and the two ends of a refresh *)
| LogOut.

Definition without {A} (i : nat) (l : list A) : list A := take i l ++ drop (S i) l.

Definition on_event (t : Tab) (ev : Event) : Tab :=
  match ev with
  | CallEnds ok now r => emit ok now r t
  | ActionEnds ok now spans => end_action ok now spans t
  | TimerFires i ok now =>
      match timers t !! i with Some _ => flush ok now (with_timers t (without i (timers t))) | None => t end
  | Answer i ok now o jitter =>
      match sending t !! i with
      | Some sd => answered ok now sd o jitter (with_sending t (without i (sending t)))
      | None => t
      end
  | PageHides now => flush_on_exit now t
  | TokensChange x => with_tab_tokens t x
  | LogOut => with_tab_tokens (discard t) None
  end.

(** [init]: the endpoint and the version the page was configured with, if any. *)
Definition init (config : option (bytes * bytes)) (x : option Login.MemoryTokens) : Tab :=
  mkTab ((λ c, new_exporter c.1 c.2) <$> config) x [] []
    (match config with
     | Some _ => []
     | None => ["sovereign-config: client telemetry is off (this deployment configures no ingest)"]
     end) [] [] [] [].

Definition run (config : option (bytes * bytes)) (x : option Login.MemoryTokens) (events : list Event) : Tab :=
  foldl on_event (init config x) events.

End page.

(** ** Theorems *)

(** *** Buffers *)

Lemma bytes_total_app a b : total (a ++ b) = (total a + total b)%Z.
Proof. induction a as [|x a IH]; [done|]. cbn. fold (total (a ++ b)) (total a). lia. Qed.

Lemma total_nonneg l : (0 ≤ total l)%Z.
Proof. induction l as [|x l IH]; [done|]. cbn. fold (total l). unfold len. lia. Qed.

(** A buffer that counts its bytes right and keeps its bounds. *)
Record BufferOk (b : Buffer) : Prop := {
  ok_counted : buffer_bytes b = total (records b);
  ok_records : length (records b) ≤ MAX_BUFFERED_ITEMS;
  ok_bytes : (total (records b) ≤ MAX_BUFFERED_BYTES)%Z;
  ok_limits : max_records b = MAX_BUFFERED_ITEMS ∧ max_bytes b = MAX_BUFFERED_BYTES }.

Lemma drop_oldest_spec mr mb l : ∀ size dropped, size = total l → (0 ≤ mb)%Z →
  let '(l', size', _) := drop_oldest mr mb l size dropped in
  (∃ gone, l = gone ++ l') ∧ size' = total l' ∧ length l' ≤ mr ∧ (total l' ≤ mb)%Z.
Proof.
  induction l as [|x l IH]; intros size d -> Hmb; cbn [drop_oldest].
  { split_and!; [by exists []|done|cbn; lia|done]. }
  destruct (_ || _) eqn:E.
  - assert (total (x :: l) - len x = total l)%Z as Hs by (cbn; fold (total l); lia).
    specialize (IH _ (d + 1)%Z Hs Hmb). destruct (drop_oldest _ _ _ _ _) as [[l' s'] d'].
    destruct IH as ([gone ->] & ? & ? & ?). split_and!; [by exists (x :: gone)|done..].
  - apply orb_false_iff in E as [E1%Nat.ltb_ge E2%Z.ltb_ge]. split_and!; [by exists []|done|lia|lia].
Qed.

Lemma push_spec b record : BufferOk b → BufferOk (push b record)
  ∧ ∃ gone, records b ++ [record] = gone ++ records (push b record)
  ∨ records b = gone ++ records (push b record).
Proof.
  intros [H1 H2 H3 [H4 H5]]. unfold push. destruct (Z.ltb_spec (max_bytes b) (len record)) as [Hlt|Hge].
  { split; [by split|]. exists []. by right. }
  pose proof (drop_oldest_spec (max_records b) (max_bytes b) (records b ++ [record]) (buffer_bytes b + len record)
    (buffer_dropped b)) as H. destruct (drop_oldest _ _ _ _ _) as [[l s] d].
  destruct H as ([gone E] & -> & ? & ?); [rewrite bytes_total_app, H1; cbn; lia|rewrite H5; unfold MAX_BUFFERED_BYTES; lia|].
  rewrite H4 in *. rewrite H5 in *. split; [by split|]. exists gone. by left.
Qed.

(** What a batch may be: the oldest records, as many as fit, at least one. *)
Lemma take_records_spec mr mb l : ∀ batch size, size = total batch → length batch ≤ mr →
  ((total batch ≤ mb)%Z ∨ length batch = 1) →
  let '(batch', rest) := take_records mr mb l batch size in
  batch ++ l = batch' ++ rest ∧ length batch' ≤ mr ∧ ((total batch' ≤ mb)%Z ∨ length batch' = 1)
  ∧ (batch' = [] → l = [] ∨ mr = 0) ∧ ∃ more, batch' = batch ++ more.
Proof.
  induction l as [|x l IH]; intros batch size -> Hl Ht; cbn [take_records].
  { rewrite app_nil_r. split_and!; [done|done|done|by left|exists []; by rewrite app_nil_r]. }
  destruct (_ || _) eqn:E.
  - split_and!; [done|done|done| |exists []; by rewrite app_nil_r]. intros ->.
    right. destruct mr; [done|by cbn in E].
  - apply orb_false_iff in E as [E1%Nat.eqb_neq E2].
    assert (length (batch ++ [x]) ≤ mr) as Hl' by (rewrite length_app; cbn; lia).
    assert ((total (batch ++ [x]) ≤ mb)%Z ∨ length (batch ++ [x]) = 1) as Ht'.
    { destruct batch as [|y batch]; [by right|]. left. cbn in E2. apply Z.ltb_ge in E2. rewrite bytes_total_app. cbn -[total] in *.
      cbn. cbn in E2. lia. }
    specialize (IH (batch ++ [x]) (total batch + len x)%Z). destruct (take_records _ _ _ _ _) as [batch' rest].
    destruct IH as (H1 & H2 & H3 & _ & more & ->); [rewrite bytes_total_app; cbn; lia|done|done|].
    rewrite <- app_assoc in H1. cbn [app] in H1. split_and!; [done|done|done| |exists (x :: more); by rewrite <- app_assoc].
    intros Hnil. by destruct batch.
Qed.

Lemma take_batch_spec b n size : BufferOk b → (0 ≤ size)%Z →
  let '(batch, b') := take_batch b n size in
  BufferOk b' ∧ records b = batch ++ records b' ∧ length batch ≤ n ∧ ((total batch ≤ size)%Z ∨ length batch = 1)
  ∧ (batch = [] → records b = [] ∨ n = 0) ∧ (total batch ≤ MAX_BUFFERED_BYTES)%Z.
Proof.
  intros [H1 H2 H3 [H4 H5]] Hs. unfold take_batch.
  pose proof (take_records_spec n size (records b) [] 0 eq_refl) as H.
  destruct (take_records _ _ _ _ _) as [batch rest]. destruct H as (E & Hn & Ht & Hnil & _); [cbn; lia|by left|].
  cbn [app] in E. assert (buffer_bytes b = total batch + total rest)%Z as Hb by (by rewrite H1, E, bytes_total_app).
  rewrite E in H2, H3. rewrite bytes_total_app in H3. rewrite length_app in H2.
  pose proof (total_nonneg batch). pose proof (total_nonneg rest).
  split_and!; [split; cbn -[total]; [lia|lia|lia|done]|done|done|done|done|lia].
Qed.

Lemma clear_buffer_ok b : BufferOk b → BufferOk (clear_buffer b).
Proof. intros []. split; cbn; [done|unfold MAX_BUFFERED_ITEMS; lia|done|done]. Qed.

Lemma pushes_spec l : ∀ b, BufferOk b → BufferOk (foldl push b l).
Proof. induction l as [|x l IH]; intros b Hb; [done|]. apply IH, push_spec, Hb. Qed.

(** *** Batches *)

Definition tag (s : Signal) (l : list bytes) : list (Signal * bytes) := List.map (pair s) l.
Definition carried (batches : list (Signal * list bytes)) : list (Signal * bytes) := flat_map (λ b, tag b.1 b.2) batches.

(** How often an item is in a list. *)
Definition times (x : Signal * bytes) (l : list (Signal * bytes)) : nat :=
  length (List.filter (λ y, bool_decide (x = y)) l).

Lemma times_app x a b : times x (a ++ b) = times x a + times x b.
Proof. unfold times. by rewrite List.filter_app, length_app. Qed.

Lemma tag_app s a b : tag s (a ++ b) = tag s a ++ tag s b.
Proof. apply List.map_app. Qed.

Lemma carried_app a b : carried (a ++ b) = carried a ++ carried b.
Proof. apply flat_map_app. Qed.

(** One request's worth. *)
Definition BatchOk (batch : list bytes) : Prop :=
  batch ≠ [] ∧ length batch ≤ MAX_BATCH_ITEMS ∧ ((total batch ≤ MAX_BATCH_BYTES)%Z ∨ length batch = 1)
  ∧ (total batch ≤ MAX_BUFFERED_BYTES)%Z.

(** What the exporter holds. *)
Definition waiting (e : Exporter) : list (Signal * bytes) :=
  match pending e with Some (s, batch) => tag s batch | None => [] end
  ++ tag Logs (records (logs e)) ++ tag Traces (records (traces e)).

Record ExporterOk (e : Exporter) : Prop := {
  ok_logs : BufferOk (logs e); ok_traces : BufferOk (traces e);
  ok_pending : match pending e with Some (_, batch) => BatchOk batch | None => True end }.

(** The rest of an exporter. *)
Definition same_rest (e e' : Exporter) : Prop :=
  policy e' = policy e ∧ flushing e' = flushing e ∧ endpoint e' = endpoint e ∧ service_version e' = service_version e
  ∧ dropped e' = dropped e.

Lemma next_batch_spec e : ExporterOk e →
  match next_batch e with
  | None => waiting e = []
  | Some (s, batch, e') =>
      ExporterOk e' ∧ same_rest e e' ∧ BatchOk batch ∧ pending e' = None ∧ waiting e = tag s batch ++ waiting e'
  end.
Proof.
  intros [Hl Ht Hp]. unfold next_batch, waiting. destruct (pending e) as [[s batch]|] eqn:Ep.
  { cbn -[tag]. split_and!; [by split|done..]. }
  pose proof (take_batch_spec (logs e) MAX_BATCH_ITEMS MAX_BATCH_BYTES Hl ltac:(done)) as H.
  destruct (take_batch _ _ _) as [batch b]. destruct H as (Hb & Eb & H1 & H2 & H3 & H4).
  destruct (is_empty batch) eqn:En; cbn -[tag take_batch].
  - assert (batch = []) as -> by by destruct batch. destruct (H3 eq_refl) as [E|E]; [|done]. rewrite E. clear H1 H2 H3 H4.
    pose proof (take_batch_spec (traces e) MAX_BATCH_ITEMS MAX_BATCH_BYTES Ht ltac:(done)) as H.
    destruct (take_batch _ _ _) as [batch b']. destruct H as (Hb' & Eb' & H1 & H2 & H3 & H4).
    destruct (is_empty batch) eqn:En'; cbn -[tag].
    + assert (batch = []) as -> by by destruct batch. by destruct (H3 eq_refl) as [->|?].
    + assert (batch ≠ []) by by destruct batch. rewrite E, Eb', tag_app. split_and!; [split; cbn; by rewrite ?Ep|done|done|done|by rewrite Ep].
  - assert (batch ≠ []) by by destruct batch. rewrite Eb, tag_app, <- app_assoc. split_and!; [split; cbn; by rewrite ?Ep|done|done|done|by rewrite Ep].
Qed.

Lemma carried_cons b l : carried (b :: l) = tag b.1 b.2 ++ carried l.
Proof. done. Qed.

Lemma times_extend x s batch l : times x (carried (extend s batch l)) = times x (carried l) + times x (tag s batch).
Proof.
  induction l as [|[s' l'] l IH]; cbn [extend]; [rewrite carried_cons; cbn [fst snd]; by rewrite times_app, Nat.add_comm|].
  case_bool_decide as E; rewrite !carried_cons, !times_app; cbn [fst snd]; [subst; rewrite tag_app, times_app; lia|lia].
Qed.

Lemma total_extend s batch l :
  total (flat_map snd (extend s batch l)) = (total (flat_map snd l) + total batch)%Z.
Proof.
  induction l as [|[s' l'] l IH]; cbn -[total]; [by rewrite app_nil_r|].
  case_bool_decide; cbn -[total]; rewrite !bytes_total_app; lia.
Qed.

Lemma queued_cons s b l : queued s (b :: l) = (if bool_decide (b.1 = s) then length b.2 else 0) + queued s l.
Proof. done. Qed.

Lemma queued_extend s' s batch l :
  queued s' (extend s batch l) = queued s' l + (if bool_decide (s = s') then length batch else 0).
Proof.
  induction l as [|[s0 l0] l IH]; cbn [extend]; [rewrite queued_cons; cbn [fst snd]; lia|].
  destruct (decide (s0 = s)) as [->|Hs].
  - rewrite bool_decide_eq_true_2 by done. rewrite !queued_cons. cbn [fst snd]. rewrite length_app. case_bool_decide; lia.
  - rewrite (bool_decide_eq_false_2 (s0 = s)) by done. rewrite !queued_cons. cbn [fst snd]. lia.
Qed.

Lemma extend_full s batch l : batch ≠ [] → Forall (λ b, b.2 ≠ []) l → Forall (λ b, b.2 ≠ []) (extend s batch l).
Proof.
  intros Hb Hl. induction l as [|[s' l'] l IH]; cbn; [by repeat constructor|]. apply Forall_cons in Hl as [H1 H2].
  case_bool_decide; constructor; auto. cbn in *. by destruct l'.
Qed.

Lemma extend_signals x s batch l : x ∈ List.map fst (extend s batch l) → x = s ∨ x ∈ List.map fst l.
Proof.
  induction l as [|[s' l'] l IH]; cbn; [by intros ?%list_elem_of_singleton; left|].
  case_bool_decide; cbn; [by right|]. intros [->|Hx]%elem_of_cons; [by right; left|].
  destruct (IH Hx); [by left|by right; right].
Qed.

Lemma extend_once s batch l : NoDup (List.map fst l) → NoDup (List.map fst (extend s batch l)).
Proof.
  induction l as [|[s' l'] l IH]; cbn; [intros _; apply NoDup_singleton|]. intros [Hn Hl]%NoDup_cons.
  case_bool_decide; cbn; apply NoDup_cons; [done|]. split; [|by apply IH].
  intros [?|?]%extend_signals; [by subst|done].
Qed.

(** What leaves with the page, however far that has come: the budget is kept, and
    nothing is taken that is not sent. *)
Record Unloading (e0 : Exporter) (st : Exporter * Z * list (Signal * list bytes)) : Prop := {
  u_ok : ExporterOk st.1.1; u_rest : same_rest e0 st.1.1;
  u_budget : (0 ≤ st.1.2 ∧ st.1.2 + total (flat_map snd st.2) = MAX_UNLOAD_BATCH_BYTES)%Z;
  u_items : ∀ s, queued s st.2 ≤ MAX_BATCH_ITEMS;
  u_full : Forall (λ b, b.2 ≠ []) st.2;
  u_once : NoDup (List.map fst st.2);
  u_times : ∀ x, times x (waiting e0) = times x (waiting st.1.1) + times x (carried st.2) }.

Lemma times_with_buffer x e s b batch : records (buffer e s) = batch ++ records b →
  times x (waiting e) = times x (tag s batch) + times x (waiting (with_buffer e s b)).
Proof.
  unfold waiting. destruct s; cbn -[tag times]; intros ->; rewrite !tag_app, !times_app; lia.
Qed.

Lemma with_buffer_ok e s b : ExporterOk e → BufferOk b → ExporterOk (with_buffer e s b).
Proof. intros [] Hb. by destruct s; split. Qed.

Lemma unload_signal_spec e0 st s : Unloading e0 st → Unloading e0 (unload_signal st s).
Proof.
  destruct st as [[e budget] batches]. intros [H1 H2 [H3 H3'] H4 H5 H7 H6]. cbn [fst snd] in *. unfold unload_signal.
  destruct (_ || _) eqn:E; [by split|]. apply orb_false_iff in E as [[E1%Z.eqb_neq E2%Nat.leb_gt]%orb_false_iff E3].
  assert (BufferOk (buffer e s)) as Hb by (destruct H1; by destruct s).
  destruct (front_len (buffer e s)) as [n|] eqn:Ef; [|done]. apply negb_false_iff, Z.leb_le in E3.
  pose proof (take_batch_spec (buffer e s) (MAX_BATCH_ITEMS - queued s batches) budget Hb H3) as H.
  destruct (take_batch _ _ _) as [batch b]. destruct H as (Hb' & Er & Hn & Ht & Hnil & _).
  assert (batch ≠ []) as Hne.
  { intros ->. destruct (Hnil eq_refl) as [E|E]; [|lia]. unfold front_len in Ef. by rewrite E in Ef. }
  assert (total batch ≤ budget)%Z as Htot.
  { destruct Ht as [Ht|Ht]; [done|]. destruct batch as [|x [|]]; [done| |done]. unfold front_len in Ef. rewrite Er in Ef.
    cbn in Ef |- *. injection Ef as <-. lia. }
  split; cbn [fst snd].
  - by apply with_buffer_ok.
  - destruct H2 as (? & ? & ? & ? & ?). by destruct s.
  - rewrite total_extend. lia.
  - intros s'. rewrite queued_extend. specialize (H4 s'). case_bool_decide; subst; lia.
  - by apply extend_full.
  - by apply extend_once.
  - intros x. rewrite H6, times_extend, (times_with_buffer x e s b batch Er). lia.
Qed.

Lemma unload_batches_spec e : ExporterOk e →
  let '(e', batches) := unload_batches e in
  ExporterOk e' ∧ same_rest e e' ∧ (total (flat_map snd batches) ≤ MAX_UNLOAD_BATCH_BYTES)%Z
  ∧ (∀ s, queued s batches ≤ MAX_BATCH_ITEMS) ∧ Forall (λ b, b.2 ≠ []) batches
  ∧ NoDup (List.map fst batches)
  ∧ ∀ x, times x (waiting e) = times x (waiting e') + times x (carried batches).
Proof.
  intros He. unfold unload_batches.
  match goal with |- context [foldl unload_signal ?st ALL] => set (st0 := st) end.
  assert (Unloading e st0) as H0.
  { destruct He as [Hl Ht Hp]. subst st0.
    assert (Unloading e (e, MAX_UNLOAD_BATCH_BYTES, [])) as Hnone
      by (split; cbn -[waiting]; [by split|done|done|intros; lia|done|by constructor|intros; lia]).
    destruct (pending e) as [[s batch]|] eqn:Ep; [|done]. destruct (Z.leb_spec (total batch) MAX_UNLOAD_BATCH_BYTES); [|done].
    destruct Hp as (Hne & Hn & _). split; cbn [fst snd].
    - by split.
    - done.
    - cbn -[total]. rewrite app_nil_r. lia.
    - intros s'. cbn. case_bool_decide; lia.
    - by repeat constructor.
    - apply NoDup_singleton.
    - intros x. unfold waiting. rewrite Ep. cbn -[tag times]. rewrite app_nil_r, !times_app. cbn. lia. }
  assert (Unloading e (foldl unload_signal st0 ALL)) as H by (cbn -[unload_signal]; by apply unload_signal_spec, unload_signal_spec).
  destruct (foldl unload_signal st0 ALL) as [[e' b] batches]. destruct H as [? ? [] ? ? ? ?]. cbn [fst snd] in *.
  split_and!; [done|done|lia|done|done|done|done].
Qed.

(** *** The policy *)

(** Answers since the last that was accepted. *)
Definition failing (l : list Outcome) : nat :=
  foldl (λ n o, match o with Accepted _ => 0 | _ => S n end) 0 l.

Lemma failing_snoc l o : failing (l ++ [o]) = match o with Accepted _ => 0 | _ => S (failing l) end.
Proof. unfold failing. by rewrite foldl_app. Qed.

(** What a policy has counted against the ingest, of 12 it lets pass. *)
Definition spent (p : Policy) : Z := 4 * abandoned p + retries p + (if refreshed_after_401 p then 1 else 0).
Definition PolicyOk (p : Policy) : Prop := stopped p = false ∧ (0 ≤ retries p ≤ 3)%Z ∧ (0 ≤ abandoned p ≤ 2)%Z.

Lemma spent_bound p : PolicyOk p → (spent p ≤ 12)%Z.
Proof. unfold spent. intros (_ & ? & ?). destruct (refreshed_after_401 p); lia. Qed.

(** Every answer that is not accepted is counted, or ends it all. *)
Definition Counted (p : Policy) (r : Policy * Next * option Transition) : Prop :=
  let '(p', next, _) := r in
  (next = Stop ∧ stopped p' = true) ∨ (next ≠ Stop ∧ next ≠ Done ∧ PolicyOk p' ∧ (spent p + 1 ≤ spent p')%Z).

Lemma abandon_counted p o : PolicyOk p → Counted p (abandon p o).
Proof.
  intros (Hs & Hr & Ha). unfold abandon. cbn [abandoned]. destruct (Z.leb_spec MAX_ABANDONED_BATCHES (abandoned p + 1)); [by left|].
  unfold MAX_ABANDONED_BATCHES in *. right. unfold PolicyOk, spent. cbn.
  split_and!; [done|done|done|lia|lia|lia|lia|destruct (refreshed_after_401 p); lia].
Qed.

Lemma retry_counted p o seconds jitter : PolicyOk p → Counted p (retry p o seconds jitter).
Proof.
  intros Hp. unfold retry. destruct (Z.leb_spec MAX_RETRIES (retries p)); [by apply abandon_counted|].
  destruct Hp as (Hs & Hr & Ha). unfold MAX_RETRIES in *. right. unfold PolicyOk, spent. cbn.
  split_and!; [done|done|done|lia|lia|lia|lia|destruct (refreshed_after_401 p); lia].
Qed.

Lemma decide_spec p o jitter : PolicyOk p →
  match o with
  | Accepted _ => ∃ p' tr, decide_ p o jitter = (p', Done, tr) ∧ PolicyOk p' ∧ spent p' = 0%Z
  | _ => Counted p (decide_ p o jitter)
  end.
Proof.
  intros Hp. pose proof Hp as (Hs & Hr & Ha). unfold decide_. rewrite Hs. destruct o as [rejected|status seconds|].
  - by eexists _, _.
  - destruct (status =? 401)%Z.
    + destruct (refreshed_after_401 p) eqn:Ef; [by left|]. right. unfold PolicyOk, spent. cbn. rewrite Ef. split_and!; try done; lia.
    + destruct (retryable status); [by apply retry_counted|by apply abandon_counted].
  - by apply retry_counted.
Qed.

(** *** The page *)

Definition exits (l : list Attempt) : list (Signal * bytes) :=
  flat_map (λ a, if keepalive (a_request a) then tag (a_signal a) (a_batch a) else []) l.
(** Requests that were not made on the way out. *)
Definition flushes (l : list Attempt) : nat := length (List.filter (λ a, negb (keepalive (a_request a))) l).
Definition in_flight (l : list Sending) : list (Signal * bytes) := flat_map (λ sd, tag (sd_signal sd) (sd_batch sd)) l.

Lemma exits_snoc l a : exits (l ++ [a]) = exits l ++ (if keepalive (a_request a) then tag (a_signal a) (a_batch a) else []).
Proof. unfold exits. rewrite flat_map_app. cbn. by rewrite app_nil_r. Qed.

Lemma flushes_snoc l a : flushes (l ++ [a]) = flushes l + (if keepalive (a_request a) then 0 else 1).
Proof. unfold flushes. rewrite List.filter_app, length_app. cbn. by destruct (keepalive _). Qed.

Lemma in_flight_app a b : in_flight (a ++ b) = in_flight a ++ in_flight b.
Proof. apply flat_map_app. Qed.

Lemma in_flight_snoc l sd : in_flight (l ++ [sd]) = in_flight l ++ tag (sd_signal sd) (sd_batch sd).
Proof. rewrite in_flight_app. cbn. by rewrite app_nil_r. Qed.

(** What holds of the page at any time; [hand] is what a flush that runs holds,
    and [timed] whether the browser took every timer so far. *)
Record PageOk (endpoint_ version : bytes) (timed : bool) (hand : option (list (Signal * bytes))) (t : Tab) (e : Exporter) : Prop := {
  p_exporter : exporter t = Some e;
  p_ok : ExporterOk e;
  p_config : endpoint e = endpoint_ ∧ service_version e = version;
  p_one : length (timers t) + length (sending t) + (if hand then 1 else 0) = if flushing e then 1 else 0;
  p_sending : Forall (λ sd, BatchOk (sd_batch sd)) (sending t);
  p_attempts : Forall (λ a, keepalive (a_request a) = false → BatchOk (a_batch a)) (attempts t);
  p_policy : if stopped (policy e) then flushing e = false ∧ waiting e = [] ∧ failing (answers t) ≤ 13
             else PolicyOk (policy e) ∧ (Z.of_nat (failing (answers t)) ≤ spent (policy e))%Z;
  p_answers : flushes (attempts t) = length (answers t) + length (sending t);
  p_timed : timed = true → flushing e = false → waiting e = [];
  p_times : ∀ x, times x (carried (accepted t)) + times x (exits (attempts t)) + times x (in_flight (sending t))
                 + times x (default [] hand) + times x (waiting e) ≤ times x (carried (said t)) }.

#[local] Arguments times : simpl never.
#[local] Arguments tag : simpl never.
#[local] Arguments carried : simpl never.
#[local] Arguments waiting : simpl never.
#[local] Arguments exits : simpl never.
#[local] Arguments flushes : simpl never.
#[local] Arguments in_flight : simpl never.
#[local] Arguments failing : simpl never.

Lemma times_nil x : times x [] = 0.
Proof. done. Qed.

(** What is left of the page after a change of the counts. *)
Ltac counts H x :=
  specialize (H x); cbn in H |- *; rewrite ?carried_app, ?in_flight_app, ?exits_snoc, ?times_app, ?times_nil in *; cbn in *; lia.

Section pages.
Context (json_text : Value → bytes) (endpoint_ version : bytes) (timed : bool).
Notation POk := (PageOk endpoint_ version timed).

(** A flush that ends sets a timer, or ends for good. *)
Lemma schedule_ok ok delay h t e : (timed = true → ok = true) → POk (Some h) t e →
  ∃ e', POk None (schedule_flush ok delay t) e'.
Proof.
  intros Hok [H1 H2 H3 H4 H5 H6 H7 H8 H9 H10]. assert (flushing e = true) as Ef by (destruct (flushing e); [done|lia]).
  rewrite Ef in H4. cbn in H4.
  destruct ok; cbn [schedule_flush].
  - exists e. split; try done; cbn.
    + rewrite Ef, length_app. cbn. lia.
    + intros x. counts H10 x.
  - unfold stop_flushing, on_exporter. rewrite H1. eexists. split; try done; cbn.
    + by destruct H2; split.
    + lia.
    + destruct (stopped _); [|done]. by destruct H7.
    + intros Ht. by specialize (Hok Ht).
    + intros x. unfold waiting in *. counts H10 x.
Qed.

Lemma running_flushes h t e : POk (Some h) t e → flushing e = true ∧ PolicyOk (policy e).
Proof.
  intros [H1 H2 H3 H4 H5 H6 H7 H8 H9 H10]. assert (flushing e = true) as Ef by (destruct (flushing e); [done|cbn in H4; lia]).
  split; [done|]. destruct (stopped (policy e)); [by destruct H7; congruence|by destruct H7].
Qed.

(** A running flush may change what the exporter and it hold between them. *)
Lemma change_ok h h' t e e1 : POk (Some h) t e → ExporterOk e1 → policy e1 = policy e → flushing e1 = flushing e →
  endpoint e1 = endpoint e → service_version e1 = service_version e →
  (∀ x, times x h' + times x (waiting e1) ≤ times x h + times x (waiting e)) → POk (Some h') (with_exporter t (Some e1)) e1.
Proof.
  intros HP He Ep Ef En Ev Ht. pose proof (running_flushes _ _ _ HP) as [Hf Hpol].
  destruct HP as [H1 H2 H3 H4 H5 H6 H7 H8 H9 H10]. split; try done; cbn; rewrite ?Ep, ?Ef, ?En, ?Ev; try done.
  - destruct (stopped (policy e)); [by destruct H7; congruence|done].
  - intros _. congruence.
  - intros x. specialize (Ht x). counts H10 x.
Qed.

Lemma same_tab t e : exporter t = Some e → with_exporter t (Some e) = t.
Proof. destruct t. cbn. by intros ->. Qed.

Lemma park_ok ok s batch delay h t e : (timed = true → ok = true) → POk (Some h) t e → BatchOk batch →
  (∀ x, times x (tag s batch) ≤ times x h) → ∃ e', POk None (park ok s batch delay t) e'.
Proof.
  intros Hok HP Hb Hh. unfold park. apply schedule_ok with (h := []) (e := with_pending e (Some (s, batch))); [done|].
  unfold on_exporter. rewrite (p_exporter _ _ _ _ _ _ HP). apply (change_ok h _ _ e); try done.
  - destruct (p_ok _ _ _ _ _ _ HP). by split.
  - intros x. specialize (Hh x). unfold waiting. cbn. rewrite !times_app, times_nil. destruct (pending e) as [[]|]; lia.
Qed.

Lemma clear_ok e : ExporterOk e → ExporterOk (clear e) ∧ waiting (clear e) = [].
Proof. intros [Hl Ht _]. split; [split; cbn; by try apply clear_buffer_ok|done]. Qed.

(** A flush that finds nothing to do, or nobody to do it for. *)
Lemma finish_ok h t e e1 : POk (Some h) t e → ExporterOk e1 → waiting e1 = [] → policy e1 = policy e →
  endpoint e1 = endpoint e → service_version e1 = service_version e →
  POk None (with_exporter t (Some (with_flushing e1 false))) (with_flushing e1 false).
Proof.
  intros HP He Hw Ep En Ev. pose proof (running_flushes _ _ _ HP) as [Hf Hpol].
  destruct HP as [H1 H2 H3 H4 H5 H6 H7 H8 H9 H10]. rewrite Hf in H4. cbn in H4.
  assert (waiting (with_flushing e1 false) = []) as Hw' by exact Hw.
  split; try done; cbn; rewrite ?Ep, ?En, ?Ev; try done.
  - by destruct He; split.
  - lia.
  - destruct (stopped (policy e)) eqn:Es; [|done]. destruct Hpol. congruence.
  - intros x. rewrite Hw'. counts H10 x.
Qed.

Lemma send_ok s batch a expires t e : POk (Some (tag s batch)) t e → BatchOk batch → a_batch a = batch →
  keepalive (a_request a) = false →
  POk None (with_sending (made t a) (sending (made t a) ++ [mkSending s batch expires])) e.
Proof.
  intros [H1 H2 H3 H4 H5 H6 H7 H8 H9 H10] Hb Ha Hk. split; try done; cbn; rewrite ?length_app; cbn.
  - cbn in H4. lia.
  - by apply Forall_app; split; [|constructor].
  - apply Forall_app. split; [done|]. constructor; [|done]. by rewrite Ha.
  - rewrite flushes_snoc, Hk, H8. lia.
  - intros x. specialize (H10 x). cbn in H10. rewrite exits_snoc, Hk, in_flight_snoc, app_nil_r. cbn.
    rewrite !times_app, times_nil. lia.
Qed.

Lemma round_ok ok now t e : (timed = true → ok = true) → POk (Some []) t e →
  ∃ e', POk None (flush_round json_text ok now t) e'.
Proof.
  intros Hok HP. pose proof (running_flushes _ _ _ HP) as [Hf [Hs _]]. unfold flush_round.
  rewrite (p_exporter _ _ _ _ _ _ HP), Hs. pose proof (next_batch_spec e (p_ok _ _ _ _ _ _ HP)) as Hn.
  destruct (next_batch e) as [[[s batch] e1]|].
  - destruct Hn as (He1 & (E1 & E2 & E3 & E4 & _) & Hb & _ & Hw).
    assert (POk (Some (tag s batch)) (with_exporter t (Some e1)) e1) as HP1.
    { apply (change_ok [] _ _ e); try done. intros x. rewrite Hw, times_app, times_nil. lia. }
    destruct (current_token _ _) as [[token expires]|].
    + exists e1. by apply send_ok.
    + destruct (logged_in _); [by apply (park_ok ok s batch _ (tag s batch) _ e1)|].
      unfold stop_flushing, discard, on_exporter. cbn. exists (with_flushing (clear e1) false).
      destruct (clear_ok e1 He1) as [Hc Hw1]. exact (finish_ok _ _ _ (clear e1) HP1 Hc Hw1 eq_refl eq_refl eq_refl).
  - exists (with_flushing e false). exact (finish_ok _ _ _ e HP (p_ok _ _ _ _ _ _ HP) Hn eq_refl eq_refl eq_refl).
Qed.

Lemma report_ok h tr url t e : POk h t e → POk h (report tr url t) e.
Proof.
  intros HP. unfold report. destruct (match tr with Some _ => _ | None => _ end) as [line|]; [|done].
  by destruct HP; split.
Qed.

Lemma report_frame tr url t : exporter (report tr url t) = exporter t ∧ timers (report tr url t) = timers t
  ∧ sending (report tr url t) = sending t ∧ attempts (report tr url t) = attempts t ∧ answers (report tr url t) = answers t
  ∧ accepted (report tr url t) = accepted t ∧ said (report tr url t) = said t.
Proof. unfold report. by destruct (match tr with Some _ => _ | None => _ end). Qed.

Lemma dropped_ok h n t e : POk (Some h) t e → ∃ e', POk (Some []) (note_dropped n t) e'.
Proof.
  intros HP. exists (with_dropped e (dropped e + Z.of_nat n)). unfold note_dropped, on_exporter.
  rewrite (p_exporter _ _ _ _ _ _ HP). apply (change_ok h _ _ e); try done.
  - destruct (p_ok _ _ _ _ _ _ HP). by split.
  - intros x. rewrite times_nil. unfold waiting. cbn. lia.
Qed.

Lemma tokens_ok h t e x : POk h t e → POk h (with_tab_tokens t x) e.
Proof. intros []. by split. Qed.

Lemma stale_ok h t e x : POk h t e → POk h (mark_token_stale t x) e.
Proof. intros HP. unfold mark_token_stale. destruct (tokens t); [|done]. destruct (F64.ltb _ _); [by apply tokens_ok|done]. Qed.

(** The one flush that runs. *)
Lemma sending_one i sd t e : POk None t e → sending t !! i = Some sd →
  sending t = [sd] ∧ timers t = [] ∧ flushing e = true ∧ without i (sending t) = [] ∧ BatchOk (sd_batch sd).
Proof.
  intros [H1 H2 H3 H4 H5 H6 H7 H8 H9 H10] Hi. cbn in H4. destruct (sending t) as [|sd' l] eqn:El; [done|].
  destruct (flushing e); [|cbn in H4; lia]. cbn in H4. destruct l; [|cbn in H4; lia].
  destruct (timers t); [|cbn in H4; lia]. destruct i; [|done]. injection Hi as ->. apply Forall_cons in H5 as [Hb _]. done.
Qed.

(** The answer to a request, taken in. *)
Definition took (t : Tab) (i : nat) (sd : Sending) (o : Outcome) (e : Exporter) : Tab :=
  mkTab (Some e) (tokens t) (timers t) (without i (sending t)) (console t) (attempts t) (answers t ++ [o])
    (match o with Accepted _ => accepted t ++ [(sd_signal sd, sd_batch sd)] | _ => accepted t end) (said t).

Lemma took_ok i sd o p t e : POk None t e → sending t !! i = Some sd → PolicyOk p →
  match o with Accepted _ => spent p = 0%Z | _ => (spent (policy e) + 1 ≤ spent p)%Z end → stopped (policy e) = false →
  POk (Some (match o with Accepted _ => [] | _ => tag (sd_signal sd) (sd_batch sd) end)) (took t i sd o (with_policy e p))
    (with_policy e p).
Proof.
  intros HP Hi Hp Hs Hst. destruct (sending_one i sd t e HP Hi) as (E1 & E2 & E3 & E4 & _).
  destruct HP as [H1 H2 H3 H4 H5 H6 H7 H8 H9 H10]. rewrite Hst in H7. destruct H7 as [Hpol Hf].
  split; try done; cbn; rewrite ?E2, ?E3, ?E4; try done.
  - by destruct H2; split.
  - destruct Hp as (Hsp & Hr & Ha). rewrite Hsp. split; [done|]. rewrite failing_snoc. destruct o; [rewrite Hs; cbn; lia|lia..].
  - rewrite H8, E1, length_app. cbn. lia.
  - intros x. specialize (H10 x). rewrite E1 in H10. unfold in_flight in *. cbn in *. rewrite app_nil_r in H10.
    unfold waiting in *. cbn. rewrite !times_app, !times_nil in *.
    destruct o; rewrite ?carried_app, ?times_app, ?times_nil, ?carried_cons; cbn; rewrite ?times_app, ?times_nil; lia.
Qed.

Lemma answered_took ok now i sd o jitter t e : exporter t = Some e →
  answered json_text ok now sd o jitter (with_sending t (without i (sending t))) =
  let '(p, next, tr) := decide_ (policy e) o jitter in
  let t' := report tr (endpoint e) (took t i sd o (with_policy e p)) in
  match next with
  | Done => flush_round json_text ok now t'
  | Drop => flush_round json_text ok now (note_dropped (length (sd_batch sd)) t')
  | RetryAfter delay => park ok (sd_signal sd) (sd_batch sd) delay t'
  | RefreshThenRetry => park ok (sd_signal sd) (sd_batch sd) TOKEN_WAIT_MS (mark_token_stale t' (sd_expires sd))
  | Stop => stop_flushing (discard (note_dropped (length (sd_batch sd)) t'))
  end.
Proof. intros E. unfold answered. cbn [exporter with_sending]. by rewrite E. Qed.

Lemma answered_ok ok now i sd o jitter t e : (timed = true → ok = true) → POk None t e → sending t !! i = Some sd →
  ∃ e', POk None (answered json_text ok now sd o jitter (with_sending t (without i (sending t)))) e'.
Proof.
  intros Hok HP Hi. destruct (sending_one i sd t e HP Hi) as (E1 & E2 & E3 & E4 & Hb).
  assert (stopped (policy e) = false ∧ PolicyOk (policy e)) as [Hst Hpol].
  { pose proof (p_policy _ _ _ _ _ _ HP) as Hp. destruct (stopped (policy e)); [destruct Hp; congruence|by destruct Hp]. }
  rewrite (answered_took ok now i sd o jitter t e (p_exporter _ _ _ _ _ _ HP)).
  pose proof (decide_spec (policy e) o jitter Hpol) as Hd. destruct (decide_ (policy e) o jitter) as [[p next] tr]. cbn zeta.
  assert ((∃ r, o = Accepted r ∧ next = Done ∧ PolicyOk p ∧ spent p = 0%Z)
    ∨ (∀ r, o ≠ Accepted r) ∧ Counted (policy e) (p, next, tr)) as [(r & -> & -> & Hp & Hsp)|[Hno Hc]].
  { destruct o; [left|right; by split..]. destruct Hd as (p' & tr' & [= -> -> ->] & ? & ?). eauto. }
  { apply (round_ok ok now _ (with_policy e p) Hok), report_ok. exact (took_ok i sd (Accepted r) p t e HP Hi Hp Hsp Hst). }
  cbn in Hc. destruct Hc as [[-> Hstop]|(Hns & Hnd & Hp & Hsp)].
  - (* the end *)
    destruct (report_frame tr (endpoint e) (took t i sd o (with_policy e p))) as (F1 & F2 & F3 & F4 & F5 & F6 & F7).
    set (t1 := report tr (endpoint e) (took t i sd o (with_policy e p))) in *. clearbody t1.
    unfold stop_flushing, discard, note_dropped, on_exporter. cbn. rewrite F1. cbn. eexists.
    destruct HP as [H1 H2 H3 H4 H5 H6 H7 H8 H9 H10]. rewrite Hst in H7. destruct H7 as [_ Hf].
    split; try done; cbn; rewrite ?F2, ?F3, ?F4, ?F5, ?F6, ?F7; cbn; rewrite ?E2, ?E4; try done.
    + destruct H2 as [Hl Ht _]. split; cbn; by try apply clear_buffer_ok.
    + rewrite Hstop. split_and!; [done|done|]. rewrite failing_snoc. pose proof (spent_bound _ Hpol). destruct o; lia.
    + rewrite H8, E1, length_app. cbn. lia.
    + intros x. specialize (H10 x). rewrite E1 in H10. unfold in_flight, waiting in *. cbn in *.
      rewrite !times_app, !times_nil in *. destruct o; [by destruct (Hno rejected)|lia..].
  - assert (POk (Some (tag (sd_signal sd) (sd_batch sd))) (report tr (endpoint e) (took t i sd o (with_policy e p)))
      (with_policy e p)) as Hmid.
    { apply report_ok. destruct o as [r|status seconds|]; [by destruct (Hno r)|exact (took_ok i sd (Status status seconds) p t e HP Hi Hp Hsp Hst)|].
      exact (took_ok i sd Unreachable p t e HP Hi Hp Hsp Hst). }
    destruct next as [|delay| | |]; [done| | | |done].
    + by eapply (park_ok ok _ _ _ _ _ _ Hok Hmid).
    + by eapply (park_ok ok _ _ _ _ _ _ Hok (stale_ok _ _ _ _ Hmid)).
    + destruct (dropped_ok _ (length (sd_batch sd)) _ _ Hmid) as [e' He']. exact (round_ok ok now _ e' Hok He').
Qed.

Lemma pushes_times x s l : ∀ b, BufferOk b →
  times x (tag s (records (foldl push b l))) ≤ times x (tag s (records b)) + times x (tag s l).
Proof.
  induction l as [|r l IH]; intros b Hb; cbn; [lia|]. destruct (push_spec b r Hb) as [Hb' [gone Hg]].
  specialize (IH _ Hb'). change (r :: l) with ([r] ++ l). rewrite tag_app, times_app.
  destruct Hg as [E|E]; apply (f_equal (λ l, times x (tag s l))) in E; rewrite !tag_app, !times_app in E; lia.
Qed.

Lemma waiting_with_buffer x e s b :
  times x (waiting (with_buffer e s b)) + times x (tag s (records (buffer e s)))
  = times x (waiting e) + times x (tag s (records b)).
Proof. unfold waiting. destruct s; cbn; rewrite !times_app; lia. Qed.

Lemma enqueue_ok ok now s l t e : (timed = true → ok = true) → POk None t e → stopped (policy e) = false →
  ∃ e', POk None (enqueue ok now s l t) e'.
Proof.
  intros Hok HP Hst. unfold enqueue. rewrite (p_exporter _ _ _ _ _ _ HP).
  set (e1 := with_flushing _ true).
  set (t1 := mkTab _ _ _ _ _ _ _ _ _).
  assert (POk (if flushing e then None else Some []) t1 e1) as HP1.
  { destruct HP as [H1 H2 H3 H4 H5 H6 H7 H8 H9 H10]. rewrite Hst in H7. cbn in H4. split; try done.
    - subst e1. assert (ExporterOk (with_buffer e s (foldl push (buffer e s) l))) as He.
      { apply with_buffer_ok; [done|]. apply pushes_spec. destruct H2. by destruct s. }
      destruct He. by split.
    - cbn. destruct (flushing e); cbn; lia.
    - cbn. by rewrite Hst.
    - intros x. specialize (H10 x).
      assert (times x (waiting e1) = times x (waiting (with_buffer e s (foldl push (buffer e s) l)))) as -> by done.
      pose proof (waiting_with_buffer x e s (foldl push (buffer e s) l)).
      pose proof (pushes_times x s l (buffer e s) ltac:(destruct H2; by destruct s)).
      cbn in *. rewrite carried_app, times_app. unfold carried at 3. cbn. rewrite app_nil_r.
      destruct (flushing e); cbn; rewrite ?times_nil in *; lia. }
  clearbody t1 e1. change (flushing (with_buffer e s _)) with (flushing e).
  destruct (flushing e); cbn [negb]; [by exists e1|]. exact (schedule_ok ok _ _ _ _ Hok HP1).
Qed.

Lemma emit_ok ok now r t e : (timed = true → ok = true) → POk None t e → ∃ e', POk None (emit json_text ok now r t) e'.
Proof.
  intros Hok HP. unfold emit, enabled. rewrite (p_exporter _ _ _ _ _ _ HP). destruct (stopped (policy e)) eqn:Es; cbn [negb]; [by exists e|].
  destruct (logged_in t); [by eapply enqueue_ok|]. exists e. destruct (Trace.severity r); [done|]. by destruct HP; split.
Qed.

Lemma end_action_ok ok now l t e : (timed = true → ok = true) → POk None t e →
  ∃ e', POk None (end_action json_text ok now l t) e'.
Proof.
  intros Hok HP. unfold end_action, enabled. rewrite (p_exporter _ _ _ _ _ _ HP).
  destruct (stopped (policy e)) eqn:Es; cbn [negb orb]; [by exists e|].
  destruct (_ || _); [by exists e|by eapply enqueue_ok].
Qed.

Lemma foldl_made {A} (f : A → Attempt) l : ∀ t, foldl (λ t b, made t (f b)) t l =
  mkTab (exporter t) (tokens t) (timers t) (sending t) (console t) (attempts t ++ List.map f l) (answers t) (accepted t) (said t).
Proof.
  induction l as [|b l IH]; intros t; cbn; [rewrite app_nil_r; by destruct t|]. rewrite IH. cbn. by rewrite <- app_assoc.
Qed.

Lemma exits_map e token l : exits (List.map (λ b, attempt json_text e b.1 b.2 token true) l) = carried l.
Proof. induction l as [|b l IH]; [done|]. unfold exits in *. cbn. by rewrite IH. Qed.

Lemma exit_ok now t e : POk None t e → ∃ e', POk None (flush_on_exit json_text now t) e'.
Proof.
  intros HP. unfold flush_on_exit. destruct (current_token t now) as [[token z]|]; [|by exists e].
  rewrite (p_exporter _ _ _ _ _ _ HP). destruct (stopped (policy e)) eqn:Es; [by exists e|].
  pose proof (unload_batches_spec e (p_ok _ _ _ _ _ _ HP)) as Hu. destruct (unload_batches e) as [e' l].
  destruct Hu as (He & (E1 & E2 & E3 & E4 & _) & _ & _ & _ & _ & Ht). exists e'.
  rewrite (foldl_made (λ b, attempt json_text e b.1 b.2 token true)).
  destruct HP as [H1 H2 H3 H4 H5 H6 H7 H8 H9 H10]. rewrite Es in H7.
  split; try done; cbn [exporter timers sending attempts answers accepted said with_exporter].
  - by rewrite E3, E4.
  - by rewrite E2.
  - apply Forall_app. split; [done|]. apply Forall_map. apply Forall_true. intros b. cbn. done.
  - by rewrite E1, Es.
  - rewrite <- H8. unfold flushes. rewrite List.filter_app, length_app. clear. induction l; cbn in *; lia.
  - intros Htm Hf. rewrite E2 in Hf. specialize (H9 Htm Hf).
    destruct (waiting e') as [|y w] eqn:Ew; [done|]. specialize (Ht y). rewrite H9 in Ht. unfold times in Ht. cbn in Ht.
    rewrite bool_decide_eq_true_2 in Ht by done. cbn in Ht. lia.
  - intros x. specialize (H10 x). specialize (Ht x). unfold exits in *. rewrite flat_map_app. fold (exits (attempts t)) in *.
    pose proof (exits_map e token l) as Em. unfold exits in Em. rewrite Em, times_app. cbn in *. lia.
Qed.

(** Whether the browser took the timers an event sets. *)
Definition timers_taken (ev : Event) : Prop :=
  match ev with
  | CallEnds ok _ _ | ActionEnds ok _ _ | TimerFires _ ok _ | Answer _ ok _ _ _ => ok = true
  | _ => True
  end.

Lemma timer_ok i ok now t e n : (timed = true → ok = true) → POk None t e → timers t !! i = Some n →
  ∃ e', POk None (flush json_text ok now (with_timers t (without i (timers t)))) e'.
Proof.
  intros Hok HP Hi. assert (POk (Some []) (with_timers t (without i (timers t))) e) as HP1.
  { destruct HP as [H1 H2 H3 H4 H5 H6 H7 H8 H9 H10]. split; try done. cbn in *.
    assert (S (length (without i (timers t))) = length (timers t)) as Hl.
    { unfold without. rewrite length_app, length_take, length_drop. apply lookup_lt_Some in Hi. lia. }
    lia. }
  unfold flush. destruct (match exporter _ with Some _ => _ | None => _ end) as [wait|]; [|by eapply round_ok].
  by eapply schedule_ok.
Qed.

Lemma event_ok ev t e : (timed = true → timers_taken ev) → POk None t e → ∃ e', POk None (on_event json_text t ev) e'.
Proof.
  intros Hok HP. destruct ev as [ok now r|ok now l|i ok now|i ok now o jitter|now|x|]; cbn in Hok; cbn [on_event].
  - by eapply emit_ok.
  - by eapply end_action_ok.
  - destruct (timers t !! i) eqn:Ei; [by eapply timer_ok|by exists e].
  - destruct (sending t !! i) eqn:Ei; [by eapply answered_ok|by exists e].
  - by eapply exit_ok.
  - exists e. by apply tokens_ok.
  - exists (clear e). apply tokens_ok. unfold discard, on_exporter. rewrite (p_exporter _ _ _ _ _ _ HP). cbn.
    destruct HP as [H1 H2 H3 H4 H5 H6 H7 H8 H9 H10]. destruct (clear_ok e H2) as [Hc Hw].
    split; try done; rewrite ?Hw; cbn.
    + destruct (stopped (policy e)); [|done]. destruct H7 as (? & _ & ?). by split_and!.
    + intros x. counts H10 x.
Qed.

Lemma run_ok raw x events : (timed = true → Forall timers_taken events) → endpoint_ = trim_end_matches "/"%char raw →
  ∃ e, POk None (run json_text (Some (raw, version)) x events) e.
Proof.
  intros Hok Hend. unfold run. induction events as [|ev events IH] using rev_ind.
  - exists (new_exporter raw version). assert (BufferOk (new_buffer MAX_BUFFERED_ITEMS MAX_BUFFERED_BYTES)) as Hb.
    { split; cbn; [done|unfold MAX_BUFFERED_ITEMS; lia|done|done]. }
    by split.
  - rewrite foldl_app. cbn [foldl]. destruct IH as [e He].
    { intros Ht. specialize (Hok Ht). by apply Forall_app in Hok as [? _]. }
    apply (event_ok ev _ e); [|done]. intros Ht. specialize (Hok Ht). apply Forall_app in Hok as [_ Hok].
    by apply Forall_cons in Hok as [? _].
Qed.

End pages.

(** *** Requests *)

Section requests.
Context (json_text : Value → bytes).

(** What an event makes the page send, under the session it has. *)
Definition Sends (now : spec_float) (t : Tab) (new : list Attempt) : Prop :=
  new = [] ∨ ∃ x e, tokens t = Some x ∧ exporter t = Some e
    ∧ F64.ltb (F64.add now TOKEN_MARGIN_MS) (Login.access_expires_at_ms x) = true
    ∧ ∀ a, a ∈ new → a_request a = request (endpoint e ++ signal_path (a_signal a))
        (signal_request json_text (a_signal a) (service_version e) (a_batch a)) (Login.access_token x) (keepalive (a_request a)).

Lemma current_token_spec t now token expires : current_token t now = Some (token, expires) →
  ∃ x, tokens t = Some x ∧ token = Login.access_token x
    ∧ F64.ltb (F64.add now TOKEN_MARGIN_MS) (Login.access_expires_at_ms x) = true.
Proof.
  unfold current_token. destruct (tokens t) as [x|]; [|done]. destruct (F64.ltb _ _) eqn:E; [|done]. intros [= <- <-]. eauto.
Qed.

Lemma schedule_attempts ok d t : attempts (schedule_flush ok d t) = attempts t.
Proof. by destruct ok. Qed.

Lemma next_batch_config e s batch e' : next_batch e = Some (s, batch, e') →
  endpoint e' = endpoint e ∧ service_version e' = service_version e.
Proof.
  unfold next_batch. destruct (pending e) as [[]|]; [by intros [= <- <- <-]|]. destruct (take_batch _ _ _) as [b1 x1].
  destruct (negb _); [by intros [= <- <- <-]|]. destruct (take_batch _ _ _) as [b2 x2]. destruct (negb _); [by intros [= <- <- <-]|done].
Qed.

Lemma round_sends ok now t : ∃ new, attempts (flush_round json_text ok now t) = attempts t ++ new ∧ Sends now t new
  ∧ length new ≤ 1 ∧ Forall (λ a, keepalive (a_request a) = false) new.
Proof.
  assert (∀ t', attempts t' = attempts t → ∃ new, attempts t' = attempts t ++ new ∧ Sends now t new ∧ length new ≤ 1
    ∧ Forall (λ a, keepalive (a_request a) = false) new) as Hnone.
  { intros t' E. exists []. rewrite E, app_nil_r. split_and!; [done|by left|cbn; lia|done]. }
  unfold flush_round. destruct (exporter t) as [e|] eqn:Ee; [|by apply Hnone]. destruct (stopped (policy e)); [by apply Hnone|].
  destruct (next_batch e) as [[[s batch] e1]|] eqn:En; [|by apply Hnone]. apply next_batch_config in En as [E1 E2].
  destruct (current_token _ _) as [[token expires]|] eqn:Et.
  - apply current_token_spec in Et as (x & Hx & -> & Hl). eexists. split; [done|].
    split_and!; [|done|by repeat constructor]. right. exists x, e. split_and!; [done|done|done|].
    intros a Ha. apply list_elem_of_singleton in Ha as ->. cbn. unfold url. by rewrite E1, E2.
  - destruct (logged_in _); apply Hnone; [unfold park; by rewrite schedule_attempts|done].
Qed.

Definition time_of (ev : Event) : spec_float :=
  match ev with
  | CallEnds _ now _ | ActionEnds _ now _ | TimerFires _ _ now | Answer _ _ now _ _ | PageHides now => now
  | _ => F64.zero
  end.
Definition hides (ev : Event) : bool := match ev with PageHides _ => true | _ => false end.

Lemma enqueue_attempts ok now s l t : attempts (enqueue ok now s l t) = attempts t.
Proof. unfold enqueue. destruct (exporter t); [|done]. destruct (negb _); [by rewrite schedule_attempts|done]. Qed.

Lemma answered_sends ok now sd o jitter t : ∃ new,
  attempts (answered json_text ok now sd o jitter t) = attempts t ++ new ∧ Sends now t new ∧ length new ≤ 1
  ∧ Forall (λ a, keepalive (a_request a) = false) new.
Proof.
  assert (∀ t', attempts t' = attempts t → ∃ new, attempts t' = attempts t ++ new ∧ Sends now t new ∧ length new ≤ 1
    ∧ Forall (λ a, keepalive (a_request a) = false) new) as Hnone.
  { intros t' E. exists []. rewrite E, app_nil_r. split_and!; [done|by left|cbn; lia|done]. }
  unfold answered. destruct (exporter t) as [e|] eqn:Ee; [|by apply Hnone].
  destruct (decide_ (policy e) o jitter) as [[p next] tr].
  set (t1 := report _ _ _).
  assert (exporter t1 = Some (with_policy e p) ∧ tokens t1 = tokens t ∧ attempts t1 = attempts t) as (F1 & F2 & F3).
  { subst t1. unfold report. by destruct (match tr with Some _ => _ | None => _ end). }
  clearbody t1.
  assert (∀ t2, exporter t2 = Some (with_policy e p) ∨ (∃ n, exporter t2 = Some (with_dropped (with_policy e p) n)) →
    tokens t2 = tokens t → attempts t2 = attempts t → ∃ new, attempts (flush_round json_text ok now t2) = attempts t ++ new
      ∧ Sends now t new ∧ length new ≤ 1 ∧ Forall (λ a, keepalive (a_request a) = false) new) as Hround.
  { intros t2 Hx Htk Hat. destruct (round_sends ok now t2) as (new & Ha & Hs & Hr). exists new. rewrite Ha, Hat. split_and!; [done| |apply Hr..].
    destruct Hs as [->|(x & e2 & Hx2 & He2 & Hl & Hall)]; [by left|right]. exists x, e. rewrite <- Htk. split_and!; [done|done|done|].
    destruct Hx as [Hx|[n Hx]]; rewrite Hx in He2; injection He2 as <-; exact Hall. }
  destruct next.
  - by apply Hround; [left| |].
  - apply Hnone. unfold park. rewrite schedule_attempts. done.
  - apply Hnone. unfold park. rewrite schedule_attempts. cbn. unfold mark_token_stale.
    destruct (tokens t1); [|done]. by destruct (F64.ltb _ _).
  - apply Hround; [right|done|done]. unfold note_dropped, on_exporter. rewrite F1. cbn. eauto.
  - by apply Hnone.
Qed.

Lemma event_sends t ev : ∃ new, attempts (on_event json_text t ev) = attempts t ++ new ∧ Sends (time_of ev) t new
  ∧ (hides ev = false → length new ≤ 1 ∧ Forall (λ a, keepalive (a_request a) = false) new).
Proof.
  assert (∀ t' now, attempts t' = attempts t → ∃ new, attempts t' = attempts t ++ new ∧ Sends now t new
    ∧ (hides ev = false → length new ≤ 1 ∧ Forall (λ a, keepalive (a_request a) = false) new)) as Hnone.
  { intros t' now E. exists []. rewrite E, app_nil_r. split_and!; [done|by left|intros _; split; [cbn; lia|done]]. }
  destruct ev as [ok now r|ok now l|i ok now|i ok now o jitter|now|x|]; cbn [on_event time_of].
  - apply Hnone. unfold emit. destruct (negb _); [done|]. destruct (logged_in t); [apply enqueue_attempts|by destruct (Trace.severity r)].
  - apply Hnone. unfold end_action. destruct (_ || _); [done|apply enqueue_attempts].
  - destruct (timers t !! i); [|by apply Hnone]. unfold flush.
    destruct (match exporter _ with Some _ => _ | None => _ end); [apply Hnone; by rewrite schedule_attempts|].
    destruct (round_sends ok now (with_timers t (without i (timers t)))) as (new & Ha & Hs & Hr). exists new. split_and!; [done|exact Hs|done].
  - destruct (sending t !! i) as [sd|]; [|by apply Hnone].
    destruct (answered_sends ok now sd o jitter (with_sending t (without i (sending t)))) as (new & Ha & Hs & Hr).
    exists new. split_and!; [done|exact Hs|done].
  - unfold flush_on_exit. destruct (current_token t now) as [[token expires]|] eqn:Et; [|by apply Hnone].
    destruct (exporter t) as [e|] eqn:Ee; [|by apply Hnone]. destruct (stopped (policy e)); [by apply Hnone|].
    destruct (unload_batches e) as [e' l]. rewrite (foldl_made (λ b, attempt json_text e b.1 b.2 token true)). cbn [attempts with_exporter].
    exists (List.map (λ b, attempt json_text e b.1 b.2 token true) l). split; [done|]. split; [|done].
    apply current_token_spec in Et as (x & Hx & -> & Hl). right. exists x, e. split_and!; [done|done|done|].
    intros a Ha. apply list_elem_of_In, in_map_iff in Ha as (b & <- & _). done.
  - by apply Hnone.
  - by apply Hnone.
Qed.
End requests.

(** *** The end *)

Lemma stopped_empty endpoint_ version timed t e : PageOk endpoint_ version timed None t e → stopped (policy e) = true →
  timers t = [] ∧ sending t = [] ∧ waiting e = [].
Proof.
  intros [H1 H2 H3 H4 H5 H6 H7 H8 H9 H10] Hs. rewrite Hs in H7. destruct H7 as (Hf & Hw & _). rewrite Hf in H4. cbn in H4.
  destruct (timers t), (sending t); cbn in H4; [done|lia..].
Qed.

Lemma stopped_step json_text endpoint_ version timed t e ev : PageOk endpoint_ version timed None t e →
  stopped (policy e) = true →
  attempts (on_event json_text t ev) = attempts t
  ∧ ∃ e', exporter (on_event json_text t ev) = Some e' ∧ policy e' = policy e.
Proof.
  intros HP Hs. pose proof (p_exporter _ _ _ _ _ _ HP) as He. destruct (stopped_empty _ _ _ _ _ HP Hs) as (Et & Esd & _).
  assert (enabled t = false) as Hen by (unfold enabled; by rewrite He, Hs).
  destruct ev as [ok now r|ok now l|i ok now|i ok now o jitter|now|x|]; cbn [on_event].
  - unfold emit. rewrite Hen. cbn. eauto.
  - unfold end_action. rewrite Hen. cbn. eauto.
  - rewrite Et, lookup_nil. eauto.
  - rewrite Esd, lookup_nil. eauto.
  - unfold flush_on_exit. rewrite He, Hs. destruct (current_token t now) as [[]|]; eauto.
  - cbn. eauto.
  - unfold discard, on_exporter. rewrite He. cbn. eauto.
Qed.

Lemma run_app json_text config x a b : run json_text config x (a ++ b) = foldl (on_event json_text) (run json_text config x a) b.
Proof. unfold run. by rewrite foldl_app. Qed.

Lemma stopped_for_good json_text raw version x events more : enabled (run json_text (Some (raw, version)) x events) = false →
  attempts (run json_text (Some (raw, version)) x (events ++ more)) = attempts (run json_text (Some (raw, version)) x events)
  ∧ ∃ e, exporter (run json_text (Some (raw, version)) x (events ++ more)) = Some e ∧ stopped (policy e) = true.
Proof.
  intros Hen. induction more as [|ev more [IH (e & He & Hs)]] using rev_ind.
  - rewrite app_nil_r. split; [done|].
    destruct (run_ok json_text (trim_end_matches "/"%char raw) version false raw x events) as [e HP]; [done|done|].
    exists e. split; [by destruct HP|]. unfold enabled in Hen. rewrite (p_exporter _ _ _ _ _ _ HP) in Hen. by apply negb_false_iff.
  - rewrite app_assoc, (run_app _ _ _ _ [ev]). cbn [foldl].
    destruct (run_ok json_text (trim_end_matches "/"%char raw) version false raw x (events ++ more)) as [e' HP]; [done|done|].
    pose proof (p_exporter _ _ _ _ _ _ HP) as E. rewrite He in E. injection E as <-.
    destruct (stopped_step json_text _ _ _ _ _ ev HP Hs) as [Ha (e' & He' & Ep)]. split; [by rewrite Ha|].
    exists e'. by rewrite Ep.
Qed.

(** Without a configuration there is no exporter, no timer and no request. *)
Lemma off_for_good json_text x events : let t := run json_text None x events in
  exporter t = None ∧ timers t = [] ∧ sending t = [] ∧ attempts t = [].
Proof.
  induction events as [|ev events IH] using rev_ind; [done|]. cbn zeta in *. rewrite run_app. cbn [foldl].
  destruct IH as (H1 & H2 & H3 & H4). set (t := run json_text None x events) in *. clearbody t.
  destruct ev as [ok now r|ok now l|i ok now|i ok now o jitter|now|y|]; cbn [on_event].
  - unfold emit, enabled. by rewrite H1.
  - unfold end_action, enabled. by rewrite H1.
  - by rewrite H2, lookup_nil.
  - by rewrite H3, lookup_nil.
  - unfold flush_on_exit. rewrite H1. by destruct (current_token t now) as [[]|].
  - done.
  - unfold discard, on_exporter. by rewrite H1.
Qed.

Lemma failing_all l : Forall (λ o, ∀ r, o ≠ Accepted r) l → failing l = length l.
Proof.
  induction l as [|o l IH] using rev_ind; [done|]. intros [Hl Ho]%Forall_app. rewrite failing_snoc, length_app, IH by done. cbn.
  apply Forall_cons in Ho as [Ho _]. destruct o as [r| |]; [by destruct (Ho r)|lia..].
Qed.

Lemma signals_bound (l : list Signal) : NoDup l → length l ≤ 2.
Proof.
  destruct l as [|a [|b [|c l]]]; cbn; try lia. rewrite !NoDup_cons, !elem_of_cons. destruct a, b, c; naive_solver.
Qed.

(** What leaves on the way out is a request per signal. *)
Lemma exit_sends json_text raw version x events now :
  let t := run json_text (Some (raw, version)) x events in
  ∃ l, attempts (flush_on_exit json_text now t) = attempts t ++ l
  ∧ Forall (λ a, keepalive (a_request a) = true ∧ a_batch a ≠ []) l ∧ NoDup (List.map a_signal l)
  ∧ (total (flat_map a_batch l) ≤ MAX_UNLOAD_BATCH_BYTES)%Z
  ∧ ∀ s, queued s (List.map (λ a, (a_signal a, a_batch a)) l) ≤ MAX_BATCH_ITEMS.
Proof.
  cbn zeta. destruct (run_ok json_text (trim_end_matches "/"%char raw) version false raw x events) as [e HP]; [done|done|].
  set (t := run json_text (Some (raw, version)) x events) in *. unfold flush_on_exit.
  assert (∃ l, attempts t = attempts t ++ l ∧ Forall (λ a, keepalive (a_request a) = true ∧ a_batch a ≠ []) l
    ∧ NoDup (List.map a_signal l) ∧ (total (flat_map a_batch l) ≤ MAX_UNLOAD_BATCH_BYTES)%Z
    ∧ ∀ s, queued s (List.map (λ a, (a_signal a, a_batch a)) l) ≤ MAX_BATCH_ITEMS) as Hnone.
  { exists []. rewrite app_nil_r. split_and!; [done|done|by constructor|done|intros; cbn; lia]. }
  destruct (current_token t now) as [[token z]|]; [|done]. rewrite (p_exporter _ _ _ _ _ _ HP). destruct (stopped (policy e)); [done|].
  pose proof (unload_batches_spec e (p_ok _ _ _ _ _ _ HP)) as Hu. destruct (unload_batches e) as [e' l].
  destruct Hu as (_ & _ & Ht & Hq & Hfull & Hnd & _). rewrite (foldl_made (λ b, attempt json_text e b.1 b.2 token true)).
  eexists. split; [done|]. rewrite !List.map_map. cbn. split_and!.
  - apply Forall_map. by eapply Forall_impl; [exact Hfull|].
  - done.
  - by rewrite flat_map_concat_map, List.map_map, <- flat_map_concat_map.
  - intros s. rewrite (List.map_ext _ id) by by intros []. by rewrite List.map_id.
Qed.

(** However often the page is hidden, each time is at most two requests. *)
Lemma attempts_bound json_text raw version x events :
  let t := run json_text (Some (raw, version)) x events in
  length (attempts t) ≤ flushes (attempts t) + 2 * length (List.filter hides events).
Proof.
  cbn zeta. induction events as [|ev events IH] using rev_ind; [by cbn; lia|].
  rewrite run_app, List.filter_app, length_app. cbn [foldl List.filter]. destruct (hides ev) eqn:Eh.
  - destruct ev as [| | | |now| |]; try done. cbn [on_event].
    destruct (exit_sends json_text raw version x events now) as (l & -> & _ & Hn%signals_bound & _).
    rewrite List.length_map in Hn. unfold flushes in *. rewrite List.filter_app, !length_app. cbn. lia.
  - destruct (event_sends json_text (run json_text (Some (raw, version)) x events) ev) as (l & -> & _ & Hk).
    destruct (Hk Eh) as [_ Hk']. unfold flushes in *. rewrite List.filter_app, !length_app.
    assert (List.filter (λ a, negb (keepalive (a_request a))) l = l) as ->; [|cbn; lia].
    clear -Hk'. induction Hk' as [|a l Ha _ IHl]; [done|]. cbn. by rewrite Ha, IHl.
Qed.

(** What waits of a signal: the batch that is to be tried again, and its buffer. *)
Definition kept (s : Signal) (e : Exporter) : list bytes :=
  match pending e with Some (s', batch) => if bool_decide (s' = s) then batch else [] | None => [] end ++ records (buffer e s).

Lemma kept_waiting s e : tag s (kept s e) = List.filter (λ y, bool_decide (y.1 = s)) (waiting e).
Proof.
  assert (∀ s' l, List.filter (λ y, bool_decide (y.1 = s)) (tag s' l) = if bool_decide (s' = s) then tag s' l else []) as E.
  { intros s' l. unfold tag. induction l as [|r l IH]; cbn; [by destruct (bool_decide _)|]. rewrite IH. by destruct (bool_decide _). }
  unfold kept, waiting. rewrite tag_app, !List.filter_app, !E. f_equal.
  - destruct (pending e) as [[s' l]|]; [|done]. rewrite E. case_bool_decide; by subst.
  - by destruct s; cbn; rewrite ?app_nil_r.
Qed.

(** *** Properties *)

(** C37: the export keeps its bounds, whatever the ingest answers, the user does and
    the session becomes.  At most 600 items and 512 KiB of a signal wait: 500 items
    and 256 KiB in its buffer, and the batch that waits to be tried again, which
    holds at least one item, at most 100, and at most 128 KiB unless one item is
    larger.  A flush is scheduled or under way at most once, and always when
    something waits, provided that the browser took every timer it was given.  A
    request that is not made on the way out carries such a batch; and no item is
    accepted, sent on the way out or kept more often than it was said. *)
Theorem export_keeps_its_bounds json_text raw version x events : 
  let t := run json_text (Some (raw, version)) x events in
  ∃ e, exporter t = Some e
  ∧ (∀ s, length (records (buffer e s)) ≤ 500 ∧ (total (records (buffer e s)) ≤ 256 * 1024)%Z)
  ∧ (∀ s batch, pending e = Some (s, batch) → 0 < length batch ≤ 100 ∧ ((total batch ≤ 128 * 1024)%Z ∨ length batch = 1))
  ∧ (∀ s, length (kept s e) ≤ 600 ∧ (total (kept s e) ≤ 512 * 1024)%Z
       ∧ tag s (kept s e) = List.filter (λ y, bool_decide (y.1 = s)) (waiting e))
  ∧ length (timers t) + length (sending t) = (if flushing e then 1 else 0)
  ∧ (Forall timers_taken events → waiting e ≠ [] → flushing e = true)
  ∧ (∀ a, a ∈ attempts t → keepalive (a_request a) = false →
       0 < length (a_batch a) ≤ 100 ∧ ((total (a_batch a) ≤ 128 * 1024)%Z ∨ length (a_batch a) = 1))
  ∧ ∀ item, times item (carried (accepted t)) + times item (exits (attempts t)) + times item (in_flight (sending t))
            + times item (waiting e) ≤ times item (carried (said t)).
Proof.
  cbn zeta. destruct (run_ok json_text (trim_end_matches "/"%char raw) version false raw x events) as [e HP]; [done|done|].
  exists e. pose proof HP as [H1 H2 H3 H4 H5 H6 H7 H8 H9 H10].
  assert (∀ s, length (records (buffer e s)) ≤ 500 ∧ (total (records (buffer e s)) ≤ 256 * 1024)%Z) as Hbuf.
  { intros s. destruct H2 as [[_ Hl1 Hl2 _] [_ Ht1 Ht2 _] _]. unfold MAX_BUFFERED_ITEMS, MAX_BUFFERED_BYTES in *. by destruct s. }
  assert (∀ batch, BatchOk batch → 0 < length batch ≤ 100 ∧ ((total batch ≤ 128 * 1024)%Z ∨ length batch = 1)) as Hbatch.
  { intros batch (Hne & Hn & Ht & _). unfold MAX_BATCH_ITEMS, MAX_BATCH_BYTES in *. destruct batch; [done|]. cbn [length] in *. lia. }
  pose proof (ok_pending _ H2) as Hp.
  split_and!; [done|done| | |by cbn in H4; lia| | |].
  - intros s batch E. rewrite E in Hp. by apply Hbatch.
  - intros s. split_and!; [| |apply kept_waiting]; unfold kept; destruct (Hbuf s) as [Hl Hb]; rewrite ?length_app, ?bytes_total_app.
    + destruct (pending e) as [[s' batch]|]; [|cbn; lia]. destruct (Hbatch _ Hp). case_bool_decide; cbn; lia.
    + destruct (pending e) as [[s' batch]|]; [|cbn -[total]; cbn; lia]. destruct Hp as (_ & _ & _ & Hp). unfold MAX_BUFFERED_BYTES in Hp.
      case_bool_decide; cbn -[total]; [lia|cbn; lia].
  - intros Htm Hw. destruct (run_ok json_text (trim_end_matches "/"%char raw) version true raw x events) as [e' HP']; [done|done|].
    pose proof (p_exporter _ _ _ _ _ _ HP') as E. rewrite H1 in E. injection E as <-.
    destruct (flushing e) eqn:Ef; [done|]. by destruct (Hw (p_timed _ _ _ _ _ _ HP' eq_refl Ef)).
  - intros a Ha Hk. rewrite Forall_forall in H6. by apply Hbatch, H6.
  - intros item. specialize (H10 item). cbn in H10. rewrite times_nil in H10. lia.
Qed.

(** C36: an ingest that keeps failing is left alone.  Without an acceptance at most
    13 requests are made whose answer is awaited, one after the other, and after
    the 13th failing answer at the latest the page has stopped; once it has, it
    keeps nothing and sends nothing, also not on the way out, whatever follows.
    Until then, whenever the page is hidden, at most two more are made, one for
    each signal, whose answers nobody awaits and which count nothing: besides the
    13 there are at most twice as many as the page was hidden.  Without a
    configured ingest no request is ever made. *)
Theorem a_failing_ingest_is_left_alone json_text raw version x events :
  (let t := run json_text (Some (raw, version)) x events in
   failing (answers t) ≤ 13
   ∧ flushes (attempts t) = length (answers t) + length (sending t) ∧ length (sending t) ≤ 1
   ∧ (Forall (λ o, ∀ r, o ≠ Accepted r) (answers t) →
        flushes (attempts t) ≤ 13 ∧ length (attempts t) ≤ 13 + 2 * length (List.filter hides events))
   ∧ (failing (answers t) = 13 → enabled t = false)
   ∧ (enabled t = false → ∀ more,
        let t' := foldl (on_event json_text) t more in
        attempts t' = attempts t ∧ enabled t' = false ∧ timers t' = [] ∧ sending t' = []
        ∧ ∀ e, exporter t' = Some e → waiting e = []))
  ∧ attempts (run json_text None x events) = [].
Proof.
  split; [|by destruct (off_for_good json_text x events) as (_ & _ & _ & ?)]. cbn zeta.
  destruct (run_ok json_text (trim_end_matches "/"%char raw) version false raw x events) as [e HP]; [done|done|].
  pose proof HP as [H1 H2 H3 H4 H5 H6 H7 H8 H9 H10].
  assert (enabled (run json_text (Some (raw, version)) x events) = negb (stopped (policy e))) as Hen by (unfold enabled; by rewrite H1).
  assert (length (sending (run json_text (Some (raw, version)) x events)) ≤ 1) as Hone by (cbn in H4; destruct (flushing e); lia).
  assert (failing (answers (run json_text (Some (raw, version)) x events)) ≤ 13
    ∧ (stopped (policy e) = false → failing (answers (run json_text (Some (raw, version)) x events)) ≤ 12)
    ∧ (stopped (policy e) = true → sending (run json_text (Some (raw, version)) x events) = [])) as (Hf & Hf' & Hsd).
  { destruct (stopped (policy e)) eqn:Es; [by split_and!; [destruct H7 as (_ & _ & ?)|done|intros _; apply (stopped_empty _ _ _ _ _ HP Es)]|].
    destruct H7 as [Hp Hf]. pose proof (spent_bound _ Hp). split_and!; [lia|lia|done]. }
  split_and!; [done|done|done| | |].
  - intros Hall. assert (flushes (attempts (run json_text (Some (raw, version)) x events)) ≤ 13) as Hfl.
    { rewrite H8. rewrite failing_all in Hf, Hf' by done.
      destruct (stopped (policy e)); [rewrite Hsd by done; cbn; lia|specialize (Hf' eq_refl); lia]. }
    split; [done|]. pose proof (attempts_bound json_text raw version x events) as Hb. cbv zeta in Hb. lia.
  - intros E. rewrite Hen. destruct (stopped (policy e)); [done|]. specialize (Hf' eq_refl). lia.
  - intros Hoff more. rewrite <- run_app. destruct (stopped_for_good json_text raw version x events more Hoff) as [Ha (e' & He' & Hs')].
    destruct (run_ok json_text (trim_end_matches "/"%char raw) version false raw x (events ++ more)) as [e2 HP2]; [done|done|].
    pose proof (p_exporter _ _ _ _ _ _ HP2) as E. rewrite He' in E. injection E as <-.
    destruct (stopped_empty _ _ _ _ _ HP2 Hs') as (? & ? & ?). split_and!; [done| |done|done|].
    + unfold enabled. by rewrite He', Hs'.
    + intros e2 E2. rewrite He' in E2. by injection E2 as <-.
Qed.

(** C38: what leaves, leaves under the session.  An event makes the page send at
    most one request, except on the way out, where it sends at most one for each
    signal, with at least one and at most 100 items, and 48 KiB together; each goes
    to the configured endpoint with its items as they were said and the access
    token the page then holds, which lasts for more than ten seconds; without such
    a token nothing is sent. *)
Theorem requests_carry_the_current_token json_text raw version x events ev :
  let t := run json_text (Some (raw, version)) x events in
  ∃ new, attempts (on_event json_text t ev) = attempts t ++ new
  ∧ (new ≠ [] → ∃ y, tokens t = Some y ∧ F64.ltb (F64.add (time_of ev) (F64.of_Z 10000)) (Login.access_expires_at_ms y) = true
       ∧ ∀ a, a ∈ new → a_request a = request (trim_end_matches "/"%char raw ++ signal_path (a_signal a))
            (signal_request json_text (a_signal a) version (a_batch a)) (Login.access_token y) (keepalive (a_request a)))
  ∧ (hides ev = false → length new ≤ 1 ∧ Forall (λ a, keepalive (a_request a) = false) new)
  ∧ (hides ev = true → (total (flat_map a_batch new) ≤ 48 * 1024)%Z ∧ NoDup (List.map a_signal new)
       ∧ Forall (λ a, keepalive (a_request a) = true ∧ 0 < length (a_batch a) ≤ 100) new).
Proof.
  cbn zeta. destruct (run_ok json_text (trim_end_matches "/"%char raw) version false raw x events) as [e HP]; [done|done|].
  destruct (event_sends json_text (run json_text (Some (raw, version)) x events) ev) as (new & Ha & Hs & Hone).
  exists new. split_and!; [done| |done|].
  - intros Hne. destruct Hs as [->|(y & e1 & Hy & He1 & Hl & Hall)]; [done|]. exists y. split_and!; [done|done|].
    pose proof (p_exporter _ _ _ _ _ _ HP) as E. rewrite He1 in E. injection E as <-.
    destruct (p_config _ _ _ _ _ _ HP) as [<- <-]. exact Hall.
  - intros Hh. destruct ev as [| | | |now| |]; try done.
    destruct (exit_sends json_text raw version x events now) as (l & El & Hfull & Hnd & Ht & Hq).
    cbn [on_event] in Ha. rewrite El in Ha. apply app_inv_head in Ha. subst l. split_and!; [done|done|].
    apply Forall_forall. intros a Hin. rewrite Forall_forall in Hfull. destruct (Hfull a Hin) as [Hk Hne]. split; [done|].
    split; [by destruct (a_batch a); [|cbn; lia]|]. specialize (Hq (a_signal a)). unfold MAX_BATCH_ITEMS in Hq. etrans; [|exact Hq].
    clear -Hin. induction new as [|b new IH]; [by apply elem_of_nil in Hin|]. cbn [List.map]. rewrite queued_cons.
    apply elem_of_cons in Hin as [->|Hin]; [cbn; rewrite bool_decide_eq_true_2 by done; lia|]. specialize (IH Hin). lia.
Qed.

(** ** Sample *)
Module Sample.

Fixpoint json_text (v : Value) : bytes :=
  match v with
  | VNull => "null" | VBool b => if b then "true" else "false" | VNumber n => show_Z n | VOtherNumber text => text | VString s => Trace.quoted s
  | VArray l => "[" ++ join "," (List.map json_text l) ++ "]"
  | VObject l => "{" ++ join "," (List.map (λ kv, Trace.quoted kv.1 ++ ":" ++ json_text kv.2) l) ++ "}"
  end.

Definition ENDPOINT : bytes := "https://config.example/".
Definition VERSION : bytes := "1.2.3".
Definition session (token : bytes) (expires : Z) : option Login.MemoryTokens :=
  Some (Login.mkTokens (mkSecret token) (mkSecret "refresh") (F64.of_Z expires) (F64.of_Z 99000000) "https://id.example/token").
Definition ms : Z → spec_float := F64.of_Z.
Definition record (now : Z) : Trace.LogRecord :=
  Trace.rpc_record (ms now) Trace.Sample.LIST (F64.of_Z 25) None None.
Definition half : spec_float := F64.div (F64.of_Z 1) (F64.of_Z 2).

(** A call every ten seconds, each sent a second later and answered so. *)
Fixpoint visits (n : nat) (now : Z) (o : Outcome) : list Event :=
  match n with
  | 0 => []
  | S n =>
      [CallEnds true (ms now) (record now); TimerFires 0 true (ms (now + 1000)); Answer 0 true (ms (now + 1200)) o half]
      ++ visits n (now + 10000) o
  end.
Definition refused : Outcome := outcome_of (Some (400%Z, None, None)).
Definition refusals : list Event := visits 3 1000 refused.
Definition good : option Login.MemoryTokens := session "token-1" 5000000.
#[local] Notation page events := (run json_text (Some (ENDPOINT, VERSION)) good events).

(** Delays double and are spread; a [Retry-After] is kept to a minute. *)
Example delays :
  List.map (λ n, backoff n (F64.of_Z 1)) [1; 2; 3; 20]%Z = [1000; 2000; 4000; 30000]%Z
  ∧ backoff 1 F64.zero = 500%Z
  ∧ (decide_ new_policy (outcome_of (Some (429%Z, Some (" 3600" : bytes), None))) half).1.2 = RetryAfter 60000.
Proof. vm_compute. split_and!; reflexivity. Qed.

(** The page gathers until it has been quiet for a second, and at most five. *)
Example gathering :
  gather_wait_ms (ms 1000) (ms 0) (ms 900) = Some 900%Z ∧ gather_wait_ms (ms 4900) (ms 0) (ms 4800) = Some 100%Z
  ∧ gather_wait_ms (ms 5000) (ms 0) (ms 4900) = None.
Proof. vm_compute. split_and!; reflexivity. Qed.

(** A refused token is marked stale and tried once more. *)
Example second_refusal_stops :
  let t := page ([CallEnds true (ms 1000) (record 1000); TimerFires 0 true (ms 2000);
                  Answer 0 true (ms 2100) (outcome_of (Some (401%Z, None, None))) half]) in
  (F64.ltb F64.zero (ms 1) = true ∧ Login.access_expires_at_ms <$> tokens t = Some F64.zero ∧ timers t = [5000%Z])
  ∧ enabled (foldl (on_event json_text) t [TokensChange (session "token-2" 6000000); TimerFires 0 true (ms 7100);
       Answer 0 true (ms 7200) (outcome_of (Some (401%Z, None, None))) half]) = false.
Proof. vm_compute. split_and!; reflexivity. Qed.

(** The line that says the page gave up is written before the batch that made it
    give up is counted. *)
Example last_line_undercounts :
  (dropped <$> exporter (page refusals), last (console (page refusals)))
  = (Some 3%Z, Some ("sovereign-config: client telemetry to https://config.example is off for this page (HTTP 400); 2 items dropped" : bytes)).
Proof. vm_compute. reflexivity. Qed.

(** While a refresh has the tokens, the page takes itself for logged out: the
    batch it took goes, although the session is good. *)
Example refresh_discards_what_waits :
  let t := page [CallEnds true (ms 1000) (record 1000); TokensChange None; TimerFires 0 true (ms 2000);
                 TokensChange (session "token-2" 6000000)] in
  (length (said t), attempts t, waiting <$> exporter t, timers t) = (1, [], Some [], []).
Proof. vm_compute. reflexivity. Qed.

(** A page that is hidden and then left spends its budget twice: the bodies come
    to more than the 64 KiB the browser allows them together. *)
Example two_exits_exceed_the_cap :
  let t := run (λ _, List.repeat "x"%char 40000) (Some (ENDPOINT, VERSION)) good
             [CallEnds true (ms 1000) (record 1000); CallEnds true (ms 1001) (record 1001); PageHides (ms 1500); PageHides (ms 1501)] in
  (length (attempts t) =? 2)%nat && (65536 <? total (flat_map a_batch (attempts t)))%Z
  && forallb (λ a, keepalive (a_request a)) (attempts t) = true.
Proof. vm_compute. reflexivity. Qed.

(** A batch that waits to be tried again comes on top of a full buffer. *)
Example six_hundred_wait :
  let calls n now := List.map (λ _, CallEnds true (ms now) (record now)) (seq 0 n) in
  let t := run (λ _, "x") (Some (ENDPOINT, VERSION)) good
             (calls 100 1000%Z ++ [TimerFires 0 true (ms 7000); Answer 0 true (ms 7100) Unreachable half] ++ calls 500 7200%Z) in
  (length ∘ kept Logs) <$> exporter t = Some 600.
Proof. vm_compute. reflexivity. Qed.

(** A page that is hidden again and again asks a failing ingest each time. *)
Example hidden_pages_ask_on :
  let t := page (flat_map (λ n, [CallEnds true (ms (Z.of_nat n)) (record (Z.of_nat n)); PageHides (ms (Z.of_nat n))]) (seq 1000 20)) in
  (length (attempts t), flushes (attempts t), enabled t) = (20, 0, true).
Proof. vm_compute. reflexivity. Qed.

Lemma export_keeps_its_bounds_witness :
  Forall timers_taken refusals
  ∧ ∃ e, exporter (page refusals) = Some e ∧ (∀ s, length (records (buffer e s)) ≤ 500)
    ∧ (waiting e ≠ [] → flushing e = true).
Proof.
  assert (Forall timers_taken refusals) as H by (vm_compute; repeat constructor).
  split; [exact H|].
  destruct (export_keeps_its_bounds json_text ENDPOINT VERSION good refusals)
    as (e & He & Hb & _ & _ & _ & Hw & _).
  exists e. split; [exact He|]. split; [intros s; exact (proj1 (Hb s))|exact (Hw H)].
Defined.

Lemma a_failing_ingest_is_left_alone_witness :
  enabled (page refusals) = false
  ∧ attempts (foldl (on_event json_text) (page refusals) [CallEnds true (ms 90000) (record 90000); PageHides (ms 90100)])
    = attempts (page refusals).
Proof.
  assert (enabled (page refusals) = false) as Hoff by (vm_compute; reflexivity). split; [exact Hoff|].
  pose proof (a_failing_ingest_is_left_alone json_text ENDPOINT VERSION good refusals) as H.
  cbv zeta in H. revert Hoff H. generalize (page refusals). intros t Hoff [(_ & _ & _ & _ & _ & Hstop) _].
  exact (proj1 (Hstop Hoff [CallEnds true (ms 90000) (record 90000); PageHides (ms 90100)])).
Defined.

Definition first : list Event := [CallEnds true (ms 1000) (record 1000)].

Lemma requests_carry_the_current_token_witness :
  length (attempts (on_event json_text (page first) (TimerFires 0 true (ms 2000)))) = 1
  ∧ ∃ new y, attempts (on_event json_text (page first) (TimerFires 0 true (ms 2000))) = attempts (page first) ++ new
    ∧ tokens (page first) = Some y ∧ Forall (λ a, In ("authorization" : bytes, "Bearer " ++ expose_secret (Login.access_token y)) (r_headers (a_request a))) new.
Proof.
  assert (length (attempts (on_event json_text (page first) (TimerFires 0 true (ms 2000)))) = 1) as Hl by (vm_compute; reflexivity).
  assert (length (attempts (page first)) = 0) as E0 by (vm_compute; reflexivity).
  pose proof (requests_carry_the_current_token json_text ENDPOINT VERSION good first
    (TimerFires 0 true (ms 2000))) as H.
  cbv zeta in H.
  split; [exact Hl|]. revert Hl E0 H. generalize (on_event json_text (page first) (TimerFires 0 true (ms 2000))) (page first).
  intros after before Hl E0 (new & Ha & Hs & _). rewrite Ha, length_app, E0 in Hl.
  destruct Hs as (y & Hy & _ & Hall); [by intros ->|]. exists new, y. split; [exact Ha|]. split; [exact Hy|].
  apply Forall_forall. intros a Hin. rewrite (Hall a Hin). right. left. reflexivity.
Defined.

End Sample.

End Exporting.
